(* ===== verification/_CoqProject ===== *)
-Q . S2P
Prelude.v
Text.v
Net.v
Cidr.v
Float.v
Reservation.v
Allocate.v
Scan.v
Consumption.v
Tenant.v
Sha256.v
Scope.v
NetText.v
NetParse.v
Types.v
Db.v
PoolObject.v
Errors.v
Class.v
Discover.v
BoundedSearch.v
Prefix.v
PoolInvariant.v
PoolWrites.v
Cascade.v
Locking.v
Provision.v
Range.v
ObjectLaws.v
Validation.v
ValidationLaws.v
Access.v
Claim.v
ClaimLaws.v
ClaimDelete.v
Pools.v
PoolLaws.v
Registry.v
Nesting.v
History.v
Service.v
Changelog.v
Watch.v
WatchStream.v
Startup.v
Store.v
StoreLaws.v
ClientScope.v
ClientAddr.v
ClientClaim.v
ClientServed.v
ClientTree.v
ClientPools.v
ClientAlloc.v
ClientApp.v
Memory.v
ApiV1.v
ApiInternal.v
Conversion.v
DeepCopy.v
DeepCopyV1.v
DeepCopyInternal.v
Selectors.v
Quota.v
Table.v
ClientView.v
