(* ===== verification/Prelude.v ===== *)
(** * Milo IPAM: a verification of the address allocator

    Milo IPAM is an aggregated Kubernetes API server that hands out IP addresses.
    Operators author root pools ([IPPool]) and classes ([IPClass]); a consumer
    creates a claim ([IPClaim]) of a class for a scope; the server finds or
    provisions the pool of that class and scope, allocates a block in PostgreSQL
    and records it ([IPAllocation]).  This library models that program, file by
    file, and proves what makes it correct: no address is handed out twice within
    an address space, nothing anyone holds is released, the running totals are
    exact, and a watcher sees every change once while the log keeps it.

    ** The parts, and where they are modelled

    Addresses and arithmetic:
    - Net, NetText, NetParse: the parts of Go's [net], [net/netip] and [math/big]
      the source uses, over byte slices and texts;
    - Float: float64 as the Standard Library's [SpecFloat] at binary64;
    - Text: Go strings; Sha256: [crypto/sha256] and [encoding/hex];
    - Cidr, Reservation, Allocate, Scan, Consumption: [internal/allocation],
      function by function ([cidr.go], [reservation.go], [allocate.go], [scan.go],
      [consumption.go]).

    Identity:
    - Tenant: [internal/tenant]; Scope: [internal/scope];
    - Types: the API objects of [pkg/apis/ipam]; Errors: [pkg/ipamerrors] and
      [internal/registry/ipam/registryerrors].

    The allocator over its tables ([internal/allocator] and [migrations]):
    - Db: the tables as one record, a transaction as a function from a database to
      a value and a database or to an error, each statement with the constraints
      and triggers PostgreSQL runs inside it;
    - PoolObject, Prefix: [prefix.go], [consumption.go], [reservations.go];
      BoundedSearch: [boundedsearch.go]; Class: [class.go]; Discover:
      [discover.go], [agreement.go] and [resolve.go]; Cascade: [cascade.go] and
      [scoperange.go];
    - PoolInvariant states the invariant of the ledger; PoolWrites, Provision,
      Range and ObjectLaws prove that every operation keeps it; Locking: the row locks
      of an allocation and a release, and two runs whole transactions do not have.

    The request handlers ([internal/registry/ipam], [internal/access]):
    - Validation, ValidationLaws: the strategies; Access: who may use what;
    - Claim, ClaimLaws, ClaimDelete: [ipclaim]; Pools, PoolLaws: [ippool];
      Registry: [ipclass] and [ipallocation];
    - Service: all of them as steps of one transition system over the database, with
      runs of the handlers between the transactions of a handler; Nesting: a child
      pool lies inside the block recorded for it, whatever runs; History: what each
      transaction adds to the changelog.

    Storage and watch ([internal/storage/postgres], [internal/watch]):
    - Changelog: the object and changelog tables and the transaction system that
      fills them, as a step relation; Store, StoreLaws: the storage interface;
      Watch, WatchStream: the watch.
    - Startup: the retries of [cmd/ipam/serve.go], the listener of the watch and its
      reconnections, [internal/fieldindex].

    Around a request ([pkg/apis/ipam/v1alpha1], [cmd/ipam],
    [internal/registry/ipam/tableconvertor]):
    - Memory: values with the places their pointers, slices and maps live at; ApiV1,
      ApiInternal: the two versions of the objects with every field; Conversion:
      [conversion_impl.go]; DeepCopy, DeepCopyV1, DeepCopyInternal: the generated deep
      copies of both packages, function by function;
    - Selectors: [fieldlabels.go] and the [SelectableFields] of the strategies, over
      the store's list; Quota: [admission.go]; Table: the printed columns.

    The command-line client ([cmd/milo-ipam]):
    - ClientScope: [scope.go], the flag readers of [helpers.go], [errors.go];
      ClientAddr: the lookup of [allocation.go] by address; ClientClaim: [claim.go]
      and [confirm.go], over a server interface ([ClaimServer]); ClientServed: that
      interface discharged by Claim's handlers; ClientTree: [tree.go]; ClientPools:
      [pool.go], [poolsForClass] of [class.go] and [entitlement.go]; ClientAlloc: the
      rest of [allocation.go], over Registry's handlers; ClientApp: [app.go],
      [transport.go], the checks of [root.go] and the exit of [main.go]; ClientView:
      [util.go], [output.go], the tables, detail views and result lines.

    They interact as the code has it: a handler calls [Class.ResolveClass], then
    [Cascade.ResolvePool], whose levels commit one at a time, then
    [Prefix.AllocatePrefix] and the object writes in one transaction; the store
    writes a changelog row with every change, and a watch reads those rows behind
    the transaction horizon.

    ** Conventions

    A Go [(value, error)] is a [result]; a transaction that fails leaves no
    database, because its caller rolls it back.  A transaction is taken whole: what
    other transactions commit is let in before each transaction of a handler, as an
    argument, [others], indexed by the transaction; the theorems hold for every [others]
    that keeps the ledger's invariant, and in Service [others] are runs of the handlers
    themselves.  Locking has what is lost by not splitting transactions.
    Failures from outside ([faults], [fails]) are arguments too: a transaction of claim
    create or claim delete that does not begin, run or commit.  What is not under
    [src/] is an argument with its documented behaviour as laws: the API machinery
    (classes [ApiMachinery] and [RestCreate]), the authorizer, the generic store
    behind a handler ([Get], [StoreCreate], [StoreDelete]), the codec.

    ** What the theorems show

    - The service: from an empty database, whatever handlers run, a transaction at a
      time and to any depth within one another, those of a claim failing or not, no
      address beneath a pool, in it or in any pool carved from it, is out twice within an
      address space; totals never drift; the changelog, read change by change, ends at
      the stored objects; every object stays readable under its key, and every block
      claim can still be deleted.  Assumed of a run: tenants' names hold no slash, and,
      but for the changelog, careful writers: a root pool's range is neither IPv4 written
      as IPv6 nor the end of its family, and whoever writes a pool's status leaves its
      range ([pool_status_unguarded] is what happens otherwise).
    - The ledger: allocation is sound, succeeds when space is free and reports
      exhaustion only otherwise; releases keep what others hold; the running total
      is the measurement; the search floor is never above free space, transactions being
      taken whole ([floor_above_a_freed_block] is a run where they are not).
    - The arithmetic: searches return free aligned blocks, first fit and the
      streaming scan agree, reservations are the edges of the pool.
    - Provisioning: racing claims agree on one pool per class and scope; a carve is
      free in every space; a range is held by one claim.
    - The handlers: a claim is created whole or not at all, a dry run answers as
      the create would, a delete whose first transaction commits completes unless every
      attempt after it is cut short, and create followed by delete gives the ledger back
      where the policy is to free; pools and classes likewise.
    - The tenancy: digests, keys and encodings are injective (digests up to a
      SHA-256 collision), checks ask about the right project.
    - Start-up: the allocator's pool is opened within fourteen seconds or refused, and
      the listener reconnects for as long as the process is up.
    - The watch: every covered committed row is emitted once and in order of
      transaction ids, unless the cleanup took it first; drains end, the initial list
      leaves no gap; the changelog replays to the objects.
    - The client: a retried create that names its claim reuses it, a taken name never
      yields another's, what it validates is what the server validates, the tree prints
      every pool once, a release tells the fate of the address, and an address is
      looked up to all its holders.
    - Around a request: conversions and deep copies lose and share nothing, selectors select what they
      say, no claim is created that nobody is charged for, a pool in use never
      prints as empty.
    - Closed runs (Locking, PoolLaws, ClaimLaws, Service, WatchStream, StoreLaws, ClientServed) and
      theorems (ClientClaim, ClientTree, ClientPools, ClientAlloc, ClientView,
      Selectors, Quota) show where
      the program falls short of what its comments promise.

    ** Bounds

    The source's own limits are definitions: 100000 pages of 256 rows in a search,
    eight levels of ancestry, 253 bytes of a pool name, 1024
    reserved positions, 500 rows per poll, three delete attempts, eleven update
    attempts, 4096 cached namespaces.  Fuel of the model's own is: the pages of
    [bounded_loop], which are the source's limit; the chain of [ancestry_loop],
    and the depth of [releaseRangeTree], which the source bounds by
    [MaxClassChainDepth]; the splitting of a region, for which [split_fuel] is
    enough ([splitRegion_tiles]); and the depth of the printed pool tree, for which
    the number of pools is enough unless parents form a cycle
    ([tree_prints_each_once], [cycle_never_ends]).

    ** Not modelled

    Metrics, logs, spans and conditions: nothing reads them back.  JSON: a stored
    document is the object it encodes ([Document]).  The system fields of metadata
    (UID, creation time, managed fields).  The sentences of error messages.  Goroutine
    scheduling and time beyond the clocks the caches
    and the watch compare.  [ToLower] is ASCII.  The generic API server around the
    handlers and its wiring ([internal/apiserver], the rest of
    [cmd/ipam]), the migrations that only backfill, and the other generated code.
    Of the client: its commands' help, messages and fixes, JSON and YAML, the
    alignment of columns and the plugin manifest ([manifest.go]). *)

From stdpp Require Export base list numbers strings sorting gmap.
From Stdlib Require Export ZArith Lia.

Declare Scope ipam_scope.
Delimit Scope ipam_scope with ipam.
Open Scope Z_scope.

(** ** Results: a Go [(value, error)] pair *)

Inductive result (E A : Type) : Type :=
| Ok (a : A)
| Err (e : E).
Arguments Ok {E A} a.
Arguments Err {E A} e.

#[export] Instance result_ret (E : Type) : MRet (result E) := fun A a => Ok a.
#[export] Instance result_bind (E : Type) : MBind (result E) :=
  fun A B k m => match m with Ok a => k a | Err e => Err e end.
#[export] Instance result_fmap (E : Type) : FMap (result E) :=
  fun A B f m => match m with Ok a => Ok (f a) | Err e => Err e end.

#[export] Instance result_eq_dec (E A : Type) `{EqDecision E, EqDecision A} :
  EqDecision (result E A).
Proof. solve_decision. Defined.

Definition is_ok {E A} (r : result E A) : bool :=
  match r with Ok _ => true | Err _ => false end.

(** [wrap_err] replaces the error of a failed call: Go's
    [if err != nil { return ..., e }]. *)
Definition wrap_err {E F A} (f : E -> F) (r : result E A) : result F A :=
  match r with Ok a => Ok a | Err e => Err (f e) end.

Lemma result_bind_ok {E A B} (m : result E A) (k : A -> result E B) b :
  (m ≫= k) = Ok b -> exists a, m = Ok a /\ k a = Ok b.
Proof. destruct m; cbn; [eauto | discriminate]. Qed.

Create HintDb ipam.

(** ** Automation *)

(** Case analysis on the boolean comparisons of [Z] in sight, each turned into
    the proposition [lia] understands. *)
Ltac zbool :=
  repeat match goal with
  | H : (_ && _)%bool = true |- _ => apply andb_true_iff in H; destruct H
  | H : (_ || _)%bool = false |- _ => apply orb_false_iff in H; destruct H
  | H : negb _ = true |- _ => apply negb_true_iff in H
  | H : negb _ = false |- _ => apply negb_false_iff in H
  | H : (_ =? _)%Z = true |- _ => apply Z.eqb_eq in H
  | H : (_ =? _)%Z = false |- _ => apply Z.eqb_neq in H
  | H : (_ <? _)%Z = true |- _ => apply Z.ltb_lt in H
  | H : (_ <? _)%Z = false |- _ => apply Z.ltb_ge in H
  | H : (_ <=? _)%Z = true |- _ => apply Z.leb_le in H
  | H : (_ <=? _)%Z = false |- _ => apply Z.leb_gt in H
  end.

(** Split the first conditional on a comparison in the goal. *)
Ltac zcase :=
  match goal with
  | |- context [(?a <? ?b)%Z] => destruct (Z.ltb_spec a b)
  | |- context [(?a <=? ?b)%Z] => destruct (Z.leb_spec a b)
  | |- context [(?a =? ?b)%Z] => destruct (Z.eqb_spec a b)
  end.

(** ** Sorting

    Go's [sort.Slice] takes a strict order and promises a sorted permutation.
    It promises nothing about ties; insertion after the last element that is
    not greater is one of the orders it may produce, and the components prove
    that their answers do not depend on which. *)

Section SortSlice.
Context {A : Type} (key : A -> Z).

Fixpoint insert_by (x : A) (l : list A) : list A :=
  match l with
  | [] => [x]
  | y :: l' => if key x <? key y then x :: l else y :: insert_by x l'
  end.

Fixpoint sort_by (l : list A) : list A :=
  match l with
  | [] => []
  | x :: l' => insert_by x (sort_by l')
  end.

Definition key_le (x y : A) : Prop := key x <= key y.

Lemma insert_by_perm x l : Permutation (insert_by x l) (x :: l).
Proof.
  induction l as [|y l IH]; cbn; [done|].
  destruct (key x <? key y); [done|]. rewrite IH. constructor.
Qed.

Lemma sort_by_perm l : Permutation (sort_by l) l.
Proof.
  induction l as [|x l IH]; cbn; [done|]. by rewrite insert_by_perm, IH.
Qed.

Lemma insert_by_sorted x l : StronglySorted key_le l -> StronglySorted key_le (insert_by x l).
Proof.
  induction 1 as [|y l Hs IH Hy]; cbn; [repeat constructor|].
  destruct (Z.ltb_spec (key x) (key y)).
  - constructor; [by constructor|]. constructor; [red; lia|].
    eapply Forall_impl; [exact Hy|]. unfold key_le. lia.
  - constructor; [done|]. rewrite insert_by_perm.
    constructor; [red; lia | done].
Qed.

Lemma sort_by_sorted l : StronglySorted key_le (sort_by l).
Proof. induction l; cbn; [constructor | by apply insert_by_sorted]. Qed.

Lemma sort_by_in x l : x ∈ sort_by l <-> x ∈ l.
Proof. by rewrite sort_by_perm. Qed.

(** Elements with distinct keys have one sorted order. *)
Lemma sorted_unique l1 l2 :
  (forall x y, x ∈ l1 -> y ∈ l1 -> key x = key y -> x = y) ->
  StronglySorted key_le l1 -> StronglySorted key_le l2 -> Permutation l1 l2 -> l1 = l2.
Proof.
  intros Hinj Hs1. revert l2. induction Hs1 as [|x l1 Hs1 IH Hx]; intros l2 Hs2 HP.
  { by apply Permutation_nil_l in HP. }
  destruct Hs2 as [|y l2 Hs2 Hy]; [by apply Permutation_nil_r in HP|].
  assert (x = y) as <-.
  { assert (x ∈ y :: l2) as Hxy by (rewrite <- HP; left).
    assert (y ∈ x :: l1) as Hyx by (rewrite HP; left).
    apply Hinj; [left | done |]. rewrite Forall_forall in Hx, Hy.
    apply elem_of_cons in Hxy as [->|Hxy]; [done|].
    apply elem_of_cons in Hyx as [->|Hyx]; [done|].
    specialize (Hx _ Hyx). specialize (Hy _ Hxy). red in Hx, Hy. lia. }
  f_equal. apply IH; [|done|by eapply Permutation_cons_inv].
  intros a b Ha Hb. apply Hinj; by right.
Qed.

Lemma sort_by_length l : length (sort_by l) = length l.
Proof. by rewrite sort_by_perm. Qed.
End SortSlice.

(** ** Sums *)

Definition sumZ {A} (f : A -> Z) (l : list A) : Z := foldr (fun x acc => f x + acc) 0 l.

Lemma sumZ_app {A} (f : A -> Z) l1 l2 : sumZ f (l1 ++ l2) = sumZ f l1 + sumZ f l2.
Proof. unfold sumZ. induction l1; cbn; lia. Qed.

Lemma sumZ_map {A B} (f : B -> Z) (g : A -> B) l : sumZ f (map g l) = sumZ (fun x => f (g x)) l.
Proof. unfold sumZ. induction l as [|x l IH]; [done|]. cbn [map foldr]. by rewrite IH. Qed.

Lemma sumZ_add {A} (f g : A -> Z) l : sumZ (fun x => f x + g x) l = sumZ f l + sumZ g l.
Proof. unfold sumZ. induction l as [|x l IH]; [done|]. cbn [foldr]. lia. Qed.

Lemma sumZ_perm {A} (f : A -> Z) l1 l2 : Permutation l1 l2 -> sumZ f l1 = sumZ f l2.
Proof. unfold sumZ. induction 1; cbn; lia. Qed.

Lemma sumZ_le {A} (f g : A -> Z) l :
  (forall x, x ∈ l -> f x <= g x) -> sumZ f l <= sumZ g l.
Proof.
  unfold sumZ. induction l as [|a l IH]; cbn; intros H; [lia|].
  specialize (H a ltac:(left)) as Ha.
  assert (forall x, x ∈ l -> f x <= g x) by (intros; apply H; by right).
  specialize (IH H0). lia.
Qed.

Lemma sumZ_ext {A} (f g : A -> Z) l :
  (forall x, x ∈ l -> f x = g x) -> sumZ f l = sumZ g l.
Proof.
  intros H. apply Z.le_antisymm; apply sumZ_le; intros x Hx; rewrite (H x Hx); lia.
Qed.

Lemma sumZ_nonneg {A} (f : A -> Z) l : (forall x, x ∈ l -> 0 <= f x) -> 0 <= sumZ f l.
Proof.
  intros H. transitivity (sumZ (fun _ : A => 0) l); [|by apply sumZ_le].
  clear. unfold sumZ. induction l; cbn; lia.
Qed.

Lemma foldl_sumZ {A} (f : A -> Z) l acc :
  foldl (fun t x => t + f x) acc l = acc + sumZ f l.
Proof. revert acc. induction l; intros acc; cbn; [lia|]. rewrite IHl. unfold sumZ. lia. Qed.

(** ** Counting the integers of an interval

    [count P lo n] is the number of [x] in [lo, lo + n) with [P x]: the
    address counts the capacity figures are specified by. *)

Fixpoint count_nat (P : Z -> bool) (lo : Z) (n : nat) : Z :=
  match n with
  | O => 0
  | S n' => (if P lo then 1 else 0) + count_nat P (lo + 1) n'
  end.

Definition count (P : Z -> bool) (lo hi : Z) : Z := count_nat P lo (Z.to_nat (hi - lo + 1)).

Lemma count_nat_ext P Q lo n :
  (forall x, lo <= x < lo + Z.of_nat n -> P x = Q x) -> count_nat P lo n = count_nat Q lo n.
Proof.
  revert lo. induction n as [|n IH]; intros lo H; [done|]. cbn [count_nat].
  rewrite (H lo) by lia. rewrite (IH (lo + 1)) by (intros; apply H; lia). done.
Qed.

Lemma count_nat_app P lo n m :
  count_nat P lo (n + m) = count_nat P lo n + count_nat P (lo + Z.of_nat n) m.
Proof.
  revert lo. induction n as [|n IH]; intros lo; cbn [count_nat Nat.add].
  - replace (lo + Z.of_nat 0) with lo by lia. lia.
  - rewrite IH. replace (lo + 1 + Z.of_nat n) with (lo + Z.of_nat (S n)) by lia. lia.
Qed.

Lemma count_ext P Q lo hi :
  (forall x, lo <= x <= hi -> P x = Q x) -> count P lo hi = count Q lo hi.
Proof. intros H. apply count_nat_ext. intros x Hx. apply H. lia. Qed.

Lemma count_split P lo mid hi :
  lo <= mid + 1 -> mid <= hi -> count P lo hi = count P lo mid + count P (mid + 1) hi.
Proof.
  intros H1 H2. unfold count.
  replace (Z.to_nat (hi - lo + 1))
    with (Z.to_nat (mid - lo + 1) + Z.to_nat (hi - (mid + 1) + 1))%nat by lia.
  rewrite count_nat_app.
  replace (lo + Z.of_nat (Z.to_nat (mid - lo + 1))) with (mid + 1) by lia. done.
Qed.

Lemma count_nat_const (b : bool) lo n :
  count_nat (fun _ => b) lo n = if b then Z.of_nat n else 0.
Proof.
  revert lo. induction n as [|n IH]; intros lo; cbn [count_nat]; [by destruct b|].
  rewrite IH. destruct b; lia.
Qed.

Lemma count_nat_compl P lo n :
  count_nat P lo n + count_nat (fun x => negb (P x)) lo n = Z.of_nat n.
Proof.
  revert lo. induction n as [|n IH]; intros lo; cbn [count_nat]; [done|].
  specialize (IH (lo + 1)). destruct (P lo); cbn [negb]; lia.
Qed.

Lemma count_nat_nonneg P lo n : 0 <= count_nat P lo n.
Proof.
  revert lo. induction n as [|n IH]; intros lo; cbn [count_nat]; [done|].
  specialize (IH (lo + 1)). destruct (P lo); lia.
Qed.

Lemma count_true P lo hi :
  lo <= hi + 1 -> (forall x, lo <= x <= hi -> P x = true) -> count P lo hi = hi - lo + 1.
Proof.
  intros Hle H. rewrite (count_ext P (fun _ => true)) by exact H. unfold count.
  rewrite count_nat_const. lia.
Qed.

Lemma count_false P lo hi :
  (forall x, lo <= x <= hi -> P x = false) -> count P lo hi = 0.
Proof.
  intros H. rewrite (count_ext P (fun _ => false)) by exact H. apply count_nat_const.
Qed.

Lemma count_nonneg P lo hi : 0 <= count P lo hi.
Proof. apply count_nat_nonneg. Qed.

Lemma count_compl P lo hi :
  lo <= hi + 1 -> count P lo hi + count (fun x => negb (P x)) lo hi = hi - lo + 1.
Proof. intros H. unfold count. rewrite count_nat_compl. lia. Qed.

(** Leading addresses that do not count can be dropped. *)
Lemma count_from P a a' b :
  a <= a' -> (forall x, a <= x < a' -> P x = false) -> count P a b = count P a' b.
Proof.
  intros Ha H. destruct (Z.le_gt_cases a' (b + 1)).
  - rewrite (count_split P a (a' - 1) b) by lia.
    rewrite (count_false P a) by (intros; apply H; lia). replace (a' - 1 + 1) with a' by lia. done.
  - rewrite (count_false P a b) by (intros; apply H; lia). rewrite count_false; [done | lia].
Qed.

(** ** Machine integers *)

(** The conversion of a big integer to Go's [int64]: the low 64 bits, signed. *)
Definition to_int64 (z : Z) : Z := (z + 2 ^ 63) mod 2 ^ 64 - 2 ^ 63.

Definition int64_ok (z : Z) : Prop := - 2 ^ 63 <= z < 2 ^ 63.

Lemma to_int64_id z : int64_ok z -> to_int64 z = z.
Proof. intros [? ?]. unfold to_int64. rewrite Z.mod_small by lia. lia. Qed.

Lemma to_int64_ok z : int64_ok (to_int64 z).
Proof. unfold to_int64. pose proof (Z.mod_pos_bound (z + 2 ^ 63) (2 ^ 64)). red. lia. Qed.

(** ** Powers of two and alignment *)

Lemma pow2_pos k : 0 <= k -> 0 < 2 ^ k.
Proof. intros. apply Z.pow_pos_nonneg; lia. Qed.
#[export] Hint Resolve pow2_pos : ipam.

Lemma pow2_split a b : 0 <= a <= b -> 2 ^ b = 2 ^ (b - a) * 2 ^ a.
Proof. intros. rewrite <- Z.pow_add_r by lia. f_equal. lia. Qed.

Lemma pow2_divide a b : 0 <= a <= b -> (2 ^ a | 2 ^ b).
Proof. intros. exists (2 ^ (b - a)). by apply pow2_split. Qed.

Lemma aligned_divide s k : 0 <= k -> s mod 2 ^ k = 0 <-> (2 ^ k | s).
Proof. intros. pose proof (pow2_pos k). apply Z.mod_divide. lia. Qed.

Lemma aligned_weaken s a b : 0 <= a <= b -> s mod 2 ^ b = 0 -> s mod 2 ^ a = 0.
Proof.
  intros H Hs. apply aligned_divide; [lia|]. apply aligned_divide in Hs; [|lia].
  etransitivity; [by apply pow2_divide | done].
Qed.

(** Aligned blocks whose sizes are powers of two nest or are disjoint. *)
Lemma aligned_nest s a t b :
  0 <= a <= b -> s mod 2 ^ a = 0 -> t mod 2 ^ b = 0 ->
  s + 2 ^ a <= t \/ t + 2 ^ b <= s \/ (t <= s /\ s + 2 ^ a <= t + 2 ^ b).
Proof.
  intros Hab Hs Ht.
  pose proof (pow2_pos a ltac:(lia)). pose proof (pow2_pos b ltac:(lia)).
  apply aligned_divide in Hs as [u ->]; [|lia]. apply aligned_divide in Ht as [v ->]; [|lia].
  rewrite (pow2_split a b) in * by lia.
  pose proof (pow2_pos (b - a) ltac:(lia)).
  destruct (Z.lt_ge_cases u (v * 2 ^ (b - a))); [left; nia|].
  destruct (Z.le_gt_cases ((v + 1) * 2 ^ (b - a)) u); [right; left; nia | right; right; nia].
Qed.

Definition aligned (s k : Z) : Prop := s mod 2 ^ k = 0.
