(* ===== verification/Text.v ===== *)
(** * Text: Go strings

    A Go string is a byte string, here a [string].  The functions of the
    [strings], [strconv] and [sort] packages the source calls, and the
    length-prefixed encoding's parsing lemma: a field can be read back from the
    front of any text, so a sequence of fields determines its parts. *)

From Stdlib Require Import Ascii String DecimalString DecimalN.
From S2P Require Import Prelude.
Open Scope string_scope.
Open Scope list_scope.
Open Scope Z_scope.

(** ** [strings] *)

Fixpoint HasPrefix (s prefix : string) : bool :=
  match prefix, s with
  | EmptyString, _ => true
  | String c p, String d t => Ascii.eqb c d && HasPrefix t p
  | String _ _, EmptyString => false
  end.

(** The text after the first [n] bytes. *)
Fixpoint drop_str (n : nat) (s : string) : string :=
  match n, s with
  | S n', String _ t => drop_str n' t
  | _, _ => s
  end.

Fixpoint take_str (n : nat) (s : string) : string :=
  match n, s with
  | S n', String c t => String c (take_str n' t)
  | _, _ => EmptyString
  end.

Definition TrimPrefix (s prefix : string) : string :=
  if HasPrefix s prefix then drop_str (String.length prefix) s else s.

(** [strings.IndexByte]: [None] for Go's -1. *)
Fixpoint IndexByte (s : string) (c : ascii) : option nat :=
  match s with
  | EmptyString => None
  | String d t => if Ascii.eqb c d then Some O else option_map S (IndexByte t c)
  end.

Fixpoint no_byte (c : ascii) (s : string) : bool :=
  match s with
  | EmptyString => true
  | String d t => negb (Ascii.eqb c d) && no_byte c t
  end.

(** [strings.ToLower] of ASCII text. *)
Definition lower (c : ascii) : ascii :=
  let n := N_of_ascii c in
  if (65 <=? n)%N && (n <=? 90)%N then ascii_of_N (n + 32)%N else c.

Fixpoint ToLower (s : string) : string :=
  match s with
  | EmptyString => EmptyString
  | String c t => String (lower c) (ToLower t)
  end.

(** [strconv.Itoa] of a natural number. *)
Definition Itoa (n : nat) : string := NilEmpty.string_of_uint (N.to_uint (N.of_nat n)).

(** ** Lemmas on strings *)

Lemma append_assoc_str a b c : (a +:+ b) +:+ c = a +:+ (b +:+ c).
Proof. induction a as [|x a IH]; [done|]. change (String x ((a +:+ b) +:+ c) = String x (a +:+ (b +:+ c))). by rewrite IH. Qed.

Lemma append_nil_str a : a +:+ "" = a.
Proof. induction a as [|x a IH]; [done|]. change (String x (a +:+ "") = String x a). by rewrite IH. Qed.

Lemma append_inj_len a b c d :
  String.length a = String.length b -> a +:+ c = b +:+ d -> a = b /\ c = d.
Proof.
  revert b. induction a as [|x a IH]; intros [|y b] Hl H; [done | done | done |].
  injection H as -> H. injection Hl as Hl. by destruct (IH b Hl H) as [-> ->].
Qed.

Lemma append_inj_l a c d : a +:+ c = a +:+ d -> c = d.
Proof. intros H. by apply (append_inj_len a a c d) in H as [_ H]. Qed.

Lemma no_byte_app c a b : no_byte c (a +:+ b) = no_byte c a && no_byte c b.
Proof. induction a as [|x a IH]; simpl; [done|]. by rewrite IH, andb_assoc. Qed.

(** Text before the first occurrence of a byte is determined. *)
Lemma split_at_byte c a b r s :
  no_byte c a = true -> no_byte c b = true ->
  a +:+ String c r = b +:+ String c s -> a = b /\ r = s.
Proof.
  revert b. induction a as [|x a IH]; intros [|y b] Ha Hb H; simpl in *.
  - by injection H as ->.
  - injection H as <- H. rewrite Ascii.eqb_refl in Hb. done.
  - injection H as -> H. rewrite Ascii.eqb_refl in Ha. done.
  - injection H as -> H. apply andb_true_iff in Ha as [_ Ha], Hb as [_ Hb].
    by destruct (IH b Ha Hb H) as [-> ->].
Qed.

Lemma HasPrefix_app p s : HasPrefix (p +:+ s) p = true.
Proof. induction p as [|c p IH]; simpl; [by destruct s|]. by rewrite Ascii.eqb_refl. Qed.

Lemma drop_str_app p s : drop_str (String.length p) (p +:+ s) = s.
Proof. induction p as [|c p IH]; simpl; [done | exact IH]. Qed.

Lemma take_str_app p s : take_str (String.length p) (p +:+ s) = p.
Proof. induction p as [|c p IH]; simpl; [done | by rewrite IH]. Qed.

Lemma IndexByte_app c a r : no_byte c a = true -> IndexByte (a +:+ String c r) c = Some (String.length a).
Proof.
  induction a as [|x a IH]; simpl; intros H; [by rewrite Ascii.eqb_refl|].
  apply andb_true_iff in H as [H1 H2]. apply negb_true_iff in H1. by rewrite H1, IH.
Qed.

(** ** Decimal lengths *)

Lemma string_of_uint_no_colon d : no_byte ":" (NilEmpty.string_of_uint d) = true.
Proof. induction d; cbn; done. Qed.

Lemma Itoa_no_colon n : no_byte ":" (Itoa n) = true.
Proof. apply string_of_uint_no_colon. Qed.

Lemma Itoa_inj n m : Itoa n = Itoa m -> n = m.
Proof.
  unfold Itoa. intros H. apply (f_equal NilEmpty.uint_of_string) in H.
  rewrite !NilEmpty.usu in H. injection H as H. apply DecimalN.Unsigned.to_uint_inj in H. lia.
Qed.

(** ** Length-prefixed fields *)

Definition writeField (v : string) : string := Itoa (String.length v) +:+ String ":" v.

Fixpoint writeFields (vs : list string) : string :=
  match vs with
  | [] => ""
  | v :: rest => writeField v +:+ writeFields rest
  end.

(** A field is read back from the front of a text. *)
Lemma writeField_inj v w r s :
  writeField v +:+ r = writeField w +:+ s -> v = w /\ r = s.
Proof.
  unfold writeField. rewrite !append_assoc_str. simpl. intros H.
  apply split_at_byte in H as [Hl H]; [|apply Itoa_no_colon ..].
  apply Itoa_inj in Hl. by apply append_inj_len in H as [-> ->].
Qed.

Lemma writeField_nonempty v : writeField v <> "".
Proof. unfold writeField. destruct (Itoa _); done. Qed.

Lemma writeFields_inj vs ws : writeFields vs = writeFields ws -> vs = ws.
Proof.
  revert ws. induction vs as [|v vs IH]; intros [|w ws] H; simpl in H; [done | | |].
  - exfalso. symmetry in H. unfold writeField in H. by destruct (Itoa _).
  - exfalso. unfold writeField in H. by destruct (Itoa _).
  - apply writeField_inj in H as [-> H]. f_equal. by apply IH.
Qed.

Lemma writeFields_app vs ws : writeFields (vs ++ ws) = writeFields vs +:+ writeFields ws.
Proof. induction vs as [|v vs IH]; simpl; [done|]. by rewrite IH, append_assoc_str. Qed.

(** ** [sort.Strings] *)

Definition str_le (a b : string) : Prop := String.leb a b = true.

#[export] Instance str_le_dec a b : Decision (str_le a b).
Proof. unfold str_le. apply _. Defined.

Lemma compare_ascii_le c d : Ascii.compare c d = (N_of_ascii c ?= N_of_ascii d)%N.
Proof. done. Qed.

Lemma str_le_cons c d a b :
  str_le (String c a) (String d b)
  <-> (N_of_ascii c < N_of_ascii d)%N \/ (c = d /\ str_le a b).
Proof.
  unfold str_le, String.leb. cbn [String.compare]. rewrite compare_ascii_le.
  destruct (N.compare_spec (N_of_ascii c) (N_of_ascii d)) as [Heq | Hlt | Hgt].
  - assert (c = d) as ->.
    { rewrite <- (ascii_N_embedding c), Heq. apply ascii_N_embedding. }
    split; [by right | intros [? | [_ ?]]; [lia | done]].
  - split; [by left | done].
  - split; [done | intros [? | [-> _]]; lia].
Qed.

Lemma str_le_nil a : str_le "" a.
Proof. by destruct a. Qed.

Lemma str_le_nil_r a : str_le a "" -> a = "".
Proof. by destruct a. Qed.

#[export] Instance str_le_trans : Transitive str_le.
Proof.
  intros a. induction a as [|x a IH]; intros b c Hab Hbc; [apply str_le_nil|].
  destruct b as [|y b]; [done|]. destruct c as [|z c]; [done|].
  apply str_le_cons in Hab, Hbc. apply str_le_cons.
  destruct Hab as [? | [-> Hab]], Hbc as [? | [-> Hbc]]; try (left; lia).
  right. split; [done | by eapply IH].
Qed.

#[export] Instance str_le_total : Total str_le.
Proof. intros a b. apply String.leb_total. Qed.

#[export] Instance str_le_antisym : AntiSymm (=) str_le.
Proof. intros a b. apply String.leb_antisym. Qed.

Definition sort_strings (l : list string) : list string := merge_sort str_le l.

Lemma sort_strings_perm l : Permutation (sort_strings l) l.
Proof. apply merge_sort_Permutation. Qed.

(** The order in which the elements arrive does not matter. *)
Lemma sort_strings_ext l k : Permutation l k -> sort_strings l = sort_strings k.
Proof.
  intros H. apply (Sorted_unique str_le).
  - apply Sorted_merge_sort. apply _.
  - apply Sorted_merge_sort. apply _.
  - by rewrite !sort_strings_perm.
Qed.
