(* ===== verification/Net.v ===== *)
(** * Net: the part of Go's standard [net] and [math/big] packages the source uses

    Addresses are byte slices as in Go: an [IP] of 4 or 16 bytes (the empty list
    is [nil]), an [IPMask] of as many, an [IPNet] of both.  [To4], [To16],
    [IP.Mask], [IPMask.Size], [CIDRMask] and [IPNet.Contains] follow the
    functions of Go's [net] package branch by branch; [SetBytes] and [Bytes]
    are the two [big.Int] conversions.  A byte is a [Z] in [0, 256).

    The second half gives every well-formed network its arithmetic reading:
    [mk_net s ones bits] is the block of [2 ^ (bits - ones)] addresses at [s],
    and the lemmas say what each operation computes on such blocks. *)

From S2P Require Import Prelude.

Abbreviation IP := (list Z).
Abbreviation IPMask := (list Z).

Record IPNet := mkIPNet { ipnet_IP : IP; ipnet_Mask : IPMask }.

#[export] Instance IPNet_eq_dec : EqDecision IPNet.
Proof. solve_decision. Defined.

(** ** Definitions *)

Definition IPv4len : nat := 4.
Definition IPv6len : nat := 16.
Definition v4InV6Prefix : list Z := [0; 0; 0; 0; 0; 0; 0; 0; 0; 0; 255; 255].

(** [IP.To4]: the 4-byte form, [None] for Go's [nil]. *)
Definition To4 (ip : IP) : option IP :=
  if (length ip =? IPv4len)%nat then Some ip
  else if (length ip =? IPv6len)%nat && bool_decide (take 12 ip = v4InV6Prefix)
  then Some (drop 12 ip)
  else None.

Definition To16 (ip : IP) : option IP :=
  if (length ip =? IPv4len)%nat then Some (v4InV6Prefix ++ ip)
  else if (length ip =? IPv6len)%nat then Some ip
  else None.

Definition and_bytes (a b : list Z) : list Z := zip_with Z.land a b.

Definition allFF (b : list Z) : bool := forallb (fun x => x =? 255) b.

(** [IP.Mask] *)
Definition IP_Mask (ip : IP) (mask : IPMask) : IP :=
  let mask :=
    if (length mask =? IPv6len)%nat && (length ip =? IPv4len)%nat && allFF (take 12 mask)
    then drop 12 mask else mask in
  let ip :=
    if (length mask =? IPv4len)%nat && (length ip =? IPv6len)%nat
       && bool_decide (take 12 ip = v4InV6Prefix)
    then drop 12 ip else ip in
  if negb (length ip =? length mask)%nat then [] else and_bytes ip mask.

(** The inner loop of [simpleMaskLength]: shift out the leading ones of a byte.
    Eight shifts empty it, so eight units of fuel never run out. *)
Fixpoint leading_ones (fuel : nat) (n v : Z) : Z * Z :=
  match fuel with
  | O => (n, v)
  | S f => if Z.land v 128 =? 0 then (n, v)
           else leading_ones f (n + 1) (Z.land (Z.shiftl v 1) 255)
  end.

(** [simpleMaskLength]: [-1] when the mask is not a run of ones and then zeros. *)
Fixpoint simpleMaskLength (n : Z) (mask : IPMask) : Z :=
  match mask with
  | [] => n
  | v :: rest =>
    if v =? 255 then simpleMaskLength (n + 8) rest
    else let '(n', v') := leading_ones 8 n v in
         if negb (v' =? 0) then -1
         else if forallb (fun x => x =? 0) rest then n' else -1
  end.

(** [IPMask.Size] *)
Definition Mask_Size (m : IPMask) : Z * Z :=
  let ones := simpleMaskLength 0 m in
  if ones =? -1 then (0, 0) else (ones, Z.of_nat (length m) * 8).

Fixpoint mask_bytes (l : nat) (n : Z) : IPMask :=
  match l with
  | O => []
  | S l' => if 8 <=? n then 255 :: mask_bytes l' (n - 8)
            else Z.lxor 255 (Z.shiftr 255 n) :: mask_bytes l' 0
  end.

(** [CIDRMask]: [nil] unless [bits] is 32 or 128 and [0 <= ones <= bits]. *)
Definition CIDRMask (ones bits : Z) : IPMask :=
  if negb (bits =? 32) && negb (bits =? 128) then []
  else if (ones <? 0) || (bits <? ones) then []
  else mask_bytes (Z.to_nat (bits / 8)) ones.

(** [networkNumberAndMask] *)
Definition networkNumberAndMask (n : IPNet) : option (IP * IPMask) :=
  match To4 (ipnet_IP n) with
  | Some ip =>
    if (length (ipnet_Mask n) =? IPv4len)%nat then Some (ip, ipnet_Mask n)
    else if (length (ipnet_Mask n) =? IPv6len)%nat then Some (ip, drop 12 (ipnet_Mask n))
    else None
  | None =>
    if negb (length (ipnet_IP n) =? IPv6len)%nat then None
    else if (length (ipnet_Mask n) =? IPv6len)%nat then Some (ipnet_IP n, ipnet_Mask n)
    else None
  end.

(** [IPNet.Contains] *)
Definition Contains (n : IPNet) (ip : IP) : bool :=
  match networkNumberAndMask n with
  | None => (length ip =? 0)%nat
  | Some (nn, m) =>
    let ip := default ip (To4 ip) in
    if negb (length ip =? length nn)%nat then false
    else bool_decide (and_bytes nn m = and_bytes ip m)
  end.

(** [big.Int.SetBytes]: the big-endian value of a byte slice. *)
Definition SetBytes (l : list Z) : Z := foldl (fun acc b => acc * 256 + b) 0 l.

(** The [n] low bytes of [i], big-endian. *)
Fixpoint encode (n : nat) (i : Z) : list Z :=
  match n with
  | O => []
  | S n' => encode n' (i / 256) ++ [i mod 256]
  end.

(** [big.Int.Bytes]: the shortest big-endian form of the absolute value. *)
Definition Bytes (i : Z) : list Z :=
  if i =? 0 then [] else encode (Z.to_nat (Z.log2 (Z.abs i) / 8 + 1)) (Z.abs i).

(** ** Byte strings and integers *)

Definition byte_ok (b : Z) : Prop := 0 <= b < 256.
Definition bytes_ok (l : list Z) : Prop := Forall byte_ok l.

Lemma foldl_be acc l :
  foldl (fun acc b => acc * 256 + b) acc l = acc * 256 ^ Z.of_nat (length l) + SetBytes l.
Proof.
  unfold SetBytes. revert acc. induction l as [|b l IH]; intros acc; [cbn; lia|].
  cbn [foldl length]. rewrite IH, (IH (0 * 256 + b)), Nat2Z.inj_succ, Z.pow_succ_r by lia.
  ring.
Qed.

Lemma SetBytes_app a b :
  SetBytes (a ++ b) = SetBytes a * 256 ^ Z.of_nat (length b) + SetBytes b.
Proof. unfold SetBytes. by rewrite foldl_app, foldl_be. Qed.

Lemma SetBytes_cons b l : SetBytes (b :: l) = b * 256 ^ Z.of_nat (length l) + SetBytes l.
Proof. change (b :: l) with ([b] ++ l). rewrite SetBytes_app. cbn. lia. Qed.

Lemma SetBytes_bound l : bytes_ok l -> 0 <= SetBytes l < 256 ^ Z.of_nat (length l).
Proof.
  induction 1 as [|b l Hb Hl IH]; [cbn; lia|]. unfold byte_ok in Hb.
  rewrite SetBytes_cons. cbn [length]. rewrite Nat2Z.inj_succ, Z.pow_succ_r by lia. nia.
Qed.

Lemma length_encode n i : length (encode n i) = n.
Proof. revert i. induction n; intros; cbn; [done|]. rewrite length_app, IHn. cbn. lia. Qed.

Lemma encode_ok n i : bytes_ok (encode n i).
Proof.
  revert i. induction n; intros; cbn; [constructor|]. apply Forall_app. split; [apply IHn|].
  repeat constructor; apply Z.mod_pos_bound; lia.
Qed.

Lemma SetBytes_encode_mod n i : SetBytes (encode n i) = i mod 256 ^ Z.of_nat n.
Proof.
  revert i. induction n as [|n IH]; intros i; cbn [encode]; [by rewrite Z.mod_1_r|].
  rewrite SetBytes_app, IH, Nat2Z.inj_succ, Z.pow_succ_r by lia.
  pose proof (Z.pow_pos_nonneg 256 (Z.of_nat n)).
  rewrite Z.rem_mul_r by lia. cbn. lia.
Qed.

Lemma SetBytes_encode n i : 0 <= i < 256 ^ Z.of_nat n -> SetBytes (encode n i) = i.
Proof. intros. rewrite SetBytes_encode_mod. by apply Z.mod_small. Qed.

Lemma encode_SetBytes l : bytes_ok l -> encode (length l) (SetBytes l) = l.
Proof.
  unfold bytes_ok. induction l as [|b l IH] using rev_ind; [done|].
  rewrite Forall_app, length_app, Nat.add_comm. rewrite Forall_singleton. intros [Hl Hb].
  unfold byte_ok in Hb. cbn [length Nat.add encode].
  rewrite SetBytes_app. cbn [length]. change (256 ^ Z.of_nat 1) with 256.
  replace (SetBytes [b]) with b by (cbn; lia).
  rewrite Z.div_add_l, (Z.div_small b), Z.add_0_r, IH by (done || lia).
  rewrite Z.add_comm, Z.mod_add, Z.mod_small by lia. done.
Qed.

Lemma SetBytes_inj a b :
  bytes_ok a -> bytes_ok b -> length a = length b -> SetBytes a = SetBytes b -> a = b.
Proof.
  intros Ha Hb Hlen H. rewrite <- (encode_SetBytes a), <- (encode_SetBytes b) by done.
  by rewrite Hlen, H.
Qed.

Lemma encode_app n m i : encode (n + m) i = encode n (i / 256 ^ Z.of_nat m) ++ encode m i.
Proof.
  revert i. induction m as [|m IH]; intros i.
  - rewrite Nat.add_0_r, Z.div_1_r, app_nil_r. done.
  - rewrite Nat.add_succ_r. cbn [encode]. rewrite IH, app_assoc. do 3 f_equal.
    rewrite Nat2Z.inj_succ, Z.pow_succ_r by lia.
    rewrite Z.div_div by (try apply Z.pow_pos_nonneg; lia). done.
Qed.

Lemma encode_inj n i j :
  0 <= i < 256 ^ Z.of_nat n -> 0 <= j < 256 ^ Z.of_nat n -> encode n i = encode n j -> i = j.
Proof. intros Hi Hj H. rewrite <- (SetBytes_encode n i), H by done. by apply SetBytes_encode. Qed.

Lemma encode_zeros n m i :
  0 <= i < 256 ^ Z.of_nat m -> encode (n + m) i = replicate n 0 ++ encode m i.
Proof.
  intros Hi. rewrite encode_app, Z.div_small by done. f_equal.
  induction n as [|n IH]; [done|]. cbn [encode replicate].
  change (0 / 256) with 0. rewrite IH. change (0 mod 256) with 0. clear.
  by rewrite <- replicate_cons_app.
Qed.

(** ** Masks as arithmetic *)

Lemma testbit_add_shift x y k i :
  0 <= k -> 0 <= y < 2 ^ k -> 0 <= i ->
  Z.testbit (x * 2 ^ k + y) i = if i <? k then Z.testbit y i else Z.testbit x (i - k).
Proof.
  intros Hk Hy Hi. pose proof (pow2_pos k Hk). zcase.
  - rewrite <- (Z.mod_pow2_bits_low _ k) by lia. f_equal.
    rewrite Z.add_comm, Z.mod_add by lia. by apply Z.mod_small.
  - replace i with (i - k + k) at 1 by lia. rewrite <- Z.div_pow2_bits by lia. f_equal.
    rewrite Z.div_add_l, Z.div_small by lia. lia.
Qed.

Lemma land_bound a b k : 0 <= k -> 0 <= a < 2 ^ k -> 0 <= b -> 0 <= Z.land a b < 2 ^ k.
Proof.
  intros Hk Ha Hb.
  assert (0 <= Z.land a b) by (apply Z.land_nonneg; lia). split; [done|].
  assert (Z.land a b mod 2 ^ k = Z.land a b) as <-; [|by apply Z.mod_pos_bound, pow2_pos].
  rewrite <- Z.land_ones by done.
  rewrite <- Z.land_assoc, (Z.land_comm b), Z.land_assoc, Z.land_ones by done.
  by rewrite Z.mod_small by lia.
Qed.

Lemma land_add_shift x y x' y' k :
  0 <= k -> 0 <= y < 2 ^ k -> 0 <= y' < 2 ^ k ->
  Z.land (x * 2 ^ k + y) (x' * 2 ^ k + y') = Z.land x x' * 2 ^ k + Z.land y y'.
Proof.
  intros Hk Hy Hy'. apply Z.bits_inj'. intros i Hi.
  rewrite Z.land_spec, !testbit_add_shift by (try apply land_bound; lia).
  destruct (i <? k); by rewrite Z.land_spec.
Qed.

Lemma pow256 n : 256 ^ n = 2 ^ (8 * n) \/ n < 0.
Proof. destruct (Z.le_gt_cases 0 n); [left | by right]. by rewrite Z.pow_mul_r. Qed.

Lemma pow256_nat (n : nat) : 256 ^ Z.of_nat n = 2 ^ (8 * Z.of_nat n).
Proof. destruct (pow256 (Z.of_nat n)); [done | lia]. Qed.

Lemma SetBytes_and a b :
  bytes_ok a -> bytes_ok b -> length a = length b ->
  SetBytes (and_bytes a b) = Z.land (SetBytes a) (SetBytes b).
Proof.
  intros Ha. revert b. induction Ha as [|x a Hx Ha IH]; intros [|y b] Hb Hlen; try done.
  apply Forall_cons in Hb as [Hy Hb]. injection Hlen as Hlen.
  cbn [and_bytes zip_with]. fold (and_bytes a b). rewrite !SetBytes_cons, IH by done.
  unfold and_bytes. rewrite length_zip_with, <- Hlen, Nat.min_id, pow256_nat.
  symmetry. apply land_add_shift; [lia | |].
  - rewrite <- pow256_nat. by apply SetBytes_bound.
  - rewrite <- pow256_nat, Hlen. by apply SetBytes_bound.
Qed.

Lemma and_bytes_ok a b : bytes_ok a -> bytes_ok b -> bytes_ok (and_bytes a b).
Proof.
  intros Ha. revert b. induction Ha as [|x a Hx Ha IH]; intros [|y b] Hb; try constructor.
  - apply Forall_cons in Hb as [Hy Hb]. unfold byte_ok in *.
    apply (land_bound x y 8); lia.
  - apply Forall_cons in Hb as [Hy Hb]. by apply IH.
Qed.

(** Clearing the low [k] bits. *)
Definition round_down (x k : Z) : Z := x - x mod 2 ^ k.

Lemma round_down_div x k : 0 <= k -> round_down x k = x / 2 ^ k * 2 ^ k.
Proof.
  intros Hk. pose proof (pow2_pos k Hk). unfold round_down.
  rewrite (Z.div_mod x (2 ^ k)) at 1 by lia. lia.
Qed.

Lemma land_mask x b k :
  0 <= k <= b -> 0 <= x < 2 ^ b -> Z.land x (2 ^ b - 2 ^ k) = round_down x k.
Proof.
  intros Hk Hx. pose proof (pow2_pos k ltac:(lia)).
  rewrite round_down_div, (Z.div_mod x (2 ^ k)) at 1 by lia.
  rewrite (Z.mul_comm (2 ^ k)).
  replace (2 ^ b - 2 ^ k) with ((2 ^ (b - k) - 1) * 2 ^ k + 0)
    by (rewrite (pow2_split k b) by lia; ring).
  rewrite land_add_shift by (try apply Z.mod_pos_bound; lia).
  rewrite Z.land_0_r, Z.add_0_r. f_equal.
  rewrite Z.sub_1_r, <- Z.ones_equiv, Z.land_ones by lia.
  apply Z.mod_small. split; [apply Z.div_pos; lia|].
  apply Z.div_lt_upper_bound; [lia|]. rewrite <- Z.pow_add_r by lia.
  replace (k + (b - k)) with b by lia. lia.
Qed.

(** ** Well-formed networks *)

(** The network [net.ParseCIDR] returns for the block of prefix length [ones] at
    address [s] of a [bits]-wide family. *)
Definition mk_net (s ones bits : Z) : IPNet :=
  {| ipnet_IP := encode (Z.to_nat (bits / 8)) s; ipnet_Mask := CIDRMask ones bits |}.

Definition family_bits (bits : Z) : Prop := bits = 32 \/ bits = 128.

(** The 96-bit prefix [::ffff:0:0], under which Go reads a 16-byte address as IPv4. *)
Definition v4mapped (s : Z) : Prop := s / 2 ^ 32 = 65535.

Record valid_block (s ones bits : Z) : Prop := {
  vb_bits : family_bits bits;
  vb_ones : 0 <= ones <= bits;
  vb_pos : 0 <= s;
  vb_end : s + 2 ^ (bits - ones) <= 2 ^ bits;
  vb_aligned : s mod 2 ^ (bits - ones) = 0;
  vb_native : bits = 128 -> ~ v4mapped s
}.

Inductive wf_net : IPNet -> Prop :=
| wf_net_intro s ones bits : valid_block s ones bits -> wf_net (mk_net s ones bits).
#[export] Hint Constructors wf_net : ipam.

Lemma family_bits_32 : family_bits 32. Proof. by left. Qed.
Lemma family_bits_128 : family_bits 128. Proof. by right. Qed.
#[export] Hint Resolve family_bits_32 family_bits_128 : ipam.

Lemma family_range bits : family_bits bits -> 256 ^ Z.of_nat (Z.to_nat (bits / 8)) = 2 ^ bits.
Proof. by intros [-> | ->]. Qed.

(** Facts about all the masks of a family, by evaluation. *)
Definition all_masks (P : Z -> Z -> bool) : bool :=
  forallb (fun o => P (Z.of_nat o) 32) (seq 0 33)
  && forallb (fun o => P (Z.of_nat o) 128) (seq 0 129).

Lemma all_masks_spec P ones bits :
  all_masks P = true -> family_bits bits -> 0 <= ones <= bits -> P ones bits = true.
Proof.
  intros [H32 H128]%andb_true_iff Hb Ho.
  rewrite forallb_forall in H32. rewrite forallb_forall in H128.
  replace ones with (Z.of_nat (Z.to_nat ones)) by lia.
  destruct Hb as [-> | ->]; [apply H32 | apply H128]; apply in_seq; lia.
Qed.

Lemma Mask_Size_CIDRMask ones bits :
  family_bits bits -> 0 <= ones <= bits -> Mask_Size (CIDRMask ones bits) = (ones, bits).
Proof.
  intros Hb Ho.
  pose proof (all_masks_spec
    (fun o b => let '(x, y) := Mask_Size (CIDRMask o b) in (x =? o) && (y =? b)) ones bits
    ltac:(vm_compute; reflexivity) Hb Ho) as H.
  cbv beta in H. destruct (Mask_Size _). zbool. by subst.
Qed.

Lemma length_CIDRMask ones bits :
  family_bits bits -> 0 <= ones <= bits -> length (CIDRMask ones bits) = Z.to_nat (bits / 8).
Proof.
  intros Hb Ho. apply Nat.eqb_eq.
  apply (all_masks_spec (fun o b => (length (CIDRMask o b) =? Z.to_nat (b / 8))%nat));
    [vm_compute; reflexivity | done | done].
Qed.

Lemma SetBytes_CIDRMask ones bits :
  family_bits bits -> 0 <= ones <= bits ->
  SetBytes (CIDRMask ones bits) = 2 ^ bits - 2 ^ (bits - ones).
Proof.
  intros Hb Ho. apply Z.eqb_eq.
  apply (all_masks_spec (fun o b => SetBytes (CIDRMask o b) =? 2 ^ b - 2 ^ (b - o)));
    [vm_compute; reflexivity | done | done].
Qed.

Lemma CIDRMask_ok ones bits :
  family_bits bits -> 0 <= ones <= bits -> bytes_ok (CIDRMask ones bits).
Proof.
  intros Hb Ho.
  assert (forallb (fun x => (0 <=? x) && (x <? 256)) (CIDRMask ones bits) = true) as H.
  { apply (all_masks_spec (fun o b => forallb (fun x => (0 <=? x) && (x <? 256)) (CIDRMask o b)));
      [vm_compute; reflexivity | done | done]. }
  apply Forall_forall. intros x Hx. rewrite forallb_forall in H.
  apply list_elem_of_In in Hx. specialize (H x Hx). zbool. red. lia.
Qed.

(** [To4] of an encoded address: the address itself for IPv4, [nil] for IPv6
    outside the mapped prefix. *)
Lemma To4_v4 s : To4 (encode 4 s) = Some (encode 4 s).
Proof. unfold To4. by rewrite length_encode. Qed.

Lemma take_prefix_mapped s :
  0 <= s < 2 ^ 128 -> take 12 (encode 16 s) = v4InV6Prefix <-> v4mapped s.
Proof.
  intros Hs. change 16%nat with (12 + 4)%nat.
  rewrite encode_app, take_app_length' by (by rewrite length_encode).
  change (256 ^ Z.of_nat 4) with (2 ^ 32).
  assert (0 <= s / 2 ^ 32 < 256 ^ Z.of_nat 12).
  { split; [apply Z.div_pos; lia|]. apply Z.div_lt_upper_bound; [lia|].
    change (2 ^ 32 * 256 ^ Z.of_nat 12) with (2 ^ 128). lia. }
  change v4InV6Prefix with (encode 12 65535). unfold v4mapped. split; [|by intros ->].
  apply encode_inj; [done | cbn; lia].
Qed.

Lemma To4_v6 s : 0 <= s < 2 ^ 128 -> ~ v4mapped s -> To4 (encode 16 s) = None.
Proof.
  intros Hs Hm. unfold To4. rewrite length_encode. cbn [Nat.eqb IPv4len IPv6len andb].
  rewrite bool_decide_false; [done|]. by rewrite take_prefix_mapped.
Qed.

Lemma To4_encode s bits :
  family_bits bits -> 0 <= s < 2 ^ bits -> (bits = 128 -> ~ v4mapped s) ->
  To4 (encode (Z.to_nat (bits / 8)) s)
  = if bits =? 32 then Some (encode (Z.to_nat (bits / 8)) s) else None.
Proof.
  intros [-> | ->] Hs Hm; [apply To4_v4|]. by apply To4_v6; [|apply Hm].
Qed.

Lemma and_mask_encode s ones bits :
  family_bits bits -> 0 <= ones <= bits -> 0 <= s < 2 ^ bits ->
  and_bytes (encode (Z.to_nat (bits / 8)) s) (CIDRMask ones bits)
  = encode (Z.to_nat (bits / 8)) (round_down s (bits - ones)).
Proof.
  intros Hb Ho Hs. pose proof (pow2_pos (bits - ones) ltac:(lia)).
  assert (0 <= round_down s (bits - ones) <= s).
  { unfold round_down. pose proof (Z.mod_pos_bound s (2 ^ (bits - ones)) ltac:(lia)).
    pose proof (Z.mod_le s (2 ^ (bits - ones)) ltac:(lia) ltac:(lia)). lia. }
  apply SetBytes_inj.
  - apply and_bytes_ok; [apply encode_ok | by apply CIDRMask_ok].
  - apply encode_ok.
  - unfold and_bytes. rewrite length_zip_with, !length_encode, length_CIDRMask by done. lia.
  - rewrite SetBytes_and, SetBytes_CIDRMask
      by (done || apply encode_ok || (by apply CIDRMask_ok)
          || (by rewrite length_encode, length_CIDRMask)).
    rewrite !SetBytes_encode by (rewrite family_range by done; lia).
    apply land_mask; lia.
Qed.

Lemma round_down_aligned s k : s mod 2 ^ k = 0 -> round_down s k = s.
Proof. unfold round_down. lia. Qed.

Lemma IP_Mask_encode s ones bits :
  family_bits bits -> 0 <= ones <= bits -> 0 <= s < 2 ^ bits -> (bits = 128 -> ~ v4mapped s) ->
  IP_Mask (encode (Z.to_nat (bits / 8)) s) (CIDRMask ones bits)
  = encode (Z.to_nat (bits / 8)) (round_down s (bits - ones)).
Proof.
  intros Hb Ho Hs Hm. unfold IP_Mask. rewrite !length_CIDRMask, !length_encode by done.
  rewrite <- and_mask_encode by done.
  assert (((Z.to_nat (bits / 8) =? IPv6len) && (Z.to_nat (bits / 8) =? IPv4len))%nat = false)
    as E64 by by destruct Hb as [-> | ->].
  assert (((Z.to_nat (bits / 8) =? IPv4len) && (Z.to_nat (bits / 8) =? IPv6len))%nat = false)
    as E46 by by destruct Hb as [-> | ->].
  rewrite !E64. cbn [andb]. rewrite !length_CIDRMask, !E46 by done. cbn [andb].
  by rewrite length_encode, Nat.eqb_refl.
Qed.

(** [Contains]: same family and the address falls in the block. *)
Lemma Contains_mk_net s ones bits t bits' :
  valid_block s ones bits ->
  family_bits bits' -> 0 <= t < 2 ^ bits' -> (bits' = 128 -> ~ v4mapped t) ->
  Contains (mk_net s ones bits) (encode (Z.to_nat (bits' / 8)) t)
  = (bits =? bits') && (s <=? t) && (t <? s + 2 ^ (bits - ones)).
Proof.
  intros [Hb Ho Hp He Ha Hn] Hb' Ht Hn'. pose proof (pow2_pos (bits - ones) ltac:(lia)).
  assert (Hnn : networkNumberAndMask (mk_net s ones bits)
                = Some (encode (Z.to_nat (bits / 8)) s, CIDRMask ones bits)).
  { unfold networkNumberAndMask, mk_net. cbn [ipnet_IP ipnet_Mask].
    rewrite To4_encode, length_CIDRMask by (done || lia).
    destruct Hb as [-> | ->]; [done|].
    cbn [Z.eqb Pos.eqb]. by rewrite length_encode. }
  unfold Contains. rewrite Hnn, To4_encode by (done || lia).
  replace (default _ _) with (encode (Z.to_nat (bits' / 8)) t) by (by destruct (bits' =? 32)).
  rewrite !length_encode.
  destruct (Z.eqb_spec bits bits') as [<- | Hne].
  - rewrite Nat.eqb_refl. cbn [negb andb]. rewrite !and_mask_encode by (done || lia).
    rewrite (round_down_aligned s) by done.
    assert (0 <= round_down t (bits - ones) <= t).
    { pose proof (Z.mod_pos_bound t (2 ^ (bits - ones)) ltac:(lia)).
      pose proof (Z.mod_le t (2 ^ (bits - ones)) ltac:(lia) ltac:(lia)).
      unfold round_down. lia. }
    case_bool_decide as Heq.
    + apply encode_inj in Heq; [|rewrite family_range by done; lia ..].
      unfold round_down in Heq. pose proof (Z.mod_pos_bound t (2 ^ (bits - ones)) ltac:(lia)).
      repeat zcase; cbn; lia.
    + destruct (Z.leb_spec s t), (Z.ltb_spec t (s + 2 ^ (bits - ones))); cbn; try done.
      exfalso. apply Heq. f_equal. rewrite round_down_div by lia.
      apply aligned_divide in Ha as [q ->]; [|lia]. f_equal.
      apply (Z.div_unique t _ q (t - q * 2 ^ (bits - ones))); lia.
  - destruct Hb as [-> | ->], Hb' as [-> | ->]; done.
Qed.
