(* ===== verification/Cidr.v ===== *)
(** * Cidr: [internal/allocation/cidr.go]

    The CIDR arithmetic every other part of the allocation package stands on:
    address bounds, overlap, the free regions of a range and their
    decomposition into aligned blocks.

    [freeRegions] is characterised by what it promises: its regions are the
    maximal runs of the addresses of the parent no block covers
    ([freeRegions_in], [freeRegions_wf]), and there is only one such list
    ([regions_unique]), which is how the other components prove two ways of
    computing free space equal. *)

From S2P Require Import Prelude Net.
Open Scope string_scope.
Open Scope list_scope.
Open Scope Z_scope.

(** ** Data *)

(** A Go string type: the three constants are the values the code writes. *)
Abbreviation Strategy := string.
Definition FirstFit : Strategy := "FirstFit".
Definition BestFit : Strategy := "BestFit".
Definition LeastUtilized : Strategy := "LeastUtilized".

(** The sentinel errors of the package. *)
Inductive AllocErr :=
| ErrPoolExhausted
| ErrInvalidPrefixLen
| ErrNoParent
| ErrNotInPool
| ErrInvalidReservation
| ErrReservationTooLarge
| ErrScanClosed
| ErrScanOutOfOrder
| ErrScanNotFinished.

#[export] Instance AllocErr_eq_dec : EqDecision AllocErr.
Proof. solve_decision. Defined.

Record ipRange := mkRange { r_start : Z; r_end : Z (* inclusive *) }.

#[export] Instance ipRange_eq_dec : EqDecision ipRange.
Proof. solve_decision. Defined.

(** ** Operations *)

Definition sameFamily (a b : IP) : bool :=
  let a4 := bool_decide (is_Some (To4 a)) in
  let b4 := bool_decide (is_Some (To4 b)) in
  Bool.eqb a4 b4.

(** *)
Definition CIDRsOverlap (a b : IPNet) : bool :=
  if negb (sameFamily (ipnet_IP a) (ipnet_IP b)) then false
  else Contains a (ipnet_IP b) || Contains b (ipnet_IP a).

(** [int64(1) << hostBits], saturated at [MaxInt64]. *)
Definition CountAddresses (cidr : IPNet) : Z :=
  let '(ones, bits) := Mask_Size (ipnet_Mask cidr) in
  let hostBits := bits - ones in
  if 63 <=? hostBits then 2 ^ 63 - 1
  else if hostBits <? 0 then 0
  else Z.shiftl 1 hostBits.

Definition addressCount (cidr : IPNet) : Z :=
  let '(ones, bits) := Mask_Size (ipnet_Mask cidr) in
  let hostBits := bits - ones in
  if hostBits <? 0 then 0 else Z.shiftl 1 hostBits.

Definition ipToInt (ip : IP) : Z :=
  match To4 ip with
  | Some v4 => SetBytes v4
  | None => SetBytes (default [] (To16 ip))
  end.

Definition intToIP (i bits : Z) : IP :=
  let size := Z.to_nat (bits / 8) in
  let bytes := Bytes i in
  if (size <? length bytes)%nat then replicate size 0
  else replicate (size - length bytes) 0 ++ bytes.

(** Go's conversion [uint(n)] of an [int]: modulo [2^64]. *)
Definition to_uint (n : Z) : Z := n mod 2 ^ 64.

Definition blockSize (prefixLen totalBits : Z) : Z :=
  Z.shiftl 1 (to_uint (totalBits - prefixLen)).

Definition cidrFirstAddr (cidr : IPNet) : Z :=
  ipToInt (IP_Mask (ipnet_IP cidr) (ipnet_Mask cidr)).

Definition cidrLastAddr (cidr : IPNet) : Z :=
  let '(ones, bits) := Mask_Size (ipnet_Mask cidr) in
  let size := blockSize ones bits in
  let first := cidrFirstAddr cidr in
  first + size - 1.

Definition cidrBounds (cidr : IPNet) : Z * Z :=
  let '(ones, bits) := Mask_Size (ipnet_Mask cidr) in
  let start := cidrFirstAddr cidr in
  (start, start + blockSize ones bits - 1).

Definition cidrSize (cidr : IPNet) : Z :=
  let '(ones, bits) := Mask_Size (ipnet_Mask cidr) in blockSize ones bits.

Definition cidrEquals (a b : IPNet) : bool :=
  if negb (sameFamily (ipnet_IP a) (ipnet_IP b)) then false
  else
    let '(ao, ab) := Mask_Size (ipnet_Mask a) in
    let '(bo, bb) := Mask_Size (ipnet_Mask b) in
    if negb (ao =? bo) || negb (ab =? bb) then false
    else cidrFirstAddr a =? cidrFirstAddr b.

Definition alignUp (v prefixLen totalBits : Z) : Z :=
  let size := blockSize prefixLen totalBits in
  let rem := v mod size in
  if rem =? 0 then v else v + (size - rem).

Definition makeCIDR (start prefixLen totalBits : Z) : IPNet :=
  {| ipnet_IP := intToIP start totalBits; ipnet_Mask := CIDRMask prefixLen totalBits |}.

Definition filterWithin (parent : IPNet) (cs : list IPNet) : list IPNet :=
  List.filter (fun c => sameFamily (ipnet_IP parent) (ipnet_IP c)
                        && Contains parent (ipnet_IP c)) cs.

(** The loop of [freeRegions] over the sorted blocks, from [cursor] on. *)
Fixpoint sweep (parentStart parentEnd cursor : Z) (sorted : list ipRange) : list ipRange :=
  match sorted with
  | [] => if cursor <=? parentEnd then [mkRange cursor parentEnd] else []
  | e :: rest =>
    if (r_end e <? parentStart) || (parentEnd <? r_start e)
    then sweep parentStart parentEnd cursor rest
    else
      let gap := if cursor <? r_start e then [mkRange cursor (r_start e - 1)] else [] in
      let next := r_end e + 1 in
      gap ++ sweep parentStart parentEnd (if cursor <? next then next else cursor) rest
  end.

Definition freeRegions (parent : IPNet) (within : list IPNet) : list ipRange :=
  let sorted := sort_by r_start
    (map (fun e => let '(start, end_) := cidrBounds e in mkRange start end_) within) in
  let parentStart := cidrFirstAddr parent in
  let parentEnd := cidrLastAddr parent in
  sweep parentStart parentEnd parentStart sorted.

(** The inner loop of [splitRegionIntoAlignedCIDRs], over the prefix lengths
    [p] to [totalBits]; [n] of them are left. *)
Fixpoint best_len (n : nat) (p cursor end_ totalBits : Z) : Z :=
  match n with
  | O => totalBits
  | S n' =>
    let size := blockSize p totalBits in
    if negb (cursor mod size =? 0) then best_len n' (p + 1) cursor end_ totalBits
    else if cursor + size - 1 <=? end_ then p
    else best_len n' (p + 1) cursor end_ totalBits
  end.

(** [splitRegionIntoAlignedCIDRs], one block for each unit of fuel.  [None] is
    running out of it, which [split_total] excludes. *)
Fixpoint split_fuel (fuel : nat) (cursor end_ totalBits : Z) : option (list IPNet) :=
  if cursor <=? end_ then
    match fuel with
    | O => None
    | S f =>
      let bestLen := best_len (Z.to_nat (totalBits + 1)) 0 cursor end_ totalBits in
      let size := blockSize bestLen totalBits in
      out ← split_fuel f (cursor + size) end_ totalBits;
      Some (makeCIDR cursor bestLen totalBits :: out)
    end
  else Some [].

(** Twice the address width blocks always suffice. *)
Definition split_fuel_for (totalBits : Z) : nat := Z.to_nat (2 * totalBits + 2).

Definition splitRegionIntoAlignedCIDRs (start end_ totalBits : Z) : list IPNet :=
  default [] (split_fuel (split_fuel_for totalBits) start end_ totalBits).

Definition SubtractCIDR (parent : IPNet) (existing : list IPNet) : list IPNet :=
  let '(_, bits) := Mask_Size (ipnet_Mask parent) in
  let within := filterWithin parent existing in
  let regions := freeRegions parent within in
  concat (map (fun r => splitRegionIntoAlignedCIDRs (r_start r) (r_end r) bits) regions).

(** ** The arithmetic reading of a network *)

Definition pones (n : IPNet) : Z := fst (Mask_Size (ipnet_Mask n)).
Definition pbits (n : IPNet) : Z := snd (Mask_Size (ipnet_Mask n)).
Abbreviation lo := cidrFirstAddr.
Abbreviation hi := cidrLastAddr.

Lemma blockSize_eq p t : 0 <= t - p <= 128 -> blockSize p t = 2 ^ (t - p).
Proof.
  intros H. unfold blockSize, to_uint. rewrite Z.mod_small by lia. by rewrite Z.shiftl_1_l.
Qed.

Section Block.
Context (s ones bits : Z) (V : valid_block s ones bits).

Lemma vb_facts :
  family_bits bits /\ 0 <= ones <= bits /\ bits <= 128 /\ 0 <= s < 2 ^ bits
  /\ 0 < 2 ^ (bits - ones) /\ s + 2 ^ (bits - ones) <= 2 ^ bits
  /\ s mod 2 ^ (bits - ones) = 0 /\ (bits = 128 -> ~ v4mapped s).
Proof using V.
  destruct V as [Hb Ho Hp He Ha Hn]. pose proof (pow2_pos (bits - ones) ltac:(lia)).
  assert (bits <= 128) by (destruct Hb; lia). auto 10 with lia.
Qed.

Lemma Size_mk : Mask_Size (ipnet_Mask (mk_net s ones bits)) = (ones, bits).
Proof using V. destruct vb_facts as (? & ? & _). by apply Mask_Size_CIDRMask. Qed.

Lemma ipToInt_encode t :
  0 <= t < 2 ^ bits -> (bits = 128 -> ~ v4mapped t) ->
  ipToInt (encode (Z.to_nat (bits / 8)) t) = t.
Proof using V.
  destruct vb_facts as (Hb & _). intros Ht Hm. unfold ipToInt. rewrite To4_encode by done.
  rewrite <- (SetBytes_encode (Z.to_nat (bits / 8)) t) at 2 by by rewrite family_range.
  destruct Hb as [-> | ->]; [done|]. cbn [Z.eqb Pos.eqb].
  unfold To16. by rewrite length_encode.
Qed.

Lemma pones_mk : pones (mk_net s ones bits) = ones.
Proof using V. unfold pones. by rewrite Size_mk. Qed.

Lemma pbits_mk : pbits (mk_net s ones bits) = bits.
Proof using V. unfold pbits. by rewrite Size_mk. Qed.

Lemma lo_mk : lo (mk_net s ones bits) = s.
Proof using V.
  destruct vb_facts as (Hb & Ho & _ & Hs & _ & _ & Ha & Hm). unfold cidrFirstAddr. cbn.
  rewrite IP_Mask_encode, round_down_aligned by done. by apply ipToInt_encode.
Qed.

Lemma hi_mk : hi (mk_net s ones bits) = s + 2 ^ (bits - ones) - 1.
Proof using V.
  destruct vb_facts as (Hb & Ho & ? & _). unfold cidrLastAddr. rewrite Size_mk, lo_mk.
  by rewrite blockSize_eq by lia.
Qed.

Lemma bounds_mk : cidrBounds (mk_net s ones bits) = (s, s + 2 ^ (bits - ones) - 1).
Proof using V.
  destruct vb_facts as (Hb & Ho & ? & _). unfold cidrBounds. rewrite Size_mk, lo_mk.
  by rewrite blockSize_eq by lia.
Qed.
End Block.

(** A well-formed network is the block its accessors describe. *)
Lemma wf_net_eta n :
  wf_net n -> valid_block (lo n) (pones n) (pbits n) /\ n = mk_net (lo n) (pones n) (pbits n).
Proof.
  intros [s ones bits V]. unfold pones, pbits. by rewrite Size_mk, lo_mk by done.
Qed.

Lemma wf_net_facts n :
  wf_net n ->
  family_bits (pbits n) /\ 0 <= pones n <= pbits n /\ pbits n <= 128
  /\ 0 <= lo n /\ lo n <= hi n /\ hi n < 2 ^ pbits n
  /\ hi n = lo n + 2 ^ (pbits n - pones n) - 1
  /\ lo n mod 2 ^ (pbits n - pones n) = 0 /\ (pbits n = 128 -> ~ v4mapped (lo n)).
Proof.
  intros [s ones bits V]. unfold pones, pbits. rewrite Size_mk, lo_mk, hi_mk by done. cbn.
  destruct (vb_facts _ _ _ V) as (? & ? & ? & ? & ? & ? & ? & ?). auto 10 with lia.
Qed.

Lemma pair_size n : Mask_Size (ipnet_Mask n) = (pones n, pbits n).
Proof. apply surjective_pairing. Qed.

Lemma cidrBounds_eq n : wf_net n -> cidrBounds n = (lo n, hi n).
Proof. intros [s ones bits V]. by rewrite bounds_mk, lo_mk, hi_mk. Qed.

Lemma cidrSize_eq n : wf_net n -> cidrSize n = hi n - lo n + 1.
Proof.
  intros H. destruct (wf_net_facts n H) as (? & ? & ? & ? & ? & ? & Hhi & _).
  unfold cidrSize. rewrite pair_size, blockSize_eq, Hhi by lia. lia.
Qed.

Lemma addressCount_eq n : wf_net n -> addressCount n = hi n - lo n + 1.
Proof.
  intros H. destruct (wf_net_facts n H) as (? & ? & ? & ? & ? & ? & Hhi & _).
  unfold addressCount. rewrite pair_size. zcase; [lia|].
  rewrite Z.shiftl_1_l, Hhi. lia.
Qed.

Lemma sameFamily_eq a b :
  wf_net a -> wf_net b -> sameFamily (ipnet_IP a) (ipnet_IP b) = (pbits a =? pbits b).
Proof.
  intros [s o b' V] [s2 o2 b2 V2]. unfold sameFamily, pbits. rewrite !Size_mk by done.
  destruct (vb_facts _ _ _ V) as (Hb & _ & _ & ? & _ & _ & _ & ?).
  destruct (vb_facts _ _ _ V2) as (Hb2 & _ & _ & ? & _ & _ & _ & ?).
  cbn [mk_net ipnet_IP snd]. rewrite !To4_encode by done.
  by destruct Hb as [-> | ->], Hb2 as [-> | ->].
Qed.

Lemma Contains_eq a b :
  wf_net a -> wf_net b ->
  Contains a (ipnet_IP b) = (pbits a =? pbits b) && (lo a <=? lo b) && (lo b <=? hi a).
Proof.
  intros [s o b' V] [s2 o2 b2 V2]. unfold pbits. rewrite !Size_mk, !lo_mk, hi_mk by done.
  destruct (vb_facts _ _ _ V2) as (Hb2 & _ & _ & ? & _ & _ & _ & ?).
  cbn [mk_net ipnet_IP snd]. rewrite Contains_mk_net by done. f_equal.
  repeat zcase; done || (exfalso; lia).
Qed.

Lemma intToIP_encode i bits :
  family_bits bits -> 0 <= i < 2 ^ bits -> intToIP i bits = encode (Z.to_nat (bits / 8)) i.
Proof.
  intros Hb Hi. unfold intToIP, Bytes. destruct (Z.eqb_spec i 0) as [-> | Hne].
  - by destruct Hb as [-> | ->].
  - rewrite Z.abs_eq by lia. set (k := Z.to_nat (Z.log2 i / 8 + 1)).
    pose proof (Z.log2_nonneg i). pose proof (Z.log2_lt_pow2 i bits ltac:(lia)) as [Hlog _].
    specialize (Hlog ltac:(lia)).
    assert (k <= Z.to_nat (bits / 8))%nat.
    { unfold k. assert (Z.log2 i / 8 <= (bits - 1) / 8) by (apply Z.div_le_mono; lia).
      destruct Hb as [-> | ->].
      - change (32 / 8) with 4. change ((32 - 1) / 8) with 3 in *. lia.
      - change (128 / 8) with 16. change ((128 - 1) / 8) with 15 in *. lia. }
    assert (0 <= Z.log2 i / 8) by (apply Z.div_pos; lia).
    assert (Hk : 0 <= i < 256 ^ Z.of_nat k).
    { split; [lia|]. unfold k. rewrite Z2Nat.id by lia.
      change 256 with (2 ^ 8). rewrite <- Z.pow_mul_r by lia.
      apply Z.log2_lt_pow2; [lia|]. pose proof (Z.mul_succ_div_gt (Z.log2 i) 8). lia. }
    rewrite length_encode. replace (_ <? k)%nat with false by (symmetry; apply Nat.ltb_ge; lia).
    rewrite <- encode_zeros by done. f_equal. lia.
Qed.

Lemma makeCIDR_mk s p bits :
  family_bits bits -> 0 <= s < 2 ^ bits -> makeCIDR s p bits = mk_net s p bits.
Proof. intros. unfold makeCIDR, mk_net. by rewrite intToIP_encode. Qed.

(** ** Coverage *)

(** [n] holds the address [x] of the family [bits]. *)
Definition covers (n : IPNet) (bits x : Z) : bool :=
  (pbits n =? bits) && (lo n <=? x) && (x <=? hi n).

Definition blocked (ns : list IPNet) (bits x : Z) : bool := existsb (fun n => covers n bits x) ns.

Lemma blocked_app a b bits x : blocked (a ++ b) bits x = blocked a bits x || blocked b bits x.
Proof. apply existsb_app. Qed.

Lemma blocked_spec ns bits x :
  blocked ns bits x = true <-> exists n, n ∈ ns /\ covers n bits x = true.
Proof.
  unfold blocked. rewrite existsb_exists. by setoid_rewrite list_elem_of_In.
Qed.

Lemma blocked_false ns bits x :
  blocked ns bits x = false <-> forall n, n ∈ ns -> covers n bits x = false.
Proof.
  rewrite <- not_true_iff_false, blocked_spec. split.
  - intros H n Hn. destruct (covers n bits x) eqn:E; [|done]. exfalso. eauto.
  - intros H (n & Hn & Hc). rewrite H in Hc; done.
Qed.

Lemma blocked_perm a b bits x : Permutation a b -> blocked a bits x = blocked b bits x.
Proof.
  intros H. apply eq_true_iff_eq. rewrite !blocked_spec. by setoid_rewrite H.
Qed.

Lemma covers_spec n bits x :
  covers n bits x = true <-> pbits n = bits /\ lo n <= x <= hi n.
Proof. unfold covers. rewrite !andb_true_iff, Z.eqb_eq, !Z.leb_le. tauto. Qed.

Lemma CIDRsOverlap_eq a b :
  wf_net a -> wf_net b ->
  CIDRsOverlap a b = (pbits a =? pbits b) && (lo a <=? hi b) && (lo b <=? hi a).
Proof.
  intros Ha Hb. unfold CIDRsOverlap. rewrite sameFamily_eq, !Contains_eq by done.
  rewrite (Z.eqb_sym (pbits b)).
  destruct (wf_net_facts a Ha) as (_ & _ & _ & _ & ? & _).
  destruct (wf_net_facts b Hb) as (_ & _ & _ & _ & ? & _).
  destruct (pbits a =? pbits b); [|done]. cbn [negb andb].
  repeat zcase; done || (exfalso; lia).
Qed.

Lemma CIDRsOverlap_iff a b :
  wf_net a -> wf_net b ->
  CIDRsOverlap a b = true <-> exists x, covers a (pbits a) x = true /\ covers b (pbits a) x = true.
Proof.
  intros Ha Hb. rewrite CIDRsOverlap_eq by done.
  destruct (wf_net_facts a Ha) as (_ & _ & _ & _ & ? & _).
  destruct (wf_net_facts b Hb) as (_ & _ & _ & _ & ? & _).
  setoid_rewrite covers_spec. rewrite !andb_true_iff, Z.eqb_eq, !Z.leb_le. split.
  - intros [[? ?] ?]. exists (Z.max (lo a) (lo b)). lia.
  - intros (x & ? & ?). lia.
Qed.

(** ** Regions *)

Definition in_range (x : Z) (r : ipRange) : bool := (r_start r <=? x) && (x <=? r_end r).
Definition in_regions (rs : list ipRange) (x : Z) : bool := existsb (in_range x) rs.

(** Ascending, non-empty, inside [a, b], and apart by at least one address. *)
Fixpoint regions_ok (a b : Z) (rs : list ipRange) : Prop :=
  match rs with
  | [] => True
  | r :: rest => a <= r_start r /\ r_start r <= r_end r /\ r_end r <= b
                 /\ regions_ok (r_end r + 2) b rest
  end.

Lemma in_range_spec x r : in_range x r = true <-> r_start r <= x <= r_end r.
Proof. unfold in_range. rewrite andb_true_iff, !Z.leb_le. tauto. Qed.

Lemma in_regions_spec rs x : in_regions rs x = true <-> exists r, r ∈ rs /\ r_start r <= x <= r_end r.
Proof.
  unfold in_regions. rewrite existsb_exists. setoid_rewrite list_elem_of_In.
  by setoid_rewrite in_range_spec.
Qed.

Lemma in_regions_cons r rs x : in_regions (r :: rs) x = in_range x r || in_regions rs x.
Proof. done. Qed.

Lemma regions_ok_weaken a a' b rs : a' <= a -> regions_ok a b rs -> regions_ok a' b rs.
Proof. destruct rs; cbn; intros; [done|]. intuition lia. Qed.

Lemma regions_ok_elem a b rs r :
  regions_ok a b rs -> r ∈ rs -> a <= r_start r /\ r_start r <= r_end r /\ r_end r <= b.
Proof.
  revert a. induction rs as [|r' rs IH]; intros a Hok Hr; [by apply not_elem_of_nil in Hr|].
  destruct Hok as (? & ? & ? & Hok). apply elem_of_cons in Hr as [-> | Hr]; [lia|].
  specialize (IH _ Hok Hr). lia.
Qed.

Lemma in_regions_bounds a b rs x : regions_ok a b rs -> in_regions rs x = true -> a <= x <= b.
Proof.
  intros Hok (r & Hr & ?)%in_regions_spec. pose proof (regions_ok_elem _ _ _ _ Hok Hr). lia.
Qed.

Lemma in_regions_below a b rs x : regions_ok a b rs -> x < a -> in_regions rs x = false.
Proof.
  intros Hok Hx. destruct (in_regions rs x) eqn:E; [|done].
  pose proof (in_regions_bounds _ _ _ _ Hok E). lia.
Qed.

Lemma regions_head r1 rs1 r2 rs2 a1 b1 a2 b2 :
  regions_ok a1 b1 (r1 :: rs1) -> regions_ok a2 b2 (r2 :: rs2) ->
  (forall x, in_regions (r1 :: rs1) x = true -> in_regions (r2 :: rs2) x = true) ->
  r_start r2 <= r_start r1 /\ (r_start r1 <= r_end r2 -> r_end r1 <= r_end r2).
Proof.
  intros (? & ? & ? & Hok1) (? & ? & ? & Hok2) Hsub.
  assert (Hin : forall x, r_start r1 <= x <= r_end r1 -> in_regions (r2 :: rs2) x = true).
  { intros x Hx. apply Hsub. apply in_regions_spec. exists r1. split; [left | done]. }
  assert (Hcase : forall x, in_regions (r2 :: rs2) x = true ->
                            r_start r2 <= x <= r_end r2 \/ r_end r2 + 2 <= x).
  { intros x Hx. cbn in Hx. apply orb_true_iff in Hx as [Hx | Hx].
    - left. by apply in_range_spec.
    - right. by apply (in_regions_bounds _ _ _ _ Hok2 Hx). }
  pose proof (Hcase _ (Hin (r_start r1) ltac:(lia))). split; [lia|]. intros Hs.
  destruct (Z.le_gt_cases (r_end r1) (r_end r2)); [done|].
  pose proof (Hcase _ (Hin (r_end r2 + 1) ltac:(lia))). lia.
Qed.

(** A set of addresses has one list of maximal regions. *)
Lemma regions_unique a1 b1 rs1 a2 b2 rs2 :
  regions_ok a1 b1 rs1 -> regions_ok a2 b2 rs2 ->
  (forall x, in_regions rs1 x = in_regions rs2 x) -> rs1 = rs2.
Proof.
  revert a1 a2 rs2. induction rs1 as [|r1 rs1 IH]; intros a1 a2 [|r2 rs2] H1 H2 Heq; [done | | |].
  - exfalso. destruct H2 as (? & ? & _). specialize (Heq (r_start r2)). cbn in Heq.
    unfold in_range in Heq. revert Heq. repeat zcase; cbn; done || lia.
  - exfalso. destruct H1 as (? & ? & _). specialize (Heq (r_start r1)). cbn in Heq.
    unfold in_range in Heq. revert Heq. repeat zcase; cbn; done || lia.
  - pose proof (regions_head _ _ _ _ _ _ _ _ H1 H2 ltac:(intros x; by rewrite Heq)) as [??].
    pose proof (regions_head _ _ _ _ _ _ _ _ H2 H1 ltac:(intros x; by rewrite Heq)) as [??].
    destruct H1 as (? & ? & ? & H1), H2 as (? & ? & ? & H2).
    assert (r1 = r2) as <- by (destruct r1, r2; cbn in *; f_equal; lia).
    f_equal. eapply IH; [done | done |]. intros x. specialize (Heq x). cbn in Heq.
    destruct (in_range x r1) eqn:E; [|done]. apply in_range_spec in E.
    by rewrite (in_regions_below _ _ _ x H1), (in_regions_below _ _ _ x H2) by lia.
Qed.

(** The sizes of the regions add up to the addresses in them. *)
Lemma regions_count a b rs :
  regions_ok a b rs ->
  sumZ (fun r => r_end r - r_start r + 1) rs = count (in_regions rs) a b.
Proof.
  revert a. induction rs as [|r rs IH]; intros a Hok; [by rewrite count_false|].
  destruct Hok as (? & ? & ? & Hok).
  change (sumZ ?f (r :: rs)) with (f r + sumZ f rs).
  assert (Hlow : forall x, x < r_end r + 2 -> in_regions (r :: rs) x = in_range x r).
  { intros x Hx. by rewrite in_regions_cons, (in_regions_below _ _ _ x Hok), orb_false_r by lia. }
  assert (Hr : forall x, in_range x r = true <-> r_start r <= x <= r_end r)
    by (intros; apply in_range_spec).
  rewrite (count_from _ a (r_start r)); [|lia|].
  2: { intros x Hx. rewrite Hlow by lia. apply not_true_iff_false. rewrite Hr. lia. }
  rewrite (count_split _ (r_start r) (r_end r) b) by lia.
  rewrite (count_true _ (r_start r)); [|lia|].
  2: { intros x Hx. rewrite Hlow by lia. apply Hr. lia. }
  f_equal. rewrite (IH _ Hok).
  rewrite (count_from (in_regions (r :: rs)) (r_end r + 1) (r_end r + 2)); [|lia|].
  2: { intros x Hx. rewrite Hlow by lia. apply not_true_iff_false. rewrite Hr. lia. }
  apply count_ext. intros x Hx. rewrite in_regions_cons.
  replace (in_range x r) with false; [done|]. symmetry. apply not_true_iff_false. rewrite Hr. lia.
Qed.

(** ** Free regions *)

Lemma in_regions_app a b x : in_regions (a ++ b) x = in_regions a x || in_regions b x.
Proof. apply existsb_app. Qed.

Lemma regions_ok_cons_gap a b rs e :
  a < e -> e - 1 <= b -> regions_ok (e + 1) b rs ->
  regions_ok a b (mkRange a (e - 1) :: rs).
Proof.
  intros. cbn. repeat split; try lia. eapply regions_ok_weaken; [|done]. lia.
Qed.

Lemma sweep_ok ps pe cursor l :
  Forall (fun e => r_start e <= r_end e) l -> regions_ok cursor pe (sweep ps pe cursor l).
Proof.
  intros Hl. revert cursor. induction Hl as [|e l He Hl IH]; intros cursor; cbn.
  - zcase; cbn; lia.
  - destruct (_ || _) eqn:Hskip; [by apply IH|]. zbool. destruct (Z.ltb_spec cursor (r_start e)).
    + apply regions_ok_cons_gap; [done | lia |]. zcase; [|lia].
      eapply regions_ok_weaken; [|apply IH]. lia.
    + cbn. zcase; [|by apply IH]. eapply regions_ok_weaken; [|apply IH]. lia.
Qed.

Lemma sweep_in ps pe cursor l x :
  Forall (fun e => r_start e <= r_end e) l -> StronglySorted (key_le r_start) l -> ps <= cursor ->
  in_regions (sweep ps pe cursor l) x = true
  <-> cursor <= x <= pe /\ in_regions l x = false.
Proof.
  intros Hl Hs. revert cursor Hl. induction Hs as [|e l Hs IH Hlo]; intros cursor Hl Hc; cbn [sweep].
  - zcase; cbn.
    + rewrite orb_false_r, in_range_spec. cbn. tauto.
    + split; [done | lia].
  - apply Forall_cons in Hl as [He Hl]. rewrite in_regions_cons, orb_false_iff.
    rewrite <- (not_true_iff_false (in_range x e)), in_range_spec.
    destruct (_ || _) eqn:Hskip.
    + assert (cursor <= x <= pe -> ~ (r_start e <= x <= r_end e))
        by (apply orb_true_iff in Hskip as [?|?]; zbool; lia).
      rewrite IH by done. tauto.
    + zbool. rewrite in_regions_app, orb_true_iff, IH by (done || (zcase; lia)).
      assert (Hlater : x < r_start e -> in_regions l x = false).
      { intros Hx. apply not_true_iff_false. rewrite in_regions_spec. intros (r & Hr & ?).
        rewrite Forall_forall in Hlo. specialize (Hlo r Hr). red in Hlo. lia. }
      assert (Hgap : in_regions (if cursor <? r_start e then [mkRange cursor (r_start e - 1)] else []) x
                     = true <-> cursor <= x < r_start e).
      { zcase; cbn; [|split; [done | lia]]. rewrite orb_false_r, in_range_spec. cbn. lia. }
      rewrite Hgap. split.
      * intros [? | [? ?]]; [split; [lia|]; split; [lia | by apply Hlater; lia]|].
        revert H1. zcase; intros; (split; [lia | split; [lia | done]]).
      * intros [? [? ?]]. destruct (Z.lt_ge_cases x (r_start e)); [left; lia | right].
        split; [zcase; lia | done].
Qed.

(** The ranges [freeRegions] sweeps over. *)
Definition net_range (n : IPNet) : ipRange := mkRange (lo n) (hi n).

Lemma freeRegions_eq parent within :
  Forall wf_net within ->
  freeRegions parent within
  = sweep (lo parent) (hi parent) (lo parent) (sort_by r_start (map net_range within)).
Proof.
  intros Hw. unfold freeRegions. do 2 f_equal. apply map_ext_in. intros n Hn.
  rewrite Forall_forall in Hw. apply list_elem_of_In in Hn. by rewrite cidrBounds_eq by auto.
Qed.

Lemma net_ranges_ordered within :
  Forall wf_net within ->
  Forall (fun e => r_start e <= r_end e) (sort_by r_start (map net_range within)).
Proof.
  intros Hw. rewrite sort_by_perm. apply Forall_fmap. eapply Forall_impl; [exact Hw|].
  intros n Hn. cbn. by destruct (wf_net_facts n Hn) as (_ & _ & _ & _ & ? & _).
Qed.

Lemma freeRegions_wf parent within :
  Forall wf_net within ->
  regions_ok (lo parent) (hi parent) (freeRegions parent within).
Proof.
  intros Hw. rewrite freeRegions_eq by done. by apply sweep_ok, net_ranges_ordered.
Qed.

Lemma in_net_ranges within x :
  in_regions (sort_by r_start (map net_range within)) x = true
  <-> exists n, n ∈ within /\ lo n <= x <= hi n.
Proof.
  rewrite in_regions_spec. setoid_rewrite sort_by_in. split.
  - intros (r & (n & -> & Hn)%list_elem_of_fmap & Hx). eauto.
  - intros (n & Hn & Hx). exists (net_range n). split; [by apply list_elem_of_fmap_2 | done].
Qed.

(** The free regions hold exactly the addresses of [parent] no block covers. *)
Lemma freeRegions_in parent within x :
  wf_net parent -> Forall wf_net within -> Forall (fun n => pbits n = pbits parent) within ->
  in_regions (freeRegions parent within) x
  = covers parent (pbits parent) x && negb (blocked within (pbits parent) x).
Proof.
  intros Hp Hw Hb. apply eq_true_iff_eq.
  rewrite freeRegions_eq, sweep_in by (done || by apply net_ranges_ordered || apply sort_by_sorted || lia).
  rewrite andb_true_iff, negb_true_iff, covers_spec, <- !not_true_iff_false, in_net_ranges, blocked_spec.
  rewrite Forall_forall in Hb.
  assert (Hex : (exists n, n ∈ within /\ lo n <= x <= hi n)
                <-> exists n, n ∈ within /\ covers n (pbits parent) x = true).
  { split; intros (n & Hn & H); exists n; (split; [done|]); [|by apply covers_spec in H as [_ H]].
    apply covers_spec. auto. }
  rewrite Hex. tauto.
Qed.

(** ** [filterWithin] *)

(** No block of the parent's family starts below it and reaches into it.  The
    filter looks at the first address of a block only, so it drops a strict
    supernet that starts lower; under this hypothesis it drops nothing that
    matters. *)
Definition no_supernet (parent : IPNet) (cs : list IPNet) : Prop :=
  forall c, c ∈ cs -> pbits c = pbits parent -> lo c < lo parent -> hi c < lo parent.

Lemma filterWithin_elem parent cs c :
  wf_net parent -> Forall wf_net cs ->
  c ∈ filterWithin parent cs
  <-> c ∈ cs /\ pbits c = pbits parent /\ lo parent <= lo c <= hi parent.
Proof.
  intros Hp Hcs. unfold filterWithin. rewrite list_elem_of_In, filter_In, <- list_elem_of_In.
  rewrite Forall_forall in Hcs. split.
  - intros [Hc Hf]. rewrite sameFamily_eq, Contains_eq in Hf by auto. zbool. auto.
  - intros (Hc & Hb & ?). split; [done|]. rewrite sameFamily_eq, Contains_eq, Hb by auto.
    rewrite Z.eqb_refl. cbn. repeat zcase; cbn; done || lia.
Qed.

Lemma filterWithin_wf parent cs : Forall wf_net cs -> Forall wf_net (filterWithin parent cs).
Proof.
  rewrite !Forall_forall. intros H n Hn. apply H.
  unfold filterWithin in Hn. by apply list_elem_of_In, filter_In in Hn as [Hn%list_elem_of_In _].
Qed.

Lemma filterWithin_bits parent cs :
  wf_net parent -> Forall wf_net cs ->
  Forall (fun n => pbits n = pbits parent) (filterWithin parent cs).
Proof. intros Hp Hcs. apply Forall_forall. intros n Hn. by apply filterWithin_elem in Hn as (_ & ? & _). Qed.

Lemma filterWithin_perm parent a b :
  Permutation a b -> Permutation (filterWithin parent a) (filterWithin parent b).
Proof.
  unfold filterWithin. induction 1 as [|c a b _ IH|c d a|]; cbn.
  - done.
  - destruct (_ && _); [by constructor | done].
  - destruct (_ && _), (_ && _); try done. apply Permutation_swap.
  - by etransitivity.
Qed.

Lemma filterWithin_app parent a b :
  filterWithin parent (a ++ b) = filterWithin parent a ++ filterWithin parent b.
Proof. apply List.filter_app. Qed.

(** Inside the parent, dropping blocks changes nothing. *)
Lemma filterWithin_blocked parent cs x :
  wf_net parent -> Forall wf_net cs -> no_supernet parent cs ->
  covers parent (pbits parent) x = true ->
  blocked (filterWithin parent cs) (pbits parent) x = blocked cs (pbits parent) x.
Proof.
  intros Hp Hcs Hns Hx. apply covers_spec in Hx as [_ Hx].
  apply eq_true_iff_eq. rewrite !blocked_spec. split.
  - intros (n & Hn & Hc). apply filterWithin_elem in Hn as (Hn & _); [|done..]. eauto.
  - intros (n & Hn & Hc). exists n. split; [|done].
    apply covers_spec in Hc as [Hb Hc]. apply filterWithin_elem; [done..|].
    split; [done|]. split; [done|]. destruct (Z.lt_ge_cases (lo n) (lo parent)); [|lia].
    specialize (Hns n Hn Hb H). lia.
Qed.

(** The free addresses of a parent. *)
Definition free_in (parent : IPNet) (cs : list IPNet) (x : Z) : bool :=
  covers parent (pbits parent) x && negb (blocked cs (pbits parent) x).

Lemma free_regions_within parent cs x :
  wf_net parent -> Forall wf_net cs -> no_supernet parent cs ->
  in_regions (freeRegions parent (filterWithin parent cs)) x = free_in parent cs x.
Proof.
  intros Hp Hcs Hns.
  rewrite freeRegions_in by auto using filterWithin_wf, filterWithin_bits. unfold free_in.
  destruct (covers parent (pbits parent) x) eqn:Hx; [|done]. by rewrite filterWithin_blocked.
Qed.

Lemma no_supernet_perm parent a b : Permutation a b -> no_supernet parent a -> no_supernet parent b.
Proof. intros HP H c Hc. apply H. by rewrite HP. Qed.

Lemma no_supernet_app parent a b :
  no_supernet parent (a ++ b) <-> no_supernet parent a /\ no_supernet parent b.
Proof.
  unfold no_supernet. setoid_rewrite elem_of_app. split.
  - intros H. split; intros c Hc; apply H; auto.
  - intros [Ha Hb] c [Hc | Hc]; auto.
Qed.

(** Free regions depend on the addresses covered and on nothing else. *)
Lemma freeRegions_ext parent a b :
  wf_net parent -> Forall wf_net a -> Forall wf_net b ->
  no_supernet parent a -> no_supernet parent b ->
  (forall x, free_in parent a x = free_in parent b x) ->
  freeRegions parent (filterWithin parent a) = freeRegions parent (filterWithin parent b).
Proof.
  intros Hp Ha Hb Hna Hnb Heq.
  eapply regions_unique; [apply freeRegions_wf; auto using filterWithin_wf ..|].
  intros x. by rewrite !free_regions_within.
Qed.

(** ** Alignment *)

Lemma alignUp_spec v p t :
  0 <= t - p <= 128 ->
  alignUp v p t mod 2 ^ (t - p) = 0 /\ v <= alignUp v p t < v + 2 ^ (t - p)
  /\ (forall s, s mod 2 ^ (t - p) = 0 -> v <= s -> alignUp v p t <= s).
Proof.
  intros H. unfold alignUp. rewrite blockSize_eq by lia. set (size := 2 ^ (t - p)).
  assert (0 < size) by (apply pow2_pos; lia).
  pose proof (Z.mod_pos_bound v size ltac:(lia)).
  assert (Hleast : forall s, s mod size = 0 -> v <= s -> v mod size <> 0 -> v + (size - v mod size) <= s).
  { intros s Hs Hvs Hne. pose proof (Z.div_mod v size ltac:(lia)).
    pose proof (Z.div_mod s size ltac:(lia)).
    assert (v / size < s / size); [|nia].
    destruct (Z.lt_ge_cases (v / size) (s / size)); [done|]. exfalso. nia. }
  zcase; [split; [done|]; split; [lia | auto] |]. split; [|split; [lia | auto]].
  replace (v + (size - v mod size)) with ((v / size + 1) * size); [by apply Z.mod_mul; lia|].
  pose proof (Z.div_mod v size ltac:(lia)). lia.
Qed.

(** ** Splitting a region into aligned blocks *)

(** [ns] tile the addresses [a] to [b] of a family, in order. *)
Fixpoint tiles (bits a b : Z) (ns : list IPNet) : Prop :=
  match ns with
  | [] => b < a
  | n :: rest => wf_net n /\ pbits n = bits /\ lo n = a /\ hi n <= b /\ tiles bits (hi n + 1) b rest
  end.

(** IPv6 addresses outside the IPv4-mapped range, which Go reads as IPv4. *)
Definition native_range (bits a b : Z) : Prop :=
  bits = 128 -> forall x, a <= x <= b -> ~ v4mapped x.

Lemma best_len_spec n p c e bits :
  0 <= p -> p + Z.of_nat n = bits + 1 -> bits <= 128 -> c <= e ->
  let q := best_len n p c e bits in
  (n = 0%nat \/ (p <= q <= bits /\ c mod 2 ^ (bits - q) = 0 /\ c + 2 ^ (bits - q) - 1 <= e))
  /\ forall k, p <= bits - k -> 0 <= k -> c mod 2 ^ k = 0 -> c + 2 ^ k - 1 <= e -> k <= bits - q.
Proof.
  revert p. induction n as [|n IH]; intros p Hp Hn Hb Hce; cbn [best_len].
  - split; [by left | intros; lia].
  - rewrite blockSize_eq by lia. specialize (IH (p + 1) ltac:(lia) ltac:(lia) Hb Hce).
    cbv zeta in IH. destruct IH as [Hq Hmax].
    assert (Hlast : n = 0%nat -> c mod 2 ^ (bits - p) = 0 /\ c + 2 ^ (bits - p) - 1 <= e).
    { intros ->. replace (bits - p) with 0 by lia. rewrite Z.pow_0_r, Z.mod_1_r. lia. }
    destruct (Z.eqb_spec (c mod 2 ^ (bits - p)) 0) as [Hm | Hm]; cbn [negb].
    + zcase.
      * split; [right; repeat split; auto; lia | intros; lia].
      * split.
        -- right. destruct Hq as [-> | Hq]; [destruct Hlast; [done | lia]|].
           repeat split; lia || apply Hq.
        -- intros k Hk ? Ha He. destruct (Z.eq_dec (bits - k) p) as [Heq|]; [|apply Hmax; auto; lia].
           exfalso. replace k with (bits - p) in He by lia. lia.
    + split.
      * right. destruct Hq as [-> | Hq]; [destruct Hlast; [done | lia]|].
        repeat split; lia || apply Hq.
      * intros k Hk ? Ha He. destruct (Z.eq_dec (bits - k) p) as [Heq|]; [|apply Hmax; auto; lia].
        exfalso. replace k with (bits - p) in Ha by lia. done.
Qed.

Definition best (c e bits : Z) : Z := best_len (Z.to_nat (bits + 1)) 0 c e bits.

Lemma best_spec c e bits :
  0 <= bits <= 128 -> c <= e ->
  0 <= best c e bits <= bits /\ c mod 2 ^ (bits - best c e bits) = 0
  /\ c + 2 ^ (bits - best c e bits) - 1 <= e
  /\ forall k, 0 <= k <= bits -> c mod 2 ^ k = 0 -> c + 2 ^ k - 1 <= e -> k <= bits - best c e bits.
Proof.
  intros Hb Hce.
  destruct (best_len_spec (Z.to_nat (bits + 1)) 0 c e bits) as [[? | Hq] Hmax]; try lia.
  fold (best c e bits) in *. destruct Hq as (? & ? & ?). repeat split; try lia.
  intros k Hk. apply Hmax; lia.
Qed.

Lemma split_step fuel c e bits :
  0 <= bits <= 128 -> c <= e ->
  split_fuel (S fuel) c e bits
  = (out ← split_fuel fuel (c + 2 ^ (bits - best c e bits)) e bits;
     Some (makeCIDR c (best c e bits) bits :: out)).
Proof.
  intros Hb Hce. cbn [split_fuel]. destruct (Z.leb_spec c e); [|lia]. fold (best c e bits).
  destruct (best_spec c e bits) as (? & _); [done..|]. by rewrite blockSize_eq by lia.
Qed.

(** Under a block boundary higher than what is left, each block is half the
    boundary of the one before at most. *)
Lemma split_descends m fuel c e bits :
  0 <= bits <= 128 -> Z.of_nat m <= bits -> (m <= fuel)%nat ->
  c mod 2 ^ Z.of_nat m = 0 -> e - c + 1 < 2 ^ Z.of_nat m ->
  is_Some (split_fuel fuel c e bits).
Proof.
  intros Hb. revert fuel c. induction (lt_wf m) as [m _ IH]. intros fuel c Hm Hf Ha Hr.
  destruct (Z.le_gt_cases c e) as [Hce | Hce].
  2: { unfold split_fuel. destruct fuel; destruct (Z.leb_spec c e); eauto; lia. }
  destruct m as [|m']; [cbn in Hr; lia|]. destruct fuel as [|fuel]; [lia|].
  rewrite split_step by done.
  destruct (best_spec c e bits) as (Hq & Hqa & Hqe & Hmax); [done..|].
  set (k := bits - best c e bits) in *.
  assert (Hk : k < Z.of_nat (S m')).
  { destruct (Z.lt_ge_cases k (Z.of_nat (S m'))); [done|].
    assert (2 ^ Z.of_nat (S m') <= 2 ^ k) by (apply Z.pow_le_mono_r; lia). lia. }
  pose proof (Z.log2_spec (e - c + 1) ltac:(lia)) as [Hl1 Hl2].
  assert (Z.log2 (e - c + 1) < Z.of_nat (S m')) by (apply Z.log2_lt_pow2; lia).
  pose proof (Z.log2_nonneg (e - c + 1)).
  assert (Z.log2 (e - c + 1) <= k).
  { apply Hmax; [lia | | lia]. eapply aligned_weaken; [|exact Ha]. lia. }
  assert (2 ^ Z.succ (Z.log2 (e - c + 1)) <= 2 * 2 ^ k).
  { rewrite <- Z.pow_succ_r by lia. apply Z.pow_le_mono_r; lia. }
  destruct (IH (Z.to_nat k) ltac:(lia) fuel (c + 2 ^ k)) as [out ->]; [lia | lia | | | by eexists].
  - rewrite Z2Nat.id by lia. rewrite <- (Z.mul_1_l (2 ^ k)) at 1.
    rewrite Z.mod_add by (pose proof (pow2_pos k ltac:(lia)); lia). done.
  - rewrite Z2Nat.id by lia. lia.
Qed.

Lemma split_ascends m fuel c e bits :
  0 <= bits <= 128 -> (m <= Z.to_nat bits)%nat -> (m + Z.to_nat bits + 1 <= fuel)%nat ->
  0 <= c -> e < 2 ^ bits -> c mod 2 ^ (bits - Z.of_nat m) = 0 ->
  is_Some (split_fuel fuel c e bits).
Proof.
  intros Hb. revert fuel c. induction m as [|m IH]; intros fuel c Hm Hf Hc He Ha.
  - destruct (Z.lt_ge_cases (e - c + 1) (2 ^ bits)) as [Hr | Hr].
    + apply (split_descends (Z.to_nat bits)); try lia; rewrite Z2Nat.id by lia; [|done].
      by replace (bits - Z.of_nat 0) with bits in Ha by lia.
    + assert (c = 0) by lia. subst c. destruct fuel as [|fuel]; [lia|].
      pose proof (pow2_pos bits ltac:(lia)). rewrite split_step by lia.
      destruct (best_spec 0 e bits) as (Hq & Hqa & Hqe & Hmax); [lia..|].
      assert (bits <= bits - best 0 e bits) by (apply Hmax; [lia | by rewrite Z.mod_0_l; lia | lia]).
      replace (bits - best 0 e bits) with bits by lia.
      destruct (split_descends 0 fuel (0 + 2 ^ bits) e bits) as [out ->]; [lia | lia | lia | | | by eexists].
      * by rewrite Z.mod_1_r.
      * cbn. lia.
  - set (j := bits - Z.of_nat (S m)) in *.
    destruct (Z.eq_dec (c mod 2 ^ (bits - Z.of_nat m)) 0) as [Hup | Hup]; [apply IH; auto; lia|].
    destruct (Z.lt_ge_cases (e - c + 1) (2 ^ j)) as [Hr | Hr].
    + apply (split_descends (Z.to_nat j)); try lia; by rewrite Z2Nat.id by lia.
    + pose proof (pow2_pos j ltac:(lia)). destruct fuel as [|fuel]; [lia|].
      rewrite split_step by lia.
      destruct (best_spec c e bits) as (Hq & Hqa & Hqe & Hmax); [lia..|].
      set (k := bits - best c e bits) in *.
      assert (j <= k) by (apply Hmax; [lia | done | lia]).
      assert (k = j) as ->.
      { destruct (Z.eq_dec k j); [done|]. exfalso. apply Hup.
        eapply aligned_weaken; [|exact Hqa]. lia. }
      destruct (IH fuel (c + 2 ^ j)) as [out ->]; [lia | lia | lia | lia | | by eexists].
      replace (bits - Z.of_nat m) with (Z.succ j) in * by lia.
      apply aligned_divide in Ha as [q ->]; [|lia].
      rewrite Z.pow_succ_r in * by lia.
      destruct (Z.Even_or_Odd q) as [[h ->] | [h ->]].
      * exfalso. apply Hup. replace (2 * h * 2 ^ j) with (h * (2 * 2 ^ j)) by ring.
        apply Z.mod_mul. lia.
      * replace ((2 * h + 1) * 2 ^ j + 2 ^ j) with ((h + 1) * (2 * 2 ^ j)) by ring.
        apply Z.mod_mul. lia.
Qed.

(** The fuel of [splitRegionIntoAlignedCIDRs] is never exhausted. *)
Lemma split_total c e bits :
  0 <= bits <= 128 -> 0 <= c -> e < 2 ^ bits ->
  is_Some (split_fuel (split_fuel_for bits) c e bits).
Proof.
  intros Hb Hc He. apply (split_ascends (Z.to_nat bits)); try lia.
  - unfold split_fuel_for. lia.
  - rewrite Z2Nat.id, Z.sub_diag, Z.pow_0_r by lia. apply Z.mod_1_r.
Qed.

Lemma split_tiles fuel c e bits out :
  family_bits bits -> 0 <= c -> e < 2 ^ bits -> native_range bits c e ->
  split_fuel fuel c e bits = Some out -> c <= e + 1 -> tiles bits c e out.
Proof.
  intros Hf Hc He. assert (Hb : 0 <= bits <= 128) by (destruct Hf; lia).
  revert c out Hc. induction fuel as [|fuel IH]; intros c out Hc Hn Hs Hce.
  - cbn in Hs. destruct (Z.leb_spec c e); [done|]. injection Hs as <-. done.
  - destruct (Z.le_gt_cases c e) as [Hle | Hgt].
    2: { cbn [split_fuel] in Hs. destruct (Z.leb_spec c e); [lia|]. injection Hs as <-. done. }
    rewrite split_step in Hs by done.
    destruct (best_spec c e bits) as (Hq & Hqa & Hqe & Hmax); [lia..|].
    set (k := bits - best c e bits) in *. pose proof (pow2_pos k ltac:(lia)).
    destruct (split_fuel fuel (c + 2 ^ k) e bits) as [rest|] eqn:Hrest; [|done].
    injection Hs as <-.
    assert (V : valid_block c (best c e bits) bits)
      by (constructor; auto; fold k; try lia; intros E; apply Hn; [done | lia]).
    rewrite makeCIDR_mk by (done || lia). cbn [tiles].
    unfold pbits. rewrite Size_mk, lo_mk, hi_mk by done. fold k. cbn [snd].
    split; [by constructor|]. do 2 (split; [done|]). split; [lia|].
    replace (c + 2 ^ k - 1 + 1) with (c + 2 ^ k) by lia.
    apply IH; [lia | | done | lia]. intros E x Hx. apply Hn; [done | lia].
Qed.

(** Any two blocks of the list share no address. *)
Definition disjoint_nets (bits : Z) (ns : list IPNet) : Prop :=
  forall i j a b x, ns !! i = Some a -> ns !! j = Some b -> i <> j ->
    covers a bits x = true -> covers b bits x = true -> False.

Lemma tiles_covers bits a b ns x :
  tiles bits a b ns -> blocked ns bits x = (a <=? x) && (x <=? b) && negb (Nat.eqb (length ns) 0)
  \/ b < a.
Proof.
  revert a. induction ns as [|n ns IH]; intros a Ht; [by right|].
  destruct Ht as (Hw & Hb & <- & Hhi & Ht). left.
  destruct (wf_net_facts n Hw) as (_ & _ & _ & _ & ? & _).
  cbn [blocked existsb length Nat.eqb negb]. rewrite andb_true_r.
  unfold covers at 1. rewrite Hb, Z.eqb_refl. fold (blocked ns bits x).
  assert (Hr : blocked ns bits x = (hi n + 1 <=? x) && (x <=? b)).
  { destruct (IH _ Ht) as [-> | Hlt].
    - destruct ns as [|m ns']; [|by rewrite andb_true_r].
      cbn in Ht. cbn. rewrite andb_false_r. repeat zcase; done || lia.
    - destruct ns as [|m ns'].
      + cbn. repeat zcase; done || lia.
      + destruct Ht as (Hm & _ & ? & ? & _). destruct (wf_net_facts m Hm) as (_ & _ & _ & _ & ? & _). lia. }
  rewrite Hr. repeat zcase; done || lia.
Qed.

Lemma tiles_blocked bits a b ns x :
  tiles bits a b ns -> a <= b -> blocked ns bits x = (a <=? x) && (x <=? b).
Proof.
  intros Ht Hab. destruct (tiles_covers bits a b ns x Ht) as [-> | ?]; [|lia].
  destruct ns; [cbn in Ht; lia|]. cbn. by rewrite andb_true_r.
Qed.

Lemma tiles_elem bits a b ns n :
  tiles bits a b ns -> n ∈ ns -> wf_net n /\ pbits n = bits /\ a <= lo n /\ hi n <= b.
Proof.
  revert a. induction ns as [|m ns IH]; intros a Ht Hn; [by apply not_elem_of_nil in Hn|].
  destruct Ht as (Hw & Hb & <- & Hhi & Ht). destruct (wf_net_facts m Hw) as (_ & _ & _ & _ & ? & _).
  apply elem_of_cons in Hn as [-> | Hn]; [auto with lia|].
  destruct (IH _ Ht Hn) as (? & ? & ? & ?). auto with lia.
Qed.

(** Blocks in ascending address order without overlap. *)
Fixpoint ascending (bits a : Z) (ns : list IPNet) : Prop :=
  match ns with
  | [] => True
  | n :: rest => wf_net n /\ pbits n = bits /\ a <= lo n /\ ascending bits (hi n + 1) rest
  end.

Lemma ascending_weaken bits a a' ns : a' <= a -> ascending bits a ns -> ascending bits a' ns.
Proof. destruct ns; cbn; [done|]. intros ? (? & ? & ? & ?). auto with lia. Qed.

Lemma ascending_elem bits a ns n :
  ascending bits a ns -> n ∈ ns -> wf_net n /\ pbits n = bits /\ a <= lo n.
Proof.
  revert a. induction ns as [|m ns IH]; intros a Ht Hn; [by apply not_elem_of_nil in Hn|].
  destruct Ht as (Hw & Hb & ? & Ht). destruct (wf_net_facts m Hw) as (_ & _ & _ & _ & ? & _).
  apply elem_of_cons in Hn as [-> | Hn]; [auto|].
  destruct (IH _ Ht Hn) as (? & ? & ?). auto with lia.
Qed.

Lemma ascending_disjoint bits a ns : ascending bits a ns -> disjoint_nets bits ns.
Proof.
  revert a. induction ns as [|m ns IH]; intros a Ht [|i] [|j] n1 n2 x H1 H2 Hij Hc1 Hc2; try done.
  - destruct Ht as (Hw & Hb & ? & Ht). injection H1 as ->. cbn in H2.
    apply list_elem_of_lookup_2 in H2. destruct (ascending_elem _ _ _ _ Ht H2) as (_ & _ & ?).
    apply covers_spec in Hc1 as [_ ?], Hc2 as [_ ?]. lia.
  - destruct Ht as (Hw & Hb & ? & Ht). injection H2 as ->. cbn in H1.
    apply list_elem_of_lookup_2 in H1. destruct (ascending_elem _ _ _ _ Ht H1) as (_ & _ & ?).
    apply covers_spec in Hc1 as [_ ?], Hc2 as [_ ?]. lia.
  - destruct Ht as (_ & _ & _ & Ht). eapply (IH _ Ht i j); eauto.
Qed.

Lemma tiles_app_ascending bits a b ns rest :
  tiles bits a b ns -> ascending bits (b + 1) rest -> a <= b + 1 -> ascending bits a (ns ++ rest).
Proof.
  revert a. induction ns as [|n ns IH]; intros a Ht Hr Hab.
  - cbn in *. eapply ascending_weaken; [|done]. lia.
  - destruct Ht as (Hw & Hb & <- & Hhi & Ht). cbn. split; [done|]. split; [done|]. split; [lia|].
    apply IH; [done | done | lia].
Qed.

Lemma split_region_tiles c e bits :
  family_bits bits -> 0 <= c -> e < 2 ^ bits -> native_range bits c e -> c <= e + 1 ->
  tiles bits c e (splitRegionIntoAlignedCIDRs c e bits).
Proof.
  intros Hf Hc He Hn Hce. unfold splitRegionIntoAlignedCIDRs.
  destruct (split_total c e bits) as [out Hout]; [destruct Hf; lia | done | done |].
  rewrite Hout. cbn. eapply split_tiles; eauto.
Qed.

Definition native_net (n : IPNet) : Prop := native_range (pbits n) (lo n) (hi n).

Section Subtract.
Context (bits b : Z) (Hf : family_bits bits) (Hb : b < 2 ^ bits).

Definition split_all (rs : list ipRange) : list IPNet :=
  concat (map (fun r => splitRegionIntoAlignedCIDRs (r_start r) (r_end r) bits) rs).

Lemma split_all_ok a rs :
  0 <= a -> native_range bits a b -> regions_ok a b rs ->
  ascending bits a (split_all rs)
  /\ (forall x, blocked (split_all rs) bits x = in_regions rs x)
  /\ (forall n, n ∈ split_all rs -> exists r, r ∈ rs /\ r_start r <= lo n /\ hi n <= r_end r).
Proof using Hf Hb.
  revert a. induction rs as [|r rs IH]; intros a Ha Hn Hok.
  { split; [done|]. split; [done|]. intros n Hn'. by apply not_elem_of_nil in Hn'. }
  destruct Hok as (? & ? & ? & Hok).
  assert (Ht : tiles bits (r_start r) (r_end r) (splitRegionIntoAlignedCIDRs (r_start r) (r_end r) bits)).
  { apply split_region_tiles; try done; try lia. intros E x Hx. apply Hn; [done | lia]. }
  destruct (IH (r_end r + 2)) as (Hasc & Hbl & Hel); [lia | | done |].
  { intros E x Hx. apply Hn; [done | lia]. }
  change (split_all (r :: rs))
    with (splitRegionIntoAlignedCIDRs (r_start r) (r_end r) bits ++ split_all rs).
  split; [|split].
  - eapply ascending_weaken; [|eapply tiles_app_ascending; [exact Ht | | lia]]; [lia|].
    eapply ascending_weaken; [|exact Hasc]. lia.
  - intros x. rewrite blocked_app, in_regions_cons, Hbl, (tiles_blocked _ _ _ _ _ Ht) by done. done.
  - intros n Hn'. apply elem_of_app in Hn' as [Hn' | Hn'].
    + exists r. split; [left|]. apply (tiles_elem _ _ _ _ _ Ht) in Hn'. tauto.
    + destruct (Hel n Hn') as (r' & ? & ?). exists r'. split; [by right | done].
Qed.
End Subtract.

(** What [SubtractCIDR] leaves: ascending disjoint aligned blocks that cover
    exactly the parent's free addresses. *)
Lemma SubtractCIDR_spec parent cs :
  wf_net parent -> native_net parent -> Forall wf_net cs -> no_supernet parent cs ->
  ascending (pbits parent) (lo parent) (SubtractCIDR parent cs)
  /\ disjoint_nets (pbits parent) (SubtractCIDR parent cs)
  /\ (forall x, blocked (SubtractCIDR parent cs) (pbits parent) x = free_in parent cs x)
  /\ (forall n, n ∈ SubtractCIDR parent cs -> wf_net n /\ lo parent <= lo n /\ hi n <= hi parent).
Proof.
  intros Hp Hn Hcs Hns. destruct (wf_net_facts parent Hp) as (Hf & _ & _ & ? & ? & ? & _).
  unfold SubtractCIDR. rewrite pair_size.
  pose proof (freeRegions_wf parent (filterWithin parent cs) (filterWithin_wf _ _ Hcs)) as Hok.
  destruct (split_all_ok (pbits parent) (hi parent) Hf ltac:(lia) (lo parent)
              (freeRegions parent (filterWithin parent cs))) as (Hasc & Hbl & Hel); [done..|].
  unfold split_all in *. split; [done|]. split; [by eapply ascending_disjoint|]. split.
  - intros x. by rewrite Hbl, free_regions_within.
  - intros n Hin. destruct (ascending_elem _ _ _ _ Hasc Hin) as (? & _ & ?).
    destruct (Hel n Hin) as (r & Hr & ? & ?). pose proof (regions_ok_elem _ _ _ _ Hok Hr).
    auto with lia.
Qed.

(** ** Decision procedures

    The hypotheses about concrete networks, as boolean functions. *)

Definition wf_netb (n : IPNet) : bool :=
  let '(ones, bits) := Mask_Size (ipnet_Mask n) in
  let s := lo n in
  bool_decide (n = mk_net s ones bits)
  && ((bits =? 32) || (bits =? 128)) && (0 <=? ones) && (ones <=? bits)
  && (0 <=? s) && (s + 2 ^ (bits - ones) <=? 2 ^ bits) && (s mod 2 ^ (bits - ones) =? 0)
  && ((bits =? 32) || negb (s / 2 ^ 32 =? 65535)).

Lemma wf_netb_spec n : wf_netb n = true -> wf_net n.
Proof.
  unfold wf_netb. destruct (Mask_Size _) as [ones bits]. rewrite !andb_true_iff, !orb_true_iff.
  intros [[[[[[[Heq Hb] Ho1] Ho2] Hs] He] Ha] Hn]. apply bool_decide_eq_true in Heq. rewrite Heq.
  constructor. zbool. constructor; try done; try lia.
  - destruct Hb as [Hb | Hb]; zbool; [by left | by right].
  - intros E. destruct Hn as [Hn | Hn]; zbool; [lia | done].
Qed.

Definition native_netb (n : IPNet) : bool :=
  negb (pbits n =? 128) || (hi n <? 65535 * 2 ^ 32) || (65536 * 2 ^ 32 <=? lo n).

Lemma native_netb_spec n : native_netb n = true -> native_net n.
Proof.
  unfold native_netb, native_net, native_range, v4mapped. rewrite !orb_true_iff.
  intros [[H | H] | H] E x Hx Hm; zbool; [done | |];
    pose proof (Z.div_mod x (2 ^ 32) ltac:(lia)); pose proof (Z.mod_pos_bound x (2 ^ 32) ltac:(lia)); lia.
Qed.

Definition no_supernetb (parent : IPNet) (cs : list IPNet) : bool :=
  forallb (fun c => negb (pbits c =? pbits parent) || (lo parent <=? lo c) || (hi c <? lo parent)) cs.

Lemma no_supernetb_spec parent cs : no_supernetb parent cs = true -> no_supernet parent cs.
Proof.
  unfold no_supernetb. rewrite forallb_forall. intros H c Hc Hb Hl.
  apply list_elem_of_In in Hc. specialize (H c Hc). rewrite !orb_true_iff in H.
  destruct H as [[H | H] | H]; zbool; done || lia.
Qed.

Lemma forallb_Forall {A} (f : A -> bool) (P : A -> Prop) l :
  (forall x, f x = true -> P x) -> forallb f l = true -> Forall P l.
Proof. rewrite forallb_forall. intros Hf H. apply Forall_forall. intros x Hx%list_elem_of_In. auto. Qed.

(** ** Properties *)

(** A small pool: 10.0.0.0/24 holding 10.0.0.0/26 and 10.0.0.128/25. *)
Definition ex_parent : IPNet := mk_net (10 * 2 ^ 24) 24 32.
Definition ex_parents : list IPNet := [ex_parent].
Definition ex_existing : list IPNet := [mk_net (10 * 2 ^ 24) 26 32; mk_net (10 * 2 ^ 24 + 128) 25 32].

(** The free regions of a parent are its maximal free runs: ascending,
    non-empty, at least one address apart, and holding exactly the addresses of
    the parent that no allocation covers. *)
Theorem freeRegions_maximal_runs parent existing :
  wf_net parent -> Forall wf_net existing -> no_supernet parent existing ->
  let rs := freeRegions parent (filterWithin parent existing) in
  regions_ok (lo parent) (hi parent) rs
  /\ (forall x, in_regions rs x = free_in parent existing x)
  /\ sumZ (fun r => r_end r - r_start r + 1) rs = count (free_in parent existing) (lo parent) (hi parent).
Proof.
  intros Hp Hcs Hns rs. pose proof (freeRegions_wf parent _ (filterWithin_wf parent existing Hcs)) as Hok.
  assert (Hin : forall x, in_regions rs x = free_in parent existing x)
    by (intros; by apply free_regions_within).
  split; [done|]. split; [done|].
  rewrite <- (count_ext (in_regions rs)) by auto. by apply regions_count.
Qed.

Lemma freeRegions_maximal_runs_witness :
  let rs := freeRegions ex_parent (filterWithin ex_parent ex_existing) in
  regions_ok (lo ex_parent) (hi ex_parent) rs
  /\ (forall x, in_regions rs x = free_in ex_parent ex_existing x)
  /\ sumZ (fun r => r_end r - r_start r + 1) rs
     = count (free_in ex_parent ex_existing) (lo ex_parent) (hi ex_parent).
Proof.
  apply freeRegions_maximal_runs.
  - apply wf_netb_spec. vm_compute. reflexivity.
  - apply (forallb_Forall wf_netb); [apply wf_netb_spec | vm_compute; reflexivity].
  - apply no_supernetb_spec. vm_compute. reflexivity.
Defined.

(** is true exactly when the two networks are of one family
    and share an address. *)
Theorem CIDRsOverlap_shared_address a b :
  wf_net a -> wf_net b ->
  CIDRsOverlap a b = true
  <-> pbits a = pbits b /\ exists x, lo a <= x <= hi a /\ lo b <= x <= hi b.
Proof.
  intros Ha Hb. rewrite CIDRsOverlap_iff by done. setoid_rewrite covers_spec. split.
  - intros (x & [_ ?] & [? ?]). split; [done|]. by exists x.
  - intros (? & x & ? & ?). by exists x.
Qed.

Lemma CIDRsOverlap_shared_address_witness :
  CIDRsOverlap ex_parent (mk_net (10 * 2 ^ 24 + 128) 25 32) = true
  <-> pbits ex_parent = pbits (mk_net (10 * 2 ^ 24 + 128) 25 32)
      /\ exists x, lo ex_parent <= x <= hi ex_parent
         /\ lo (mk_net (10 * 2 ^ 24 + 128) 25 32) <= x <= hi (mk_net (10 * 2 ^ 24 + 128) 25 32).
Proof. apply CIDRsOverlap_shared_address; apply wf_netb_spec; vm_compute; reflexivity. Defined.

(** Each block of a decomposition is the largest aligned one that starts there
    and fits. *)
Fixpoint greedy (bits e : Z) (ns : list IPNet) : Prop :=
  match ns with
  | [] => True
  | n :: rest =>
    (forall k, 0 <= k <= bits -> lo n mod 2 ^ k = 0 -> lo n + 2 ^ k - 1 <= e -> lo n + 2 ^ k - 1 <= hi n)
    /\ greedy bits e rest
  end.

Lemma split_greedy fuel c e bits out :
  family_bits bits -> 0 <= c -> e < 2 ^ bits -> native_range bits c e ->
  split_fuel fuel c e bits = Some out -> greedy bits e out.
Proof.
  intros Hf Hc He. assert (Hb : 0 <= bits <= 128) by (destruct Hf; lia).
  revert c out Hc. induction fuel as [|fuel IH]; intros c out Hc Hn Hs.
  - cbn in Hs. destruct (Z.leb_spec c e); [done|]. injection Hs as <-. done.
  - destruct (Z.le_gt_cases c e) as [Hle | Hgt].
    2: { cbn [split_fuel] in Hs. destruct (Z.leb_spec c e); [lia|]. injection Hs as <-. done. }
    rewrite split_step in Hs by done.
    destruct (best_spec c e bits) as (Hq & Hqa & Hqe & Hmax); [lia..|].
    set (k := bits - best c e bits) in *. pose proof (pow2_pos k ltac:(lia)).
    destruct (split_fuel fuel (c + 2 ^ k) e bits) as [rest|] eqn:Hrest; [|done].
    injection Hs as <-.
    assert (V : valid_block c (best c e bits) bits)
      by (constructor; auto; fold k; try lia; intros E; apply Hn; [done | lia]).
    rewrite makeCIDR_mk by (done || lia). cbn [greedy]. rewrite lo_mk, hi_mk by done. fold k. split.
    + intros j Hj Ha Hje. specialize (Hmax j Hj Ha Hje).
      assert (2 ^ j <= 2 ^ k) by (apply Z.pow_le_mono_r; lia). lia.
    + apply (IH (c + 2 ^ k)); [lia | | done]. intros E x Hx. apply Hn; [done | lia].
Qed.

(** Splitting a region terminates, within twice the address width blocks, and
    tiles the region exactly with aligned blocks, each the largest that can
    start where it does. *)
Theorem splitRegion_tiles start end_ bits :
  family_bits bits -> 0 <= start -> start <= end_ + 1 -> end_ < 2 ^ bits ->
  native_range bits start end_ ->
  exists out, split_fuel (split_fuel_for bits) start end_ bits = Some out
    /\ splitRegionIntoAlignedCIDRs start end_ bits = out
    /\ tiles bits start end_ out /\ greedy bits end_ out.
Proof.
  intros Hf Hs Hse He Hn.
  destruct (split_total start end_ bits) as [out Hout]; [destruct Hf; lia | done | done |].
  exists out. split; [done|]. unfold splitRegionIntoAlignedCIDRs. rewrite Hout. split; [done|].
  split; [by eapply split_tiles | by eapply split_greedy].
Qed.

Lemma splitRegion_tiles_witness :
  exists out, split_fuel (split_fuel_for 32) 5 1000 32 = Some out
    /\ splitRegionIntoAlignedCIDRs 5 1000 32 = out /\ tiles 32 5 1000 out /\ greedy 32 1000 out.
Proof. apply splitRegion_tiles; [apply family_bits_32 | lia | lia | lia | intros E; discriminate]. Defined.

(** [SubtractCIDR] returns ascending, pairwise disjoint aligned blocks inside
    the parent that cover exactly the addresses no allocation covers. *)
Theorem SubtractCIDR_exact parent existing :
  wf_net parent -> native_net parent -> Forall wf_net existing -> no_supernet parent existing ->
  let out := SubtractCIDR parent existing in
  ascending (pbits parent) (lo parent) out /\ disjoint_nets (pbits parent) out
  /\ (forall x, blocked out (pbits parent) x = free_in parent existing x)
  /\ forall n, n ∈ out -> wf_net n /\ lo parent <= lo n /\ hi n <= hi parent.
Proof. apply SubtractCIDR_spec. Qed.

Lemma SubtractCIDR_exact_witness :
  let out := SubtractCIDR ex_parent ex_existing in
  ascending (pbits ex_parent) (lo ex_parent) out /\ disjoint_nets (pbits ex_parent) out
  /\ (forall x, blocked out (pbits ex_parent) x = free_in ex_parent ex_existing x)
  /\ forall n, n ∈ out -> wf_net n /\ lo ex_parent <= lo n /\ hi n <= hi ex_parent.
Proof.
  apply SubtractCIDR_exact.
  - apply wf_netb_spec. vm_compute. reflexivity.
  - apply native_netb_spec. vm_compute. reflexivity.
  - apply (forallb_Forall wf_netb); [apply wf_netb_spec | vm_compute; reflexivity].
  - apply no_supernetb_spec. vm_compute. reflexivity.
Defined.

(** The filter's blind spot: an allocation that starts below the parent and
    covers all of it is not "within", so every address of the parent reads as
    free. *)
Example filterWithin_drops_supernet :
  let parent := mk_net (10 * 2 ^ 24 + 256) 24 32 in
  let supernet := mk_net (10 * 2 ^ 24) 16 32 in
  CIDRsOverlap parent supernet = true /\ filterWithin parent [supernet] = []
  /\ SubtractCIDR parent [supernet] = [parent].
Proof. vm_compute. done. Qed.
