(* ===== verification/Float.v ===== *)
(** * Float: the float64 operations the percentages use

    Go's [float64] is IEEE 754 binary64 with rounding to nearest even.  The
    Standard Library's [SpecFloat] gives that arithmetic as executable functions
    on [spec_float]; this file instantiates it and adds the two conversions the
    source uses, [big.Rat.Float64] and [math.Round]. *)

From Stdlib Require Export SpecFloat.
From S2P Require Import Prelude.

Definition prec : Z := 53.
Definition emax : Z := 1024.

Definition f_zero : spec_float := S754_zero false.

(** An exact integer, rounded: [big.Float.SetInt] followed by [Float64], and
    the constants. *)
Definition f_of_Z (z : Z) : spec_float := binary_normalize prec emax z 0 false.

(** [big.Rat.Float64] of [a / b], [b] positive: the nearest float64. *)
Definition f_of_ratio (a b : Z) : spec_float :=
  if a =? 0 then f_zero
  else let '(m, e, loc) := SFdiv_core_binary prec emax (Z.abs a) 0 b 0 in
       binary_round_aux prec emax (a <? 0) m e loc.

Definition f_mul : spec_float -> spec_float -> spec_float := SFmul prec emax.
Definition f_div : spec_float -> spec_float -> spec_float := SFdiv prec emax.
Definition f_sub : spec_float -> spec_float -> spec_float := SFsub prec emax.
Definition f_lt : spec_float -> spec_float -> bool := SFltb.

(** [math.Round]: to the nearest integer, halves away from zero. *)
Definition f_round (x : spec_float) : spec_float :=
  match x with
  | S754_finite s m e =>
    if 0 <=? e then x
    else
      let half := Z.shiftl 1 (- e - 1) in
      let n := Z.shiftr (Z.pos m + half) (- e) in
      binary_normalize prec emax (if s then - n else n) 0 s
  | _ => x
  end.
