(* ===== verification/Reservation.v ===== *)
(** * Reservation: [internal/allocation/reservation.go]

    The positions a pool withholds at its edges, and the test of one exact
    block.

    The specification of [ReservedBlocks] is the list of every unit of the
    pool in address order ([all_units]); the blocks it returns are the first
    [leading] and the last [trailing] of that list, whatever order the
    parents arrive in.  Go sizes the slice it returns with [leading+trailing] before it
    looks at the range, which a count near the width of an [int] would overflow; the
    model's list has no capacity, and the strategies bound what callers pass
    ([counts_ok]). *)

From S2P Require Import Prelude Net Cidr.

(** ** Operations *)

Record Reservation := mkReservation {
  UnitPrefixLength : Z;
  Leading : Z;
  Trailing : Z
}.

Definition IsZero (r : Reservation) : bool := (Leading r =? 0) && (Trailing r =? 0).

Definition unitsToTake (want available : Z) : Z :=
  if want <=? available then want else to_int64 available.

(** The loop over [sorted[1:]] comparing each with [sorted[0]]. *)
Definition same_kind (first p : IPNet) (bits : Z) : bool :=
  let '(_, b) := Mask_Size (ipnet_Mask p) in
  (b =? bits) && sameFamily (ipnet_IP first) (ipnet_IP p).

Fixpoint adjacent_overlap (l : list IPNet) : bool :=
  match l with
  | a :: ((b :: _) as rest) => CIDRsOverlap a b || adjacent_overlap rest
  | _ => false
  end.

Definition sortedDisjointParents (parents : list IPNet) : result AllocErr (list IPNet * Z) :=
  match parents with
  | [] => Err ErrInvalidReservation
  | first :: rest =>
    let '(_, bits) := Mask_Size (ipnet_Mask first) in
    if bits =? 0 then Err ErrInvalidReservation
    else if negb (forallb (fun p => same_kind first p bits) rest) then Err ErrInvalidReservation
    else
      let sorted := sort_by cidrFirstAddr parents in
      if adjacent_overlap sorted then Err ErrInvalidReservation else Ok (sorted, bits)
  end.

(** The two inner loops: [n] blocks upwards from [cursor], or downwards. *)
Fixpoint emit_up (n : nat) (cursor size prefixLen bits : Z) : list IPNet :=
  match n with
  | O => []
  | S n' => makeCIDR cursor prefixLen bits :: emit_up n' (cursor + size) size prefixLen bits
  end.

Fixpoint emit_down (n : nat) (cursor size prefixLen bits : Z) : list IPNet :=
  match n with
  | O => []
  | S n' => makeCIDR cursor prefixLen bits :: emit_down n' (cursor - size) size prefixLen bits
  end.

(** [uint(unitPrefixLen-ones)] units in a parent. *)
Definition unitCount (unitPrefixLen : Z) (p : IPNet) : Z :=
  let '(ones, _) := Mask_Size (ipnet_Mask p) in Z.shiftl 1 (to_uint (unitPrefixLen - ones)).

Fixpoint leading_blocks (unitPrefixLen bits remaining : Z) (sorted : list IPNet) : list IPNet :=
  match sorted with
  | [] => []
  | p :: rest =>
    if 0 <? remaining then
      let take := unitsToTake remaining (unitCount unitPrefixLen p) in
      emit_up (Z.to_nat take) (cidrFirstAddr p) (blockSize unitPrefixLen bits) unitPrefixLen bits
      ++ leading_blocks unitPrefixLen bits (remaining - take) rest
    else []
  end.

(** Over the parents from the highest down; the caller reverses the result. *)
Fixpoint trailing_blocks (unitPrefixLen bits remaining : Z) (descending : list IPNet) : list IPNet :=
  match descending with
  | [] => []
  | p :: rest =>
    if 0 <? remaining then
      let take := unitsToTake remaining (unitCount unitPrefixLen p) in
      let onePast := cidrLastAddr p + 1 in
      let unitSize := blockSize unitPrefixLen bits in
      emit_down (Z.to_nat take) (onePast - unitSize) unitSize unitPrefixLen bits
      ++ trailing_blocks unitPrefixLen bits (remaining - take) rest
    else []
  end.

Definition ReservedBlocks (parents : list IPNet) (leading trailing unitPrefixLen : Z)
    : result AllocErr (list IPNet) :=
  if (leading <? 0) || (trailing <? 0) then Err ErrInvalidReservation
  else if (leading =? 0) && (trailing =? 0) then Ok []
  else match parents with
  | [] => Err ErrNoParent
  | _ =>
    '(sorted, bits) ← sortedDisjointParents parents;
    if bits <? unitPrefixLen then Err ErrInvalidReservation
    else if existsb (fun p => unitPrefixLen <? fst (Mask_Size (ipnet_Mask p))) sorted
    then Err ErrInvalidReservation
    else
      let total := foldl (fun t p => t + unitCount unitPrefixLen p) 0 sorted in
      let want := leading + trailing in
      if total <? want then Err ErrReservationTooLarge
      else Ok (leading_blocks unitPrefixLen bits leading sorted
               ++ rev (trailing_blocks unitPrefixLen bits trailing (rev sorted)))
  end.

Definition BlocksIn (r : Reservation) (parents : list IPNet) : result AllocErr (list IPNet) :=
  ReservedBlocks parents (Leading r) (Trailing r) (UnitPrefixLength r).

Definition cidrContains (parent child : IPNet) : bool :=
  if negb (sameFamily (ipnet_IP parent) (ipnet_IP child)) then false
  else (cidrFirstAddr parent <=? cidrFirstAddr child)
       && (cidrLastAddr child <=? cidrLastAddr parent).

Definition IsBlockAvailable (parents existing : list IPNet) (want : IPNet) : bool :=
  if negb (existsb (fun p => cidrContains p want) parents) then false
  else negb (existsb (fun e => CIDRsOverlap want e) existing).

(** ** Runs of units *)

Section Emit.
Context (size u bits : Z).
Let up n c := emit_up n c size u bits.

Lemma length_emit_up n c : length (up n c) = n.
Proof using. subst up. revert c. induction n; intros; cbn; auto. Qed.

Lemma emit_up_app n m c : up (n + m) c = up n c ++ up m (c + Z.of_nat n * size).
Proof using.
  subst up. cbv beta. revert c. induction n as [|n IH]; intros c; cbn [Nat.add emit_up app].
  - f_equal. lia.
  - rewrite IH. do 3 f_equal. lia.
Qed.

Lemma take_emit_up k n c : take k (up n c) = up (k `min` n) c.
Proof using.
  destruct (Nat.le_ge_cases n k).
  - rewrite take_ge by (rewrite length_emit_up; lia). by rewrite Nat.min_r.
  - rewrite Nat.min_l by done. replace n with (k + (n - k))%nat at 1 by lia.
    by rewrite emit_up_app, take_app_length' by by rewrite length_emit_up.
Qed.

Lemma drop_emit_up k n c :
  (k <= n)%nat -> drop k (up n c) = up (n - k) (c + Z.of_nat k * size).
Proof using.
  intros H. replace n with (k + (n - k))%nat at 1 by lia.
  by rewrite emit_up_app, drop_app_length' by by rewrite length_emit_up.
Qed.

Lemma rev_emit_down n c :
  rev (emit_down n c size u bits) = up n (c - (Z.of_nat n - 1) * size).
Proof using.
  revert c. induction n as [|n IH]; intros c; [done|].
  cbn [emit_down rev]. rewrite IH. replace (S n) with (n + 1)%nat by lia.
  rewrite emit_up_app, Nat2Z.inj_add. subst up. cbn [emit_up].
  f_equal; [f_equal; lia|]. do 2 f_equal. lia.
Qed.
End Emit.

(** Every unit of one parent, and of a list of them. *)
Definition units_of (u : Z) (p : IPNet) : list IPNet :=
  map (fun i => mk_net (lo p + Z.of_nat i * 2 ^ (pbits p - u)) u (pbits p))
    (seq 0 (Z.to_nat (2 ^ (u - pones p)))).

Definition all_units (u : Z) (ps : list IPNet) : list IPNet := concat (map (units_of u) ps).

Section Units.
Context (u : Z).

(** A parent the unit divides. *)
Definition unit_ok (bits : Z) (p : IPNet) : Prop :=
  wf_net p /\ pbits p = bits /\ pones p <= u <= bits.

Lemma unitCount_eq bits p : unit_ok bits p -> unitCount u p = 2 ^ (u - pones p).
Proof using.
  intros (Hp & Hb & Hu). destruct (wf_net_facts p Hp) as (_ & ? & ? & _).
  unfold unitCount, to_uint. rewrite pair_size, Z.mod_small by lia. by rewrite Z.shiftl_1_l.
Qed.

Lemma emit_up_mk bits n c :
  family_bits bits -> 0 <= u <= bits -> 0 <= c -> c + Z.of_nat n * 2 ^ (bits - u) <= 2 ^ bits ->
  emit_up n c (2 ^ (bits - u)) u bits
  = map (fun i => mk_net (c + Z.of_nat i * 2 ^ (bits - u)) u bits) (seq 0 n).
Proof using.
  intros Hf Hu. pose proof (pow2_pos (bits - u) ltac:(lia)).
  revert c. induction n as [|n IH]; intros c Hc He; [done|].
  cbn [emit_up seq map]. rewrite makeCIDR_mk, Z.add_0_r by (done || nia). f_equal.
  rewrite IH by nia. rewrite <- seq_shift, map_map. apply map_ext. intros i. f_equal. lia.
Qed.

Lemma unit_span bits p :
  unit_ok bits p ->
  2 ^ (u - pones p) * 2 ^ (bits - u) = hi p - lo p + 1
  /\ 0 < 2 ^ (u - pones p) /\ 0 < 2 ^ (bits - u).
Proof using.
  intros (Hp & <- & Hu). destruct (wf_net_facts p Hp) as (_ & ? & ? & _ & _ & _ & -> & _).
  rewrite <- Z.pow_add_r by lia.
  replace (u - pones p + (pbits p - u)) with (pbits p - pones p) by lia.
  split; [lia|]. split; apply pow2_pos; lia.
Qed.

Lemma units_of_emit bits p :
  unit_ok bits p ->
  units_of u p = emit_up (Z.to_nat (unitCount u p)) (lo p) (blockSize u bits) u bits.
Proof using.
  intros Hok. pose proof (unit_span bits p Hok) as (Hspan & ? & ?).
  rewrite (unitCount_eq bits) by done. destruct Hok as (Hp & <- & Hu).
  destruct (wf_net_facts p Hp) as (? & ? & ? & ? & ? & ? & _).
  rewrite blockSize_eq by lia. symmetry. apply emit_up_mk; lia || done.
Qed.

Lemma length_units_of bits p : unit_ok bits p -> length (units_of u p) = Z.to_nat (unitCount u p).
Proof using. intros H. rewrite (units_of_emit bits) by done. apply length_emit_up. Qed.

Lemma total_units bits ps :
  Forall (unit_ok bits) ps ->
  foldl (fun t p => t + unitCount u p) 0 ps = Z.of_nat (length (all_units u ps)).
Proof using.
  intros H. rewrite foldl_sumZ, Z.add_0_l. unfold all_units.
  induction H as [|p ps Hp Hps IH]; [done|].
  cbn [map concat]. rewrite length_app, Nat2Z.inj_add, <- IH, (length_units_of bits) by done.
  rewrite Z2Nat.id; [done|]. rewrite (unitCount_eq bits) by done.
  pose proof (unit_span bits p Hp). lia.
Qed.

Lemma unitsToTake_eq bits p want :
  unit_ok bits p -> 0 <= want < 2 ^ 63 -> unitsToTake want (unitCount u p) = Z.min want (unitCount u p).
Proof using.
  intros Hp Hw. rewrite (unitCount_eq bits) by done. pose proof (unit_span bits p Hp).
  unfold unitsToTake. zcase; [lia|]. rewrite to_int64_id by (red; lia). lia.
Qed.

Lemma leading_take bits ps k :
  Forall (unit_ok bits) ps -> 0 <= k < 2 ^ 63 ->
  leading_blocks u bits k ps = take (Z.to_nat k) (all_units u ps).
Proof using.
  intros Hps. revert k. induction Hps as [|p ps Hp Hps IH]; intros k Hk.
  - cbn. by rewrite take_nil.
  - unfold all_units. cbn [leading_blocks map concat]. fold (all_units u ps).
    pose proof (unit_span bits p Hp). pose proof (unitCount_eq bits p Hp).
    zcase.
    2: { replace k with 0 by lia. done. }
    rewrite (unitsToTake_eq bits) by done. rewrite IH by lia.
    rewrite take_app, (length_units_of bits), (units_of_emit bits), take_emit_up by done.
    f_equal; f_equal; lia.
Qed.

Lemma trailing_drop bits ps k :
  Forall (unit_ok bits) ps -> 0 <= k < 2 ^ 63 ->
  rev (trailing_blocks u bits k ps)
  = drop (length (all_units u (rev ps)) - Z.to_nat k) (all_units u (rev ps)).
Proof using.
  intros Hps. revert k. induction Hps as [|p ps Hp Hps IH]; intros k Hk; [done|].
  cbn [trailing_blocks rev]. unfold all_units.
  rewrite map_app, concat_app. fold (all_units u (rev ps)). cbn [map concat]. rewrite app_nil_r.
  pose proof (unit_span bits p Hp) as (Hspan & ? & ?). pose proof (unitCount_eq bits p Hp).
  zcase.
  2: { replace k with 0 by lia. rewrite drop_ge; [done | lia]. }
  rewrite (unitsToTake_eq bits) by done.
  rewrite rev_app_distr, IH, drop_app, length_app, (length_units_of bits) by (done || lia).
  f_equal.
  { destruct (Z.le_gt_cases k (unitCount u p)); [rewrite !drop_ge by lia; done|]. f_equal. lia. }
  rewrite rev_emit_down, (units_of_emit bits) by done.
  destruct Hp as (Hp & <- & Hu). destruct (wf_net_facts p Hp) as (? & ? & ? & ? & ? & ? & _).
  rewrite blockSize_eq by lia. set (n := unitCount u p) in *.
  rewrite drop_emit_up by lia. rewrite Z2Nat.id by lia.
  f_equal; [lia|]. nia.
Qed.
End Units.

(** ** [sortedDisjointParents] *)

Definition same_family_all (ps : list IPNet) : Prop :=
  forall a b, a ∈ ps -> b ∈ ps -> pbits a = pbits b.

Definition pairwise_disjoint (ps : list IPNet) : Prop :=
  forall i j a b, ps !! i = Some a -> ps !! j = Some b -> i <> j -> CIDRsOverlap a b = false.

Lemma sorted_no_overlap bits l a0 :
  Forall wf_net l -> Forall (fun n => pbits n = bits) l -> StronglySorted (key_le lo) l ->
  adjacent_overlap l = false -> (forall n, n ∈ l -> a0 <= lo n) -> ascending bits a0 l.
Proof.
  intros Hw Hb Hs. revert a0. induction Hs as [|n l Hs IH Hle]; intros a0 Hadj Hlo; [done|].
  apply Forall_cons in Hw as [Hn Hw], Hb as [Hbn Hb]. cbn [ascending].
  split; [done|]. split; [done|]. split; [apply Hlo; left|].
  destruct l as [|m l]; [done|]. cbn [adjacent_overlap] in Hadj.
  apply orb_false_iff in Hadj as [Hov Hadj].
  assert (Hnm : hi n + 1 <= lo m).
  { apply Forall_cons in Hw as [Hm _], Hb as [Hbm _], Hle as [Hle _]. red in Hle.
    destruct (wf_net_facts m Hm) as (_ & _ & _ & _ & ? & _).
    rewrite CIDRsOverlap_eq, Hbn, Hbm, Z.eqb_refl in Hov by done. cbn [andb] in Hov.
    destruct (Z.leb_spec (lo n) (hi m)), (Z.leb_spec (lo m) (hi n)); try done; lia. }
  apply IH; [done..|]. intros x Hx. apply elem_of_cons in Hx as [-> | Hx]; [done|].
  inversion Hs as [|? ? _ Hm']; subst. rewrite Forall_forall in Hm'.
  specialize (Hm' x Hx). red in Hm'. lia.
Qed.

Lemma sortedDisjointParents_ok ps sorted bits :
  Forall wf_net ps -> sortedDisjointParents ps = Ok (sorted, bits) ->
  Permutation sorted ps /\ Forall (fun n => pbits n = bits) sorted /\ ascending bits 0 sorted.
Proof.
  intros Hw H. unfold sortedDisjointParents in H. destruct ps as [|p ps]; [done|].
  rewrite pair_size in H. destruct (Z.eqb_spec (pbits p) 0) as [|Hnz]; [done|].
  destruct (forallb _ ps) eqn:Hall; [|done]. cbn [negb] in H.
  pose proof (sort_by_perm lo (p :: ps)) as HP. pose proof (sort_by_sorted lo (p :: ps)) as Hs.
  set (l := sort_by lo (p :: ps)) in *. clearbody l.
  destruct (adjacent_overlap l) eqn:Hadj; [done|]. injection H as <- <-.
  rename l into sorted.
  assert (Hb : Forall (fun n => pbits n = pbits p) sorted).
  { rewrite HP. constructor; [done|]. apply Forall_forall. intros n Hn.
    rewrite forallb_forall in Hall. apply list_elem_of_In in Hn. specialize (Hall n Hn).
    unfold same_kind in Hall. rewrite pair_size in Hall. by zbool. }
  split; [done|]. split; [done|].
  apply sorted_no_overlap; try done; [by rewrite HP|].
  intros n Hn. rewrite Forall_forall in Hw. rewrite HP in Hn.
  by destruct (wf_net_facts n (Hw n Hn)) as (_ & _ & _ & ? & _).
Qed.

Lemma ascending_sorted bits a l : ascending bits a l -> StronglySorted (key_le lo) l.
Proof.
  revert a. induction l as [|n l IH]; intros a Ha; [constructor|].
  destruct Ha as (Hn & _ & ? & Ha). constructor; [by eapply IH|].
  apply Forall_forall. intros m Hm. destruct (ascending_elem _ _ _ _ Ha Hm) as (_ & _ & ?).
  destruct (wf_net_facts n Hn) as (_ & _ & _ & _ & ? & _). red. lia.
Qed.

Lemma ascending_keys bits a l x y :
  ascending bits a l -> x ∈ l -> y ∈ l -> lo x = lo y -> x = y.
Proof.
  revert a. induction l as [|n l IH]; intros a Ha Hx Hy Heq; [by apply not_elem_of_nil in Hx|].
  destruct Ha as (Hn & _ & ? & Ha). destruct (wf_net_facts n Hn) as (_ & _ & _ & _ & ? & _).
  apply elem_of_cons in Hx as [-> | Hx], Hy as [-> | Hy]; [done | | | by eapply IH].
  - destruct (ascending_elem _ _ _ _ Ha Hy) as (_ & _ & ?). lia.
  - destruct (ascending_elem _ _ _ _ Ha Hx) as (_ & _ & ?). lia.
Qed.

Lemma ascending_adjacent bits a l : ascending bits a l -> adjacent_overlap l = false.
Proof.
  revert a. induction l as [|n l IH]; intros a Ha; [done|].
  destruct Ha as (Hn & Hb & ? & Ha). destruct l as [|m l]; [done|].
  change (CIDRsOverlap n m || adjacent_overlap (m :: l) = false).
  rewrite (IH _ Ha). destruct Ha as (Hm & Hb' & ? & _).
  rewrite CIDRsOverlap_eq by done. repeat zcase; done || lia.
Qed.

Lemma sortedDisjointParents_complete ps sorted bits :
  ps <> [] -> Permutation sorted ps -> ascending bits 0 sorted ->
  sortedDisjointParents ps = Ok (sorted, bits).
Proof.
  intros Hne HP Ha.
  assert (Hel : forall n, n ∈ ps -> wf_net n /\ pbits n = bits).
  { intros n Hn. rewrite <- HP in Hn. by destruct (ascending_elem _ _ _ _ Ha Hn) as (? & ? & _). }
  destruct ps as [|p ps]; [done|]. unfold sortedDisjointParents. rewrite pair_size.
  destruct (Hel p) as [Hp Hpb]; [left|]. rewrite Hpb.
  destruct (wf_net_facts p Hp) as (Hf & _). rewrite Hpb in Hf.
  assert (Hall : forallb (fun q => same_kind p q bits) ps = true).
  { apply forallb_forall. intros q Hq%list_elem_of_In. destruct (Hel q) as [Hq' Hqb]; [by right|].
    unfold same_kind. rewrite pair_size, sameFamily_eq, Hqb, Hpb, Z.eqb_refl by done. done. }
  rewrite Hall.
  assert (sort_by lo (p :: ps) = sorted) as ->.
  { symmetry. apply (sorted_unique lo).
    - intros x y Hx Hy. by apply (ascending_keys bits 0 sorted).
    - by eapply ascending_sorted.
    - apply sort_by_sorted.
    - by rewrite sort_by_perm. }
  rewrite (ascending_adjacent _ _ _ Ha). destruct (Z.eqb_spec bits 0) as [E | _]; [|done].
  destruct Hf; lia.
Qed.

(** ** The blocks withheld *)

Definition edge_units (leading trailing : Z) (units : list IPNet) : list IPNet :=
  take (Z.to_nat leading) units ++ drop (length units - Z.to_nat trailing) units.

Lemma ReservedBlocks_eq u bits ps sorted leading trailing :
  ps <> [] -> Permutation sorted ps -> ascending bits 0 sorted -> Forall (unit_ok u bits) sorted ->
  0 <= leading < 2 ^ 63 -> 0 <= trailing < 2 ^ 63 -> leading + trailing <> 0 ->
  ReservedBlocks ps leading trailing u
  = if Z.of_nat (length (all_units u sorted)) <? leading + trailing
    then Err ErrReservationTooLarge
    else Ok (edge_units leading trailing (all_units u sorted)).
Proof.
  intros Hne HP Ha Hu Hl Ht Hnz. unfold ReservedBlocks.
  replace ((leading <? 0) || (trailing <? 0)) with false by (repeat zcase; done || lia).
  replace ((leading =? 0) && (trailing =? 0)) with false by (repeat zcase; done || lia).
  rewrite (sortedDisjointParents_complete ps sorted bits) by done.
  destruct ps as [|p0 ps0]; [done|]. cbn [mbind result_bind].
  assert (Hbits : (bits <? u) = false /\ existsb (fun p => u <? fst (Mask_Size (ipnet_Mask p))) sorted = false).
  { assert (exists p, p ∈ sorted) as [p Hp] by (exists p0; rewrite HP; left).
    rewrite Forall_forall in Hu. destruct (Hu p Hp) as (_ & _ & ?). split; [zcase; lia|].
    apply not_true_iff_false. rewrite existsb_exists. intros (q & Hq%list_elem_of_In & Hlt).
    destruct (Hu q Hq) as (_ & _ & ?). unfold pones in *. zbool. lia. }
  destruct Hbits as [-> ->]. rewrite (total_units u bits) by done.
  destruct (_ <? _); [done|]. f_equal. unfold edge_units.
  rewrite (leading_take u bits) by done. f_equal.
  rewrite (trailing_drop u bits), rev_involutive by (done || by apply Forall_rev). done.
Qed.

(** A result other than the two configuration errors comes from such parents. *)
Lemma ReservedBlocks_inv u ps leading trailing :
  Forall wf_net ps ->
  ReservedBlocks ps leading trailing u <> Err ErrInvalidReservation ->
  ReservedBlocks ps leading trailing u <> Err ErrNoParent -> leading + trailing <> 0 ->
  0 <= leading /\ 0 <= trailing /\ ps <> []
  /\ exists sorted bits, Permutation sorted ps /\ ascending bits 0 sorted
                         /\ Forall (unit_ok u bits) sorted.
Proof.
  intros Hw. unfold ReservedBlocks. destruct (Z.ltb_spec leading 0), (Z.ltb_spec trailing 0);
    cbn [orb]; try done.
  destruct (_ && _) eqn:Hz; [zbool; lia|]. destruct ps as [|p0 ps0]; [done|].
  destruct (sortedDisjointParents _) as [[sorted bits]|e] eqn:Hs; cbn [mbind result_bind].
  - apply sortedDisjointParents_ok in Hs as (HP & Hb & Ha); [|done].
    destruct (Z.ltb_spec bits u); [done|]. destruct (existsb _ _) eqn:He; [done|].
    intros _ _ _. split; [done|]. split; [done|]. split; [done|]. exists sorted, bits.
    split; [done|]. split; [done|]. apply Forall_forall. intros p Hp.
    destruct (ascending_elem _ _ _ _ Ha Hp) as (? & ? & _). split; [done|]. split; [done|].
    split; [|done]. apply not_true_iff_false in He. rewrite existsb_exists in He.
    destruct (Z.le_gt_cases (pones p) u); [done|]. exfalso. apply He. exists p.
    split; [by apply list_elem_of_In|]. fold (pones p). zcase; [done | lia].
  - intros Hinv. exfalso. unfold sortedDisjointParents in Hs. rewrite pair_size in Hs.
    repeat case_match; congruence.
Qed.

(** Units ascend, and lie in their parents. *)
Lemma emit_ascending u bits n c b rest :
  family_bits bits -> 0 <= u <= bits -> native_range bits c b ->
  0 <= c -> c mod 2 ^ (bits - u) = 0 ->
  c + Z.of_nat n * 2 ^ (bits - u) <= b + 1 -> b < 2 ^ bits ->
  ascending bits (c + Z.of_nat n * 2 ^ (bits - u)) rest ->
  ascending bits c (emit_up n c (blockSize u bits) u bits ++ rest).
Proof.
  intros Hf Hu Hn. assert (bits <= 128) by (destruct Hf; lia).
  rewrite blockSize_eq by lia. pose proof (pow2_pos (bits - u) ltac:(lia)).
  set (size := 2 ^ (bits - u)) in *. revert c Hn. induction n as [|n IH]; intros c Hn Hc Ha He Hb Hr.
  - cbn in *. by rewrite Z.add_0_r in Hr.
  - cbn [emit_up app ascending].
    assert (V : valid_block c u bits)
      by (constructor; auto; fold size; try nia; intros E; apply Hn; [done | nia]).
    rewrite makeCIDR_mk by (done || nia). unfold pbits. rewrite Size_mk, lo_mk, hi_mk by done.
    split; [by constructor|]. split; [done|]. split; [lia|]. fold size.
    replace (c + size - 1 + 1) with (c + size) by lia. apply IH.
    + intros E x Hx. apply Hn; [done | lia].
    + lia.
    + rewrite <- (Z.mul_1_l size) at 1. by rewrite Z.mod_add by lia.
    + nia.
    + done.
    + eapply ascending_weaken; [|exact Hr]. lia.
Qed.

Lemma all_units_ascending u bits a ps :
  Forall (unit_ok u bits) ps -> Forall native_net ps -> ascending bits a ps ->
  ascending bits a (all_units u ps).
Proof.
  intros Hu Hn. revert a. induction Hu as [|p ps Hp Hps IH]; intros a Ha; [done|].
  apply Forall_cons in Hn as [Hnp Hn]. destruct Ha as (Hw & Hb & Hlo & Ha).
  unfold all_units. cbn [map concat]. fold (all_units u ps).
  rewrite (units_of_emit u bits) by done. pose proof (unit_span u bits p Hp) as (Hspan & ? & ?).
  pose proof (unitCount_eq u bits p Hp).
  destruct (wf_net_facts p Hw) as (Hf & ? & ? & ? & ? & ? & ? & Hal & _). rewrite Hb in *.
  destruct Hp as (_ & _ & ?).
  eapply ascending_weaken; [exact Hlo|]. apply (emit_ascending u bits _ _ (hi p)); try done; try lia.
  - unfold native_net in Hnp. by rewrite Hb in Hnp.
  - eapply aligned_weaken; [|exact Hal]. lia.
  - eapply ascending_weaken; [|apply IH; [done | exact Ha]]. lia.
Qed.

Lemma ascending_sublist bits a l k : ascending bits a l -> sublist k l -> ascending bits a k.
Proof.
  intros Ha Hs. revert a Ha. induction Hs as [|n k l Hs IH|n k l Hs IH]; intros a Ha; [done | |].
  - destruct Ha as (? & ? & ? & ?). cbn. auto.
  - destruct Ha as (Hn & _ & ? & Ha). destruct (wf_net_facts n Hn) as (_ & _ & _ & _ & ? & _).
    eapply ascending_weaken; [|by apply IH]. lia.
Qed.

Lemma edge_units_sublist l t units :
  0 <= l -> 0 <= t -> l + t <= Z.of_nat (length units) -> sublist (edge_units l t units) units.
Proof.
  intros Hl Ht Hlt. unfold edge_units.
  transitivity (take (Z.to_nat l) units ++ drop (Z.to_nat l) units); [|by rewrite take_drop].
  apply sublist_app; [done|].
  replace (drop (length units - Z.to_nat t) units)
    with (drop (length units - Z.to_nat t - Z.to_nat l) (drop (Z.to_nat l) units))
    by (rewrite drop_drop; f_equal; lia).
  apply sublist_drop.
Qed.

(** ** Exact blocks *)

Lemma cidrContains_iff p c :
  wf_net p -> wf_net c ->
  cidrContains p c = true <-> pbits p = pbits c /\ lo p <= lo c /\ hi c <= hi p.
Proof.
  intros Hp Hc. unfold cidrContains. rewrite sameFamily_eq by done.
  destruct (Z.eqb_spec (pbits p) (pbits c)); cbn [negb].
  - rewrite andb_true_iff, !Z.leb_le. tauto.
  - split; [done | tauto].
Qed.

Lemma existsb_elem {A} (f : A -> bool) l : existsb f l = true <-> exists x, x ∈ l /\ f x = true.
Proof. rewrite existsb_exists. by setoid_rewrite list_elem_of_In. Qed.

Lemma IsBlockAvailable_iff parents existing want :
  wf_net want -> Forall wf_net parents -> Forall wf_net existing ->
  IsBlockAvailable parents existing want = true
  <-> (exists p, p ∈ parents /\ forall x, covers want (pbits want) x = true -> covers p (pbits want) x = true)
      /\ forall x, covers want (pbits want) x = true -> blocked existing (pbits want) x = false.
Proof.
  intros Hw Hps Hes. rewrite Forall_forall in Hps, Hes. unfold IsBlockAvailable.
  destruct (wf_net_facts want Hw) as (_ & _ & _ & _ & Hlh & _).
  assert (Hcont : existsb (fun p => cidrContains p want) parents = true
    <-> exists p, p ∈ parents /\ forall x, covers want (pbits want) x = true -> covers p (pbits want) x = true).
  { rewrite existsb_elem. split; intros (p & Hp & H); exists p; (split; [done|]).
    - apply cidrContains_iff in H as (? & ? & ?); [|auto..]. intros x. rewrite !covers_spec. lia.
    - apply cidrContains_iff; [auto..|]. setoid_rewrite covers_spec in H.
      destruct (H (lo want)) as [? ?]; [lia|]. destruct (H (hi want)); lia. }
  assert (Hover : existsb (fun e => CIDRsOverlap want e) existing = false
    <-> forall x, covers want (pbits want) x = true -> blocked existing (pbits want) x = false).
  { rewrite <- not_true_iff_false, existsb_elem. split.
    - intros H x Hx. apply blocked_false. intros e He. apply not_true_iff_false. intros Hc.
      apply H. exists e. split; [done|]. apply CIDRsOverlap_iff; eauto.
    - intros H (e & He & Hc). apply CIDRsOverlap_iff in Hc as (x & Hx & Hex); [|auto..].
      specialize (H x Hx). rewrite blocked_false in H. by rewrite H in Hex. }
  rewrite <- Hcont, <- Hover. destruct (existsb _ parents); cbn [negb].
  - rewrite negb_true_iff. tauto.
  - split; [done | by intros [? _]].
Qed.

(** ** Properties *)

(** [C34] A reservation withholds the first [leading] and the last [trailing] units
    of the pool in address order, whatever order its ranges arrive in, as
    ascending disjoint blocks; it is refused as too large exactly when the two
    runs together exceed the units there are. *)
Theorem ReservedBlocks_edges u bits parents sorted leading trailing :
  parents <> [] -> Permutation sorted parents -> ascending bits 0 sorted ->
  Forall native_net sorted -> Forall (unit_ok u bits) sorted ->
  0 <= leading < 2 ^ 63 -> 0 <= trailing < 2 ^ 63 -> leading + trailing <> 0 ->
  let units := all_units u sorted in
  ascending bits 0 units
  /\ (leading + trailing <= Z.of_nat (length units) ->
      ReservedBlocks parents leading trailing u
      = Ok (take (Z.to_nat leading) units ++ drop (length units - Z.to_nat trailing) units)
      /\ ascending bits 0 (edge_units leading trailing units))
  /\ (Z.of_nat (length units) < leading + trailing ->
      ReservedBlocks parents leading trailing u = Err ErrReservationTooLarge).
Proof.
  intros Hne HP Ha Hn Hu Hl Ht Hnz units.
  pose proof (all_units_ascending u bits 0 sorted Hu Hn Ha) as Hasc. split; [done|].
  rewrite (ReservedBlocks_eq u bits parents sorted) by done. fold units. split; intros H; zcase; try lia.
  - split; [done|]. eapply ascending_sublist; [exact Hasc | apply edge_units_sublist; fold units; lia].
  - done.
Qed.

Lemma ReservedBlocks_edges_witness :
  let units := all_units 26 ex_parents in
  ascending 32 0 units
  /\ (1 + 2 <= Z.of_nat (length units) ->
      ReservedBlocks ex_parents 1 2 26
      = Ok (take (Z.to_nat 1) units ++ drop (length units - Z.to_nat 2) units)
      /\ ascending 32 0 (edge_units 1 2 units))
  /\ (Z.of_nat (length units) < 1 + 2 -> ReservedBlocks ex_parents 1 2 26 = Err ErrReservationTooLarge).
Proof.
  assert (wf_net ex_parent) by (apply wf_netb_spec; vm_compute; reflexivity).
  apply ReservedBlocks_edges; try lia; try discriminate.
  - reflexivity.
  - cbn [ascending ex_parents]. split; [done|]. vm_compute. repeat split; discriminate.
  - constructor; [apply native_netb_spec; vm_compute; reflexivity | constructor].
  - constructor; [|constructor]. split; [done|]. vm_compute. repeat split; discriminate.
Defined.

(** The exact-address test answers what the address arithmetic says: the
    block lies whole inside one parent and no allocation covers any of it. *)
Theorem IsBlockAvailable_exact parents existing want :
  wf_net want -> Forall wf_net parents -> Forall wf_net existing ->
  IsBlockAvailable parents existing want = true
  <-> (exists p, p ∈ parents /\ pbits p = pbits want /\ lo p <= lo want /\ hi want <= hi p)
      /\ forall x, lo want <= x <= hi want -> blocked existing (pbits want) x = false.
Proof.
  intros Hw Hps Hes. rewrite IsBlockAvailable_iff by done. setoid_rewrite covers_spec.
  destruct (wf_net_facts want Hw) as (_ & _ & _ & _ & ? & _).
  split; intros [(p & Hp & H1) H2]; split.
  - exists p. split; [done|]. destruct (H1 (lo want)) as [? ?]; [lia|]. destruct (H1 (hi want)); lia.
  - intros x Hx. by apply H2.
  - exists p. split; [done|]. intros x [_ ?]. split; [tauto | lia].
  - intros x [_ Hx]. by apply H2.
Qed.

Lemma IsBlockAvailable_exact_witness :
  IsBlockAvailable ex_parents ex_existing (mk_net (10 * 2 ^ 24 + 64) 26 32) = true
  <-> (exists p, p ∈ ex_parents /\ pbits p = pbits (mk_net (10 * 2 ^ 24 + 64) 26 32)
        /\ lo p <= lo (mk_net (10 * 2 ^ 24 + 64) 26 32) /\ hi (mk_net (10 * 2 ^ 24 + 64) 26 32) <= hi p)
      /\ forall x, lo (mk_net (10 * 2 ^ 24 + 64) 26 32) <= x <= hi (mk_net (10 * 2 ^ 24 + 64) 26 32) ->
           blocked ex_existing (pbits (mk_net (10 * 2 ^ 24 + 64) 26 32)) x = false.
Proof.
  apply IsBlockAvailable_exact.
  - apply wf_netb_spec. vm_compute. reflexivity.
  - apply (forallb_Forall wf_netb); [apply wf_netb_spec | vm_compute; reflexivity].
  - apply (forallb_Forall wf_netb); [apply wf_netb_spec | vm_compute; reflexivity].
Defined.
