(* ===== verification/Allocate.v ===== *)
(** * Allocate: [internal/allocation/allocate.go] and [CIDRPool]

    Choosing a block and measuring a pool, both from the free regions of its
    parent ranges.  A [parentView] is one parent with the regions left in it;
    [selectBlock] chooses among the views, [takeFrom] removes the choice from
    one, [measure] adds them up. *)

From S2P Require Import Prelude Float Net Cidr Reservation.
Open Scope string_scope.
Open Scope list_scope.
Open Scope Z_scope.

(** ** Data *)

Record parentView := mkView {
  pv_parent : IPNet;
  pv_bits : Z;
  pv_regions : list ipRange;
  pv_free : Z
}.

Record PoolMeasurement := mkMeasurement {
  UtilizationPercent : spec_float;
  Total : Z;
  Consumed : Z;
  Free : Z
}.

Record AllocationResult := mkResult {
  Block : option IPNet;
  res_UtilizationPercent : spec_float
}.

Definition zeroMeasurement : PoolMeasurement := mkMeasurement f_zero 0 0 0.

(** A candidate block: the block, the size of its region, the parent and the
    region it comes from, and the free addresses of that parent. *)
Record candidate := mkCandidate {
  c_cidr : IPNet;
  c_regionSize : Z;
  c_parentIdx : nat;
  c_regionIdx : nat;
  c_parentFree : Z
}.

(** ** Operations *)

Definition rangeSize (r : ipRange) : Z := r_end r - r_start r + 1.

Definition strategyOrDefault (s : Strategy) : Strategy :=
  if String.eqb s "" then FirstFit else s.

Definition blockedSet (parents existing : list IPNet) (r : Reservation)
    : result AllocErr (list IPNet) :=
  if IsZero r then Ok existing
  else reserved ← BlocksIn r parents; Ok (existing ++ reserved).

(** [parentView.takeFrom] *)
Definition takeFrom (v : parentView) (i : nat) (block : IPNet) : parentView :=
  match pv_regions v !! i with
  | None => v
  | Some region =>
    let '(bStart, bEnd) := cidrBounds block in
    let replacement :=
      (if r_start region <? bStart then [mkRange (r_start region) (bStart - 1)] else [])
      ++ (if bEnd <? r_end region then [mkRange (bEnd + 1) (r_end region)] else []) in
    mkView (pv_parent v) (pv_bits v)
      (take i (pv_regions v) ++ replacement ++ drop (S i) (pv_regions v))
      (pv_free v - cidrSize block)
  end.

Definition viewParent (parent : IPNet) (blocked : list IPNet) : option (list ipRange * Z) :=
  let '(_, bits) := Mask_Size (ipnet_Mask parent) in
  if bits =? 0 then None
  else Some (freeRegions parent (filterWithin parent blocked), bits).

Fixpoint viewPool (parents blocked : list IPNet) : list parentView :=
  match parents with
  | [] => []
  | parent :: rest =>
    match viewParent parent blocked with
    | None => viewPool rest blocked
    | Some (regions, bits) =>
      let free := foldl (fun t r => t + rangeSize r) 0 regions in
      mkView parent bits regions free :: viewPool rest blocked
    end
  end.

(** The aligned block at the start of a region, if it fits. *)
Definition fit_region (region : ipRange) (prefixLen bits : Z) : option IPNet :=
  let size := blockSize prefixLen bits in
  let start := alignUp (r_start region) prefixLen bits in
  let end_ := start + size - 1 in
  if r_end region <? end_ then None else Some (makeCIDR start prefixLen bits).

Fixpoint firstFit_from (i : nat) (regions : list ipRange) (prefixLen bits : Z)
    : option (IPNet * nat) :=
  match regions with
  | [] => None
  | region :: rest =>
    match fit_region region prefixLen bits with
    | None => firstFit_from (S i) rest prefixLen bits
    | Some c => Some (c, i)
    end
  end.

Definition firstFitIn (parent : IPNet) (regions : list ipRange) (prefixLen : Z)
    : option (IPNet * nat) :=
  let '(ones, bits) := Mask_Size (ipnet_Mask parent) in
  if (prefixLen <? ones) || (bits <? prefixLen) then None
  else firstFit_from 0 regions prefixLen bits.

(** The candidates of one view; under first fit the loop returns at the first. *)
Fixpoint region_candidates (first : bool) (pIdx rIdx : nat) (free : Z) (regions : list ipRange)
    (prefixLen bits : Z) : list candidate :=
  match regions with
  | [] => []
  | region :: rest =>
    match fit_region region prefixLen bits with
    | None => region_candidates first pIdx (S rIdx) free rest prefixLen bits
    | Some c =>
      let cand := mkCandidate c (rangeSize region) pIdx rIdx free in
      if first then [cand]
      else cand :: region_candidates first pIdx (S rIdx) free rest prefixLen bits
    end
  end.

Fixpoint pool_candidates (first : bool) (pIdx : nat) (views : list parentView) (prefixLen : Z)
    : list candidate :=
  match views with
  | [] => []
  | v :: rest =>
    let '(ones, bits) := Mask_Size (ipnet_Mask (pv_parent v)) in
    if (prefixLen <? ones) || (bits <? prefixLen) then pool_candidates first (S pIdx) rest prefixLen
    else
      match region_candidates first pIdx 0 (pv_free v) (pv_regions v) prefixLen bits with
      | [] => pool_candidates first (S pIdx) rest prefixLen
      | cs => if first then cs else cs ++ pool_candidates first (S pIdx) rest prefixLen
      end
  end.

(** The scan for the best candidate: [better c best] replaces it. *)
Definition pick_best (better : candidate -> candidate -> bool) (first : candidate)
    (rest : list candidate) : candidate :=
  foldl (fun best c => if better c best then c else best) first rest.

Definition selectBlock (views : list parentView) (prefixLen : Z) (s : Strategy)
    : option (IPNet * nat * nat) :=
  let first := String.eqb (strategyOrDefault s) FirstFit in
  match pool_candidates first 0 views prefixLen with
  | [] => None
  | c0 :: rest =>
    let c :=
      if String.eqb s BestFit
      then pick_best (fun c best => c_regionSize c <? c_regionSize best) c0 rest
      else if String.eqb s LeastUtilized
      then pick_best (fun c best => c_parentFree best <? c_parentFree c) c0 rest
      else c0 in
    Some (c_cidr c, c_parentIdx c, c_regionIdx c)
  end.

(** [clampPercent]: the ratio as a percentage, to four decimal places. *)
Definition clampPercent (num den : Z) : spec_float :=
  let f := f_of_ratio num den in
  if f_lt f f_zero then f_zero
  else if f_lt (f_of_Z 100) f then f_of_Z 100
  else f_div (f_round (f_mul f (f_of_Z 10000))) (f_of_Z 10000).

Definition measure (views : list parentView) : PoolMeasurement :=
  let total := foldl (fun t v => t + addressCount (pv_parent v)) 0 views in
  let free := foldl (fun t v => t + pv_free v) 0 views in
  let consumed := if total - free <? 0 then 0 else total - free in
  if total =? 0 then mkMeasurement f_zero total consumed free
  else mkMeasurement (clampPercent (consumed * 100) total) total consumed free.

Definition Measure (parents existing : list IPNet) (r : Reservation)
    : result AllocErr PoolMeasurement :=
  blocked ← blockedSet parents existing r; Ok (measure (viewPool parents blocked)).

(** [Allocate]: on exhaustion the result is populated beside the error. *)
Definition Allocate (parents existing : list IPNet) (prefixLen : Z) (s : Strategy)
    (r : Reservation) : AllocationResult * option AllocErr :=
  match parents with
  | [] => (mkResult None f_zero, Some ErrNoParent)
  | _ =>
    match blockedSet parents existing r with
    | Err e => (mkResult None f_zero, Some e)
    | Ok blocked =>
      let views := viewPool parents blocked in
      match selectBlock views prefixLen s with
      | Some (block, pIdx, rIdx) =>
        let views := alter (fun v => takeFrom v rIdx block) pIdx views in
        (mkResult (Some block) (UtilizationPercent (measure views)), None)
      | None => (mkResult None (UtilizationPercent (measure views)), Some ErrPoolExhausted)
      end
    end
  end.

(** The dedicated first-fit loop of [FindFirstAvailableBlock]. *)
Fixpoint firstFitParents (parents existing : list IPNet) (prefixLen : Z) : option IPNet :=
  match parents with
  | [] => None
  | parent :: rest =>
    match viewParent parent existing with
    | None => firstFitParents rest existing prefixLen
    | Some (regions, _) =>
      match firstFitIn parent regions prefixLen with
      | Some (cidr, _) => Some cidr
      | None => firstFitParents rest existing prefixLen
      end
    end
  end.

Definition FindFirstAvailableBlock (parents existing : list IPNet) (prefixLen : Z) (s : Strategy)
    : result AllocErr IPNet :=
  match parents with
  | [] => Err ErrNoParent
  | _ =>
    if String.eqb (strategyOrDefault s) FirstFit then
      match firstFitParents parents existing prefixLen with
      | Some cidr => Ok cidr
      | None => Err ErrPoolExhausted
      end
    else
      match selectBlock (viewPool parents existing) prefixLen s with
      | Some (block, _, _) => Ok block
      | None => Err ErrPoolExhausted
      end
  end.

Definition FindFirstAvailableBlockWithReservations (parents existing : list IPNet)
    (prefixLen : Z) (s : Strategy) (r : Reservation) : result AllocErr IPNet :=
  match parents with
  | [] => Err ErrNoParent
  | _ => blocked ← blockedSet parents existing r; FindFirstAvailableBlock parents blocked prefixLen s
  end.

(** ** [CIDRPool] *)

Record CIDRPool := mkCIDRPool {
  cp_Ranges : list IPNet;
  cp_Existing : list IPNet;
  cp_Strategy : Strategy;
  cp_Reservation : Reservation
}.

Definition CIDRPool_Allocate (p : CIDRPool) (prefixLen : Z) : result AllocErr IPNet :=
  FindFirstAvailableBlockWithReservations (cp_Ranges p) (cp_Existing p) prefixLen
    (cp_Strategy p) (cp_Reservation p).

(** [CIDRPool.Release]: the list beside the error, as Go returns both. *)
Definition Release (p : CIDRPool) (cidr : IPNet) : list IPNet * option AllocErr :=
  let found := existsb (fun e => cidrEquals e cidr) (cp_Existing p) in
  let out := List.filter (fun e => negb (cidrEquals e cidr)) (cp_Existing p) in
  if negb found then (cp_Existing p, Some ErrNotInPool) else (out, None).

(** The two sums of [FragmentationPct]: the free addresses and the largest region. *)
Definition fragmentation_totals (p : CIDRPool) : Z * Z :=
  foldl (fun '(totalFree, largestFree) region =>
           let size := r_end region + 1 - r_start region in
           (totalFree + size, if largestFree <? size then size else largestFree))
    (0, 0)
    (concat (map (fun parent => freeRegions parent (filterWithin parent (cp_Existing p)))
               (cp_Ranges p))).

Definition FragmentationPct (p : CIDRPool) : spec_float :=
  let '(totalFree, largestFree) := fragmentation_totals p in
  if totalFree =? 0 then f_zero
  else
    let totalF := f_of_Z totalFree in
    let largestF := f_of_Z largestFree in
    if SFeqb totalF f_zero then f_zero
    else f_sub (f_of_Z 1) (f_div largestF totalF).

(** A /12 holding 256 addresses reads 0.0244 (as the source's comment says), and
    an IPv6 /32 with one /33 gone reads 50. *)
Definition ex_util (ones bits s o2 : Z) : option spec_float :=
  match Measure [mk_net s ones bits] [mk_net s o2 bits] (mkReservation 0 0 0) with
  | Ok m => Some (UtilizationPercent m)
  | Err _ => None
  end.

Example util_small : ex_util 12 32 (10 * 2 ^ 24) 24 = Some (f_div (f_of_Z 244) (f_of_Z 10000)).
Proof. vm_compute. reflexivity. Qed.

Example util_half : ex_util 32 128 (2 ^ 120) 33 = Some (f_of_Z 50).
Proof. vm_compute. reflexivity. Qed.

(** ** Regions and blocks *)

(** A block of prefix length [u] all of whose addresses are free in [p]. *)
Definition free_block (p : IPNet) (cs : list IPNet) (u : Z) (b : IPNet) : Prop :=
  wf_net b /\ pbits b = pbits p /\ pones b = u
  /\ forall x, covers b (pbits p) x = true -> free_in p cs x = true.

Lemma free_block_within p cs u b :
  wf_net p -> free_block p cs u b -> lo p <= lo b /\ hi b <= hi p /\ pones p <= u <= pbits p.
Proof.
  intros Hp (Hb & Hbits & <- & Hfree).
  destruct (wf_net_facts b Hb) as (_ & ? & _ & _ & ? & _ & Hbh & _).
  destruct (wf_net_facts p Hp) as (_ & ? & _ & _ & _ & _ & Hph & _). rewrite Hbits in *.
  assert (Hin : forall x, lo b <= x <= hi b -> lo p <= x <= hi p).
  { intros x Hx. assert (Hc : covers b (pbits p) x = true) by (by apply covers_spec).
    apply Hfree in Hc. unfold free_in in Hc. apply andb_true_iff in Hc as [Hc _].
    by apply covers_spec in Hc as [_ ?]. }
  pose proof (Hin (lo b) ltac:(lia)). pose proof (Hin (hi b) ltac:(lia)).
  split; [lia|]. split; [lia|]. split; [|lia].
  destruct (Z.le_gt_cases (pones p) (pones b)); [done|].
  assert (2 ^ (pbits p - pones p) < 2 ^ (pbits p - pones b)) by (apply Z.pow_lt_mono_r; lia). lia.
Qed.

(** A run of addresses in the regions lies in one of them. *)
Lemma run_in_region a b rs c d :
  regions_ok a b rs -> c <= d -> (forall x, c <= x <= d -> in_regions rs x = true) ->
  exists i r, rs !! i = Some r /\ r_start r <= c /\ d <= r_end r.
Proof.
  intros Hok Hcd. revert a Hok. induction rs as [|r rs IH]; intros a Hok Hin.
  { by specialize (Hin c ltac:(lia)). }
  destruct Hok as (? & ? & ? & Hok).
  assert (Hcase : forall x, c <= x <= d -> r_start r <= x <= r_end r \/ r_end r + 2 <= x /\ in_regions rs x = true).
  { intros x Hx. specialize (Hin x Hx). rewrite in_regions_cons in Hin.
    apply orb_true_iff in Hin as [Hx' | Hx']; [left; by apply in_range_spec | right].
    split; [|done]. by apply (in_regions_bounds _ _ _ _ Hok Hx'). }
  destruct (Hcase c ltac:(lia)) as [? | [? _]].
  - exists 0%nat, r. split; [done|]. split; [lia|].
    destruct (Z.le_gt_cases d (r_end r)); [done|].
    destruct (Hcase (r_end r + 1) ltac:(lia)); lia.
  - destruct (IH _ Hok) as (i & r' & ? & ?).
    + intros x Hx. destruct (Hcase x Hx) as [? | [_ ?]]; [lia | done].
    + by exists (S i), r'.
Qed.

Section Fit.
Context (u bits : Z) (Hf : family_bits bits) (Hu : 0 <= u <= bits).

Lemma fit_region_some r c :
  fit_region r u bits = Some c -> 0 <= r_start r -> r_end r < 2 ^ bits ->
  native_range bits (r_start r) (r_end r) ->
  wf_net c /\ pbits c = bits /\ pones c = u /\ r_start r <= lo c /\ hi c <= r_end r
  /\ forall t, t mod 2 ^ (bits - u) = 0 -> r_start r <= t -> lo c <= t.
Proof using Hf Hu.
  assert (Hb128 : bits <= 128) by (destruct Hf; lia). intros H Hs He Hn. unfold fit_region in H.
  destruct (alignUp_spec (r_start r) u bits) as (Ha & Hb & Hl); [lia|].
  rewrite blockSize_eq in H by lia. pose proof (pow2_pos (bits - u) ltac:(lia)).
  destruct (Z.ltb_spec (r_end r) (alignUp (r_start r) u bits + 2 ^ (bits - u) - 1)); [done|].
  injection H as <-. set (s := alignUp (r_start r) u bits) in *.
  assert (V : valid_block s u bits)
    by (constructor; auto; try lia; intros E; apply Hn; [done | lia]).
  rewrite makeCIDR_mk by (done || lia). unfold pones, pbits. rewrite Size_mk, lo_mk, hi_mk by done.
  split; [by constructor|]. repeat split; try lia. exact Hl.
Qed.

Lemma fit_region_none r t :
  fit_region r u bits = None -> t mod 2 ^ (bits - u) = 0 -> r_start r <= t ->
  t + 2 ^ (bits - u) - 1 <= r_end r -> False.
Proof using Hf Hu.
  assert (Hb128 : bits <= 128) by (destruct Hf; lia). intros H Ha Hs He. unfold fit_region in H.
  destruct (alignUp_spec (r_start r) u bits) as (_ & _ & Hl); [lia|].
  rewrite blockSize_eq in H by lia. specialize (Hl t Ha Hs).
  destruct (Z.ltb_spec (r_end r) (alignUp (r_start r) u bits + 2 ^ (bits - u) - 1)); [lia | done].
Qed.
End Fit.

(** ** Views *)

Definition regions_in (p : IPNet) (cs : list IPNet) : list ipRange := freeRegions p (filterWithin p cs).

Definition view_of (cs : list IPNet) (p : IPNet) : parentView :=
  mkView p (pbits p) (regions_in p cs) (sumZ rangeSize (regions_in p cs)).

Lemma viewParent_eq p cs : wf_net p -> viewParent p cs = Some (regions_in p cs, pbits p).
Proof.
  intros Hp. destruct (wf_net_facts p Hp) as (Hf & _). unfold viewParent. rewrite pair_size.
  destruct (Z.eqb_spec (pbits p) 0); [destruct Hf; lia | done].
Qed.

Lemma viewPool_eq ps cs : Forall wf_net ps -> viewPool ps cs = map (view_of cs) ps.
Proof.
  induction 1 as [|p ps Hp Hps IH]; [done|]. cbn [viewPool map].
  rewrite viewParent_eq, IH by done. f_equal. unfold view_of. by rewrite foldl_sumZ.
Qed.

(** What a pool's parents and the blocks in it must satisfy. *)
Record pool_ok (parents cs : list IPNet) : Prop := {
  po_parents : Forall wf_net parents;
  po_native : Forall native_net parents;
  po_blocks : Forall wf_net cs;
  po_super : forall p, p ∈ parents -> no_supernet p cs
}.

Definition pool_okb (parents cs : list IPNet) : bool :=
  forallb wf_netb parents && forallb native_netb parents && forallb wf_netb cs
  && forallb (fun p => no_supernetb p cs) parents.

Lemma pool_okb_spec parents cs : pool_okb parents cs = true -> pool_ok parents cs.
Proof.
  unfold pool_okb. rewrite !andb_true_iff. intros [[[H1 H2] H3] H4]. constructor.
  - by apply (forallb_Forall wf_netb); [apply wf_netb_spec|].
  - by apply (forallb_Forall native_netb); [apply native_netb_spec|].
  - by apply (forallb_Forall wf_netb); [apply wf_netb_spec|].
  - apply Forall_forall. apply (forallb_Forall (fun p => no_supernetb p cs)); [|done].
    intros p. apply no_supernetb_spec.
Qed.

Section Pool.
Context (parents cs : list IPNet) (HP : pool_ok parents cs).

Lemma pool_regions p :
  p ∈ parents ->
  wf_net p /\ native_net p /\ regions_ok (lo p) (hi p) (regions_in p cs)
  /\ forall x, in_regions (regions_in p cs) x = free_in p cs x.
Proof using HP.
  destruct HP as [Hw Hn Hc Hs]. intros Hp. rewrite Forall_forall in Hw, Hn.
  specialize (Hw p Hp). split; [done|]. split; [by apply Hn|]. split.
  - apply freeRegions_wf. by apply filterWithin_wf.
  - intros x. apply free_regions_within; auto.
Qed.

(** The region [i] of [p] holds [b], which the code fits there. *)
Lemma fit_sound p i r u b :
  p ∈ parents -> pones p <= u <= pbits p -> regions_in p cs !! i = Some r ->
  fit_region r u (pbits p) = Some b ->
  free_block p cs u b /\ r_start r <= lo b /\ hi b <= r_end r
  /\ forall t, t mod 2 ^ (pbits p - u) = 0 -> r_start r <= t -> lo b <= t.
Proof using HP.
  intros Hp Hu Hi Hfit. destruct (pool_regions p Hp) as (Hw & Hn & Hok & Hin).
  destruct (wf_net_facts p Hw) as (Hf & ? & _ & ? & _ & ? & _).
  apply list_elem_of_lookup_2 in Hi as Hr. pose proof (regions_ok_elem _ _ _ _ Hok Hr).
  destruct (fit_region_some u (pbits p) Hf ltac:(lia) r b Hfit) as (Hb & Hbb & Hbo & Hl & Hh & Ht);
    [lia | lia | |].
  { intros E x Hx. apply Hn; [done | lia]. }
  split; [|done]. split; [done|]. split; [done|]. split; [done|]. intros x Hx.
  rewrite <- Hin. apply in_regions_spec. exists r. split; [done|].
  apply covers_spec in Hx as [_ ?]. lia.
Qed.

(** Every free block lies in a region where the code fits one, no later. *)
Lemma fit_complete p u b :
  p ∈ parents -> free_block p cs u b ->
  exists i r c, regions_in p cs !! i = Some r /\ r_start r <= lo b /\ hi b <= r_end r
    /\ fit_region r u (pbits p) = Some c /\ lo c <= lo b.
Proof using HP.
  intros Hp Hfree. destruct (pool_regions p Hp) as (Hw & Hn & Hok & Hin).
  pose proof (free_block_within p cs u b Hw Hfree) as (? & ? & ?).
  destruct Hfree as (Hb & Hbits & Hones & Hx).
  destruct (wf_net_facts b Hb) as (_ & ? & _ & _ & ? & _ & Hhi & Hal & _).
  destruct (wf_net_facts p Hw) as (Hf & _). rewrite Hbits, Hones in *.
  destruct (run_in_region _ _ _ (lo b) (hi b) Hok) as (i & r & Hi & ? & ?); [lia | |].
  { intros x ?. rewrite Hin. apply Hx. by apply covers_spec. }
  destruct (fit_region r u (pbits p)) as [c|] eqn:Hfit.
  - exists i, r, c. split; [done|]. split; [done|]. split; [done|]. split; [done|].
    by destruct (fit_sound p i r u c Hp ltac:(lia) Hi Hfit) as (_ & _ & _ & Ht); apply Ht.
  - exfalso. eapply (fit_region_none u (pbits p)); eauto; lia.
Qed.
End Pool.

(** ** Candidates *)

Lemma region_candidates_elem pIdx k free rs u bits c :
  c ∈ region_candidates false pIdx k free rs u bits
  <-> exists i r b, rs !! i = Some r /\ fit_region r u bits = Some b
                    /\ c = mkCandidate b (rangeSize r) pIdx (k + i) free.
Proof.
  revert k. induction rs as [|r rs IH]; intros k; cbn [region_candidates].
  - split; [by intros H%not_elem_of_nil | by intros (i & ? & ? & ? & _)].
  - assert (Htl : (exists i r' b, rs !! i = Some r' /\ fit_region r' u bits = Some b
                   /\ c = mkCandidate b (rangeSize r') pIdx (S k + i) free)
             <-> exists i r' b, (r :: rs) !! S i = Some r' /\ fit_region r' u bits = Some b
                   /\ c = mkCandidate b (rangeSize r') pIdx (k + S i) free).
    { by setoid_rewrite Nat.add_succ_comm. }
    destruct (fit_region r u bits) as [b|] eqn:Hfit.
    + rewrite elem_of_cons, IH, Htl. split.
      * intros [-> | (i & r' & b' & ?)]; [|by exists (S i), r', b'].
        exists 0%nat, r, b. by rewrite Nat.add_0_r.
      * intros ([|i] & r' & b' & Hi & Hb & ->); [left | right; by exists i, r', b'].
        cbn in Hi. injection Hi as <-. rewrite Hfit in Hb. injection Hb as <-. by rewrite Nat.add_0_r.
    + rewrite IH, Htl. split.
      * intros (i & r' & b' & ?). by exists (S i), r', b'.
      * intros ([|i] & r' & b' & Hi & Hb & ->); [|by exists i, r', b'].
        cbn in Hi. injection Hi as <-. by rewrite Hfit in Hb.
Qed.

Lemma region_candidates_first pIdx k free rs u bits :
  region_candidates true pIdx k free rs u bits
  = take 1 (region_candidates false pIdx k free rs u bits).
Proof.
  revert k. induction rs as [|r rs IH]; intros k; [done|]. cbn [region_candidates].
  destruct (fit_region r u bits); [done | apply IH].
Qed.

Lemma pool_candidates_first k views u :
  pool_candidates true k views u = take 1 (pool_candidates false k views u).
Proof.
  revert k. induction views as [|v views IH]; intros k; [done|]. cbn [pool_candidates].
  destruct (Mask_Size _) as [ones bits]. destruct (_ || _); [apply IH|].
  rewrite region_candidates_first.
  destruct (region_candidates false k 0 _ _ u bits); [apply IH | done].
Qed.

Lemma pool_candidates_elem cs k ps u c :
  c ∈ pool_candidates false k (map (view_of cs) ps) u
  <-> exists j p i r b, ps !! j = Some p /\ pones p <= u <= pbits p
      /\ regions_in p cs !! i = Some r /\ fit_region r u (pbits p) = Some b
      /\ c = mkCandidate b (rangeSize r) (k + j) i (sumZ rangeSize (regions_in p cs)).
Proof.
  revert k. induction ps as [|p ps IH]; intros k; cbn [pool_candidates map].
  { split; [by intros H%not_elem_of_nil | by intros (j & ? & ? & ? & ? & ? & _)]. }
  assert (Htl : (exists j q i r b, ps !! j = Some q /\ pones q <= u <= pbits q
      /\ regions_in q cs !! i = Some r /\ fit_region r u (pbits q) = Some b
      /\ c = mkCandidate b (rangeSize r) (S k + j) i (sumZ rangeSize (regions_in q cs)))
    <-> exists j q i r b, (p :: ps) !! S j = Some q /\ pones q <= u <= pbits q
      /\ regions_in q cs !! i = Some r /\ fit_region r u (pbits q) = Some b
      /\ c = mkCandidate b (rangeSize r) (k + S j) i (sumZ rangeSize (regions_in q cs))).
  { by setoid_rewrite Nat.add_succ_comm. }
  cbn [view_of pv_parent pv_free pv_regions]. rewrite pair_size.
  destruct (_ || _) eqn:Hr.
  - rewrite IH, Htl. split; [intros (j & H); by exists (S j)|].
    intros ([|j] & q & i & r & b & Hj & Hu & H); [|exists j; eauto 10].
    cbn in Hj. injection Hj as <-. apply orb_true_iff in Hr as [?|?]; zbool; lia.
  - zbool.
    transitivity (c ∈ region_candidates false k 0 (sumZ rangeSize (regions_in p cs)) (regions_in p cs) u (pbits p)
                      ++ pool_candidates false (S k) (map (view_of cs) ps) u).
    { by destruct (region_candidates _ _ _ _ _ _ _). }
    rewrite elem_of_app, region_candidates_elem, IH, Htl. split.
    + intros [(i & r & b & ? & ? & ->) | (j & Hj)]; [|by exists (S j)].
      exists 0%nat, p, i, r, b. rewrite Nat.add_0_r, Nat.add_0_l. auto.
    + intros ([|j] & q & i & r & b & Hj & Hu & Hi & Hb & ->); [left | right; exists j; eauto 10].
      cbn in Hj. injection Hj as <-. exists i, r, b. by rewrite Nat.add_0_r, Nat.add_0_l.
Qed.

(** The scan returns a member no other is better than, when "better" compares a
    key. *)
Lemma pick_best_min (key : candidate -> Z) (better : candidate -> candidate -> bool) c0 rest :
  (forall c b, better c b = (key c <? key b)) ->
  pick_best better c0 rest ∈ c0 :: rest
  /\ forall c, c ∈ c0 :: rest -> key (pick_best better c0 rest) <= key c.
Proof.
  intros Hb. unfold pick_best. revert c0. induction rest as [|c rest IH]; intros c0.
  - cbn. split; [left|]. intros c Hc. apply list_elem_of_singleton in Hc as ->. lia.
  - cbn [foldl]. rewrite Hb. destruct (IH (if key c <? key c0 then c else c0)) as [Hin Hle].
    split.
    + apply elem_of_cons in Hin as [-> | Hin]; [|by do 2 right].
      destruct (_ <? _); [right; left | left].
    + intros d Hd. apply elem_of_cons in Hd as [-> | Hd].
      { transitivity (key (if key c <? key c0 then c else c0)); [apply Hle; left|].
        destruct (Z.ltb_spec (key c) (key c0)); lia. }
      apply elem_of_cons in Hd as [-> | Hd]; [|apply Hle; by right].
      transitivity (key (if key c <? key c0 then c else c0)); [apply Hle; left|].
      destruct (Z.ltb_spec (key c) (key c0)); lia.
Qed.

Lemma selectBlock_some views u s b j i :
  selectBlock views u s = Some (b, j, i) ->
  exists c, c ∈ pool_candidates false 0 views u /\ c_cidr c = b /\ c_parentIdx c = j /\ c_regionIdx c = i
    /\ (s = BestFit -> forall d, d ∈ pool_candidates false 0 views u -> c_regionSize c <= c_regionSize d)
    /\ (s = LeastUtilized -> forall d, d ∈ pool_candidates false 0 views u -> c_parentFree d <= c_parentFree c)
    /\ (s <> BestFit -> s <> LeastUtilized -> head (pool_candidates false 0 views u) = Some c).
Proof.
  unfold selectBlock. destruct (String.eqb_spec (strategyOrDefault s) FirstFit) as [Hs | Hs].
  - rewrite pool_candidates_first. destruct (pool_candidates false 0 views u) as [|c0 rest]; [done|].
    cbn [take]. assert (s <> BestFit /\ s <> LeastUtilized) as [H1 H2]
      by (split; intros ->; discriminate).
    rewrite (proj2 (String.eqb_neq _ _) H1), (proj2 (String.eqb_neq _ _) H2).
    intros [= <- <- <-]. exists c0. split; [left|]. auto 10 with congruence.
  - destruct (pool_candidates false 0 views u) as [|c0 rest]; [done|].
    destruct (String.eqb_spec s BestFit) as [-> | H1]; [|destruct (String.eqb_spec s LeastUtilized) as [-> | H2]].
    + intros [= <- <- <-].
      destruct (pick_best_min c_regionSize (fun c best => c_regionSize c <? c_regionSize best) c0 rest)
        as [Hin Hle]; [done|].
      eexists. split; [exact Hin|]. do 4 (split; [done|]). split; [done | congruence].
    + intros [= <- <- <-].
      destruct (pick_best_min (fun c => - c_parentFree c) (fun c best => c_parentFree best <? c_parentFree c) c0 rest)
        as [Hin Hle]; [intros; repeat zcase; done || lia|].
      eexists. split; [exact Hin|]. do 4 (split; [done|]). split; [|congruence].
      intros _ d Hd. specialize (Hle d Hd). lia.
    + intros [= <- <- <-]. exists c0. split; [left|]. auto 10 with congruence.
Qed.

Lemma selectBlock_none views u s : selectBlock views u s = None <-> pool_candidates false 0 views u = [].
Proof.
  unfold selectBlock. destruct (String.eqb (strategyOrDefault s) FirstFit).
  - rewrite pool_candidates_first. by destruct (pool_candidates false 0 views u).
  - by destruct (pool_candidates false 0 views u).
Qed.

(** The order the candidates are collected in. *)
Definition cand_lt (c d : candidate) : Prop :=
  (c_parentIdx c < c_parentIdx d)%nat
  \/ c_parentIdx c = c_parentIdx d /\ (c_regionIdx c < c_regionIdx d)%nat.

Lemma region_candidates_sorted pIdx k free rs u bits :
  StronglySorted cand_lt (region_candidates false pIdx k free rs u bits).
Proof.
  revert k. induction rs as [|r rs IH]; intros k; cbn [region_candidates]; [constructor|].
  destruct (fit_region r u bits) as [c|]; [|apply IH]. constructor; [apply IH|].
  apply Forall_forall. intros d (i & r' & b & _ & _ & ->)%region_candidates_elem.
  right. cbn. lia.
Qed.

Lemma pool_candidates_sorted cs k ps u :
  StronglySorted cand_lt (pool_candidates false k (map (view_of cs) ps) u).
Proof.
  revert k. induction ps as [|p ps IH]; intros k; cbn [pool_candidates map]; [constructor|].
  destruct (Mask_Size _) as [ones bits]. destruct (_ || _); [apply IH|].
  assert (StronglySorted cand_lt
            (region_candidates false k 0 (pv_free (view_of cs p)) (pv_regions (view_of cs p)) u bits
             ++ pool_candidates false (S k) (map (view_of cs) ps) u)) as H.
  { apply StronglySorted_app_2; [|apply region_candidates_sorted | apply IH].
    intros c d (i & r & b & _ & _ & ->)%region_candidates_elem
      (j & q & i' & r' & b' & _ & _ & _ & _ & ->)%pool_candidates_elem.
    left. cbn. lia. }
  by destruct (region_candidates _ _ _ _ _ _ _).
Qed.

Lemma candidates_head cs k ps u c d :
  head (pool_candidates false k (map (view_of cs) ps) u) = Some c ->
  d ∈ pool_candidates false k (map (view_of cs) ps) u -> d = c \/ cand_lt c d.
Proof.
  pose proof (pool_candidates_sorted cs k ps u) as Hs. intros Hh Hd.
  destruct (pool_candidates _ _ _ _) as [|c0 l]; [done|]. injection Hh as ->.
  apply elem_of_cons in Hd as [-> | Hd]; [by left | right].
  inversion Hs as [|? ? _ Hall]; subst. rewrite Forall_forall in Hall. by apply Hall.
Qed.

(** The dedicated first-fit loop answers what [selectBlock] answers. *)
Lemma firstFit_from_head i pIdx k free rs u bits :
  option_map fst (firstFit_from i rs u bits)
  = option_map c_cidr (head (region_candidates false pIdx k free rs u bits)).
Proof.
  revert i k. induction rs as [|r rs IH]; intros i k; [done|]. cbn [firstFit_from region_candidates].
  destruct (fit_region r u bits); [done | apply IH].
Qed.

Lemma firstFitParents_head cs k ps u :
  Forall wf_net ps ->
  firstFitParents ps cs u = option_map c_cidr (head (pool_candidates false k (map (view_of cs) ps) u)).
Proof.
  intros Hps. revert k. induction Hps as [|p ps Hp Hps IH]; intros k; [done|].
  cbn [firstFitParents map pool_candidates]. rewrite viewParent_eq by done. unfold firstFitIn.
  cbn [view_of pv_parent pv_regions pv_free]. destruct (Mask_Size _) as [ones bits].
  destruct (_ || _); [apply IH|].
  pose proof (firstFit_from_head 0 k 0 (sumZ rangeSize (regions_in p cs)) (regions_in p cs) u bits) as H.
  destruct (firstFit_from _ _ _ _) as [[c i]|], (region_candidates _ _ _ _ _ _ _) as [|c0 l];
    cbn in H |- *; try done.
Qed.

Lemma FindFirst_select parents cs u s :
  Forall wf_net parents -> parents <> [] ->
  FindFirstAvailableBlock parents cs u s
  = match selectBlock (map (view_of cs) parents) u s with
    | Some (b, _, _) => Ok b
    | None => Err ErrPoolExhausted
    end.
Proof.
  intros Hw Hne. unfold FindFirstAvailableBlock. destruct parents as [|p0 ps0] eqn:E; [done|].
  rewrite <- E in *. destruct (String.eqb_spec (strategyOrDefault s) FirstFit) as [Hs | Hs].
  - rewrite (firstFitParents_head cs 0) by done. unfold selectBlock.
    rewrite (proj2 (String.eqb_eq _ _) Hs), pool_candidates_first.
    assert (s <> BestFit /\ s <> LeastUtilized) as [H1 H2]
      by (split; intros ->; discriminate).
    rewrite (proj2 (String.eqb_neq _ _) H1), (proj2 (String.eqb_neq _ _) H2).
    by destruct (pool_candidates false 0 _ u).
  - by rewrite viewPool_eq by done.
Qed.

(** ** What the search promises *)

Lemma selectBlock_sound parents cs u s b j i :
  pool_ok parents cs -> selectBlock (map (view_of cs) parents) u s = Some (b, j, i) ->
  exists p r, parents !! j = Some p /\ regions_in p cs !! i = Some r /\ free_block p cs u b
    /\ r_start r <= lo b /\ hi b <= r_end r
    /\ forall t, t mod 2 ^ (pbits p - u) = 0 -> r_start r <= t -> lo b <= t.
Proof.
  intros HP H. apply selectBlock_some in H as (c & Hc & <- & <- & <- & _).
  apply pool_candidates_elem in Hc as (j & p & i & r & b & Hj & Hu & Hi & Hb & ->). cbn.
  apply list_elem_of_lookup_2 in Hj as Hp.
  destruct (fit_sound parents cs HP p i r u b Hp Hu Hi Hb) as (? & ? & ? & ?). by exists p, r.
Qed.

Lemma candidate_exists parents cs u j p b :
  pool_ok parents cs -> parents !! j = Some p -> free_block p cs u b ->
  exists d r, d ∈ pool_candidates false 0 (map (view_of cs) parents) u
    /\ c_parentIdx d = j /\ regions_in p cs !! c_regionIdx d = Some r
    /\ r_start r <= lo b /\ hi b <= r_end r /\ lo (c_cidr d) <= lo b
    /\ c_regionSize d = rangeSize r /\ c_parentFree d = sumZ rangeSize (regions_in p cs).
Proof.
  intros HP Hj Hb. apply list_elem_of_lookup_2 in Hj as Hp.
  destruct (pool_regions parents cs HP p Hp) as (Hw & _).
  pose proof (free_block_within p cs u b Hw Hb) as (_ & _ & Hu).
  destruct (fit_complete parents cs HP p u b Hp Hb) as (i & r & c & Hi & ? & ? & Hfit & ?).
  exists (mkCandidate c (rangeSize r) (0 + j) i (sumZ rangeSize (regions_in p cs))), r.
  split; [|done]. apply pool_candidates_elem. by exists j, p, i, r, c.
Qed.


(** The search reports exhaustion exactly when no parent has a free aligned
    block of the size, so it never refuses a request it could serve. *)
Theorem FindFirstAvailableBlock_exhausted parents existing u s :
  pool_ok parents existing -> parents <> [] ->
  FindFirstAvailableBlock parents existing u s = Err ErrPoolExhausted
  <-> forall p b, p ∈ parents -> ~ free_block p existing u b.
Proof.
  intros HP Hne. rewrite FindFirst_select by (done || apply HP).
  destruct (selectBlock _ u s) as [[[c j] i]|] eqn:Hs; (split; [|done || intros H]).
  - done.
  - exfalso. apply selectBlock_sound in Hs as (p & r & Hj & _ & Hfree & _); [|done].
    eapply H; [by eapply list_elem_of_lookup_2 | done].
  - intros _ p b Hp Hfree. apply selectBlock_none in Hs.
    apply list_elem_of_lookup in Hp as [j Hj].
    destruct (candidate_exists parents existing u j p b HP Hj Hfree) as (d & r & Hd & _).
    rewrite Hs in Hd. by apply not_elem_of_nil in Hd.
Qed.

(** ** The strategies *)

Lemma regions_ordered a b rs i j r1 r2 :
  regions_ok a b rs -> rs !! i = Some r1 -> rs !! j = Some r2 -> (i < j)%nat -> r_end r1 < r_start r2.
Proof.
  revert a i j. induction rs as [|r rs IH]; intros a [|i] [|j] Hok Hi Hj Hij; try done; try lia.
  - destruct Hok as (? & ? & ? & Hok). injection Hi as ->. cbn in Hj.
    apply list_elem_of_lookup_2 in Hj. pose proof (regions_ok_elem _ _ _ _ Hok Hj). lia.
  - destruct Hok as (? & ? & ? & Hok). eapply (IH _ i j Hok); [done | done | lia].
Qed.

(** First fit returns the first block there is: no earlier parent has a free
    block of the size, and none in the same parent starts lower. *)
Theorem FirstFit_lowest parents existing u s b :
  pool_ok parents existing -> strategyOrDefault s = FirstFit ->
  FindFirstAvailableBlock parents existing u s = Ok b ->
  exists j p, parents !! j = Some p /\ free_block p existing u b
    /\ (forall b', free_block p existing u b' -> lo b <= lo b')
    /\ forall j' p' b', (j' < j)%nat -> parents !! j' = Some p' -> ~ free_block p' existing u b'.
Proof.
  intros HP Hff H. assert (Hne : parents <> []) by (intros ->; discriminate).
  rewrite FindFirst_select in H by (done || apply HP).
  destruct (selectBlock _ u s) as [[[c j] i]|] eqn:Hs; [|done]. injection H as ->.
  pose proof (selectBlock_sound parents existing u s b j i HP Hs) as (p & r & Hj & Hi & Hfree & Hr1 & Hr2 & Hleast).
  apply selectBlock_some in Hs as (c & Hc & <- & <- & <- & _ & _ & Hhead).
  assert (Hh := Hhead ltac:(intros ->; discriminate) ltac:(intros ->; discriminate)). clear Hhead.
  exists (c_parentIdx c), p. split; [done|]. split; [done|].
  assert (Hafter : forall j' p' b', parents !! j' = Some p' -> free_block p' existing u b' ->
            exists d r', (d = c \/ cand_lt c d) /\ c_parentIdx d = j'
              /\ regions_in p' existing !! c_regionIdx d = Some r' /\ r_start r' <= lo b').
  { intros j' p' b' Hj' Hb'.
    destruct (candidate_exists parents existing u j' p' b' HP Hj' Hb') as (d & r' & Hd & ? & ? & ? & _).
    exists d, r'. split; [by eapply candidates_head | done]. }
  split.
  - intros b' Hb'. destruct (Hafter _ _ _ Hj Hb') as (d & r' & Hdc & Hdj & Hdi & Hr').
    assert (Haln : lo b' mod 2 ^ (pbits p - u) = 0).
    { destruct Hb' as (Hw & Hbb & <- & _). destruct (wf_net_facts b' Hw) as (_ & _ & _ & _ & _ & _ & _ & Ha & _).
      by rewrite Hbb in Ha. }
    assert (Hcase : d = c \/ (c_regionIdx c < c_regionIdx d)%nat).
    { destruct Hdc as [-> | [? | [_ ?]]]; [by left | lia | by right]. }
    destruct Hcase as [-> | Hlt].
    + rewrite Hi in Hdi. injection Hdi as <-. by apply Hleast.
    + destruct (pool_regions parents existing HP p) as (_ & _ & Hok & _);
        [by eapply list_elem_of_lookup_2|].
      pose proof (regions_ordered _ _ _ _ _ _ _ Hok Hi Hdi Hlt).
      destruct Hfree as (Hw & _). destruct (wf_net_facts _ Hw) as (_ & _ & _ & _ & ? & _). lia.
  - intros j' p' b' Hlt Hj' Hb'. destruct (Hafter _ _ _ Hj' Hb') as (d & r' & Hdc & Hdj & _).
    destruct Hdc as [-> | [? | [? _]]]; lia.
Qed.

(** Best fit takes its block from a free region no larger than any other
    that has room for one. *)
Theorem BestFit_smallest_region parents existing u b :
  pool_ok parents existing -> FindFirstAvailableBlock parents existing u BestFit = Ok b ->
  exists p r, p ∈ parents /\ r ∈ regions_in p existing /\ free_block p existing u b
    /\ r_start r <= lo b /\ hi b <= r_end r
    /\ forall p' b', p' ∈ parents -> free_block p' existing u b' ->
       exists r', r' ∈ regions_in p' existing /\ r_start r' <= lo b' /\ hi b' <= r_end r'
                  /\ rangeSize r <= rangeSize r'.
Proof.
  intros HP H. assert (Hne : parents <> []) by (intros ->; discriminate).
  rewrite FindFirst_select in H by (done || apply HP).
  destruct (selectBlock _ u _) as [[[c j] i]|] eqn:Hs; [|done]. injection H as ->.
  pose proof (selectBlock_sound parents existing u BestFit b j i HP Hs) as (p & r & Hj & Hi & Hfree & ? & ? & _).
  apply selectBlock_some in Hs as (c & Hc & <- & <- & <- & Hmin & _ & _). specialize (Hmin eq_refl).
  assert (c_regionSize c = rangeSize r) as Hsize.
  { apply pool_candidates_elem in Hc as (j' & p' & i' & r' & b' & Hj' & _ & Hi' & _ & ->).
    cbn in *. rewrite Hj in Hj'. injection Hj' as <-. rewrite Hi in Hi'. by injection Hi' as <-. }
  exists p, r. split; [by eapply list_elem_of_lookup_2|]. split; [by eapply list_elem_of_lookup_2|].
  do 3 (split; [done|]). intros p' b' [j' Hj']%list_elem_of_lookup Hb'.
  destruct (candidate_exists parents existing u j' p' b' HP Hj' Hb') as (d & r' & Hd & _ & Hdi & ? & ? & _ & Hds & _).
  exists r'. split; [by eapply list_elem_of_lookup_2|]. do 2 (split; [done|]).
  rewrite <- Hsize, <- Hds. by apply Hmin.
Qed.

(** ** Measuring *)

Lemma addressCount_pos p : wf_net p -> addressCount p = hi p - lo p + 1 /\ 0 < addressCount p.
Proof.
  intros Hp. rewrite addressCount_eq by done.
  destruct (wf_net_facts p Hp) as (_ & _ & _ & _ & ? & _). lia.
Qed.

(** The free count of a view is the number of its free addresses. *)
Lemma free_count parents cs p :
  pool_ok parents cs -> p ∈ parents ->
  sumZ rangeSize (regions_in p cs) = count (free_in p cs) (lo p) (hi p).
Proof.
  intros HP Hp. destruct (pool_regions parents cs HP p Hp) as (Hw & _ & Hok & Hin).
  rewrite <- (count_ext (in_regions (regions_in p cs))) by auto.
  by rewrite <- (regions_count _ _ _ Hok).
Qed.

(** The addresses of [p] some block covers. *)
Definition consumed_in (cs : list IPNet) (p : IPNet) : Z :=
  count (blocked cs (pbits p)) (lo p) (hi p).

Lemma free_consumed cs p :
  wf_net p -> count (free_in p cs) (lo p) (hi p) + consumed_in cs p = hi p - lo p + 1.
Proof.
  intros Hp. destruct (wf_net_facts p Hp) as (_ & _ & _ & _ & ? & _).
  rewrite <- (count_compl (blocked cs (pbits p))) by lia. unfold consumed_in. rewrite Z.add_comm. f_equal.
  apply count_ext. intros x Hx. unfold free_in.
  by rewrite (proj2 (covers_spec p (pbits p) x)) by done.
Qed.

Lemma consumed_nonneg cs p : 0 <= consumed_in cs p.
Proof. apply count_nonneg. Qed.

(** The three counts of [measure]: sizes, covered addresses and the rest, each
    summed over the parents; the clamp on a negative count never applies. *)
Lemma measure_views parents cs :
  pool_ok parents cs ->
  let m := measure (map (view_of cs) parents) in
  Total m = sumZ (fun p => hi p - lo p + 1) parents
  /\ Free m = sumZ (fun p => count (free_in p cs) (lo p) (hi p)) parents
  /\ Consumed m = sumZ (consumed_in cs) parents.
Proof.
  intros HP.
  assert (Hw : forall p, p ∈ parents -> wf_net p)
    by (pose proof (po_parents _ _ HP) as H; by rewrite Forall_forall in H).
  assert (Htot : foldl (fun t v => t + addressCount (pv_parent v)) 0 (map (view_of cs) parents)
                 = sumZ (fun p => hi p - lo p + 1) parents).
  { rewrite (foldl_sumZ (fun v => addressCount (pv_parent v))), Z.add_0_l, sumZ_map.
    apply sumZ_ext. intros p Hp. apply addressCount_eq; auto. }
  assert (Hfree : foldl (fun t v => t + pv_free v) 0 (map (view_of cs) parents)
                  = sumZ (fun p => count (free_in p cs) (lo p) (hi p)) parents).
  { rewrite foldl_sumZ, Z.add_0_l, sumZ_map.
    apply sumZ_ext. intros p Hp. by apply (free_count parents). }
  assert (Hsum : sumZ (fun p => hi p - lo p + 1) parents
                 = sumZ (fun p => count (free_in p cs) (lo p) (hi p)) parents + sumZ (consumed_in cs) parents).
  { rewrite <- sumZ_add. apply sumZ_ext. intros p Hp. symmetry. apply free_consumed; auto. }
  pose proof (sumZ_nonneg (consumed_in cs) parents (fun p _ => consumed_nonneg cs p)).
  unfold measure. rewrite Htot, Hfree. cbv zeta.
  destruct (Z.eqb_spec (sumZ (fun p => hi p - lo p + 1) parents) 0); cbn [Total Free Consumed];
    (split; [done|]; split; [done|]; zcase; lia).
Qed.

(** ** Taking a block *)

Lemma take_region_ok a b rs i r bs be :
  regions_ok a b rs -> rs !! i = Some r -> r_start r <= bs -> bs <= be -> be <= r_end r ->
  let repl := (if r_start r <? bs then [mkRange (r_start r) (bs - 1)] else [])
              ++ (if be <? r_end r then [mkRange (be + 1) (r_end r)] else []) in
  regions_ok a b (take i rs ++ repl ++ drop (S i) rs)
  /\ forall x, in_regions (take i rs ++ repl ++ drop (S i) rs) x
               = in_regions rs x && negb ((bs <=? x) && (x <=? be)).
Proof.
  intros Hok Hi H1 H2 H3 repl. revert a i Hok Hi. induction rs as [|r0 rs IH]; intros a [|i] Hok Hi; try done.
  - injection Hi as ->. destruct Hok as (? & ? & ? & Hok). cbn [take drop app]. rewrite drop_0. split.
    + unfold repl. repeat zcase; cbn [app regions_ok r_start r_end];
        repeat split; try lia; (eapply regions_ok_weaken; [|exact Hok]); lia.
    + intros x. rewrite in_regions_app, in_regions_cons.
      assert (Hrest : r_end r < x \/ in_regions rs x = false).
      { destruct (Z.le_gt_cases x (r_end r)); [right | by left]. apply (in_regions_below _ _ _ x Hok). lia. }
      assert (Hrepl : in_regions repl x = in_range x r && negb ((bs <=? x) && (x <=? be))).
      { unfold repl, in_range. repeat zcase; cbn; unfold in_range; cbn; repeat zcase; cbn; done || lia. }
      rewrite Hrepl. destruct Hrest as [Hx | ->].
      * replace ((bs <=? x) && (x <=? be)) with false by (repeat zcase; done || lia).
        by rewrite !andb_true_r.
      * rewrite !orb_false_r. done.
  - destruct Hok as (? & ? & ? & Hok). cbn in Hi. destruct (IH _ i Hok Hi) as [IH1 IH2].
    cbn [take drop app]. split; [by cbn|]. intros x. rewrite !in_regions_cons, IH2.
    destruct (in_range x r0) eqn:Hx; [|done]. apply in_range_spec in Hx. cbn [orb].
    apply list_elem_of_lookup_2 in Hi. pose proof (regions_ok_elem _ _ _ _ Hok Hi).
    symmetry. apply negb_true_iff. repeat zcase; done || lia.
Qed.

Lemma free_in_app p cs b x :
  pbits b = pbits p ->
  free_in p (cs ++ [b]) x = free_in p cs x && negb ((lo b <=? x) && (x <=? hi b)).
Proof.
  intros Hb. unfold free_in. rewrite blocked_app.
  change (blocked [b] (pbits p) x) with (covers b (pbits p) x || false).
  replace (covers b (pbits p) x) with ((lo b <=? x) && (x <=? hi b))
    by (unfold covers; by rewrite Hb, Z.eqb_refl).
  by rewrite orb_false_r, negb_orb, andb_assoc.
Qed.

Lemma pairwise_disjoint_sep ps i j a b :
  Forall wf_net ps -> pairwise_disjoint ps -> ps !! i = Some a -> ps !! j = Some b -> i <> j ->
  pbits a = pbits b -> hi a < lo b \/ hi b < lo a.
Proof.
  intros Hw Hd Hi Hj Hij Hb. rewrite Forall_forall in Hw. specialize (Hd _ _ _ _ Hi Hj Hij).
  rewrite CIDRsOverlap_eq, Hb, Z.eqb_refl in Hd
    by (apply Hw; by eapply list_elem_of_lookup_2).
  cbn in Hd. destruct (Z.leb_spec (lo a) (hi b)), (Z.leb_spec (lo b) (hi a)); try done; lia.
Qed.

Section Take.
Context (parents cs : list IPNet) (HP : pool_ok parents cs) (HD : pairwise_disjoint parents).
Context (j : nat) (p : IPNet) (Hj : parents !! j = Some p).
Context (u : Z) (b : IPNet) (Hb : free_block p cs u b).

Lemma other_parent k q : parents !! k = Some q -> k <> j -> pbits q = pbits p -> hi b < lo q \/ hi q < lo b.
Proof using HP HD Hj Hb.
  intros Hk Hne Hbits.
  destruct (pairwise_disjoint_sep _ _ _ _ _ (po_parents _ _ HP) HD Hk Hj Hne Hbits);
    pose proof (po_parents _ _ HP) as Hw; rewrite Forall_forall in Hw;
    destruct (free_block_within p cs u b (Hw p ltac:(by eapply list_elem_of_lookup_2)) Hb) as (? & ? & _); lia.
Qed.

Lemma pool_ok_snoc : pool_ok parents (cs ++ [b]).
Proof using HP HD Hj Hb.
  constructor; [apply HP | apply HP | |].
  - apply Forall_app. split; [apply HP|]. repeat constructor. apply Hb.
  - intros q Hq. apply no_supernet_app. split; [by apply (po_super _ _ HP)|].
    intros c Hc Hbits Hlt. apply list_elem_of_singleton in Hc as ->.
    apply list_elem_of_lookup in Hq as [k Hk]. destruct (Nat.eq_dec k j) as [-> | Hne].
    + rewrite Hk in Hj. injection Hj as ->.
      pose proof (po_parents _ _ HP) as Hw. rewrite Forall_forall in Hw.
      pose proof (free_block_within p cs u b (Hw p ltac:(by eapply list_elem_of_lookup_2)) Hb). lia.
    + pose proof (proj1 (proj2 Hb)). pose proof (po_parents _ _ HP) as Hw. rewrite Forall_forall in Hw.
      destruct (wf_net_facts q (Hw q ltac:(by eapply list_elem_of_lookup_2))) as (_ & _ & _ & _ & ? & _).
      destruct (other_parent k q Hk Hne); [congruence || lia ..].
Qed.

Lemma other_view k q : parents !! k = Some q -> k <> j -> view_of (cs ++ [b]) q = view_of cs q.
Proof using HP HD Hj Hb.
  intros Hk Hne. assert (Hq : q ∈ parents) by by eapply list_elem_of_lookup_2.
  pose proof (po_parents _ _ HP) as Hw. rewrite Forall_forall in Hw.
  assert (Hr : regions_in q (cs ++ [b]) = regions_in q cs); [|unfold view_of; by rewrite Hr].
  apply freeRegions_ext; auto; try apply HP; try apply pool_ok_snoc; auto.
  intros x. unfold free_in. rewrite blocked_app.
  destruct (covers q (pbits q) x) eqn:Hx; [|done]. cbn. rewrite orb_false_r.
  replace (covers b (pbits q) x) with false; [by rewrite orb_false_r|].
  symmetry. apply not_true_iff_false. rewrite covers_spec. apply covers_spec in Hx as [_ Hx].
  intros [Hbb ?]. pose proof (proj1 (proj2 Hb)).
  destruct (other_parent k q Hk Hne); [congruence || lia ..].
Qed.

Lemma takeFrom_view i r :
  regions_in p cs !! i = Some r -> r_start r <= lo b -> hi b <= r_end r ->
  takeFrom (view_of cs p) i b = view_of (cs ++ [b]) p.
Proof using HP HD Hj Hb.
  intros Hi H1 H2. assert (Hp : p ∈ parents) by by eapply list_elem_of_lookup_2.
  destruct (pool_regions parents cs HP p Hp) as (Hw & _ & Hok & Hin).
  destruct (pool_regions parents (cs ++ [b]) pool_ok_snoc p Hp) as (_ & _ & Hok' & Hin').
  destruct Hb as (Hbw & Hbb & _ & _).
  destruct (wf_net_facts b Hbw) as (_ & _ & _ & _ & ? & _).
  unfold takeFrom. cbn [view_of pv_regions pv_parent pv_bits pv_free]. rewrite Hi, cidrBounds_eq by done.
  destruct (take_region_ok _ _ _ _ _ (lo b) (hi b) Hok Hi H1 ltac:(lia) H2) as [Hok2 Hin2].
  set (rs' := take i _ ++ _ ++ _) in *.
  assert (rs' = regions_in p (cs ++ [b])) as ->.
  { eapply regions_unique; [exact Hok2 | exact Hok' |]. intros x.
    by rewrite Hin2, Hin', Hin, free_in_app. }
  unfold view_of. f_equal. rewrite cidrSize_eq by done.
  rewrite (free_count parents (cs ++ [b])), (free_count parents cs) by auto using pool_ok_snoc.
  pose proof (free_consumed cs p Hw). pose proof (free_consumed (cs ++ [b]) p Hw).
  pose proof (free_block_within p cs u b Hw Hb) as (? & ? & _).
  rewrite (count_split (free_in p cs) _ (lo b - 1)) by lia.
  rewrite (count_split (free_in p cs) _ (hi b) (hi p)) by lia.
  rewrite (count_split (free_in p (cs ++ [b])) _ (lo b - 1)) by lia.
  rewrite (count_split (free_in p (cs ++ [b])) _ (hi b) (hi p)) by lia.
  replace (lo b - 1 + 1) with (lo b) by lia.
  rewrite (count_ext (free_in p (cs ++ [b])) (free_in p cs) (lo p)),
    (count_ext (free_in p (cs ++ [b])) (free_in p cs) (hi b + 1)).
  2, 3: intros x Hx; rewrite free_in_app by done; repeat zcase; cbn; try lia; by rewrite andb_true_r.
  assert (count (free_in p cs) (lo b) (hi b) = hi b - lo b + 1) as ->.
  { apply count_true; [lia|]. intros x Hx. apply Hb. by apply covers_spec. }
  assert (count (free_in p (cs ++ [b])) (lo b) (hi b) = 0) as ->; [|lia].
  apply count_false. intros x Hx. rewrite free_in_app by done. repeat zcase; cbn; try lia.
Qed.

(** Taking the block from its region leaves the views of the pool that holds
    it. *)
Lemma take_views i r :
  regions_in p cs !! i = Some r -> r_start r <= lo b -> hi b <= r_end r ->
  alter (fun v => takeFrom v i b) j (map (view_of cs) parents) = map (view_of (cs ++ [b])) parents.
Proof using HP HD Hj Hb.
  intros Hi H1 H2. apply list_eq. intros k.
  destruct (Nat.eq_dec k j) as [-> | Hne].
  - rewrite list_lookup_alter, decide_True, !list_lookup_fmap, Hj by done. cbn.
    f_equal. by eapply takeFrom_view.
  - rewrite list_lookup_alter_ne, !list_lookup_fmap by done.
    destruct (parents !! k) as [q|] eqn:Hk; [|done]. cbn. f_equal. symmetry. by eapply other_view.
Qed.
End Take.

(** ** Reservations and the rest of the pool *)

Lemma pool_ok_perm parents cs cs' : Permutation cs cs' -> pool_ok parents cs -> pool_ok parents cs'.
Proof.
  intros Hp [H1 H2 H3 H4]. constructor; [done | done | by rewrite <- Hp |].
  intros p Hpp. eapply no_supernet_perm; [exact Hp | auto].
Qed.

Lemma view_of_perm parents cs cs' p :
  Permutation cs cs' -> pool_ok parents cs -> p ∈ parents -> view_of cs p = view_of cs' p.
Proof.
  intros Hperm HP Hp. pose proof (pool_ok_perm _ _ _ Hperm HP) as HP'.
  assert (Hw : wf_net p) by (pose proof (po_parents _ _ HP) as H; rewrite Forall_forall in H; auto).
  assert (regions_in p cs = regions_in p cs') as Hr; [|unfold view_of; by rewrite Hr].
  apply freeRegions_ext; try done; try apply HP; try apply HP'; auto.
  intros x. unfold free_in. by rewrite (blocked_perm _ _ _ _ Hperm).
Qed.

Lemma views_perm parents cs cs' :
  Permutation cs cs' -> pool_ok parents cs -> map (view_of cs) parents = map (view_of cs') parents.
Proof.
  intros Hperm HP. apply map_ext_in. intros p Hp%list_elem_of_In. by eapply view_of_perm.
Qed.

Lemma all_units_parent u bits sorted n :
  Forall (unit_ok u bits) sorted -> n ∈ all_units u sorted ->
  exists p, p ∈ sorted /\ n ∈ units_of u p.
Proof.
  intros _ Hn. unfold all_units in Hn. apply list_elem_of_In, in_concat in Hn as (l & Hl & Hn).
  apply in_map_iff in Hl as (p & <- & Hp). exists p. by rewrite !list_elem_of_In.
Qed.

(** The blocks a reservation withholds lie whole inside a parent. *)
Lemma unit_within u bits p n :
  unit_ok u bits p -> native_net p -> n ∈ units_of u p ->
  wf_net n /\ pbits n = bits /\ lo p <= lo n /\ hi n <= hi p.
Proof.
  intros Hok Hn Hin. pose proof (unit_span u bits p Hok) as (Hspan & ? & ?).
  destruct Hok as (Hp & <- & Hu).
  destruct (wf_net_facts p Hp) as (Hf & ? & ? & ? & ? & ? & Hhi & Hal & _).
  unfold units_of in Hin. apply list_elem_of_In, in_map_iff in Hin as (i & <- & Hi%in_seq).
  set (size := 2 ^ (pbits p - u)) in *.
  assert (0 <= Z.of_nat i <= 2 ^ (u - pones p) - 1) by lia.
  assert (V : valid_block (lo p + Z.of_nat i * size) u (pbits p)).
  { constructor; auto; fold size; try nia.
    - rewrite Z.mod_add by lia. eapply aligned_weaken; [|exact Hal]. lia.
    - intros E. apply Hn; [done | nia]. }
  rewrite pbits_mk, lo_mk, hi_mk by done. fold size.
  split; [by constructor|]. split; [done|]. nia.
Qed.

Lemma ascending_sep bits a l p q :
  ascending bits a l -> p ∈ l -> q ∈ l -> p = q \/ hi p < lo q \/ hi q < lo p.
Proof.
  revert a. induction l as [|n l IH]; intros a Ha Hp Hq; [by apply not_elem_of_nil in Hp|].
  destruct Ha as (Hn & _ & ? & Ha). destruct (wf_net_facts n Hn) as (_ & _ & _ & _ & ? & _).
  apply elem_of_cons in Hp as [-> | Hp], Hq as [-> | Hq]; [by left | | | by eapply IH].
  - destruct (ascending_elem _ _ _ _ Ha Hq) as (_ & _ & ?). lia.
  - destruct (ascending_elem _ _ _ _ Ha Hp) as (_ & _ & ?). lia.
Qed.

Definition counts_ok (r : Reservation) : Prop := Leading r < 2 ^ 63 /\ Trailing r < 2 ^ 63.

Lemma ReservedBlocks_inside parents r out :
  Forall wf_net parents -> Forall native_net parents -> counts_ok r ->
  BlocksIn r parents = Ok out ->
  forall n, n ∈ out -> wf_net n /\ (exists p, p ∈ parents /\ pbits n = pbits p /\ lo p <= lo n /\ hi n <= hi p)
    /\ forall q, q ∈ parents -> pbits n = pbits q -> lo n < lo q -> hi n < lo q.
Proof.
  intros Hw Hnat [Hl63 Ht63] Hout n Hn. unfold BlocksIn in Hout.
  destruct (Z.eq_dec (Leading r + Trailing r) 0) as [Hz | Hz].
  { unfold ReservedBlocks in Hout. destruct (_ || _) eqn:Hneg; [done|]. zbool.
    replace (Leading r) with 0 in Hout by lia. replace (Trailing r) with 0 in Hout by lia.
    cbn in Hout. injection Hout as <-. by apply not_elem_of_nil in Hn. }
  destruct (ReservedBlocks_inv (UnitPrefixLength r) parents (Leading r) (Trailing r))
    as (Hl & Ht & Hne & sorted & bits & HP & Ha & Hu); try done; try (by rewrite Hout).
  rewrite (ReservedBlocks_eq _ bits parents sorted) in Hout by done.
  destruct (Z.ltb_spec (Z.of_nat (length (all_units (UnitPrefixLength r) sorted))) (Leading r + Trailing r));
    [done|]. injection Hout as <-.
  eapply elem_of_submseteq in Hn; [|by apply sublist_submseteq, edge_units_sublist].
  apply (all_units_parent _ bits) in Hn as (p & Hp & Hn); [|done].
  rewrite Forall_forall in Hu, Hnat.
  assert (Hpp : p ∈ parents) by by rewrite <- HP.
  destruct (unit_within _ bits p n (Hu p Hp) (Hnat p Hpp) Hn) as (Hwn & Hbn & ? & ?).
  split; [done|]. split.
  - exists p. destruct (Hu p Hp) as (_ & ? & _). split; [done|]. split; [congruence | done].
  - intros q Hq _ Hlt. rewrite <- HP in Hq. destruct (ascending_sep _ _ _ p q Ha Hp Hq) as [-> | [? | ?]]; [lia..|].
    destruct (wf_net_facts n Hwn) as (_ & _ & _ & _ & ? & _).
    destruct (ascending_elem _ _ _ _ Ha Hq) as (Hwq & _). destruct (wf_net_facts q Hwq) as (_ & _ & _ & _ & ? & _). lia.
Qed.

Lemma blockedSet_pool_ok parents existing r blocked :
  pool_ok parents existing -> counts_ok r -> blockedSet parents existing r = Ok blocked ->
  pool_ok parents blocked.
Proof.
  intros HP Hr H. unfold blockedSet in H. destruct (IsZero r); [by injection H as <-|].
  destruct (BlocksIn r parents) as [out|] eqn:Hout; [|done]. injection H as <-.
  pose proof (ReservedBlocks_inside parents r out (po_parents _ _ HP) (po_native _ _ HP) Hr Hout) as Hin.
  constructor; [apply HP | apply HP | |].
  - apply Forall_app. split; [apply HP|]. apply Forall_forall. intros n Hn. by apply Hin.
  - intros q Hq. apply no_supernet_app. split; [by apply (po_super _ _ HP)|].
    intros n Hn ? ?. destruct (Hin n Hn) as (_ & _ & Hs). by apply Hs.
Qed.

(** ** Theorems about measuring and releasing *)

(** [LeastUtilized] takes its block from a parent with at least as many free
    addresses as any other that has room for one. *)
Theorem LeastUtilized_most_free parents existing u b :
  pool_ok parents existing -> FindFirstAvailableBlock parents existing u LeastUtilized = Ok b ->
  exists p, p ∈ parents /\ free_block p existing u b
    /\ forall p' b', p' ∈ parents -> free_block p' existing u b' ->
       count (free_in p' existing) (lo p') (hi p') <= count (free_in p existing) (lo p) (hi p).
Proof.
  intros HP H. assert (Hne : parents <> []) by (intros ->; discriminate).
  rewrite FindFirst_select in H by (done || apply HP).
  destruct (selectBlock _ u _) as [[[c j] i]|] eqn:Hs; [|done]. injection H as ->.
  pose proof (selectBlock_sound parents existing u _ b j i HP Hs) as (p & r & Hj & _ & Hfree & _).
  apply selectBlock_some in Hs as (c & Hc & <- & <- & <- & _ & Hmax & _). specialize (Hmax eq_refl).
  apply list_elem_of_lookup_2 in Hj as Hp.
  assert (c_parentFree c = sumZ rangeSize (regions_in p existing)) as Hpf.
  { apply pool_candidates_elem in Hc as (j' & p' & i' & r' & b' & Hj' & _ & _ & _ & ->).
    cbn in *. rewrite Hj in Hj'. by injection Hj' as <-. }
  exists p. split; [done|]. split; [done|]. intros p' b' [j' Hj']%list_elem_of_lookup Hb'.
  destruct (candidate_exists parents existing u j' p' b' HP Hj' Hb') as (d & r' & Hd & _ & _ & _ & _ & _ & _ & Hpf').
  apply list_elem_of_lookup_2 in Hj' as Hp'.
  rewrite <- !(free_count parents existing), <- Hpf, <- Hpf' by done. by apply Hmax.
Qed.

(** [Measure] counts addresses: Total the addresses of the parents, Free those
    no allocation or reserved position covers, Consumed the rest, so an address
    several holders share counts once and one outside the parents not at all,
    and Consumed + Free = Total. *)
Theorem Measure_counts parents existing r blocked :
  blockedSet parents existing r = Ok blocked -> pool_ok parents blocked ->
  exists m, Measure parents existing r = Ok m
    /\ Total m = sumZ (fun p => hi p - lo p + 1) parents
    /\ Free m = sumZ (fun p => count (free_in p blocked) (lo p) (hi p)) parents
    /\ Consumed m = sumZ (consumed_in blocked) parents
    /\ Consumed m + Free m = Total m.
Proof.
  intros Hb HP. unfold Measure. rewrite Hb. cbn [mbind result_bind].
  rewrite viewPool_eq by apply HP. eexists. split; [done|].
  destruct (measure_views parents blocked HP) as (Ht & Hf & Hc). rewrite Ht, Hf, Hc.
  do 3 (split; [done|]). rewrite Z.add_comm, <- sumZ_add. apply sumZ_ext. intros p Hp.
  apply free_consumed. pose proof (po_parents _ _ HP) as Hw. rewrite Forall_forall in Hw. auto.
Qed.

(** The single traversal of [Allocate] answers what the separate functions
    answer: the block the search finds, with the utilization of the pool that
    holds it; on exhaustion the utilization as it stands. *)
Theorem Allocate_equivalent parents existing u s r :
  pool_ok parents existing -> counts_ok r -> pairwise_disjoint parents ->
  Allocate parents existing u s r
  = match FindFirstAvailableBlockWithReservations parents existing u s r with
    | Ok b =>
      match Measure parents (existing ++ [b]) r with
      | Ok m => (mkResult (Some b) (UtilizationPercent m), None)
      | Err e => (mkResult None f_zero, Some e)
      end
    | Err ErrPoolExhausted =>
      match Measure parents existing r with
      | Ok m => (mkResult None (UtilizationPercent m), Some ErrPoolExhausted)
      | Err e => (mkResult None f_zero, Some e)
      end
    | Err e => (mkResult None f_zero, Some e)
    end.
Proof.
  intros HP Hr HD. unfold Allocate, FindFirstAvailableBlockWithReservations, Measure.
  destruct parents as [|p0 ps0] eqn:E; [done|]. rewrite <- E in *.
  assert (Hne : parents <> []) by by rewrite E.
  destruct (blockedSet parents existing r) as [blocked|e] eqn:Hb; cbn [mbind result_bind].
  2: { revert Hb. unfold blockedSet. destruct (IsZero r); [done|].
       unfold BlocksIn, ReservedBlocks, sortedDisjointParents. cbn.
       destruct e; try done; repeat (case_match; simplify_eq/=; try done). }
  pose proof (blockedSet_pool_ok _ _ _ _ HP Hr Hb) as HB.
  rewrite FindFirst_select, viewPool_eq by (done || apply HB).
  destruct (selectBlock _ u s) as [[[b j] i]|] eqn:Hs; [|done].
  destruct (selectBlock_sound _ _ _ _ _ _ _ HB Hs) as (p & reg & Hj & Hi & Hfree & H1 & H2 & _).
  rewrite (take_views parents blocked HB HD j p Hj u b Hfree i reg) by done.
  pose proof (pool_ok_snoc parents blocked HB HD j p Hj u b Hfree) as HB'.
  assert (exists blocked', blockedSet parents (existing ++ [b]) r = Ok blocked'
                           /\ Permutation (blocked ++ [b]) blocked') as (blocked' & -> & Hperm).
  { unfold blockedSet in *. destruct (IsZero r).
    - injection Hb as <-. by eexists.
    - destruct (BlocksIn r parents) as [out|]; [|done]. injection Hb as <-. eexists. split; [done|].
      rewrite <- !app_assoc. f_equiv. apply Permutation_app_comm. }
  cbn [mbind result_bind]. rewrite viewPool_eq by apply HB'.
  by rewrite (views_perm _ _ _ Hperm HB').
Qed.

Lemma cidrEquals_iff a b : wf_net a -> wf_net b -> cidrEquals a b = true <-> a = b.
Proof.
  intros Ha Hb. unfold cidrEquals. rewrite sameFamily_eq, !pair_size by done. split.
  - destruct (Z.eqb_spec (pbits a) (pbits b)) as [E|]; [|done]. cbn [negb].
    destruct (Z.eqb_spec (pones a) (pones b)) as [E'|]; [|done]. cbn [negb orb].
    intros E''%Z.eqb_eq. destruct (wf_net_eta a Ha) as [_ ->], (wf_net_eta b Hb) as [_ ->].
    by rewrite E, E', E''.
  - intros ->. by rewrite !Z.eqb_refl.
Qed.

(** [Release] removes every copy of the block and nothing else, and reports
    [ErrNotInPool], leaving the list alone, when there is none. *)
Theorem Release_spec p cidr :
  Forall wf_net (cp_Existing p) -> wf_net cidr ->
  let '(out, err) := Release p cidr in
  (cidr ∈ cp_Existing p -> err = None /\ forall e, e ∈ out <-> e ∈ cp_Existing p /\ e <> cidr)
  /\ (cidr ∉ cp_Existing p -> err = Some ErrNotInPool /\ out = cp_Existing p).
Proof.
  intros Hw Hc. rewrite Forall_forall in Hw. unfold Release.
  assert (Hfound : existsb (fun e => cidrEquals e cidr) (cp_Existing p) = true <-> cidr ∈ cp_Existing p).
  { rewrite existsb_elem. split; [|intros H; exists cidr; split; [done | by apply cidrEquals_iff]].
    intros (e & He & Heq). by apply cidrEquals_iff in Heq as ->; [|auto..]. }
  destruct (existsb _ _); cbn [negb]; (split; intros H); try done.
  - split; [done|]. intros e. rewrite list_elem_of_In, filter_In, <- list_elem_of_In, negb_true_iff.
    split; intros [He Hne]; (split; [done|]).
    + intros ->. by rewrite (proj2 (cidrEquals_iff cidr cidr Hc Hc)) in Hne.
    + apply not_true_iff_false. by rewrite cidrEquals_iff by auto.
  - exfalso. apply H. by apply Hfound.
  - exfalso. apply Hfound in H. done.
Qed.

(** ** The theorems at a concrete pool *)

Lemma ex_pool_ok : pool_ok ex_parents ex_existing.
Proof. apply pool_okb_spec. vm_compute. reflexivity. Qed.

Definition ex_free : IPNet := mk_net (10 * 2 ^ 24 + 64) 26 32.


Lemma FindFirstAvailableBlock_exhausted_witness :
  FindFirstAvailableBlock ex_parents ex_existing 25 FirstFit = Err ErrPoolExhausted
  /\ (FindFirstAvailableBlock ex_parents ex_existing 25 FirstFit = Err ErrPoolExhausted
      <-> forall p b, p ∈ ex_parents -> ~ free_block p ex_existing 25 b).
Proof.
  split; [vm_compute; reflexivity|].
  apply FindFirstAvailableBlock_exhausted; [apply ex_pool_ok | discriminate].
Defined.

Lemma FirstFit_lowest_witness :
  exists j p, ex_parents !! j = Some p /\ free_block p ex_existing 26 ex_free
    /\ (forall b', free_block p ex_existing 26 b' -> lo ex_free <= lo b')
    /\ forall j' p' b', (j' < j)%nat -> ex_parents !! j' = Some p' -> ~ free_block p' ex_existing 26 b'.
Proof.
  apply (FirstFit_lowest ex_parents ex_existing 26 FirstFit);
    [apply ex_pool_ok | reflexivity | vm_compute; reflexivity].
Defined.

Lemma BestFit_smallest_region_witness :
  exists p r, p ∈ ex_parents /\ r ∈ regions_in p ex_existing /\ free_block p ex_existing 26 ex_free
    /\ r_start r <= lo ex_free /\ hi ex_free <= r_end r
    /\ forall p' b', p' ∈ ex_parents -> free_block p' ex_existing 26 b' ->
       exists r', r' ∈ regions_in p' ex_existing /\ r_start r' <= lo b' /\ hi b' <= r_end r'
                  /\ rangeSize r <= rangeSize r'.
Proof. apply BestFit_smallest_region; [apply ex_pool_ok | vm_compute; reflexivity]. Defined.

Lemma LeastUtilized_most_free_witness :
  exists p, p ∈ ex_parents /\ free_block p ex_existing 26 ex_free
    /\ forall p' b', p' ∈ ex_parents -> free_block p' ex_existing 26 b' ->
       count (free_in p' ex_existing) (lo p') (hi p') <= count (free_in p ex_existing) (lo p) (hi p).
Proof. apply LeastUtilized_most_free; [apply ex_pool_ok | vm_compute; reflexivity]. Defined.

Lemma Measure_counts_witness :
  exists m, Measure ex_parents ex_existing (mkReservation 0 0 0) = Ok m
    /\ Total m = sumZ (fun p => hi p - lo p + 1) ex_parents
    /\ Free m = sumZ (fun p => count (free_in p ex_existing) (lo p) (hi p)) ex_parents
    /\ Consumed m = sumZ (consumed_in ex_existing) ex_parents
    /\ Consumed m + Free m = Total m.
Proof. apply Measure_counts; [reflexivity | apply ex_pool_ok]. Defined.

Lemma ex_disjoint : pairwise_disjoint ex_parents.
Proof.
  intros [|i] [|j] a b Ha Hb Hij; cbn in Ha, Hb; try done;
    rewrite lookup_nil in *; done.
Qed.

Lemma Allocate_equivalent_witness :
  let r := mkReservation 27 1 0 in
  Allocate ex_parents [] 26 FirstFit r
  = match FindFirstAvailableBlockWithReservations ex_parents [] 26 FirstFit r with
    | Ok b =>
      match Measure ex_parents ([] ++ [b]) r with
      | Ok m => (mkResult (Some b) (UtilizationPercent m), None)
      | Err e => (mkResult None f_zero, Some e)
      end
    | Err ErrPoolExhausted =>
      match Measure ex_parents [] r with
      | Ok m => (mkResult None (UtilizationPercent m), Some ErrPoolExhausted)
      | Err e => (mkResult None f_zero, Some e)
      end
    | Err e => (mkResult None f_zero, Some e)
    end.
Proof.
  apply Allocate_equivalent.
  - apply pool_okb_spec. vm_compute. reflexivity.
  - split; reflexivity.
  - apply ex_disjoint.
Defined.

Lemma Release_spec_witness :
  let p := mkCIDRPool ex_parents ex_existing FirstFit (mkReservation 0 0 0) in
  let cidr := mk_net (10 * 2 ^ 24) 26 32 in
  let '(out, err) := Release p cidr in
  (cidr ∈ cp_Existing p -> err = None /\ forall e, e ∈ out <-> e ∈ cp_Existing p /\ e <> cidr)
  /\ (cidr ∉ cp_Existing p -> err = Some ErrNotInPool /\ out = cp_Existing p).
Proof.
  apply Release_spec.
  - apply (forallb_Forall wf_netb); [apply wf_netb_spec | vm_compute; reflexivity].
  - apply wf_netb_spec. vm_compute. reflexivity.
Defined.
