(* ===== verification/Scan.v ===== *)
(** * Scan: [internal/allocation/scan.go]

    The streaming first-fit search.  A [Scan] is a state machine: [Feed] takes
    allocations of the current parent in ascending order, [End] says there are
    no more, and the scan stops as soon as it has an answer.

    The specification is first fit over the whole set: fed every allocation of
    each parent, from a floor below which nothing is free, the scan finds what
    [FindFirstAvailableBlock] finds ([scan_run_result]). *)

From S2P Require Import Prelude Float Net Cidr Reservation Allocate.

(** ** State *)

Record Scan := mkScan {
  sc_parents : list IPNet;
  sc_prefixLen : Z;
  sc_pIdx : Z;
  sc_bits : Z;
  sc_pEnd : Z;
  sc_cursor : Z;
  sc_last : option Z;
  sc_firstFree : option (Z * Z);  (* the address and its width, once found *)
  sc_floor : option Z;
  sc_result : option IPNet;
  sc_done : bool
}.

Definition set_cursor (s : Scan) (c : Z) : Scan :=
  mkScan (sc_parents s) (sc_prefixLen s) (sc_pIdx s) (sc_bits s) (sc_pEnd s) c (sc_last s)
    (sc_firstFree s) (sc_floor s) (sc_result s) (sc_done s).

Definition set_last (s : Scan) (l : Z) : Scan :=
  mkScan (sc_parents s) (sc_prefixLen s) (sc_pIdx s) (sc_bits s) (sc_pEnd s) (sc_cursor s) (Some l)
    (sc_firstFree s) (sc_floor s) (sc_result s) (sc_done s).

Definition set_found (s : Scan) (b : IPNet) : Scan :=
  mkScan (sc_parents s) (sc_prefixLen s) (sc_pIdx s) (sc_bits s) (sc_pEnd s) (sc_cursor s) (sc_last s)
    (sc_firstFree s) (sc_floor s) (Some b) true.

(** The parent being scanned. *)
Definition cur_parent (s : Scan) : IPNet :=
  default (mkIPNet [] []) (sc_parents s !! Z.to_nat (sc_pIdx s)).

(** ** Operations *)

Definition noteFirstFree (s : Scan) (addr : Z) : Scan :=
  match sc_firstFree s with
  | Some _ => s
  | None =>
    mkScan (sc_parents s) (sc_prefixLen s) (sc_pIdx s) (sc_bits s) (sc_pEnd s) (sc_cursor s)
      (sc_last s) (Some (addr, sc_bits s)) (sc_floor s) (sc_result s) (sc_done s)
  end.

(** [tryFit]: the state, and whether a block was placed. *)
Definition tryFit (s : Scan) (lo_ hi_ : Z) : Scan * bool :=
  let '(ones, _) := Mask_Size (ipnet_Mask (cur_parent s)) in
  if (sc_prefixLen s <? ones) || (sc_bits s <? sc_prefixLen s) then (s, false)
  else
    let start := alignUp lo_ (sc_prefixLen s) (sc_bits s) in
    let end_ := start + blockSize (sc_prefixLen s) (sc_bits s) - 1 in
    if hi_ <? end_ then (s, false)
    else (set_found s (makeCIDR start (sc_prefixLen s) (sc_bits s)), true).

(** The loop of [advanceParent] over the parents from index [i] on. *)
Fixpoint advance_over (i : Z) (parents : list IPNet) (s : Scan) : Scan :=
  match parents with
  | [] =>
    mkScan (sc_parents s) (sc_prefixLen s) i (sc_bits s) (sc_pEnd s) (sc_cursor s) (sc_last s)
      (sc_firstFree s) (sc_floor s) (sc_result s) true
  | p :: rest =>
    let '(start, end_) := cidrBounds p in
    let '(_, bits) := Mask_Size (ipnet_Mask p) in
    if bits =? 0 then advance_over (i + 1) rest s
    else
      let enter start :=
        mkScan (sc_parents s) (sc_prefixLen s) i bits end_ start None
          (sc_firstFree s) (sc_floor s) (sc_result s) (sc_done s) in
      match sc_floor s with
      | Some floor =>
        if end_ <? floor then advance_over (i + 1) rest s
        else enter (if start <? floor then floor else start)
      | None => enter start
      end
  end.

Definition advanceParent (s : Scan) : Scan :=
  advance_over (sc_pIdx s + 1) (drop (Z.to_nat (sc_pIdx s + 1)) (sc_parents s)) s.

Definition NewScan (parents : list IPNet) (prefixLen : Z) (floor : option IP) : result AllocErr Scan :=
  match parents with
  | [] => Err ErrNoParent
  | _ => Ok (advanceParent (mkScan parents prefixLen (-1) 0 0 0 None None
                              (option_map ipToInt floor) None false))
  end.

Definition Need (s : Scan) : option (IPNet * IP) :=
  if sc_done s then None else Some (cur_parent s, intToIP (sc_cursor s) (sc_bits s)).

(** The state a failed call leaves is kept beside its error. *)
Definition feedOne (s : Scan) (block : IPNet) : Scan * option AllocErr :=
  let '(_, bits) := Mask_Size (ipnet_Mask block) in
  if bits =? 0 then (s, Some ErrScanOutOfOrder)
  else if negb (bits =? sc_bits s) then (s, None)
  else
    let '(start, end_) := cidrBounds block in
    if match sc_last s with Some l => start <? l | None => false end
    then (s, Some ErrScanOutOfOrder)
    else
      let s := set_last s start in
      if sc_pEnd s <? start then (s, None)
      else if end_ <? sc_cursor s then (s, None)
      else
        let '(s, fit) :=
          if sc_cursor s <? start then
            let s := noteFirstFree s (sc_cursor s) in tryFit s (sc_cursor s) (start - 1)
          else (s, false) in
        if fit : bool then (s, None)
        else
          let next := end_ + 1 in
          ((if sc_cursor s <? next then set_cursor s next else s), None).

Fixpoint feed_loop (s : Scan) (blocks : list IPNet) : Scan * option AllocErr :=
  match blocks with
  | [] => (s, None)
  | b :: rest =>
    if sc_done s then (s, None)
    else match feedOne s b with
         | (s, Some e) => (s, Some e)
         | (s, None) => feed_loop s rest
         end
  end.

Definition Feed (s : Scan) (blocks : list IPNet) : Scan * option AllocErr :=
  if sc_done s then (s, Some ErrScanClosed) else feed_loop s blocks.

Definition End_ (s : Scan) : Scan :=
  if sc_done s then s
  else
    let '(_, parentEnd) := cidrBounds (cur_parent s) in
    let '(s, fit) :=
      if sc_cursor s <=? parentEnd then
        let s := noteFirstFree s (sc_cursor s) in tryFit s (sc_cursor s) parentEnd
      else (s, false) in
    if fit : bool then s else advanceParent s.

Definition Done (s : Scan) : bool := sc_done s.

Definition Result (s : Scan) : result AllocErr IPNet :=
  if negb (sc_done s) then Err ErrScanNotFinished
  else match sc_result s with
       | None => Err ErrPoolExhausted
       | Some b => Ok b
       end.

Definition FirstFree (s : Scan) : option IP :=
  match sc_firstFree s with
  | None => None
  | Some (a, bits) => Some (intToIP a bits)
  end.

(** The loop of the type's documentation: one query, fed whole, per parent. *)
Fixpoint scan_run (fuel : nat) (allocationsIn : IPNet -> IP -> list IPNet) (s : Scan)
    : result AllocErr Scan :=
  match Need s with
  | None => Ok s
  | Some (parent, from) =>
    match fuel with
    | O => Err ErrScanNotFinished
    | S f =>
      match Feed s (allocationsIn parent from) with
      | (_, Some e) => Err e
      | (s, None) => scan_run f allocationsIn (End_ s)
      end
    end
  end.

(** ** One parent *)

(** The scan stands in [p] with cursor [c]. *)
Record at_parent (s : Scan) (p : IPNet) (c : Z) : Prop := {
  at_open : sc_done s = false;
  at_cur : cur_parent s = p;
  at_bits : sc_bits s = pbits p;
  at_end : sc_pEnd s = hi p;
  at_cursor : sc_cursor s = c
}.

(** What a search keeps between parents. *)
Definition same_search (s t : Scan) : Prop :=
  sc_parents s = sc_parents t /\ sc_prefixLen s = sc_prefixLen t /\ sc_pIdx s = sc_pIdx t
  /\ sc_floor s = sc_floor t /\ sc_result s = sc_result t /\ sc_done s = sc_done t.

Definition note (ff : option (Z * Z)) (bits : Z) (rs : list ipRange) : option (Z * Z) :=
  match ff, rs with
  | None, r :: _ => Some (r_start r, bits)
  | _, _ => ff
  end.

Definition fit_in (p : IPNet) (rs : list ipRange) (u : Z) : option IPNet := option_map fst (firstFitIn p rs u).

Lemma firstFit_from_shift i j rs u bits :
  option_map fst (firstFit_from i rs u bits) = option_map fst (firstFit_from j rs u bits).
Proof.
  revert i j. induction rs as [|r rs IH]; intros i j; [done|]. cbn [firstFit_from].
  destruct (fit_region r u bits); [done | apply IH].
Qed.

Lemma fit_in_cons p r rs u :
  fit_in p (r :: rs) u
  = match fit_in p [r] u with Some b => Some b | None => fit_in p rs u end.
Proof.
  unfold fit_in, firstFitIn. destruct (Mask_Size _) as [ones bits]. destruct (_ || _); [done|].
  cbn [firstFit_from]. destruct (fit_region r u bits); [done|]. apply firstFit_from_shift.
Qed.

Lemma fit_in_nil p u : fit_in p [] u = None.
Proof. unfold fit_in, firstFitIn. destruct (Mask_Size _). by destruct (_ || _). Qed.

Lemma tryFit_eq s p c a b :
  at_parent s p c ->
  tryFit s a b = match fit_in p [mkRange a b] (sc_prefixLen s) with
                 | Some n => (set_found s n, true)
                 | None => (s, false)
                 end.
Proof.
  intros [_ Hcur Hbits _ _]. unfold tryFit, fit_in, firstFitIn. rewrite Hcur, pair_size, Hbits.
  destruct (_ || _); [done|]. cbn [firstFit_from]. unfold fit_region. cbn [r_start r_end].
  by destruct (b <? _).
Qed.

Lemma noteFirstFree_at s p c a : at_parent s p c -> at_parent (noteFirstFree s a) p c.
Proof.
  intros [? Hcur ? ? ?]. unfold noteFirstFree. destruct (sc_firstFree s); constructor; try done.
Qed.

Lemma noteFirstFree_same s a : same_search s (noteFirstFree s a).
Proof. unfold noteFirstFree, same_search. by destruct (sc_firstFree s). Qed.

Lemma noteFirstFree_ff s p c a r rs :
  at_parent s p c -> r_start r = a -> sc_firstFree (noteFirstFree s a) = note (sc_firstFree s) (pbits p) (r :: rs).
Proof. intros [_ _ Hb _ _] <-. unfold noteFirstFree, note. destruct (sc_firstFree s) eqn:E; [done|]. cbn. by rewrite Hb. Qed.

Lemma note_some ff bits r rs rs' : note (note ff bits (r :: rs)) bits rs' = note ff bits (r :: rs).
Proof. by destruct ff. Qed.

(** The outcome of feeding a parent's allocations and ending it, against the
    regions [rs]. *)
Definition outcome (s s' : Scan) (p : IPNet) (rs : list ipRange) : Prop :=
  match fit_in p rs (sc_prefixLen s) with
  | Some b => sc_done (End_ s') = true /\ sc_result (End_ s') = Some b
              /\ sc_firstFree (End_ s') = note (sc_firstFree s) (pbits p) rs
  | None => exists t, End_ s' = advanceParent t /\ same_search s t
                      /\ sc_firstFree t = note (sc_firstFree s) (pbits p) rs
  end.

Lemma same_search_trans a b c : same_search a b -> same_search b c -> same_search a c.
Proof. unfold same_search. intuition congruence. Qed.

Lemma outcome_found s p c a b n rs :
  at_parent s p c -> fit_in p [mkRange a b] (sc_prefixLen s) = Some n ->
  outcome s (set_found (noteFirstFree s a) n) p (mkRange a b :: rs).
Proof.
  intros Hat Hfit. unfold outcome. rewrite fit_in_cons, Hfit. unfold End_. cbn [sc_done set_found].
  split; [done|]. split; [done|]. cbn. by apply (noteFirstFree_ff s p c a (mkRange a b)).
Qed.

Lemma End_outcome s p c :
  wf_net p -> at_parent s p c ->
  outcome s s p (if c <=? hi p then [mkRange c (hi p)] else []).
Proof.
  intros Hp Hat. pose proof Hat as [Hd Hcur Hb He Hc]. unfold outcome, End_.
  rewrite Hd, Hcur, cidrBounds_eq, Hc by done. destruct (c <=? hi p).
  - rewrite (tryFit_eq (noteFirstFree s c) p c), (at_cursor _ _ _ (noteFirstFree_at s p c c Hat))
      by by apply noteFirstFree_at.
    replace (sc_prefixLen (noteFirstFree s c)) with (sc_prefixLen s)
      by (apply (proj1 (proj2 (noteFirstFree_same s c)))).
    destruct (fit_in p _ _) as [n|].
    + split; [done|]. split; [done|]. cbn. by apply (noteFirstFree_ff s p c c (mkRange c (hi p))).
    + exists (noteFirstFree s c). split; [done|]. split; [apply noteFirstFree_same|].
      by apply (noteFirstFree_ff s p c c (mkRange c (hi p))).
  - rewrite fit_in_nil. exists s. split; [done|]. split; [done|]. by destruct (sc_firstFree s).
Qed.

(** Moving the outcome to a state that agrees on the search. *)
Lemma outcome_from s s0 s' p rs :
  same_search s s0 -> sc_firstFree s = sc_firstFree s0 -> outcome s0 s' p rs -> outcome s s' p rs.
Proof.
  intros Hs Hff. pose proof Hs as (_ & Hu & _). unfold outcome. rewrite Hu, Hff.
  destruct (fit_in p rs _); [done|]. intros (t & ? & ? & ?). exists t. split; [done|].
  split; [by eapply same_search_trans | done].
Qed.

Lemma outcome_gap s s' p c a b rs :
  at_parent s p c -> fit_in p [mkRange a b] (sc_prefixLen s) = None ->
  outcome (noteFirstFree s a) s' p rs -> outcome s s' p (mkRange a b :: rs).
Proof.
  intros Hat Hfit. unfold outcome. rewrite fit_in_cons, Hfit.
  pose proof (noteFirstFree_same s a) as Hs. pose proof Hs as (_ & Hu & _). rewrite <- Hu.
  rewrite (noteFirstFree_ff s p c a (mkRange a b) rs) by done. rewrite note_some.
  destruct (fit_in p rs _); [done|]. intros (t & ? & ? & ?). exists t. split; [done|].
  split; [by eapply same_search_trans | done].
Qed.

Lemma set_cursor_at s p c c' : at_parent s p c -> at_parent (set_cursor s c') p c'.
Proof. intros [? ? ? ? ?]. by constructor. Qed.

Lemma set_last_at s p c l : at_parent s p c -> at_parent (set_last s l) p c.
Proof. intros [? ? ? ? ?]. by constructor. Qed.

(** The blocks of the parent's family, as ranges. *)
Definition family_ranges (p : IPNet) (blocks : list IPNet) : list ipRange :=
  map net_range (List.filter (fun b => pbits b =? pbits p) blocks).

Lemma feed_outcome p ps blocks :
  wf_net p -> Forall wf_net blocks -> StronglySorted (key_le lo) blocks ->
  forall s c,
  at_parent s p c -> (forall l b, sc_last s = Some l -> b ∈ blocks -> l <= lo b) -> ps <= c ->
  exists s', feed_loop s blocks = (s', None)
             /\ outcome s s' p (sweep ps (hi p) c (family_ranges p blocks)).
Proof.
  intros Hp Hw Hs. induction Hs as [|b blocks Hs IH Hle]; intros s c Hat Hlast Hps.
  { exists s. split; [done|]. by apply End_outcome. }
  apply Forall_cons in Hw as [Hb Hw]. specialize (IH Hw).
  assert (Htail : forall l b', Some (lo b) = Some l -> b' ∈ blocks -> l <= lo b').
  { intros l b' [= <-] Hb'. rewrite Forall_forall in Hle. by apply Hle. }
  pose proof Hat as [Hd Hcur Hbits He Hc].
  destruct (wf_net_facts b Hb) as (Hf & _ & _ & _ & ? & _).
  cbn [feed_loop]. rewrite Hd. unfold feedOne. rewrite pair_size, Hbits.
  destruct (Z.eqb_spec (pbits b) 0) as [|Hnz]; [destruct Hf; lia|].
  unfold family_ranges. cbn [List.filter].
  destruct (Z.eqb_spec (pbits b) (pbits p)) as [Hbb | Hbb]; cbn [negb].
  2: { apply IH; [done | | done]. intros l b' Hl Hb'. apply (Hlast l b' Hl). by right. }
  cbn [map sweep]. rewrite cidrBounds_eq by done.
  assert (match sc_last s with Some l => lo b <? l | None => false end = false) as ->.
  { destruct (sc_last s) as [l|]; [|done]. specialize (Hlast l b eq_refl ltac:(left)). zcase; [lia | done]. }
  assert (Hsame : same_search s (set_last s (lo b))) by done.
  pose proof (set_last_at s p c (lo b) Hat) as Hat'. set (s1 := set_last s (lo b)) in *.
  assert (Hnext : forall t, at_parent t p c -> same_search s1 t -> sc_last t = Some (lo b) ->
     exists s', feed_loop (if c <? hi b + 1 then set_cursor t (hi b + 1) else t) blocks = (s', None)
       /\ outcome t s' p (sweep ps (hi p) (if c <? hi b + 1 then hi b + 1 else c) (family_ranges p blocks))).
  { intros t Ht _ Hl. zcase; (edestruct IH as (s' & Hf1 & Ho); [| | |exists s'; split; [exact Hf1|]]).
    - by eapply set_cursor_at.
    - cbn. rewrite Hl. exact Htail.
    - lia.
    - eapply outcome_from; [| |exact Ho]; done.
    - exact Ht.
    - rewrite Hl. exact Htail.
    - lia.
    - exact Ho. }
  change (sc_pEnd s1) with (sc_pEnd s). change (sc_cursor s1) with (sc_cursor s).
  rewrite He, Hc. cbn [net_range r_start r_end].
  destruct (Z.ltb_spec (hi p) (lo b)) as [Hab | Hab].
  { rewrite orb_true_r. destruct (IH s1 c Hat' Htail Hps) as (s' & ? & ?).
    exists s'. split; [done|]. by eapply outcome_from. }
  rewrite orb_false_r. destruct (Z.ltb_spec (hi b) c) as [Hbel | Hbel].
  { assert (Hsw : (if hi b <? ps then sweep ps (hi p) c (family_ranges p blocks)
       else (if c <? lo b then [mkRange c (lo b - 1)] else [])
            ++ sweep ps (hi p) (if c <? hi b + 1 then hi b + 1 else c) (family_ranges p blocks))
       = sweep ps (hi p) c (family_ranges p blocks)).
    { repeat zcase; done || lia. }
    unfold family_ranges in Hsw. rewrite Hsw. destruct (IH s1 c Hat' Htail Hps) as (s' & ? & ?).
    exists s'. split; [done|]. by eapply outcome_from. }
  destruct (Z.ltb_spec (hi b) ps); [lia|].
  destruct (Z.ltb_spec c (lo b)) as [Hgap | Hgap].
  - change (sc_cursor (noteFirstFree s1 (sc_cursor s))) with (sc_cursor (noteFirstFree s1 (sc_cursor s1))).
    rewrite (tryFit_eq (noteFirstFree s1 c) p c), (at_cursor _ _ _ (noteFirstFree_at s1 p c c Hat'))
      by by apply noteFirstFree_at.
    replace (sc_prefixLen (noteFirstFree s1 c)) with (sc_prefixLen s1)
      by (apply (proj1 (proj2 (noteFirstFree_same s1 c)))).
    destruct (fit_in p [mkRange c (lo b - 1)] (sc_prefixLen s1)) as [n|] eqn:Hfit.
    + pose proof (outcome_found s1 p c c (lo b - 1) n
        (sweep ps (hi p) (if c <? hi b + 1 then hi b + 1 else c) (family_ranges p blocks)) Hat' Hfit) as Ho.
      exists (set_found (noteFirstFree s1 c) n). split; [by destruct blocks|].
      eapply outcome_from; [exact Hsame | done | exact Ho].
    + destruct (Hnext (noteFirstFree s1 c)) as (s' & Hf1 & Ho);
        [by apply noteFirstFree_at | apply noteFirstFree_same | |].
      { unfold noteFirstFree. by destruct (sc_firstFree s1). }
      exists s'. split.
      * rewrite <- Hf1. by replace (sc_cursor (noteFirstFree s1 c)) with c
          by (unfold noteFirstFree; by destruct (sc_firstFree s1)).
      * eapply outcome_from; [exact Hsame | done|]. by eapply outcome_gap.
  - destruct (Hnext s1 Hat') as (s' & Hf1 & Ho); [done | done|].
    exists s'. split; [rewrite (at_cursor _ _ _ Hat'); exact Hf1|].
    eapply outcome_from; [exact Hsame | done | exact Ho].
Qed.

(** ** The whole search *)

Definition set_pIdx (s : Scan) (i : Z) : Scan :=
  mkScan (sc_parents s) (sc_prefixLen s) i (sc_bits s) (sc_pEnd s) (sc_cursor s) (sc_last s)
    (sc_firstFree s) (sc_floor s) (sc_result s) (sc_done s).

Lemma advance_over_pIdx i k ps s : advance_over i ps (set_pIdx s k) = advance_over i ps s.
Proof.
  revert i. induction ps as [|p ps IH]; intros i; [done|]. cbn [advance_over].
  destruct (cidrBounds p), (Mask_Size _). destruct (_ =? 0); [apply IH|].
  cbn [set_pIdx sc_floor]. destruct (sc_floor s); [|done]. destruct (_ <? _); [apply IH | done].
Qed.

(** A parent entirely below the floor, and the address a scan enters one at. *)
Definition below (floor : option Z) (p : IPNet) : bool :=
  match floor with Some f => hi p <? f | None => false end.

Definition start_in (floor : option Z) (p : IPNet) : Z :=
  match floor with Some f => if lo p <? f then f else lo p | None => lo p end.

Definition entered (s : Scan) (i : Z) (p : IPNet) : Scan :=
  mkScan (sc_parents s) (sc_prefixLen s) i (pbits p) (hi p) (start_in (sc_floor s) p) None
    (sc_firstFree s) (sc_floor s) (sc_result s) (sc_done s).

Lemma advance_cons i p rest s :
  wf_net p ->
  advance_over i (p :: rest) s
  = if below (sc_floor s) p then advance_over (i + 1) rest s else entered s i p.
Proof.
  intros Hp. destruct (wf_net_facts p Hp) as (Hf & _). cbn [advance_over].
  rewrite cidrBounds_eq, pair_size by done.
  destruct (Z.eqb_spec (pbits p) 0) as [|_]; [destruct Hf; lia|].
  unfold below, entered, start_in. by destruct (sc_floor s).
Qed.

(** The first free address in parent order, and its width. *)
Fixpoint first_free (parents cs : list IPNet) : option (Z * Z) :=
  match parents with
  | [] => None
  | p :: rest =>
    match regions_in p cs with
    | r :: _ => Some (r_start r, pbits p)
    | [] => first_free rest cs
    end
  end.

(** A query that supplies what [Need] asks for: allocations only, ascending, and
    every one that ends at or above [from] and starts within the parent. *)
Definition query_ok (existing : list IPNet) (q : IPNet -> IP -> list IPNet) : Prop :=
  forall p from,
    StronglySorted (key_le lo) (q p from)
    /\ (forall b, b ∈ q p from -> b ∈ existing)
    /\ forall b, b ∈ existing -> pbits b = pbits p -> lo b <= hi p -> ipToInt from <= hi b -> b ∈ q p from.

(** Nothing is free below the floor. *)
Definition floor_ok (parents existing : list IPNet) (floor : option Z) : Prop :=
  forall f p x, floor = Some f -> p ∈ parents -> free_in p existing x = true -> f <= x.

Section Run.
Context (parents existing : list IPNet) (u : Z) (floor : option Z).
Context (HP : pool_ok parents existing) (HF : floor_ok parents existing floor).
Context (q : IPNet -> IP -> list IPNet) (HQ : query_ok existing q).

(** The regions the scan walks are the parent's free regions. *)
Lemma sweep_regions p c from :
  p ∈ parents -> ipToInt from = c -> lo p <= c ->
  (forall x, free_in p existing x = true -> c <= x) ->
  sweep c (hi p) c (family_ranges p (q p from)) = regions_in p existing.
Proof using HP HQ.
  intros Hp Hfrom Hc Hlow. destruct (pool_regions parents existing HP p Hp) as (Hw & _ & Hok & Hin).
  destruct (HQ p from) as (Hsort & Hsub & Hall). rewrite Hfrom in Hall.
  pose proof (po_blocks _ _ HP) as Hes. rewrite Forall_forall in Hes.
  assert (Hel : forall r, r ∈ family_ranges p (q p from)
            <-> exists b, b ∈ q p from /\ pbits b = pbits p /\ r = net_range b).
  { intros r. unfold family_ranges. rewrite list_elem_of_In, in_map_iff. split.
    - intros (b & <- & [Hb%list_elem_of_In Hbb%Z.eqb_eq]%filter_In). by exists b.
    - intros (b & Hb & Hbb & ->). exists b. split; [done|]. apply filter_In.
      split; [by apply list_elem_of_In | by apply Z.eqb_eq]. }
  assert (Hord : Forall (fun e => r_start e <= r_end e) (family_ranges p (q p from))).
  { apply Forall_forall. intros r (b & Hb & _ & ->)%Hel. cbn.
    by destruct (wf_net_facts b (Hes b (Hsub b Hb))) as (_ & _ & _ & _ & ? & _). }
  assert (Hss : StronglySorted (key_le r_start) (family_ranges p (q p from))).
  { unfold family_ranges. clear Hel Hord Hall Hsub. induction Hsort as [|b l Hs IH Hle]; [constructor|].
    cbn [List.filter]. destruct (pbits b =? pbits p); [|done]. cbn [map]. constructor; [done|].
    apply Forall_forall. intros r Hr%list_elem_of_In.
    apply in_map_iff in Hr as (b' & <- & [Hb' _]%filter_In).
    rewrite Forall_forall in Hle. apply list_elem_of_In in Hb'. by apply Hle. }
  eapply regions_unique; [by apply sweep_ok | exact Hok |]. intros x.
  rewrite Hin. apply eq_true_iff_eq. rewrite sweep_in by (done || lia). split.
  - intros [Hx Hn]. unfold free_in. apply andb_true_iff. split; [apply covers_spec; split; [done | lia]|].
    apply negb_true_iff, blocked_false. intros b Hb. apply not_true_iff_false. intros [Hbb Hbx]%covers_spec.
    assert (in_regions (family_ranges p (q p from)) x = true); [|congruence].
    apply in_regions_spec. exists (net_range b). split; [|done]. apply Hel. exists b.
    split; [apply Hall; done || lia | done].
  - intros Hfree. pose proof (Hlow x Hfree) as Hcx. unfold free_in in Hfree.
    apply andb_true_iff in Hfree as [Hx Hn]. apply covers_spec in Hx as [_ Hx].
    split; [lia|]. apply negb_true_iff in Hn. rewrite blocked_false in Hn.
    apply not_true_iff_false. intros (r & (b & Hb & Hbb & ->)%Hel & Hr)%in_regions_spec.
    assert (covers b (pbits p) x = true) by (by apply covers_spec).
    rewrite (Hn b) in H; [done | by apply Hsub].
Qed.

(** A search that has not decided before the parents [rest], from index [i]. *)
Definition search_at (s : Scan) (i : nat) (rest : list IPNet) (ff : option (Z * Z)) : Prop :=
  sc_parents s = parents /\ sc_prefixLen s = u /\ sc_floor s = floor /\ sc_result s = None
  /\ sc_done s = false /\ sc_pIdx s + 1 = Z.of_nat i /\ drop i parents = rest
  /\ sc_firstFree s = ff.

Lemma search_at_cons s i p rest ff :
  search_at s i (p :: rest) ff -> parents !! i = Some p /\ drop (S i) parents = rest.
Proof using.
  intros (_ & _ & _ & _ & _ & _ & Hdrop & _). split.
  - rewrite <- (Nat.add_0_r i), <- lookup_drop, Hdrop. done.
  - rewrite <- Nat.add_1_r, <- drop_drop, Hdrop. done.
Qed.

Lemma search_at_skip s i p rest ff :
  search_at s i (p :: rest) ff -> search_at (set_pIdx s (Z.of_nat i)) (S i) rest ff.
Proof using.
  intros Hs. pose proof (search_at_cons _ _ _ _ _ Hs) as [_ Hdrop].
  destruct Hs as (? & ? & ? & ? & ? & ? & _ & ?). unfold search_at. cbn. repeat split; try done. lia.
Qed.

Lemma advance_search s i rest ff :
  search_at s i rest ff -> advanceParent s = advance_over (Z.of_nat i) rest s.
Proof using.
  intros (Hps & _ & _ & _ & _ & Hi & Hdrop & _). unfold advanceParent.
  by rewrite Hi, Nat2Z.id, Hps, Hdrop.
Qed.

Lemma below_empty p : p ∈ parents -> below floor p = true -> regions_in p existing = [].
Proof using HP HF.
  intros Hp Hb. destruct (pool_regions parents existing HP p Hp) as (_ & _ & Hok & Hin).
  unfold below in Hb. destruct floor as [f|] eqn:Hf; [|done]. apply Z.ltb_lt in Hb.
  apply (regions_unique (lo p) (hi p) _ 0 0); [done | done |].
  intros x. rewrite Hin. apply not_true_iff_false. intros Hx.
  pose proof (HF f p x eq_refl Hp Hx). unfold free_in in Hx. apply andb_true_iff in Hx as [Hx _].
  apply covers_spec in Hx as [_ ?]. lia.
Qed.

Lemma enter_outcome s i p rest ff :
  search_at s i (p :: rest) ff -> below floor p = false ->
  let e := entered s (Z.of_nat i) p in
  Need e = Some (p, intToIP (sc_cursor e) (sc_bits e))
  /\ exists s', Feed e (q p (intToIP (sc_cursor e) (sc_bits e))) = (s', None)
                /\ outcome e s' p (regions_in p existing).
Proof using HP HF HQ.
  intros Hs Hb. pose proof (search_at_cons _ _ _ _ _ Hs) as [Hlook _].
  destruct Hs as (Hps & Hu & Hfl & Hres & Hd & Hi & Hdrop & Hff).
  apply list_elem_of_lookup_2 in Hlook as Hp.
  destruct (pool_regions parents existing HP p Hp) as (Hw & Hnat & _ & _).
  destruct (wf_net_eta p Hw) as [V _].
  destruct (wf_net_facts p Hw) as (_ & ? & _ & ? & ? & ? & _).
  set (c := start_in floor p). intros e.
  assert (Hc : lo p <= c <= hi p).
  { unfold c, start_in, below in *. destruct floor as [f|]; [|lia]. zbool. zcase; lia. }
  assert (Hat : at_parent e p c).
  { constructor; [done | | done | done |].
    - unfold cur_parent, e. cbn. by rewrite Hps, Nat2Z.id, Hlook.
    - unfold e. cbn. by rewrite Hfl. }
  pose proof Hat as [He1 He2 He3 He4 He5].
  assert (Hfrom : ipToInt (intToIP (sc_cursor e) (sc_bits e)) = c).
  { rewrite He3, He5. destruct (vb_facts _ _ _ V) as (Hf & _). rewrite intToIP_encode by (done || lia).
    apply (ipToInt_encode _ _ _ V); [lia|]. intros E. apply Hnat; [done | lia]. }
  split; [unfold Need; by rewrite He1, He2|].
  destruct (HQ p (intToIP (sc_cursor e) (sc_bits e))) as (Hsort & Hsub & _).
  destruct (feed_outcome p c (q p (intToIP (sc_cursor e) (sc_bits e))) Hw) with (s := e) (c := c)
    as (s' & Hfeed & Ho); [| done | done | done | lia |].
  { pose proof (po_blocks _ _ HP) as Hes. rewrite Forall_forall in Hes.
    apply Forall_forall. auto. }
  exists s'. split; [unfold Feed; by rewrite He1|].
  rewrite (sweep_regions p c _ Hp Hfrom) in Ho; [done | lia |].
  intros x Hx. unfold c, start_in. destruct floor as [f|] eqn:Hfle.
  - pose proof (HF f p x eq_refl Hp Hx). zcase; [done|].
    unfold free_in in Hx. apply andb_true_iff in Hx as [Hx _]. by apply covers_spec in Hx as [_ [? _]].
  - unfold free_in in Hx. apply andb_true_iff in Hx as [Hx _]. by apply covers_spec in Hx as [_ [? _]].
Qed.

Lemma firstFitParents_cons p rest :
  p ∈ parents ->
  firstFitParents (p :: rest) existing u
  = match fit_in p (regions_in p existing) u with
    | Some b => Some b
    | None => firstFitParents rest existing u
    end.
Proof using HP.
  intros Hp. destruct (pool_regions parents existing HP p Hp) as (Hw & _).
  cbn [firstFitParents]. rewrite viewParent_eq by done. unfold fit_in.
  by destruct (firstFitIn p _ u) as [[? ?]|].
Qed.

Lemma note_first_free ff p rest :
  match note ff (pbits p) (regions_in p existing) with
  | Some a => Some a | None => first_free rest existing end
  = match ff with Some a => Some a | None => first_free (p :: rest) existing end.
Proof using. destruct ff; [done|]. cbn. by destruct (regions_in p existing). Qed.

Lemma scan_run_from rest : forall i s ff fuel,
  search_at s i rest ff -> (length rest <= fuel)%nat ->
  exists t, scan_run fuel q (advanceParent s) = Ok t
    /\ sc_done t = true
    /\ sc_result t = firstFitParents rest existing u
    /\ sc_firstFree t = match ff with Some a => Some a | None => first_free rest existing end.
Proof using HP HF HQ.
  induction rest as [|p rest IH]; intros i s ff fuel Hs Hfuel; rewrite (advance_search _ _ _ _ Hs).
  - destruct Hs as (_ & _ & _ & Hres & _ & _ & _ & Hff). cbn [advance_over].
    destruct fuel; (eexists; split; [done|]; cbn; rewrite Hff; by destruct ff).
  - pose proof (search_at_cons _ _ _ _ _ Hs) as [Hlook _].
    apply list_elem_of_lookup_2 in Hlook as Hp.
    destruct (pool_regions parents existing HP p Hp) as (Hw & _ & Hok & _).
    rewrite firstFitParents_cons by done. rewrite advance_cons by done.
    pose proof Hs as (Hps & Hu & Hfl & Hres & Hd & Hi & _ & Hff). rewrite Hfl.
    destruct (below floor p) eqn:Hb.
    + pose proof (search_at_skip _ _ _ _ _ Hs) as Hs'. cbn [first_free].
      rewrite (below_empty p Hp Hb), fit_in_nil.
      destruct (IH (S i) _ ff fuel Hs' ltac:(cbn in Hfuel; lia)) as (t & Ht & ?).
      rewrite (advance_search _ _ _ _ Hs'), advance_over_pIdx, Nat2Z.inj_succ in Ht. by exists t.
    + destruct fuel as [|fuel]; [cbn in Hfuel; lia|].
      destruct (enter_outcome s i p rest ff Hs Hb) as (Hneed & s' & Hfeed & Ho).
      cbn [scan_run]. rewrite Hneed, Hfeed. unfold outcome in Ho.
      change (sc_prefixLen (entered s (Z.of_nat i) p)) with (sc_prefixLen s) in Ho.
      change (sc_firstFree (entered s (Z.of_nat i) p)) with (sc_firstFree s) in Ho.
      rewrite Hu, Hff in Ho. destruct (fit_in p (regions_in p existing) u) as [b|] eqn:Hfit.
      * destruct Ho as (Hdone & Hresult & Hfirst). exists (End_ s'). split.
        { destruct fuel; cbn [scan_run]; unfold Need; by rewrite Hdone. }
        split; [done|]. split; [done|]. rewrite Hfirst. destruct ff; [done|]. cbn.
        destruct (regions_in p existing); [by rewrite fit_in_nil in Hfit | done].
      * destruct Ho as (t & -> & (Ht1 & Ht2 & Ht3 & Ht4 & Ht5 & Ht6) & Htf).
        rewrite <- note_first_free. apply (IH (S i)); [|cbn in Hfuel; lia].
        pose proof (search_at_skip _ _ _ _ _ Hs) as (? & ? & ? & ? & ? & ? & ? & _).
        unfold search_at. rewrite <- Ht1, <- Ht2, <- Ht3, <- Ht4, <- Ht5, <- Ht6. done.
Qed.
End Run.

(** The query an in-memory set of allocations answers with. *)
Definition allocationsIn (existing : list IPNet) (p : IPNet) (from : IP) : list IPNet :=
  sort_by lo (List.filter (fun b => (pbits b =? pbits p) && (lo b <=? hi p) && (ipToInt from <=? hi b))
                existing).

Lemma allocationsIn_ok existing : query_ok existing (allocationsIn existing).
Proof.
  intros p from. unfold allocationsIn. split; [apply sort_by_sorted|]. split.
  - intros b Hb. rewrite sort_by_in in Hb. apply list_elem_of_In, filter_In in Hb as [Hb _].
    by apply list_elem_of_In.
  - intros b Hb H1 H2 H3. rewrite sort_by_in. apply list_elem_of_In, filter_In.
    split; [by apply list_elem_of_In|]. rewrite !andb_true_iff, Z.eqb_eq, !Z.leb_le. auto.
Qed.

(** Run to completion, the streaming scan finds exactly what first fit over
    the whole set finds, exhaustion included, after at most one query per
    parent; starting from a floor below which nothing is free changes nothing.
    It reports the first free address in parent order. *)
Theorem Scan_first_fit parents existing u floor q :
  pool_ok parents existing -> parents <> [] -> floor_ok parents existing (option_map ipToInt floor) ->
  query_ok existing q ->
  exists s t, NewScan parents u floor = Ok s
    /\ scan_run (length parents) q s = Ok t
    /\ Result t = FindFirstAvailableBlock parents existing u FirstFit
    /\ sc_firstFree t = first_free parents existing.
Proof.
  intros HP Hne HF HQ. unfold NewScan, FindFirstAvailableBlock.
  destruct parents as [|p0 ps0] eqn:E; [done|]. rewrite <- E in *.
  set (s0 := mkScan parents u (-1) 0 0 0 None None (option_map ipToInt floor) None false).
  exists (advanceParent s0).
  destruct (scan_run_from parents existing u (option_map ipToInt floor) HP HF q HQ parents 0 s0 None
              (length parents)) as (t & Ht & Hd & Hr & Hff); [by repeat split | done |].
  exists t. split; [done|]. split; [done|]. split; [|done].
  unfold Result. rewrite Hd, Hr. cbn [negb].
  replace (strategyOrDefault FirstFit) with FirstFit by done.
  rewrite String.eqb_refl. done.
Qed.

(** When the parents are in ascending order, as the single CIDR of a stored
    pool is, the reported address is a valid floor for the next search, and
    stays one however many blocks are added. *)
Theorem FirstFree_is_floor parents existing more bits a w :
  pool_ok parents existing -> ascending bits 0 parents ->
  first_free parents existing = Some (a, w) ->
  floor_ok parents (existing ++ more) (Some a).
Proof.
  intros HP Ha Hff f p x [= <-] Hp Hx.
  assert (Hx' : free_in p existing x = true).
  { unfold free_in in *. rewrite blocked_app in Hx. destruct (covers p (pbits p) x); [|done].
    cbn in *. by destruct (blocked existing _ x). }
  clear Hx. assert (HP' : forall q, q ∈ parents -> regions_ok (lo q) (hi q) (regions_in q existing)
               /\ forall y, in_regions (regions_in q existing) y = free_in q existing y).
  { intros q Hq. by destruct (pool_regions parents existing HP q Hq) as (_ & _ & ? & ?). }
  clear HP. revert Ha Hff HP' Hp. generalize 0. induction parents as [|q rest IH]; intros z Ha Hff HP' Hp.
  { by apply not_elem_of_nil in Hp. }
  destruct Ha as (Hq & _ & _ & Ha). cbn [first_free] in Hff.
  destruct (HP' q ltac:(left)) as [Hok Hin].
  assert (Hrest : forall r, r ∈ rest -> regions_ok (lo r) (hi r) (regions_in r existing)
               /\ forall y, in_regions (regions_in r existing) y = free_in r existing y)
    by (intros r Hr; apply HP'; by right).
  destruct (regions_in q existing) as [|r0 rs] eqn:Hr.
  - apply elem_of_cons in Hp as [-> | Hp]; [|by eapply IH].
    by rewrite <- Hin in Hx'.
  - injection Hff as <- <-. destruct Hok as (? & ? & ? & Hok). apply elem_of_cons in Hp as [-> | Hp].
    + rewrite <- Hin, in_regions_cons in Hx'. apply orb_true_iff in Hx' as [Hx' | Hx'].
      * apply in_range_spec in Hx'. lia.
      * pose proof (in_regions_bounds _ _ _ _ Hok Hx'). lia.
    + destruct (ascending_elem _ _ _ _ Ha Hp) as (_ & _ & ?). unfold free_in in Hx'.
      apply andb_true_iff in Hx' as [Hx' _]. apply covers_spec in Hx' as [_ ?]. lia.
Qed.

(** Parents out of order: the address reported is the first in parent order, and
    a lower free one of a parent examined later is passed over. *)
Definition ex_unordered : list IPNet :=
  [mk_net (10 * 2 ^ 24 + 2 ^ 16) 24 32; mk_net (10 * 2 ^ 24) 24 32].

Example first_free_not_lowest :
  let existing := [mk_net (10 * 2 ^ 24 + 2 ^ 16) 25 32] in
  match NewScan ex_unordered 24 None with
  | Ok s => match scan_run 2 (allocationsIn existing) s with
            | Ok t => (Result t, option_map fst (sc_firstFree t))
                      = (Ok (mk_net (10 * 2 ^ 24) 24 32), Some (10 * 2 ^ 24 + 2 ^ 16 + 128))
            | Err _ => False
            end
  | Err _ => False
  end
  /\ blocked existing 32 (10 * 2 ^ 24) = false.
Proof. vm_compute. done. Qed.

(** Feeding a block of the parent's family that starts below the one before
    it is refused with the ordering error, whatever the rest of the page. *)
Theorem Feed_out_of_order s p c b1 b2 rest s1 :
  at_parent s p c -> wf_net b1 -> wf_net b2 -> pbits b1 = pbits p -> pbits b2 = pbits p ->
  lo b2 < lo b1 -> Feed s [b1] = (s1, None) -> sc_done s1 = false ->
  snd (Feed s (b1 :: b2 :: rest)) = Some ErrScanOutOfOrder.
Proof.
  intros [Hd Hcur Hbits He Hc] H1 H2 Hb1 Hb2 Hlt H Hd1. unfold Feed in *. rewrite Hd in *.
  cbn [feed_loop] in *. rewrite Hd in *. destruct (feedOne s b1) as [t [e|]] eqn:Hf; [done|].
  injection H as ->. rewrite Hd1.
  destruct (wf_net_facts b1 H1) as (Hfb & _).
  assert (sc_last s1 = Some (lo b1) /\ sc_bits s1 = pbits p) as [Hl Hbs].
  { revert Hf. unfold feedOne. rewrite pair_size, cidrBounds_eq, Hbits, Hb1, Z.eqb_refl by done.
    destruct (pbits p =? 0); [done|]. cbn [negb]. destruct (match sc_last s with Some l => _ | None => _ end); [done|].
    destruct (_ <? lo b1); [by intros [= <-]|]. destruct (hi b1 <? _); [by intros [= <-]|].
    destruct (sc_cursor _ <? lo b1).
    - unfold tryFit. destruct (Mask_Size _). unfold noteFirstFree.
      destruct (sc_firstFree _); destruct (_ || _); repeat (destruct (_ <? _)); by intros [= <-].
    - destruct (_ <? _); by intros [= <-]. }
  unfold feedOne. rewrite pair_size, cidrBounds_eq, Hbs, Hb2, Z.eqb_refl, Hl by done.
  destruct (Z.eqb_spec (pbits p) 0) as [Hz|_]; [rewrite Hb1, Hz in Hfb; destruct Hfb; lia|].
  cbn [negb]. destruct (Z.ltb_spec (lo b2) (lo b1)); [done | lia].
Qed.

Lemma Scan_first_fit_witness :
  exists s t, NewScan ex_parents 26 None = Ok s
    /\ scan_run (length ex_parents) (allocationsIn ex_existing) s = Ok t
    /\ Result t = FindFirstAvailableBlock ex_parents ex_existing 26 FirstFit
    /\ sc_firstFree t = first_free ex_parents ex_existing.
Proof.
  apply Scan_first_fit; [apply ex_pool_ok | discriminate | intros f p x Hf; discriminate | apply allocationsIn_ok].
Defined.

Lemma FirstFree_is_floor_witness :
  floor_ok ex_parents (ex_existing ++ [ex_free]) (Some (10 * 2 ^ 24 + 64)).
Proof.
  apply (FirstFree_is_floor ex_parents ex_existing [ex_free] 32 (10 * 2 ^ 24 + 64) 32).
  - apply ex_pool_ok.
  - split; [apply wf_netb_spec; vm_compute; reflexivity|]. vm_compute. repeat split; discriminate.
  - vm_compute. reflexivity.
Defined.

Definition ex_scan : Scan :=
  match NewScan ex_parents 28 None with Ok s => s | Err _ => mkScan [] 0 0 0 0 0 None None None None true end.

Lemma Feed_out_of_order_witness :
  snd (Feed ex_scan (mk_net (10 * 2 ^ 24) 26 32 :: mk_net (10 * 2 ^ 24 - 1) 32 32 :: [])) = Some ErrScanOutOfOrder.
Proof.
  eapply (Feed_out_of_order ex_scan ex_parent (10 * 2 ^ 24)).
  - constructor; vm_compute; reflexivity.
  - apply wf_netb_spec. vm_compute. reflexivity.
  - apply wf_netb_spec. vm_compute. reflexivity.
  - vm_compute. reflexivity.
  - vm_compute. reflexivity.
  - vm_compute. reflexivity.
  - vm_compute. reflexivity.
  - vm_compute. reflexivity.
Defined.
