(* ===== verification/Consumption.v ===== *)
(** * Consumption: [internal/allocation/consumption.go]

    The consumption total maintained one block at a time.  [newly p cs b] are
    the addresses of [p] the block covers and nothing else does; the delta the
    code computes is their number, whatever bounded set it was computed over. *)

From S2P Require Import Prelude Float Net Cidr Reservation Allocate.

(** ** Operations *)

Definition noReservation : Reservation := mkReservation 0 0 0.

Definition consumptionDelta (parents overlapping : list IPNet) (block : IPNet)
    : result AllocErr Z :=
  before ← Measure parents overlapping noReservation;
  after ← Measure parents (overlapping ++ [block]) noReservation;
  let delta := Consumed after - Consumed before in
  if delta <? 0 then Ok 0 else Ok delta.

Definition AddedConsumption := consumptionDelta.
Definition RemovedConsumption := consumptionDelta.

(** ** What a block adds *)

Definition newly (p : IPNet) (cs : list IPNet) (b : IPNet) : Z :=
  count (fun x => covers b (pbits p) x && negb (blocked cs (pbits p) x)) (lo p) (hi p).

Lemma count_nat_add P Q l n :
  (forall x, P x = true -> Q x = false) ->
  count_nat (fun x => P x || Q x) l n = count_nat P l n + count_nat Q l n.
Proof.
  intros H. revert l. induction n as [|n IH]; intros l; [done|]. cbn [count_nat]. rewrite IH.
  destruct (P l) eqn:E; [rewrite (H _ E); cbn; lia | cbn; lia].
Qed.

Lemma consumed_snoc p cs b : consumed_in (cs ++ [b]) p = consumed_in cs p + newly p cs b.
Proof.
  unfold consumed_in, newly, count. rewrite <- count_nat_add.
  - apply count_nat_ext. intros x _. rewrite blocked_app. cbn. rewrite orb_false_r.
    by destruct (blocked cs (pbits p) x), (covers b (pbits p) x).
  - intros x ->. by rewrite andb_false_r.
Qed.

Lemma Measure_consumed parents cs :
  pool_ok parents cs ->
  exists m, Measure parents cs noReservation = Ok m /\ Consumed m = sumZ (consumed_in cs) parents.
Proof.
  intros HP. unfold Measure. cbn. eexists. split; [done|]. rewrite viewPool_eq by apply HP.
  by destruct (measure_views parents cs HP) as (_ & _ & ->).
Qed.

Lemma consumptionDelta_eq parents cs b :
  pool_ok parents (cs ++ [b]) ->
  consumptionDelta parents cs b = Ok (sumZ (fun p => newly p cs b) parents).
Proof.
  intros HP. assert (HP0 : pool_ok parents cs).
  { destruct HP as [H1 H2 H3 H4]. constructor; [done | done | by apply Forall_app in H3 as [? _] |].
    intros p Hp. by apply (no_supernet_app p cs [b]), H4. }
  unfold consumptionDelta.
  destruct (Measure_consumed parents cs HP0) as (m & -> & Hm).
  destruct (Measure_consumed parents (cs ++ [b]) HP) as (m' & -> & Hm'). cbn [mbind result_bind].
  rewrite Hm, Hm'.
  assert (sumZ (consumed_in (cs ++ [b])) parents - sumZ (consumed_in cs) parents
          = sumZ (fun p => newly p cs b) parents) as ->.
  { rewrite (sumZ_ext (consumed_in (cs ++ [b])) (fun p => consumed_in cs p + newly p cs b))
      by (intros; apply consumed_snoc). rewrite sumZ_add. lia. }
  assert (0 <= sumZ (fun p => newly p cs b) parents)
    by (apply sumZ_nonneg; intros; apply count_nonneg).
  zcase; [lia | done].
Qed.

(** A set wide enough for [b]: allocations of the pool, with every one that
    shares an address with [b]. *)
Definition covers_overlaps (existing overlapping : list IPNet) (b : IPNet) : Prop :=
  (forall e, e ∈ overlapping -> e ∈ existing)
  /\ forall e, e ∈ existing -> CIDRsOverlap b e = true -> e ∈ overlapping.

Lemma newly_local p existing overlapping b :
  wf_net b -> Forall wf_net existing -> covers_overlaps existing overlapping b ->
  newly p overlapping b = newly p existing b.
Proof.
  intros Hb Hes [Hsub Hall]. rewrite Forall_forall in Hes. apply count_ext. intros x _.
  destruct (covers b (pbits p) x) eqn:Hx; [|done]. cbn. f_equal.
  apply eq_true_iff_eq. rewrite !blocked_spec. split; intros (e & He & Hc); exists e; (split; [|done]).
  - by apply Hsub.
  - apply Hall; [done|]. apply CIDRsOverlap_iff; [done | auto |].
    apply covers_spec in Hx as [Hbb Hx]. exists x. rewrite Hbb. split; [by apply covers_spec | done].
Qed.

Lemma pool_ok_sub parents existing overlapping b :
  pool_ok parents (existing ++ [b]) -> (forall e, e ∈ overlapping -> e ∈ existing) ->
  pool_ok parents (overlapping ++ [b]).
Proof.
  intros [H1 H2 H3 H4] Hsub. constructor; [done | done | |].
  - rewrite Forall_forall in H3. apply Forall_forall. intros e He. apply H3.
    apply elem_of_app in He as [He | He]; apply elem_of_app; auto.
  - intros p Hp e He. apply (H4 p Hp). apply elem_of_app in He as [He | He]; apply elem_of_app; auto.
Qed.

(** The delta computed over any set that includes every overlapping
    allocation is exactly the difference the block makes to the measurement of
    the whole pool, so the maintained total never drifts from it. *)
Theorem AddedConsumption_exact parents existing overlapping b :
  pool_ok parents (existing ++ [b]) -> covers_overlaps existing overlapping b ->
  exists d before after,
    AddedConsumption parents overlapping b = Ok d
    /\ Measure parents existing noReservation = Ok before
    /\ Measure parents (existing ++ [b]) noReservation = Ok after
    /\ Consumed after = Consumed before + d /\ 0 <= d.
Proof.
  intros HP Hcov. assert (HP0 : pool_ok parents existing).
  { destruct HP as [H1 H2 H3 H4]. constructor; [done | done | by apply Forall_app in H3 as [? _] |].
    intros p Hp. by apply (no_supernet_app p existing [b]), H4. }
  assert (Hb : wf_net b).
  { pose proof (po_blocks _ _ HP) as H. rewrite Forall_app, Forall_singleton in H. apply H. }
  unfold AddedConsumption.
  rewrite consumptionDelta_eq by (eapply pool_ok_sub; [exact HP | apply Hcov]).
  destruct (Measure_consumed parents existing HP0) as (m & Hm & Hc).
  destruct (Measure_consumed parents (existing ++ [b]) HP) as (m' & Hm' & Hc').
  eexists _, m, m'. split; [done|]. split; [done|]. split; [done|]. rewrite Hc, Hc'. split.
  - rewrite <- sumZ_add. apply sumZ_ext. intros p _. rewrite consumed_snoc. f_equal.
    symmetry. apply newly_local; [done | apply HP0 | done].
  - apply sumZ_nonneg. intros. apply count_nonneg.
Qed.

(** A history of a pool: blocks added, and blocks removed from among those held. *)
Inductive change := Add (b : IPNet) | Remove (b : IPNet).

(** The allocations a bounded lookup returns for a block. *)
Definition overlapping_of (held : list IPNet) (b : IPNet) : list IPNet :=
  List.filter (fun e => CIDRsOverlap b e) held.

Fixpoint remove_one (b : IPNet) (l : list IPNet) : list IPNet :=
  match l with
  | [] => []
  | e :: r => if bool_decide (e = b) then r else e :: remove_one b r
  end.

(** One change, with the running total: [consumed += AddedConsumption] before an
    insert, [consumed -= RemovedConsumption] after a delete. *)
Definition apply_change (parents : list IPNet) (st : list IPNet * Z) (c : change)
    : result AllocErr (list IPNet * Z) :=
  let '(held, total) := st in
  match c with
  | Add b =>
    d ← AddedConsumption parents (overlapping_of held b) b; Ok (held ++ [b], total + d)
  | Remove b =>
    let held' := remove_one b held in
    d ← RemovedConsumption parents (overlapping_of held' b) b; Ok (held', total - d)
  end.

Definition change_ok (parents : list IPNet) (held : list IPNet) (c : change) : Prop :=
  match c with
  | Add b => pool_ok parents [b]
  | Remove b => b ∈ held
  end.

Fixpoint run_changes (parents : list IPNet) (st : list IPNet * Z) (cs : list change)
    : result AllocErr (list IPNet * Z) :=
  match cs with
  | [] => Ok st
  | c :: rest => st' ← apply_change parents st c; run_changes parents st' rest
  end.

Fixpoint changes_ok (parents held : list IPNet) (cs : list change) : Prop :=
  match cs with
  | [] => True
  | c :: rest =>
    change_ok parents held c
    /\ changes_ok parents (match c with Add b => held ++ [b] | Remove b => remove_one b held end) rest
  end.

Lemma remove_one_perm b l : b ∈ l -> Permutation l (remove_one b l ++ [b]).
Proof.
  induction l as [|e l IH]; intros Hb; [by apply not_elem_of_nil in Hb|]. cbn.
  case_bool_decide as Heq; [subst; by rewrite Permutation_app_comm|].
  apply elem_of_cons in Hb as [-> | Hb]; [done|]. cbn. f_equiv. by apply IH.
Qed.

Lemma overlapping_covers held b : covers_overlaps held (overlapping_of held b) b.
Proof.
  unfold overlapping_of. split; intros e.
  - intros He%list_elem_of_In. apply filter_In in He as [He _]. by apply list_elem_of_In.
  - intros He Ho. apply list_elem_of_In, filter_In. by rewrite <- list_elem_of_In.
Qed.

Lemma pool_ok_app parents a b : pool_ok parents a -> pool_ok parents b -> pool_ok parents (a ++ b).
Proof.
  intros [H1 H2 H3 H4] [_ _ H5 H6]. constructor; [done | done | by apply Forall_app |].
  intros p Hp. apply no_supernet_app. auto.
Qed.

Lemma consumed_perm a b p : Permutation a b -> consumed_in a p = consumed_in b p.
Proof. intros H. apply count_ext. intros x _. by apply blocked_perm. Qed.

Lemma delta_total parents held b :
  pool_ok parents (held ++ [b]) ->
  consumptionDelta parents (overlapping_of held b) b
  = Ok (sumZ (consumed_in (held ++ [b])) parents - sumZ (consumed_in held) parents).
Proof.
  intros HP. destruct (overlapping_covers held b) as [Hsub Hall].
  assert (Hw := po_blocks _ _ HP). rewrite Forall_app, Forall_singleton in Hw. destruct Hw as [Hw Hb].
  rewrite consumptionDelta_eq by by eapply pool_ok_sub. f_equal.
  rewrite (sumZ_ext (consumed_in (held ++ [b])) (fun p => consumed_in held p + newly p held b))
    by (intros; apply consumed_snoc). rewrite sumZ_add.
  rewrite (sumZ_ext (fun p => newly p (overlapping_of held b) b) (fun p => newly p held b))
    by (intros; by apply newly_local). lia.
Qed.

(** Along any history of additions and removals the running total stays the
    measurement of what the pool holds: adding and then removing a block returns
    it exactly, whatever overlaps. *)
Theorem running_total_exact parents held cs :
  pool_ok parents held -> changes_ok parents held cs ->
  exists held' total, run_changes parents (held, sumZ (consumed_in held) parents) cs = Ok (held', total)
    /\ pool_ok parents held' /\ total = sumZ (consumed_in held') parents.
Proof.
  intros HP Hcs. revert held HP Hcs. induction cs as [|c cs IH]; intros held HP Hcs.
  { by exists held, (sumZ (consumed_in held) parents). }
  destruct Hcs as [Hc Hcs]. cbn [run_changes apply_change].
  destruct c as [b | b]; cbn [change_ok] in Hc.
  - pose proof (pool_ok_app _ _ _ HP Hc) as HP'. unfold AddedConsumption.
    rewrite delta_total by done. cbn [mbind result_bind].
    replace (_ + _) with (sumZ (consumed_in (held ++ [b])) parents) by lia. by apply IH.
  - pose proof (remove_one_perm b held Hc) as Hperm.
    pose proof (pool_ok_perm _ _ _ Hperm HP) as HP'. unfold RemovedConsumption.
    rewrite delta_total by done. cbn [mbind result_bind].
    rewrite <- (sumZ_ext (consumed_in held) (consumed_in (remove_one b held ++ [b])))
      by (intros; by apply consumed_perm).
    replace (_ - _) with (sumZ (consumed_in (remove_one b held)) parents) by lia.
    apply IH; [|done]. constructor; [apply HP | apply HP | |].
    + assert (Hw := po_blocks _ _ HP'). by apply Forall_app in Hw as [Hw _].
    + intros p Hp. apply (no_supernet_app p _ [b]). by apply (po_super _ _ HP').
Qed.

(** Two holders of one block: the second adds nothing. *)
Definition ex_shared : IPNet := mk_net (10 * 2 ^ 24) 26 32.

Lemma AddedConsumption_exact_witness :
  exists d before after,
    AddedConsumption ex_parents [ex_shared] ex_shared = Ok d
    /\ Measure ex_parents ex_existing noReservation = Ok before
    /\ Measure ex_parents (ex_existing ++ [ex_shared]) noReservation = Ok after
    /\ Consumed after = Consumed before + d /\ 0 <= d.
Proof.
  apply AddedConsumption_exact; [apply pool_okb_spec; vm_compute; reflexivity|].
  exact (overlapping_covers ex_existing ex_shared).
Defined.

Example shared_adds_nothing : AddedConsumption ex_parents [ex_shared] ex_shared = Ok 0.
Proof. vm_compute. reflexivity. Qed.

Lemma running_total_exact_witness :
  exists held' total,
    run_changes ex_parents (ex_existing, sumZ (consumed_in ex_existing) ex_parents)
      [Add ex_shared; Add ex_free; Remove ex_shared] = Ok (held', total)
    /\ pool_ok ex_parents held' /\ total = sumZ (consumed_in held') ex_parents.
Proof.
  apply running_total_exact; [apply ex_pool_ok|]. cbn [changes_ok change_ok].
  split; [apply pool_okb_spec; vm_compute; reflexivity|].
  split; [apply pool_okb_spec; vm_compute; reflexivity|].
  split; [left | exact I].
Defined.
