(* ===== verification/Tenant.v ===== *)
(** * Tenant: [internal/tenant/tenant.go]

    The calling tenant and the storage keys it is given.  A key carries its
    project as a prefix; the theorems say the prefix can be read back and that
    no two projects, and no project and an untenanted caller, share a key. *)

From Stdlib Require Import Ascii String.
From S2P Require Import Prelude Text.
Open Scope string_scope.
Open Scope list_scope.

Record Identity := mkIdentity { id_APIGroup : string; id_Kind : string; id_Name : string }.

#[export] Instance Identity_eq_dec : EqDecision Identity.
Proof. solve_decision. Defined.

Inductive TenantErr := ErrNoTenant.

Definition ParentAPIGroupProject : string := "resourcemanager.miloapis.com".
Definition ParentTypeProject : string := "Project".
Definition ExtraParentAPIGroup : string := "iam.miloapis.com/parent-api-group".
Definition ExtraParentType : string := "iam.miloapis.com/parent-type".
Definition ExtraParentName : string := "iam.miloapis.com/parent-name".

Definition Identity_Project (id : Identity) : string :=
  if String.eqb (id_Kind id) "Project" then id_Name id else "".

Definition Identity_Org (id : Identity) : string :=
  if String.eqb (id_Kind id) "Organization" then id_Name id else "".

Definition KeyPrefix (id : Identity) : string :=
  if String.eqb (id_Name id) "" then "" else "project/" +:+ id_Name id +:+ "/".

Definition ApplyPrefix (id : Identity) (key : string) : string :=
  let prefix := KeyPrefix id in
  if String.eqb prefix "" then key else prefix +:+ TrimPrefix key "/".

Definition ResourceKey (id : Identity) (resource name : string) : string :=
  ApplyPrefix id ("/ipam.miloapis.com/" +:+ resource +:+ "/" +:+ name).

(** The request's user, when authentication attached one: its extras. *)
Abbreviation Extras := (gmap string (list string)).

Definition first (vals : list string) : string := default "" (head vals).

Definition FromContext (user : option Extras) : Identity :=
  match user with
  | None => mkIdentity "" "" ""
  | Some extra =>
    mkIdentity (first (default [] (extra !! ExtraParentAPIGroup)))
      (first (default [] (extra !! ExtraParentType)))
      (first (default [] (extra !! ExtraParentName)))
  end.

Definition RequireTenant (user : option Extras) : result TenantErr Identity :=
  let id := FromContext user in
  if String.eqb (id_Name id) "" then Err ErrNoTenant else Ok id.

Definition ProjectFromKey (key : string) : string :=
  if negb (HasPrefix key "project/") then ""
  else
    let rest := drop_str (String.length "project/") key in
    match IndexByte rest "/" with
    | None => ""
    | Some O => ""
    | Some slash => take_str slash rest
    end.

(** ** Keys *)

Lemma ResourceKey_tenant id resource name :
  id_Name id <> "" ->
  ResourceKey id resource name
  = "project/" +:+ (id_Name id +:+ ("/" +:+ "ipam.miloapis.com/" +:+ resource +:+ "/" +:+ name)).
Proof.
  intros Hne. unfold ResourceKey, ApplyPrefix, KeyPrefix.
  rewrite (proj2 (String.eqb_neq _ _) Hne). cbn -[String.append TrimPrefix].
  replace (TrimPrefix _ "/") with ("ipam.miloapis.com/" +:+ resource +:+ "/" +:+ name) by done.
  destruct (String.eqb_spec ("project/" +:+ id_Name id +:+ "/") "") as [H|]; [done|].
  by rewrite append_assoc_str, append_assoc_str.
Qed.

(** The project a key was written under is read back from it, for every
    resource and name; a key written without a tenant reads back as none. *)
Theorem ProjectFromKey_ResourceKey id resource name :
  no_byte "/" (id_Name id) = true ->
  ProjectFromKey (ResourceKey id resource name) = id_Name id.
Proof.
  intros Hs. destruct (String.eqb_spec (id_Name id) "") as [E | Hne].
  - unfold ResourceKey, ApplyPrefix, KeyPrefix. by rewrite E.
  - rewrite ResourceKey_tenant by done. unfold ProjectFromKey.
    rewrite HasPrefix_app, drop_str_app. cbn [negb].
    change ("/" +:+ ?r) with (String "/" r) at 1.
    rewrite (IndexByte_app "/" (id_Name id)) by done.
    destruct (String.length (id_Name id)) eqn:El; [destruct (id_Name id); done|].
    rewrite <- El. apply take_str_app.
Qed.

Definition ex_id : Identity := mkIdentity ParentAPIGroupProject ParentTypeProject "alpha".

Lemma ProjectFromKey_ResourceKey_witness :
  ProjectFromKey (ResourceKey ex_id "ippools" "p1") = "alpha".
Proof. apply (ProjectFromKey_ResourceKey ex_id). reflexivity. Defined.

Lemma ResourceKey_inj id id' r r' n n' :
  no_byte "/" (id_Name id) = true -> no_byte "/" (id_Name id') = true ->
  no_byte "/" r = true -> no_byte "/" r' = true ->
  ResourceKey id r n = ResourceKey id' r' n' ->
  id_Name id = id_Name id' /\ r = r' /\ n = n'.
Proof.
  intros Hi Hi' Hr Hr' H.
  assert (Hrest : forall k k', "ipam.miloapis.com/" +:+ r +:+ "/" +:+ k = "ipam.miloapis.com/" +:+ r' +:+ "/" +:+ k' ->
                               r = r' /\ k = k').
  { intros k k' Hk. apply append_inj_l in Hk. by apply split_at_byte in Hk. }
  destruct (String.eqb_spec (id_Name id) "") as [E | Hne], (String.eqb_spec (id_Name id') "") as [E' | Hne'].
  - revert H. unfold ResourceKey, ApplyPrefix, KeyPrefix. rewrite E, E'. cbn -[String.append].
    intros H. split; [done|]. apply Hrest. by apply (append_inj_l "/") in H.
  - exfalso. rewrite (ResourceKey_tenant id') in H by done.
    revert H. unfold ResourceKey, ApplyPrefix, KeyPrefix. rewrite E. done.
  - exfalso. rewrite (ResourceKey_tenant id) in H by done.
    revert H. unfold ResourceKey, ApplyPrefix, KeyPrefix. rewrite E'. done.
  - rewrite !ResourceKey_tenant in H by done. apply append_inj_l in H.
    apply split_at_byte in H as [-> H]; [|done..]. by destruct (Hrest _ _ H).
Qed.

(** Object keys never overlap: a key determines its tenant, its resource and
    its name, so no project can read or write another's object, nor an
    untenanted caller anyone's. *)
Theorem ResourceKey_injective id id' r r' n n' :
  no_byte "/" (id_Name id) = true -> no_byte "/" (id_Name id') = true ->
  no_byte "/" r = true -> no_byte "/" r' = true ->
  ResourceKey id r n = ResourceKey id' r' n' ->
  id_Name id = id_Name id' /\ r = r' /\ n = n'.
Proof. apply ResourceKey_inj. Qed.

Lemma ResourceKey_injective_witness :
  id_Name ex_id = id_Name ex_id /\ "ippools" = "ippools" /\ "p1" = "p1".
Proof. apply (ResourceKey_injective ex_id ex_id); reflexivity. Defined.

Lemma RequireTenant_spec user :
  RequireTenant user = (if String.eqb (id_Name (FromContext user)) "" then Err ErrNoTenant
                        else Ok (FromContext user)).
Proof. done. Qed.
