(* ===== verification/Sha256.v ===== *)
(** * Sha256: Go's [crypto/sha256] and [encoding/hex]

    SHA-256 (FIPS 180-4) over byte strings, executable, so that the digests the
    source computes can be compared with the constants its migrations store. *)

From Stdlib Require Import Ascii String.
From S2P Require Import Prelude Text.
Open Scope string_scope.
Open Scope list_scope.
Open Scope Z_scope.

Definition w32 (x : Z) : Z := x mod 2 ^ 32.
Definition add32 (x y : Z) : Z := w32 (x + y).
Definition rotr (x n : Z) : Z := Z.lor (Z.shiftr x n) (w32 (Z.shiftl x (32 - n))).

Definition sha_K : list Z :=
  [1116352408; 1899447441; 3049323471; 3921009573; 961987163; 1508970993;
   2453635748; 2870763221; 3624381080; 310598401; 607225278; 1426881987;
   1925078388; 2162078206; 2614888103; 3248222580; 3835390401; 4022224774;
   264347078; 604807628; 770255983; 1249150122; 1555081692; 1996064986;
   2554220882; 2821834349; 2952996808; 3210313671; 3336571891; 3584528711;
   113926993; 338241895; 666307205; 773529912; 1294757372; 1396182291;
   1695183700; 1986661051; 2177026350; 2456956037; 2730485921; 2820302411;
   3259730800; 3345764771; 3516065817; 3600352804; 4094571909; 275423344;
   430227734; 506948616; 659060556; 883997877; 958139571; 1322822218;
   1537002063; 1747873779; 1955562222; 2024104815; 2227730452; 2361852424;
   2428436474; 2756734187; 3204031479; 3329325298].

Definition sha_H0 : list Z :=
  [1779033703; 3144134277; 1013904242; 2773480762; 1359893119; 2600822924;
   528734635; 1541459225].

Definition small_sigma0 (x : Z) : Z := Z.lxor (rotr x 7) (Z.lxor (rotr x 18) (Z.shiftr x 3)).
Definition small_sigma1 (x : Z) : Z := Z.lxor (rotr x 17) (Z.lxor (rotr x 19) (Z.shiftr x 10)).
Definition big_sigma0 (x : Z) : Z := Z.lxor (rotr x 2) (Z.lxor (rotr x 13) (rotr x 22)).
Definition big_sigma1 (x : Z) : Z := Z.lxor (rotr x 6) (Z.lxor (rotr x 11) (rotr x 25)).
Definition sha_ch (x y z : Z) : Z := Z.lxor (Z.land x y) (Z.land (2 ^ 32 - 1 - x) z).
Definition sha_maj (x y z : Z) : Z := Z.lxor (Z.land x y) (Z.lxor (Z.land x z) (Z.land y z)).

(** The message schedule, newest word first. *)
Fixpoint schedule (n : nat) (w : list Z) : list Z :=
  match n with
  | O => w
  | S n' =>
    let t := add32 (add32 (small_sigma1 (nth 1 w 0)) (nth 6 w 0))
                   (add32 (small_sigma0 (nth 14 w 0)) (nth 15 w 0)) in
    schedule n' (t :: w)
  end.

Definition sha_round (st : list Z) (kw : Z * Z) : list Z :=
  match st with
  | [a; b; c; d; e; f; g; h] =>
    let t1 := add32 (add32 h (big_sigma1 e)) (add32 (sha_ch e f g) (add32 (fst kw) (snd kw))) in
    let t2 := add32 (big_sigma0 a) (sha_maj a b c) in
    [add32 t1 t2; a; b; c; add32 d t1; e; f; g]
  | _ => st
  end.

Fixpoint be_words (n : nat) (l : list Z) : list Z :=
  match n, l with
  | S n', a :: b :: c :: d :: rest => (((a * 256 + b) * 256 + c) * 256 + d) :: be_words n' rest
  | _, _ => []
  end.

Definition sha_block (h : list Z) (block : list Z) : list Z :=
  let w := rev (schedule 48 (rev (be_words 16 block))) in
  zip_with add32 h (foldl sha_round h (zip sha_K w)).

Fixpoint be_bytes (n : nat) (x : Z) : list Z :=
  match n with
  | O => []
  | S n' => be_bytes n' (x / 256) ++ [x mod 256]
  end.

(** Padding to whole blocks: a one bit, zeros, and the length in bits. *)
Definition sha_pad (msg : list Z) : list Z :=
  let len := Z.of_nat (length msg) in
  msg ++ [128] ++ replicate (Z.to_nat ((55 - len) mod 64)) 0 ++ be_bytes 8 (8 * len).

Fixpoint sha_blocks (n : nat) (h l : list Z) : list Z :=
  match n with
  | O => h
  | S n' => sha_blocks n' (sha_block h (take 64 l)) (drop 64 l)
  end.

Definition bytes_of (s : string) : list Z := map (fun c => Z.of_N (N_of_ascii c)) (list_ascii_of_string s).

(** [sha256.Sum256]: 32 bytes. *)
Definition Sum256 (msg : list Z) : list Z :=
  let p := sha_pad msg in
  concat (map (be_bytes 4) (sha_blocks (length p / 64) sha_H0 p)).

Definition hex_digit (n : Z) : ascii :=
  ascii_of_N (Z.to_N (if n <? 10 then 48 + n else 87 + n)).

(** [hex.EncodeToString] *)
Definition hexEncode (l : list Z) : string :=
  fold_right (fun b acc => String (hex_digit (b / 16)) (String (hex_digit (b mod 16)) acc)) "" l.

Example sha256_abc :
  hexEncode (Sum256 (bytes_of "abc"))
  = "ba7816bf8f01cfea414140de5dae2223b00361a396177a9cb410ff61f20015ad".
Proof. vm_compute. reflexivity. Qed.

(** ** Lengths *)

Lemma length_be_bytes n x : length (be_bytes n x) = n.
Proof. revert x. induction n; intros; [done|]. cbn [be_bytes]. rewrite length_app, IHn. cbn. lia. Qed.

Lemma sha_round_length st kw : length st = 8%nat -> length (sha_round st kw) = 8%nat.
Proof. do 9 (destruct st; try done). Qed.

Lemma sha_rounds_length kws st : length st = 8%nat -> length (foldl sha_round st kws) = 8%nat.
Proof. revert st. induction kws; intros st H; [done|]. cbn. by apply IHkws, sha_round_length. Qed.

Lemma sha_block_length h b : length h = 8%nat -> length (sha_block h b) = 8%nat.
Proof. intros H. unfold sha_block. by rewrite length_zip_with, sha_rounds_length, H by done. Qed.

Lemma sha_blocks_length n h l : length h = 8%nat -> length (sha_blocks n h l) = 8%nat.
Proof. revert h l. induction n; intros h l H; [done|]. cbn. by apply IHn, sha_block_length. Qed.

Lemma Sum256_length msg : length (Sum256 msg) = 32%nat.
Proof.
  unfold Sum256. cbv zeta.
  pose proof (sha_blocks_length (length (sha_pad msg) / 64) sha_H0 (sha_pad msg) eq_refl) as H.
  revert H. generalize (sha_blocks (length (sha_pad msg) / 64) sha_H0 (sha_pad msg)). intros l H.
  assert (Hl : length (concat (map (be_bytes 4) l)) = (4 * length l)%nat).
  { clear H. induction l as [|x l IH]; [done|]. cbn [map concat length]. rewrite length_app, IH, length_be_bytes. lia. }
  rewrite Hl, H. done.
Qed.

Lemma hexEncode_length l : String.length (hexEncode l) = (2 * length l)%nat.
Proof. induction l as [|b l IH]; [done|]. cbn [hexEncode fold_right String.length length] in *. fold (hexEncode l). lia. Qed.
