(* ===== verification/Scope.v ===== *)
(** * Scope: [internal/scope/scope.go]

    Scope maps, their canonical encodings and the two digests.  The encodings
    are injective ([CanonicalPool_injective], [CanonicalAddressSpace_injective]);
    a digest is SHA-256 of one, so two inputs share a digest only if they are the
    same input or exhibit a SHA-256 collision, which is the form the theorems on
    digests take. *)

From Stdlib Require Import Ascii String.
From stdpp Require Import gmap strings.
From S2P Require Import Prelude Text Sha256.
Open Scope string_scope.
Open Scope list_scope.

(** ** Data *)

Record ScopeRef := mkScopeRef { sr_APIGroup : string; sr_Kind : string; sr_Name : string }.

#[export] Instance ScopeRef_eq_dec : EqDecision ScopeRef.
Proof. solve_decision. Defined.

Abbreviation scope_map := (gmap string ScopeRef).

Definition canonicalPoolVersion : string := "ipam.scope.v4".
Definition canonicalAddressSpaceVersion : string := "ipam.scope.v3".
Definition ReservedRoleProject : string := "project".

Record PoolTenancy := mkTenancy { Owner : string; Consumer : string }.

#[export] Instance PoolTenancy_eq_dec : EqDecision PoolTenancy.
Proof. solve_decision. Defined.

Record MissingRoleError := mkMissing { mre_Roles : list string; mre_Required : string }.

Inductive ScopeErr :=
| SMissingRole (e : MissingRoleError)
| SEmptyRole
| SNoKind (role : string)
| SNoName (role : string).

(** ** Operations *)

(** The loop of [PoolPerRoles], and its two results. *)
Fixpoint PoolPerRoles (poolPer : list string) : list string * bool :=
  match poolPer with
  | [] => ([], false)
  | r :: rest =>
    let '(roles, perConsumer) := PoolPerRoles rest in
    if String.eqb r ReservedRoleProject then (roles, true) else (r :: roles, perConsumer)
  end.

Fixpoint WithoutReservedRoles (roles : list string) : list string :=
  match roles with
  | [] => []
  | r :: rest =>
    if negb (String.eqb r ReservedRoleProject) then r :: WithoutReservedRoles rest
    else WithoutReservedRoles rest
  end.

(** [Roles]: the keys, which the map gives in no particular order, sorted. *)
Definition Roles (s : scope_map) : list string := sort_strings (map_to_list s).*1.

Definition ref_of (s : scope_map) (role : string) : ScopeRef :=
  default (mkScopeRef "" "" "") (s !! role).

Definition pool_group (s : scope_map) (role : string) : list string :=
  let ref := ref_of s role in [role; sr_APIGroup ref; sr_Kind ref; sr_Name ref].

Definition CanonicalPool (t : PoolTenancy) (s : scope_map) : string :=
  writeFields ([canonicalPoolVersion; Owner t; Consumer t; Itoa (size s)]
               ++ concat (map (pool_group s) (Roles s))).

Definition space_group (tenant : string) (s : scope_map) (role : string) : list string :=
  let ref := ref_of s role in [role; tenant; sr_APIGroup ref; sr_Kind ref; sr_Name ref].

Definition CanonicalAddressSpace (tenant : string) (s : scope_map) : string :=
  writeFields ([canonicalAddressSpaceVersion; Itoa (size s)]
               ++ concat (map (space_group tenant s) (Roles s))).

Definition PoolDigest (t : PoolTenancy) (s : scope_map) : string :=
  hexEncode (Sum256 (bytes_of (CanonicalPool t s))).

Definition AddressSpaceDigest (tenant : string) (s : scope_map) : string :=
  hexEncode (Sum256 (bytes_of (CanonicalAddressSpace tenant s))).

Definition EmptyPoolDigest (t : PoolTenancy) : string := PoolDigest t ∅.

Definition EmptyAddressSpaceDigest : string := AddressSpaceDigest "" ∅.

Definition SameRefs (a b : scope_map) : bool :=
  String.eqb (CanonicalPool (mkTenancy "" "") a) (CanonicalPool (mkTenancy "" "") b).

(** The first occurrences of a list, in order: the [slices.Contains] loops. *)
Definition add_new (l : list string) (x : string) : list string :=
  if bool_decide (x ∈ l) then l else l ++ [x].

Definition RoleSetKey (roles : list string) : string :=
  let uniq := sort_strings (foldl add_new [] roles) in
  writeFields (Itoa (length uniq) :: uniq).

(** The loop of [Project]: what was found, and what is missing. *)
Fixpoint project_loop (s : scope_map) (roles : list string) (out : scope_map) (missing : list string)
    : scope_map * list string :=
  match roles with
  | [] => (out, missing)
  | role :: rest =>
    match s !! role with
    | Some ref =>
      if String.eqb (sr_Name ref) "" then project_loop s rest out (add_new missing role)
      else project_loop s rest (<[role := ref]> out) missing
    | None => project_loop s rest out (add_new missing role)
    end
  end.

Definition Project (s : scope_map) (roles : list string) : result ScopeErr scope_map :=
  let '(out, missing) := project_loop s roles ∅ [] in
  match missing with
  | [] => Ok out
  | _ => Err (SMissingRole (mkMissing missing ""))
  end.

Definition ProjectFor (s : scope_map) (roles : list string) (required : string)
    : result ScopeErr scope_map :=
  match Project s (WithoutReservedRoles roles) with
  | Ok out => Ok out
  | Err (SMissingRole e) => Err (SMissingRole (mkMissing (mre_Roles e) required))
  | Err e => Err e
  end.

Definition ProjectPoolDigest (t : PoolTenancy) (s : scope_map) (roles : list string)
    (required : string) : result ScopeErr string :=
  sub ← ProjectFor s roles required; Ok (PoolDigest t sub).

Definition ProjectAddressSpaceDigest (tenant : string) (s : scope_map) (roles : list string)
    (required : string) : result ScopeErr (scope_map * string) :=
  sub ← ProjectFor s roles required; Ok (sub, AddressSpaceDigest tenant sub).

Definition validate_ref (role : string) (ref : ScopeRef) : option ScopeErr :=
  if String.eqb role "" then Some SEmptyRole
  else if String.eqb (sr_Kind ref) "" then Some (SNoKind role)
  else if String.eqb (sr_Name ref) "" then Some (SNoName role)
  else None.

Fixpoint validate_roles (s : scope_map) (roles : list string) : option ScopeErr :=
  match roles with
  | [] => None
  | role :: rest =>
    match validate_ref role (ref_of s role) with
    | Some e => Some e
    | None => validate_roles s rest
    end
  end.

Definition Validate (s : scope_map) : option ScopeErr := validate_roles s (Roles s).

(** The constants migration 002 and the scope tests pin. *)
Example EmptyAddressSpaceDigest_migration :
  EmptyAddressSpaceDigest = "c86bbfc3761caa942844f05f5a8379f15cdd300f512a9d5b5baaa787c4695c42".
Proof. vm_compute. reflexivity. Qed.

Example EmptyPoolDigest_pinned :
  EmptyPoolDigest (mkTenancy "" "") = "3a50033f384ac3b2790e85913e17cf59feb841c01a18375ab97106b94a0a6910".
Proof. vm_compute. reflexivity. Qed.

(** ** Encodings *)

Lemma Roles_keys s role : role ∈ Roles s <-> is_Some (s !! role).
Proof.
  unfold Roles. rewrite sort_strings_perm, list_elem_of_fmap. split.
  - intros ([r ref] & -> & H%elem_of_map_to_list). by exists ref.
  - intros [ref H]. exists (role, ref). split; [done | by apply elem_of_map_to_list].
Qed.

(** Whatever order the map's keys are visited in, the roles come out the same. *)
Lemma Roles_any_order s keys : Permutation keys (map_to_list s).*1 -> sort_strings keys = Roles s.
Proof. apply sort_strings_ext. Qed.

Lemma groups_inj {n} (f g : string -> list string) l k :
  (forall r, length (f r) = S n) -> (forall r, length (g r) = S n) ->
  concat (map f l) = concat (map g k) -> Forall2 (fun a b => f a = g b) l k.
Proof.
  intros Hf Hg. revert k. induction l as [|a l IH]; intros [|b k] H; cbn in H; [constructor | | |].
  - specialize (Hg b). destruct (g b); done.
  - specialize (Hf a). destruct (f a); done.
  - apply app_inj_1 in H as [H1 H2]; [|by rewrite Hf, Hg]. constructor; [done | by apply IH].
Qed.

(** Equal lists of (role, ref) groups come from equal maps. *)
Lemma scope_eq_of_groups s s' :
  Forall2 (fun a b => a = b /\ ref_of s a = ref_of s' b) (Roles s) (Roles s') -> s = s'.
Proof.
  intros H. assert (Hr : Roles s = Roles s' /\ forall r, r ∈ Roles s -> ref_of s r = ref_of s' r).
  { revert H. generalize (Roles s) (Roles s'). induction 1 as [|a b l k [-> Hab] _ [-> IH]]; [split; [done | by intros r ?%not_elem_of_nil]|].
    split; [done|]. intros r [-> | Hr]%elem_of_cons; auto. }
  destruct Hr as [Hr Href]. apply map_eq. intros role.
  destruct (s !! role) as [ref|] eqn:E.
  - assert (Hin : role ∈ Roles s) by (apply Roles_keys; eauto).
    pose proof (Href role Hin) as He. rewrite Hr in Hin. apply Roles_keys in Hin as [ref' E'].
    unfold ref_of in He. rewrite E, E' in He. cbn in He. by rewrite E', He.
  - destruct (s' !! role) as [ref'|] eqn:E'; [|done]. exfalso.
    assert (Hin : role ∈ Roles s') by (apply Roles_keys; eauto).
    rewrite <- Hr in Hin. apply Roles_keys in Hin as [? ?]. congruence.
Qed.

Lemma ref_eq (a b : ScopeRef) :
  sr_APIGroup a = sr_APIGroup b -> sr_Kind a = sr_Kind b -> sr_Name a = sr_Name b -> a = b.
Proof. destruct a, b. cbn. by intros -> -> ->. Qed.

Lemma CanonicalPool_inj t s t' s' : CanonicalPool t s = CanonicalPool t' s' -> t = t' /\ s = s'.
Proof.
  intros H. apply writeFields_inj in H. cbn [app] in H. injection H as Ho Hc _ Hg.
  split; [destruct t, t'; cbn in *; by rewrite Ho, Hc|].
  apply scope_eq_of_groups.
  apply (groups_inj (n := 3) (pool_group s) (pool_group s')) in Hg; [|done|done].
  eapply Forall2_impl; [exact Hg|]. unfold pool_group. intros a b [= -> H1 H2 H3].
  split; [done | by apply ref_eq].
Qed.

Lemma CanonicalAddressSpace_inj t s t' s' :
  CanonicalAddressSpace t s = CanonicalAddressSpace t' s' -> s = s' /\ (s = ∅ \/ t = t').
Proof.
  intros H. apply writeFields_inj in H. cbn [app] in H. injection H as _ Hg.
  apply (groups_inj (n := 4) (space_group t s) (space_group t' s')) in Hg; [|done|done].
  split.
  - apply scope_eq_of_groups. eapply Forall2_impl; [exact Hg|].
    unfold space_group. intros a b [= -> _ H1 H2 H3]. split; [done | by apply ref_eq].
  - destruct (Roles s) as [|r l] eqn:E.
    + left. apply map_eq. intros role. rewrite lookup_empty. destruct (s !! role) eqn:Er; [|done].
      assert (role ∈ Roles s) by (apply Roles_keys; eauto). rewrite E in *. by apply not_elem_of_nil in H.
    + right. inversion Hg as [|? ? ? ? Hr _]; subst. unfold space_group in Hr. congruence.
Qed.

(** ** Digests *)

Lemma hex_digit_inj a b : 0 <= a < 16 -> 0 <= b < 16 -> hex_digit a = hex_digit b -> a = b.
Proof.
  intros Ha Hb H.
  assert (Hall : forallb (fun i => forallb (fun j =>
      negb (Ascii.eqb (hex_digit (Z.of_nat i)) (hex_digit (Z.of_nat j))) || (i =? j)%nat)
      (seq 0 16)) (seq 0 16) = true) by (vm_compute; reflexivity).
  rewrite forallb_forall in Hall. specialize (Hall (Z.to_nat a)).
  rewrite forallb_forall in Hall. specialize (Hall ltac:(apply in_seq; lia) (Z.to_nat b) ltac:(apply in_seq; lia)).
  rewrite !Z2Nat.id, H, Ascii.eqb_refl in Hall by lia. cbn in Hall. apply Nat.eqb_eq in Hall. lia.
Qed.

Lemma hexEncode_inj l k :
  Forall (fun b => 0 <= b < 256) l -> Forall (fun b => 0 <= b < 256) k ->
  hexEncode l = hexEncode k -> l = k.
Proof.
  intros Hl. revert k. induction Hl as [|a l Ha Hl IH]; intros k Hk H; destruct Hk as [|b k Hb Hk]; try done.
  unfold hexEncode in H. cbn [fold_right] in H. fold (hexEncode l) (hexEncode k) in H.
  injection H as H1 H2 H.
  apply hex_digit_inj in H1, H2; try (by apply Z.mod_pos_bound);
    try (split; [apply Z.div_pos; lia | apply Z.div_lt_upper_bound; lia]).
  f_equal; [|by apply IH]. rewrite (Z.div_mod a 16), (Z.div_mod b 16) by lia. lia.
Qed.

Lemma Sum256_bytes msg : Forall (fun b => 0 <= b < 256) (Sum256 msg).
Proof.
  unfold Sum256. cbv zeta. generalize (sha_blocks (length (sha_pad msg) / 64) sha_H0 (sha_pad msg)).
  assert (Hb : forall n x, Forall (fun b => 0 <= b < 256) (be_bytes n x)).
  { induction n; intros x; cbn [be_bytes]; [constructor|]. apply Forall_app. split; [apply IHn|].
    repeat constructor; apply Z.mod_pos_bound; lia. }
  induction l as [|x l IH]; [constructor|]. cbn [map concat]. apply Forall_app. auto.
Qed.

(** Two texts that SHA-256 does not tell apart. *)
Definition collide (a b : string) : Prop :=
  a <> b /\ Sum256 (bytes_of a) = Sum256 (bytes_of b).

Lemma digest_eq a b :
  hexEncode (Sum256 (bytes_of a)) = hexEncode (Sum256 (bytes_of b)) <-> a = b \/ collide a b.
Proof.
  split.
  - intros H. apply hexEncode_inj in H; [|apply Sum256_bytes ..].
    destruct (String.eqb_spec a b); [by left | by right].
  - by intros [-> | [_ ->]].
Qed.

(** A pool digest identifies its inputs: two tenancies and scopes have one
    digest exactly when they are equal, or their canonical encodings are a
    SHA-256 collision.  Owners, and consumers, are kept apart even by the empty
    scope. *)
Theorem PoolDigest_identifies t s t' s' :
  PoolDigest t s = PoolDigest t' s'
  <-> (t = t' /\ s = s') \/ collide (CanonicalPool t s) (CanonicalPool t' s').
Proof.
  unfold PoolDigest. rewrite digest_eq. split.
  - intros [H | H]; [left; by apply CanonicalPool_inj | by right].
  - intros [[-> ->] | H]; [by left | by right].
Qed.

(** [C36] An address-space digest identifies the space: the empty scope is one
    space whatever the tenant, the constant the migrations default to; two
    scopes with references share a digest exactly when the references and the
    tenant are equal, or the encodings are a SHA-256 collision. *)
Theorem AddressSpaceDigest_identifies t s t' s' :
  AddressSpaceDigest t ∅ = "c86bbfc3761caa942844f05f5a8379f15cdd300f512a9d5b5baaa787c4695c42"
  /\ (AddressSpaceDigest t s = AddressSpaceDigest t' s'
      <-> (s = s' /\ (s = ∅ \/ t = t'))
          \/ collide (CanonicalAddressSpace t s) (CanonicalAddressSpace t' s')).
Proof.
  split; [vm_compute; reflexivity|]. unfold AddressSpaceDigest. rewrite digest_eq. split.
  - intros [H | H]; [left; by apply CanonicalAddressSpace_inj | by right].
  - intros [[-> [-> | ->]] | H]; [left; reflexivity | by left | by right].
Qed.

(** The two encodings never produce the same text. *)
Lemma pool_space_disjoint t s t' s' : CanonicalPool t s <> CanonicalAddressSpace t' s'.
Proof. intros H. apply writeFields_inj in H. cbn [app] in H. injection H. discriminate. Qed.

Lemma PoolDigest_length t s : String.length (PoolDigest t s) = 64%nat.
Proof. unfold PoolDigest. by rewrite hexEncode_length, Sum256_length. Qed.

Lemma SameRefs_iff a b : SameRefs a b = true <-> a = b.
Proof.
  unfold SameRefs. rewrite String.eqb_eq. split; [|by intros ->].
  intros H. by apply CanonicalPool_inj in H as [_ ?].
Qed.

(** ** Role sets *)

Lemma add_new_elem l x y : y ∈ add_new l x <-> y ∈ l \/ y = x.
Proof.
  unfold add_new. case_bool_decide as H.
  - split; [by left | intros [? | ->]; done].
  - rewrite elem_of_app, list_elem_of_singleton. done.
Qed.

Lemma add_new_NoDup l x : NoDup l -> NoDup (add_new l x).
Proof.
  intros H. unfold add_new. case_bool_decide; [done|]. apply NoDup_app.
  split; [done|]. split; [|apply NoDup_singleton]. by intros y Hy ->%list_elem_of_singleton.
Qed.

Lemma uniq_spec roles l :
  NoDup l -> NoDup (foldl add_new l roles) /\ forall y, y ∈ foldl add_new l roles <-> y ∈ l \/ y ∈ roles.
Proof.
  revert l. induction roles as [|r roles IH]; intros l Hl; cbn [foldl].
  - split; [done|]. intros y. split; [by left | intros [? | ?%not_elem_of_nil]; done].
  - destruct (IH (add_new l r) (add_new_NoDup l r Hl)) as [H1 H2]. split; [done|].
    intros y. rewrite H2, add_new_elem, elem_of_cons. tauto.
Qed.

Lemma RoleSetKey_eq a b : RoleSetKey a = RoleSetKey b <-> forall r, r ∈ a <-> r ∈ b.
Proof.
  unfold RoleSetKey.
  destruct (uniq_spec a [] ltac:(constructor)) as [Na Ha], (uniq_spec b [] ltac:(constructor)) as [Nb Hb].
  assert (Hset : (forall r, r ∈ a <-> r ∈ b) <-> Permutation (foldl add_new [] a) (foldl add_new [] b)).
  { split.
    - intros H. apply NoDup_Permutation; [done | done |]. intros r. rewrite Ha, Hb, H. done.
    - intros H r. pose proof (Ha r) as Ha'. rewrite H, Hb, !elem_of_nil in Ha'. tauto. }
  rewrite Hset. split.
  - intros H. apply writeFields_inj in H. injection H as _ H.
    by rewrite <- (sort_strings_perm (foldl add_new [] a)), H, sort_strings_perm.
  - intros H. by rewrite (sort_strings_ext _ _ H).
Qed.

(** Two role lists have one key exactly when they name the same set of roles:
    order and repetition do not matter, and nothing else is confused. *)
Theorem RoleSetKey_iff a b : RoleSetKey a = RoleSetKey b <-> forall r, r ∈ a <-> r ∈ b.
Proof. apply RoleSetKey_eq. Qed.

(** ** Projection *)

(** A role the scope supplies: present, with a name. *)
Definition supplied (s : scope_map) (role : string) : Prop :=
  exists ref, s !! role = Some ref /\ sr_Name ref <> "".

Lemma supplied_dec s role : Decision (supplied s role).
Proof.
  destruct (s !! role) as [ref|] eqn:E.
  - destruct (String.eqb_spec (sr_Name ref) "") as [H | H].
    + right. intros (ref' & E' & Hn). congruence.
    + left. by exists ref.
  - right. intros (ref' & E' & _). congruence.
Defined.

Lemma project_loop_spec s roles out missing :
  NoDup missing ->
  let '(out', missing') := project_loop s roles out missing in
  NoDup missing'
  /\ (forall r, r ∈ missing' <-> r ∈ missing \/ (r ∈ roles /\ ~ supplied s r))
  /\ (forall r, out' !! r = if decide (r ∈ roles) then (if supplied_dec s r then s !! r else out !! r) else out !! r).
Proof.
  revert out missing. induction roles as [|role roles IH]; intros out missing Hm; cbn [project_loop].
  { split; [done|]. split; [|done]. intros r. split; [by left | intros [? | [?%not_elem_of_nil _]]; done]. }
  assert (Hmiss : ~ supplied s role ->
    let '(out', missing') := project_loop s roles out (add_new missing role) in
    NoDup missing' /\ (forall r, r ∈ missing' <-> r ∈ missing \/ (r ∈ role :: roles /\ ~ supplied s r))
    /\ (forall r, out' !! r = if decide (r ∈ role :: roles) then (if supplied_dec s r then s !! r else out !! r) else out !! r)).
  { intros Hns. specialize (IH out (add_new missing role) (add_new_NoDup _ _ Hm)).
    destruct (project_loop _ _ _ _) as [out' missing']. destruct IH as (H1 & H2 & H3).
    split; [done|]. split.
    - intros r. rewrite H2, add_new_elem, elem_of_cons. split; [|tauto].
      intros [[? | ->] | ?]; tauto.
    - intros r. rewrite H3. destruct (supplied_dec s r); [|by do 2 destruct (decide _)].
      assert (r <> role) by congruence.
      destruct (decide (r ∈ roles)) as [Hi|Hi], (decide (r ∈ role :: roles)) as [Hj|Hj]; try done.
      + exfalso. apply Hj. by right.
      + exfalso. apply elem_of_cons in Hj as [? | ?]; congruence. }
  destruct (s !! role) as [ref|] eqn:E.
  - destruct (String.eqb_spec (sr_Name ref) "") as [Hn | Hn].
    + apply Hmiss. intros (ref' & E' & ?). congruence.
    + assert (Hs : supplied s role) by by exists ref.
      specialize (IH (<[role:=ref]> out) missing Hm).
      destruct (project_loop _ _ _ _) as [out' missing']. destruct IH as (H1 & H2 & H3).
      split; [done|]. split.
      * intros r. rewrite H2, elem_of_cons. split; [tauto|]. intros [? | [[-> | ?] ?]]; tauto.
      * intros r. rewrite H3. destruct (decide (r = role)) as [-> | Hne].
        -- rewrite lookup_insert_eq. rewrite (decide_True (P := role ∈ role :: roles)) by left.
           destruct (supplied_dec s role); [|done]. by destruct (decide _).
        -- rewrite lookup_insert_ne by done.
           destruct (decide (r ∈ roles)) as [Hi|Hi], (decide (r ∈ role :: roles)) as [Hj|Hj]; try done.
           ++ exfalso. apply Hj. by right.
           ++ exfalso. apply elem_of_cons in Hj as [? | ?]; congruence.
  - apply Hmiss. intros (ref' & E' & ?). congruence.
Qed.

(** What a projection is. *)
Lemma Project_run s roles :
  match Project s roles with
  | Ok out => (forall r, r ∈ roles -> supplied s r)
              /\ forall r, out !! r = if decide (r ∈ roles) then s !! r else None
  | Err (SMissingRole e) =>
    mre_Roles e <> [] /\ NoDup (mre_Roles e)
    /\ forall r, r ∈ mre_Roles e <-> r ∈ roles /\ ~ supplied s r
  | Err _ => False
  end.
Proof.
  unfold Project. pose proof (project_loop_spec s roles ∅ [] ltac:(constructor)) as H.
  destruct (project_loop s roles ∅ []) as [out missing]. destruct H as (H1 & H2 & H3).
  destruct missing as [|m ms].
  - assert (Hall : forall r, r ∈ roles -> supplied s r).
    { intros r Hr. destruct (supplied_dec s r) as [|Hn]; [done|]. exfalso.
      apply (not_elem_of_nil r). apply H2. by right. }
    split; [done|]. intros r. rewrite H3, lookup_empty. destruct (decide _) as [Hr|]; [|done].
    destruct (supplied_dec s r) as [|Hn]; [done|]. exfalso. by apply Hn, Hall.
  - cbn. split; [done|]. split; [done|]. intros r. rewrite H2, elem_of_nil. tauto.
Qed.

(** Projection narrows a scope to exactly the named roles, or reports every
    missing one once: an absent role and a role with an empty name are equally
    missing, and no projection is ever silently wider. *)
Theorem Project_spec s roles :
  match Project s roles with
  | Ok out => (forall r, r ∈ roles -> supplied s r)
              /\ forall r, out !! r = if decide (r ∈ roles) then s !! r else None
  | Err (SMissingRole e) =>
    mre_Roles e <> [] /\ NoDup (mre_Roles e)
    /\ forall r, r ∈ mre_Roles e <-> r ∈ roles /\ ~ supplied s r
  | Err _ => False
  end.
Proof. apply Project_run. Qed.
