(* ===== verification/NetText.v ===== *)
(** * NetText: the text forms of addresses and networks

    Go's [net.ParseCIDR], [net.ParseIP], [IP.String] and [IPNet.String], with
    the [net/netip] parser beneath them, as executable functions.  The theorem a
    stored pool relies on is [ParseCIDR_String]: the text of a network parses
    back to that network, for both families and with IPv6 zero compression. *)

From Stdlib Require Import Ascii String.
From S2P Require Import Prelude Text Net Cidr.
Open Scope string_scope.
Open Scope list_scope.
Open Scope Z_scope.

(** ** Digits *)

Definition code (c : ascii) : Z := Z.of_N (N_of_ascii c).

Definition dec_digit (c : ascii) : option Z :=
  if (48 <=? code c) && (code c <=? 57) then Some (code c - 48) else None.

Definition hex_value (c : ascii) : option Z :=
  if (48 <=? code c) && (code c <=? 57) then Some (code c - 48)
  else if (97 <=? code c) && (code c <=? 102) then Some (code c - 87)
  else if (65 <=? code c) && (code c <=? 70) then Some (code c - 55)
  else None.

(** [dtoi] on the whole of [s]: at least one digit, nothing else, below [0xFFFFFF]. *)
Fixpoint dtoi_loop (s : string) (n : Z) : option Z :=
  match s with
  | "" => Some n
  | String c s' =>
    match dec_digit c with
    | None => None
    | Some d => let n := n * 10 + d in if 16777215 <=? n then None else dtoi_loop s' n
    end
  end.

Definition dtoi (s : string) : option Z :=
  match s with "" => None | _ => dtoi_loop s 0 end.

(** ** Parsing addresses *)

(** [parseIPv4Fields]: [digLen] and [val] of the current octet, [pos] closed
    ones in [fields]. *)
Fixpoint parse4_loop (s : string) (val digLen : Z) (fields : list Z) : option (list Z) :=
  match s with
  | "" => if (length fields =? 3)%nat && negb (digLen =? 0) then Some (fields ++ [val]) else None
  | String c s' =>
    match dec_digit c with
    | Some d =>
      if (digLen =? 1) && (val =? 0) then None
      else let val := val * 10 + d in
           if 255 <? val then None else parse4_loop s' val (digLen + 1) fields
    | None =>
      if Ascii.eqb c "." then
        if digLen =? 0 then None
        else if (length fields =? 3)%nat then None
        else parse4_loop s' 0 0 (fields ++ [val])
      else None
    end
  end.

Definition parseIPv4 (s : string) : option (list Z) := parse4_loop s 0 0 [].

(** One hexadecimal group: its value, its digits and what follows. *)
Fixpoint hex_group (s : string) (off acc : Z) : option (Z * Z * string) :=
  match s with
  | "" => Some (acc, off, "")
  | String c s' =>
    match hex_value c with
    | None => Some (acc, off, s)
    | Some d =>
      let acc := acc * 16 + d in
      if (3 <? off) || (65535 <? acc) then None else hex_group s' (off + 1) acc
    end
  end.

(** The loop of [parseIPv6] over the groups; [ip] holds the bytes so far, and
    each turn adds at least two, so eight units of fuel are enough. *)
Fixpoint parse6_loop (fuel : nat) (s : string) (ip : list Z) (ellipsis : option nat)
    : option (string * list Z * option nat) :=
  match fuel with
  | O => Some (s, ip, ellipsis)
  | S fuel =>
    match hex_group s 0 0 with
    | None => None
    | Some (acc, off, rest) =>
      if off =? 0 then None
      else
        match rest with
        | "" => Some ("", ip ++ [acc / 256; acc mod 256], ellipsis)
        | String c rest' =>
          if Ascii.eqb c "." then
            if match ellipsis with None => negb (length ip =? 12)%nat | Some _ => false end then None
            else if (12 <? length ip)%nat then None
            else match parseIPv4 s with
                 | None => None
                 | Some v4 => Some ("", ip ++ v4, ellipsis)
                 end
          else if negb (Ascii.eqb c ":") then None
          else
            let ip := ip ++ [acc / 256; acc mod 256] in
            match rest' with
            | "" => None
            | String c2 rest2 =>
              if Ascii.eqb c2 ":" then
                match ellipsis with
                | Some _ => None
                | None =>
                  match rest2 with
                  | "" => Some ("", ip, Some (length ip))
                  | _ => parse6_loop fuel rest2 ip (Some (length ip))
                  end
                end
              else parse6_loop fuel rest' ip ellipsis
            end
        end
    end
  end.

(** What [parseIPv6] does after the loop: open the ellipsis with zeros. *)
Definition expand6 (r : option (string * list Z * option nat)) : option (list Z) :=
  match r with
  | Some ("", ip, ellipsis) =>
    match ellipsis with
    | None => if (length ip =? 16)%nat then Some ip else None
    | Some e =>
      if (length ip <? 16)%nat then Some (take e ip ++ replicate (16 - length ip) 0 ++ drop e ip)
      else None
    end
  | _ => None
  end.

Definition parseIPv6 (s : string) : option (list Z) :=
  if HasPrefix s "::" then
    match drop_str 2 s with
    | "" => Some (replicate 16 0)
    | s => expand6 (parse6_loop 8 s [] (Some 0%nat))
    end
  else expand6 (parse6_loop 8 s [] None).

(** [netip.ParseAddr] of an address without a zone: the first ['.'] or [':']
    decides the family.  Every caller here refuses a zone, so ['%'] is an error. *)
Fixpoint addr_family (s : string) : option ascii :=
  match s with
  | "" => None
  | String c s' => if Ascii.eqb c "." || Ascii.eqb c ":" then Some c else addr_family s'
  end.

Definition ParseAddr (s : string) : option (list Z) :=
  if negb (no_byte "%" s) then None
  else match addr_family s with
       | Some c => if Ascii.eqb c "." then parseIPv4 s else parseIPv6 s
       | None => None
       end.

Definition As16 (ip : list Z) : IP := default [] (To16 ip).

Definition ParseIP (s : string) : option IP := option_map As16 (ParseAddr s).

Definition ParseCIDR (s : string) : option (IP * IPNet) :=
  match IndexByte s "/" with
  | None => None
  | Some i =>
    let addr := take_str i s in
    let mask := drop_str (S i) s in
    match ParseAddr addr, dtoi mask with
    | Some ip, Some n =>
      let bits := Z.of_nat (length ip) * 8 in
      if bits <? n then None
      else
        let m := CIDRMask n bits in
        Some (As16 ip, mkIPNet (IP_Mask (As16 ip) m) m)
    | _, _ => None
    end
  end.

(** ** Printing *)

Fixpoint joinWith (sep : string) (l : list string) : string :=
  match l with
  | [] => ""
  | [x] => x
  | x :: l' => x +:+ sep +:+ joinWith sep l'
  end.

Definition hexDigit (d : Z) : ascii :=
  if d <? 10 then ascii_of_N (Z.to_N (48 + d)) else ascii_of_N (Z.to_N (87 + d)).

(** [appendHex]: no leading zeros. *)
Definition appendHex (x : Z) : string :=
  let d3 := String (hexDigit (x / 4096)) "" in
  let d2 := String (hexDigit (x / 256 mod 16)) "" in
  let d1 := String (hexDigit (x / 16 mod 16)) "" in
  let d0 := String (hexDigit (x mod 16)) "" in
  (if 4096 <=? x then d3 else "") +:+ (if 256 <=? x then d2 else "")
    +:+ (if 16 <=? x then d1 else "") +:+ d0.

Fixpoint groups_of (ip : list Z) : list Z :=
  match ip with
  | a :: b :: rest => a * 256 + b :: groups_of rest
  | _ => []
  end.

Fixpoint zeros_from (l : list Z) : nat :=
  match l with
  | x :: l' => if x =? 0 then S (zeros_from l') else O
  | [] => O
  end.

(** The first longest run of at least two zero groups: its start and length. *)
Fixpoint zero_run (i : nat) (gs : list Z) (best : option (nat * nat)) : option (nat * nat) :=
  match gs with
  | [] => best
  | _ :: gs' =>
    let l := zeros_from gs in
    let best' :=
      if (2 <=? l)%nat && match best with Some (_, k) => (k <? l)%nat | None => true end
      then Some (i, l) else best in
    zero_run (S i) gs' best'
  end.

Definition string6 (ip : IP) : string :=
  let gs := groups_of ip in
  match zero_run 0 gs None with
  | None => joinWith ":" (map appendHex gs)
  | Some (zs, l) =>
    joinWith ":" (map appendHex (take zs gs)) +:+ "::"
      +:+ joinWith ":" (map appendHex (drop (zs + l) gs))
  end.

Definition string4 (ip : IP) : string := joinWith "." (map (fun b => Itoa (Z.to_nat b)) ip).

(** [IP.String] of a 4- or 16-byte address. *)
Definition IP_String (ip : IP) : string :=
  match To4 ip with
  | Some v4 => string4 v4
  | None => string6 ip
  end.

(** [IPNet.String] of a network whose mask is a prefix. *)
Definition IPNet_String (n : IPNet) : string :=
  match networkNumberAndMask n with
  | None => "<nil>"
  | Some (nn, m) => IP_String nn +:+ "/" +:+ Itoa (Z.to_nat (simpleMaskLength 0 m))
  end.

Example text4 : IPNet_String (mk_net (10 * 2 ^ 24) 8 32) = "10.0.0.0/8"%string.
Proof. vm_compute. reflexivity. Qed.
Example text6 : IPNet_String (mk_net (0x20010db8 * 2 ^ 96 + 5 * 2 ^ 16) 112 128) = "2001:db8::5:0/112"%string.
Proof. vm_compute. reflexivity. Qed.
Example parse6_text : option_map snd (ParseCIDR "2001:db8::5:0/112")
  = Some (mk_net (0x20010db8 * 2 ^ 96 + 5 * 2 ^ 16) 112 128).
Proof. vm_compute. reflexivity. Qed.
Example parse4_masks : option_map snd (ParseCIDR "10.1.2.3/16") = Some (mk_net (10 * 2 ^ 24 + 2 ^ 16) 16 32).
Proof. vm_compute. reflexivity. Qed.
Example parse_bad : (ParseCIDR "10.01.0.0/8", ParseCIDR "10.0.0/8", ParseCIDR "10.0.0.0/33", ParseCIDR "1::2::3/64",
   ParseCIDR "10.0.0.0") = (None, None, None, None, None).
Proof. vm_compute. reflexivity. Qed.
Example parse_embedded : option_map snd (ParseCIDR "::ffff:1.2.3.4/128")
  = Some (mkIPNet [0;0;0;0;0;0;0;0;0;0;255;255;1;2;3;4] (CIDRMask 128 128)).
Proof. vm_compute. reflexivity. Qed.

(** ** Reading back one number *)

(** The scanners run over a digit string whatever follows it. *)
Fixpoint run4 (s : string) (val digLen : Z) : option (Z * Z) :=
  match s with
  | "" => Some (val, digLen)
  | String c s' =>
    match dec_digit c with
    | Some d =>
      if (digLen =? 1) && (val =? 0) then None
      else let val := val * 10 + d in if 255 <? val then None else run4 s' val (digLen + 1)
    | None => None
    end
  end.

Lemma parse4_run s rest val digLen fields v d :
  run4 s val digLen = Some (v, d) -> parse4_loop (s +:+ rest) val digLen fields = parse4_loop rest v d fields.
Proof.
  revert val digLen. induction s as [|c s IH]; intros val digLen; simpl.
  { by intros [= -> ->]. }
  destruct (dec_digit c); [|done]. destruct (_ && _); [done|]. destruct (255 <? _); [done|]. apply IH.
Qed.

Definition upto (n : Z) (P : Z -> bool) : bool := forallb P (seqZ 0 n).

Lemma upto_spec n P x : upto n P = true -> 0 <= x < n -> P x = true.
Proof.
  unfold upto. rewrite forallb_forall. intros H Hx. apply H.
  apply list_elem_of_In, elem_of_seqZ. lia.
Qed.

Definition dec (b : Z) : string := Itoa (Z.to_nat b).

Lemma run4_dec b : 0 <= b < 256 ->
  exists d, 0 < d /\ run4 (dec b) 0 0 = Some (b, d).
Proof.
  intros Hb. pose proof (upto_spec 256 (fun b => match run4 (dec b) 0 0 with
    | Some (v, d) => (v =? b) && (0 <? d) | None => false end) b ltac:(vm_compute; reflexivity) Hb) as H.
  cbv beta in H. destruct (run4 (dec b) 0 0) as [[v d]|]; [|done]. zbool. subst. eauto.
Qed.

Lemma dtoi_dec b : 0 <= b <= 128 -> dtoi (dec b) = Some b.
Proof.
  intros Hb. pose proof (upto_spec 129 (fun b => match dtoi (dec b) with Some n => n =? b | None => false end) b
    ltac:(vm_compute; reflexivity) ltac:(lia)) as H.
  cbv beta in H. destruct (dtoi (dec b)); [|done]. zbool. by subst.
Qed.

Lemma dec_no_byte c b : no_byte c "0123456789" = true -> no_byte c (dec b) = true.
Proof.
  intros H. unfold dec, Itoa. simpl in H. rewrite !andb_true_iff in H.
  destruct H as (?&?&?&?&?&?&?&?&?&?&_).
  induction (N.to_uint _); simpl; rewrite ?andb_true_iff; auto.
Qed.

Fixpoint hrun (s : string) (off acc : Z) : option (Z * Z) :=
  match s with
  | "" => Some (acc, off)
  | String c s' =>
    match hex_value c with
    | None => None
    | Some d =>
      let acc := acc * 16 + d in
      if (3 <? off) || (65535 <? acc) then None else hrun s' (off + 1) acc
    end
  end.

(** What follows a group: the end, or a colon. *)
Definition group_end (rest : string) : Prop := rest = "" \/ exists r, rest = String ":" r.

Lemma hex_group_run s rest off acc v d :
  group_end rest -> hrun s off acc = Some (v, d) -> hex_group (s +:+ rest) off acc = Some (v, d, rest).
Proof.
  intros Hrest. revert off acc. induction s as [|c s IH]; intros off acc; simpl.
  { intros [= -> ->]. by destruct Hrest as [-> | [r ->]]. }
  destruct (hex_value c); [|done]. destruct (_ || _); [done|]. apply IH.
Qed.

Definition is_group (g : Z) : Prop := 0 <= g < 65536.

Lemma hexDigit_facts d : 0 <= d < 16 ->
  hex_value (hexDigit d) = Some d
  /\ forallb (fun c => negb (Ascii.eqb c (hexDigit d))) [".";":";"%";"/"]%char = true.
Proof.
  intros Hd. pose proof (upto_spec 16 (fun d => match hex_value (hexDigit d) with
      | Some v => (v =? d) && forallb (fun c => negb (Ascii.eqb c (hexDigit d))) [".";":";"%";"/"]%char
      | None => false end) d ltac:(vm_compute; reflexivity) Hd) as H.
  cbv beta in H. destruct (hex_value (hexDigit d)); [|done]. apply andb_true_iff in H as [H ?].
  apply Z.eqb_eq in H. by subst.
Qed.

Definition clean (s : string) : bool :=
  no_byte "." s && no_byte ":" s && no_byte "%" s && no_byte "/" s.

Lemma clean_spec s : clean s = true ->
  no_byte "." s = true /\ no_byte ":" s = true /\ no_byte "%" s = true /\ no_byte "/" s = true.
Proof. unfold clean. rewrite !andb_true_iff. tauto. Qed.

Lemma hex_cons d s off acc v k :
  0 <= d < 16 -> off <= 3 -> acc * 16 + d <= 65535 ->
  hrun s (off + 1) (acc * 16 + d) = Some (v, k) /\ clean s = true ->
  hrun (String (hexDigit d) s) off acc = Some (v, k) /\ clean (String (hexDigit d) s) = true.
Proof.
  intros Hd Hoff Hacc [Hs Hc]. destruct (hexDigit_facts d Hd) as [Hv Hn]. simpl. rewrite Hv.
  replace ((3 <? off) || (65535 <? acc * 16 + d)) with false
    by (symmetry; apply orb_false_iff; split; apply Z.ltb_ge; lia).
  split; [done|]. apply clean_spec in Hc as (Hc1 & Hc2 & Hc3 & Hc4).
  cbn in Hn. rewrite !andb_true_iff in Hn. destruct Hn as (H1 & H2 & H3 & H4 & _).
  unfold clean. simpl. by rewrite H1, H2, H3, H4, Hc1, Hc2, Hc3, Hc4.
Qed.

Lemma app_cons1 (c : ascii) s : String c "" +:+ s = String c s.
Proof. done. Qed.
Lemma app_nil1 (s : string) : "" +:+ s = s.
Proof. done. Qed.

Lemma hrun_hex g : is_group g ->
  (exists d, 0 < d /\ hrun (appendHex g) 0 0 = Some (g, d)) /\ clean (appendHex g) = true.
Proof.
  intros Hg. unfold is_group in Hg.
  cut (exists d, 0 < d /\ hrun (appendHex g) 0 0 = Some (g, d) /\ clean (appendHex g) = true).
  { intros (d & ? & ? & ?). split; [by exists d | done]. }
  unfold appendHex.
  pose proof (Z.div_mod g 16 ltac:(lia)). pose proof (Z.mod_pos_bound g 16 ltac:(lia)).
  pose proof (Z.div_mod (g / 16) 16 ltac:(lia)). pose proof (Z.mod_pos_bound (g / 16) 16 ltac:(lia)).
  pose proof (Z.div_mod (g / 256) 16 ltac:(lia)). pose proof (Z.mod_pos_bound (g / 256) 16 ltac:(lia)).
  assert (g / 16 / 16 = g / 256) by (by rewrite Z.div_div by lia).
  assert (g / 256 / 16 = g / 4096) by (by rewrite Z.div_div by lia).
  assert (0 <= g / 4096) by (apply Z.div_pos; lia).
  repeat zcase; try lia; rewrite ?app_cons1, ?app_nil1;
    [exists 4 | exists 3 | exists 2 | exists 1]; (split; [lia|]);
    repeat (apply hex_cons; [lia | lia | lia |]); cbn [hrun]; (split; [|done]);
    do 2 f_equal; lia.
Qed.

Lemma hex_first g : is_group g -> exists c s, appendHex g = String c s /\ Ascii.eqb c ":" = false.
Proof.
  intros Hg. destruct (hrun_hex g Hg) as [(d & Hd & Hr) Hc].
  destruct (appendHex g) as [|c s]; [cbn in Hr; injection Hr as _ <-; lia|].
  exists c, s. split; [done|]. apply clean_spec in Hc as (_ & Hc & _). simpl in Hc.
  apply andb_true_iff in Hc as [Hc _]. rewrite Ascii.eqb_sym. by apply negb_true_iff.
Qed.

(** ** Reading back an address *)

Lemma no_byte_joinWith c sep l :
  no_byte c sep = true -> Forall (fun x => no_byte c x = true) l -> no_byte c (joinWith sep l) = true.
Proof.
  intros Hsep. induction 1 as [|x l Hx Hl IH]; [done|]. cbn [joinWith].
  destruct l; [done|]. by rewrite !no_byte_app, Hx, Hsep, IH.
Qed.

Lemma parse4_dot s val d fields :
  0 < d -> (length fields =? 3)%nat = false ->
  parse4_loop ("." +:+ s) val d fields = parse4_loop s 0 0 (fields ++ [val]).
Proof.
  intros Hd Hf. change ("." +:+ s) with (String "." s). cbn [parse4_loop].
  change (dec_digit ".") with (@None Z). cbn [Ascii.eqb Bool.eqb].
  destruct (Z.eqb_spec d 0); [lia|]. by rewrite Hf.
Qed.

Lemma parseIPv4_string4 ip :
  length ip = 4%nat -> bytes_ok ip -> parseIPv4 (string4 ip) = Some ip.
Proof.
  destruct ip as [|a [|b [|c [|d [|]]]]]; [done ..| | done]. intros _ Hok.
  unfold bytes_ok, byte_ok in Hok. rewrite !Forall_cons in Hok. destruct Hok as (Ha & Hb & Hc & Hd & _).
  destruct (run4_dec a Ha) as (ka & Hka & Ra), (run4_dec b Hb) as (kb & Hkb & Rb),
    (run4_dec c Hc) as (kc & Hkc & Rc), (run4_dec d Hd) as (kd & Hkd & Rd).
  unfold parseIPv4, string4. cbn [map joinWith]. fold (dec a) (dec b) (dec c) (dec d).
  rewrite (parse4_run _ _ _ _ _ _ _ Ra), parse4_dot by done.
  rewrite (parse4_run _ _ _ _ _ _ _ Rb), parse4_dot by done.
  rewrite (parse4_run _ _ _ _ _ _ _ Rc), parse4_dot by done.
  rewrite <- (append_nil_str (dec d)), (parse4_run _ _ _ _ _ _ _ Rd). cbn.
  by destruct (Z.eqb_spec kd 0); [lia|].
Qed.

Fixpoint bytes_of (gs : list Z) : list Z :=
  match gs with
  | [] => []
  | g :: gs => g / 256 :: g mod 256 :: bytes_of gs
  end.

Lemma bytes_of_app a b : bytes_of (a ++ b) = bytes_of a ++ bytes_of b.
Proof. induction a; cbn; [done | by f_equal; f_equal]. Qed.

Lemma length_bytes_of gs : length (bytes_of gs) = (2 * length gs)%nat.
Proof. induction gs; cbn; lia. Qed.

Lemma bytes_of_zeros n : bytes_of (replicate n 0) = replicate (2 * n) 0.
Proof. induction n; [done|]. replace (2 * S n)%nat with (S (S (2 * n))) by lia. cbn. by f_equal; f_equal. Qed.

Definition hexes (gs : list Z) : string := joinWith ":" (map appendHex gs).

Lemma hexes_cons g h gs : hexes (g :: h :: gs) = appendHex g +:+ String ":" (hexes (h :: gs)).
Proof. done. Qed.

Lemma hexes_head g gs : is_group g -> exists c s, hexes (g :: gs) = String c s /\ Ascii.eqb c ":" = false.
Proof.
  intros Hg. destruct (hex_first g Hg) as (c & s & He & Hc).
  destruct gs as [|h gs]; [by exists c, s|]. rewrite hexes_cons, He. by exists c, (s +:+ String ":" (hexes (h :: gs))).
Qed.

(** The groups of an address with nothing after them. *)
Lemma parse6_groups gs : forall fuel ip ell,
  gs <> [] -> Forall is_group gs -> (length gs <= fuel)%nat ->
  parse6_loop fuel (hexes gs) ip ell = Some ("", ip ++ bytes_of gs, ell).
Proof.
  induction gs as [|g gs IH]; intros fuel ip ell Hne Hgs Hf; [done|].
  apply Forall_cons in Hgs as [Hg Hgs]. destruct fuel as [|fuel]; [cbn in Hf; lia|].
  destruct (hrun_hex g Hg) as [(k & Hk & Hr) _]. cbn [parse6_loop].
  destruct gs as [|h gs].
  - change (hexes [g]) with (appendHex g). rewrite <- (append_nil_str (appendHex g)).
    rewrite (hex_group_run _ _ _ _ _ _ ltac:(by left) Hr). by destruct (Z.eqb_spec k 0); [lia|].
  - rewrite hexes_cons. rewrite (hex_group_run _ _ _ _ _ _ ltac:(right; eauto) Hr).
    destruct (Z.eqb_spec k 0); [lia|]. apply Forall_cons in Hgs as Hgs'. destruct Hgs' as [Hh _].
    destruct (hexes_head h gs Hh) as (c & s & He & Hc). cbn [Ascii.eqb Bool.eqb negb].
    specialize (IH fuel (ip ++ [g / 256; g mod 256]) ell ltac:(done) Hgs ltac:(cbn in Hf |- *; lia)).
    rewrite He in IH |- *. rewrite Hc. rewrite IH. by rewrite <- app_assoc.
Qed.

(** The groups before an ellipsis. *)
Lemma parse6_ellipsis gs : forall fuel ip tail,
  gs <> [] -> Forall is_group gs -> (length gs <= fuel)%nat ->
  parse6_loop fuel (hexes gs +:+ "::" +:+ tail) ip None
  = let ip := ip ++ bytes_of gs in
    match tail with
    | "" => Some ("", ip, Some (length ip))
    | _ => parse6_loop (fuel - length gs) tail ip (Some (length ip))
    end.
Proof.
  induction gs as [|g gs IH]; intros fuel ip tail Hne Hgs Hf; [done|].
  apply Forall_cons in Hgs as [Hg Hgs]. destruct fuel as [|fuel]; [cbn in Hf; lia|].
  destruct (hrun_hex g Hg) as [(k & Hk & Hr) _]. cbn [parse6_loop].
  destruct gs as [|h gs].
  - change (hexes [g]) with (appendHex g).
    rewrite (hex_group_run _ ("::" +:+ tail) _ _ _ _ ltac:(right; by eexists) Hr). destruct (Z.eqb_spec k 0); [lia|].
    simpl. destruct tail; [done|]. by rewrite Nat.sub_0_r.
  - rewrite hexes_cons, append_assoc_str.
    change (String ":" (hexes (h :: gs)) +:+ "::" +:+ tail) with (String ":" (hexes (h :: gs) +:+ "::" +:+ tail)).
    rewrite (hex_group_run _ _ _ _ _ _ ltac:(right; eauto) Hr).
    destruct (Z.eqb_spec k 0); [lia|]. apply Forall_cons in Hgs as Hgs'. destruct Hgs' as [Hh _].
    destruct (hexes_head h gs Hh) as (c & s & He & Hc). cbn [Ascii.eqb Bool.eqb negb].
    specialize (IH fuel (ip ++ [g / 256; g mod 256]) tail ltac:(done) Hgs ltac:(cbn in Hf |- *; lia)).
    rewrite He in IH |- *. change (String c s +:+ ?t) with (String c (s +:+ t)) in *.
    cbn match. rewrite Hc, IH, <- app_assoc. done.
Qed.

(** ** The zero run *)

Lemma zeros_from_take gs : take (zeros_from gs) gs = replicate (zeros_from gs) 0.
Proof. induction gs as [|g gs IH]; [done|]. cbn. destruct (Z.eqb_spec g 0) as [-> |]; [|done]. cbn. by rewrite IH. Qed.

Lemma zeros_from_le gs : (zeros_from gs <= length gs)%nat.
Proof. induction gs as [|g gs IH]; cbn; [lia|]. destruct (g =? 0); lia. Qed.

Definition run_ok (gs : list Z) (r : option (nat * nat)) : Prop :=
  forall zs l, r = Some (zs, l) ->
    (2 <= l)%nat /\ (zs + l <= length gs)%nat /\ take l (drop zs gs) = replicate l 0.

Lemma zero_run_ok gs pre rest best :
  gs = pre ++ rest -> run_ok gs best -> run_ok gs (zero_run (length pre) rest best).
Proof.
  revert pre best. induction rest as [|x rest IH]; intros pre best Hgs Hb; [done|]. cbn [zero_run].
  replace (S (length pre)) with (length (pre ++ [x])) by (rewrite length_app; cbn; lia).
  apply IH; [by rewrite <- app_assoc|]. destruct (_ && _) eqn:E; [|done].
  apply andb_true_iff in E as [E%Nat.leb_le _]. intros zs l [= <- <-]. subst gs.
  pose proof (zeros_from_le (x :: rest)). rewrite length_app, drop_app_length.
  change (if x =? 0 then S (zeros_from rest) else O) with (zeros_from (x :: rest)).
  split; [done|]. split; [lia | apply zeros_from_take].
Qed.

Lemma zero_run_split gs zs l :
  zero_run 0 gs None = Some (zs, l) ->
  (2 <= l)%nat /\ gs = take zs gs ++ replicate l 0 ++ drop (zs + l) gs /\ (zs + l <= length gs)%nat.
Proof.
  intros H. destruct (zero_run_ok gs [] gs None eq_refl ltac:(done) zs l H) as (Hl & Hle & Hz).
  split; [done|]. split; [|done]. rewrite <- Hz, <- drop_drop, take_drop. by rewrite take_drop.
Qed.

Lemma groups_of_bytes ip n :
  length ip = (2 * n)%nat -> bytes_ok ip ->
  bytes_of (groups_of ip) = ip /\ Forall is_group (groups_of ip) /\ length (groups_of ip) = n.
Proof.
  revert ip. induction n as [|n IH]; intros ip Hl Hok; [by destruct ip|].
  destruct ip as [|a [|b ip]]; [done | cbn in Hl; lia |].
  unfold bytes_ok, byte_ok in Hok. rewrite !Forall_cons in Hok. destruct Hok as (Ha & Hb & Hok).
  destruct (IH ip ltac:(cbn in Hl; lia) Hok) as (H1 & H2 & H3). cbn [groups_of bytes_of].
  rewrite H1, Z.div_add_l, Z.div_small, Z.add_0_r by lia.
  rewrite Z.add_comm, Z.mod_add, Z.mod_small by lia.
  split; [done|]. split; [|cbn; by rewrite H3]. constructor; [unfold is_group; lia | done].
Qed.

Lemma hexes_no_ellipsis g gs rest : is_group g -> HasPrefix (hexes (g :: gs) +:+ rest) "::" = false.
Proof.
  intros Hg. destruct (hexes_head g gs Hg) as (c & s & -> & Hc).
  change (String c s +:+ rest) with (String c (s +:+ rest)). cbn [HasPrefix].
  rewrite Ascii.eqb_sym in Hc. by rewrite Hc.
Qed.

Lemma parseIPv6_string6 ip :
  length ip = 16%nat -> bytes_ok ip -> parseIPv6 (string6 ip) = Some ip.
Proof.
  intros Hl Hok. destruct (groups_of_bytes ip 8 Hl Hok) as (Hb & Hg & Hn). unfold string6.
  set (gs := groups_of ip) in *. fold (hexes gs).
  destruct (zero_run 0 gs None) as [[zs l]|] eqn:Hrun.
  2: { destruct gs as [|g gs']; [done|]. apply Forall_cons in Hg as Hg'. destruct Hg' as [Hg0 _].
       unfold parseIPv6. rewrite <- (append_nil_str (hexes (g :: gs'))), hexes_no_ellipsis by done.
       rewrite append_nil_str, parse6_groups by (done || lia). cbn [expand6 app]. rewrite Hb.
       by rewrite Hl. }
  destruct (zero_run_split gs zs l Hrun) as (Hl2 & Hsplit & Hle).
  fold (hexes (take zs gs)). fold (hexes (drop (zs + l) gs)).
  assert (Ha : Forall is_group (take zs gs)) by by apply Forall_take.
  assert (Hd : Forall is_group (drop (zs + l) gs)) by by apply Forall_drop.
  assert (Hla : length (take zs gs) = zs) by (rewrite length_take; lia).
  assert (Hld : length (drop (zs + l) gs) = (8 - zs - l)%nat) by (rewrite length_drop; lia).
  assert (Hip : ip = bytes_of (take zs gs) ++ replicate (2 * l) 0 ++ bytes_of (drop (zs + l) gs)).
  { by rewrite <- Hb, Hsplit at 1; rewrite !bytes_of_app, bytes_of_zeros. }
  set (A := take zs gs) in *. set (D := drop (zs + l) gs) in *. clearbody A D. clear Hsplit Hrun.
  assert (Hexp : expand6 (Some ("", bytes_of A ++ bytes_of D, Some (length (bytes_of A)))) = Some ip).
  { cbn [expand6]. rewrite length_app, !length_bytes_of, Hla, Hld.
    destruct (Nat.ltb_spec (2 * zs + 2 * (8 - zs - l)) 16); [|lia].
    rewrite <- Hla, <- length_bytes_of, take_app_length, drop_app_length, length_bytes_of, Hla.
    rewrite Hip. by replace (16 - (2 * zs + 2 * (8 - zs - l)))%nat with (2 * l)%nat by lia. }
  destruct A as [|g A].
  - cbn [hexes map joinWith]. change ("" +:+ "::" +:+ hexes D) with ("::" +:+ hexes D).
    unfold parseIPv6. rewrite HasPrefix_app, (drop_str_app "::"). cbn [bytes_of app length] in Hexp.
    destruct D as [|d D]; [by rewrite <- Hexp|].
    apply Forall_cons in Hd as Hd'. destruct Hd' as [Hd0 _].
    destruct (hexes_head d D Hd0) as (c & s & He & _).
    assert (Hp := parse6_groups (d :: D) 8 [] (Some 0%nat) ltac:(done) Hd ltac:(lia)).
    rewrite He in Hp |- *. rewrite Hp. exact Hexp.
  - apply Forall_cons in Ha as Ha'. destruct Ha' as [Hg0 _].
    unfold parseIPv6. rewrite hexes_no_ellipsis by done.
    rewrite parse6_ellipsis by (done || lia). cbn [app].
    destruct D as [|d D].
    + change (hexes []) with "". cbv zeta match. by rewrite app_nil_r in Hexp.
    + apply Forall_cons in Hd as Hd'. destruct Hd' as [Hd0 _].
      destruct (hexes_head d D Hd0) as (c & s & He & _).
      assert (Hp := parse6_groups (d :: D) (8 - length (g :: A)) (bytes_of (g :: A))
                      (Some (length (bytes_of (g :: A)))) ltac:(done) Hd ltac:(lia)).
      rewrite He in Hp |- *. cbv zeta match. by rewrite Hp.
Qed.

(** ** The round trip *)

Lemma addr_family_dot a r :
  no_byte "." a = true -> no_byte ":" a = true -> addr_family (a +:+ String "." r) = Some "."%char.
Proof.
  induction a as [|c a IH]; [done|]. cbn [no_byte]. rewrite !andb_true_iff. intros [H1 H2] [H3 H4].
  change (String c a +:+ String "." r) with (String c (a +:+ String "." r)). cbn [addr_family].
  rewrite (Ascii.eqb_sym c), (Ascii.eqb_sym c). apply negb_true_iff in H1, H3. rewrite H1, H3. auto.
Qed.

Lemma addr_family_colon s :
  no_byte "." s = true -> no_byte ":" s = false -> addr_family s = Some ":"%char.
Proof.
  induction s as [|c s IH]; [done|]. cbn [no_byte addr_family]. rewrite andb_true_iff. intros [H1 H2] H3.
  rewrite (Ascii.eqb_sym c), (Ascii.eqb_sym c). apply negb_true_iff in H1. rewrite H1. cbn [orb].
  destruct (Ascii.eqb_spec ":" c) as [<- |]; [done|]. by apply IH.
Qed.

Lemma string4_no_byte c ip :
  no_byte c "0123456789" = true -> no_byte c "." = true -> no_byte c (string4 ip) = true.
Proof.
  intros Hd Hs. apply no_byte_joinWith; [done|]. apply Forall_map, Forall_true. intros b. by apply dec_no_byte.
Qed.

Lemma hexes_no_byte c gs :
  (forall s, clean s = true -> no_byte c s = true) -> no_byte c ":" = true ->
  Forall is_group gs -> no_byte c (hexes gs) = true.
Proof.
  intros Hc Hs Hg. apply no_byte_joinWith; [done|]. apply Forall_map.
  eapply Forall_impl; [exact Hg|]. intros g H. apply Hc. by apply hrun_hex.
Qed.

Lemma string6_no_byte c ip :
  (forall s, clean s = true -> no_byte c s = true) -> no_byte c ":" = true ->
  length ip = 16%nat -> bytes_ok ip -> no_byte c (string6 ip) = true.
Proof.
  intros Hc Hs Hl Hok. destruct (groups_of_bytes ip 8 Hl Hok) as (_ & Hg & _).
  assert (no_byte c "::" = true) as Hcc by (cbn in Hs |- *; by destruct (Ascii.eqb c ":")).
  unfold string6. destruct (zero_run _ _ _) as [[zs l]|].
  - rewrite !no_byte_app, Hcc. fold (hexes (take zs (groups_of ip))).
    fold (hexes (drop (zs + l) (groups_of ip))).
    rewrite !hexes_no_byte by (done || by apply Forall_take || by apply Forall_drop). done.
  - by apply hexes_no_byte.
Qed.

Lemma string6_colon ip : length ip = 16%nat -> bytes_ok ip -> no_byte ":" (string6 ip) = false.
Proof.
  intros Hl Hok. destruct (groups_of_bytes ip 8 Hl Hok) as (_ & Hg & Hn). unfold string6.
  destruct (zero_run _ _ _) as [[zs l]|].
  - rewrite !no_byte_app. change (no_byte ":" "::") with false. by rewrite andb_false_r.
  - destruct (groups_of ip) as [|g [|h gs]]; [done | done |]. fold (hexes (g :: h :: gs)).
    rewrite hexes_cons, no_byte_app. change (no_byte ":" (String ":" ?s)) with false. by rewrite andb_false_r.
Qed.

Lemma clean_no_byte s :
  clean s = true -> no_byte "." s = true /\ no_byte "%" s = true /\ no_byte "/" s = true.
Proof. intros (? & ? & ? & ?)%clean_spec. done. Qed.

(** The text of an address of either family reads back. *)
Lemma ParseAddr_IP_String s bits :
  family_bits bits -> 0 <= s < 2 ^ bits -> (bits = 128 -> ~ v4mapped s) ->
  ParseAddr (IP_String (encode (Z.to_nat (bits / 8)) s)) = Some (encode (Z.to_nat (bits / 8)) s)
  /\ no_byte "/" (IP_String (encode (Z.to_nat (bits / 8)) s)) = true.
Proof.
  intros Hb Hs Hn. unfold IP_String. rewrite To4_encode by done.
  pose proof (encode_ok (Z.to_nat (bits / 8)) s) as Hok. pose proof (length_encode (Z.to_nat (bits / 8)) s) as Hl.
  destruct Hb as [-> | ->]; cbn [Z.eqb Pos.eqb].
  - change (Z.to_nat (32 / 8)) with 4%nat in *. unfold ParseAddr.
    rewrite !string4_no_byte by done. cbn [negb]. split; [|done].
    assert (addr_family (string4 (encode 4 s)) = Some "."%char) as ->.
    { destruct (encode 4 s) as [|a [|b l]]; [done | done |].
      change (string4 (a :: b :: l)) with (dec a +:+ String "." (string4 (b :: l))).
      apply addr_family_dot; by apply dec_no_byte. }
    by apply parseIPv4_string4.
  - change (Z.to_nat (128 / 8)) with 16%nat in *. unfold ParseAddr.
    rewrite !string6_no_byte by (done || (intros; by apply clean_no_byte)). cbn [negb]. split; [|done].
    rewrite addr_family_colon.
    + by apply parseIPv6_string6.
    + apply string6_no_byte; try done. intros; by apply clean_no_byte.
    + by apply string6_colon.
Qed.

Lemma IndexByte_split a r : no_byte "/" a = true ->
  IndexByte (a +:+ String "/" r) "/" = Some (String.length a)
  /\ take_str (String.length a) (a +:+ String "/" r) = a
  /\ drop_str (S (String.length a)) (a +:+ String "/" r) = r.
Proof.
  intros H. split; [by apply IndexByte_app|]. split; [apply take_str_app|].
  clear H. induction a as [|c a IH]; [done|]. exact IH.
Qed.

Lemma IP_Mask_As16 s ones bits :
  valid_block s ones bits ->
  IP_Mask (As16 (encode (Z.to_nat (bits / 8)) s)) (CIDRMask ones bits) = encode (Z.to_nat (bits / 8)) s.
Proof.
  intros V. destruct (vb_facts _ _ _ V) as (Hb & Ho & _ & Hs & _ & He & Ha & Hn).
  rewrite <- (round_down_aligned s (bits - ones)) at 2 by done. rewrite <- IP_Mask_encode by (done || lia).
  destruct Hb as [-> | ->].
  - change (Z.to_nat (32 / 8)) with 4%nat.
    assert (As16 (encode 4 s) = v4InV6Prefix ++ encode 4 s) as -> by (unfold As16, To16; by rewrite length_encode).
    unfold IP_Mask. rewrite length_CIDRMask by (lia || by left). rewrite length_app, length_encode.
    cbn [length v4InV6Prefix Nat.eqb IPv4len IPv6len Nat.add andb].
    change (Z.to_nat (32 / 8)) with 4%nat. cbn [Nat.eqb andb].
    rewrite take_app_length', drop_app_length' by done. rewrite bool_decide_true by done.
    change IPv6len with 16%nat. change IPv4len with 4%nat. cbn [Nat.eqb andb].
    rewrite length_CIDRMask by (lia || by left). done.
  - change (Z.to_nat (128 / 8)) with 16%nat. unfold As16, To16. by rewrite length_encode.
Qed.

(** The text of a network: its address, a slash and its length. *)
Lemma IPNet_String_mk s ones bits : valid_block s ones bits ->
  IPNet_String (mk_net s ones bits) = IP_String (encode (Z.to_nat (bits / 8)) s) +:+ String "/" (dec ones).
Proof.
  intros V. destruct (vb_facts _ _ _ V) as (Hb & Ho & _ & Hs & _ & He & Ha & Hn).
  unfold IPNet_String, networkNumberAndMask. cbn [mk_net ipnet_IP ipnet_Mask].
  assert (Hsz : simpleMaskLength 0 (CIDRMask ones bits) = ones).
  { pose proof (Mask_Size_CIDRMask ones bits Hb Ho) as H. unfold Mask_Size in H.
    destruct (Z.eqb_spec (simpleMaskLength 0 (CIDRMask ones bits)) (-1)) as [E|_].
    - injection H as H1 H2. destruct Hb; lia.
    - congruence. }
  assert (match To4 (encode (Z.to_nat (bits / 8)) s) with
     | Some ip => if (length (CIDRMask ones bits) =? IPv4len)%nat then Some (ip, CIDRMask ones bits)
                  else if (length (CIDRMask ones bits) =? IPv6len)%nat then Some (ip, drop 12 (CIDRMask ones bits))
                  else None
     | None => if negb (length (encode (Z.to_nat (bits / 8)) s) =? IPv6len)%nat then None
               else if (length (CIDRMask ones bits) =? IPv6len)%nat
                    then Some (encode (Z.to_nat (bits / 8)) s, CIDRMask ones bits) else None
     end = Some (encode (Z.to_nat (bits / 8)) s, CIDRMask ones bits)) as ->.
  { rewrite To4_encode by (done || lia). rewrite length_encode, length_CIDRMask by done.
    by destruct Hb as [-> | ->]. }
  by rewrite Hsz.
Qed.

Lemma ParseCIDR_text n :
  wf_net n -> ParseCIDR (IPNet_String n) = Some (As16 (ipnet_IP n), n).
Proof.
  intros [s ones bits V]. destruct (vb_facts _ _ _ V) as (Hb & Ho & _ & Hs & _ & He & Ha & Hn).
  rewrite IPNet_String_mk by done. destruct (ParseAddr_IP_String s bits Hb ltac:(lia) Hn) as [Hp Hnb].
  set (a := IP_String _) in *. unfold ParseCIDR.
  destruct (IndexByte_split a (dec ones) Hnb) as (-> & -> & ->). rewrite Hp, dtoi_dec
    by (destruct Hb; lia).
  rewrite length_encode. replace (Z.of_nat (Z.to_nat (bits / 8)) * 8) with bits by (by destruct Hb as [-> | ->]).
  destruct (Z.ltb_spec bits ones); [lia|]. rewrite IP_Mask_As16 by done. done.
Qed.

(** The text of a network parses back to that network, for IPv4 and for IPv6
    with its zero compression: what the allocator writes to a pool's
    status.allocatedCIDR is the range later allocations are searched in. *)
Theorem ParseCIDR_String n :
  wf_net n -> ParseCIDR (IPNet_String n) = Some (As16 (ipnet_IP n), n).
Proof. apply ParseCIDR_text. Qed.

Lemma ParseCIDR_String_witness :
  ParseCIDR (IPNet_String (mk_net (0x20010db8 * 2 ^ 96) 64 128))
  = Some (As16 (ipnet_IP (mk_net (0x20010db8 * 2 ^ 96) 64 128)), mk_net (0x20010db8 * 2 ^ 96) 64 128).
Proof. apply ParseCIDR_String, wf_netb_spec. vm_compute. reflexivity. Defined.
