(* ===== verification/NetParse.v ===== *)
(** * NetParse: what the CIDR parser can return

    Every network [net.ParseCIDR] accepts, as the pools' validation, the overlap
    check and the allocator use it, is a block: an aligned address of one of the
    two families with a prefix length of that family. *)

From Stdlib Require Import Ascii String.
From S2P Require Import Prelude Text Net Cidr NetText.
Open Scope string_scope.
Open Scope list_scope.
Open Scope Z_scope.

(** ** Addresses *)

Lemma dec_digit_range c d : dec_digit c = Some d -> 0 <= d <= 9.
Proof.
  unfold dec_digit. generalize (code c). intros x. destruct (_ && _) eqn:E; [|discriminate].
  intros [= <-]. zbool. lia.
Qed.

Lemma hex_value_range c d : hex_value c = Some d -> 0 <= d <= 15.
Proof.
  unfold hex_value. generalize (code c). intros x H.
  repeat match type of H with (if ?b then _ else _) = _ => destruct b eqn:? end; zbool;
    first [injection H as <-; lia | discriminate H].
Qed.

Lemma dtoi_loop_nonneg s : forall n m, 0 <= n -> dtoi_loop s n = Some m -> 0 <= m.
Proof.
  induction s as [|c s IH]; intros n m Hn; cbn [dtoi_loop]; [by intros [= <-]|].
  destruct (dec_digit c) as [d|] eqn:Hd; [|done]. apply dec_digit_range in Hd.
  destruct (16777215 <=? _); [done|]. apply IH. lia.
Qed.

Lemma dtoi_nonneg s m : dtoi s = Some m -> 0 <= m.
Proof. unfold dtoi. destruct s; [done|]. by apply dtoi_loop_nonneg. Qed.

Lemma bytes_snoc ip v : bytes_ok ip -> 0 <= v <= 255 -> bytes_ok (ip ++ [v]).
Proof. intros Hi Hv. apply Forall_app. split; [done|]. constructor; [red; lia | constructor]. Qed.

Lemma parse4_loop_ok s : forall val digLen fields ip,
  bytes_ok fields -> 0 <= val <= 255 -> parse4_loop s val digLen fields = Some ip ->
  bytes_ok ip /\ length ip = 4%nat.
Proof.
  induction s as [|c s IH]; intros val digLen fields ip Hf Hv; cbn [parse4_loop].
  - destruct (Nat.eqb_spec (length fields) 3) as [E|]; cbn [andb]; [|done]. destruct (negb _); [|done].
    intros [= <-]. split; [by apply bytes_snoc|]. rewrite length_app, E. done.
  - destruct (dec_digit c) as [d|] eqn:Hd.
    + apply dec_digit_range in Hd. destruct (_ && _); [done|]. destruct (Z.ltb_spec 255 (val * 10 + d)); [done|].
      apply IH; [done | lia].
    + destruct (Ascii.eqb c "."); [|done]. destruct (digLen =? 0); [done|].
      destruct (length fields =? 3)%nat; [done|]. apply IH; [by apply bytes_snoc | lia].
Qed.

Lemma hex_group_ok s : forall off acc v k rest,
  0 <= acc <= 65535 -> hex_group s off acc = Some (v, k, rest) -> 0 <= v <= 65535.
Proof.
  induction s as [|c s IH]; intros off acc v k rest Ha; cbn [hex_group]; [by intros [= <- _ _]|].
  destruct (hex_value c) as [d|] eqn:Hd; [|by intros [= <- _ _]]. apply hex_value_range in Hd.
  destruct (_ || _) eqn:E; [done|]. zbool. apply IH. lia.
Qed.

(** The state of the IPv6 loop: bytes, and an ellipsis among them. *)
Definition state6_ok (ip : list Z) (ellipsis : option nat) : Prop :=
  bytes_ok ip /\ (forall e, ellipsis = Some e -> (e <= length ip)%nat).

Lemma state6_group ip ell acc :
  0 <= acc <= 65535 -> state6_ok ip ell -> state6_ok (ip ++ [acc / 256; acc mod 256]) ell.
Proof.
  intros Ha [Hi He]. split.
  - apply Forall_app. split; [done|]. apply Forall_cons. split.
    + split; [apply Z.div_pos; lia | apply Z.div_lt_upper_bound; lia].
    + apply Forall_singleton. apply Z.mod_pos_bound. lia.
  - intros e He'. rewrite length_app. specialize (He e He'). lia.
Qed.

Lemma state6_mark ip : bytes_ok ip -> state6_ok ip (Some (length ip)).
Proof. intros Hi. split; [done|]. by intros e [= <-]. Qed.

Lemma parse6_loop_ok fuel : forall s ip ell rest ip' ell',
  state6_ok ip ell -> parse6_loop fuel s ip ell = Some (rest, ip', ell') -> state6_ok ip' ell'.
Proof.
  induction fuel as [|fuel IH]; intros s ip ell rest ip' ell' Hs; cbn [parse6_loop]; [by intros [= _ <- <-]|].
  destruct (hex_group s 0 0) as [[[acc off] tail]|] eqn:Hg; [|done].
  apply hex_group_ok in Hg; [|lia]. destruct (off =? 0); [done|].
  pose proof (state6_group ip ell acc Hg Hs) as Hs'.
  destruct tail as [|c tail]; [by intros [= _ <- <-]|].
  destruct (Ascii.eqb c ".").
  - destruct (match ell with None => _ | Some _ => _ end); [done|]. destruct (12 <? length ip)%nat; [done|].
    destruct (parseIPv4 s) as [v4|] eqn:H4; [|done]. intros [= _ <- <-].
    apply parse4_loop_ok in H4 as [H4 _]; [|constructor | lia]. destruct Hs as [Hi He]. split.
    + by apply Forall_app.
    + intros e He'. rewrite length_app. specialize (He e He'). lia.
  - destruct (negb _); [done|]. destruct tail as [|c2 tail]; [done|].
    destruct (Ascii.eqb c2 ":"); [|by apply IH].
    destruct ell as [e|]; [done|]. destruct tail as [|c3 tail].
    + intros [= _ <- <-]. apply state6_mark, Hs'.
    + apply IH, state6_mark, Hs'.
Qed.

Lemma expand6_ok r ip :
  (forall rest ip ell, r = Some (rest, ip, ell) -> state6_ok ip ell) -> expand6 r = Some ip ->
  bytes_ok ip /\ length ip = 16%nat.
Proof.
  intros Hr. unfold expand6. destruct r as [[[rest ip0] ell]|]; [|done]. destruct rest; [|done].
  destruct (Hr _ _ _ eq_refl) as [Hi He]. destruct ell as [e|].
  - destruct (Nat.ltb_spec (length ip0) 16); [|done]. intros [= <-]. specialize (He e eq_refl). split.
    + apply Forall_app. split; [by apply Forall_take|]. apply Forall_app. split; [|by apply Forall_drop].
      apply Forall_replicate. red. lia.
    + rewrite !length_app, length_replicate, length_take, length_drop. lia.
  - destruct (Nat.eqb_spec (length ip0) 16); [|done]. by intros [= <-].
Qed.

Lemma ParseAddr_ok s ip : ParseAddr s = Some ip -> bytes_ok ip /\ (length ip = 4%nat \/ length ip = 16%nat).
Proof.
  unfold ParseAddr. destruct (negb _); [done|]. destruct (addr_family s) as [c|]; [|done].
  destruct (Ascii.eqb c ".").
  - intros H. apply parse4_loop_ok in H as [? ?]; [auto | constructor | lia].
  - unfold parseIPv6. intros H. enough (bytes_ok ip /\ length ip = 16%nat) as [? ?] by auto.
    destruct (HasPrefix s "::").
    + destruct (drop_str 2 s) as [|c' t].
      * injection H as <-. split; [|done]. apply (Forall_replicate byte_ok 16 0). red. lia.
      * apply expand6_ok in H; [done|]. intros rest ip0 ell. apply parse6_loop_ok. split; [constructor|].
        by intros e [= <-].
    + apply expand6_ok in H; [done|]. intros rest ip0 ell. apply parse6_loop_ok. split; [constructor|]. done.
Qed.

(** ** Networks *)

(** An aligned block of one family, IPv4-mapped or not. *)
Definition is_block (n : IPNet) : Prop :=
  exists s ones bits,
    n = mk_net s ones bits /\ family_bits bits /\ 0 <= ones <= bits /\ 0 <= s
    /\ s + 2 ^ (bits - ones) <= 2 ^ bits /\ s mod 2 ^ (bits - ones) = 0.

Lemma IP_Mask_bytes ip ones :
  let bits := Z.of_nat (length ip) * 8 in
  bytes_ok ip -> (length ip = 4%nat \/ length ip = 16%nat) -> 0 <= ones <= bits ->
  IP_Mask (As16 ip) (CIDRMask ones bits) = encode (length ip) (round_down (SetBytes ip) (bits - ones)).
Proof.
  intros bits Hip Hl Ho.
  assert (Hb : family_bits bits) by (unfold bits; destruct Hl as [-> | ->]; [left | right]; done).
  assert (Hn : Z.to_nat (bits / 8) = length ip) by (unfold bits; destruct Hl as [-> | ->]; done).
  pose proof (SetBytes_bound ip Hip) as Hs. rewrite <- Hn, family_range in Hs by done.
  pose proof (and_mask_encode (SetBytes ip) ones bits Hb Ho Hs) as Hand.
  rewrite Hn, encode_SetBytes in Hand by done. rewrite <- Hand. clear Hand.
  assert (Hm : length (CIDRMask ones bits) = length ip) by by rewrite length_CIDRMask.
  unfold IP_Mask. destruct Hl as [E | E].
  - assert (As16 ip = v4InV6Prefix ++ ip) as -> by (unfold As16, To16; by rewrite E).
    rewrite Hm, length_app, E. cbn [length v4InV6Prefix Nat.eqb IPv4len IPv6len Nat.add andb].
    change IPv6len with 16%nat. change IPv4len with 4%nat. cbn [Nat.eqb andb].
    rewrite take_app_length', drop_app_length' by done. rewrite bool_decide_true by done.
    rewrite !Hm, !E. cbn [Nat.eqb andb]. by rewrite E.
  - assert (As16 ip = ip) as -> by (unfold As16, To16; by rewrite E).
    rewrite Hm, E. cbn [Nat.eqb IPv4len IPv6len andb]. change IPv6len with 16%nat. change IPv4len with 4%nat.
    cbn [Nat.eqb andb]. rewrite !Hm, !E. cbn [Nat.eqb andb]. by rewrite E.
Qed.

Lemma ParseCIDR_block s ip n : ParseCIDR s = Some (ip, n) -> is_block n.
Proof.
  unfold ParseCIDR. destruct (IndexByte s "/") as [i|]; [|done].
  destruct (ParseAddr _) as [a|] eqn:Ha; [|done]. destruct (dtoi _) as [ones|] eqn:Ho; [|done].
  apply ParseAddr_ok in Ha as [Hb Hl]. apply dtoi_nonneg in Ho.
  set (bits := Z.of_nat (length a) * 8). destruct (Z.ltb_spec bits ones); [done|]. intros [= _ <-].
  assert (Hf : family_bits bits) by (unfold bits; destruct Hl as [-> | ->]; [left | right]; done).
  assert (Hn : Z.to_nat (bits / 8) = length a) by (unfold bits; destruct Hl as [-> | ->]; done).
  pose proof (SetBytes_bound a Hb) as Hs. rewrite <- Hn, family_range in Hs by done.
  pose proof (pow2_pos (bits - ones) ltac:(lia)) as Hp.
  exists (round_down (SetBytes a) (bits - ones)), ones, bits.
  split; [unfold mk_net; f_equal; rewrite Hn; apply IP_Mask_bytes; (done || lia)|].
  split; [done|]. split; [lia|]. rewrite round_down_div by lia.
  set (q := SetBytes a / 2 ^ (bits - ones)).
  assert (0 <= q) by (apply Z.div_pos; lia).
  assert (q < 2 ^ ones).
  { apply Z.div_lt_upper_bound; [lia|]. rewrite <- Z.pow_add_r by lia.
    replace (bits - ones + ones) with bits by lia. lia. }
  assert (2 ^ bits = 2 ^ ones * 2 ^ (bits - ones)) as -> by (rewrite <- Z.pow_add_r by lia; f_equal; lia).
  split; [nia|]. split; [nia|]. by rewrite Z_mod_mult.
Qed.

(** Whatever text a pool states as its range, a network the parser returns is
    an aligned block of IPv4 or IPv6 that ends inside its family; unless it lies in
    the IPv4-mapped prefix of IPv6 it is a well-formed network in the sense every
    theorem on ranges assumes. *)
Lemma ParseCIDR_typed s ip n :
  ParseCIDR s = Some (ip, n) ->
  is_block n /\ ((forall t ones, n = mk_net t ones 128 -> ~ v4mapped t) -> wf_net n).
Proof.
  intros H. pose proof (ParseCIDR_block s ip n H) as Hb. split; [done|].
  destruct Hb as (t & ones & bits & -> & Hf & Ho & Ht & He & Ha). intros Hm.
  constructor. constructor; try done. intros ->. by apply (Hm t ones).
Qed.
