(* ===== verification/Types.v ===== *)
(** * Types: [pkg/apis/ipam/v1alpha1/types.go]

    The API objects the allocator stores and reads.  Records have the fields of
    the Go structs, maps are finite maps and pointers are options; [Conditions]
    and the metadata the API machinery stamps (UID, creation timestamp) are left
    out, since nothing modelled reads them.  A Go string type is a string. *)

From Stdlib Require Import Ascii String.
From S2P Require Import Prelude Text Float Net Cidr Scope.
Open Scope string_scope.
Open Scope list_scope.
Open Scope Z_scope.

(** ** Enumerations *)

Abbreviation IPFamily := string.
Definition IPv4 : IPFamily := "IPv4".
Definition IPv6 : IPFamily := "IPv6".

Abbreviation PoolSelectionStrategy := string.
Definition PoolFirstFit : PoolSelectionStrategy := "FirstFit".
Definition PoolLeastUtilized : PoolSelectionStrategy := "LeastUtilized".

Abbreviation ReclaimPolicy := string.
Definition ReclaimDelete : ReclaimPolicy := "Delete".
Definition ReclaimRetain : ReclaimPolicy := "Retain".

Abbreviation PoolPhase := string.
Definition PoolPending : PoolPhase := "Pending".
Definition PoolReady : PoolPhase := "Ready".

Abbreviation AddressScope := string.
Definition AddressScopePublic : AddressScope := "Public".
Definition AddressScopePrivate : AddressScope := "Private".

Abbreviation ClaimPhase := string.
Definition ClaimPending : ClaimPhase := "Pending".
Definition ClaimBound : ClaimPhase := "Bound".
Definition ClaimReleasing : ClaimPhase := "Releasing".

Abbreviation AllocationPhase := string.
Definition AllocationReady : AllocationPhase := "Ready".

Abbreviation ClassPhase := string.
Definition ClassReady : ClassPhase := "Ready".

Abbreviation ClaimTarget := string.
Definition TargetBlock : ClaimTarget := "Block".
Definition TargetScopeRange : ClaimTarget := "ScopeRange".

Definition VisibilityPlatform : string := "platform".
Definition VisibilityConsumer : string := "consumer".
Definition VisibilityShared : string := "shared".

Definition IsDefaultClassAnnotation : string := "ipam.miloapis.com/is-default-class".

(** What holds a row of the allocation table. *)
Inductive AllocationPurpose := PurposeClaim | PurposeReservation | PurposePoolCarve.

#[export] Instance AllocationPurpose_eq_dec : EqDecision AllocationPurpose.
Proof. solve_decision. Defined.

(** ** Shared structures *)

Record ObjectMeta := mkMeta {
  om_Name : string;
  om_Labels : gmap string string;
  om_Annotations : gmap string string
}.

Record LocalRef := mkLocalRef { lr_Name : string }.

Record ClassSourceRef := mkSource { csr_Project : string; csr_Name : string }.

(** [int32] fields. *)
Record PrefixLengthRange := mkLengths { plr_Min : Z; plr_Max : Z }.

Record RoutingSpec := mkRouting { rt_Internal : string; rt_External : string }.

(** [int32] fields. *)
Record ReservationSpec := mkReservationSpec {
  rs_Leading : Z;
  rs_Trailing : Z;
  rs_UnitPrefixLength : Z
}.

Record AllocationSpec := mkAllocationSpec {
  as_MinPrefixLength : Z;
  as_MaxPrefixLength : Z;
  as_Strategy : Strategy
}.

(** Exact counts, as decimal strings. *)
Record PoolCapacity := mkCapacity {
  pc_Total : string;
  pc_Allocated : string;
  pc_Available : string
}.

(** ** [IPClass] *)

Record IPClassSpec := mkClassSpec {
  cs_Source : option ClassSourceRef;
  cs_IPFamily : IPFamily;
  cs_AddressScope : string;
  cs_ParentClassName : string;
  cs_PoolPer : list string;
  cs_UniqueWithin : list string;
  cs_AllowedPrefixLengths : option PrefixLengthRange;
  cs_DefaultPrefixLength : Z;
  cs_Reservations : option ReservationSpec;
  cs_Routing : RoutingSpec;
  cs_Strategy : PoolSelectionStrategy;
  cs_ReclaimPolicy : ReclaimPolicy;
  cs_RetentionLease : option Z;       (* nanoseconds *)
  cs_Provisioner : string;
  cs_Parameters : gmap string string
}.

Record IPClass := mkClass { cl_Meta : ObjectMeta; cl_Spec : IPClassSpec; cl_Phase : string }.

Definition cl_Name (c : IPClass) : string := om_Name (cl_Meta c).

(** ** [IPPool] *)

Record IPPoolSpec := mkPoolSpec {
  ps_CIDR : string;
  ps_IPFamily : IPFamily;
  ps_ParentPoolRef : option LocalRef;
  ps_PrefixLength : Z;
  ps_ClassNames : list string;
  ps_ClassRef : option LocalRef;
  ps_Scope : scope_map;
  ps_Reservations : option ReservationSpec;
  ps_MaxRetentionLease : option Z;    (* nanoseconds *)
  ps_Allocation : AllocationSpec;
  ps_Visibility : string
}.

Record IPPoolStatus := mkPoolStatus {
  pst_Phase : PoolPhase;
  pst_AllocatedCIDR : string;
  pst_IPFamily : IPFamily;
  pst_ScopeDigest : string;
  pst_Capacity : PoolCapacity;
  pst_UtilizationPercent : spec_float
}.

Record IPPool := mkPool { pl_Meta : ObjectMeta; pl_Spec : IPPoolSpec; pl_Status : IPPoolStatus }.

Definition pl_Name (p : IPPool) : string := om_Name (pl_Meta p).

Definition pl_set_status (p : IPPool) (st : IPPoolStatus) : IPPool := mkPool (pl_Meta p) (pl_Spec p) st.

(** ** [IPAllocation] *)

Record ObjectRef := mkObjectRef { or_APIGroup : string; or_Kind : string; or_Namespace : string; or_Name : string }.

#[export] Instance ObjectRef_eq_dec : EqDecision ObjectRef.
Proof. solve_decision. Defined.

#[export] Instance LocalRef_eq_dec : EqDecision LocalRef.
Proof. solve_decision. Defined.

#[export] Instance ClassSourceRef_eq_dec : EqDecision ClassSourceRef.
Proof. solve_decision. Defined.

Record IPAllocationSpec := mkAllocSpec {
  als_IPFamily : IPFamily;
  als_PoolRef : LocalRef;
  als_ClassName : string;
  als_Purpose : AllocationPurpose;
  als_ClaimRef : option LocalRef;
  als_Scope : scope_map;
  als_ReclaimPolicy : ReclaimPolicy;
  als_OwnerRef : option ObjectRef
}.

Record IPAllocationStatus := mkAllocStatus {
  alst_Phase : AllocationPhase;
  alst_AllocatedCIDR : string;
  alst_Address : string;
  alst_ScopeDigest : string
}.

(** A namespaced object keeps its namespace beside its other metadata. *)
Record IPAllocation := mkIPAllocation {
  al_Meta : ObjectMeta;
  al_Namespace : string;
  al_Spec : IPAllocationSpec;
  al_Status : IPAllocationStatus
}.

Definition al_Name (a : IPAllocation) : string := om_Name (al_Meta a).

(** ** [IPClaim] *)

Record IPClaimSpec := mkClaimSpec {
  ics_ClassName : string;
  ics_IPFamily : IPFamily;
  ics_AddressScope : AddressScope;
  ics_Address : string;
  ics_PrefixLength : option Z;          (* *int32 *)
  ics_Scope : scope_map;
  ics_Target : ClaimTarget;
  ics_ReclaimPolicy : ReclaimPolicy;
  ics_OwnerRef : option ObjectRef
}.

Record IPClaimStatus := mkClaimStatus {
  icst_Phase : ClaimPhase;
  icst_AllocatedCIDR : string;
  icst_Address : string;
  icst_PoolRef : option LocalRef;
  icst_BoundAllocationRef : option LocalRef
}.

(** A stored document has the resource version it was encoded with; a reader takes
    the row's. *)
Record IPClaim := mkIPClaim {
  ic_Meta : ObjectMeta;
  ic_Namespace : string;
  ic_ResourceVersion : Z;
  ic_Spec : IPClaimSpec;
  ic_Status : IPClaimStatus
}.

Definition ic_Name (c : IPClaim) : string := om_Name (ic_Meta c).

Definition ic_set_spec (c : IPClaim) (sp : IPClaimSpec) : IPClaim :=
  mkIPClaim (ic_Meta c) (ic_Namespace c) (ic_ResourceVersion c) sp (ic_Status c).

Definition ic_set_status (c : IPClaim) (st : IPClaimStatus) : IPClaim :=
  mkIPClaim (ic_Meta c) (ic_Namespace c) (ic_ResourceVersion c) (ic_Spec c) st.

Definition ic_set_rv (c : IPClaim) (rv : Z) : IPClaim :=
  mkIPClaim (ic_Meta c) (ic_Namespace c) rv (ic_Spec c) (ic_Status c).

(** ** Stored documents

    The [data] column of [ipam_objects]: the JSON of an object, read back by
    [json.Unmarshal] into the type the caller expects.  A kind no Go code decodes is
    kept as its kind, labels and text. *)
Inductive Document :=
| DocClass (c : IPClass)
| DocPool (p : IPPool)
| DocClaim (c : IPClaim)
| DocAllocation (a : IPAllocation)
| DocOther (kind : string) (labels : gmap string string) (text : string).

Definition doc_kind (d : Document) : string :=
  match d with
  | DocClass _ => "IPClass"
  | DocPool _ => "IPPool"
  | DocClaim _ => "IPClaim"
  | DocAllocation _ => "IPAllocation"
  | DocOther k _ _ => k
  end.

Definition doc_labels (d : Document) : gmap string string :=
  match d with
  | DocClass c => om_Labels (cl_Meta c)
  | DocPool p => om_Labels (pl_Meta p)
  | DocClaim c => om_Labels (ic_Meta c)
  | DocAllocation a => om_Labels (al_Meta a)
  | DocOther _ l _ => l
  end.

(** Reading a document as the type expected. *)
Definition as_class (d : Document) : option IPClass := match d with DocClass c => Some c | _ => None end.
Definition as_pool (d : Document) : option IPPool := match d with DocPool p => Some p | _ => None end.
Definition as_claim (d : Document) : option IPClaim := match d with DocClaim c => Some c | _ => None end.
Definition as_allocation (d : Document) : option IPAllocation :=
  match d with DocAllocation a => Some a | _ => None end.

Lemma as_pool_Some d p : as_pool d = Some p -> d = DocPool p.
Proof. destruct d; cbn; congruence. Qed.

Lemma as_claim_Some d c : as_claim d = Some c -> d = DocClaim c.
Proof. destruct d; cbn; congruence. Qed.

Lemma as_allocation_Some d a : as_allocation d = Some a -> d = DocAllocation a.
Proof. destruct d; cbn; congruence. Qed.
