(* ===== verification/Db.v ===== *)
(** * Db: the tables behind the allocator

    The state [internal/allocator] reads and writes: the tables of
    [migrations/*.sql] as a record, and one definition per kind of statement the
    Go code issues, with the constraints and triggers PostgreSQL runs inside it.

    A transaction is a function from a database to a value and a new database, or
    to an error.  An error carries no database: the callers roll the transaction
    back.  A transaction is taken whole, as if those on one pool ran one after
    another.  An allocation begins by locking the pool's row ([SELECT ... FOR UPDATE]);
    a release deletes its rows before it does, and [Locking] has what the code does
    then that whole transactions do not. *)

From Stdlib Require Import Ascii String.
From S2P Require Import Prelude Text Float Net Cidr Tenant Scope NetText Types.
Open Scope string_scope.
Open Scope list_scope.
Open Scope Z_scope.

(** ** Errors *)

(** The constraints of the schema a statement can violate. *)
Inductive Constraint :=
| ObjectsPkey          (* ipam_objects PRIMARY KEY *)
| AllocPoolFk          (* ipam_cidr_allocations.pool_key REFERENCES ... RESTRICT *)
| AllocClaimKey        (* UNIQUE (claim_key) *)
| AllocAllocationKey   (* UNIQUE (allocation_key) *)
| AllocNoOverlap       (* EXCLUDE (pool_key =, scope_digest =, allocated_cidr &&) *)
| AllocFamily          (* CHECK (ip_family IN ('IPv4', 'IPv6')) *)
| ConsumedCheck        (* CHECK (consumed >= 0) *)
| ChildFk              (* floor and consumption rows REFERENCE a pool *)
| IdentityPoolKey.     (* ipam_pool_identity UNIQUE (pool_key), and its FK *)

#[export] Instance Constraint_eq_dec : EqDecision Constraint.
Proof. solve_decision. Defined.

Inductive IpamErr :=
| ErrPoolNotFound
| ErrExhausted                       (* allocator.ErrPoolExhausted *)
| ErrObjectNotFound
| ErrUpdateNotFound                  (* updateObject: "not found" *)
| ErrClassNotFound
| ErrNoDefaultClass
| ErrChainedReference
| ErrChainTooDeep
| ErrFamilyMismatch                  (* LoadAncestry: an ancestor of another family *)
| ErrNoPrefixLength
| ErrPrefixLengthRange
| ErrPrefixLengthPositive
| ErrPrefixLengthFamily
| ErrNoOfferingPool
| ErrClassHoldsNoRange
| ErrScopeRangeHeld
| ErrScopeRangeOccupied
| ErrScopeRangeCarveMissing
| ErrRangeTooDeep                    (* releaseRangeTree: depth exceeded *)
| ErrSearchDidNotAdvance
| ErrIdentityLeftNoRow               (* claimPoolIdentity: conflicted, no row *)
| ErrDecode
| ErrParseCIDR
| ErrAllocation (e : AllocErr)       (* an error of internal/allocation *)
| ErrScope (e : ScopeErr)            (* an error of internal/scope *)
| ErrTenancy (e : TenantErr)
| ErrConstraint (c : Constraint)
| ErrDatabase (what : string).      (* the connection, or a transaction that would not begin or commit *)

(** ** Tables *)

Record ObjRow := mkObj { ob_kind : string; ob_name : string; ob_data : Document; ob_rv : Z }.

Inductive EventType := ADDED | MODIFIED | DELETED.

Record ChangeRow := mkChange {
  ch_key : string;
  ch_rv : Z;
  ch_event : EventType;
  ch_data : Document
}.

Record AllocRow := mkAlloc {
  ar_pool_key : string;
  ar_cidr : IPNet;
  ar_claim_key : option string;      (* NULL when retained or a reservation *)
  ar_allocation_key : string;
  ar_ip_family : string;
  ar_purpose : AllocationPurpose;
  ar_class_name : string;
  ar_scope_digest : string;
  ar_reclaim_policy : string;
  ar_owner_project : string;
  ar_retained : bool                 (* retained_at IS NOT NULL *)
}.

(** A PostgreSQL host [inet]: its width and its value. *)
Abbreviation Inet := (Z * Z)%type.

Record Db := mkDb {
  db_objects : gmap string ObjRow;
  db_changelog : list ChangeRow;
  db_rv : Z;                                  (* ipam_resource_version_seq *)
  db_allocs : list AllocRow;
  db_offers : gset (string * string);         (* pool_key, class_name *)
  db_identity : gmap (string * string) string; (* class_name, scope_digest -> pool_key *)
  db_floors : gmap (string * string) Inet;    (* pool_key, scope_digest -> floor *)
  db_consumed : gmap string Z
}.

Definition set_objects (d : Db) x := mkDb x (db_changelog d) (db_rv d) (db_allocs d) (db_offers d) (db_identity d) (db_floors d) (db_consumed d).
Definition set_allocs (d : Db) x := mkDb (db_objects d) (db_changelog d) (db_rv d) x (db_offers d) (db_identity d) (db_floors d) (db_consumed d).
Definition set_identity (d : Db) x := mkDb (db_objects d) (db_changelog d) (db_rv d) (db_allocs d) (db_offers d) x (db_floors d) (db_consumed d).
Definition set_floors (d : Db) x := mkDb (db_objects d) (db_changelog d) (db_rv d) (db_allocs d) (db_offers d) (db_identity d) x (db_consumed d).
Definition set_consumed (d : Db) x := mkDb (db_objects d) (db_changelog d) (db_rv d) (db_allocs d) (db_offers d) (db_identity d) (db_floors d) x.
Definition set_offers (d : Db) x := mkDb (db_objects d) (db_changelog d) (db_rv d) (db_allocs d) x (db_identity d) (db_floors d) (db_consumed d).
Definition log_change (d : Db) rv c := mkDb (db_objects d) (db_changelog d ++ [c]) rv (db_allocs d) (db_offers d) (db_identity d) (db_floors d) (db_consumed d).

(** ** Transactions *)

Definition Txn (A : Type) : Type := Db -> result IpamErr (A * Db).

#[export] Instance txn_ret : MRet Txn := fun A a d => Ok (a, d).
#[export] Instance txn_bind : MBind Txn := fun A B k m d =>
  match m d with Ok (a, d') => k a d' | Err e => Err e end.

Definition stmt {A} (f : Db -> result IpamErr (A * Db)) : Txn A := f.
Definition read {A} (f : Db -> A) : Txn A := fun d => Ok (f d, d).
Definition write (f : Db -> Db) : Txn unit := fun d => Ok (tt, f d).
Definition fail {A} (e : IpamErr) : Txn A := fun _ => Err e.
Definition lift {A} (r : result IpamErr A) : Txn A := fun d => match r with Ok a => Ok (a, d) | Err e => Err e end.
(** A failed check of a constraint aborts the statement. *)
Definition check (c : Constraint) (p : Db -> bool) : Txn unit :=
  fun d => if p d then Ok (tt, d) else Err (ErrConstraint c).

Fixpoint each {A B} (f : B -> A -> Txn B) (b : B) (l : list A) : Txn B :=
  match l with
  | [] => mret b
  | a :: l' => b' ← f b a; each f b' l'
  end.

(** ** [ipam_objects] and [ipam_changelog] *)

(** The [ipam_pool_class_offers_from_data] trigger after an insert or an update:
    a pool's offers become the class names its document states. *)
Definition sync_offers (d : Db) (key : string) (doc : Document) : Db :=
  match doc with
  | DocPool p =>
    set_offers d (filter (fun o => o.1 <> key) (db_offers d)
                  ∪ list_to_set (map (fun c => (key, c)) (ps_ClassNames (pl_Spec p))))
  | _ => d
  end.

Definition select_object (key : string) : Txn (option ObjRow) := read (fun d => db_objects d !! key).

(** [INSERT INTO ipam_objects ... RETURNING resource_version], then the ADDED row. *)
Definition insert_object_row (key kind name : string) (doc : Document) : Txn Z :=
  check ObjectsPkey (fun d => bool_decide (db_objects d !! key = None));;
  stmt (fun d =>
    let rv := db_rv d + 1 in
    let d := set_objects d (<[key := mkObj kind name doc rv]> (db_objects d)) in
    Ok (rv, log_change (sync_offers d key doc) rv (mkChange key rv ADDED doc))).

(** [UPDATE ipam_objects ... RETURNING resource_version], then the MODIFIED row;
    [None] when no row has the key. *)
Definition update_object_row (key : string) (doc : Document) : Txn (option Z) := fun d =>
  match db_objects d !! key with
  | None => Ok (None, d)
  | Some row =>
    let rv := db_rv d + 1 in
    let d := set_objects d (<[key := mkObj (ob_kind row) (ob_name row) doc rv]> (db_objects d)) in
    Ok (Some rv, log_change (sync_offers d key doc) rv (mkChange key rv MODIFIED doc))
  end.

(** The rows that reference an object and go with it: [ON DELETE CASCADE]. *)
Definition cascade (d : Db) (key : string) : Db :=
  mkDb (db_objects d) (db_changelog d) (db_rv d) (db_allocs d)
    (filter (fun o => o.1 <> key) (db_offers d))
    (filter (fun i => i.2 <> key) (db_identity d))
    (filter (fun f => f.1.1 <> key) (db_floors d))
    (delete key (db_consumed d)).

(** [DELETE FROM ipam_objects] with the DELETED row; [None] when already gone.
    Allocations reference their pool [ON DELETE RESTRICT]. *)
Definition delete_object_row (key : string) : Txn (option Z) := fun d =>
  match db_objects d !! key with
  | None => Ok (None, d)
  | Some row =>
    if existsb (fun r => String.eqb (ar_pool_key r) key) (db_allocs d) then Err (ErrConstraint AllocPoolFk)
    else
      let rv := db_rv d + 1 in
      let d := cascade (set_objects d (delete key (db_objects d))) key in
      Ok (Some rv, log_change d rv (mkChange key rv DELETED (ob_data row)))
  end.

(** ** Network comparisons *)

(** [a <<= b], [a && b] and [a >>= host]. *)
Definition subnet_eq (a b : IPNet) : bool :=
  (pbits a =? pbits b) && (lo b <=? lo a) && (hi a <=? hi b).

Definition net_overlap (a b : IPNet) : bool :=
  (pbits a =? pbits b) && (lo a <=? hi b) && (lo b <=? hi a).

Definition contains_host (n : IPNet) (h : Inet) : bool := covers n h.1 h.2.

(** [n >= host] in PostgreSQL's order on [inet]: the family, then the bits of the
    shorter prefix, then the prefix length. *)
Definition inet_ge (n : IPNet) (h : Inet) : bool :=
  if pbits n =? h.1 then
    let prefix := round_down h.2 (pbits n - pones n) in
    if prefix <? lo n then true
    else if lo n <? prefix then false
    else h.1 <=? pones n
  else h.1 <? pbits n.

(** [ORDER BY allocated_cidr] within one family: the address, then the prefix
    length, a covering block before what it covers. *)
Definition inet_key (n : IPNet) : Z := lo n * 256 + pones n.

(** [LEAST] of two addresses. *)
Definition inet_least (a b : Inet) : Inet :=
  if a.1 =? b.1 then (if b.2 <? a.2 then b else a) else if b.1 <? a.1 then b else a.

(** The [inet] a textual address denotes: a 16-byte IPv4-mapped address prints,
    and is stored, as IPv4. *)
Definition inet_of (ip : IP) : Inet :=
  match To4 ip with
  | Some v4 => (32, SetBytes v4)
  | None => (128, SetBytes ip)
  end.

(** [net.ParseIP(host(floor))]: the 16-byte form. *)
Definition ip_of_inet (h : Inet) : IP := As16 (encode (Z.to_nat (h.1 / 8)) h.2).

Definition host_of (n : IPNet) : Inet := (pbits n, lo n).

(** ** [ipam_cidr_allocations] *)

Definition in_pool (pool_key : string) (r : AllocRow) : bool := String.eqb (ar_pool_key r) pool_key.

Definition cidrs_where (P : AllocRow -> bool) (d : Db) : list IPNet :=
  map ar_cidr (List.filter P (db_allocs d)).

Definition family_ok (f : string) : bool := String.eqb f "IPv4" || String.eqb f "IPv6".

(** The unique keys and the exclusion constraint of a new row. *)
Definition claim_key_free (k : option string) (d : Db) : bool :=
  match k with
  | None => true
  | Some k => forallb (fun r => negb (bool_decide (ar_claim_key r = Some k))) (db_allocs d)
  end.

Definition allocation_key_free (k : string) (d : Db) : bool :=
  forallb (fun r => negb (String.eqb (ar_allocation_key r) k)) (db_allocs d).

Definition no_conflict (row : AllocRow) (d : Db) : bool :=
  forallb (fun r => negb (in_pool (ar_pool_key row) r
                          && String.eqb (ar_scope_digest r) (ar_scope_digest row)
                          && net_overlap (ar_cidr r) (ar_cidr row))) (db_allocs d).

Definition insert_alloc (row : AllocRow) : Txn unit :=
  check AllocFamily (fun _ => family_ok (ar_ip_family row));;
  check AllocPoolFk (fun d => bool_decide (is_Some (db_objects d !! ar_pool_key row)));;
  check AllocClaimKey (claim_key_free (ar_claim_key row));;
  check AllocAllocationKey (allocation_key_free (ar_allocation_key row));;
  check AllocNoOverlap (no_conflict row);;
  write (fun d => set_allocs d (db_allocs d ++ [row])).

(** The [ipam_lower_search_floor] trigger, for one deleted row. *)
Definition lowered (row : AllocRow) (k : string * string) (f : Inet) : Inet :=
  if in_pool k.1 row
     && (negb (bool_decide (ar_purpose row = PurposeClaim)) || String.eqb (ar_scope_digest row) k.2)
  then inet_least f (host_of (ar_cidr row)) else f.

Definition lower_floors (row : AllocRow) (d : Db) : Db :=
  set_floors d (map_imap (fun k f => Some (lowered row k f)) (db_floors d)).

(** [DELETE FROM ipam_cidr_allocations WHERE cond RETURNING ...] *)
Definition delete_allocs (cond : AllocRow -> bool) : Txn (list AllocRow) := fun d =>
  let gone := List.filter cond (db_allocs d) in
  let d := set_allocs d (List.filter (fun r => negb (cond r)) (db_allocs d)) in
  Ok (gone, foldl (fun d r => lower_floors r d) d gone).

(** [UPDATE ipam_cidr_allocations SET claim_key = k WHERE cond RETURNING ...],
    with the [ipam_set_retained_at] trigger and the unique key. *)
Definition with_claim (k : option string) (r : AllocRow) : AllocRow :=
  mkAlloc (ar_pool_key r) (ar_cidr r) k (ar_allocation_key r) (ar_ip_family r) (ar_purpose r)
    (ar_class_name r) (ar_scope_digest r) (ar_reclaim_policy r) (ar_owner_project r)
    (match k with
     | None => ar_retained r || bool_decide (is_Some (ar_claim_key r))
     | Some _ => false
     end).

Definition set_claim_where (cond : AllocRow -> bool) (k : option string) : Txn (list AllocRow) := fun d =>
  let hit := List.filter cond (db_allocs d) in
  let rest := List.filter (fun r => negb (cond r)) (db_allocs d) in
  let clash :=
    match k with
    | None => false
    | Some k' => (1 <? Z.of_nat (length hit))
                 || ((1 <=? Z.of_nat (length hit))
                     && existsb (fun r => bool_decide (ar_claim_key r = Some k')) rest)
    end in
  if clash then Err (ErrConstraint AllocClaimKey)
  else Ok (map (with_claim k) hit,
           set_allocs d (map (fun r => if cond r then with_claim k r else r) (db_allocs d))).

(** ** The derived tables *)

Definition select_consumed (pool_key : string) : Txn (option Z) := read (fun d => db_consumed d !! pool_key).

Definition upsert_consumed (pool_key : string) (n : Z) : Txn unit :=
  check ConsumedCheck (fun _ => 0 <=? n);;
  check ChildFk (fun d => bool_decide (is_Some (db_objects d !! pool_key)));;
  write (fun d => set_consumed d (<[pool_key := n]> (db_consumed d))).

(** [INSERT ... ON CONFLICT (pool_key, scope_digest) DO NOTHING] *)
Definition insert_floor (pool_key digest : string) (f : Inet) : Txn unit :=
  check ChildFk (fun d => bool_decide (is_Some (db_objects d !! pool_key)));;
  write (fun d => match db_floors d !! (pool_key, digest) with
                  | Some _ => d
                  | None => set_floors d (<[(pool_key, digest) := f]> (db_floors d))
                  end).

Definition select_floor (pool_key digest : string) : Txn (option Inet) :=
  read (fun d => db_floors d !! (pool_key, digest)).

(** [UPDATE ... SET floor = next WHERE ... AND floor = observed] *)
Definition cas_floor (pool_key digest : string) (observed next : Inet) : Txn unit :=
  write (fun d => if bool_decide (db_floors d !! (pool_key, digest) = Some observed)
                  then set_floors d (<[(pool_key, digest) := next]> (db_floors d)) else d).

Definition select_identity (class_name digest : string) : Txn (option string) :=
  read (fun d => db_identity d !! (class_name, digest)).

(** [INSERT INTO ipam_pool_identity ... ON CONFLICT DO NOTHING RETURNING pool_key] *)
Definition insert_identity (class_name digest pool_key : string) : Txn (option string) := fun d =>
  match db_identity d !! (class_name, digest) with
  | Some _ => Ok (None, d)
  | None => Ok (Some pool_key, set_identity d (<[(class_name, digest) := pool_key]> (db_identity d)))
  end.

(** The constraints of [ipam_pool_identity] are deferred to the commit: a pool is
    named once, and exists. *)
Definition identity_ok (d : Db) : bool :=
  forallb (fun kv => bool_decide (is_Some (db_objects d !! kv.2))
                     && forallb (fun kv' => bool_decide (kv.2 = kv'.2 -> kv.1 = kv'.1))
                          (map_to_list (db_identity d)))
    (map_to_list (db_identity d)).

Definition commit : Txn unit := check IdentityPoolKey identity_ok.
