(* ===== verification/PoolObject.v ===== *)
(** * PoolObject: what a stored pool says of itself

    The parts of [internal/allocator/prefix.go] that read a pool object or fill
    its status in: its range, its family, and the capacity figures that all
    derive from one running total. *)

From Stdlib Require Import Ascii String Decimal DecimalString DecimalN.
From S2P Require Import Prelude Text Float Net Cidr Tenant Scope NetText Types Db.
Open Scope string_scope.
Open Scope list_scope.
Open Scope Z_scope.

(** [big.Int.String] *)
Definition BigString (z : Z) : string :=
  (if z <? 0 then "-" else "") +:+ NilEmpty.string_of_uint (N.to_uint (Z.to_N (Z.abs z))).

(** [parsePoolCIDR]: one network, the carved one when there is one. *)
Definition parsePoolCIDR (pool : IPPool) : result IpamErr (list IPNet) :=
  let cidrStr :=
    if negb (String.eqb (pst_AllocatedCIDR (pl_Status pool)) "")
    then pst_AllocatedCIDR (pl_Status pool) else ps_CIDR (pl_Spec pool) in
  match ParseCIDR cidrStr with
  | None => Err ErrParseCIDR
  | Some (_, n) => Ok [n]
  end.

Definition effectivePoolFamily (pool : IPPool) : string :=
  if negb (String.eqb (ps_IPFamily (pl_Spec pool)) "") then ps_IPFamily (pl_Spec pool)
  else
    let cidr :=
      if String.eqb (pst_AllocatedCIDR (pl_Status pool)) "" then ps_CIDR (pl_Spec pool)
      else pst_AllocatedCIDR (pl_Status pool) in
    if String.eqb cidr "" then ""
    else match ParseCIDR cidr with
         | None => ""
         | Some (ip, _) => if bool_decide (is_Some (To4 ip)) then IPv4 else IPv6
         end.

Definition totalAddresses (parents : list IPNet) : Z :=
  foldl (fun total p =>
           let '(ones, bits) := Mask_Size (ipnet_Mask p) in
           let hostBits := bits - ones in
           if 0 <=? hostBits then total + Z.shiftl 1 hostBits else total) 0 parents.

(** [big.Float.Quo] of two integers, then [Float64]: the quotient is rounded to
    the wider operand's precision, at least 64 bits, and again to 53. *)
Definition bitLen (z : Z) : Z := if z =? 0 then 0 else Z.log2 (Z.abs z) + 1.

Definition bigQuo (a b : Z) : spec_float :=
  if a =? 0 then f_zero
  else
    let p := Z.max 64 (Z.max (bitLen a) (bitLen b)) in
    let '(m, e, loc) := SFdiv_core_binary p (2 ^ 31) (Z.abs a) 0 b 0 in
    match binary_round_aux p (2 ^ 31) (a <? 0) m e loc with
    | S754_finite s m e => binary_normalize prec emax (if s then Z.neg m else Z.pos m) e s
    | x => x
    end.

Definition utilizationPercent (total consumed : Z) : spec_float :=
  if total =? 0 then f_zero
  else
    let pct := bigQuo consumed total in
    f_div (f_round (f_mul (f_mul pct (f_of_Z 100)) (f_of_Z 10000))) (f_of_Z 10000).

Definition setPoolCapacityStatus (pool : IPPool) (parents : list IPNet) (consumed : Z) : IPPool :=
  let total := totalAddresses parents in
  let free := total - consumed in
  let free := if free <? 0 then 0 else free in
  pl_set_status pool
    (mkPoolStatus (pst_Phase (pl_Status pool)) (pst_AllocatedCIDR (pl_Status pool))
       (effectivePoolFamily pool) (pst_ScopeDigest (pl_Status pool))
       (mkCapacity (BigString total) (BigString consumed) (BigString free))
       (utilizationPercent total consumed)).

(** ** Lemmas *)

Lemma BigString_inj x y : 0 <= x -> 0 <= y -> BigString x = BigString y -> x = y.
Proof.
  intros Hx Hy. unfold BigString. repeat zcase; try lia. rewrite !app_nil1. intros E.
  apply (f_equal NilEmpty.uint_of_string) in E. rewrite !NilEmpty.usu in E. injection E as E.
  apply DecimalN.Unsigned.to_uint_inj in E. lia.
Qed.

Lemma totalAddresses_one p : wf_net p -> totalAddresses [p] = hi p - lo p + 1.
Proof.
  intros Hp. destruct (wf_net_facts p Hp) as (_ & ? & _ & _ & _ & _ & Hh & _).
  unfold totalAddresses. cbn [foldl]. rewrite pair_size. zcase; [|lia].
  rewrite Z.shiftl_1_l, Hh. lia.
Qed.

(** The status writes leave everything that decides later searches alone. *)
Lemma setPoolCapacityStatus_spec pool parents consumed :
  pl_Spec (setPoolCapacityStatus pool parents consumed) = pl_Spec pool
  /\ pl_Meta (setPoolCapacityStatus pool parents consumed) = pl_Meta pool
  /\ parsePoolCIDR (setPoolCapacityStatus pool parents consumed) = parsePoolCIDR pool
  /\ effectivePoolFamily (setPoolCapacityStatus pool parents consumed) = effectivePoolFamily pool.
Proof. done. Qed.

Lemma parsePoolCIDR_one pool parents : parsePoolCIDR pool = Ok parents -> exists p, parents = [p].
Proof. unfold parsePoolCIDR. destruct (ParseCIDR _) as [[? n]|]; [|done]. intros [= <-]. by exists n. Qed.

(** A provisioned pool is searched in the range it was carved. *)
Lemma parsePoolCIDR_carved pool n :
  wf_net n -> pst_AllocatedCIDR (pl_Status pool) = IPNet_String n -> parsePoolCIDR pool = Ok [n].
Proof.
  intros Hn Hs. unfold parsePoolCIDR. rewrite Hs.
  destruct (String.eqb_spec (IPNet_String n) "") as [E|_]; cbn [negb]; [|by rewrite ParseCIDR_text].
  pose proof (ParseCIDR_text n Hn) as H. by rewrite E in H.
Qed.

(** 256 addresses of a /12, the figure the source's comment quotes, and a full pool. *)
Example utilization_small :
  utilizationPercent (2 ^ 20) 256 = f_div (f_of_Z 244) (f_of_Z 10000).
Proof. vm_compute. reflexivity. Qed.
Example utilization_full : utilizationPercent (2 ^ 108) (2 ^ 108) = f_of_Z 100.
Proof. vm_compute. reflexivity. Qed.
Example utilization_empty : utilizationPercent 0 0 = f_zero.
Proof. reflexivity. Qed.
