(* ===== verification/Errors.v ===== *)
(** * Errors: [pkg/ipamerrors] and [internal/registry/ipam/registryerrors]

    How a refusal is told to a client.  A refusal is an API status whose causes
    carry an IPAM reason; [ReasonFor] and the accessors read it back, through any
    wrapping.  The refusals classify: what each constructor puts into a status is
    what the accessors find in it, and a name a refusal carries is the name a
    client reads.

    The API machinery's own constructors are not under [src/]: they are the
    operations of the class [ApiMachinery], with the codes they are documented to
    answer with as its laws.  The text of an error is an operation of that class
    too; nothing depends on it. *)

From Stdlib Require Import Ascii String.
From S2P Require Import Prelude Text Float Net Cidr Tenant Scope NetText Types Db.
Open Scope string_scope.
Open Scope list_scope.
Open Scope Z_scope.

(** ** Statuses *)

Record StatusCause := mkCause { sc_Type : string; sc_Message : string; sc_Field : string }.

Record StatusDetails := mkDetails {
  sd_Name : string;
  sd_Group : string;
  sd_Kind : string;
  sd_Causes : list StatusCause
}.

Definition noDetails : StatusDetails := mkDetails "" "" "" [].
Definition with_causes (d : StatusDetails) (cs : list StatusCause) : StatusDetails :=
  mkDetails (sd_Name d) (sd_Group d) (sd_Kind d) cs.

Record Status := mkStatus {
  st_Code : Z;
  st_Reason : string;
  st_Message : string;
  st_Details : option StatusDetails
}.

Definition with_details (s : Status) (d : StatusDetails) : Status :=
  mkStatus (st_Code s) (st_Reason s) (st_Message s) (Some d).

(** A Go error: an API status, an error of the allocator, a text of its own, one
    wrapped with [%w], or several joined. *)
Inductive GoErr :=
| GStatus (s : Status)
| GIpam (e : IpamErr)
| GText (what : string)
| GWrap (what : string) (e : GoErr)
| GJoin (es : list GoErr).

(** A [field.Error]: its type and its path.  The value and the sentence are left out. *)
Inductive FieldErrType := FieldRequired | FieldInvalid | FieldNotSupported | FieldForbidden.

Record FieldErr := mkFieldErr { fe_Type : FieldErrType; fe_Field : string }.

(** ** Reasons *)

Abbreviation Reason := string.
Definition ReasonUnknown : Reason := "".
Definition ReasonExhausted : Reason := "Exhausted".
Definition ReasonClassNotFound : Reason := "ClassNotFound".
Definition ReasonNoDefaultClass : Reason := "NoDefaultClass".
Definition ReasonNoOfferingPool : Reason := "NoOfferingPool".
Definition ReasonPrefixLengthRejected : Reason := "PrefixLengthRejected".
Definition ReasonFamilyMismatch : Reason := "FamilyMismatch".
Definition ReasonAddressScopeMismatch : Reason := "AddressScopeMismatch".
Definition ReasonScopeRolesMissing : Reason := "ScopeRolesMissing".
Definition ReasonAllocationRetained : Reason := "AllocationRetained".
Definition ReasonClaimExists : Reason := "ClaimExists".
Definition ReasonNoProjectScope : Reason := "NoProjectScope".

Definition scopeFieldPrefix : string := "spec.scope.".
Definition GroupName : string := "ipam.miloapis.com".

Definition knownReasons : list Reason :=
  [ReasonExhausted; ReasonClassNotFound; ReasonNoDefaultClass; ReasonNoOfferingPool; ReasonPrefixLengthRejected;
   ReasonFamilyMismatch; ReasonAddressScopeMismatch; ReasonScopeRolesMissing; ReasonAllocationRetained;
   ReasonClaimExists; ReasonNoProjectScope].

Definition known (r : Reason) : bool := bool_decide (r ∈ knownReasons).

(** [net/http] *)
Definition StatusBadRequest : Z := 400.
Definition StatusForbidden : Z := 403.
Definition StatusConflict : Z := 409.
Definition StatusUnprocessableEntity : Z := 422.
Definition StatusInternalServerError : Z := 500.
Definition StatusInsufficientStorage : Z := 507.

Definition codeFor (reason : Reason) : Z :=
  if String.eqb reason ReasonExhausted then StatusInsufficientStorage
  else if String.eqb reason ReasonAllocationRetained || String.eqb reason ReasonClaimExists then StatusConflict
  else StatusBadRequest.

Definition statusReasonFor (reason : Reason) : string :=
  if String.eqb reason ReasonExhausted then "InsufficientStorage"
  else if String.eqb reason ReasonAllocationRetained || String.eqb reason ReasonClaimExists then "Conflict"
  else "BadRequest".

(** ** Reading a refusal *)

(** [errors.As] for an API status: the first in the tree of wrapped errors. *)
Fixpoint statusOf (err : GoErr) : option Status :=
  match err with
  | GStatus s => Some s
  | GIpam _ | GText _ => None
  | GWrap _ e => statusOf e
  | GJoin es =>
    (fix first (es : list GoErr) : option Status :=
       match es with
       | [] => None
       | e :: es' => match statusOf e with Some s => Some s | None => first es' end
       end) es
  end.

Definition causes (s : Status) : list StatusCause :=
  match st_Details s with None => [] | Some d => sd_Causes d end.

Definition ReasonFor (err : GoErr) : Reason :=
  match statusOf err with
  | None => ReasonUnknown
  | Some s =>
    match List.find (fun c => known (sc_Type c)) (causes s) with
    | Some c => sc_Type c
    | None => if st_Code s =? StatusInsufficientStorage then ReasonExhausted else ReasonUnknown
    end
  end.

Definition IsExhausted (err : GoErr) : bool := String.eqb (ReasonFor err) ReasonExhausted.

Definition ExhaustedPool (err : GoErr) : option string :=
  if negb (IsExhausted err) then None
  else match statusOf err with
       | Some s => match st_Details s with
                   | Some d => if String.eqb (sd_Name d) "" then None else Some (sd_Name d)
                   | None => None
                   end
       | None => None
       end.

Fixpoint missing_roles (cs : list StatusCause) : list string :=
  match cs with
  | [] => []
  | c :: cs' =>
    if negb (String.eqb (sc_Type c) ReasonScopeRolesMissing) then missing_roles cs'
    else
      let role := TrimPrefix (sc_Field c) scopeFieldPrefix in
      if negb (String.eqb role "") then role :: missing_roles cs' else missing_roles cs'
  end.

Definition MissingScopeRoles (err : GoErr) : list string :=
  match statusOf err with None => [] | Some s => missing_roles (causes s) end.

Definition RetainedAllocation (err : GoErr) : option string :=
  match statusOf err with
  | None => None
  | Some s =>
    match List.find (fun c => String.eqb (sc_Type c) ReasonAllocationRetained && negb (String.eqb (sc_Message c) ""))
            (causes s) with
    | Some c => Some (sc_Message c)
    | None => None
    end
  end.

(** ** The API machinery *)

(** A status the machinery builds names no IPAM reason. *)
Definition ipam_free (s : Status) : Prop := Forall (fun c => known (sc_Type c) = false) (causes s).

Class ApiMachinery := {
  error_text : GoErr -> string;
  NewConflict : string -> string -> string -> Status;        (* resource, name, message *)
  NewForbidden : string -> string -> string -> Status;       (* resource, name, message *)
  NewBadRequest : string -> Status;
  NewInternalError : GoErr -> Status;
  NewInvalid : string -> string -> list FieldErr -> Status;  (* kind, name, errors *)
  NewConflict_code : forall r n m, st_Code (NewConflict r n m) = StatusConflict;
  NewForbidden_code : forall r n m, st_Code (NewForbidden r n m) = StatusForbidden;
  NewBadRequest_code : forall m, st_Code (NewBadRequest m) = StatusBadRequest;
  NewInternalError_code : forall e, st_Code (NewInternalError e) = StatusInternalServerError;
  NewInvalid_code : forall k n l, st_Code (NewInvalid k n l) = StatusUnprocessableEntity;
  NewConflict_free : forall r n m, ipam_free (NewConflict r n m);
  NewForbidden_free : forall r n m, ipam_free (NewForbidden r n m);
  NewBadRequest_free : forall m, ipam_free (NewBadRequest m);
  NewInternalError_free : forall e, ipam_free (NewInternalError e);
  NewInvalid_free : forall k n l, ipam_free (NewInvalid k n l)
}.

(** ** Building a refusal *)

Definition newStatus (reason : Reason) (message : string) (details : option StatusDetails)
    (extraCauses : list StatusCause) : Status :=
  let details := default noDetails details in
  let details := with_causes details
    (match extraCauses with [] => [mkCause reason message ""] | _ => extraCauses end) in
  mkStatus (codeFor reason) (statusReasonFor reason) message (Some details).

Definition New (reason : Reason) (message : string) : Status := newStatus reason message None [].

Definition NewPoolExhausted (poolName message : string) : Status :=
  newStatus ReasonExhausted message (Some (mkDetails poolName GroupName "ippools" [])) [].

Definition NewScopeRolesMissing (roles : list string) (message : string) : Status :=
  newStatus ReasonScopeRolesMissing message None
    (map (fun role => mkCause ReasonScopeRolesMissing message (scopeFieldPrefix +:+ role)) roles).

Section Conflicts.
Context {api : ApiMachinery}.

Definition newConflict (reason : Reason) (resource name message causeMessage : string) : Status :=
  let causeMessage := if String.eqb causeMessage "" then message else causeMessage in
  let err := NewConflict resource name message in
  with_details err (with_causes (default noDetails (st_Details err)) [mkCause reason causeMessage ""]).

Definition NewClaimExists (resource claimName message : string) : Status :=
  newConflict ReasonClaimExists resource claimName message "".

Definition NewRetainedAllocation (resource claimName allocationName message : string) : Status :=
  newConflict ReasonAllocationRetained resource claimName message allocationName.
End Conflicts.

(** ** [registryerrors] *)

Definition NewInsufficientStorage (message : string) : Status := New ReasonExhausted message.

(** [%q] of a printable name. *)
Definition quoted (s : string) : string := String (ascii_of_nat 34) (s +:+ String (ascii_of_nat 34) "").

Definition PoolExhausted (poolName : string) : Status :=
  NewPoolExhausted poolName ("IPPool " +:+ quoted poolName +:+ " is exhausted").

(** A unique violation, SQLSTATE 23505, on one of the named constraints. *)
Definition unique (c : Constraint) : bool :=
  match c with ObjectsPkey | AllocClaimKey | AllocAllocationKey | IdentityPoolKey => true | _ => false end.

Definition IsUniqueViolation (err : IpamErr) (constraints : list Constraint) : bool :=
  match err with ErrConstraint c => unique c && bool_decide (c ∈ constraints) | _ => false end.

(** [ipam_cidr_allocations_claim_key_key] *)
Definition HolderConstraint : Constraint := AllocClaimKey.

(** ** What a client reads *)

Lemma statusOf_wrap w e : statusOf (GWrap w e) = statusOf e.
Proof. done. Qed.

Lemma TrimPrefix_app p s : TrimPrefix (p +:+ s) p = s.
Proof. unfold TrimPrefix. rewrite HasPrefix_app. apply drop_str_app. Qed.

Lemma missing_roles_map m roles :
  missing_roles (map (fun role => mkCause ReasonScopeRolesMissing m (scopeFieldPrefix +:+ role)) roles)
  = List.filter (fun role => negb (String.eqb role "")) roles.
Proof.
  induction roles as [|role roles IH]; [done|]. cbn [map missing_roles List.filter sc_Type sc_Field].
  rewrite String.eqb_refl, TrimPrefix_app, IH. cbn [negb]. by destruct (negb _).
Qed.

(** A status the machinery built, and any error without a status, has no IPAM
    reason, so a client never mistakes it for a refusal. *)
Lemma free_unknown e s :
  statusOf e = Some s -> ipam_free s -> st_Code s <> StatusInsufficientStorage -> ReasonFor e = ReasonUnknown.
Proof.
  intros He Hf Hc. unfold ReasonFor. rewrite He.
  destruct (List.find _ _) as [c|] eqn:Hfind.
  - apply find_some in Hfind as [Hin Hk]. unfold ipam_free in Hf. rewrite Forall_forall in Hf.
    apply list_elem_of_In in Hin. by rewrite (Hf c Hin) in Hk.
  - by destruct (Z.eqb_spec (st_Code s) StatusInsufficientStorage).
Qed.

Section Classify.
Context {api : ApiMachinery}.

(** The refusals classify. *)
Lemma New_reason e r m : known r = true -> statusOf e = Some (New r m) -> ReasonFor e = r.
Proof. intros Hk He. unfold ReasonFor. rewrite He. cbn. by rewrite Hk. Qed.

Lemma roles_reason e roles m :
  statusOf e = Some (NewScopeRolesMissing roles m) -> ReasonFor e = ReasonScopeRolesMissing.
Proof. intros He. unfold ReasonFor. rewrite He. by destruct roles. Qed.

Lemma exists_reason e gr n m : statusOf e = Some (NewClaimExists gr n m) -> ReasonFor e = ReasonClaimExists.
Proof. intros He. unfold ReasonFor. by rewrite He. Qed.

Lemma retained_reason e gr n a m :
  statusOf e = Some (NewRetainedAllocation gr n a m) -> ReasonFor e = ReasonAllocationRetained.
Proof. intros He. unfold ReasonFor. by rewrite He. Qed.

(** What a refusal is built from is what a client reads back, however often
    the error was wrapped on the way: the reason, the name of the pool that ran
    out, the scope roles that were missing in the order they were asked for, and
    the name of the allocation that is retained.  An error of the API machinery
    that is not IPAM's own has no reason at all. *)
Theorem refusals_classify e s :
  statusOf e = Some s ->
  (forall r m, known r = true -> s = New r m -> ReasonFor e = r /\ st_Code s = codeFor r)
  /\ (forall p m, s = NewPoolExhausted p m ->
        ReasonFor e = ReasonExhausted /\ st_Code s = StatusInsufficientStorage
        /\ ExhaustedPool e = (if String.eqb p "" then None else Some p))
  /\ (forall roles m, s = NewScopeRolesMissing roles m ->
        ReasonFor e = ReasonScopeRolesMissing
        /\ MissingScopeRoles e = List.filter (fun role => negb (String.eqb role "")) roles)
  /\ (forall gr n m, s = NewClaimExists gr n m ->
        ReasonFor e = ReasonClaimExists /\ st_Code s = StatusConflict /\ RetainedAllocation e = None)
  /\ (forall gr n a m, s = NewRetainedAllocation gr n a m -> a <> "" ->
        ReasonFor e = ReasonAllocationRetained /\ st_Code s = StatusConflict /\ RetainedAllocation e = Some a)
  /\ (ipam_free s -> st_Code s <> StatusInsufficientStorage -> ReasonFor e = ReasonUnknown).
Proof.
  intros He. split_and!.
  - intros r m Hk ->. split; [by apply (New_reason e r m) | done].
  - intros p m ->. unfold ExhaustedPool, IsExhausted, ReasonFor. by rewrite He.
  - intros roles m ->. split; [by apply (roles_reason e roles m)|]. unfold MissingScopeRoles. rewrite He.
    destruct roles as [|role roles]; [done|]. apply missing_roles_map.
  - intros gr n m ->. split; [by apply (exists_reason e gr n m)|]. split; [apply NewConflict_code|].
    unfold RetainedAllocation. by rewrite He.
  - intros gr n a m -> Ha. split; [by apply (retained_reason e gr n a m)|]. split; [apply NewConflict_code|].
    unfold RetainedAllocation. rewrite He. cbn. apply String.eqb_neq in Ha. by rewrite Ha, Ha.
  - intros Hf Hc. by apply (free_unknown e s).
Qed.
End Classify.

(** ** Witnesses *)

(** The statuses the machinery is documented to build, without their texts. *)
Definition plain_status (code : Z) (reason : string) : Status := mkStatus code reason "" (Some noDetails).

#[refine] Definition plain_machinery : ApiMachinery := {|
  error_text := fun _ => "";
  NewConflict := fun _ _ _ => plain_status 409 "Conflict";
  NewForbidden := fun _ _ _ => plain_status 403 "Forbidden";
  NewBadRequest := fun _ => plain_status 400 "BadRequest";
  NewInternalError := fun _ => plain_status 500 "InternalError";
  NewInvalid := fun _ _ _ => plain_status 422 "Invalid"
|}.
Proof. all: intros; try reflexivity; constructor. Defined.

Lemma refusals_classify_witness :
  let e := GWrap "resolve pool" (GStatus (NewScopeRolesMissing ["location"; ""; "network"] "scope is missing roles")) in
  ReasonFor e = ReasonScopeRolesMissing /\ MissingScopeRoles e = ["location"; "network"].
Proof.
  cbv zeta.
  destruct (@refusals_classify plain_machinery
    (GWrap "resolve pool" (GStatus (NewScopeRolesMissing ["location"; ""; "network"] "scope is missing roles")))
    (NewScopeRolesMissing ["location"; ""; "network"] "scope is missing roles") eq_refl) as (_ & _ & H & _).
  exact (H _ _ eq_refl).
Defined.
