(* ===== verification/Class.v ===== *)
(** * Class: [internal/allocator/class.go]

    Which class a claim allocates under.  A class is looked up in the caller's
    project, a reference is followed for exactly one hop, and the parent chain is
    walked with every level resolved in the project of the class that names it.

    [LoadAncestry] answers exactly the chains an inductive path describes, so it
    terminates, never exceeds eight levels and never repeats a class; the key
    pattern of the default-class query matches one project's keys and no other's. *)

From Stdlib Require Import Ascii String.
From S2P Require Import Prelude Text Float Net Cidr Tenant Scope NetText Types Db PoolObject.
Open Scope string_scope.
Open Scope list_scope.
Open Scope Z_scope.

(** ** [LIKE] *)

(** PostgreSQL's [LIKE] with the default escape: ['%'] any text, ['_'] any byte,
    a backslash the byte after it. *)
Fixpoint like (p s : string) : bool :=
  match p with
  | "" => match s with "" => true | _ => false end
  | String c p' =>
    if Ascii.eqb c "%" then
      (fix any (s : string) : bool :=
         like p' s || match s with "" => false | String _ s' => any s' end) s
    else if Ascii.eqb c "_" then
      match s with "" => false | String _ s' => like p' s' end
    else if Ascii.eqb c "\" then
      match p', s with
      | String e p'', String d s' => Ascii.eqb e d && like p'' s'
      | _, _ => false
      end
    else match s with "" => false | String d s' => Ascii.eqb c d && like p' s' end
  end.

(** [likeEscape]: the replacer rewrites one byte at a time. *)
Fixpoint likeEscape (s : string) : string :=
  match s with
  | "" => ""
  | String c s' =>
    if Ascii.eqb c "\" || Ascii.eqb c "%" || Ascii.eqb c "_"
    then String "\" (String c (likeEscape s')) else String c (likeEscape s')
  end.

(** ** Keys *)

(** [tenant.Identity{Name: project}] *)
Definition named (project : string) : Identity := mkIdentity "" "" project.

Definition classStorageKey (project name : string) : string := ResourceKey (named project) "ipclasses" name.

Definition resourceKeyPrefixFor (project resource : string) : string :=
  likeEscape (ResourceKey (named project) resource "").

Definition classKeyPrefix (project : string) : string := resourceKeyPrefixFor project "ipclasses".

(** Rows in key order, as [ORDER BY key] returns them. *)
Definition key_le (a b : string * ObjRow) : Prop := str_le a.1 b.1.

#[export] Instance key_le_dec a b : Decision (key_le a b).
Proof. unfold key_le. apply _. Defined.

Definition rows_where (P : string -> ObjRow -> bool) (d : Db) : list (string * ObjRow) :=
  merge_sort key_le (List.filter (fun kr => P kr.1 kr.2) (map_to_list (db_objects d))).

(** ** Looking classes up *)

Record ResolvedClass := mkResolved { rc_Class : IPClass; rc_Project : string; rc_LocalName : string }.

Definition rc_Name (c : ResolvedClass) : string := cl_Name (rc_Class c).
Definition rc_Spec (c : ResolvedClass) : IPClassSpec := cl_Spec (rc_Class c).
Definition rc_key (c : ResolvedClass) : string := classStorageKey (rc_Project c) (rc_Name c).

Definition loadClassIn (project name : string) : Txn IPClass :=
  row ← select_object (classStorageKey project name);
  match row with
  | None => fail ErrClassNotFound
  | Some r => match as_class (ob_data r) with None => fail ErrDecode | Some c => mret c end
  end.

Definition resolveClassIn (project name : string) : Txn ResolvedClass :=
  class ← loadClassIn project name;
  match cs_Source (cl_Spec class) with
  | None => mret (mkResolved class project name)
  | Some src =>
    target ← loadClassIn (csr_Project src) (csr_Name src);
    match cs_Source (cl_Spec target) with
    | Some _ => fail ErrChainedReference
    | None => mret (mkResolved target (csr_Project src) name)
    end
  end.

(** The request context: the authenticated user's extras. *)
Definition requireTenant (user : option Extras) : Txn Identity :=
  lift (wrap_err ErrTenancy (RequireTenant user)).

Definition LoadClass (user : option Extras) (name : string) : Txn ResolvedClass :=
  id ← requireTenant user; resolveClassIn (id_Name id) name.

(** The default-marked classes of one project. *)
Definition default_row (project key : string) (r : ObjRow) : bool :=
  String.eqb (ob_kind r) "IPClass"
  && like (classKeyPrefix project +:+ "%") key
  && match as_class (ob_data r) with
     | Some c => bool_decide (om_Annotations (cl_Meta c) !! IsDefaultClassAnnotation = Some "true")
     | None => false
     end.

Fixpoint pick_family (project : string) (family : IPFamily) (names : list string) : Txn ResolvedClass :=
  match names with
  | [] => fail ErrNoDefaultClass
  | name :: rest =>
    resolved ← resolveClassIn project name;
    if String.eqb (cs_IPFamily (rc_Spec resolved)) family then mret resolved
    else pick_family project family rest
  end.

Definition row_class_name (kr : string * ObjRow) : string :=
  match as_class (ob_data kr.2) with Some c => cl_Name c | None => "" end.

Definition LoadDefaultClass (user : option Extras) (family : IPFamily) : Txn ResolvedClass :=
  id ← requireTenant user;
  rows ← read (rows_where (default_row (id_Name id)));
  pick_family (id_Name id) family (map row_class_name rows).

Definition ResolveClass (user : option Extras) (className : string) (family : IPFamily) : Txn ResolvedClass :=
  if negb (String.eqb className "") then LoadClass user className
  else if String.eqb family "" then fail ErrNoDefaultClass
  else LoadDefaultClass user family.

(** ** The parent chain *)

Definition MaxClassChainDepth : nat := 8.

(** The loop of [LoadAncestry], one unit of fuel per turn: it runs while the
    chain has at most [MaxClassChainDepth] levels. *)
Fixpoint ancestry_loop (fuel : nat) (leaf current : ResolvedClass) (chain : list ResolvedClass)
    (seen : gset string) : Txn (list ResolvedClass) :=
  match fuel with
  | O => fail ErrChainTooDeep
  | S fuel =>
    let parentName := cs_ParentClassName (rc_Spec current) in
    if String.eqb parentName "" then mret chain
    else
      parent ← resolveClassIn (rc_Project current) parentName;
      let key := rc_key parent in
      if bool_decide (key ∈ seen) then fail ErrChainTooDeep
      else if negb (String.eqb (cs_IPFamily (rc_Spec parent)) (cs_IPFamily (rc_Spec leaf)))
      then fail ErrFamilyMismatch
      else ancestry_loop fuel leaf parent (chain ++ [parent]) ({[key]} ∪ seen)
  end.

Definition LoadAncestry (leaf : ResolvedClass) : Txn (list ResolvedClass) :=
  ancestry_loop (S MaxClassChainDepth) leaf leaf [] {[rc_key leaf]}.

(** ** Effective settings *)

Definition EffectivePrefixLength (class : IPClass) (requested : option Z) : result IpamErr Z :=
  let spec := cl_Spec class in
  length ←
    match requested with
    | Some l => Ok l
    | None =>
      if negb (cs_DefaultPrefixLength spec =? 0) then Ok (cs_DefaultPrefixLength spec)
      else match cs_AllowedPrefixLengths spec with
           | Some r => if plr_Min r =? plr_Max r then Ok (plr_Min r) else Err ErrNoPrefixLength
           | None => Err ErrNoPrefixLength
           end
    end;
  if match cs_AllowedPrefixLengths spec with
     | Some r => (length <? plr_Min r) || (plr_Max r <? length)
     | None => false
     end then Err ErrPrefixLengthRange
  else if length <=? 0 then Err ErrPrefixLengthPositive
  else
    let maxLen := if String.eqb (cs_IPFamily spec) IPv6 then 128 else 32 in
    if maxLen <? length then Err ErrPrefixLengthFamily else Ok length.

Definition EffectiveReclaimPolicy (class : IPClass) (override : ReclaimPolicy) : ReclaimPolicy :=
  if negb (String.eqb override "") then override
  else if negb (String.eqb (cs_ReclaimPolicy (cl_Spec class)) "") then cs_ReclaimPolicy (cl_Spec class)
  else ReclaimDelete.

(** ** Lemmas on [LIKE] *)

Lemma like_any s : like "%" s = true.
Proof. destruct s; [done|]. cbn. induction s; [done|]. cbn in *. done. Qed.

(** An escaped text matches itself literally. *)
Lemma like_escape t p s : like (likeEscape t +:+ p) s
  = HasPrefix s t && like p (drop_str (String.length t) s).
Proof.
  revert s. induction t as [|c t IH]; intros s; [by destruct s|].
  cbn [likeEscape]. destruct (Ascii.eqb c "\" || Ascii.eqb c "%" || Ascii.eqb c "_") eqn:E.
  - change (String "\" (String c (likeEscape t)) +:+ p) with (String "\" (String c (likeEscape t +:+ p))).
    cbn [like Ascii.eqb Bool.eqb]. destruct s as [|d s]; [done|].
    cbn [HasPrefix drop_str String.length]. rewrite IH. by destruct (Ascii.eqb c d).
  - change (String c (likeEscape t) +:+ p) with (String c (likeEscape t +:+ p)).
    cbn [like]. apply orb_false_iff in E as [E E3]. apply orb_false_iff in E as [E1 E2].
    rewrite E1, E2, E3. destruct s as [|d s]; [done|].
    cbn [HasPrefix drop_str String.length]. rewrite IH. by destruct (Ascii.eqb c d).
Qed.

Lemma like_prefix t s : like (likeEscape t +:+ "%") s = HasPrefix s t.
Proof. by rewrite like_escape, like_any, andb_true_r. Qed.

Lemma HasPrefix_iff s p : HasPrefix s p = true <-> exists r, s = p +:+ r.
Proof.
  split.
  - revert s. induction p as [|c p IH]; intros s; [by exists s|].
    destruct s as [|d s]; [done|]. cbn [HasPrefix]. rewrite andb_true_iff.
    intros [Hc%Ascii.eqb_eq H]. destruct (IH s H) as [r ->]. subst. by exists r.
  - intros [r ->]. apply HasPrefix_app.
Qed.

(** A pattern for one project's keys of one resource matches exactly those keys,
    whatever wildcards the project's name holds. *)
Lemma key_pattern_iff project resource key :
  like (resourceKeyPrefixFor project resource +:+ "%") key = true
  <-> exists name, key = ResourceKey (named project) resource name.
Proof.
  unfold resourceKeyPrefixFor. rewrite like_prefix, HasPrefix_iff.
  assert (Hk : forall r, ResourceKey (named project) resource "" +:+ r
                         = ResourceKey (named project) resource r).
  { intros r. destruct (String.eqb_spec project "") as [-> | Hne].
    - unfold ResourceKey, ApplyPrefix, KeyPrefix. cbn -[String.append].
      by rewrite !append_assoc_str.
    - rewrite !ResourceKey_tenant by done. by rewrite !append_assoc_str. }
  setoid_rewrite Hk. done.
Qed.

(** The query for a project's default class and for the pools behind a class
    sees that project's objects and no other project's: the escaped key pattern
    matches another project's key, or another resource's, never. *)
Theorem key_pattern_isolates project resource project' resource' name :
  no_byte "/" project = true -> no_byte "/" project' = true ->
  no_byte "/" resource = true -> no_byte "/" resource' = true ->
  like (resourceKeyPrefixFor project resource +:+ "%") (ResourceKey (named project') resource' name) = true
  <-> project = project' /\ resource = resource'.
Proof.
  intros H1 H2 H3 H4. rewrite key_pattern_iff. split.
  - intros [n H]. apply ResourceKey_inj in H as (E & -> & _); done.
  - intros [-> ->]. eauto.
Qed.

Lemma key_pattern_isolates_witness :
  like (resourceKeyPrefixFor "a_b" "ipclasses" +:+ "%") (ResourceKey (named "axb") "ipclasses" "c") = true
  <-> "a_b" = "axb" /\ "ipclasses" = "ipclasses".
Proof. apply (key_pattern_isolates "a_b" "ipclasses" "axb" "ipclasses"); reflexivity. Defined.

(** ** Reading leaves the database alone *)

(** A transaction that only reads. *)
Definition read_only {A} (m : Txn A) : Prop := forall d a d', m d = Ok (a, d') -> d' = d.

Lemma ro_ret {A} (a : A) : read_only (mret a).
Proof. by intros d a' d' [= _ <-]. Qed.

Lemma ro_fail {A} e : read_only (fail (A := A) e).
Proof. by intros d a d'. Qed.

Lemma ro_read {A} (f : Db -> A) : read_only (read f).
Proof. by intros d a d' [= _ <-]. Qed.

Lemma ro_lift {A} (r : result IpamErr A) : read_only (lift r).
Proof. intros d a d'. unfold lift. destruct r; [by intros [= _ <-] | done]. Qed.

Lemma ro_bind {A B} (m : Txn A) (k : A -> Txn B) :
  read_only m -> (forall a, read_only (k a)) -> read_only (m ≫= k).
Proof.
  intros Hm Hk d b d'. unfold mbind, txn_bind. destruct (m d) as [[a d1]|] eqn:E; [|done].
  apply Hm in E as ->. apply Hk.
Qed.
#[export] Hint Resolve ro_ret ro_fail ro_read ro_lift ro_bind : ipam.

(** Peel a read-only transaction down to its statements. *)
Ltac read_only :=
  repeat first
    [ apply ro_ret | apply ro_fail | apply ro_read | apply ro_lift
    | apply ro_bind; [|intros ?]
    | match goal with
      | |- read_only (match ?x with _ => _ end) => destruct x
      end ].

Lemma loadClassIn_ro project name : read_only (loadClassIn project name).
Proof. unfold loadClassIn, select_object. read_only. Qed.

Lemma resolveClassIn_ro project name : read_only (resolveClassIn project name).
Proof.
  unfold resolveClassIn. apply ro_bind; [apply loadClassIn_ro|]. intros c.
  destruct (cs_Source _); [|apply ro_ret]. apply ro_bind; [apply loadClassIn_ro|]. intros t. read_only.
Qed.

Lemma bind_ok {A B} (m : Txn A) (k : A -> Txn B) d b d' :
  (m ≫= k) d = Ok (b, d') -> exists a d1, m d = Ok (a, d1) /\ k a d1 = Ok (b, d').
Proof. unfold mbind, txn_bind. destruct (m d) as [[a d1]|]; [eauto | done]. Qed.

Lemma ro_bind_ok {A B} (m : Txn A) (k : A -> Txn B) d b d' :
  read_only m -> (m ≫= k) d = Ok (b, d') -> exists a, m d = Ok (a, d) /\ k a d = Ok (b, d').
Proof.
  intros Hm (a & d1 & H1 & H2)%bind_ok. pose proof (Hm _ _ _ H1) as ->. eauto.
Qed.

(** A stored class, by project and name. *)
Definition class_at (d : Db) (project name : string) (c : IPClass) : Prop :=
  exists r, db_objects d !! classStorageKey project name = Some r /\ as_class (ob_data r) = Some c.

Lemma loadClassIn_iff d project name c :
  loadClassIn project name d = Ok (c, d) <-> class_at d project name c.
Proof.
  unfold loadClassIn, select_object, class_at, read, mbind, txn_bind. cbn. split.
  - destruct (db_objects d !! _) as [r|]; [|done]. destruct (as_class (ob_data r)) eqn:E; [|done].
    intros [= <-]. eauto.
  - intros (r & -> & ->). done.
Qed.

(** A class name resolves to the definition it names: the class itself, or,
    when it is a reference, the class the reference names in its own project,
    provided that one is not a reference too.  Pool identity therefore never
    depends on a chain of references. *)
Theorem resolveClassIn_one_hop d project name rc :
  resolveClassIn project name d = Ok (rc, d)
  <-> exists c, class_at d project name c /\ rc_LocalName rc = name
      /\ cs_Source (rc_Spec rc) = None
      /\ match cs_Source (cl_Spec c) with
         | None => rc_Class rc = c /\ rc_Project rc = project
         | Some src => class_at d (csr_Project src) (csr_Name src) (rc_Class rc)
                       /\ rc_Project rc = csr_Project src
         end.
Proof.
  unfold resolveClassIn. split.
  - intros (c & Hc & H)%ro_bind_ok; [|apply loadClassIn_ro]. apply loadClassIn_iff in Hc. exists c.
    destruct (cs_Source (cl_Spec c)) as [src|] eqn:Es; [|by injection H as <-].
    apply ro_bind_ok in H as (t & Ht & H); [|apply loadClassIn_ro]. apply loadClassIn_iff in Ht.
    destruct (cs_Source (cl_Spec t)) eqn:Et; [done|]. by injection H as <-.
  - intros (c & Hc & Hl & Hs & H). apply loadClassIn_iff in Hc. unfold mbind, txn_bind. rewrite Hc.
    destruct rc as [rcc rcp rcn]. cbn in *. subst. destruct (cs_Source (cl_Spec c)) as [src|] eqn:Es.
    + destruct H as [Ht ->]. apply loadClassIn_iff in Ht. rewrite Ht. unfold rc_Spec in Hs. cbn in Hs.
      by rewrite Hs.
    + by destruct H as [-> ->].
Qed.

(** ** The parent chain *)

Section Ancestry.
Context (d : Db) (leaf : ResolvedClass).

(** The classes above [c], nearest first, up to one with no parent. *)
Inductive ancestry : ResolvedClass -> list ResolvedClass -> Prop :=
| anc_root c : cs_ParentClassName (rc_Spec c) = "" -> ancestry c []
| anc_step c p rest :
    cs_ParentClassName (rc_Spec c) <> "" ->
    resolveClassIn (rc_Project c) (cs_ParentClassName (rc_Spec c)) d = Ok (p, d) ->
    cs_IPFamily (rc_Spec p) = cs_IPFamily (rc_Spec leaf) ->
    ancestry p rest -> ancestry c (p :: rest).

Lemma ancestry_loop_iff fuel : forall c chain seen out,
  ancestry_loop fuel leaf c chain seen d = Ok (out, d)
  <-> exists rest, out = chain ++ rest /\ ancestry c rest /\ (length rest < fuel)%nat
      /\ NoDup (map rc_key rest) /\ forall k, k ∈ map rc_key rest -> k ∉ seen.
Proof.
  induction fuel as [|fuel IH]; intros c chain seen out; cbn [ancestry_loop].
  { split; [done|]. intros (rest & _ & _ & ? & _). lia. }
  destruct (String.eqb_spec (cs_ParentClassName (rc_Spec c)) "") as [E | Hne].
  { split.
    - intros [= <-]. exists []. rewrite app_nil_r. split; [done|]. split; [by constructor|].
      split; [cbn; lia|]. split; [constructor|]. intros k Hk. by apply elem_of_nil in Hk.
    - intros (rest & -> & Ha & _). destruct Ha; [by rewrite app_nil_r | done]. }
  split.
  - intros (p & Hp & H)%ro_bind_ok; [|apply resolveClassIn_ro].
    case_bool_decide as Hseen; [done|].
    destruct (String.eqb_spec (cs_IPFamily (rc_Spec p)) (cs_IPFamily (rc_Spec leaf))) as [Hf|]; [|done].
    apply IH in H as (rest & -> & Ha & Hl & Hnd & Hns). exists (p :: rest).
    rewrite <- app_assoc. split; [done|]. split; [by eapply anc_step|]. split; [cbn; lia|].
    cbn [map]. split.
    + constructor; [|done]. intros Hin. apply (Hns _ Hin). set_solver.
    + intros k Hk. apply elem_of_cons in Hk as [-> | Hk]; [done|]. specialize (Hns k Hk). set_solver.
  - intros (rest & -> & Ha & Hl & Hnd & Hns). destruct Ha as [c | c p rest Hpn Hp Hf Ha]; [done|].
    unfold mbind, txn_bind. rewrite Hp. cbn [map] in Hnd, Hns.
    apply NoDup_cons in Hnd as [Hnin Hnd].
    rewrite bool_decide_false by (apply Hns; left). rewrite Hf, String.eqb_refl. cbn [negb].
    apply IH. exists rest. rewrite <- app_assoc. split; [done|]. split; [done|].
    split; [cbn in Hl; lia|]. split; [done|]. intros k Hk.
    assert (k <> rc_key p) by (by intros ->). assert (k ∉ seen) by (apply Hns; by right). set_solver.
Qed.
End Ancestry.

Lemma ancestry_loop_ro leaf fuel : forall c chain seen, read_only (ancestry_loop fuel leaf c chain seen).
Proof.
  induction fuel as [|fuel IH]; intros c chain seen; cbn [ancestry_loop]; [apply ro_fail|].
  destruct (String.eqb _ _); [apply ro_ret|]. apply ro_bind; [apply resolveClassIn_ro|]. intros p.
  destruct (bool_decide _); [apply ro_fail|]. destruct (negb _); [apply ro_fail | apply IH].
Qed.

Lemma LoadAncestry_ro leaf : read_only (LoadAncestry leaf).
Proof. apply ancestry_loop_ro. Qed.

(** The walk and the chain. *)
Lemma LoadAncestry_iff d leaf chain :
  LoadAncestry leaf d = Ok (chain, d)
  <-> ancestry d leaf leaf chain /\ (length chain <= MaxClassChainDepth)%nat
      /\ NoDup (map rc_key (leaf :: chain)).
Proof.
  unfold LoadAncestry. rewrite ancestry_loop_iff. cbn [map]. rewrite NoDup_cons. split.
  - intros (rest & -> & Ha & Hl & Hnd & Hns). split; [done|]. split; [unfold MaxClassChainDepth in *; cbn; lia|].
    split; [|done]. intros Hin. apply (Hns _ Hin). set_solver.
  - intros (Ha & Hl & Hnin & Hnd). exists chain. split; [done|]. split; [done|]. split; [lia|].
    split; [done|]. intros k Hk. rewrite elem_of_singleton. by intros ->.
Qed.

(** [C37] Walking the parents of a class returns its whole ancestry, nearest first,
    exactly when the chain ends within eight levels, stays in one family and
    repeats no class; otherwise the walk stops with an error.  So a cyclic or
    over-deep chain can never be provisioned from. *)
Theorem LoadAncestry_exact d leaf chain :
  LoadAncestry leaf d = Ok (chain, d)
  <-> ancestry d leaf leaf chain /\ (length chain <= MaxClassChainDepth)%nat
      /\ NoDup (map rc_key (leaf :: chain)).
Proof. apply LoadAncestry_iff. Qed.
