(* ===== verification/Discover.v ===== *)
(** * Discover: [internal/allocator/discover.go] and [agreement.go]

    Which operator-authored pool serves a class, and when two classes may share
    one.  Pools offer the root of a parent chain; the offer table keys on class
    name alone, so the query restricts it to the project that holds the class.

    Two classes may be offered by one pool only when they agree on what an
    address space is: [FirstDisagreement] is proved to decide exactly that, and
    applied to the classes that can really allocate from the pool. *)

From Stdlib Require Import Ascii String.
From S2P Require Import Prelude Text Float Net Cidr Tenant Scope NetText Types Db PoolObject Class.
Open Scope string_scope.
Open Scope list_scope.
Open Scope Z_scope.

(** ** Discovery *)

Record offeringPool := mkOffering { op_key : string; op_pool : IPPool }.

(** The rows of the join of the offers of a class with the pools of its project. *)
Definition offer_row (d : Db) (project className key : string) (r : ObjRow) : bool :=
  bool_decide ((key, className) ∈ db_offers d)
  && String.eqb (doc_kind (ob_data r)) "IPPool"
  && like (resourceKeyPrefixFor project "ippools" +:+ "%") key.

(** Decode every row, failing on the first that does not decode. *)
Fixpoint decode_pools (rows : list (string * ObjRow)) : result IpamErr (list offeringPool) :=
  match rows with
  | [] => Ok []
  | (key, r) :: rest =>
    match as_pool (ob_data r) with
    | None => Err ErrDecode
    | Some p => out ← decode_pools rest; Ok (mkOffering key p :: out)
    end
  end.

Definition offeringPools (class : ResolvedClass) : Txn (list offeringPool) :=
  rows ← read (fun d => rows_where (offer_row d (rc_Project class) (rc_Name class)) d);
  pools ← lift (decode_pools rows);
  mret (List.filter (fun o => String.eqb (effectivePoolFamily (op_pool o)) (cs_IPFamily (rc_Spec class))) pools).

Definition chainRoot (leaf : ResolvedClass) : Txn ResolvedClass :=
  ancestry ← LoadAncestry leaf;
  mret (default leaf (last ancestry)).

(** Every role the pool declares is the claim's, reference for reference. *)
Definition role_served (claimScope : scope_map) (role : string) (declared : ScopeRef) : bool :=
  match claimScope !! role with
  | None => false
  | Some got => String.eqb (sr_APIGroup got) (sr_APIGroup declared)
                && String.eqb (sr_Kind got) (sr_Kind declared)
                && String.eqb (sr_Name got) (sr_Name declared)
  end.

Definition poolServesScope (pool : IPPool) (claimScope : scope_map) : bool :=
  forallb (fun kv => role_served claimScope kv.1 kv.2) (map_to_list (ps_Scope (pl_Spec pool))).

Definition preferPool (strategy : PoolSelectionStrategy) (candidate best : IPPool) : bool :=
  if String.eqb strategy PoolLeastUtilized
  then f_lt (pst_UtilizationPercent (pl_Status candidate)) (pst_UtilizationPercent (pl_Status best))
  else false.

(** The selection loop over the candidates after the first. *)
Definition pick_pool (strategy : PoolSelectionStrategy) (best : offeringPool) (rest : list offeringPool)
    : offeringPool :=
  foldl (fun best c => if preferPool strategy (op_pool c) (op_pool best) then c else best) best rest.

Definition DiscoverPool (class : ResolvedClass) (claimScope : scope_map) : Txn string :=
  root ← chainRoot class;
  offered ← offeringPools root;
  match List.filter (fun c => poolServesScope (op_pool c) claimScope) offered with
  | [] => fail ErrNoOfferingPool
  | best :: rest => mret (op_key (pick_pool (cs_Strategy (rc_Spec class)) best rest))
  end.

(** ** Agreement *)

Record ClassSpace := mkSpace { sp_Name : string; sp_UniqueWithin : list string }.

Definition SpaceKey (c : ClassSpace) : string := RoleSetKey (sp_UniqueWithin c).

Record Disagreement := mkDisagreement { dis_A : ClassSpace; dis_B : ClassSpace }.

Definition FirstDisagreement (spaces : list ClassSpace) : option Disagreement :=
  match spaces with
  | [] => None
  | first :: rest =>
    option_map (mkDisagreement first)
      (List.find (fun s => negb (String.eqb (SpaceKey s) (SpaceKey first))) rest)
  end.

Fixpoint OfferedSpaces (project : string) (names : list string) : Txn (list ClassSpace) :=
  match names with
  | [] => mret []
  | name :: rest =>
    class ← stmt (fun d => match loadClassIn project name d with
                           | Ok (c, d) => Ok (Some c, d)
                           | Err ErrClassNotFound => Ok (None, d)
                           | Err e => Err e
                           end);
    spaces ← OfferedSpaces project rest;
    match class with
    | None => mret spaces
    | Some c =>
      if bool_decide (is_Some (cs_Source (cl_Spec c))) || negb (String.eqb (cs_ParentClassName (cl_Spec c)) "")
      then mret spaces
      else mret (mkSpace name (cs_UniqueWithin (cl_Spec c)) :: spaces)
    end
  end.

Record PoolOffer := mkOffer { of_Name : string; of_ClassNames : list string }.

Definition name_le (a b : string * ObjRow) : Prop := str_le (ob_name a.2) (ob_name b.2).

#[export] Instance name_le_dec a b : Decision (name_le a b).
Proof. unfold name_le. apply _. Defined.

Fixpoint decode_offers (rows : list (string * ObjRow)) : result IpamErr (list PoolOffer) :=
  match rows with
  | [] => Ok []
  | (_, r) :: rest =>
    match as_pool (ob_data r) with
    | None => Err ErrDecode
    | Some p => out ← decode_offers rest; Ok (mkOffer (ob_name r) (ps_ClassNames (pl_Spec p)) :: out)
    end
  end.

Definition PoolsOffering (project className : string) : Txn (list PoolOffer) :=
  rows ← read (fun d => merge_sort name_le (rows_where (offer_row d project className) d));
  lift (decode_offers rows).

Fixpoint joins_disagreement (project : string) (class : ClassSpace) (offers : list PoolOffer)
    : Txn (option (string * Disagreement)) :=
  match offers with
  | [] => mret None
  | offer :: rest =>
    spaces ← OfferedSpaces project (of_ClassNames offer);
    match FirstDisagreement (spaces ++ [class]) with
    | Some dis => mret (Some (of_Name offer, dis))
    | None => joins_disagreement project class rest
    end
  end.

Definition ClassJoinsDisagreement (project : string) (class : ClassSpace)
    : Txn (option (string * Disagreement)) :=
  offers ← PoolsOffering project (sp_Name class); joins_disagreement project class offers.

(** ** [resolve.go]

    The legacy resolution of a pool by labels.  The selector is Kubernetes' own:
    [LabelSelectorAsSelector] compiles it, and [None] selects everything. *)
Section Resolve.
Context {LabelSelector : Type} (LabelSelectorAsSelector : LabelSelector -> option (gmap string string -> bool)).

Definition labelSelectorOrEverything (selector : option LabelSelector) : result IpamErr (gmap string string -> bool) :=
  match selector with
  | None => Ok (fun _ => true)
  | Some s => match LabelSelectorAsSelector s with Some f => Ok f | None => Err ErrDecode end
  end.

Definition plural (kind : string) : string :=
  if String.eqb kind "IPPool" then "ippools" else ToLower kind +:+ "s".

(** The prefix is not escaped here. *)
Definition listPools (kind ownerProject : string) : Txn (list (string * ObjRow)) :=
  let prefix := ApplyPrefix (named ownerProject) ("/ipam.miloapis.com/" +:+ plural kind +:+ "/") in
  read (rows_where (fun key r => String.eqb (ob_kind r) kind && like (prefix +:+ "%") key)).

Fixpoint first_matching (sel : gmap string string -> bool) (ipFamily : string) (rows : list (string * ObjRow))
    : result IpamErr string :=
  match rows with
  | [] => Err ErrPoolNotFound
  | (key, r) :: rest =>
    match as_pool (ob_data r) with
    | None => Err ErrDecode
    | Some p =>
      if negb (String.eqb ipFamily "") && negb (String.eqb (ps_IPFamily (pl_Spec p)) ipFamily)
      then first_matching sel ipFamily rest
      else if negb (sel (om_Labels (pl_Meta p))) then first_matching sel ipFamily rest
      else Ok key
    end
  end.

Definition ResolveIPPool (selector : option LabelSelector) (ownerProject ipFamily : string) : Txn string :=
  sel ← lift (labelSelectorOrEverything selector);
  rows ← listPools "IPPool" ownerProject;
  lift (first_matching sel ipFamily rows).
End Resolve.

(** An underscore in a project's name is a wildcard for [listPools]: project
    [a_b] is handed project [axb]'s pool. *)
Definition ex_pool : IPPool :=
  mkPool (mkMeta "p" ∅ ∅)
    (mkPoolSpec "10.0.0.0/8" "IPv4" None 0 [] None ∅ None None (mkAllocationSpec 0 0 "") "")
    (mkPoolStatus "" "" "" "" (mkCapacity "" "" "") f_zero).

Definition ex_foreign : Db :=
  mkDb {[ResourceKey (named "axb") "ippools" "p" := mkObj "IPPool" "p" (DocPool ex_pool) 1]}
    [] 1 [] ∅ ∅ ∅ ∅.

Example listPools_crosses_projects :
  ResolveIPPool (fun _ : unit => None) None "a_b" "" ex_foreign
  = Ok (ResourceKey (named "axb") "ippools" "p", ex_foreign).
Proof. vm_compute. reflexivity. Qed.

(** ** Rows *)

Lemma rows_where_elem P d key r :
  (key, r) ∈ rows_where P d <-> db_objects d !! key = Some r /\ P key r = true.
Proof.
  unfold rows_where. rewrite merge_sort_Permutation, list_elem_of_In, filter_In, <- list_elem_of_In.
  by rewrite elem_of_map_to_list.
Qed.

#[export] Instance key_le_trans : Transitive key_le.
Proof. intros a b c. apply str_le_trans. Qed.
#[export] Instance key_le_total : Total key_le.
Proof. intros a b. apply str_le_total. Qed.

Lemma rows_where_sorted P d : StronglySorted key_le (rows_where P d).
Proof. apply StronglySorted_merge_sort; apply _. Qed.

Lemma decode_pools_ok rows out :
  decode_pools rows = Ok out ->
  Forall2 (fun kr o => op_key o = kr.1 /\ ob_data kr.2 = DocPool (op_pool o)) rows out.
Proof.
  revert out. induction rows as [|[key r] rows IH]; intros out; cbn [decode_pools].
  { intros [= <-]. constructor. }
  destruct (as_pool (ob_data r)) as [p|] eqn:Hp; [|done].
  destruct (decode_pools rows) as [out'|]; [|done]. intros [= <-]. constructor; [|by apply IH].
  split; [done|]. cbn. by apply as_pool_Some.
Qed.

Lemma decode_offers_ok rows out :
  decode_offers rows = Ok out ->
  Forall2 (fun kr o => exists p, ob_data kr.2 = DocPool p /\ of_Name o = ob_name kr.2
                                 /\ of_ClassNames o = ps_ClassNames (pl_Spec p)) rows out.
Proof.
  revert out. induction rows as [|[key r] rows IH]; intros out; cbn [decode_offers].
  { intros [= <-]. constructor. }
  destruct (as_pool (ob_data r)) as [p|] eqn:Hp; [|done].
  destruct (decode_offers rows) as [out'|]; [|done]. intros [= <-]. constructor; [|by apply IH].
  exists p. cbn. split; [by apply as_pool_Some | done].
Qed.

(** The offer table is what the pools' documents say. *)
Definition offers_in_sync (d : Db) : Prop :=
  forall key r p cn, db_objects d !! key = Some r -> ob_data r = DocPool p ->
    (key, cn) ∈ db_offers d <-> cn ∈ ps_ClassNames (pl_Spec p).

(** A pool that backs a class: stored in the class's project, offering it by
    name, of its family. *)
Definition backs (d : Db) (class : ResolvedClass) (key : string) (p : IPPool) : Prop :=
  (exists r, db_objects d !! key = Some r /\ ob_data r = DocPool p)
  /\ (exists name, key = ResourceKey (named (rc_Project class)) "ippools" name)
  /\ rc_Name class ∈ ps_ClassNames (pl_Spec p)
  /\ effectivePoolFamily p = cs_IPFamily (rc_Spec class).

Definition offering_le (a b : offeringPool) : Prop := str_le (op_key a) (op_key b).

Lemma offer_row_iff d project cn key r p :
  offers_in_sync d -> db_objects d !! key = Some r -> ob_data r = DocPool p ->
  offer_row d project cn key r = true
  <-> cn ∈ ps_ClassNames (pl_Spec p) /\ exists name, key = ResourceKey (named project) "ippools" name.
Proof.
  intros Hs Hr Hp. unfold offer_row. rewrite !andb_true_iff, bool_decide_eq_true, Hp, key_pattern_iff.
  rewrite (Hs key r p cn Hr Hp). by intuition.
Qed.

Lemma Forall2_sorted rows out :
  Forall2 (fun (kr : string * ObjRow) o => op_key o = kr.1 /\ ob_data kr.2 = DocPool (op_pool o)) rows out ->
  StronglySorted key_le rows -> StronglySorted offering_le out.
Proof.
  induction 1 as [|kr o rows out [Hk _] Hall IH]; intros Hs; [constructor|].
  apply StronglySorted_inv in Hs as [Hs Hle]. constructor; [by apply IH|].
  clear IH Hs. induction Hall as [|kr' o' rows out [Hk' _] Hall IH]; [constructor|].
  apply Forall_cons in Hle as [H Hle]. constructor; [|by apply IH].
  unfold offering_le. by rewrite Hk, Hk'.
Qed.

Lemma StronglySorted_filter {A} (R : A -> A -> Prop) f l :
  StronglySorted R l -> StronglySorted R (List.filter f l).
Proof.
  induction 1 as [|x l Hs IH Hx]; cbn; [constructor|]. destruct (f x); [|done]. constructor; [done|].
  rewrite Forall_forall in Hx |- *. intros y [Hy _]%list_elem_of_In%filter_In. apply Hx.
  by apply list_elem_of_In.
Qed.

Lemma offeringPools_ok d class out :
  offers_in_sync d -> offeringPools class d = Ok (out, d) ->
  StronglySorted offering_le out
  /\ forall o, o ∈ out <-> backs d class (op_key o) (op_pool o).
Proof.
  intros Hs H. unfold offeringPools in H. apply ro_bind_ok in H as (rows & [= <-] & H); [|apply ro_read].
  apply ro_bind_ok in H as (pools & Hp & H); [|apply ro_lift]. injection H as <-.
  unfold lift in Hp. destruct (decode_pools _) as [ps|] eqn:Hd; [|done]. injection Hp as ->.
  apply decode_pools_ok in Hd as Hall. split.
  { apply StronglySorted_filter. eapply Forall2_sorted; [exact Hall | apply rows_where_sorted]. }
  intros o. rewrite list_elem_of_In, filter_In, <- list_elem_of_In, String.eqb_eq. unfold backs. split.
  - intros [Ho Hf]. apply list_elem_of_lookup in Ho as [i Hi].
    destruct (Forall2_lookup_r _ _ _ _ _ Hall Hi) as ([key r] & Hrow & Hk & Hdoc). cbn in Hk, Hdoc.
    apply list_elem_of_lookup_2, rows_where_elem in Hrow as [Hr Hrow].
    apply (offer_row_iff d _ _ key r (op_pool o)) in Hrow as [Hcn Hkey]; [|done..].
    rewrite Hk. eauto 10.
  - intros ((r & Hr & Hdoc) & Hkey & Hcn & Hf). split; [|done].
    assert (Hrow : (op_key o, r) ∈ rows_where (offer_row d (rc_Project class) (rc_Name class)) d).
    { apply rows_where_elem. split; [done|]. by apply (offer_row_iff d _ _ _ r (op_pool o)). }
    apply list_elem_of_lookup in Hrow as [i Hi].
    destruct (Forall2_lookup_l _ _ _ _ _ Hall Hi) as (o' & Ho' & Hk & Hdoc'). cbn in Hk, Hdoc'.
    apply list_elem_of_lookup_2 in Ho'. destruct o as [k p], o' as [k' p']. cbn in *.
    rewrite Hdoc in Hdoc'. injection Hdoc' as ->. by subst.
Qed.

(** ** The pool a claim draws from *)

(** [<] on floats is a strict weak order away from NaN: what the least-utilised
    loop needs. *)
Definition not_nan (f : spec_float) : Prop := f <> S754_nan.

Definition f_rank (f : spec_float) : Z * Z * Z :=
  match f with
  | S754_infinity true => (-2, 0, 0)
  | S754_finite true m e => (-1, - e, Z.neg m)
  | S754_zero _ | S754_nan => (0, 0, 0)
  | S754_finite false m e => (1, e, Z.pos m)
  | S754_infinity false => (2, 0, 0)
  end.

Definition rank_lt (x y : Z * Z * Z) : Prop :=
  let '(a, b, c) := x in let '(a', b', c') := y in
  a < a' \/ (a = a' /\ (b < b' \/ (b = b' /\ c < c'))).

Lemma f_lt_rank x y : not_nan x -> not_nan y -> f_lt x y = true <-> rank_lt (f_rank x) (f_rank y).
Proof.
  unfold not_nan, f_lt, SFltb. intros Hx Hy.
  destruct x as [sx|[]| |[] mx ex], y as [sy|[]| |[] my ey]; try done; cbn [SFcompare f_rank rank_lt];
    try (split; [done || (intros _; lia) | intros; done || (exfalso; lia)]).
  - destruct (Z.compare_spec ex ey) as [-> | |].
    + change (Pos.compare_cont Eq mx my) with (Pos.compare mx my).
      destruct (Pos.compare_spec mx my) as [-> | |]; cbn; split; intros; done || lia.
    + split; intros; done || lia.
    + split; intros; done || lia.
  - destruct (Z.compare_spec ex ey) as [-> | |].
    + change (Pos.compare_cont Eq mx my) with (Pos.compare mx my).
      destruct (Pos.compare_spec mx my) as [-> | |]; cbn; split; intros; done || lia.
    + split; intros; done || lia.
    + split; intros; done || lia.
Qed.

Lemma pick_pool_in strategy best rest : pick_pool strategy best rest ∈ best :: rest.
Proof.
  unfold pick_pool. revert best. induction rest as [|c rest IH]; intros best; cbn [foldl]; [left|].
  destruct (preferPool _ _ _).
  - right. apply IH.
  - specialize (IH best). apply elem_of_cons in IH as [-> | IH]; [left | right; by right].
Qed.

Lemma pick_pool_first strategy best rest :
  strategy <> PoolLeastUtilized -> pick_pool strategy best rest = best.
Proof.
  intros Hs. unfold pick_pool. induction rest as [|c rest IH]; [done|]. cbn [foldl].
  unfold preferPool at 2. by rewrite (proj2 (String.eqb_neq _ _) Hs).
Qed.

Definition util (o : offeringPool) : spec_float := pst_UtilizationPercent (pl_Status (op_pool o)).

Lemma pick_pool_least best rest :
  Forall (fun o => not_nan (util o)) (best :: rest) ->
  forall o, o ∈ best :: rest -> f_lt (util o) (util (pick_pool PoolLeastUtilized best rest)) = false.
Proof.
  unfold pick_pool. revert best. induction rest as [|c rest IH]; intros best Hn o Ho; cbn [foldl].
  - apply list_elem_of_singleton in Ho as ->. apply not_true_iff_false.
    apply Forall_cons in Hn as [Hn _]. rewrite f_lt_rank by done.
    destruct (f_rank (util best)) as [[a b] c]. cbn. lia.
  - apply Forall_cons in Hn as [Hb [Hc Hr]%Forall_cons].
    unfold preferPool at 2. cbn [String.eqb]. rewrite String.eqb_refl. fold (util c) (util best).
    destruct (f_lt (util c) (util best)) eqn:E.
    + assert (Hcr : Forall (fun o => not_nan (util o)) (c :: rest)) by by constructor.
      apply elem_of_cons in Ho as [-> | Ho]; [|by apply IH].
      pose proof (IH c Hcr c ltac:(left)) as Hmin. set (m := foldl _ c rest) in *.
      assert (Hm : not_nan (util m)).
      { rewrite Forall_forall in Hcr. apply Hcr. apply (pick_pool_in PoolLeastUtilized c rest). }
      apply not_true_iff_false. apply not_true_iff_false in Hmin.
      rewrite f_lt_rank in E, Hmin |- * by done.
      destruct (f_rank (util best)) as [[a1 b1] c1], (f_rank (util c)) as [[a2 b2] c2],
        (f_rank (util m)) as [[a3 b3] c3]. cbn in *. lia.
    + assert (Hbr : Forall (fun o => not_nan (util o)) (best :: rest)) by by constructor.
      apply elem_of_cons in Ho as [-> | Ho]; [by apply IH; [|left]|].
      apply elem_of_cons in Ho as [-> | Ho]; [|by apply IH; [|right]].
      pose proof (IH best Hbr best ltac:(left)) as Hmin. set (m := foldl _ best rest) in *.
      assert (Hm : not_nan (util m)).
      { rewrite Forall_forall in Hbr. apply Hbr. apply (pick_pool_in PoolLeastUtilized best rest). }
      apply not_true_iff_false. apply not_true_iff_false in Hmin, E.
      rewrite f_lt_rank in E, Hmin |- * by done.
      destruct (f_rank (util best)) as [[a1 b1] c1], (f_rank (util c)) as [[a2 b2] c2],
        (f_rank (util m)) as [[a3 b3] c3]. cbn in *. lia.
Qed.

Lemma chainRoot_ro leaf : read_only (chainRoot leaf).
Proof. apply ro_bind; [apply LoadAncestry_ro|]. intros a. apply ro_ret. Qed.

Lemma offeringPools_ro class : read_only (offeringPools class).
Proof. unfold offeringPools. read_only. Qed.

(** A pool that may serve the claim: it backs the root of the class's chain and
    its declared scope is met. *)
Definition candidate_pool (d : Db) (class : ResolvedClass) (s : scope_map) (key : string) (p : IPPool) : Prop :=
  exists root, chainRoot class d = Ok (root, d) /\ backs d root key p /\ poolServesScope p s = true.

(** A claim draws from a pool stored in the project that holds the root of its
    class chain, which offers that root, hands out its family and serves the
    claim's scope: the first such pool by key, or under LeastUtilized one whose
    published utilisation no other candidate is below. *)
Theorem DiscoverPool_choice d class s key :
  offers_in_sync d ->
  DiscoverPool class s d = Ok (key, d) ->
  exists p, candidate_pool d class s key p
    /\ (cs_Strategy (rc_Spec class) <> PoolLeastUtilized ->
        forall key' p', candidate_pool d class s key' p' -> str_le key key')
    /\ (cs_Strategy (rc_Spec class) = PoolLeastUtilized ->
        (forall key' p', candidate_pool d class s key' p' -> not_nan (pst_UtilizationPercent (pl_Status p'))) ->
        forall key' p', candidate_pool d class s key' p' ->
          f_lt (pst_UtilizationPercent (pl_Status p')) (pst_UtilizationPercent (pl_Status p)) = false).
Proof.
  intros Hs H. unfold DiscoverPool in H.
  apply ro_bind_ok in H as (root & Hroot & H); [|apply chainRoot_ro].
  apply ro_bind_ok in H as (offered & Hoff & H); [|apply offeringPools_ro].
  destruct (offeringPools_ok d root offered Hs Hoff) as [Hsort Hel].
  pose proof (StronglySorted_filter _ (fun c => poolServesScope (op_pool c) s) _ Hsort) as Hsort'.
  assert (Hcand : forall key p, candidate_pool d class s key p
     <-> mkOffering key p ∈ List.filter (fun c => poolServesScope (op_pool c) s) offered).
  { intros k p. rewrite list_elem_of_In, filter_In, <- list_elem_of_In, Hel. cbn. split.
    - intros (root' & Hr' & Hb & Hsv). rewrite Hroot in Hr'. by injection Hr' as <-.
    - intros [Hb Hsv]. by exists root. }
  destruct (List.filter _ offered) as [|best rest] eqn:Hf; [done|]. injection H as <-.
  set (m := pick_pool _ best rest).
  assert (Hm : m ∈ best :: rest) by apply pick_pool_in.
  exists (op_pool m). split; [apply Hcand; by destruct m|]. split.
  - intros Hst key' p' Hc%Hcand. unfold m. rewrite pick_pool_first by done.
    apply StronglySorted_inv in Hsort' as [_ Hle]. apply elem_of_cons in Hc as [<- | Hc].
    + by destruct (str_le_total key' key').
    + rewrite Forall_forall in Hle. exact (Hle _ Hc).
  - intros Hst Hn key' p' Hc%Hcand. unfold m. rewrite Hst.
    apply (pick_pool_least best rest) with (o := mkOffering key' p'); [|done].
    apply Forall_forall. intros [k q] Ho. by eapply Hn, Hcand.
Qed.

(** ** Agreement *)

(** A set of classes has no disagreement exactly when any two of them are
    unique within the same roles, whatever order they list them in: comparing each
    with the first is enough. *)
Theorem FirstDisagreement_none spaces :
  FirstDisagreement spaces = None
  <-> forall a b, a ∈ spaces -> b ∈ spaces ->
      forall r, r ∈ sp_UniqueWithin a <-> r ∈ sp_UniqueWithin b.
Proof.
  assert (Hkey : (forall a b, a ∈ spaces -> b ∈ spaces -> forall r, r ∈ sp_UniqueWithin a <-> r ∈ sp_UniqueWithin b)
                 <-> forall a b, a ∈ spaces -> b ∈ spaces -> SpaceKey a = SpaceKey b).
  { unfold SpaceKey. setoid_rewrite RoleSetKey_eq. done. }
  rewrite Hkey. clear Hkey. destruct spaces as [|first rest]; cbn [FirstDisagreement].
  { split; [|done]. intros _ a b Ha%not_elem_of_nil. done. }
  split.
  - intros H. destruct (List.find _ rest) eqn:E; [done|]. pose proof (find_none _ _ E) as Hn.
    assert (Hall : forall a, a ∈ first :: rest -> SpaceKey a = SpaceKey first).
    { intros a Ha. apply elem_of_cons in Ha as [-> | Ha]; [done|].
      apply list_elem_of_In in Ha. specialize (Hn a Ha). apply negb_false_iff in Hn. by apply String.eqb_eq. }
    intros a b Ha Hb. by rewrite (Hall a), (Hall b).
  - intros H. destruct (List.find _ rest) as [b|] eqn:E; [|done]. exfalso.
    apply find_some in E as [Hb E]. apply list_elem_of_In in Hb.
    apply negb_true_iff, String.eqb_neq in E. apply E. apply H; [by right | left].
Qed.

(** A class that can really allocate from a pool of its project: a definition at
    the root of its chain. *)
Definition allocates_here (d : Db) (project name : string) (roles : list string) : Prop :=
  exists c, class_at d project name c /\ cs_Source (cl_Spec c) = None
    /\ cs_ParentClassName (cl_Spec c) = "" /\ roles = cs_UniqueWithin (cl_Spec c).

Lemma OfferedSpaces_ro project names : read_only (OfferedSpaces project names).
Proof.
  induction names as [|name names IH]; cbn [OfferedSpaces]; [apply ro_ret|].
  apply ro_bind.
  - intros d a d'. unfold stmt. destruct (loadClassIn project name d) as [[c d1]|e] eqn:E.
    + apply loadClassIn_ro in E as ->. by intros [= _ <-].
    + destruct e; try done. by intros [= _ <-].
  - intros c. apply ro_bind; [done|]. intros sp. destruct c; [|apply ro_ret].
    destruct (_ || _); apply ro_ret.
Qed.

Lemma OfferedSpaces_elem d project names spaces :
  OfferedSpaces project names d = Ok (spaces, d) ->
  forall name roles, name ∈ names -> allocates_here d project name roles -> mkSpace name roles ∈ spaces.
Proof.
  revert spaces. induction names as [|n names IH]; intros spaces H name roles Hn Hal.
  { by apply not_elem_of_nil in Hn. }
  cbn [OfferedSpaces] in H. unfold mbind, txn_bind in H. unfold stmt in H at 1.
  destruct Hal as (c & Hc & Hsrc & Hpar & ->).
  apply elem_of_cons in Hn as [-> | Hn].
  - apply loadClassIn_iff in Hc. rewrite Hc in H.
    destruct (OfferedSpaces project names d) as [[sp d1]|] eqn:E; [|done].
    rewrite Hsrc, Hpar in H. cbn in H. injection H as <- _. left.
  - assert (Hrest : forall sp d1, OfferedSpaces project names d = Ok (sp, d1) -> mkSpace name (cs_UniqueWithin (cl_Spec c)) ∈ sp).
    { intros sp d1 E. pose proof (OfferedSpaces_ro _ _ _ _ _ E) as ->. apply (IH _ E); [done|]. by exists c. }
    destruct (loadClassIn project n d) as [[c' d0]|e] eqn:El.
    + apply loadClassIn_ro in El as ->.
      destruct (OfferedSpaces project names d) as [[sp d1]|] eqn:E; [|done].
      destruct (_ || _); injection H as <- _; [|right]; by eapply Hrest.
    + destruct e; try done. destruct (OfferedSpaces project names d) as [[sp d1]|] eqn:E; [|done].
      injection H as <- _. by eapply Hrest.
Qed.

Lemma PoolsOffering_ok d project cn offers key r p :
  offers_in_sync d -> PoolsOffering project cn d = Ok (offers, d) ->
  db_objects d !! key = Some r -> ob_data r = DocPool p ->
  (exists name, key = ResourceKey (named project) "ippools" name) -> cn ∈ ps_ClassNames (pl_Spec p) ->
  mkOffer (ob_name r) (ps_ClassNames (pl_Spec p)) ∈ offers.
Proof.
  intros Hs H Hr Hp Hkey Hcn. unfold PoolsOffering in H. apply ro_bind_ok in H as (rows & [= <-] & H); [|apply ro_read].
  unfold lift in H. destruct (decode_offers _) as [out|] eqn:Hd; [|done]. injection H as ->.
  apply decode_offers_ok in Hd.
  assert (Hrow : (key, r) ∈ merge_sort name_le (rows_where (offer_row d project cn) d)).
  { rewrite merge_sort_Permutation. apply rows_where_elem. split; [done|]. by apply (offer_row_iff d _ _ _ r p). }
  apply list_elem_of_lookup in Hrow as [i Hi].
  destruct (Forall2_lookup_l _ _ _ _ _ Hd Hi) as ([on ocs] & Ho & q & Hq & Hn & Hcs). cbn in Hq, Hn, Hcs.
  rewrite Hp in Hq. injection Hq as <-. subst. by eapply list_elem_of_lookup_2.
Qed.

Lemma joins_none d project class offers :
  joins_disagreement project class offers d = Ok (None, d) ->
  forall o, o ∈ offers -> exists spaces, OfferedSpaces project (of_ClassNames o) d = Ok (spaces, d)
                                    /\ FirstDisagreement (spaces ++ [class]) = None.
Proof.
  induction offers as [|o' offers IH]; intros H o Ho; [by apply not_elem_of_nil in Ho|].
  cbn [joins_disagreement] in H. apply ro_bind_ok in H as (sp & Hsp & H); [|apply OfferedSpaces_ro].
  destruct (FirstDisagreement _) eqn:E; [done|].
  apply elem_of_cons in Ho as [-> | Ho]; [by exists sp | by apply IH].
Qed.

Lemma disagreement_none_last spaces class a :
  FirstDisagreement (spaces ++ [class]) = None -> a ∈ spaces ->
  forall r, r ∈ sp_UniqueWithin a <-> r ∈ sp_UniqueWithin class.
Proof.
  intros H Ha. apply RoleSetKey_eq. fold (SpaceKey a) (SpaceKey class).
  destruct spaces as [|first rest]; [by apply not_elem_of_nil in Ha|]. cbn [app FirstDisagreement] in H.
  destruct (List.find _ (rest ++ [class])) eqn:E; [done|].
  assert (Hall : forall b, b ∈ first :: rest ++ [class] -> SpaceKey b = SpaceKey first).
  { intros b Hb. apply elem_of_cons in Hb as [-> | Hb]; [done|]. apply list_elem_of_In in Hb.
    pose proof (find_none _ _ E b Hb) as Hn. apply negb_false_iff in Hn. by apply String.eqb_eq. }
  rewrite (Hall a), (Hall class); [done | |].
  - right. apply elem_of_app. right. left.
  - apply elem_of_cons in Ha as [-> | Ha]; [left | right]. apply elem_of_app. by left.
Qed.

(** When a class may join, no pool of its project that already offers its name
    serves a class with another address space: any definition the pool names that
    can allocate from it is unique within the same roles. *)
Theorem ClassJoinsDisagreement_none d project class :
  offers_in_sync d -> ClassJoinsDisagreement project class d = Ok (None, d) ->
  forall key r p name roles,
    db_objects d !! key = Some r -> ob_data r = DocPool p ->
    (exists n, key = ResourceKey (named project) "ippools" n) ->
    sp_Name class ∈ ps_ClassNames (pl_Spec p) ->
    name ∈ ps_ClassNames (pl_Spec p) -> allocates_here d project name roles ->
    forall role, role ∈ roles <-> role ∈ sp_UniqueWithin class.
Proof.
  intros Hs H key r p name roles Hr Hp Hkey Hcn Hname Hal. unfold ClassJoinsDisagreement in H.
  apply ro_bind_ok in H as (offers & Ho & H); [|unfold PoolsOffering; read_only].
  pose proof (PoolsOffering_ok _ _ _ _ _ _ _ Hs Ho Hr Hp Hkey Hcn) as Hin.
  destruct (joins_none _ _ _ _ H _ Hin) as (spaces & Hsp & Hnone). cbn in Hsp.
  apply (disagreement_none_last spaces class (mkSpace name roles) Hnone).
  by eapply OfferedSpaces_elem.
Qed.

(** ** Witnesses *)

Definition ex_class (name : string) (roles : list string) : IPClass :=
  mkClass (mkMeta name ∅ ∅)
    (mkClassSpec None IPv4 "" "" [] roles None 24 None (mkRouting "" "") "" "" None "" ∅) "Ready".

Definition ex_offering (cns : list string) : IPPool :=
  mkPool (mkMeta "p" ∅ ∅)
    (mkPoolSpec "10.0.0.0/8" "IPv4" None 0 cns None ∅ None None (mkAllocationSpec 0 0 "") "")
    (mkPoolStatus "" "" "" "" (mkCapacity "" "" "") f_zero).

Definition ex_pool_key : string := ResourceKey (named "alpha") "ippools" "p".
Definition ex_class_key : string := classStorageKey "alpha" "c".

(** Project [alpha] with a class [c] and a pool offering [c]. *)
Definition ex_db : Db :=
  mkDb (<[ex_pool_key := mkObj "IPPool" "p" (DocPool (ex_offering ["c"])) 2]>
        {[ex_class_key := mkObj "IPClass" "c" (DocClass (ex_class "c" ["network"])) 1]})
    [] 2 [] {[(ex_pool_key, "c")]} ∅ ∅ ∅.

Lemma ex_db_sync : offers_in_sync ex_db.
Proof.
  intros key r p cn Hr Hp. cbn in Hr. apply lookup_insert_Some in Hr as [[<- <-] | [_ Hr]].
  - cbn in Hp. injection Hp as <-. cbn. rewrite elem_of_singleton, list_elem_of_singleton. naive_solver.
  - apply lookup_singleton_Some in Hr as [<- <-]. done.
Qed.

Definition ex_resolved : ResolvedClass := mkResolved (ex_class "c" ["network"]) "alpha" "c".

Lemma DiscoverPool_choice_witness :
  exists p, candidate_pool ex_db ex_resolved ∅ ex_pool_key p
    /\ (cs_Strategy (rc_Spec ex_resolved) <> PoolLeastUtilized ->
        forall key' p', candidate_pool ex_db ex_resolved ∅ key' p' -> str_le ex_pool_key key')
    /\ (cs_Strategy (rc_Spec ex_resolved) = PoolLeastUtilized ->
        (forall key' p', candidate_pool ex_db ex_resolved ∅ key' p' -> not_nan (pst_UtilizationPercent (pl_Status p'))) ->
        forall key' p', candidate_pool ex_db ex_resolved ∅ key' p' ->
          f_lt (pst_UtilizationPercent (pl_Status p')) (pst_UtilizationPercent (pl_Status p)) = false).
Proof. apply DiscoverPool_choice; [apply ex_db_sync | vm_compute; reflexivity]. Defined.

Lemma ClassJoinsDisagreement_none_witness :
  ClassJoinsDisagreement "alpha" (mkSpace "c" ["network"]) ex_db = Ok (None, ex_db)
  /\ forall role, role ∈ ["network"] <-> role ∈ sp_UniqueWithin (mkSpace "c" ["network"]).
Proof.
  split; [vm_compute; reflexivity|].
  apply (ClassJoinsDisagreement_none ex_db "alpha" (mkSpace "c" ["network"])) with
    (key := ex_pool_key) (r := mkObj "IPPool" "p" (DocPool (ex_offering ["c"])) 2)
    (p := ex_offering ["c"]) (name := "c").
  - apply ex_db_sync.
  - vm_compute. reflexivity.
  - reflexivity.
  - reflexivity.
  - by exists "p".
  - left.
  - left.
  - exists (ex_class "c" ["network"]). split; [|done].
    exists (mkObj "IPClass" "c" (DocClass (ex_class "c" ["network"])) 1). split; [vm_compute; reflexivity | done].
Defined.
