(* ===== verification/BoundedSearch.v ===== *)
(** * BoundedSearch: [internal/allocator/boundedsearch.go]

    The database half of first fit: probes and pages of allocation rows fed to
    the streaming scan, from a floor that is a cache of where nothing is free
    below, under a limit on the number of pages.

    The search is proved to answer what first fit over all the blocking rows
    answers ([bounded_search_exact]), for a range that does not end at the top of
    the address space and holds fewer rows than the page limit.  Both conditions
    are needed: [full_range_at_top] and [contiguous_rows_exceed_limit] show what
    the code does without them. *)

From Stdlib Require Import Ascii String.
From S2P Require Import Prelude Text Float Net Cidr Reservation Allocate Scan Tenant Scope NetText Types.
From S2P Require Import Db.
Open Scope string_scope.
Open Scope list_scope.
Open Scope Z_scope.

(** ** Queries *)

Definition searchPageSize : nat := 256.
Definition searchPageLimit : nat := Z.to_nat 100000.

(** The digest of a search that must avoid every allocation. *)
Definition spaceAll : string := "".

Definition searchFilter (poolKey scopeDigest : string) (r : AllocRow) : bool :=
  in_pool poolKey r
  && (String.eqb scopeDigest "" || negb (bool_decide (ar_purpose r = PurposeClaim))
      || String.eqb (ar_scope_digest r) scopeDigest).

(** [IP.Equal]: a 4-byte address equals its 16-byte form. *)
Definition IP_Equal (a b : IP) : bool :=
  if (length a =? length b)%nat then bool_decide (a = b)
  else if (length a =? 4)%nat && (length b =? 16)%nat
  then bool_decide (take 12 b = v4InV6Prefix) && bool_decide (a = drop 12 b)
  else if (length a =? 16)%nat && (length b =? 4)%nat
  then bool_decide (take 12 a = v4InV6Prefix) && bool_decide (drop 12 a = b)
  else false.

Definition covering_of (rows : list IPNet) (parent : IPNet) (from : IP) : list IPNet :=
  sort_by inet_key (List.filter (fun n => contains_host n (inet_of from) && subnet_eq n parent) rows).

Definition page_of (rows : list IPNet) (parent : IPNet) (from : IP) (limit : nat) : list IPNet :=
  take limit
    (sort_by inet_key (List.filter (fun n => inet_ge n (inet_of from) && subnet_eq n parent) rows)).

Definition loadBlocksCovering (poolKey scopeDigest : string) (parent : IPNet) (from : IP) : Txn (list IPNet) :=
  read (fun d => covering_of (cidrs_where (searchFilter poolKey scopeDigest) d) parent from).

Definition loadBlocksFrom (poolKey scopeDigest : string) (parent : IPNet) (from : IP) (limit : nat)
    : Txn (list IPNet) :=
  read (fun d => page_of (cidrs_where (searchFilter poolKey scopeDigest) d) parent from limit).

(** ** The search *)

Definition feed (s : Scan) (blocks : list IPNet) : Txn Scan :=
  match Feed s blocks with
  | (s, None) => mret s
  | (_, Some e) => fail (ErrAllocation e)
  end.

(** The loop, one unit of fuel per page: [searchPageLimit] of them. *)
Fixpoint bounded_loop (fuel : nat) (poolKey scopeDigest : string) (s : Scan) : Txn Scan :=
  if Done s then mret s
  else
    match fuel with
    | O => fail ErrSearchDidNotAdvance
    | S fuel =>
      match Need s with
      | None => mret s
      | Some (parent, from) =>
        covering ← loadBlocksCovering poolKey scopeDigest parent from;
        s ← feed s covering;
        if Done s then mret s
        else if match Need s with Some (_, moved) => negb (IP_Equal moved from) | None => false end
        then bounded_loop fuel poolKey scopeDigest s
        else
          page ← loadBlocksFrom poolKey scopeDigest parent from searchPageSize;
          match page with
          | [] => bounded_loop fuel poolKey scopeDigest (End_ s)
          | _ => s ← feed s page; bounded_loop fuel poolKey scopeDigest s
          end
      end
    end.

Definition boundedFirstFit (poolKey scopeDigest : string) (parents : list IPNet) (prefixLen : Z)
    (floor : option IP) : Txn (IPNet * option IP) :=
  scan ← lift (wrap_err ErrAllocation (NewScan parents prefixLen floor));
  scan ← bounded_loop searchPageLimit poolKey scopeDigest scan;
  block ← lift (wrap_err ErrAllocation (Result scan));
  mret (block, FirstFree scan).

(** ** The floor *)

Definition lockSearchFloor (poolKey scopeDigest : string) (base : IP) : Txn (option IP) :=
  insert_floor poolKey scopeDigest (inet_of base);;
  f ← select_floor poolKey scopeDigest;
  mret (option_map ip_of_inet f).

Definition readSearchFloor (poolKey scopeDigest : string) : Txn (option IP) :=
  f ← select_floor poolKey scopeDigest; mret (option_map ip_of_inet f).

Definition raiseSearchFloor (poolKey scopeDigest : string) (observed next : option IP) : Txn unit :=
  match next with
  | None => mret tt
  | Some next =>
    match observed with
    | None => insert_floor poolKey scopeDigest (inet_of next)
    | Some observed => cas_floor poolKey scopeDigest (inet_of observed) (inet_of next)
    end
  end.

(** ** Feeding blocks of one parent *)

Lemma fit_in_app p a b u :
  fit_in p (a ++ b) u = match fit_in p a u with Some n => Some n | None => fit_in p b u end.
Proof.
  induction a as [|r a IH]; [by rewrite fit_in_nil|]. cbn [app].
  rewrite fit_in_cons, (fit_in_cons p r a), IH. by destruct (fit_in p [r] u).
Qed.

(** The gaps a list of blocks leaves above the cursor, and the cursor after it. *)
Fixpoint walk (c : Z) (blocks : list IPNet) : list ipRange * Z :=
  match blocks with
  | [] => ([], c)
  | b :: rest =>
    let '(gs, e) := walk (Z.max c (hi b + 1)) rest in
    ((if c <? lo b then [mkRange c (lo b - 1)] else []) ++ gs, e)
  end.

Definition inside (p b : IPNet) : Prop := wf_net b /\ pbits b = pbits p /\ lo p <= lo b /\ hi b <= hi p.

Lemma inside_bounds p b : inside p b -> lo p <= lo b <= hi b /\ hi b <= hi p.
Proof. intros (Hb & _ & ? & ?). destruct (wf_net_facts b Hb) as (_ & _ & _ & _ & ? & _). lia. Qed.

Lemma sweep_walk p c blocks more :
  Forall (inside p) blocks ->
  sweep (lo p) (hi p) c (map net_range blocks ++ more)
  = (walk c blocks).1 ++ sweep (lo p) (hi p) (walk c blocks).2 more.
Proof.
  intros H. revert c. induction H as [|b blocks Hb H IH]; intros c; [done|].
  apply inside_bounds in Hb. cbn [map app sweep walk net_range r_start r_end].
  replace ((hi b <? lo p) || (hi p <? lo b)) with false
    by (symmetry; apply orb_false_iff; split; apply Z.ltb_ge; lia).
  rewrite IH. replace (if c <? hi b + 1 then hi b + 1 else c) with (Z.max c (hi b + 1)) by (zcase; lia).
  destruct (walk _ blocks) as [gs e]. cbn. by rewrite <- app_assoc.
Qed.

Lemma walk_cursor_le c blocks : c <= (walk c blocks).2.
Proof.
  revert c. induction blocks as [|b blocks IH]; intros c; [done|]. cbn [walk].
  specialize (IH (Z.max c (hi b + 1))). destruct (walk _ blocks). cbn in *. lia.
Qed.

Lemma walk_cursor_past c blocks b : b ∈ blocks -> hi b < (walk c blocks).2.
Proof.
  revert c. induction blocks as [|b' blocks IH]; intros c Hb; [by apply not_elem_of_nil in Hb|]. cbn [walk].
  pose proof (walk_cursor_le (Z.max c (hi b' + 1)) blocks). specialize (IH (Z.max c (hi b' + 1))).
  destruct (walk _ blocks) as [gs e]. cbn in *. apply elem_of_cons in Hb as [-> | Hb]; [lia | by apply IH].
Qed.

Lemma walk_cursor_bound p c blocks :
  Forall (inside p) blocks -> c <= hi p + 1 -> (walk c blocks).2 <= hi p + 1.
Proof.
  intros H. revert c. induction H as [|b blocks Hb H IH]; intros c Hc; [done|]. cbn [walk].
  apply inside_bounds in Hb. specialize (IH (Z.max c (hi b + 1)) ltac:(lia)).
  by destruct (walk _ blocks).
Qed.

Lemma walk_no_gaps c blocks : (forall b, b ∈ blocks -> lo b <= c) -> (walk c blocks).1 = [].
Proof.
  revert c. induction blocks as [|b blocks IH]; intros c H; [done|]. cbn [walk].
  assert ((walk (Z.max c (hi b + 1)) blocks).1 = []) as E.
  { apply IH. intros b' Hb'. specialize (H b' ltac:(by right)). lia. }
  destruct (walk _ blocks). cbn in *. subst. specialize (H b ltac:(left)). zcase; [lia | done].
Qed.

Lemma fit_in_gap_note ff bits a b rs : note (note ff bits [mkRange a b]) bits rs = note ff bits (mkRange a b :: rs).
Proof. by destruct ff. Qed.

(** One block of the parent under scan: it ends below the cursor, leaves a gap, or
    moves the cursor past itself. *)
Lemma feedOne_inside s p c b :
  inside p b -> at_parent s p c -> (forall l, sc_last s = Some l -> l <= lo b) ->
  feedOne s b
  = (let s1 := set_last s (lo b) in
     if hi b <? c then s1
     else if c <? lo b then
       match fit_in p [mkRange c (lo b - 1)] (sc_prefixLen s) with
       | Some n => set_found (noteFirstFree s1 c) n
       | None => set_cursor (noteFirstFree s1 c) (hi b + 1)
       end
     else set_cursor s1 (hi b + 1), None).
Proof.
  intros Hin Hat Hlast. destruct Hin as (Hb & Hbb & Hlo & Hhi).
  pose proof Hat as [Hd Hcur Hbits He Hc].
  destruct (wf_net_facts b Hb) as (Hf & _ & _ & _ & ? & _).
  unfold feedOne. rewrite pair_size, Hbits, Hbb, Z.eqb_refl.
  destruct (Z.eqb_spec (pbits p) 0) as [|_]; [destruct Hf; lia|]. cbn [negb].
  rewrite cidrBounds_eq by done.
  assert (match sc_last s with Some l => lo b <? l | None => false end = false) as ->.
  { destruct (sc_last s) as [l|]; [|done]. specialize (Hlast l eq_refl). zcase; [lia | done]. }
  cbv zeta. change (sc_pEnd (set_last s (lo b))) with (sc_pEnd s).
  change (sc_cursor (set_last s (lo b))) with (sc_cursor s).
  rewrite He, Hc. destruct (Z.ltb_spec (hi p) (lo b)); [lia|].
  destruct (Z.ltb_spec (hi b) c); [done|].
  pose proof (set_last_at s p c (lo b) Hat) as Hat'. set (s1 := set_last s (lo b)) in *.
  destruct (Z.ltb_spec c (lo b)).
  - assert (Hcn : sc_cursor (noteFirstFree s1 c) = c).
    { rewrite <- (at_cursor _ _ _ Hat') at 2. unfold noteFirstFree. by destruct (sc_firstFree s1). }
    rewrite Hcn, (tryFit_eq (noteFirstFree s1 c) p c) by by apply noteFirstFree_at.
    replace (sc_prefixLen (noteFirstFree s1 c)) with (sc_prefixLen s)
      by (apply (proj1 (proj2 (noteFirstFree_same s1 c)))).
    destruct (fit_in p _ _); [done|]. rewrite Hcn. zcase; [done | lia].
  - rewrite (at_cursor _ _ _ Hat'). zcase; [done | lia].
Qed.

(** What feeding blocks of the parent does, in terms of the gaps they leave. *)
Definition fed (s s' : Scan) (p : IPNet) (c : Z) (blocks : list IPNet) : Prop :=
  sc_firstFree s' = note (sc_firstFree s) (pbits p) (walk c blocks).1
  /\ match fit_in p (walk c blocks).1 (sc_prefixLen s) with
     | Some n => sc_done s' = true /\ sc_result s' = Some n
     | None => at_parent s' p (walk c blocks).2 /\ same_search s s'
               /\ sc_last s' = match last blocks with Some b => Some (lo b) | None => sc_last s end
     end.

Lemma last_cons_option {A B} (f : A -> B) x l (d : option B) :
  match last (x :: l) with Some b => Some (f b) | None => d end
  = match last l with Some b => Some (f b) | None => Some (f x) end.
Proof. rewrite last_cons. by destruct (last l). Qed.

Lemma feed_walk p blocks :
  Forall (inside p) blocks -> StronglySorted (Prelude.key_le lo) blocks ->
  forall s c, at_parent s p c -> (forall l b, sc_last s = Some l -> b ∈ blocks -> l <= lo b) ->
  exists s', feed_loop s blocks = (s', None) /\ fed s s' p c blocks.
Proof.
  intros Hin Hs. induction Hs as [|b blocks Hs IH Hle]; intros s c Hat Hlast.
  { exists s. split; [done|]. unfold fed. cbn [walk fst]. rewrite fit_in_nil.
    split; [by destruct (sc_firstFree s) | done]. }
  apply Forall_cons in Hin as [Hb Hin]. specialize (IH Hin).
  assert (Htail : forall l b', Some (lo b) = Some l -> b' ∈ blocks -> l <= lo b').
  { intros l b' [= <-] Hb'. rewrite Forall_forall in Hle. by apply Hle. }
  pose proof (inside_bounds p b Hb) as Hbb.
  cbn [feed_loop]. rewrite (at_open _ _ _ Hat), (feedOne_inside s p c b Hb Hat)
    by (intros l Hl; apply (Hlast l b Hl); left).
  unfold fed. cbn [walk]. rewrite (last_cons_option lo).
  pose proof (set_last_at s p c (lo b) Hat) as Hat'. set (s1 := set_last s (lo b)) in *. cbv zeta.
  destruct (Z.ltb_spec (hi b) c).
  { replace (Z.max c (hi b + 1)) with c by lia.
    destruct (IH s1 c Hat' Htail) as (s' & Hf & Hff & Hm). exists s'. split; [done|].
    destruct (walk c blocks) as [gs e]. destruct (Z.ltb_spec c (lo b)); [lia|]. cbn in *. done. }
  replace (Z.max c (hi b + 1)) with (hi b + 1) by lia.
  destruct (Z.ltb_spec c (lo b)) as [Hgap | Hgap].
  2: { destruct (IH (set_cursor s1 (hi b + 1)) (hi b + 1)) as (s' & Hf & Hff & Hm);
         [by eapply set_cursor_at | exact Htail|]. exists s'. split; [done|].
       destruct (walk (hi b + 1) blocks) as [gs e]. cbn in *. done. }
  set (g := mkRange c (lo b - 1)). destruct (fit_in p [g] (sc_prefixLen s)) as [n|] eqn:Hfit.
  - exists (set_found (noteFirstFree s1 c) n). split; [by destruct blocks|].
    destruct (walk (hi b + 1) blocks) as [gs e]. cbn [fst snd].
    rewrite fit_in_app, Hfit. split; [|done]. cbn. rewrite (noteFirstFree_ff s1 p c c g gs Hat' eq_refl). done.
  - pose proof (noteFirstFree_at s1 p c c Hat') as Hat2.
    pose proof (noteFirstFree_ff s1 p c c g [] Hat' eq_refl) as Hnf.
    pose proof (noteFirstFree_same s1 c) as (Hs1 & Hs2 & Hs3 & Hs4 & Hs5 & Hs6).
    destruct (IH (set_cursor (noteFirstFree s1 c) (hi b + 1)) (hi b + 1)) as (s' & Hf & Hff & Hm);
      [by eapply set_cursor_at | |].
    { intros l b'. cbn. replace (sc_last (noteFirstFree s1 c)) with (Some (lo b))
        by (unfold noteFirstFree; by destruct (sc_firstFree s1)). apply Htail. }
    exists s'. split; [done|]. destruct (walk (hi b + 1) blocks) as [gs e]. cbn [fst snd] in *.
    rewrite fit_in_app, Hfit. split.
    + rewrite Hff. cbn. rewrite Hnf. apply fit_in_gap_note.
    + replace (sc_prefixLen (set_cursor (noteFirstFree s1 c) (hi b + 1))) with (sc_prefixLen s) in Hm by done.
      destruct (fit_in p gs (sc_prefixLen s)); [done|]. destruct Hm as (Hm1 & Hm2 & Hm3).
      split; [done|]. split; [|rewrite Hm3; cbn;
        by replace (sc_last (noteFirstFree s1 c)) with (Some (lo b))
          by (unfold noteFirstFree; by destruct (sc_firstFree s1))].
      eapply same_search_trans; [|exact Hm2]. by repeat split.
Qed.

Lemma walk_cursor_reached c blocks :
  (walk c blocks).2 = c \/ exists b, b ∈ blocks /\ (walk c blocks).2 = hi b + 1.
Proof.
  revert c. induction blocks as [|b blocks IH]; intros c; [by left|]. cbn [walk].
  specialize (IH (Z.max c (hi b + 1))). destruct (walk _ blocks) as [gs e]. cbn in *.
  destruct IH as [-> | (b' & Hb' & ->)].
  - destruct (Z.max_spec c (hi b + 1)) as [[_ ->] | [_ ->]]; [|by left].
    right. exists b. split; [left | done].
  - right. exists b'. split; [by right | done].
Qed.

(** ** One parent, whole search *)

(** The address just above a range prints as an address of the range's family: it
    is not the end of the address space, nor the start of the IPv4-mapped block. *)
Definition next_native (p : IPNet) : Prop :=
  hi p + 1 < 2 ^ pbits p /\ (pbits p = 128 -> ~ v4mapped (hi p + 1)).

Section Search.
Context (rows : list IPNet) (p : IPNet) (u : Z).
Context (Hp : wf_net p) (Hnative : native_net p) (Hrows : Forall (inside p) rows).

Lemma rows_pool_ok : pool_ok [p] rows.
Proof using Hp Hnative Hrows.
  constructor; [by constructor | by constructor | |].
  - eapply Forall_impl; [exact Hrows|]. by intros b [? _].
  - intros q Hq%list_elem_of_singleton b Hb. subst q. rewrite Forall_forall in Hrows.
    destruct (Hrows b Hb) as (_ & _ & ? & _). lia.
Qed.

(** The gaps above [c] that the blocks [q] leave. *)
Definition gaps_from (c : Z) (q : list IPNet) : list ipRange := sweep (lo p) (hi p) c (map net_range q).

(** The rows a search at [c] still has to see, in the order it sees them. *)
Definition remaining (c : Z) : list IPNet := sort_by inet_key (List.filter (fun n => c <=? hi n) rows).

Definition free_above (c : Z) : list ipRange := gaps_from c (remaining c).

Lemma remaining_elem c b : b ∈ remaining c <-> b ∈ rows /\ c <= hi b.
Proof. unfold remaining. rewrite sort_by_in, list_elem_of_In, filter_In, <- list_elem_of_In, Z.leb_le. done. Qed.

(** The order of rows by address and length refines the order by address. *)
Lemma inet_sorted l : (forall b, b ∈ l -> wf_net b) -> StronglySorted (Prelude.key_le lo) (sort_by inet_key l).
Proof using.
  intros Hw. pose proof (sort_by_sorted inet_key l) as Hs.
  assert (Hw' : forall b, b ∈ sort_by inet_key l -> 0 <= pones b < 256).
  { intros b Hb. rewrite sort_by_in in Hb. destruct (wf_net_facts b (Hw b Hb)) as (_ & ? & ? & _). lia. }
  induction Hs as [|b l' Hs IH Hle]; constructor.
  - apply IH. intros b' Hb'. apply Hw'. by right.
  - rewrite Forall_forall in Hle |- *. intros b' Hb'. specialize (Hle b' Hb').
    pose proof (Hw' b ltac:(left)). pose proof (Hw' b' ltac:(by right)).
    unfold Prelude.key_le, inet_key in *. lia.
Qed.

Lemma remaining_sorted c : StronglySorted (Prelude.key_le lo) (remaining c).
Proof using Hrows.
  apply inet_sorted. intros b Hb%list_elem_of_In. apply filter_In in Hb as [Hb _].
  apply list_elem_of_In in Hb. rewrite Forall_forall in Hrows. by apply Hrows.
Qed.

(** Whatever list of rows a search holds, if it misses none that ends at or above
    [c], the gaps it leaves are the free addresses from [c] on. *)
Lemma gaps_from_free c q :
  lo p <= c -> StronglySorted (Prelude.key_le lo) q -> (forall b, b ∈ q -> b ∈ rows) ->
  (forall b, b ∈ rows -> c <= hi b -> b ∈ q) ->
  regions_ok c (hi p) (gaps_from c q)
  /\ forall x, in_regions (gaps_from c q) x = true <-> c <= x /\ free_in p rows x = true.
Proof using Hrows.
  intros Hc Hs Hsub Hall. rewrite Forall_forall in Hrows.
  assert (Hord : Forall (fun e => r_start e <= r_end e) (map net_range q)).
  { apply Forall_forall. intros r (b & -> & Hb)%list_elem_of_fmap. cbn.
    destruct (inside_bounds p b (Hrows b (Hsub b Hb))). lia. }
  assert (Hss : StronglySorted (Prelude.key_le r_start) (map net_range q)).
  { clear Hall Hsub Hord. induction Hs as [|b l Hs IH Hle]; constructor; [done|].
    apply Forall_map. eapply Forall_impl; [exact Hle|]. done. }
  split; [by apply sweep_ok|]. intros x. unfold gaps_from. rewrite sweep_in by (done || lia).
  unfold free_in. rewrite andb_true_iff, covers_spec, negb_true_iff. split.
  - intros [Hx Hn]. split; [lia|]. split; [lia|]. apply blocked_false. intros b Hb.
    apply not_true_iff_false. intros [Hbb Hbx]%covers_spec.
    assert (in_regions (map net_range q) x = true); [|congruence].
    apply in_regions_spec. exists (net_range b). split; [|done]. apply list_elem_of_fmap.
    exists b. split; [done|]. apply Hall; [done | lia].
  - intros (Hcx & Hx & Hn). split; [lia|]. apply not_true_iff_false.
    intros (r & (b & -> & Hb)%list_elem_of_fmap & Hr)%in_regions_spec.
    rewrite blocked_false in Hn. specialize (Hn b (Hsub b Hb)). apply not_true_iff_false in Hn.
    apply Hn, covers_spec. destruct (Hrows b (Hsub b Hb)) as (_ & ? & _). done.
Qed.

Lemma free_above_spec c :
  lo p <= c ->
  regions_ok c (hi p) (free_above c)
  /\ forall x, in_regions (free_above c) x = true <-> c <= x /\ free_in p rows x = true.
Proof using Hrows.
  intros Hc. apply gaps_from_free; [done | apply remaining_sorted | |].
  - intros b Hb. by apply remaining_elem in Hb as [? _].
  - intros b Hb Hle. by apply remaining_elem.
Qed.

Lemma gaps_from_eq c q :
  lo p <= c -> StronglySorted (Prelude.key_le lo) q -> (forall b, b ∈ q -> b ∈ rows) ->
  (forall b, b ∈ rows -> c <= hi b -> b ∈ q) -> gaps_from c q = free_above c.
Proof using Hrows.
  intros Hc Hs Hsub Hall. destruct (gaps_from_free c q Hc Hs Hsub Hall) as [H1 H2].
  destruct (free_above_spec c Hc) as [H3 H4]. eapply regions_unique; [done | done |].
  intros x. apply eq_true_iff_eq. by rewrite H2, H4.
Qed.

(** Nothing is free between two cursors. *)
Lemma free_above_skip c c' :
  lo p <= c -> c <= c' -> (forall x, c <= x < c' -> free_in p rows x = false) ->
  free_above c = free_above c'.
Proof using Hrows.
  intros Hc Hcc Hskip. destruct (free_above_spec c Hc) as [H1 H2].
  destruct (free_above_spec c' ltac:(lia)) as [H3 H4].
  eapply regions_unique; [exact H1 | eapply regions_ok_weaken; [exact Hcc | exact H3]|].
  intros x. apply eq_true_iff_eq. rewrite H2, H4. split; [|intros [? ?]; split; [lia | done]].
  intros [Hx Hf]. split; [|done]. destruct (Z.le_gt_cases c' x); [done|].
  rewrite Hskip in Hf by lia. done.
Qed.

Lemma remaining_shrink c c' b :
  b ∈ rows -> c <= hi b -> hi b < c' -> c <= c' -> (length (remaining c') < length (remaining c))%nat.
Proof using.
  intros Hb Hc Hc' Hcc. unfold remaining. rewrite !sort_by_length. clear Hrows.
  induction rows as [|r l IH]; [by apply not_elem_of_nil in Hb|]. cbn [List.filter].
  assert (Hle : forall l, (length (List.filter (fun n => c' <=? hi n)%Z l) <= length (List.filter (fun n => c <=? hi n)%Z l))%nat).
  { clear -Hcc. induction l as [|r l IH]; [done|]. cbn [List.filter].
    destruct (Z.leb_spec c' (hi r)), (Z.leb_spec c (hi r)); cbn; lia. }
  apply elem_of_cons in Hb as [-> | Hb].
  - specialize (Hle l). destruct (Z.leb_spec c' (hi r)), (Z.leb_spec c (hi r)); cbn; lia.
  - specialize (IH Hb). destruct (Z.leb_spec c' (hi r)), (Z.leb_spec c (hi r)); cbn; lia.
Qed.

(** ** The queries at a cursor *)

Context (Htop : next_native p).

Lemma cursor_native c : lo p <= c <= hi p + 1 -> 0 <= c < 2 ^ pbits p /\ (pbits p = 128 -> ~ v4mapped c).
Proof using Hp Hnative Htop.
  intros Hc. destruct (wf_net_facts p Hp) as (_ & _ & _ & ? & _ & ? & _). destruct Htop as [Ht Hm].
  split; [lia|]. intros E. destruct (Z.eq_dec c (hi p + 1)) as [-> |]; [by apply Hm|].
  apply Hnative; [done | lia].
Qed.

Lemma inet_of_cursor c : lo p <= c <= hi p + 1 -> inet_of (intToIP c (pbits p)) = (pbits p, c).
Proof using Hp Hnative Htop.
  intros Hc. destruct (cursor_native c Hc) as [Hr Hm].
  destruct (wf_net_facts p Hp) as (Hf & _). unfold inet_of.
  rewrite intToIP_encode, To4_encode by done.
  destruct Hf as [E | E]; rewrite E in *; cbn [Z.eqb Pos.eqb]; f_equal.
  - apply (SetBytes_encode 4). done.
  - apply (SetBytes_encode 16). done.
Qed.

Lemma IP_Equal_cursor c c' :
  lo p <= c <= hi p + 1 -> lo p <= c' <= hi p + 1 ->
  IP_Equal (intToIP c (pbits p)) (intToIP c' (pbits p)) = bool_decide (c = c').
Proof using Hp Hnative Htop.
  intros Hc Hc'. destruct (cursor_native c Hc) as [Hr _], (cursor_native c' Hc') as [Hr' _].
  destruct (wf_net_facts p Hp) as (Hf & _). unfold IP_Equal.
  rewrite !intToIP_encode, !length_encode, Nat.eqb_refl by done.
  apply bool_decide_ext. split; [|by intros ->]. intros E.
  apply encode_inj in E; [done | |]; by rewrite family_range.
Qed.

Lemma subnet_eq_inside b : inside p b -> subnet_eq b p = true.
Proof using.
  intros (_ & E & ? & ?). unfold subnet_eq. rewrite E, Z.eqb_refl.
  apply andb_true_iff. split; apply Z.leb_le; lia.
Qed.

Lemma covering_elem c b : lo p <= c <= hi p + 1 ->
  b ∈ covering_of rows p (intToIP c (pbits p)) <-> b ∈ rows /\ lo b <= c <= hi b.
Proof using Hp Hnative Hrows Htop.
  intros Hc. unfold covering_of. rewrite sort_by_in, list_elem_of_In, filter_In, <- list_elem_of_In.
  rewrite inet_of_cursor by done. unfold contains_host. cbn [fst snd].
  rewrite andb_true_iff, covers_spec. rewrite Forall_forall in Hrows. split.
  - intros (Hb & [_ ?] & _). done.
  - intros [Hb ?]. split; [done|]. destruct (Hrows b Hb) as (? & ? & ?).
    split; [done | by apply subnet_eq_inside, Hrows].
Qed.

(** When nothing covers the cursor, the rows at or above it are those that end
    there. *)
Lemma inet_ge_cursor c b :
  inside p b -> 0 <= c -> ~ (lo b <= c <= hi b) -> inet_ge b (pbits p, c) = (c <=? hi b).
Proof using.
  intros (Hb & E & _) Hc Hn. destruct (wf_net_facts b Hb) as (_ & Ho & _ & ? & ? & _ & Hh & Ha & _).
  unfold inet_ge. cbn [fst snd]. rewrite E, Z.eqb_refl. rewrite E in Hh, Ha.
  set (k := pbits p - pones b) in *. pose proof (pow2_pos k ltac:(lia)) as Hk.
  pose proof (Z.mod_pos_bound c (2 ^ k) Hk). unfold round_down.
  destruct (Z.leb_spec c (hi b)).
  - destruct (Z.ltb_spec (c - c mod 2 ^ k) (lo b)); [done | lia].
  - pose proof (Z.div_mod (lo b) (2 ^ k) ltac:(lia)). pose proof (Z.div_mod c (2 ^ k) ltac:(lia)).
    assert (lo b / 2 ^ k < c / 2 ^ k) by nia. assert (lo b < c - c mod 2 ^ k) by nia.
    destruct (Z.ltb_spec (c - c mod 2 ^ k) (lo b)); [lia|].
    destruct (Z.ltb_spec (lo b) (c - c mod 2 ^ k)); [done | lia].
Qed.

Lemma page_eq c limit : lo p <= c <= hi p + 1 ->
  (forall b, b ∈ rows -> ~ (lo b <= c <= hi b)) ->
  page_of rows p (intToIP c (pbits p)) limit = take limit (remaining c).
Proof using Hp Hnative Hrows Htop.
  intros Hc Hn. unfold page_of, remaining. do 2 f_equal. rewrite inet_of_cursor by done.
  destruct (cursor_native c Hc) as [? _]. rewrite Forall_forall in Hrows. apply filter_ext_in.
  intros b Hb%list_elem_of_In. specialize (Hrows b Hb).
  rewrite subnet_eq_inside, andb_true_r by done. apply inet_ge_cursor; [done | lia | by apply Hn].
Qed.

(** ** The loop *)

(** The scan stands in the one parent at [c], and no row still to come starts below
    the last one it was fed. *)
Record searching (s : Scan) (c : Z) : Prop := {
  se_at : at_parent s p c;
  se_range : lo p <= c <= hi p + 1;
  se_last : forall l b, sc_last s = Some l -> b ∈ rows -> c <= hi b -> l <= lo b;
  se_parents : sc_parents s = [p];
  se_pIdx : sc_pIdx s = 0;
  se_result : sc_result s = None;
  se_len : sc_prefixLen s = u
}.

(** [t] is the answer of a search that stood at [c] in state [s]. *)
Definition finds (t s : Scan) (c : Z) : Prop :=
  sc_done t = true
  /\ sc_result t = fit_in p (free_above c) u
  /\ sc_firstFree t = note (sc_firstFree s) (pbits p) (free_above c).

Lemma note_app ff bits a b : note (note ff bits a) bits b = note ff bits (a ++ b).
Proof using. destruct ff; [done|]. by destruct a. Qed.

Lemma note_fit ff bits a b n : fit_in p a u = Some n -> note ff bits (a ++ b) = note ff bits a.
Proof using. destruct a; [by rewrite fit_in_nil | by destruct ff]. Qed.

Lemma feed_rows s c q :
  searching s c -> q <> [] -> StronglySorted (Prelude.key_le lo) q -> (forall b, b ∈ q -> b ∈ rows /\ c <= hi b) ->
  free_above c = (walk c q).1 ++ free_above (walk c q).2 ->
  (forall b k, k ∈ q -> b ∈ rows -> (walk c q).2 <= hi b -> lo k <= lo b) ->
  exists s', feed_loop s q = (s', None)
    /\ (finds s' s c
        \/ sc_done s' = false /\ searching s' (walk c q).2 /\ forall t, finds t s' (walk c q).2 -> finds t s c).
Proof using Hrows.
  intros [Hat Hr Hl Hps Hpi Hres Hu] Hne Hs Hsub Hsplit Hlast.
  assert (Hin : Forall (inside p) q).
  { rewrite Forall_forall in Hrows. apply Forall_forall. intros b Hb. by apply Hrows, Hsub. }
  destruct (feed_walk p q Hin Hs s c Hat) as (s' & Hf & Hff & Hm).
  { intros l b Hll Hb. destruct (Hsub b Hb). by apply (Hl l b). }
  exists s'. split; [done|]. rewrite Hu in Hm.
  destruct (fit_in p (walk c q).1 u) as [n|] eqn:Hfit.
  - left. destruct Hm as [Hd Hn]. unfold finds. rewrite Hsplit, fit_in_app, Hfit.
    split; [done|]. split; [done|]. rewrite Hff. by rewrite (note_fit _ _ _ _ n).
  - right. destruct Hm as (Hat' & (H1 & H2 & H3 & H4 & H5 & H6) & Hlst).
    split; [by destruct Hat'|]. split.
    + constructor; [done | | | by rewrite <- H1 | by rewrite <- H3 | by rewrite <- H5 | by rewrite <- H2].
      * pose proof (walk_cursor_le c q). pose proof (walk_cursor_bound p c q Hin ltac:(lia)). lia.
      * intros l b Hll Hb Hle. rewrite Hlst in Hll. destruct (last q) as [k|] eqn:Hk.
        -- injection Hll as <-. apply (Hlast b k); [|done|done]. by apply last_Some_elem_of.
        -- by apply last_None in Hk.
    + intros t (Ht1 & Ht2 & Ht3). unfold finds. rewrite Hsplit, fit_in_app, Hfit. split; [done|].
      split; [done|]. by rewrite Ht3, Hff, note_app.
Qed.

(** A probe that finds something: everything up to its end is occupied. *)
Lemma probe_split c :
  lo p <= c <= hi p + 1 ->
  let q := covering_of rows p (intToIP c (pbits p)) in
  q <> [] -> c < (walk c q).2 /\ free_above c = (walk c q).1 ++ free_above (walk c q).2.
Proof using Hp Hnative Hrows Htop.
  intros Hc q Hne. assert (Hel : forall b, b ∈ q <-> b ∈ rows /\ lo b <= c <= hi b)
    by (intros b; by apply covering_elem).
  rewrite walk_no_gaps by (intros b Hb; apply Hel in Hb as [_ ?]; lia). cbn [app].
  assert (Hlt : c < (walk c q).2).
  { destruct q as [|b0 q0] eqn:E; [done|]. pose proof (walk_cursor_past c (b0 :: q0) b0 ltac:(left)).
    destruct (proj1 (Hel b0) ltac:(left)) as [_ ?]. lia. }
  split; [done|]. apply free_above_skip; [lia | lia |].
  destruct (walk_cursor_reached c q) as [E | (b & Hb & E)]; [lia|]. intros x Hx.
  apply Hel in Hb as [Hb Hbc]. unfold free_in. apply andb_false_iff. right. apply negb_false_iff, blocked_spec.
  exists b. split; [done|]. rewrite Forall_forall in Hrows. destruct (Hrows b Hb) as (_ & ? & _).
  apply covers_spec. split; [done | lia].
Qed.

(** A page read where the probe found nothing: the rest of the rows are above it. *)
Lemma page_split c limit :
  lo p <= c <= hi p + 1 -> (forall b, b ∈ rows -> ~ (lo b <= c <= hi b)) ->
  let q := take limit (remaining c) in
  free_above c = (walk c q).1 ++ free_above (walk c q).2
  /\ forall b k, k ∈ q -> b ∈ rows -> (walk c q).2 <= hi b -> lo k <= lo b.
Proof using Hrows.
  intros Hc Hn q. pose proof (remaining_sorted c) as Hs.
  assert (Hsplit : remaining c = q ++ drop limit (remaining c)) by (symmetry; apply take_drop).
  set (r := drop limit (remaining c)) in *. rewrite Hsplit in Hs.
  assert (Hrest : forall b, b ∈ rows -> (walk c q).2 <= hi b -> b ∈ r).
  { intros b Hb Hle. pose proof (walk_cursor_le c q).
    assert (b ∈ remaining c) as Hbr by (apply remaining_elem; split; [done | lia]).
    rewrite Hsplit in Hbr. apply elem_of_app in Hbr as [Hbq | Hbr]; [|done].
    pose proof (walk_cursor_past c q b Hbq). lia. }
  assert (Hq : forall b, b ∈ q -> b ∈ rows).
  { intros b Hb. apply (remaining_elem c b). rewrite Hsplit. apply elem_of_app. by left. }
  assert (Hr : forall b, b ∈ r -> b ∈ rows).
  { intros b Hb. apply (remaining_elem c b). rewrite Hsplit. apply elem_of_app. by right. }
  apply StronglySorted_app in Hs as (Hqr & Hsq & Hsr). split.
  - unfold free_above at 1, gaps_from. rewrite Hsplit, map_app, sweep_walk.
    2: { rewrite Forall_forall in Hrows. apply Forall_forall. intros b Hb. by apply Hrows, Hq. }
    f_equal. apply gaps_from_eq; [|done..]. pose proof (walk_cursor_le c q). lia.
  - intros b k Hk Hb Hle. apply (Hqr k b Hk). by apply Hrest.
Qed.

Lemma end_search s c :
  searching s c -> remaining c = [] -> finds (End_ s) s c.
Proof using Hp Hrows.
  intros [Hat Hr Hl Hps Hpi Hres Hu] Hrem. pose proof (End_outcome s p c Hp Hat) as Ho.
  assert (Hfa : free_above c = if c <=? hi p then [mkRange c (hi p)] else []).
  { unfold free_above, gaps_from. by rewrite Hrem. }
  unfold finds. rewrite Hfa. unfold outcome in Ho. rewrite Hu in Ho.
  destruct (fit_in p _ u) as [n|] eqn:Hfit; [done|].
  destruct Ho as (t & -> & (H1 & H2 & H3 & H4 & H5 & H6) & Hff).
  unfold advanceParent. rewrite <- H3, Hpi, <- H1, Hps.
  change (drop (Z.to_nat (0 + 1)) [p]) with (@nil IPNet). cbn [advance_over sc_done sc_result sc_firstFree].
  by rewrite <- H5, Hres.
Qed.

Lemma done_loop fuel pk dg s d : sc_done s = true -> bounded_loop fuel pk dg s d = Ok (s, d).
Proof using. intros H. destruct fuel; cbn [bounded_loop]; unfold Done; by rewrite H. Qed.

(** The loop answers, or it has used its pages on as many rows. *)
Definition loop_answer (d : Db) (s : Scan) (c : Z) (fuel : nat) (r : result IpamErr (Scan * Db)) : Prop :=
  (exists t, r = Ok (t, d) /\ finds t s c)
  \/ (r = Err ErrSearchDidNotAdvance /\ (fuel <= length (remaining c))%nat).

Lemma bounded_loop_ok pk dg d fuel : cidrs_where (searchFilter pk dg) d = rows -> forall s c,
  searching s c ->
  loop_answer d s c fuel (bounded_loop fuel pk dg s d).
Proof using Hp Hnative Hrows Htop.
  intros Hrw. induction fuel as [|fuel IH]; intros s c Hse.
  { right. cbn [bounded_loop]. unfold Done. rewrite (at_open _ _ _ (se_at _ _ Hse)). split; [done | lia]. }
  pose proof Hse as [Hat Hr Hl Hps Hpi Hres Hu]. pose proof Hat as [Hd Hcur Hbits He Hc].
  cbn [bounded_loop]. unfold Done. rewrite Hd. unfold Need. rewrite Hd, Hcur, Hbits, Hc.
  unfold loadBlocksCovering, loadBlocksFrom, read. unfold mbind, txn_bind. rewrite Hrw.
  set (from := intToIP c (pbits p)). set (q := covering_of rows p from).
  assert (Hel : forall b, b ∈ q <-> b ∈ rows /\ lo b <= c <= hi b) by (intros b; by apply covering_elem).
  unfold feed at 1, Feed. rewrite Hd. destruct q as [|b0 q0] eqn:Eq.
  - cbn [feed_loop]. unfold mret, txn_ret. rewrite Hd, Hbits, Hc. unfold from at 1.
    rewrite IP_Equal_cursor, bool_decide_true by done. cbn [negb]. cbv beta. rewrite Hrw.
    assert (Hn : forall b, b ∈ rows -> ~ (lo b <= c <= hi b)).
    { intros b Hb Hcb. apply (not_elem_of_nil (A := IPNet) b). by apply Hel. }
    unfold from. rewrite page_eq by done. destruct (page_split c searchPageSize Hr Hn) as [Hsplit Hlast].
    destruct (remaining c) as [|b rest] eqn:Erem.
    + rewrite take_nil. pose proof (end_search s c Hse Erem) as Hf. left. exists (End_ s).
      split; [by apply done_loop, Hf | done].
    + change (take searchPageSize (b :: rest)) with (b :: take 255 rest) in *.
      set (pg := b :: take 255 rest) in *.
      assert (Hpg : forall k, k ∈ pg -> k ∈ rows /\ c <= hi k).
      { intros k Hk. apply remaining_elem. rewrite Erem. apply elem_of_cons in Hk as [-> | Hk]; [left|].
        right. by apply (subseteq_take 255 rest). }
      destruct (feed_rows s c pg Hse ltac:(done)) as (s' & Hf & Hor); [| done | done | done |].
      { unfold pg. pose proof (remaining_sorted c) as Hs. rewrite Erem in Hs.
        rewrite <- (take_drop 256 (b :: rest)) in Hs. apply StronglySorted_app in Hs as (_ & Hs & _). exact Hs. }
      unfold feed, Feed. rewrite Hd, Hf. unfold mret, txn_ret. destruct Hor as [Hfd | (Hnd & Hse' & Hfd)].
      { left. exists s'. split; [by apply done_loop, Hfd | done]. }
      destruct (IH s' _ Hse') as [(t & Ht & Hft) | [Herr Hlen]];
        [left; exists t; split; [done | by apply Hfd] | right; split; [exact Herr|]].
      pose proof (walk_cursor_past c pg b ltac:(left)). destruct (Hpg b ltac:(left)).
      pose proof (remaining_shrink c (walk c pg).2 b ltac:(done) ltac:(done) ltac:(done) (walk_cursor_le c pg)) as Hsh.
      lia.
  - rewrite <- Eq in *. destruct (probe_split c Hr) as [Hlt Hsplit]; [unfold q in Eq; fold from; by rewrite Eq|].
    fold from in Hlt, Hsplit. fold q in Hlt, Hsplit.
    destruct (feed_rows s c q Hse) as (s' & Hf & Hor).
    + by rewrite Eq.
    + apply inet_sorted. intros b [Hb _]%list_elem_of_In%filter_In. apply list_elem_of_In in Hb.
      rewrite Forall_forall in Hrows. by apply Hrows.
    + intros b [Hb ?]%Hel. split; [done | lia].
    + done.
    + intros b k Hk Hb Hle. apply Hel in Hk as [_ Hk]. destruct (Z.le_gt_cases (lo k) (lo b)); [done|].
      assert (b ∈ q) as Hbq by (apply Hel; split; [done | lia]). pose proof (walk_cursor_past c q b Hbq). lia.
    + rewrite Hf. unfold mret, txn_ret. destruct Hor as [Hfd | (Hnd & Hse' & Hfd)].
      { destruct Hfd as (Hdone & ?). rewrite Hdone. left. by exists s'. }
      rewrite Hnd. pose proof Hse' as [[_ _ Hbits' _ Hc'] Hr' _ _ _ _ _]. rewrite Hbits', Hc'.
      unfold from. rewrite IP_Equal_cursor by done. rewrite bool_decide_false by lia. cbn [negb].
      destruct (IH s' _ Hse') as [(t & Ht & Hft) | [Herr Hlen]];
        [left; exists t; split; [done | by apply Hfd] | right; split; [exact Herr|]].
      assert (b0 ∈ q) as Hb0 by (rewrite Eq; left). apply Hel in Hb0 as Hb0'. destruct Hb0'.
      pose proof (walk_cursor_past c q b0 Hb0).
      pose proof (remaining_shrink c (walk c q).2 b0 ltac:(done) ltac:(lia) ltac:(done) (walk_cursor_le c q)).
      lia.
Qed.

(** From a floor below which nothing is free, the search over the stored rows gives
    what first fit over all of them gives, unless it runs out of pages. *)
Lemma bounded_search_ok pk dg d floor :
  cidrs_where (searchFilter pk dg) d = rows ->
  floor_ok [p] rows (option_map ipToInt floor) ->
  (match floor with Some f => ipToInt f <= hi p | None => True end) ->
  boundedFirstFit pk dg [p] u floor d
  = match FindFirstAvailableBlock [p] rows u FirstFit with
    | Ok b => Ok ((b, option_map (fun a => intToIP a (pbits p))
                        (option_map r_start (head (regions_in p rows)))), d)
    | Err e => Err (ErrAllocation e)
    end
  \/ (boundedFirstFit pk dg [p] u floor d = Err ErrSearchDidNotAdvance /\ (searchPageLimit <= length rows)%nat).
Proof using Hp Hnative Hrows Htop.
  intros Hrw HF Hfl. destruct (wf_net_facts p Hp) as (_ & _ & _ & _ & Hlohi & _).
  set (c := start_in (option_map ipToInt floor) p).
  assert (Hc : lo p <= c <= hi p).
  { unfold c, start_in. destruct floor as [f|]; cbn; [zcase; lia | lia]. }
  set (s0 := mkScan [p] u (-1) 0 0 0 None None (option_map ipToInt floor) None false).
  assert (Hnew : NewScan [p] u floor = Ok (entered s0 0 p)).
  { unfold NewScan. f_equal. change (advanceParent ?s) with (advance_over 0 [p] s).
    rewrite advance_cons by done. fold s0. change (sc_floor s0) with (option_map ipToInt floor).
    replace (below (option_map ipToInt floor) p) with false; [done|].
    unfold below. destruct floor as [f|]; [|done]. cbn. symmetry. apply Z.ltb_ge. lia. }
  assert (Hse : searching (entered s0 0 p) c).
  { constructor; [| lia | done ..]. constructor; done. }
  unfold boundedFirstFit, lift. unfold mbind, txn_bind. rewrite Hnew. cbn [wrap_err].
  destruct (bounded_loop_ok pk dg d searchPageLimit Hrw _ _ Hse) as [(t & Ht & Hd & Hres & Hff) | [Herr Hlen]].
  2: { right. rewrite Herr. split; [done|]. etransitivity; [exact Hlen|]. unfold remaining. rewrite sort_by_length.
       clear. induction rows as [|r l IH]; [done|]. cbn [List.filter]. destruct (c <=? hi r); cbn; lia. }
  left.
  assert (Hall : free_above c = regions_in p rows).
  { destruct (pool_regions [p] rows rows_pool_ok p ltac:(left)) as (_ & _ & Hok & Hin).
    destruct (free_above_spec c ltac:(lia)) as [Hok' Hin'].
    eapply regions_unique; [exact Hok' | exact Hok |]. intros x. rewrite Hin. apply eq_true_iff_eq.
    rewrite Hin'. split; [tauto|]. intros Hx. split; [|done]. unfold c, start_in.
    assert (lo p <= x) by (unfold free_in in Hx; apply andb_true_iff in Hx as [Hx _]; apply covers_spec in Hx; lia).
    destruct floor as [f|]; cbn; [|lia]. pose proof (HF _ p x eq_refl ltac:(left) Hx). zcase; lia. }
  rewrite Ht. unfold Result. rewrite Hd. cbn [negb]. rewrite Hres, Hall. unfold FindFirstAvailableBlock.
  replace (strategyOrDefault FirstFit) with FirstFit by done. rewrite String.eqb_refl.
  rewrite (firstFitParents_cons [p] rows u rows_pool_ok) by left. cbn [firstFitParents].
  destruct (fit_in p (regions_in p rows) u) as [b|] eqn:Hfit; [|done]. cbn [wrap_err mret txn_ret].
  unfold FirstFree. rewrite Hff, Hall. change (sc_firstFree (entered s0 0 p)) with (@None (Z * Z)).
  by destruct (regions_in p rows).
Qed.
End Search.

(** The rows a search in one pool and one space must treat as occupied. *)
Definition blocking (pk dg : string) (d : Db) : list IPNet := cidrs_where (searchFilter pk dg) d.


(** ** Beyond the bounds *)

(** [fuel] consecutive addresses each held by a block of its own use up [fuel]
    pages: the probe at each one moves the cursor by one address. *)
Section Contiguous.
Context (rows : list IPNet) (p : IPNet) (u : Z).
Context (Hp : wf_net p) (Hnative : native_net p) (Hrows : Forall (inside p) rows) (Htop : next_native p).

Definition held_alone (x : Z) : Prop :=
  (exists b, b ∈ rows /\ lo b <= x <= hi b) /\ forall b, b ∈ rows -> lo b <= x <= hi b -> hi b = x.

Lemma contiguous_loop pk dg d fuel : cidrs_where (searchFilter pk dg) d = rows -> forall s c,
  searching rows p u s c -> c + Z.of_nat fuel <= hi p + 1 ->
  (forall x, c <= x < c + Z.of_nat fuel -> held_alone x) ->
  bounded_loop fuel pk dg s d = Err ErrSearchDidNotAdvance.
Proof using Hp Hnative Hrows Htop.
  intros Hrw. induction fuel as [|fuel IH]; intros s c Hse Htopc Hheld.
  { cbn [bounded_loop]. unfold Done. by rewrite (at_open _ _ _ (se_at _ _ _ _ _ Hse)). }
  pose proof Hse as [Hat Hr _ _ _ _ _]. pose proof Hat as [Hd Hcur Hbits He Hc].
  cbn [bounded_loop]. unfold Done. rewrite Hd. unfold Need. rewrite Hd, Hcur, Hbits, Hc.
  unfold loadBlocksCovering, read. unfold mbind, txn_bind. rewrite Hrw.
  set (q := covering_of rows p (intToIP c (pbits p))).
  assert (Hel : forall b, b ∈ q <-> b ∈ rows /\ lo b <= c <= hi b) by (intros b; by apply covering_elem).
  destruct (Hheld c ltac:(lia)) as [(b0 & Hb0 & Hbc) Hone].
  assert (Hq : q <> []) by (intros E; apply (not_elem_of_nil (A := IPNet) b0); rewrite <- E; by apply Hel).
  destruct (probe_split rows p Hp Hnative Hrows Htop c Hr Hq) as [Hlt Hsplit]. fold q in Hlt, Hsplit.
  assert (Hend : (walk c q).2 = c + 1).
  { destruct (walk_cursor_reached c q) as [E | (b & Hb & E)]; [lia|].
    apply Hel in Hb as [Hb Hbc']. rewrite E, (Hone b Hb Hbc'). done. }
  destruct (feed_rows rows p u Hrows s c q Hse Hq) as (s' & Hf & Hor).
  - apply inet_sorted. intros b [Hb _]%list_elem_of_In%filter_In. apply list_elem_of_In in Hb.
    rewrite Forall_forall in Hrows. by apply Hrows.
  - intros b [Hb ?]%Hel. split; [done | lia].
  - done.
  - intros b k Hk Hb Hle. apply Hel in Hk as [_ Hk]. destruct (Z.le_gt_cases (lo k) (lo b)); [done|].
    assert (b ∈ q) as Hbq by (apply Hel; split; [done | lia]). pose proof (walk_cursor_past c q b Hbq). lia.
  - unfold feed at 1, Feed. rewrite Hd, Hf. unfold mret, txn_ret. rewrite Hend in *.
    destruct Hor as [(Hdone & Hres & _) | (Hnd & Hse' & _)].
    + exfalso. rewrite Hsplit, walk_no_gaps in Hres by (intros b Hb; apply Hel in Hb as [_ ?]; lia).
      cbn [app] in Hres. destruct (feed_walk p q) with (s := s) (c := c) as (s2 & Hf2 & Hff2 & Hm2);
        [| | done | |].
      * rewrite Forall_forall in Hrows. apply Forall_forall. intros b Hb. apply Hrows. by apply Hel in Hb as [? _].
      * apply inet_sorted. intros b [Hb _]%list_elem_of_In%filter_In. apply list_elem_of_In in Hb.
        rewrite Forall_forall in Hrows. by apply Hrows.
      * intros l b Hl Hb. apply Hel in Hb as [? ?]. apply (se_last _ _ _ _ _ Hse l b Hl); [done | lia].
      * rewrite Hf in Hf2. injection Hf2 as <-.
        rewrite walk_no_gaps, fit_in_nil in Hm2 by (intros b Hb; apply Hel in Hb as [_ ?]; lia).
        destruct Hm2 as [[Ho _ _ _ _] _]. congruence.
    + rewrite Hnd. pose proof Hse' as [[_ _ Hbits' _ Hc'] Hr' _ _ _ _ _]. rewrite Hbits', Hc'.
      rewrite (IP_Equal_cursor p Hp Hnative Htop), bool_decide_false by (done || lia). cbn [negb].
      apply (IH s' (c + 1) Hse'); [lia|]. intros x Hx. apply Hheld. lia.
Qed.
End Contiguous.

(** A hundred thousand consecutive single-address allocations at the floor make
    the search give up with an error, whatever is free above them: the page limit
    counts probes, and a probe advances past one allocation. *)
Theorem contiguous_rows_exceed_limit pk dg p u f d :
  wf_net p -> native_net p -> next_native p ->
  Forall (inside p) (blocking pk dg d) ->
  lo p <= ipToInt f -> ipToInt f + 100000 <= hi p + 1 ->
  (forall x, ipToInt f <= x < ipToInt f + 100000 -> held_alone (blocking pk dg d) x) ->
  boundedFirstFit pk dg [p] u (Some f) d = Err ErrSearchDidNotAdvance.
Proof.
  intros Hp Hn Ht Hr Hlo Hhi Hheld. set (c := ipToInt f) in *.
  set (s0 := mkScan [p] u (-1) 0 0 0 None None (Some c) None false).
  assert (Hnew : NewScan [p] u (Some f) = Ok (entered s0 0 p)).
  { unfold NewScan. f_equal. change (advanceParent ?s) with (advance_over 0 [p] s).
    rewrite advance_cons by done. cbn [option_map]. fold c. fold s0.
    replace (below (sc_floor s0) p) with false; [done|]. symmetry. apply Z.ltb_ge. lia. }
  assert (Hst : start_in (Some c) p = c) by (unfold start_in; zcase; lia).
  assert (Hse : searching (blocking pk dg d) p u (entered s0 0 p) c).
  { constructor; [| lia | done ..]. constructor; done. }
  unfold boundedFirstFit, lift. unfold mbind, txn_bind. rewrite Hnew. cbn [wrap_err].
  assert (Hlim : Z.of_nat searchPageLimit = 100000) by (unfold searchPageLimit; by rewrite Z2Nat.id).
  rewrite (contiguous_loop (blocking pk dg d) p u Hp Hn Hr Ht pk dg d searchPageLimit eq_refl _ c Hse); [done | lia |].
  rewrite Hlim. done.
Qed.

(** ** Witnesses *)

(** A pool of one /8 holding rows [nets], all claims of one space. *)
Definition ex_p : IPNet := mk_net (10 * 2 ^ 24) 8 32.

Definition ex_row (i : Z) (n : IPNet) : AllocRow :=
  mkAlloc "p" n None (dec i) IPv4 PurposeClaim "c" "s" "Delete" "" false.

Definition ex_rows_db (nets : list IPNet) : Db := mkDb ∅ [] 0 (map (ex_row 0) nets) ∅ ∅ ∅ ∅.

Lemma ex_rows_blocking nets : blocking "p" "s" (ex_rows_db nets) = nets.
Proof.
  unfold blocking, cidrs_where. cbn [ex_rows_db db_allocs]. induction nets as [|n nets IH]; [done|].
  cbn [map List.filter]. replace (searchFilter "p" "s" (ex_row 0 n)) with true by done.
  cbn [map]. f_equal. exact IH.
Qed.

Definition host32 (x : Z) : IPNet := mk_net x 32 32.

Lemma host32_facts x : lo ex_p <= x <= hi ex_p ->
  inside ex_p (host32 x) /\ lo (host32 x) = x /\ hi (host32 x) = x.
Proof.
  intros Hx. change (lo ex_p) with (10 * 2 ^ 24) in Hx. change (hi ex_p) with (11 * 2 ^ 24 - 1) in Hx.
  assert (valid_block x 32 32) as V.
  { constructor; [by left | lia | lia | cbn; lia | by rewrite Z.mod_1_r | done]. }
  unfold host32, inside. rewrite pbits_mk, lo_mk, hi_mk by done.
  change (lo ex_p) with (10 * 2 ^ 24). change (hi ex_p) with (11 * 2 ^ 24 - 1).
  split; [split; [by constructor | cbn; split; [done | lia]] | cbn; lia].
Qed.

Lemma ex_p_facts : wf_net ex_p /\ native_net ex_p /\ next_native ex_p.
Proof.
  split; [apply wf_netb_spec; vm_compute; reflexivity|].
  split; [apply native_netb_spec; vm_compute; reflexivity | done].
Qed.


(** One hundred thousand addresses of a /8 in use from its first on. *)
Definition ex_contiguous : Db := ex_rows_db (map (fun i => host32 (10 * 2 ^ 24 + i)) (seqZ 0 100000)).

Lemma ex_contiguous_elem b :
  b ∈ blocking "p" "s" ex_contiguous <-> exists i, 0 <= i < 100000 /\ b = host32 (10 * 2 ^ 24 + i).
Proof.
  unfold ex_contiguous. rewrite ex_rows_blocking, list_elem_of_fmap. setoid_rewrite elem_of_seqZ.
  split; intros (i & H1 & H2); exists i; (split; [lia || done | done || lia]).
Qed.

Lemma contiguous_rows_exceed_limit_witness :
  boundedFirstFit "p" "s" [ex_p] 24 (Some (intToIP (10 * 2 ^ 24) 32)) ex_contiguous = Err ErrSearchDidNotAdvance
  /\ free_in ex_p (blocking "p" "s" ex_contiguous) (hi ex_p) = true.
Proof.
  assert (Hh : forall i, 0 <= i < 100000 -> inside ex_p (host32 (10 * 2 ^ 24 + i))
            /\ lo (host32 (10 * 2 ^ 24 + i)) = 10 * 2 ^ 24 + i /\ hi (host32 (10 * 2 ^ 24 + i)) = 10 * 2 ^ 24 + i).
  { intros i Hi. apply host32_facts. change (lo ex_p) with (10 * 2 ^ 24).
    change (hi ex_p) with (11 * 2 ^ 24 - 1). lia. }
  split.
  - apply contiguous_rows_exceed_limit; [apply ex_p_facts | apply ex_p_facts | apply ex_p_facts | | | |].
    + apply Forall_forall. intros b (i & Hi & ->)%ex_contiguous_elem. by apply Hh.
    + vm_compute. discriminate.
    + vm_compute. discriminate.
    + change (ipToInt (intToIP (10 * 2 ^ 24) 32)) with (10 * 2 ^ 24). intros x Hx. split.
      * exists (host32 x). split; [apply ex_contiguous_elem; exists (x - 10 * 2 ^ 24); split; [lia | f_equal; lia]|].
        destruct (Hh (x - 10 * 2 ^ 24) ltac:(lia)) as (_ & H1 & H2).
        replace (10 * 2 ^ 24 + (x - 10 * 2 ^ 24)) with x in H1, H2 by lia. lia.
      * intros b (i & Hi & ->)%ex_contiguous_elem Hb. destruct (Hh i Hi) as (_ & H1 & H2). lia.
  - unfold free_in. apply andb_true_iff. split; [apply covers_spec; vm_compute; split; done|].
    apply negb_true_iff, blocked_false. intros b (i & Hi & ->)%ex_contiguous_elem.
    apply not_true_iff_false. intros [_ H]%covers_spec. destruct (Hh i Hi) as (_ & H1 & H2).
    change (hi ex_p) with (11 * 2 ^ 24 - 1) in H. lia.
Defined.

(** A full pool that ends at the last IPv4 address: the cursor after it prints as
    0.0.0.0, the page read there restarts the pool, and the scan reports an
    ordering error where exhaustion is meant. *)
Example full_range_at_top :
  let p := mk_net (2 ^ 32 - 2) 31 32 in
  let rows := [mk_net (2 ^ 32 - 2) 32 32; mk_net (2 ^ 32 - 1) 32 32] in
  boundedFirstFit "p" "s" [p] 32 None (ex_rows_db rows) = Err (ErrAllocation ErrScanOutOfOrder)
  /\ FindFirstAvailableBlock [p] rows 32 FirstFit = Err ErrPoolExhausted.
Proof. split; vm_compute; reflexivity. Qed.
