(* ===== verification/Prefix.v ===== *)
(** * Prefix: [internal/allocator/prefix.go], [consumption.go], [reservations.go]

    The write paths of the allocator: allocating a block out of a pool, releasing
    or retaining it, materialising a pool's reserved positions, and the running
    consumption total every one of them maintains.  Publishing metrics is left
    out: it changes no table.  What the operations preserve is in PoolInvariant. *)

From Stdlib Require Import Ascii String.
From S2P Require Import Prelude Text Float Net Cidr Reservation Allocate Consumption Scan Tenant Scope.
From S2P Require Import NetText Types Db PoolObject BoundedSearch.
Open Scope string_scope.
Open Scope list_scope.
Open Scope Z_scope.

(** ** Objects *)

(** The kind of the row is the document's, whatever the caller says. *)
Definition insertObject (key kind name : string) (doc : Document) : Txn Z :=
  let kind := if negb (String.eqb (doc_kind doc) "") then doc_kind doc else kind in
  insert_object_row key kind name doc.

Definition updateObject (key : string) (doc : Document) : Txn Z :=
  rv ← update_object_row key doc;
  match rv with None => fail ErrUpdateNotFound | Some rv => mret rv end.

(** [0] when the object was already gone. *)
Definition deleteObject (key : string) : Txn Z :=
  rv ← delete_object_row key; mret (default 0 rv).

Definition GetObject (key : string) : Txn Document :=
  row ← select_object key;
  match row with None => fail ErrObjectNotFound | Some r => mret (ob_data r) end.

Definition lockAndDecodeIPPool (poolKey : string) : Txn IPPool :=
  row ← select_object poolKey;
  match row with
  | None => fail ErrPoolNotFound
  | Some r => match as_pool (ob_data r) with None => fail ErrDecode | Some p => mret p end
  end.

(** The pool handed back carries the status written, as the Go pointer does. *)
Definition persistPoolCapacity (pool : IPPool) (poolKey : string) (parents : list IPNet) (consumed : Z)
    : Txn IPPool :=
  let pool := setPoolCapacityStatus pool parents consumed in
  updateObject poolKey (DocPool pool);; mret pool.

(** ** Consumption *)

Definition readConsumed (poolKey : string) : Txn (option Z) := select_consumed poolKey.
Definition writeConsumed (poolKey : string) (consumed : Z) : Txn unit := upsert_consumed poolKey consumed.

Definition loadOverlapping (poolKey : string) (block : IPNet) (excludeKey : string) : Txn (list IPNet) :=
  read (cidrs_where (fun r =>
    in_pool poolKey r && net_overlap (ar_cidr r) block
    && (String.eqb excludeKey ""
        || match ar_claim_key r with Some k => negb (String.eqb k excludeKey) | None => false end))).

Definition loadExistingAllocations (poolKey : string) : Txn (list IPNet) := read (cidrs_where (in_pool poolKey)).

Definition loadAllocationsInSpace (poolKey scopeDigest : string) : Txn (list IPNet) :=
  read (cidrs_where (searchFilter poolKey scopeDigest)).

Definition seedConsumption (poolKey : string) (parents : list IPNet) : Txn Z :=
  existing ← loadExistingAllocations poolKey;
  m ← lift (wrap_err ErrAllocation (Measure parents existing noReservation));
  mret (Consumed m).

Definition consumptionAfterAllocate (poolKey : string) (parents : list IPNet) (block : IPNet) : Txn Z :=
  overlapping ← loadOverlapping poolKey block "";
  base ← readConsumed poolKey;
  base ← match base with Some n => mret n | None => seedConsumption poolKey parents end;
  delta ← lift (wrap_err ErrAllocation (AddedConsumption parents overlapping block));
  mret (base + delta).

Definition consumptionAfterRelease (poolKey : string) (parents : list IPNet) (block : IPNet) : Txn Z :=
  overlapping ← loadOverlapping poolKey block "";
  base ← readConsumed poolKey;
  match base with
  | None => seedConsumption poolKey parents
  | Some base =>
    delta ← lift (wrap_err ErrAllocation (RemovedConsumption parents overlapping block));
    let freed := base - delta in
    mret (if freed <? 0 then 0 else freed)
  end.

(** ** Reservations *)

Definition reservationFrom (spec : option ReservationSpec) : Reservation :=
  match spec with
  | None => noReservation
  | Some s => mkReservation (rs_UnitPrefixLength s) (rs_Leading s) (rs_Trailing s)
  end.

Definition holdsReservations (poolKey : string) : Txn bool :=
  read (fun d => existsb (fun r => in_pool poolKey r && bool_decide (ar_purpose r = PurposeReservation))
                   (db_allocs d)).

Definition reservationAllocationKey (poolKey : string) (block : IPNet) : string :=
  poolKey +:+ "/reservations/" +:+ IPNet_String block.

Definition reservation_row (poolKey : string) (block : IPNet) (family className : string) : AllocRow :=
  mkAlloc poolKey block None (reservationAllocationKey poolKey block) family PurposeReservation
    className EmptyAddressSpaceDigest "Delete" (ProjectFromKey poolKey) false.

(** [INSERT ... SELECT ... WHERE NOT EXISTS]: whether the row was written. *)
Definition insertReservation (poolKey : string) (block : IPNet) (family className : string) : Txn bool :=
  taken ← read (fun d => existsb (fun r => in_pool poolKey r && net_overlap (ar_cidr r) block) (db_allocs d));
  if taken : bool then mret false
  else insert_alloc (reservation_row poolKey block family className);; mret true.

(** One turn of the loop: the total last written, if any. *)
Definition reserve_block (poolKey : string) (parents : list IPNet) (family className : string)
    (consumed : option Z) (block : IPNet) : Txn (option Z) :=
  next ← consumptionAfterAllocate poolKey parents block;
  inserted ← insertReservation poolKey block family className;
  if inserted : bool then writeConsumed poolKey next;; mret (Some next) else mret consumed.

Definition materialiseReservations (poolKey : string) (pool : IPPool) (parents : list IPNet) : Txn IPPool :=
  let reservation := reservationFrom (ps_Reservations (pl_Spec pool)) in
  if IsZero reservation then mret pool
  else
    held ← holdsReservations poolKey;
    if held : bool then mret pool
    else
      blocks ← lift (wrap_err ErrAllocation (BlocksIn reservation parents));
      let family := effectivePoolFamily pool in
      let className := match ps_ClassRef (pl_Spec pool) with Some r => lr_Name r | None => "" end in
      consumed ← each (reserve_block poolKey parents family className) None blocks;
      match consumed with
      | None => mret pool
      | Some c => persistPoolCapacity pool poolKey parents c
      end.

(** ** Choosing a block *)

Definition findBlock (poolKey scopeDigest : string) (parents : list IPNet) (prefixLen : Z) (strategy : Strategy)
    : Txn IPNet :=
  if negb (String.eqb strategy "") && negb (String.eqb strategy FirstFit) then
    existing ← loadAllocationsInSpace poolKey scopeDigest;
    lift (wrap_err ErrAllocation (FindFirstAvailableBlock parents existing prefixLen strategy))
  else if String.eqb scopeDigest spaceAll then
    r ← boundedFirstFit poolKey spaceAll parents prefixLen None; mret r.1
  else
    observed ← lockSearchFloor poolKey scopeDigest (ipnet_IP (default (mkIPNet [] []) (head parents)));
    r ← boundedFirstFit poolKey scopeDigest parents prefixLen observed;
    raiseSearchFloor poolKey scopeDigest observed r.2;;
    mret r.1.

(** ** Allocating *)

Record PrefixRequest := mkRequest {
  rq_PoolKey : string;
  rq_PrefixLen : Z;
  rq_IPFamily : string;
  rq_ClaimKey : string;
  rq_AllocationKey : string;
  rq_OwnerProject : string;
  rq_ScopeDigest : string;
  rq_ClassName : string;
  rq_ReclaimPolicy : ReclaimPolicy
}.

(** Exhaustion is the allocator's own error; any other keeps its identity. *)
Definition exhausted_err (e : IpamErr) : IpamErr :=
  match e with ErrAllocation ErrPoolExhausted => ErrExhausted | _ => e end.

Definition catch_exhausted {A} (m : Txn A) : Txn A := stmt (fun d => wrap_err exhausted_err (m d)).

Definition claim_row (req : PrefixRequest) (digest : string) (cidr : IPNet) : AllocRow :=
  mkAlloc (rq_PoolKey req) cidr (Some (rq_ClaimKey req))
    (if String.eqb (rq_AllocationKey req) "" then rq_ClaimKey req else rq_AllocationKey req)
    (rq_IPFamily req) PurposeClaim (rq_ClassName req) digest
    (if String.eqb (rq_ReclaimPolicy req) "" then ReclaimDelete else rq_ReclaimPolicy req)
    (rq_OwnerProject req) false.

Definition insertPrefixAllocation (req : PrefixRequest) (digest : string) (cidr : IPNet) : Txn unit :=
  insert_alloc (claim_row req digest cidr).

(** The digest a request is searched and recorded under. *)
Definition effective_digest (req : PrefixRequest) : string :=
  if String.eqb (rq_ScopeDigest req) "" then EmptyAddressSpaceDigest else rq_ScopeDigest req.

Definition AllocatePrefix (req : PrefixRequest) : Txn string :=
  let poolKey := rq_PoolKey req in
  let digest := effective_digest req in
  pool ← lockAndDecodeIPPool poolKey;
  parents ← lift (parsePoolCIDR pool);
  pool ← materialiseReservations poolKey pool parents;
  cidr ← catch_exhausted (findBlock poolKey digest parents (rq_PrefixLen req)
                            (as_Strategy (ps_Allocation (pl_Spec pool))));
  consumed ← consumptionAfterAllocate poolKey parents cidr;
  insertPrefixAllocation req digest cidr;;
  writeConsumed poolKey consumed;;
  persistPoolCapacity pool poolKey parents consumed;;
  mret (IPNet_String cidr).

(** ** Releasing *)

Definition retainAllocations (claimKey : string) : Txn (list string) :=
  rows ← set_claim_where (fun r => bool_decide (ar_claim_key r = Some claimKey)
                                   && String.eqb (ar_reclaim_policy r) ReclaimRetain) None;
  mret (map ar_allocation_key rows).

(** One released row: a pool already gone is skipped. *)
Definition account_release (_ : unit) (r : AllocRow) : Txn unit :=
  row ← select_object (ar_pool_key r);
  match row with
  | None => mret tt
  | Some o =>
    match as_pool (ob_data o) with
    | None => fail ErrDecode
    | Some pool =>
      parents ← lift (parsePoolCIDR pool);
      consumed ← consumptionAfterRelease (ar_pool_key r) parents (ar_cidr r);
      writeConsumed (ar_pool_key r) consumed;;
      persistPoolCapacity pool (ar_pool_key r) parents consumed;;
      mret tt
    end
  end.

Definition deleteAllocations (cond : AllocRow -> bool) : Txn unit :=
  releases ← delete_allocs cond; each account_release tt releases.

Definition Release (claimKey : string) : Txn (list string) :=
  retained ← retainAllocations claimKey;
  deleteAllocations (fun r => bool_decide (ar_claim_key r = Some claimKey));;
  mret retained.

Definition ReleaseAllocation (allocationKey : string) : Txn unit :=
  deleteAllocations (fun r => String.eqb (ar_allocation_key r) allocationKey).

Definition ReleasePoolReservations (poolKey : string) : Txn unit :=
  deleteAllocations (fun r => in_pool poolKey r && bool_decide (ar_purpose r = PurposeReservation)).
