(* ===== verification/PoolInvariant.v ===== *)
(** * PoolInvariant: what the allocation tables always satisfy

    The invariant of the ledger and the proof that the write paths of Prefix keep
    it:

    - every allocation lies inside its pool's range;
    - two allocations of a pool that share an address are claims of two different
      address spaces, so reservations and carves are disjoint from everything;
    - the consumption total of a pool is the measurement of what it holds;
    - nothing free lies below a search floor;
    - claim and allocation keys are unique.

    A release passes through states where rows are gone and the total is not yet
    adjusted; [inv_pending] describes them, with the rows still to be accounted
    for. *)

From Stdlib Require Import Ascii String.
From S2P Require Import Prelude Text Float Net Cidr Reservation Allocate Consumption Scan Tenant Scope.
From S2P Require Import NetText Types Db PoolObject Class Discover BoundedSearch Prefix.
Open Scope string_scope.
Open Scope list_scope.
Open Scope Z_scope.

(** ** The invariant *)

(** The range a stored pool hands out from. *)
Definition pool_range (d : Db) (k : string) (p : IPNet) : Prop :=
  exists r pool, db_objects d !! k = Some r /\ ob_data r = DocPool pool /\ parsePoolCIDR pool = Ok [p].

(** The fields of a pool a capacity write leaves alone. *)
Definition same_pool (a b : IPPool) : Prop :=
  pl_Spec a = pl_Spec b /\ pst_AllocatedCIDR (pl_Status a) = pst_AllocatedCIDR (pl_Status b).

Definition stored (d : Db) (k : string) (pool : IPPool) : Prop :=
  exists r pool0, db_objects d !! k = Some r /\ ob_data r = DocPool pool0 /\ same_pool pool pool0.

Definition good_range (p : IPNet) : Prop := wf_net p /\ native_net p /\ next_native p.

Definition cidrs_of (k : string) (rows : list AllocRow) : list IPNet := map ar_cidr (List.filter (in_pool k) rows).

(** Two rows of a pool may share addresses only as claims of different spaces. *)
Definition compatible (a b : AllocRow) : Prop :=
  ar_pool_key a = ar_pool_key b -> net_overlap (ar_cidr a) (ar_cidr b) = true ->
  ar_purpose a = PurposeClaim /\ ar_purpose b = PurposeClaim /\ ar_scope_digest a <> ar_scope_digest b.

(** [f] is a floor of the space [dg] in the pool: an address of its range below
    which the space has nothing free. *)
Definition floor_valid (d : Db) (k dg : string) (p : IPNet) (f : Inet) : Prop :=
  dg <> "" /\ f.1 = pbits p /\ lo p <= f.2 <= hi p
  /\ forall x, free_in p (blocking k dg d) x = true -> f.2 <= x.

Record inv_pending (pend : list AllocRow) (d : Db) : Prop := {
  inv_range : forall k p, pool_range d k p -> good_range p;
  inv_rows : forall r, r ∈ db_allocs d ++ pend -> exists p, pool_range d (ar_pool_key r) p /\ inside p (ar_cidr r);
  inv_apart : ForallOrdPairs compatible (db_allocs d);
  inv_total : forall k p n, pool_range d k p -> db_consumed d !! k = Some n ->
    n = consumed_in (cidrs_of k (db_allocs d ++ pend)) p;
  inv_counted : forall r, r ∈ db_allocs d ++ pend -> is_Some (db_consumed d !! ar_pool_key r);
  inv_floors : forall k dg p f, pool_range d k p -> db_floors d !! (k, dg) = Some f -> floor_valid d k dg p f;
  inv_fk : forall k, (is_Some (db_consumed d !! k) \/ exists dg, is_Some (db_floors d !! (k, dg))) ->
    is_Some (db_objects d !! k);
  inv_claim_keys : NoDup (omap ar_claim_key (db_allocs d));
  inv_alloc_keys : NoDup (map ar_allocation_key (db_allocs d));
  inv_offers : offers_in_sync d;
  inv_counts : forall k pool, stored d k pool -> counts_ok (reservationFrom (ps_Reservations (pl_Spec pool)))
}.

Definition inv (d : Db) : Prop := inv_pending [] d.

(** ** Lists of rows *)

Lemma compatible_sym a b : compatible a b -> compatible b a.
Proof.
  intros H Hk Ho. assert (net_overlap (ar_cidr a) (ar_cidr b) = true) as Ho'.
  { unfold net_overlap in *. rewrite !andb_true_iff, !Z.eqb_eq, !Z.leb_le in *. lia. }
  destruct (H (eq_sym Hk) Ho') as (? & ? & ?). by repeat split.
Qed.

Lemma ForallOrdPairs_app {A} (R : A -> A -> Prop) l k :
  ForallOrdPairs R (l ++ k) <-> ForallOrdPairs R l /\ ForallOrdPairs R k /\ forall a b, a ∈ l -> b ∈ k -> R a b.
Proof.
  induction l as [|x l IH]; cbn.
  - split; [|by intros (_ & ? & _)]. intros H. split; [constructor|]. split; [done|].
    intros a b Ha. by apply not_elem_of_nil in Ha.
  - split.
    + intros H. inversion H as [|? ? Hx Hl]; subst. apply IH in Hl as (Hl & Hk & Hlk).
      rewrite Forall_app in Hx. destruct Hx as [Hx1 Hx2]. split; [by constructor|]. split; [done|].
      intros a b Ha Hb. apply elem_of_cons in Ha as [-> | Ha]; [|by apply Hlk].
      rewrite Forall_forall in Hx2. by apply Hx2.
    + intros (Hl & Hk & Hlk). inversion Hl as [|? ? Hx Hl']; subst. constructor.
      * apply Forall_app. split; [done|]. apply Forall_forall. intros b Hb. apply Hlk; [left | done].
      * apply IH. split; [done|]. split; [done|]. intros a b Ha Hb. apply Hlk; [by right | done].
Qed.

Lemma ForallOrdPairs_sublist {A} (R : A -> A -> Prop) l k : sublist k l -> ForallOrdPairs R l -> ForallOrdPairs R k.
Proof.
  intros Hs. induction Hs as [|x l1 l2 Hs IH|x l1 l2 Hs IH]; intros H; [done | |].
  - inversion H as [|? ? Hx Hl]; subst. constructor; [|by apply IH].
    rewrite Forall_forall in Hx |- *. intros y Hy. apply Hx. eapply elem_of_submseteq; [done|].
    by apply sublist_submseteq.
  - inversion H; subst. by apply IH.
Qed.

Lemma filter_sublist {A} (f : A -> bool) l : sublist (List.filter f l) l.
Proof. induction l as [|x l IH]; cbn; [constructor|]. destruct (f x); by constructor. Qed.

Lemma elem_of_filter_b {A} (f : A -> bool) l x : x ∈ List.filter f l <-> x ∈ l /\ f x = true.
Proof. by rewrite list_elem_of_In, filter_In, <- list_elem_of_In. Qed.

Lemma filter_partition_perm {A} (f : A -> bool) l :
  Permutation l (List.filter (fun x => negb (f x)) l ++ List.filter f l).
Proof.
  induction l as [|x l IH]; [done|]. cbn. destruct (f x); cbn; [|by constructor].
  rewrite IH at 1. by apply Permutation_middle.
Qed.

Lemma cidrs_of_app k a b : cidrs_of k (a ++ b) = cidrs_of k a ++ cidrs_of k b.
Proof. unfold cidrs_of. by rewrite List.filter_app, map_app. Qed.

Lemma cidrs_of_one k r : cidrs_of k [r] = if decide (ar_pool_key r = k) then [ar_cidr r] else [].
Proof.
  unfold cidrs_of, in_pool. cbn. destruct (String.eqb_spec (ar_pool_key r) k); by case_decide.
Qed.

Lemma cidrs_of_perm k a b : Permutation a b -> Permutation (cidrs_of k a) (cidrs_of k b).
Proof.
  intros H. unfold cidrs_of. apply Permutation_map. induction H; cbn; [done | | |by etransitivity].
  - destruct (in_pool k x); [by constructor | done].
  - destruct (in_pool k x), (in_pool k y); try done. constructor.
Qed.

Lemma cidrs_of_elem k rows n : n ∈ cidrs_of k rows <-> exists r, r ∈ rows /\ ar_pool_key r = k /\ ar_cidr r = n.
Proof.
  unfold cidrs_of. rewrite list_elem_of_fmap. setoid_rewrite elem_of_filter_b. unfold in_pool.
  setoid_rewrite String.eqb_eq. split.
  - intros (r & -> & Hr & Hk). eauto.
  - intros (r & Hr & Hk & <-). eauto.
Qed.

Lemma blocking_all k d : blocking k "" d = cidrs_of k (db_allocs d).
Proof.
  unfold blocking, cidrs_where, cidrs_of. f_equal. apply filter_ext. intros r. unfold searchFilter.
  cbn. by rewrite andb_true_r.
Qed.

(** What the search filter of a space sees. *)
Definition sees (k dg : string) (r : AllocRow) : Prop :=
  ar_pool_key r = k /\ (dg = "" \/ ar_purpose r <> PurposeClaim \/ ar_scope_digest r = dg).

Lemma searchFilter_iff k dg r : searchFilter k dg r = true <-> sees k dg r.
Proof.
  unfold searchFilter, sees, in_pool. rewrite andb_true_iff, !orb_true_iff, !String.eqb_eq, negb_true_iff,
    bool_decide_eq_false. tauto.
Qed.

Lemma blocking_elem k dg d n : n ∈ blocking k dg d <-> exists r, r ∈ db_allocs d /\ sees k dg r /\ ar_cidr r = n.
Proof.
  unfold blocking, cidrs_where. rewrite list_elem_of_fmap. setoid_rewrite elem_of_filter_b.
  setoid_rewrite searchFilter_iff. split.
  - intros (r & -> & Hr & Hs). eauto.
  - intros (r & Hr & Hs & <-). eauto.
Qed.

Lemma net_overlap_iff p a b :
  inside p a -> inside p b ->
  net_overlap a b = true <-> exists x, covers a (pbits p) x = true /\ covers b (pbits p) x = true.
Proof.
  intros Ha Hb. pose proof (inside_bounds p a Ha). pose proof (inside_bounds p b Hb).
  destruct Ha as (_ & Ea & _), Hb as (_ & Eb & _).
  unfold net_overlap. rewrite !andb_true_iff, Z.eqb_eq, !Z.leb_le. setoid_rewrite covers_spec.
  rewrite Ea, Eb. split.
  - intros [[_ ?] ?]. exists (Z.max (lo a) (lo b)). lia.
  - intros (x & ? & ?). lia.
Qed.

(** The pool's rows all lie in its one range. *)
Lemma pool_range_fun d k p p' : pool_range d k p -> pool_range d k p' -> p = p'.
Proof.
  intros (r & pool & Hr & Hd & Hp) (r' & pool' & Hr' & Hd' & Hp'). rewrite Hr in Hr'. injection Hr' as <-.
  rewrite Hd in Hd'. injection Hd' as <-. rewrite Hp in Hp'. by injection Hp'.
Qed.

Lemma inv_inside pend d k p :
  inv_pending pend d -> pool_range d k p -> Forall (inside p) (cidrs_of k (db_allocs d ++ pend)).
Proof.
  intros Hi Hr. apply Forall_forall. intros n (r & Hin & <- & <-)%cidrs_of_elem.
  destruct (inv_rows _ _ Hi r Hin) as (p' & Hr' & H). by rewrite (pool_range_fun _ _ _ _ Hr Hr').
Qed.

Lemma inside_pool_ok p cs : good_range p -> Forall (inside p) cs -> pool_ok [p] cs.
Proof. intros (Hp & Hn & _) Hc. by apply rows_pool_ok. Qed.

(** ** Stored pools *)

Lemma same_pool_parse a b : same_pool a b -> parsePoolCIDR a = parsePoolCIDR b.
Proof. intros [H1 H2]. unfold parsePoolCIDR. by rewrite H1, H2. Qed.

Lemma stored_range d k pool p : stored d k pool -> parsePoolCIDR pool = Ok [p] -> pool_range d k p.
Proof. intros (r & q & Hr & Hq & Hs) Hp. exists r, q. by rewrite <- (same_pool_parse _ _ Hs). Qed.

Lemma lockAndDecode_ok k d pool d' :
  lockAndDecodeIPPool k d = Ok (pool, d') -> d' = d /\ stored d k pool.
Proof.
  unfold lockAndDecodeIPPool, select_object, read, mbind, txn_bind.
  destruct (db_objects d !! k) as [r|] eqn:Hr; [|done].
  destruct (as_pool (ob_data r)) as [q|] eqn:Hq; [|done]. intros [= <- <-]. split; [done|].
  exists r, q. split; [done|]. split; [by apply as_pool_Some | done].
Qed.

(** Two databases that differ in the text of objects and in the change log only. *)
Record same_ledger (d d' : Db) : Prop := {
  sl_allocs : db_allocs d' = db_allocs d;
  sl_floors : db_floors d' = db_floors d;
  sl_consumed : db_consumed d' = db_consumed d;
  sl_identity : db_identity d' = db_identity d;
  sl_stored : forall k pool, stored d' k pool <-> stored d k pool;
  sl_range : forall k p, pool_range d' k p <-> pool_range d k p;
  sl_dom : forall k, is_Some (db_objects d' !! k) <-> is_Some (db_objects d !! k);
  sl_offers : offers_in_sync d -> offers_in_sync d'
}.

Lemma same_ledger_refl d : same_ledger d d.
Proof. by constructor. Qed.

Lemma same_ledger_trans a b c : same_ledger a b -> same_ledger b c -> same_ledger a c.
Proof.
  intros [H1 H2 H3 H4 H5 H6 H7 H8] [K1 K2 K3 K4 K5 K6 K7 K8].
  constructor; [congruence .. | | | | auto]; intros; [by rewrite K5 | by rewrite K6 | by rewrite K7].
Qed.

Lemma floor_valid_ext d d' k dg p f : db_allocs d' = db_allocs d -> floor_valid d k dg p f -> floor_valid d' k dg p f.
Proof. intros E. unfold floor_valid, blocking, cidrs_where. by rewrite E. Qed.

Lemma inv_same pend d d' : same_ledger d d' -> inv_pending pend d -> inv_pending pend d'.
Proof.
  intros [H1 H2 H3 _ H5 H6 H7 H8] [I1 I2 I3 I4 I5 I6 I7 I8 I9 I10 I11].
  constructor; rewrite ?H1, ?H2, ?H3; [| | done | | done | | | done | done | auto |].
  - intros k p. rewrite H6. apply I1.
  - intros r Hr. destruct (I2 r Hr) as (p & Hp & Hin). exists p. by rewrite H6.
  - intros k p n. rewrite H6. apply I4.
  - intros k dg p f. rewrite H6. intros Hr Hf. eapply floor_valid_ext; [exact H1|]. by apply I6.
  - intros k. rewrite H7. apply I7.
  - intros k pool. rewrite H5. apply I11.
Qed.

Lemma offers_sync_update d k r' doc :
  ob_data r' = doc -> offers_in_sync d ->
  offers_in_sync (sync_offers (set_objects d (<[k := r']> (db_objects d))) k doc).
Proof.
  intros Hdoc Hs key r1 p cn Hr1 Hp.
  assert (Hobj : db_objects (sync_offers (set_objects d (<[k := r']> (db_objects d))) k doc)
                 = <[k := r']> (db_objects d)) by by destruct doc.
  rewrite Hobj in Hr1. apply lookup_insert_Some in Hr1 as [[<- <-] | [Hne Hr1]].
  - rewrite Hdoc in Hp. subst doc. rewrite Hp. cbn. rewrite elem_of_union, elem_of_filter, elem_of_list_to_set.
    rewrite list_elem_of_fmap. cbn. naive_solver.
  - destruct doc as [| q | | |]; cbn; try by apply (Hs key r1 p).
    rewrite elem_of_union, elem_of_filter, elem_of_list_to_set, list_elem_of_fmap. cbn.
    rewrite <- (Hs key r1 p cn Hr1 Hp). naive_solver.
Qed.

(** Writing a pool back with the same range changes nothing the ledger depends on. *)
Lemma updateObject_same d k pool q :
  stored d k pool -> same_pool q pool ->
  exists rv d', updateObject k (DocPool q) d = Ok (rv, d') /\ same_ledger d d' /\ stored d' k q.
Proof.
  intros (r & pool0 & Hr & Hd & Hs) Hq. unfold updateObject, update_object_row. unfold mbind, txn_bind.
  rewrite Hr. eexists _, _. split; [done|].
  set (r' := mkObj _ _ _ _). set (d1 := set_objects d _).
  assert (Hsp : same_pool q pool0) by (destruct Hs, Hq; split; congruence).
  assert (Hobj : db_objects (log_change (sync_offers d1 k (DocPool q)) (db_rv d + 1)
                   (mkChange k (db_rv d + 1) MODIFIED (DocPool q))) = <[k := r']> (db_objects d)) by done.
  split.
  - constructor; [done | done | done | done | | | |].
    + intros k' pool'. unfold stored. rewrite Hobj. split; intros (r1 & p1 & H1 & H2 & H3).
      * apply lookup_insert_Some in H1 as [[<- <-] | [_ H1]]; [|by exists r1, p1].
        cbn in H2. injection H2 as <-. exists r, pool0. split; [done|]. split; [done|].
        destruct H3, Hsp; split; congruence.
      * destruct (decide (k' = k)) as [-> | Hne]; [|exists r1, p1; by rewrite lookup_insert_ne].
        exists r', q. rewrite lookup_insert_eq. split; [done|]. split; [done|].
        rewrite Hr in H1. injection H1 as <-. rewrite Hd in H2. injection H2 as <-.
        destruct H3, Hsp; split; congruence.
    + intros k' p. unfold pool_range. rewrite Hobj. split; intros (r1 & p1 & H1 & H2 & H3).
      * apply lookup_insert_Some in H1 as [[<- <-] | [_ H1]]; [|by exists r1, p1].
        cbn in H2. injection H2 as <-. exists r, pool0. rewrite <- (same_pool_parse _ _ Hsp). done.
      * destruct (decide (k' = k)) as [-> | Hne]; [|exists r1, p1; by rewrite lookup_insert_ne].
        exists r', q. rewrite lookup_insert_eq, (same_pool_parse _ _ Hsp). split; [done|]. split; [done|].
        rewrite Hr in H1. injection H1 as <-. rewrite Hd in H2. by injection H2 as <-.
    + intros k'. rewrite Hobj. destruct (decide (k' = k)) as [-> | Hne].
      * rewrite lookup_insert_eq, Hr. split; by eexists.
      * by rewrite lookup_insert_ne.
    + intros Hsync. by apply (offers_sync_update d k r' (DocPool q)).
  - exists r', q. rewrite Hobj, lookup_insert_eq. split; [done|]. by repeat split.
Qed.

Lemma persistPoolCapacity_ok d k pool p n :
  stored d k pool -> exists q d', persistPoolCapacity pool k [p] n d = Ok (q, d')
    /\ same_ledger d d' /\ stored d' k q /\ same_pool q pool.
Proof.
  intros Hs. unfold persistPoolCapacity.
  destruct (updateObject_same d k pool (setPoolCapacityStatus pool [p] n) Hs ltac:(by split))
    as (rv & d' & Hu & Hl & Hst).
  unfold mbind, txn_bind. rewrite Hu. eexists _, d'. split; [done|]. split; [done|]. by split.
Qed.

(** ** The running total *)

Lemma writeConsumed_ok d k n :
  0 <= n -> is_Some (db_objects d !! k) ->
  writeConsumed k n d = Ok (tt, set_consumed d (<[k := n]> (db_consumed d))).
Proof.
  intros Hn Hk. unfold writeConsumed, upsert_consumed, check. unfold mbind, txn_bind.
  destruct (Z.leb_spec 0 n); [|lia]. by rewrite bool_decide_true.
Qed.

Lemma sumZ_one {A} (f : A -> Z) x : sumZ f [x] = f x.
Proof. unfold sumZ. cbn. lia. Qed.

(** The bounded lookup holds every row of the pool that overlaps the block. *)
Lemma loadOverlapping_ok d k p n :
  Forall (inside p) (cidrs_of k (db_allocs d)) -> inside p n ->
  exists o, loadOverlapping k n "" d = Ok (o, d) /\ covers_overlaps (cidrs_of k (db_allocs d)) o n.
Proof.
  intros Hin Hn. eexists. split; [done|]. rewrite Forall_forall in Hin. split.
  - intros e (r & -> & Hr)%list_elem_of_fmap. apply elem_of_filter_b in Hr as [Hr Hc].
    rewrite !andb_true_iff in Hc. destruct Hc as [[Hk _] _]. apply String.eqb_eq in Hk.
    apply cidrs_of_elem. eauto.
  - intros e He Ho. pose proof (Hin e He) as Hie. apply cidrs_of_elem in He as (r & Hr & Hk & <-).
    apply list_elem_of_fmap. exists r. split; [done|]. apply elem_of_filter_b. split; [done|].
    unfold in_pool. rewrite Hk, String.eqb_refl. cbn. rewrite andb_true_r.
    destruct Hn as (Hn & Hnb & _), Hie as (He & Heb & _).
    rewrite CIDRsOverlap_eq in Ho by done. unfold net_overlap.
    rewrite !andb_true_iff, !Z.eqb_eq, !Z.leb_le in *. lia.
Qed.

Lemma consumptionDelta_newly p existing o n :
  good_range p -> Forall (inside p) existing -> inside p n -> covers_overlaps existing o n ->
  consumptionDelta [p] o n = Ok (newly p existing n).
Proof.
  intros Hg Hin Hn Hc.
  assert (Hall : Forall (inside p) (existing ++ [n])) by (apply Forall_app; by split; [|constructor]).
  pose proof (inside_pool_ok p _ Hg Hall) as HP.
  rewrite consumptionDelta_eq by (eapply pool_ok_sub; [exact HP | apply Hc]).
  rewrite sumZ_one. f_equal. apply newly_local; [apply Hn | | done].
  eapply Forall_impl; [exact Hin|]. by intros b [? _].
Qed.

(** The total a write of [n] computes: the measurement of the pool with [n] in it. *)
Lemma consumptionAfterAllocate_ok d k p n :
  inv d -> pool_range d k p -> inside p n ->
  consumptionAfterAllocate k [p] n d
  = Ok (consumed_in (cidrs_of k (db_allocs d) ++ [n]) p, d).
Proof.
  intros Hi Hr Hn. pose proof (inv_inside [] d k p Hi Hr) as Hin. rewrite app_nil_r in Hin.
  pose proof (inv_range _ _ Hi k p Hr) as Hg.
  destruct (loadOverlapping_ok d k p n Hin Hn) as (o & Ho & Hc).
  pose proof (consumptionDelta_newly p _ o n Hg Hin Hn Hc) as Hd.
  unfold consumptionAfterAllocate, readConsumed, select_consumed, seedConsumption, loadExistingAllocations, read, lift.
  unfold mbind, txn_bind. rewrite Ho. change (AddedConsumption [p] o n) with (consumptionDelta [p] o n).
  rewrite Hd, consumed_snoc.
  destruct (db_consumed d !! k) as [t|] eqn:Ht; cbn [mret txn_ret wrap_err].
  - pose proof (inv_total _ _ Hi k p t Hr Ht) as ->. by rewrite app_nil_r.
  - destruct (Measure_consumed [p] (cidrs_of k (db_allocs d)) (inside_pool_ok p _ Hg Hin)) as (m & Hm & Hcm).
    change (cidrs_where (in_pool k) d) with (cidrs_of k (db_allocs d)). rewrite Hm. cbn [wrap_err].
    by rewrite Hcm, sumZ_one.
Qed.

(** ** Inserting a row *)

Lemma claim_key_free_NoDup row rows :
  NoDup (omap ar_claim_key rows) ->
  (match ar_claim_key row with None => true
   | Some k => forallb (fun r => negb (bool_decide (ar_claim_key r = Some k))) rows end) = true ->
  NoDup (omap ar_claim_key (rows ++ [row])).
Proof.
  intros Hnd Hf. rewrite omap_app. cbn. destruct (ar_claim_key row) as [k|]; [|by rewrite app_nil_r].
  apply NoDup_app. split; [done|]. split; [|apply NoDup_singleton].
  intros k' Hk' ->%list_elem_of_singleton. apply list_elem_of_omap in Hk' as (r & Hr & Hk).
  rewrite forallb_forall in Hf. apply list_elem_of_In in Hr. specialize (Hf r Hr).
  by rewrite bool_decide_true in Hf.
Qed.

Lemma allocation_key_free_NoDup k rows row :
  ar_allocation_key row = k -> NoDup (map ar_allocation_key rows) ->
  forallb (fun r => negb (String.eqb (ar_allocation_key r) k)) rows = true ->
  NoDup (map ar_allocation_key (rows ++ [row])).
Proof.
  intros <- Hnd Hf. rewrite map_app. apply NoDup_app. split; [done|]. split; [|apply NoDup_singleton].
  intros k Hk ->%list_elem_of_singleton. apply list_elem_of_fmap in Hk as (r & He & Hr).
  rewrite forallb_forall in Hf. apply list_elem_of_In in Hr. specialize (Hf r Hr).
  by rewrite <- He, String.eqb_refl in Hf.
Qed.

Lemma insert_alloc_ok row d u d' :
  insert_alloc row d = Ok (u, d') ->
  d' = set_allocs d (db_allocs d ++ [row])
  /\ family_ok (ar_ip_family row) = true /\ is_Some (db_objects d !! ar_pool_key row)
  /\ claim_key_free (ar_claim_key row) d = true /\ allocation_key_free (ar_allocation_key row) d = true.
Proof.
  unfold insert_alloc, check, write. unfold mbind, txn_bind.
  destruct (family_ok _); [|done]. case_bool_decide; [|done].
  destruct (claim_key_free _ d); [|done]. destruct (allocation_key_free _ d); [|done].
  destruct (no_conflict row d); [|done]. by intros [= _ <-].
Qed.

(** A row that is compatible with every other never trips the exclusion
    constraint. *)
Lemma insert_alloc_succeeds row d :
  family_ok (ar_ip_family row) = true -> is_Some (db_objects d !! ar_pool_key row) ->
  claim_key_free (ar_claim_key row) d = true -> allocation_key_free (ar_allocation_key row) d = true ->
  (forall r, r ∈ db_allocs d -> compatible r row) ->
  insert_alloc row d = Ok (tt, set_allocs d (db_allocs d ++ [row])).
Proof.
  intros Hf Hk Hc Ha Hcomp. unfold insert_alloc, check, write. unfold mbind, txn_bind.
  rewrite Hf, bool_decide_true, Hc, Ha by done.
  replace (no_conflict row d) with true; [done|]. symmetry. apply forallb_forall.
  intros r Hr%list_elem_of_In. apply negb_true_iff, not_true_iff_false.
  rewrite !andb_true_iff. intros [[Hk' Hdg] Ho]. apply String.eqb_eq in Hk', Hdg.
  by destruct (Hcomp r Hr Hk' Ho) as (_ & _ & ?).
Qed.

Lemma blocking_snoc k dg d row :
  (forall n, n ∈ blocking k dg d -> n ∈ blocking k dg (set_allocs d (db_allocs d ++ [row]))).
Proof.
  intros n (r & Hr & Hs)%blocking_elem. apply blocking_elem. exists r. split; [|done].
  cbn. apply elem_of_app. by left.
Qed.

Lemma free_in_mono p a b x : (forall n, n ∈ a -> n ∈ b) -> free_in p b x = true -> free_in p a x = true.
Proof.
  unfold free_in. intros Hsub. rewrite !andb_true_iff, !negb_true_iff, !blocked_false. intros [Hx Hn].
  split; [done|]. intros n Hn'. apply Hn. by apply Hsub.
Qed.

Lemma pool_range_allocs d k p rows : pool_range (set_allocs d rows) k p <-> pool_range d k p.
Proof. done. Qed.

(** Recording a compatible row and the total that counts it. *)
Lemma inv_insert d row p :
  inv d -> pool_range d (ar_pool_key row) p -> inside p (ar_cidr row) ->
  (forall r, r ∈ db_allocs d -> compatible r row) ->
  claim_key_free (ar_claim_key row) d = true -> allocation_key_free (ar_allocation_key row) d = true ->
  let k := ar_pool_key row in
  inv (set_consumed (set_allocs d (db_allocs d ++ [row]))
         (<[k := consumed_in (cidrs_of k (db_allocs d) ++ [ar_cidr row]) p]> (db_consumed d))).
Proof.
  intros Hi Hr Hin Hcomp Hck Hak k. destruct Hi as [I1 I2 I3 I4 I5 I6 I7 I8 I9 I10 I11].
  constructor; cbn [set_consumed set_allocs db_allocs db_consumed db_floors db_objects];
    rewrite ?app_nil_r in *.
  - exact I1.
  - intros r [Hr' | ->%list_elem_of_singleton]%elem_of_app; [by apply I2 | by exists p].
  - apply ForallOrdPairs_app. split; [done|]. split; [repeat constructor|].
    intros a b Ha ->%list_elem_of_singleton. by apply Hcomp.
  - intros k' p' n Hr' Hn. rewrite cidrs_of_app. apply lookup_insert_Some in Hn as [[<- <-] | [Hne Hn]].
    + by rewrite (pool_range_fun _ _ _ _ Hr' Hr), cidrs_of_one, decide_True.
    + by rewrite (I4 k' p' n Hr' Hn), cidrs_of_one, decide_False, app_nil_r.
  - intros r Hr'. destruct (decide (ar_pool_key r = k)) as [-> | Hne]; [rewrite lookup_insert_eq; by eexists|].
    rewrite lookup_insert_ne by done. apply elem_of_app in Hr' as [Hr' | ->%list_elem_of_singleton]; [by apply I5 | done].
  - intros k' dg p' f Hr' Hf. destruct (I6 k' dg p' f Hr' Hf) as (H1 & H2 & H3 & H4).
    split; [done|]. split; [done|]. split; [done|]. intros x Hx. apply H4.
    eapply free_in_mono; [|exact Hx]. intros n. apply (blocking_snoc k' dg d row).
  - intros k' [Hc | Hf]; [|apply I7; by right].
    destruct (decide (k' = k)) as [-> | Hne].
    + destruct Hr as (r0 & q & Hr0 & _). by exists r0.
    + rewrite lookup_insert_ne in Hc by done. apply I7. by left.
  - by apply claim_key_free_NoDup.
  - by eapply allocation_key_free_NoDup.
  - exact I10.
  - exact I11.
Qed.

(** ** Deleting rows *)

Definition lowered_by (rows : list AllocRow) (k : string * string) (f : Inet) : Inet :=
  foldl (fun f r => lowered r k f) f rows.

Lemma foldl_lower rows d :
  let d' := foldl (fun d r => lower_floors r d) d rows in
  db_objects d' = db_objects d /\ db_allocs d' = db_allocs d /\ db_consumed d' = db_consumed d
  /\ db_offers d' = db_offers d /\ db_identity d' = db_identity d
  /\ forall k, db_floors d' !! k = lowered_by rows k <$> db_floors d !! k.
Proof.
  revert d. induction rows as [|r rows IH]; intros d; cbn [foldl].
  { repeat split. intros k. by destruct (db_floors d !! k). }
  destruct (IH (lower_floors r d)) as (H1 & H2 & H3 & H4 & H5 & H6). rewrite H1, H2, H3, H4, H5.
  repeat split. intros k. rewrite H6. cbn. rewrite map_lookup_imap. by destruct (db_floors d !! k).
Qed.

Lemma lowered_case r k dg f :
  dg <> "" -> lowered r (k, dg) f = f \/ sees k dg r /\ lowered r (k, dg) f = inet_least f (host_of (ar_cidr r)).
Proof.
  intros Hdg. unfold lowered, sees, in_pool. cbn [fst snd].
  destruct (String.eqb_spec (ar_pool_key r) k), (bool_decide (ar_purpose r = PurposeClaim)) eqn:E,
    (String.eqb_spec (ar_scope_digest r) dg); cbn; try (by left); right; (split; [|done]);
    (split; [done|]); try (right; right; done); apply bool_decide_eq_false in E; auto.
Qed.

Lemma lowered_sees r k dg f :
  dg <> "" -> sees k dg r -> lowered r (k, dg) f = inet_least f (host_of (ar_cidr r)).
Proof.
  intros Hdg (Hk & [? | [Hp | Hs]]); [done | |]; unfold lowered, in_pool; cbn [fst snd].
  - by rewrite Hk, String.eqb_refl, bool_decide_false.
  - by rewrite Hk, Hs, !String.eqb_refl, orb_true_r.
Qed.

(** The trigger leaves the lowest of the floor and the freed blocks it concerns. *)
Lemma lowered_by_spec rows k dg p f :
  dg <> "" -> (forall r, r ∈ rows -> ar_pool_key r = k -> inside p (ar_cidr r)) ->
  f.1 = pbits p -> lo p <= f.2 ->
  let f' := lowered_by rows (k, dg) f in
  f'.1 = pbits p /\ lo p <= f'.2 <= f.2
  /\ (forall r, r ∈ rows -> sees k dg r -> f'.2 <= lo (ar_cidr r)).
Proof.
  intros Hdg. revert f. induction rows as [|r rows IH]; intros f Hin Hf1 Hf2.
  { split; [done|]. split; [cbn; lia|]. intros r Hr. by apply not_elem_of_nil in Hr. }
  change (lowered_by (r :: rows) (k, dg) f) with (lowered_by rows (k, dg) (lowered r (k, dg) f)).
  assert (Hin' : forall r, r ∈ rows -> ar_pool_key r = k -> inside p (ar_cidr r)) by (intros; apply Hin; [by right | done]).
  assert (Hleast : sees k dg r -> (inet_least f (host_of (ar_cidr r))).1 = pbits p
            /\ lo p <= (inet_least f (host_of (ar_cidr r))).2 <= f.2
            /\ (inet_least f (host_of (ar_cidr r))).2 <= lo (ar_cidr r)).
  { intros (Hk & _). pose proof (Hin r ltac:(left) Hk) as Hi. pose proof (inside_bounds p _ Hi).
    destruct Hi as (_ & Hb & _). unfold inet_least, host_of. cbn [fst snd]. rewrite Hf1, Hb, Z.eqb_refl.
    zcase; cbn; lia. }
  destruct (lowered_case r k dg f Hdg) as [E | [Hs E]].
  - rewrite E. destruct (IH f Hin' Hf1 Hf2) as (H1 & H2 & H3). split; [done|]. split; [done|].
    intros r' Hr' Hs. apply elem_of_cons in Hr' as [-> | Hr']; [|by apply H3].
    rewrite (lowered_sees r k dg f Hdg Hs) in E. destruct (Hleast Hs) as (_ & _ & H). rewrite E in H. lia.
  - rewrite E. destruct (Hleast Hs) as (L1 & L2 & L3).
    destruct (IH (inet_least f (host_of (ar_cidr r))) Hin' L1 ltac:(lia)) as (H1 & H2 & H3).
    split; [done|]. split; [lia|]. intros r' Hr' Hs'. apply elem_of_cons in Hr' as [-> | Hr']; [|by apply H3].
    etransitivity; [apply H2 | exact L3].
Qed.

Lemma delete_allocs_eq cond d :
  exists d', delete_allocs cond d = Ok (List.filter cond (db_allocs d), d')
    /\ db_allocs d' = List.filter (fun r => negb (cond r)) (db_allocs d)
    /\ db_objects d' = db_objects d /\ db_consumed d' = db_consumed d /\ db_offers d' = db_offers d
    /\ db_identity d' = db_identity d
    /\ forall k, db_floors d' !! k = lowered_by (List.filter cond (db_allocs d)) k <$> db_floors d !! k.
Proof.
  unfold delete_allocs. eexists. split; [done|].
  destruct (foldl_lower (List.filter cond (db_allocs d))
              (set_allocs d (List.filter (fun r => negb (cond r)) (db_allocs d)))) as (H1 & H2 & H3 & H4 & H5 & H6).
  by rewrite H1, H2, H3, H4, H5.
Qed.

Lemma omap_filter_NoDup (f : AllocRow -> bool) rows :
  NoDup (omap ar_claim_key rows) -> NoDup (omap ar_claim_key (List.filter f rows)).
Proof.
  induction rows as [|r rows IH]; [done|]. cbn. destruct (ar_claim_key r) as [k|] eqn:Hk.
  - intros [Hn Hnd]%NoDup_cons. destruct (f r); cbn; rewrite ?Hk; [|by apply IH]. constructor; [|by apply IH].
    intros Hin. apply Hn. apply list_elem_of_omap in Hin as (r' & Hr' & Hk').
    apply elem_of_filter_b in Hr' as [Hr' _]. apply list_elem_of_omap. by exists r'.
  - intros Hnd. destruct (f r); cbn; rewrite ?Hk; by apply IH.
Qed.

Lemma map_filter_NoDup {A B} (g : A -> B) (f : A -> bool) l : NoDup (map g l) -> NoDup (map g (List.filter f l)).
Proof.
  intros H. refine (sublist_NoDup _ _ H _). apply (fmap_sublist g), filter_sublist.
Qed.

(** Deleted rows leave the floors right at once and the totals behind by exactly
    their blocks. *)
Lemma inv_delete cond d :
  inv d -> exists d', delete_allocs cond d = Ok (List.filter cond (db_allocs d), d')
    /\ inv_pending (List.filter cond (db_allocs d)) d'
    /\ db_allocs d' = List.filter (fun r => negb (cond r)) (db_allocs d)
    /\ db_objects d' = db_objects d /\ db_identity d' = db_identity d.
Proof.
  intros Hi. destruct (delete_allocs_eq cond d) as (d' & Hd & Ha & Ho & Hc & Hof & Hid & Hfl).
  exists d'. split; [done|]. split; [|done]. set (gone := List.filter cond (db_allocs d)) in *.
  assert (Hrange : forall k p, pool_range d' k p <-> pool_range d k p) by (intros; unfold pool_range; by rewrite Ho).
  pose proof (filter_partition_perm cond (db_allocs d)) as Hperm. fold gone in Hperm. rewrite <- Ha in Hperm.
  destruct Hi as [I1 I2 I3 I4 I5 I6 I7 I8 I9 I10 I11]. rewrite app_nil_r in *.
  constructor; rewrite ?Hc, ?Ho.
  - intros k p. rewrite Hrange. apply I1.
  - intros r. rewrite <- Hperm. intros Hr. destruct (I2 r Hr) as (p & Hp & Hin). exists p. by rewrite Hrange.
  - rewrite Ha. eapply ForallOrdPairs_sublist; [apply filter_sublist | done].
  - intros k p n Hr Hn. rewrite (I4 k p n); [|by apply Hrange | done].
    apply consumed_perm. by apply cidrs_of_perm.
  - intros r. rewrite <- Hperm. apply I5.
  - intros k dg p f Hr Hf. apply Hrange in Hr. rewrite Hfl in Hf.
    destruct (db_floors d !! (k, dg)) as [f0|] eqn:Hf0; [|done]. injection Hf as <-.
    destruct (I6 k dg p f0 Hr Hf0) as (H1 & H2 & H3 & H4).
    destruct (lowered_by_spec gone k dg p f0 H1) as (L1 & L2 & L3); [| done | lia |].
    { intros r Hrg <-. apply elem_of_filter_b in Hrg as [Hrg _].
      destruct (I2 r Hrg) as (p' & Hp' & Hin). by rewrite (pool_range_fun _ _ _ _ Hr Hp'). }
    split; [done|]. split; [done|]. split; [lia|]. intros x Hx.
    destruct (free_in p (blocking k dg d) x) eqn:Hbefore.
    { specialize (H4 x Hbefore). lia. }
    unfold free_in in Hx, Hbefore. apply andb_true_iff in Hx as [Hxp Hx]. rewrite Hxp in Hbefore. cbn in Hbefore.
    apply negb_false_iff, blocked_spec in Hbefore as (n & Hn & Hcov). apply blocking_elem in Hn as (r & Hr' & Hs & <-).
    assert (r ∈ gone) as Hg.
    { rewrite Hperm in Hr'. apply elem_of_app in Hr' as [Hr' | Hr']; [|done]. exfalso.
      apply negb_true_iff in Hx. rewrite blocked_false in Hx. rewrite (Hx (ar_cidr r)) in Hcov; [done|].
      apply blocking_elem. by exists r. }
    specialize (L3 r Hg Hs). apply covers_spec in Hcov. lia.
  - intros k [H | (dg & H)]; apply I7; [by left | right; exists dg]. rewrite Hfl in H.
    by destruct (db_floors d !! (k, dg)).
  - rewrite Ha. by apply omap_filter_NoDup.
  - rewrite Ha. by apply map_filter_NoDup.
  - intros key r p cn. rewrite Ho, Hof. apply I10.
  - intros k pool. unfold stored. rewrite Ho. apply I11.
Qed.

(** ** Accounting for a released row *)

Lemma newly_pending p a b n :
  (forall e, e ∈ b -> forall x, covers n (pbits p) x = true -> covers e (pbits p) x = false) ->
  newly p (a ++ b) n = newly p a n.
Proof.
  intros H. unfold newly. apply count_ext. intros x _. destruct (covers n (pbits p) x) eqn:Hx; [|done]. cbn.
  rewrite blocked_app. replace (blocked b (pbits p) x) with false; [by rewrite orb_false_r|].
  symmetry. apply blocked_false. intros e He. by apply (H e He).
Qed.

Lemma inv_paid pend rest d k p n :
  inv_pending pend d -> pool_range d k p ->
  (forall r, r ∈ rest -> r ∈ pend) ->
  n = consumed_in (cidrs_of k (db_allocs d ++ rest)) p ->
  (forall k', k' <> k -> cidrs_of k' rest = cidrs_of k' pend) ->
  inv_pending rest (set_consumed d (<[k := n]> (db_consumed d))).
Proof.
  intros [I1 I2 I3 I4 I5 I6 I7 I8 I9 I10 I11] Hr Hsub Hn Hother.
  constructor; cbn [set_consumed db_allocs db_consumed db_floors db_objects]; try done.
  - intros r Hr'. apply I2. apply elem_of_app in Hr' as [? | ?]; apply elem_of_app; [by left | right; auto].
  - intros k' p' m Hr' Hm. apply lookup_insert_Some in Hm as [[<- <-] | [Hne Hm]].
    + by rewrite (pool_range_fun _ _ _ _ Hr' Hr).
    + rewrite (I4 k' p' m Hr' Hm), !cidrs_of_app, Hother by done. done.
  - intros r Hr'. destruct (decide (ar_pool_key r = k)) as [-> | Hne]; [rewrite lookup_insert_eq; by eexists|].
    rewrite lookup_insert_ne by done. apply I5.
    apply elem_of_app in Hr' as [? | ?]; apply elem_of_app; [by left | right; auto].
  - intros k' [Hc | Hf]; [|apply I7; by right]. destruct (decide (k' = k)) as [-> | Hne].
    + destruct Hr as (r0 & q & Hr0 & _). by exists r0.
    + rewrite lookup_insert_ne in Hc by done. apply I7. by left.
Qed.

(** Rows of one pool that share no address. *)
Definition apart (a b : AllocRow) : Prop :=
  ar_pool_key a = ar_pool_key b -> net_overlap (ar_cidr a) (ar_cidr b) = false.

Lemma consumed_nonneg' p cs : 0 <= consumed_in cs p.
Proof. apply count_nonneg. Qed.

Lemma account_release_ok r rest d :
  inv_pending (r :: rest) d -> Forall (apart r) rest ->
  exists d', account_release tt r d = Ok (tt, d') /\ inv_pending rest d'
    /\ db_allocs d' = db_allocs d /\ db_floors d' = db_floors d /\ db_identity d' = db_identity d
    /\ forall k p, pool_range d' k p <-> pool_range d k p.
Proof.
  intros Hi Hap. set (k := ar_pool_key r).
  destruct (inv_rows _ _ Hi r) as (p & Hr & Hin); [apply elem_of_app; right; left|]. fold k in Hr.
  pose proof (inv_range _ _ Hi k p Hr) as Hg.
  pose proof (inv_inside _ d k p Hi Hr) as Hall.
  destruct (inv_counted _ _ Hi r) as [t Ht]; [apply elem_of_app; right; left|]. fold k in Ht.
  pose proof (inv_total _ _ Hi k p t Hr Ht) as Htot.
  assert (Hperm : Permutation (db_allocs d ++ r :: rest) ((db_allocs d ++ rest) ++ [r])).
  { rewrite <- Permutation_middle. by rewrite <- Permutation_cons_append. }
  rewrite (consumed_perm _ _ p (cidrs_of_perm k _ _ Hperm)), cidrs_of_app, cidrs_of_one, decide_True,
    consumed_snoc in Htot by done.
  rewrite cidrs_of_app in Htot. rewrite newly_pending in Htot.
  2: { intros e (r' & Hr' & Hk' & <-)%cidrs_of_elem x Hx. apply not_true_iff_false. intros Hx'.
       rewrite Forall_forall in Hap. specialize (Hap r' Hr' ltac:(done)).
       rewrite (proj2 (net_overlap_iff p _ _ Hin ltac:(rewrite Forall_forall in Hall; apply Hall;
         apply cidrs_of_elem; exists r'; split; [apply elem_of_app; right; by right | done]))) in Hap; [done|].
       by exists x. }
  rewrite cidrs_of_app in Hall. apply Forall_app in Hall as [Halla _].
  destruct (loadOverlapping_ok d k p (ar_cidr r) Halla Hin) as (o & Ho & Hc).
  pose proof (consumptionDelta_newly p _ o (ar_cidr r) Hg Halla Hin Hc) as Hd.
  destruct Hr as (row & pool & Hrow & Hdoc & Hparse).
  assert (Hr : pool_range d k p) by (by exists row, pool).
  set (n := consumed_in (cidrs_of k (db_allocs d ++ rest)) p).
  assert (Hrel : consumptionAfterRelease k [p] (ar_cidr r) d = Ok (n, d)).
  { unfold consumptionAfterRelease, readConsumed, select_consumed, read, lift. unfold mbind, txn_bind.
    rewrite Ho, Ht. change (RemovedConsumption [p] o (ar_cidr r)) with (consumptionDelta [p] o (ar_cidr r)).
    rewrite Hd. cbn [wrap_err mret txn_ret]. unfold n. rewrite cidrs_of_app.
    replace (t - newly p (cidrs_of k (db_allocs d)) (ar_cidr r))
      with (consumed_in (cidrs_of k (db_allocs d) ++ cidrs_of k rest) p) by lia.
    pose proof (consumed_nonneg' p (cidrs_of k (db_allocs d) ++ cidrs_of k rest)). zcase; [lia | done]. }
  set (d1 := set_consumed d (<[k := n]> (db_consumed d))).
  assert (Hi1 : inv_pending rest d1).
  { apply (inv_paid (r :: rest) rest d k p n); [done | done | by right | done |].
    intros k' Hne. unfold cidrs_of. cbn. unfold in_pool at 2.
    destruct (String.eqb_spec (ar_pool_key r) k') as [E|]; [by destruct Hne|done]. }
  destruct (persistPoolCapacity_ok d1 k pool p n) as (q & d2 & Hp2 & Hl2 & _ & _);
    [exists row, pool; by repeat split|].
  exists d2. split; [|split; [by apply (inv_same _ d1)|]].
  - unfold account_release, select_object, read. unfold mbind, txn_bind. fold k. rewrite Hrow, Hdoc. cbn [as_pool].
    unfold lift. rewrite Hparse, Hrel, writeConsumed_ok; [|apply consumed_nonneg' | by exists row].
    fold d1. by rewrite Hp2.
  - destruct Hl2 as [L1 L2 L3 L4 _ L6 _ _]. rewrite L1, L2, L4. repeat split; try done.
    + intros H. by apply L6 in H.
    + intros H. by apply L6.
Qed.

Lemma account_releases_ok rows d :
  inv_pending rows d -> ForallOrdPairs apart rows ->
  exists d', each account_release tt rows d = Ok (tt, d') /\ inv d'
    /\ db_allocs d' = db_allocs d /\ db_floors d' = db_floors d /\ db_identity d' = db_identity d
    /\ forall k p, pool_range d' k p <-> pool_range d k p.
Proof.
  revert d. induction rows as [|r rows IH]; intros d Hi Hap; cbn [each].
  { exists d. by split_and!. }
  inversion Hap as [|? ? Hr Hrest]; subst.
  destruct (account_release_ok r rows d Hi Hr) as (d1 & H1 & Hi1 & Ha1 & Hf1 & Hid1 & Hr1).
  destruct (IH d1 Hi1 Hrest) as (d2 & H2 & Hi2 & Ha2 & Hf2 & Hid2 & Hr2).
  exists d2. unfold mbind, txn_bind. rewrite H1. split; [done|]. split; [done|].
  rewrite Ha2, Hf2, Hid2. repeat split; try done.
  - intros H. by apply Hr1, Hr2.
  - intros H. by apply Hr2, Hr1.
Qed.
