(* ===== verification/PoolWrites.v ===== *)
(** * PoolWrites: allocating and releasing keep the ledger's invariant

    The theorems about the write paths of Prefix.  A release always succeeds on a
    consistent ledger, frees exactly the rows it should and leaves every total
    right; an allocation gives a block of the asked length that is free in its
    address space, or exhaustion when there is none. *)

From Stdlib Require Import Ascii String.
From S2P Require Import Prelude Text Float Net Cidr Reservation Allocate Consumption Scan Tenant Scope.
From S2P Require Import NetText Types Db PoolObject Class Discover BoundedSearch Prefix PoolInvariant.
Open Scope string_scope.
Open Scope list_scope.
Open Scope Z_scope.

(** ** Releasing *)

(** The ranges pools hand out from do not change. *)
Definition same_ranges (d d' : Db) : Prop := forall k p, pool_range d' k p <-> pool_range d k p.

(** The same objects exist. *)
Definition same_dom (d d' : Db) : Prop := forall k, is_Some (db_objects d' !! k) <-> is_Some (db_objects d !! k).

Lemma deleteAllocations_ok cond d :
  inv d -> ForallOrdPairs apart (List.filter cond (db_allocs d)) ->
  exists d', deleteAllocations cond d = Ok (tt, d') /\ inv d'
    /\ db_allocs d' = List.filter (fun r => negb (cond r)) (db_allocs d)
    /\ db_identity d' = db_identity d /\ same_ranges d d'.
Proof.
  intros Hi Hap. destruct (inv_delete cond d Hi) as (d1 & H1 & Hi1 & Ha1 & Ho1 & Hid1).
  destruct (account_releases_ok _ d1 Hi1 Hap) as (d2 & H2 & Hi2 & Ha2 & _ & Hid2 & Hr2).
  exists d2. unfold deleteAllocations. unfold mbind, txn_bind. rewrite H1, H2.
  split; [done|]. split; [done|]. split; [congruence|]. split; [congruence|].
  intros k p. rewrite (Hr2 k p). unfold pool_range. by rewrite Ho1.
Qed.

Lemma apart_short rows : (length rows <= 1)%nat -> ForallOrdPairs apart rows.
Proof. destruct rows as [|r [|r' rows]]; cbn; [constructor | repeat constructor | lia]. Qed.

(** Rows none of which is a claim share no address. *)
Lemma apart_held rows :
  ForallOrdPairs compatible rows -> (forall r, r ∈ rows -> ar_purpose r <> PurposeClaim) ->
  ForallOrdPairs apart rows.
Proof.
  intros H. induction H as [|r rows Hr H IH]; intros Hp; constructor.
  - rewrite Forall_forall in Hr |- *. intros r' Hr' Hk. apply not_true_iff_false. intros Ho.
    destruct (Hr r' Hr' Hk Ho) as (Hc & _). by apply (Hp r ltac:(left)).
  - apply IH. intros r' Hr'. apply Hp. by right.
Qed.

Lemma filter_key_short {A} (key : A -> string) k l :
  NoDup (map key l) -> (length (List.filter (fun r => String.eqb (key r) k) l) <= 1)%nat.
Proof.
  induction l as [|r l IH]; cbn; [lia|]. intros [Hn Hnd]%NoDup_cons.
  destruct (String.eqb_spec (key r) k) as [<-|]; [|by apply IH].
  cbn. enough (List.filter (fun r' => String.eqb (key r') (key r)) l = []) as -> by done.
  destruct (List.filter _ l) as [|r' l'] eqn:E; [done|]. exfalso. apply Hn.
  assert (r' ∈ r' :: l') as Hr' by left. rewrite <- E in Hr'. apply elem_of_filter_b in Hr' as [Hr' <-%String.eqb_eq].
  by apply list_elem_of_fmap_2.
Qed.

Lemma filter_claim_short k rows :
  NoDup (omap ar_claim_key rows) ->
  (length (List.filter (fun r => bool_decide (ar_claim_key r = Some k)) rows) <= 1)%nat.
Proof.
  induction rows as [|r rows IH]; cbn; [lia|]. destruct (ar_claim_key r) as [c|] eqn:Hc.
  2: { intros Hnd. case_bool_decide; [congruence | by apply IH]. }
  intros [Hn Hnd]%NoDup_cons. case_bool_decide as E; [|by apply IH]. injection E as ->.
  cbn. enough (List.filter (fun r' => bool_decide (ar_claim_key r' = Some k)) rows = []) as -> by done.
  destruct (List.filter _ rows) as [|r' l'] eqn:E; [done|]. exfalso. apply Hn.
  assert (r' ∈ r' :: l') as Hr' by left. rewrite <- E in Hr'.
  apply elem_of_filter_b in Hr' as [Hr' Hk%bool_decide_eq_true]. apply list_elem_of_omap. by exists r'.
Qed.

(** *** Retention *)

(** Rewriting claims keeps the ledger: nothing the invariant measures changes. *)
Section Relabel.
Context (f : AllocRow -> AllocRow).

Definition relabels : Prop := forall r,
  ar_pool_key (f r) = ar_pool_key r /\ ar_cidr (f r) = ar_cidr r /\ ar_allocation_key (f r) = ar_allocation_key r
  /\ ar_purpose (f r) = ar_purpose r /\ ar_scope_digest (f r) = ar_scope_digest r.

Context (Hf : relabels).

Lemma cidrs_of_relabel k rows : cidrs_of k (map f rows) = cidrs_of k rows.
Proof using Hf.
  unfold cidrs_of, in_pool. induction rows as [|r rows IH]; [done|]. cbn.
  destruct (Hf r) as (-> & E & _). destruct (String.eqb _ k); cbn; [by rewrite E, IH | done].
Qed.

Lemma blocking_relabel k dg d : blocking k dg (set_allocs d (map f (db_allocs d))) = blocking k dg d.
Proof using Hf.
  unfold blocking, cidrs_where. cbn. induction (db_allocs d) as [|r rows IH]; [done|]. cbn.
  destruct (Hf r) as (Ek & Ec & _ & Ep & Es).
  assert (searchFilter k dg (f r) = searchFilter k dg r) as ->
    by (unfold searchFilter, in_pool; by rewrite Ek, Ep, Es).
  destruct (searchFilter k dg r); cbn; [by rewrite Ec, IH | done].
Qed.

Lemma relabel_pairs rows : ForallOrdPairs compatible rows -> ForallOrdPairs compatible (map f rows).
Proof using Hf.
  intros H. induction H as [|r rows Hr H IH]; cbn; constructor; [|done].
  rewrite Forall_forall in Hr |- *. intros r' (q & -> & Hq)%list_elem_of_fmap.
  specialize (Hr q Hq). unfold compatible in *. by destruct (Hf r) as (-> & -> & _ & -> & ->), (Hf q) as (-> & -> & _ & -> & ->).
Qed.

Lemma inv_relabel d :
  inv d -> NoDup (omap ar_claim_key (map f (db_allocs d))) -> inv (set_allocs d (map f (db_allocs d))).
Proof using Hf.
  intros [I1 I2 I3 I4 I5 I6 I7 I8 I9 I10 I11] Hnd. rewrite app_nil_r in *.
  constructor; cbn [set_allocs db_allocs db_consumed db_floors db_objects]; rewrite ?app_nil_r; try done.
  - intros r' (r & -> & Hr)%list_elem_of_fmap. destruct (Hf r) as (-> & -> & _). by apply I2.
  - by apply relabel_pairs.
  - intros k p n Hr Hn. rewrite cidrs_of_relabel. by apply I4.
  - intros r' (r & -> & Hr)%list_elem_of_fmap. destruct (Hf r) as (-> & _). by apply I5.
  - intros k dg p fl Hr Hfl. unfold floor_valid. rewrite blocking_relabel. by apply I6.
  - replace (map ar_allocation_key (map f (db_allocs d))) with (map ar_allocation_key (db_allocs d)); [done|].
    rewrite map_map. apply map_ext. intros r. by destruct (Hf r) as (_ & _ & -> & _).
Qed.
End Relabel.

Definition unbound (cond : AllocRow -> bool) (r : AllocRow) : AllocRow :=
  if cond r then with_claim None r else r.

Lemma with_claim_relabels (cond : AllocRow -> bool) c : relabels (fun r => if cond r then with_claim c r else r).
Proof. intros r. by destruct (cond r). Qed.

Lemma unbound_claim_keys cond rows :
  NoDup (omap ar_claim_key rows) -> NoDup (omap ar_claim_key (map (unbound cond) rows)).
Proof.
  intros H. refine (sublist_NoDup _ _ H _). clear H. induction rows as [|r rows IH]; [constructor|]. cbn.
  unfold unbound at 1. destruct (cond r), (ar_claim_key r) as [k|] eqn:E; cbn; rewrite ?E; by try constructor.
Qed.

Lemma inv_unbound cond d : inv d -> inv (set_allocs d (map (unbound cond) (db_allocs d))).
Proof.
  intros Hi. apply (inv_relabel (unbound cond) (with_claim_relabels cond None)); [done|].
  apply unbound_claim_keys, (inv_claim_keys _ _ Hi).
Qed.

(** What a release of a claim leaves of a row. *)
Definition holds (claimKey : string) (r : AllocRow) : bool := bool_decide (ar_claim_key r = Some claimKey).
Definition retains (r : AllocRow) : bool := String.eqb (ar_reclaim_policy r) ReclaimRetain.

Definition after_release (claimKey : string) (r : AllocRow) : option AllocRow :=
  if holds claimKey r then (if retains r then Some (with_claim None r) else None) else Some r.

Lemma release_rows ck rows :
  List.filter (fun r => negb (holds ck r)) (map (unbound (fun r => holds ck r && retains r)) rows)
  = omap (after_release ck) rows.
Proof.
  assert (Hw : forall r, holds ck (with_claim None r) = false) by (intros r; by apply bool_decide_false).
  induction rows as [|r rows IH]; [done|]. cbn. unfold unbound at 1.
  assert (after_release ck r = if holds ck r then (if retains r then Some (with_claim None r) else None) else Some r)
    as -> by done.
  destruct (holds ck r) eqn:H, (retains r) eqn:R; cbn; rewrite ?Hw, ?H; cbn; rewrite ?IH; [|done| |];
    (f_equal; unfold unbound; by rewrite H, ?R).
Qed.

Lemma retainAllocations_eq ck d :
  let cond := fun r => holds ck r && retains r in
  retainAllocations ck d
  = Ok (map ar_allocation_key (List.filter cond (db_allocs d)), set_allocs d (map (unbound cond) (db_allocs d))).
Proof.
  unfold retainAllocations, set_claim_where. unfold mbind, txn_bind, mret, txn_ret. cbv zeta. by rewrite map_map.
Qed.

(** A release, step by step. *)
Lemma release_run ck d :
  inv d -> exists d',
    Release ck d = Ok (map ar_allocation_key (List.filter (fun r => holds ck r && retains r) (db_allocs d)), d')
    /\ inv d' /\ db_allocs d' = omap (after_release ck) (db_allocs d)
    /\ db_identity d' = db_identity d /\ same_ranges d d'.
Proof.
  intros Hi. set (cond := fun r => holds ck r && retains r).
  pose proof (inv_unbound cond d Hi) as Hi1. set (d1 := set_allocs d (map (unbound cond) (db_allocs d))) in *.
  destruct (deleteAllocations_ok (holds ck) d1 Hi1) as (d2 & H2 & Hi2 & Ha2 & Hid2 & Hr2).
  { apply apart_short, filter_claim_short, (inv_claim_keys _ _ Hi1). }
  exists d2. split; [|split; [done|]; split; [rewrite Ha2; apply release_rows | by split]].
  unfold Release. unfold mbind, txn_bind. rewrite retainAllocations_eq. fold cond d1.
  unfold holds in H2. by rewrite H2.
Qed.

(** [C13] Releasing a claim of a consistent ledger, run alone, always succeeds.  A row the claim
    holds under reclaim policy Retain stays, unbound; any other row it holds goes;
    every other row is untouched.  The ledger stays consistent: totals and search
    floors account for exactly what is left.  The keys of the retained rows are
    returned. *)
Theorem Release_ok ck d :
  inv d -> exists d',
    Release ck d = Ok (map ar_allocation_key (List.filter (fun r => holds ck r && retains r) (db_allocs d)), d')
    /\ inv d' /\ db_allocs d' = omap (after_release ck) (db_allocs d)
    /\ db_identity d' = db_identity d /\ same_ranges d d'.
Proof. apply release_run. Qed.

(** Releasing an allocation by its key removes that row and nothing else, and
    always succeeds. *)
Theorem ReleaseAllocation_ok ak d :
  inv d -> exists d',
    ReleaseAllocation ak d = Ok (tt, d') /\ inv d'
    /\ db_allocs d' = List.filter (fun r => negb (String.eqb (ar_allocation_key r) ak)) (db_allocs d)
    /\ db_identity d' = db_identity d /\ same_ranges d d'.
Proof.
  intros Hi. apply deleteAllocations_ok; [done|]. apply apart_short, filter_key_short, (inv_alloc_keys _ _ Hi).
Qed.

(** Releasing a pool's reservations removes all of them, whatever their number,
    and leaves its total equal to the measurement of what is left. *)
Theorem ReleasePoolReservations_ok k d :
  inv d -> exists d',
    ReleasePoolReservations k d = Ok (tt, d') /\ inv d'
    /\ db_allocs d' = List.filter (fun r => negb (in_pool k r && bool_decide (ar_purpose r = PurposeReservation)))
                        (db_allocs d)
    /\ db_identity d' = db_identity d /\ same_ranges d d'.
Proof.
  intros Hi. apply deleteAllocations_ok; [done|]. apply apart_held.
  - eapply ForallOrdPairs_sublist; [apply filter_sublist | apply (inv_apart _ _ Hi)].
  - intros r [_ H]%elem_of_filter_b. apply andb_true_iff in H as [_ ->%bool_decide_eq_true]. done.
Qed.

(** ** The floor of a search *)

Lemma ip_of_inet_ok bits x :
  family_bits bits -> 0 <= x < 2 ^ bits -> (bits = 128 -> ~ v4mapped x) ->
  ipToInt (ip_of_inet (bits, x)) = x /\ inet_of (ip_of_inet (bits, x)) = (bits, x).
Proof.
  intros Hf Hx Hm. unfold ip_of_inet, As16, ipToInt, inet_of. cbn [fst snd].
  assert (Hlen : length (encode (Z.to_nat (bits / 8)) x) = Z.to_nat (bits / 8)) by apply length_encode.
  destruct Hf as [-> | ->].
  - change (Z.to_nat (32 / 8)) with 4%nat in *.
    assert (To4 (default [] (To16 (encode 4 x))) = Some (encode 4 x)) as ->.
    { unfold To16. rewrite Hlen. reflexivity. }
    by rewrite (SetBytes_encode 4).
  - change (Z.to_nat (128 / 8)) with 16%nat in *.
    assert (To16 (encode 16 x) = Some (encode 16 x)) as E by (unfold To16; by rewrite Hlen). rewrite E.
    change (default [] (Some (encode 16 x))) with (encode 16 x).
    rewrite (To4_v6 x Hx (Hm eq_refl)), E. change (default [] (Some (encode 16 x))) with (encode 16 x).
    by rewrite (SetBytes_encode 16).
Qed.

Lemma pool_native p x :
  good_range p -> lo p <= x <= hi p -> family_bits (pbits p) /\ 0 <= x < 2 ^ pbits p /\ (pbits p = 128 -> ~ v4mapped x).
Proof.
  intros (Hp & Hn & _) Hx. destruct (wf_net_facts p Hp) as (Hf & _ & ? & ? & ?). split; [done|]. split; [lia|].
  intros E. by apply (Hn E).
Qed.

Lemma free_in_range p cs x : free_in p cs x = true -> lo p <= x <= hi p.
Proof. unfold free_in. intros [H _]%andb_true_iff. apply covers_spec in H. lia. Qed.

Lemma inv_floor d k dg p f :
  inv d -> pool_range d k p -> floor_valid d k dg p f ->
  inv (set_floors d (<[(k, dg) := f]> (db_floors d))).
Proof.
  intros [I1 I2 I3 I4 I5 I6 I7 I8 I9 I10 I11] Hr Hf. constructor; try done.
  - intros k' dg' p' f' Hr'. cbn. intros [[[= -> ->] ->] | [_ Hf']]%lookup_insert_Some; [|by apply I6].
    by rewrite (pool_range_fun _ _ _ _ Hr' Hr).
  - intros k' [Hc | (dg' & f' & Hf')]; [apply I7; by left|]. cbn in *.
    apply lookup_insert_Some in Hf' as [[[= -> ->] ->] | [_ Hf']]; [by destruct Hr as (r & _ & Hr & _); exists r|].
    apply I7. right. exists dg'. by exists f'.
Qed.

(** The lowest free address heads the free regions. *)
Lemma first_free p cs a :
  pool_ok [p] cs -> option_map r_start (head (regions_in p cs)) = Some a ->
  lo p <= a <= hi p /\ forall x, free_in p cs x = true -> a <= x.
Proof.
  intros HP Ha. destruct (pool_regions [p] cs HP p ltac:(left)) as (_ & _ & Hok & Hin).
  destruct (regions_in p cs) as [|r rs]; [done|]. injection Ha as <-. cbn in Hok.
  split; [lia|]. intros x Hx. rewrite <- Hin, in_regions_cons in Hx.
  destruct Hok as (? & ? & _ & Hrest). apply orb_true_iff in Hx as [Hx | Hx].
  - unfold in_range in Hx. zbool. lia.
  - pose proof (in_regions_bounds _ _ _ _ Hrest Hx). lia.
Qed.

Lemma FindFirst_one p cs u s :
  pool_ok [p] cs ->
  match FindFirstAvailableBlock [p] cs u s with
  | Ok b => free_block p cs u b
  | Err e => e = ErrPoolExhausted /\ forall b, ~ free_block p cs u b
  end.
Proof.
  intros HP. rewrite FindFirst_select by (done || apply HP).
  destruct (selectBlock _ u s) as [[[c j] i]|] eqn:Hs.
  - apply selectBlock_sound in Hs as (q & r & Hj & _ & Hfree & _); [|done].
    apply list_elem_of_lookup_2, list_elem_of_singleton in Hj. by subst q.
  - split; [done|]. intros b Hfree. apply selectBlock_none in Hs.
    destruct (candidate_exists [p] cs u 0 p b HP eq_refl Hfree) as (d & r & Hd & _).
    rewrite Hs in Hd. by apply not_elem_of_nil in Hd.
Qed.

Lemma inv_blocking d k p dg :
  inv d -> pool_range d k p -> Forall (inside p) (blocking k dg d).
Proof.
  intros Hi Hr. pose proof (inv_inside [] d k p Hi Hr) as H. rewrite app_nil_r, Forall_forall in *.
  intros n (r & Hr' & [Hk _] & <-)%blocking_elem. apply H. apply cidrs_of_elem. eauto.
Qed.

(** The floor row a search begins from, created at the base when absent. *)
Lemma lockSearchFloor_ok d k dg p :
  inv d -> pool_range d k p -> dg <> "" ->
  exists f d', lockSearchFloor k dg (ipnet_IP p) d = Ok (Some (ip_of_inet f), d')
    /\ floor_valid d k dg p f /\ db_floors d' !! (k, dg) = Some f
    /\ (exists fl, d' = set_floors d fl) /\ inv d'.
Proof.
  intros Hi Hr Hdg. pose proof (inv_range _ _ Hi k p Hr) as Hg.
  destruct (wf_net_facts p (proj1 Hg)) as (Hfb & _ & _ & _ & Hlh & _).
  assert (Hbase : inet_of (ipnet_IP p) = (pbits p, lo p)).
  { destruct (wf_net_eta p (proj1 Hg)) as [HV E]. rewrite E at 1. cbn [mk_net ipnet_IP].
    destruct (pool_native p (lo p) Hg ltac:(lia)) as (_ & Hx & Hm). rewrite <- intToIP_encode by done.
    apply inet_of_cursor; [apply Hg | apply Hg | apply Hg | lia]. }
  unfold lockSearchFloor, insert_floor, select_floor, check, write, read. unfold mbind, txn_bind.
  rewrite bool_decide_true by (destruct Hr as (r & _ & Hr & _); by exists r). rewrite Hbase.
  destruct (db_floors d !! (k, dg)) as [f|] eqn:Hf.
  - exists f, d. rewrite Hf. split; [done|]. split; [by apply (inv_floors _ _ Hi)|]. split; [done|].
    split; [|done]. exists (db_floors d). by destruct d.
  - assert (Hv : floor_valid d k dg p (pbits p, lo p)).
    { split; [done|]. split; [done|]. cbn. split; [lia|]. intros x Hx%free_in_range. lia. }
    set (d' := set_floors d (<[(k, dg) := (pbits p, lo p)]> (db_floors d))).
    assert (Hd' : db_floors d' !! (k, dg) = Some (pbits p, lo p)) by apply lookup_insert_eq.
    exists (pbits p, lo p), d'. rewrite Hd'. split; [done|]. split; [done|]. split; [done|].
    split; [by eexists|]. by apply (inv_floor d k dg p).
Qed.

(** ** Choosing a block *)

Definition only_floors (d d' : Db) : Prop := exists fl, d' = set_floors d fl.

(** The block an allocation would be given, over the rows that block its space. *)
Definition choice (k dg : string) (p : IPNet) (u : Z) (s : Strategy) (d : Db) : result AllocErr IPNet :=
  FindFirstAvailableBlock [p] (blocking k dg d) u s.

Lemma raiseSearchFloor_ok d k dg p f a :
  inv d -> pool_range d k p -> dg <> "" -> db_floors d !! (k, dg) = Some f ->
  option_map r_start (head (regions_in p (blocking k dg d))) = Some a ->
  exists d', raiseSearchFloor k dg (Some (ip_of_inet f)) (Some (intToIP a (pbits p))) d = Ok (tt, d')
    /\ only_floors d d' /\ inv d'.
Proof.
  intros Hi Hr Hdg Hf Ha. pose proof (inv_range _ _ Hi k p Hr) as Hg.
  destruct (inv_floors _ _ Hi k dg p f Hr Hf) as (_ & Hb & Hfr & _).
  destruct (pool_native p f.2 Hg Hfr) as (H1 & H2 & H3).
  assert (inet_of (ip_of_inet f) = f) as Ef by (destruct f as [b x]; cbn in *; subst b; by apply ip_of_inet_ok).
  destruct (first_free p (blocking k dg d) a) as [Har Hmin];
    [apply inside_pool_ok; [done | by apply inv_blocking] | done |].
  unfold raiseSearchFloor, cas_floor, write. rewrite Ef.
  rewrite inet_of_cursor by (apply Hg || lia). rewrite bool_decide_true by done.
  eexists. split; [done|]. split; [by eexists|]. by apply (inv_floor d k dg p).
Qed.

Lemma free_block_region p cs u b :
  pool_ok [p] cs -> free_block p cs u b -> exists a, option_map r_start (head (regions_in p cs)) = Some a.
Proof.
  intros HP (Hb & Hbits & _ & Hx). destruct (pool_regions [p] cs HP p ltac:(left)) as (_ & _ & _ & Hin).
  destruct (wf_net_facts b Hb) as (_ & _ & _ & _ & ? & _).
  specialize (Hx (lo b) ltac:(apply covers_spec; split; [done | lia])). rewrite <- Hin in Hx.
  destruct (regions_in p cs) as [|r rs]; [done|]. by exists (r_start r).
Qed.

Lemma strategy_first_fit ps cs u s :
  s = "" \/ s = FirstFit -> FindFirstAvailableBlock ps cs u s = FindFirstAvailableBlock ps cs u FirstFit.
Proof. by intros [-> | ->]. Qed.

(** First fit through the bounded search and its floor, or any strategy over the
    whole set: the same choice, or the page limit. *)
Lemma findBlock_ok d k dg p u s :
  inv d -> pool_range d k p -> dg <> "" ->
  (exists d', only_floors d d' /\ inv d'
     /\ findBlock k dg [p] u s d
        = match choice k dg p u s d with Ok n => Ok (n, d') | Err e => Err (ErrAllocation e) end)
  \/ (findBlock k dg [p] u s d = Err ErrSearchDidNotAdvance /\ (searchPageLimit <= length (blocking k dg d))%nat).
Proof.
  intros Hi Hr Hdg. pose proof (inv_range _ _ Hi k p Hr) as Hg.
  pose proof (inv_blocking d k p dg Hi Hr) as Hin.
  pose proof (inside_pool_ok p _ Hg Hin) as HP.
  unfold findBlock. destruct (negb (String.eqb s "") && negb (String.eqb s FirstFit)) eqn:Hs.
  { left. exists d. split; [exists (db_floors d); by destruct d|]. split; [done|].
    unfold loadAllocationsInSpace, read, lift. unfold mbind, txn_bind.
    change (cidrs_where (searchFilter k dg) d) with (blocking k dg d). fold (choice k dg p u s d).
    by destruct (choice k dg p u s d). }
  assert (choice k dg p u s d = choice k dg p u FirstFit d) as ->.
  { apply strategy_first_fit. apply andb_false_iff in Hs as [Hs%negb_false_iff | Hs%negb_false_iff];
      apply String.eqb_eq in Hs; tauto. }
  assert (String.eqb dg spaceAll = false) as -> by by apply String.eqb_neq.
  change (ipnet_IP (default (mkIPNet [] []) (head [p]))) with (ipnet_IP p).
  destruct (lockSearchFloor_ok d k dg p Hi Hr Hdg) as (f & d1 & Hl & Hv & Hf & (fl & ->) & Hi1).
  assert (Hr1 : pool_range (set_floors d fl) k p) by done.
  unfold mbind, txn_bind. rewrite Hl.
  destruct Hv as (_ & Hb & Hfr & Hlow). destruct (pool_native p f.2 Hg Hfr) as (N1 & N2 & N3).
  assert (Hint : ipToInt (ip_of_inet f) = f.2)
    by (destruct f as [b x]; cbn in *; subst b; by apply ip_of_inet_ok).
  destruct (bounded_search_ok (blocking k dg d) p u (proj1 Hg) (proj1 (proj2 Hg)) Hin (proj2 (proj2 Hg)) k dg
              (set_floors d fl) (Some (ip_of_inet f)) eq_refl) as [Hs1 | [Hs1 Hlen]].
  - intros f' q x [= <-] ->%list_elem_of_singleton Hx. rewrite Hint. by apply Hlow.
  - rewrite Hint. lia.
  - left. rewrite Hs1. unfold choice. pose proof (FindFirst_one p _ u FirstFit HP) as Hone.
    destruct (FindFirstAvailableBlock [p] (blocking k dg d) u FirstFit) as [n | e].
    2: { exists d. split; [exists (db_floors d); by destruct d|]. by split. }
    destruct (free_block_region p _ u n HP Hone) as [a Ha].
    destruct (raiseSearchFloor_ok (set_floors d fl) k dg p f a Hi1 Hr1 Hdg Hf Ha) as (d2 & H2 & (fl2 & ->) & Hi2).
    rewrite Ha. cbn [option_map snd fst]. rewrite H2. eexists. split; [by exists fl2|]. by split.
  - right. by rewrite Hs1.
Qed.

(** ** Reservations *)

Lemma taken_false k n d :
  existsb (fun r => in_pool k r && net_overlap (ar_cidr r) n) (db_allocs d) = false ->
  forall r, r ∈ db_allocs d -> ar_pool_key r = k -> net_overlap (ar_cidr r) n = false.
Proof.
  intros H r Hr Hk. apply not_true_iff_false. intros Ho. apply not_true_iff_false in H. apply H.
  apply existsb_exists. exists r. split; [by apply list_elem_of_In|]. unfold in_pool. by rewrite Hk, String.eqb_refl.
Qed.

(** The state after a row and the total that counts it are written. *)
Definition recorded (d : Db) (row : AllocRow) (k : string) (t : Z) : Db :=
  let d1 := set_allocs d (db_allocs d ++ [row]) in set_consumed d1 (<[k := t]> (db_consumed d1)).

Lemma recorded_ok d row k n p :
  inv d -> pool_range d k p -> inside p n -> ar_pool_key row = k -> ar_cidr row = n ->
  (forall r, r ∈ db_allocs d -> compatible r row) ->
  claim_key_free (ar_claim_key row) d = true -> allocation_key_free (ar_allocation_key row) d = true ->
  inv (recorded d row k (consumed_in (cidrs_of k (db_allocs d) ++ [n]) p)).
Proof. intros Hi Hr Hn <- <- Hc H1 H2. exact (inv_insert d row p Hi Hr Hn Hc H1 H2). Qed.

(** One reserved position: recorded when nothing holds any of it, left alone
    otherwise. *)
Lemma reserve_block_ok d k p fam cls c n c' d' :
  inv d -> pool_range d k p -> inside p n -> reserve_block k [p] fam cls c n d = Ok (c', d') ->
  inv d' /\ db_objects d' = db_objects d /\ db_identity d' = db_identity d
  /\ ((c' = c /\ d' = d /\ exists r, r ∈ db_allocs d /\ ar_pool_key r = k /\ net_overlap (ar_cidr r) n = true)
      \/ (is_Some c' /\ db_allocs d' = db_allocs d ++ [reservation_row k n fam cls])).
Proof.
  intros Hi Hr Hn. unfold reserve_block, insertReservation, read. unfold mbind, txn_bind.
  rewrite (consumptionAfterAllocate_ok d k p n Hi Hr Hn).
  destruct (existsb _ (db_allocs d)) eqn:Ht.
  { intros [= <- <-]. split; [done|]. split; [done|]. split; [done|]. left. split; [done|]. split; [done|].
    apply existsb_exists in Ht as (r & Hr' & [Hk Ho]%andb_true_iff). exists r.
    split; [by apply list_elem_of_In|]. split; [by apply String.eqb_eq | done]. }
  pose proof (taken_false k n d Ht) as Hfree.
  destruct (insert_alloc (reservation_row k n fam cls) d) as [[[] d1]|] eqn:Hins; [|done].
  apply insert_alloc_ok in Hins as (-> & _ & Hsome & Hck & Hak). cbn [reservation_row ar_pool_key] in Hsome.
  unfold mret, txn_ret. rewrite writeConsumed_ok by (done || apply consumed_nonneg'). fold (recorded d (reservation_row k n fam cls) k
    (consumed_in (cidrs_of k (db_allocs d) ++ [n]) p)). intros [= <- <-].
  split; [|split; [done|]; split; [done|]; right; split; [by eexists | done]].
  apply (recorded_ok d (reservation_row k n fam cls) k n p Hi Hr Hn eq_refl eq_refl); [|exact Hck | exact Hak].
  intros r Hr' Hk Ho. cbn in Hk, Ho. by rewrite (Hfree r Hr' Hk) in Ho.
Qed.

(** The rows a materialisation writes. *)
Definition reservation_of (k : string) (r : AllocRow) : Prop :=
  ar_purpose r = PurposeReservation /\ ar_pool_key r = k.

Lemma same_objects_range d d' : db_objects d' = db_objects d -> same_ranges d d'.
Proof. intros E k p. unfold pool_range. by rewrite E. Qed.

Lemma reserve_blocks_ok k p fam cls blocks : forall d c c' d',
  inv d -> pool_range d k p -> Forall (inside p) blocks ->
  each (reserve_block k [p] fam cls) c blocks d = Ok (c', d') ->
  inv d' /\ db_objects d' = db_objects d /\ db_identity d' = db_identity d
  /\ exists res, db_allocs d' = db_allocs d ++ res /\ Forall (reservation_of k) res.
Proof.
  induction blocks as [|n blocks IH]; intros d c c' d' Hi Hr Hin; cbn [each].
  { intros [= <- <-]. split; [done|]. split; [done|]. split; [done|]. exists []. by rewrite app_nil_r. }
  apply Forall_cons in Hin as [Hn Hin]. unfold mbind, txn_bind.
  destruct (reserve_block k [p] fam cls c n d) as [[c1 d1]|] eqn:H1; [|done].
  destruct (reserve_block_ok d k p fam cls c n c1 d1 Hi Hr Hn H1) as (Hi1 & Ho1 & Hid1 & Hcase). intros H2.
  destruct (IH d1 c1 c' d' Hi1) as (Hi2 & Ho2 & Hid2 & res & Ha2 & Hres); [|done..|].
  { by apply (same_objects_range d d1 Ho1). }
  split; [done|]. split; [congruence|]. split; [congruence|].
  destruct Hcase as [(_ & -> & _) | [_ Ha1]]; [by exists res|].
  exists (reservation_row k n fam cls :: res). rewrite Ha2, Ha1, <- app_assoc. split; [done|]. by constructor.
Qed.

Lemma same_pool_refl a : same_pool a a.
Proof. by split. Qed.

Lemma same_objects_stored d d' k pool : db_objects d' = db_objects d -> stored d k pool -> stored d' k pool.
Proof. intros E. unfold stored. by rewrite E. Qed.

Lemma BlocksIn_inside p r out : good_range p -> counts_ok r -> BlocksIn r [p] = Ok out -> Forall (inside p) out.
Proof.
  intros (Hp & Hn & _) Hc Hout. apply Forall_forall. intros n Hin.
  destruct (ReservedBlocks_inside [p] r out) with (n := n) as (Hw & (q & Hq & Hb & Hlo & Hhi) & _); try done.
  - by constructor.
  - by constructor.
  - apply list_elem_of_singleton in Hq as ->. by repeat split.
Qed.

Lemma materialiseReservations_ok d k pool p pool' d' :
  inv d -> stored d k pool -> parsePoolCIDR pool = Ok [p] ->
  materialiseReservations k pool [p] d = Ok (pool', d') ->
  inv d' /\ stored d' k pool' /\ same_pool pool' pool /\ same_ranges d d' /\ db_identity d' = db_identity d
  /\ same_dom d d'
  /\ exists res, db_allocs d' = db_allocs d ++ res /\ Forall (reservation_of k) res.
Proof.
  intros Hi Hs Hp. pose proof (stored_range d k pool p Hs Hp) as Hr.
  assert (Hnone : Ok (pool, d) = @Ok IpamErr _ (pool', d') ->
    inv d' /\ stored d' k pool' /\ same_pool pool' pool /\ same_ranges d d' /\ db_identity d' = db_identity d
    /\ same_dom d d' /\ exists res, db_allocs d' = db_allocs d ++ res /\ Forall (reservation_of k) res).
  { intros [= <- <-]. split_and!; try done. exists []. by rewrite app_nil_r. }
  unfold materialiseReservations, holdsReservations, read, lift. unfold mbind, txn_bind.
  destruct (IsZero _); [exact Hnone|]. destruct (existsb _ _); [exact Hnone|].
  destruct (BlocksIn _ [p]) as [out|] eqn:Hout; [|done]. cbn [wrap_err].
  apply BlocksIn_inside in Hout; [|by apply (inv_range _ _ Hi k p) | by apply (inv_counts _ _ Hi k)].
  destruct (each _ None out d) as [[c d1]|] eqn:He; [|done].
  destruct (reserve_blocks_ok k p _ _ out d None c d1 Hi Hr Hout He) as (Hi1 & Ho1 & Hid1 & res & Ha1 & Hres).
  pose proof (same_objects_stored d d1 k pool Ho1 Hs) as Hs1.
  pose proof (same_objects_range d d1 Ho1) as Hr1.
  destruct c as [c|].
  - destruct (persistPoolCapacity_ok d1 k pool p c Hs1) as (q & d2 & H2 & Hl & Hs2 & Hsame). rewrite H2.
    intros [= <- <-]. split; [by eapply inv_same|]. split; [done|]. split; [done|].
    split; [intros k' p'; rewrite (sl_range _ _ Hl); apply Hr1|]. split; [by rewrite (sl_identity _ _ Hl)|].
    split; [intros k'; by rewrite (sl_dom _ _ Hl), Ho1|]. exists res. by rewrite (sl_allocs _ _ Hl).
  - intros [= <- <-]. split_and!; try done; [intros k'; by rewrite Ho1 | by exists res].
Qed.

(** ** Allocating *)

Lemma effective_digest_ne req : effective_digest req <> "".
Proof.
  unfold effective_digest. destruct (String.eqb_spec (rq_ScopeDigest req) ""); [|done].
  vm_compute. discriminate.
Qed.

Lemma blocking_allocs k dg d d' : db_allocs d' = db_allocs d -> blocking k dg d' = blocking k dg d.
Proof. intros E. unfold blocking, cidrs_where. by rewrite E. Qed.

Lemma free_block_inside p cs u n : wf_net p -> free_block p cs u n -> inside p n.
Proof.
  intros Hp Hf. destruct (free_block_within p cs u n Hp Hf) as (? & ? & _).
  destruct Hf as (Hn & Hb & _). by repeat split.
Qed.

(** What a free block may overlap: claims of other spaces. *)
Lemma free_block_compatible d k dg p u n :
  inv d -> pool_range d k p -> dg <> "" -> free_block p (blocking k dg d) u n ->
  forall r, r ∈ db_allocs d -> ar_pool_key r = k -> net_overlap (ar_cidr r) n = true ->
  ar_purpose r = PurposeClaim /\ ar_scope_digest r <> dg.
Proof.
  intros Hi Hr Hdg Hf r Hr' Hk Ho. pose proof (inv_range _ _ Hi k p Hr) as Hg.
  pose proof (free_block_inside p _ u n (proj1 Hg) Hf) as Hn.
  assert (inside p (ar_cidr r)) as Hin.
  { destruct (inv_rows _ _ Hi r ltac:(apply elem_of_app; by left)) as (p' & Hp' & Hin). rewrite Hk in Hp'.
    by rewrite (pool_range_fun _ _ _ _ Hr Hp'). }
  apply (net_overlap_iff p) in Ho as (x & Hx1 & Hx2); [|done..].
  destruct Hf as (_ & _ & _ & Hfree). specialize (Hfree x Hx2). unfold free_in in Hfree.
  apply andb_true_iff in Hfree as [_ Hfree]. apply negb_true_iff in Hfree. rewrite blocked_false in Hfree.
  assert (~ sees k dg r) as Hns.
  { intros Hs. rewrite (Hfree (ar_cidr r)) in Hx1; [done|]. apply blocking_elem. eauto. }
  unfold sees in Hns. destruct (decide (ar_purpose r = PurposeClaim)) as [|Hp]; [|tauto]. split; [done|]. tauto.
Qed.

(** The part of an allocation after the block is chosen. *)
Definition record_block (req : PrefixRequest) (pool : IPPool) (parents : list IPNet) (cidr : IPNet) : Txn string :=
  consumed ← consumptionAfterAllocate (rq_PoolKey req) parents cidr;
  insertPrefixAllocation req (effective_digest req) cidr;;
  writeConsumed (rq_PoolKey req) consumed;;
  persistPoolCapacity pool (rq_PoolKey req) parents consumed;;
  mret (IPNet_String cidr).

Lemma AllocatePrefix_record req :
  AllocatePrefix req =
  (pool ← lockAndDecodeIPPool (rq_PoolKey req);
   parents ← lift (parsePoolCIDR pool);
   pool ← materialiseReservations (rq_PoolKey req) pool parents;
   cidr ← catch_exhausted (findBlock (rq_PoolKey req) (effective_digest req) parents (rq_PrefixLen req)
                             (as_Strategy (ps_Allocation (pl_Spec pool))));
   record_block req pool parents cidr).
Proof. done. Qed.

Lemma claim_row_compatible d req p u n :
  let k := rq_PoolKey req in let dg := effective_digest req in
  inv d -> pool_range d k p -> free_block p (blocking k dg d) u n ->
  forall r, r ∈ db_allocs d -> compatible r (claim_row req dg n).
Proof.
  intros k dg Hi Hr Hf r Hr' Hk Ho. cbn in Hk, Ho.
  destruct (free_block_compatible d k dg p u n Hi Hr (effective_digest_ne req) Hf r Hr' Hk Ho) as [H1 H2].
  by split_and!.
Qed.

Lemma insert_alloc_err row d e : insert_alloc row d = Err e -> exists c, e = ErrConstraint c.
Proof.
  unfold insert_alloc, check, write. unfold mbind, txn_bind.
  destruct (family_ok _); [|intros [= <-]; by eexists].
  destruct (bool_decide _); [|intros [= <-]; by eexists].
  destruct (claim_key_free _ d); [|intros [= <-]; by eexists].
  destruct (allocation_key_free _ d); [|intros [= <-]; by eexists].
  destruct (no_conflict row d); [done | intros [= <-]; by eexists].
Qed.

(** Counting, inserting and publishing one row. *)
Definition record_row (pool : IPPool) (parents : list IPNet) (row : AllocRow) : Txn unit :=
  consumed ← consumptionAfterAllocate (ar_pool_key row) parents (ar_cidr row);
  insert_alloc row;;
  writeConsumed (ar_pool_key row) consumed;;
  persistPoolCapacity pool (ar_pool_key row) parents consumed;;
  mret tt.

(** What a row must be new in, to pass the constraints. *)
Definition new_in (d : Db) (row : AllocRow) : Prop :=
  family_ok (ar_ip_family row) = true /\ claim_key_free (ar_claim_key row) d = true
  /\ allocation_key_free (ar_allocation_key row) d = true.

(** Recording a row compatible with every other: it fails on a constraint or leaves
    the ledger with the row in it. *)
Lemma record_row_ok d pool p row :
  let k := ar_pool_key row in
  inv d -> stored d k pool -> parsePoolCIDR pool = Ok [p] -> inside p (ar_cidr row) ->
  (forall r, r ∈ db_allocs d -> compatible r row) ->
  match record_row pool [p] row d with
  | Ok (_, d') => inv d' /\ db_allocs d' = db_allocs d ++ [row] /\ same_ranges d d'
      /\ db_identity d' = db_identity d /\ new_in d row
      /\ same_dom d d'
  | Err e => (exists c, e = ErrConstraint c) /\ ~ new_in d row
  end.
Proof.
  intros k Hi Hs Hp Hn Hcomp. pose proof (stored_range d k pool p Hs Hp) as Hr.
  assert (Hsome : is_Some (db_objects d !! k)) by (destruct Hs as (r & _ & H & _); by exists r).
  unfold record_row. fold k. unfold mbind, txn_bind.
  rewrite (consumptionAfterAllocate_ok d k p (ar_cidr row) Hi Hr Hn).
  set (t := consumed_in _ _) in *.
  destruct (insert_alloc row d) as [[[] d1]|e] eqn:Hins.
  - apply insert_alloc_ok in Hins as (-> & Hfam & _ & Hck & Hak). unfold mret, txn_ret.
    rewrite writeConsumed_ok by (apply consumed_nonneg' || exact Hsome).
    fold (recorded d row k t).
    pose proof (recorded_ok d row k (ar_cidr row) p Hi Hr Hn eq_refl eq_refl Hcomp Hck Hak) as Hi1. fold t in Hi1.
    set (d1 := recorded _ _ _ _) in *. assert (Hs1 : stored d1 k pool) by exact Hs.
    destruct (persistPoolCapacity_ok d1 k pool p t Hs1) as (q & d2 & H2 & Hl & _). rewrite H2.
    split; [by eapply inv_same|]. split; [by rewrite (sl_allocs _ _ Hl)|].
    split; [intros k' p'; apply (sl_range _ _ Hl)|]. split; [by rewrite (sl_identity _ _ Hl)|].
    split; [done|]. exact (sl_dom _ _ Hl).
  - split; [by eapply insert_alloc_err|]. intros (H1 & H2 & H3).
    by rewrite (insert_alloc_succeeds row d H1 Hsome H2 H3 Hcomp) in Hins.
Qed.

Lemma record_block_row req pool parents n d :
  record_block req pool parents n d
  = match record_row pool parents (claim_row req (effective_digest req) n) d with
    | Ok (_, d') => Ok (IPNet_String n, d')
    | Err e => Err e
    end.
Proof.
  unfold record_block, record_row, insertPrefixAllocation. unfold mbind, txn_bind.
  destruct (consumptionAfterAllocate _ _ _ d) as [[c d1]|]; [|done]. cbn [claim_row ar_pool_key].
  destruct (insert_alloc _ d1) as [[? d2]|]; [|done]. destruct (writeConsumed _ _ d2) as [[? d3]|]; [|done].
  by destruct (persistPoolCapacity _ _ _ _ d3) as [[? d4]|].
Qed.

(** Recording a free block. *)
Lemma record_block_ok d req pool p u n :
  let k := rq_PoolKey req in let dg := effective_digest req in
  inv d -> stored d k pool -> parsePoolCIDR pool = Ok [p] -> free_block p (blocking k dg d) u n ->
  match record_block req pool [p] n d with
  | Ok (s, d') => s = IPNet_String n /\ inv d' /\ db_allocs d' = db_allocs d ++ [claim_row req dg n]
      /\ same_ranges d d' /\ db_identity d' = db_identity d
  | Err e => (exists c, e = ErrConstraint c) /\ ~ new_in d (claim_row req dg n)
  end.
Proof.
  intros k dg Hi Hs Hp Hf. pose proof (stored_range d k pool p Hs Hp) as Hr.
  pose proof (free_block_inside p _ u n (proj1 (inv_range _ _ Hi k p Hr)) Hf) as Hn.
  pose proof (record_row_ok d pool p (claim_row req dg n) Hi Hs Hp Hn
                (claim_row_compatible d req p u n Hi Hr Hf)) as Hrec.
  rewrite record_block_row. fold dg. destruct (record_row _ _ _ d) as [[? d']|e]; [|done].
  by destruct Hrec as (? & ? & ? & ? & _).
Qed.

(** Statements that never report the allocator's own exhaustion. *)
Definition quiet {A} (m : Txn A) : Prop := forall d, m d <> Err ErrExhausted.

Lemma quiet_bind {A B} (m : Txn A) (f : A -> Txn B) : quiet m -> (forall a, quiet (f a)) -> quiet (m ≫= f).
Proof.
  intros Hm Hf d. unfold mbind, txn_bind. specialize (Hm d). destruct (m d) as [[a d1]|e]; [apply Hf | congruence].
Qed.

Lemma quiet_ret {A} (a : A) : quiet (mret a).
Proof. done. Qed.

Lemma quiet_read {A} (f : Db -> A) : quiet (read f).
Proof. done. Qed.

Lemma quiet_write f : quiet (write f).
Proof. done. Qed.

Lemma quiet_check c p : quiet (check c p).
Proof. intros d. unfold check. by destruct (p d). Qed.

Lemma quiet_wrapped {A} (r : result AllocErr A) : quiet (lift (wrap_err ErrAllocation r)).
Proof. intros d. by destruct r. Qed.

Lemma quiet_each {A B} (f : B -> A -> Txn B) l : (forall b a, quiet (f b a)) -> forall b, quiet (each f b l).
Proof. intros Hf. induction l as [|a l IH]; intros b; [apply quiet_ret | by apply quiet_bind]. Qed.

Lemma quiet_updateObject k doc : quiet (updateObject k doc).
Proof. intros d. unfold updateObject, update_object_row. unfold mbind, txn_bind. by destruct (db_objects d !! k). Qed.

Create HintDb quiet.
#[export] Hint Resolve quiet_ret quiet_read quiet_write quiet_check quiet_wrapped quiet_updateObject : quiet.

Ltac quiet := repeat first
  [ progress auto with quiet | apply quiet_bind; [|intros] | apply quiet_each; intros | case_match ].

Lemma materialise_quiet k pool parents : quiet (materialiseReservations k pool parents).
Proof.
  unfold materialiseReservations, holdsReservations, reserve_block, consumptionAfterAllocate, seedConsumption,
    loadOverlapping, readConsumed, select_consumed, loadExistingAllocations, insertReservation, insert_alloc,
    writeConsumed, upsert_consumed, persistPoolCapacity. quiet.
Qed.

(** Choosing a block and recording it, the reservations in place. *)
Definition allocate_in (req : PrefixRequest) (pool : IPPool) (parents : list IPNet) : Txn string :=
  cidr ← catch_exhausted (findBlock (rq_PoolKey req) (effective_digest req) parents (rq_PrefixLen req)
                            (as_Strategy (ps_Allocation (pl_Spec pool))));
  record_block req pool parents cidr.

(** The three outcomes of the search. *)
Lemma allocate_in_cases req pool p d :
  let k := rq_PoolKey req in let u := rq_PrefixLen req in let rows := blocking k (effective_digest req) d in
  inv d -> stored d k pool -> parsePoolCIDR pool = Ok [p] ->
  (exists n fl, free_block p rows u n /\ inv (set_floors d fl)
     /\ allocate_in req pool [p] d = record_block req pool [p] n (set_floors d fl))
  \/ (allocate_in req pool [p] d = Err ErrExhausted /\ forall n, ~ free_block p rows u n)
  \/ (allocate_in req pool [p] d = Err ErrSearchDidNotAdvance /\ (searchPageLimit <= length rows)%nat).
Proof.
  intros k u rows Hi Hs Hp. pose proof (stored_range d k pool p Hs Hp) as Hr.
  pose proof (inv_range _ _ Hi k p Hr) as Hg.
  unfold allocate_in, catch_exhausted, stmt. unfold mbind, txn_bind. fold k u.
  destruct (findBlock_ok d k (effective_digest req) p u (as_Strategy (ps_Allocation (pl_Spec pool))) Hi Hr
              (effective_digest_ne req)) as [(d2 & (fl & ->) & Hi2 & Hfb) | [Hfb Hlen]]; rewrite Hfb.
  2: { right. right. by split. }
  unfold choice. fold rows.
  pose proof (FindFirst_one p rows u (as_Strategy (ps_Allocation (pl_Spec pool)))
                (inside_pool_ok p _ Hg (inv_blocking d k p _ Hi Hr))) as Hone.
  destruct (FindFirstAvailableBlock [p] _ _ _) as [n|e].
  - left. exists n, fl. by split_and!.
  - destruct Hone as [-> Hno]. right. left. by split.
Qed.

(** An allocation gets as far as the search, in a consistent ledger with the
    reservations added, or fails for a reason other than exhaustion. *)
Lemma AllocatePrefix_reach req d :
  let k := rq_PoolKey req in
  inv d ->
  (exists e, AllocatePrefix req d = Err e /\ e <> ErrExhausted)
  \/ exists pool p d1 res,
       AllocatePrefix req d = allocate_in req pool [p] d1
       /\ inv d1 /\ stored d1 k pool /\ parsePoolCIDR pool = Ok [p] /\ pool_range d k p /\ same_ranges d d1
       /\ db_identity d1 = db_identity d /\ db_allocs d1 = db_allocs d ++ res /\ Forall (reservation_of k) res.
Proof.
  intros k Hi. change (AllocatePrefix req) with
    (pool ← lockAndDecodeIPPool k; parents ← lift (parsePoolCIDR pool);
     pool ← materialiseReservations k pool parents; allocate_in req pool parents).
  unfold mbind, txn_bind. destruct (lockAndDecodeIPPool k d) as [[pool d0]|e] eqn:Hlock.
  2: { left. exists e. split; [done|]. intros ->. revert Hlock. unfold lockAndDecodeIPPool, select_object, read.
       unfold mbind, txn_bind. destruct (db_objects d !! k) as [r|]; [|done]. by destruct (as_pool (ob_data r)). }
  apply lockAndDecode_ok in Hlock as [-> Hs]. unfold lift.
  destruct (parsePoolCIDR pool) as [ps|e] eqn:Hp.
  2: { left. exists e. split; [done|]. intros ->. revert Hp. unfold parsePoolCIDR.
       by destruct (ParseCIDR _) as [[? ?]|]. }
  destruct (parsePoolCIDR_one _ _ Hp) as [p ->].
  destruct (materialiseReservations k pool [p] d) as [[pool1 d1]|e] eqn:Hm.
  2: { left. exists e. split; [done|]. intros ->. by apply materialise_quiet in Hm. }
  destruct (materialiseReservations_ok d k pool p pool1 d1 Hi Hs Hp Hm)
    as (Hi1 & Hs1 & Hsame & Hr1 & Hid1 & _ & res & Ha1 & Hres).
  right. exists pool1, p, d1, res. rewrite (same_pool_parse _ _ Hsame).
  split_and!; try done. by eapply stored_range.
Qed.

(** What an allocation that succeeds does. *)
Lemma AllocatePrefix_run req d s d' :
  let k := rq_PoolKey req in let dg := effective_digest req in
  inv d -> AllocatePrefix req d = Ok (s, d') ->
  exists p n res,
    pool_range d k p /\ inside p n /\ pones n = rq_PrefixLen req /\ s = IPNet_String n
    /\ (forall r, r ∈ db_allocs d -> ar_pool_key r = k -> net_overlap (ar_cidr r) n = true ->
          ar_purpose r = PurposeClaim /\ ar_scope_digest r <> dg)
    /\ db_allocs d' = db_allocs d ++ res ++ [claim_row req dg n] /\ Forall (reservation_of k) res
    /\ inv d' /\ same_ranges d d' /\ db_identity d' = db_identity d.
Proof.
  intros k dg Hi H.
  destruct (AllocatePrefix_reach req d Hi)
    as [(e & He & _) | (pool & p & d1 & res & Heq & Hi1 & Hs1 & Hp & Hr & Hr1 & Hid1 & Ha1 & Hres)]; [congruence|].
  rewrite Heq in H. destruct (allocate_in_cases req pool p d1 Hi1 Hs1 Hp)
    as [(n & fl & Hfree & Hi2 & Hn) | [[Hn _] | [Hn _]]]; [|congruence..].
  pose proof (record_block_ok (set_floors d1 fl) req pool p _ n Hi2 Hs1 Hp Hfree) as Hrec.
  rewrite Hn in H. rewrite H in Hrec. destruct Hrec as (-> & Hi' & Ha' & Hr' & Hid').
  exists p, n, res. split; [done|].
  split; [apply (free_block_inside p _ _ n (proj1 (inv_range _ _ Hi k p Hr)) Hfree)|].
  split; [apply Hfree|]. split; [done|]. split.
  { intros r Hr0. apply (free_block_compatible d1 k dg p _ n Hi1 ltac:(by apply Hr1) (effective_digest_ne req) Hfree).
    rewrite Ha1. apply elem_of_app. by left. }
  rewrite Ha'. cbn [set_floors db_allocs]. rewrite Ha1, <- app_assoc. split; [done|]. split; [done|]. split; [done|].
  split; [|by rewrite Hid']. intros k' p'. rewrite (Hr' k' p'). apply Hr1.
Qed.

(** [C5] An allocation from a consistent ledger that succeeds hands out a block of the
    requested length inside the pool's range.  It overlaps an allocation already in
    the pool only where that is a claim of another address space.  The block is
    recorded under the claim; the only other rows written are the pool's reserved
    positions; the result is the block's text; and the ledger stays consistent. *)
Theorem AllocatePrefix_sound req d s d' :
  let k := rq_PoolKey req in let dg := effective_digest req in
  inv d -> AllocatePrefix req d = Ok (s, d') ->
  exists p n res,
    pool_range d k p /\ inside p n /\ pones n = rq_PrefixLen req /\ s = IPNet_String n
    /\ (forall r, r ∈ db_allocs d -> ar_pool_key r = k -> net_overlap (ar_cidr r) n = true ->
          ar_purpose r = PurposeClaim /\ ar_scope_digest r <> dg)
    /\ db_allocs d' = db_allocs d ++ res ++ [claim_row req dg n] /\ Forall (reservation_of k) res
    /\ inv d' /\ same_ranges d d' /\ db_identity d' = db_identity d.
Proof. apply AllocatePrefix_run. Qed.

(** Exhaustion is reported only when, the pool's reservations in place, no aligned
    block of the length is free in the claim's address space. *)
Theorem AllocatePrefix_exhausted req d :
  let k := rq_PoolKey req in let dg := effective_digest req in
  inv d -> AllocatePrefix req d = Err ErrExhausted ->
  exists p res, pool_range d k p /\ Forall (reservation_of k) res
    /\ forall b, ~ free_block p (blocking k dg (set_allocs d (db_allocs d ++ res))) (rq_PrefixLen req) b.
Proof.
  intros k dg Hi H.
  destruct (AllocatePrefix_reach req d Hi)
    as [(e & He & Hne) | (pool & p & d1 & res & Heq & Hi1 & Hs1 & Hp & Hr & _ & _ & Ha1 & Hres)]; [congruence|].
  exists p, res. split; [done|]. split; [done|]. rewrite (blocking_allocs k dg d1) by done. rewrite Heq in H.
  destruct (allocate_in_cases req pool p d1 Hi1 Hs1 Hp)
    as [(n & fl & Hfree & Hi2 & Hn) | [[_ Hno] | [Hn _]]]; [|done|congruence].
  pose proof (record_block_ok (set_floors d1 fl) req pool p _ n Hi2 Hs1 Hp Hfree) as Hrec.
  rewrite Hn in H. rewrite H in Hrec. by destruct Hrec as [[c [= ]] _].
Qed.

(** Whether the pool's reserved positions are on record, or there are none. *)
Definition reservations_settled (d : Db) (k : string) (pool : IPPool) : Prop :=
  IsZero (reservationFrom (ps_Reservations (pl_Spec pool))) = true
  \/ exists r, r ∈ db_allocs d /\ reservation_of k r.

Lemma materialise_settled d k pool parents :
  reservations_settled d k pool -> materialiseReservations k pool parents d = Ok (pool, d).
Proof.
  unfold materialiseReservations, holdsReservations, read. unfold mbind, txn_bind.
  intros [-> | (r & Hr & Hp & Hk)]; [done|]. destruct (IsZero _); [done|].
  replace (existsb _ (db_allocs d)) with true; [done|]. symmetry. apply existsb_exists. exists r.
  split; [by apply list_elem_of_In|]. unfold in_pool. by rewrite Hk, String.eqb_refl, Hp.
Qed.

(** [C11] A request whose keys are new, on a pool whose reserved positions are on record
    or that reserves none, and of whose rows fewer than the page limit block the space,
    is served whenever a block of the length is free in its space: no other error is
    possible. *)
Theorem AllocatePrefix_succeeds req d pool p b :
  let k := rq_PoolKey req in let dg := effective_digest req in
  inv d -> lockAndDecodeIPPool k d = Ok (pool, d) -> parsePoolCIDR pool = Ok [p] ->
  reservations_settled d k pool ->
  family_ok (rq_IPFamily req) = true ->
  claim_key_free (Some (rq_ClaimKey req)) d = true ->
  allocation_key_free (ar_allocation_key (claim_row req dg p)) d = true ->
  free_block p (blocking k dg d) (rq_PrefixLen req) b ->
  (length (blocking k dg d) < searchPageLimit)%nat ->
  exists s d', AllocatePrefix req d = Ok (s, d').
Proof.
  intros k dg Hi Hlock Hp Hset Hfam Hck Hak Hb Hlen.
  destruct (lockAndDecode_ok k d pool d Hlock) as [_ Hs].
  assert (AllocatePrefix req d = allocate_in req pool [p] d) as ->.
  { change (AllocatePrefix req) with
      (pool ← lockAndDecodeIPPool k; parents ← lift (parsePoolCIDR pool);
       pool ← materialiseReservations k pool parents; allocate_in req pool parents).
    unfold mbind, txn_bind, lift. by rewrite Hlock, Hp, materialise_settled. }
  destruct (allocate_in_cases req pool p d Hi Hs Hp)
    as [(n & fl & Hfree & Hi2 & ->) | [[_ Hno] | [_ Hl]]]; [|by destruct (Hno b)|fold k dg in Hl; lia].
  pose proof (record_block_ok (set_floors d fl) req pool p _ n Hi2 Hs Hp Hfree) as Hrec.
  destruct (record_block req pool [p] n (set_floors d fl)) as [[s d']|e]; [by exists s, d'|].
  destruct Hrec as [_ []]. by split_and!.
Qed.

(** ** Witnesses *)

(** A consistent ledger of pools nothing has been taken from. *)
Lemma inv_fresh d :
  (forall k p, pool_range d k p -> good_range p) ->
  (forall k pool, stored d k pool -> counts_ok (reservationFrom (ps_Reservations (pl_Spec pool)))) ->
  offers_in_sync d -> db_allocs d = [] -> db_consumed d = ∅ -> db_floors d = ∅ -> inv d.
Proof.
  intros H1 H2 H3 Ha Hc Hf. constructor; rewrite ?Ha, ?Hc, ?Hf; try done; try by constructor.
  - intros r Hr. by apply not_elem_of_nil in Hr.
  - intros r Hr. by apply not_elem_of_nil in Hr.
  - intros k [[? H] | (dg & ? & H)]; by rewrite lookup_empty in H.
Qed.

(** A /29 that withholds its first and last address. *)
Definition ex_ledger_pool : IPPool :=
  mkPool (mkMeta "p" ∅ ∅)
    (mkPoolSpec "10.0.0.0/29" IPv4 None 0 [] None ∅ (Some (mkReservationSpec 1 1 32)) None
       (mkAllocationSpec 0 0 "") "")
    (mkPoolStatus PoolReady "" IPv4 "" (mkCapacity "8" "0" "8") f_zero).

Definition ex_ledger : Db :=
  mkDb {["pools/p" := mkObj "IPPool" "p" (DocPool ex_ledger_pool) 1]} [] 1 [] ∅ ∅ ∅ ∅.

Lemma ex_ledger_inv : inv ex_ledger.
Proof.
  assert (Hone : forall k r q, db_objects ex_ledger !! k = Some r -> ob_data r = DocPool q -> q = ex_ledger_pool).
  { intros k r q Hr. unfold ex_ledger in Hr. cbn [db_objects] in Hr. apply lookup_singleton_Some in Hr as [_ <-].
    cbn. by intros [= <-]. }
  apply inv_fresh; try done.
  - intros k p (r & q & Hr & Hq & Hp). rewrite (Hone k r q Hr Hq) in Hp. vm_compute in Hp. injection Hp as <-.
    split; [apply wf_netb_spec; vm_compute; reflexivity|].
    split; [apply native_netb_spec; vm_compute; reflexivity | done].
  - intros k q (r & q0 & Hr & Hq & [Hs _]). rewrite (Hone k r q0 Hr Hq) in Hs. rewrite Hs.
    split; vm_compute; reflexivity.
  - intros k r q cn Hr Hq. rewrite (Hone k r q Hr Hq). cbn. split; intros H; [done | by apply not_elem_of_nil in H].
Qed.

Definition ex_request (name : string) (u : Z) (policy : ReclaimPolicy) : PrefixRequest :=
  mkRequest "pools/p" u IPv4 name "" "proj" "" "c" policy.

Definition run {A} (a0 : A) (m : Txn A) (d : Db) : A * Db := match m d with Ok x => x | Err _ => (a0, d) end.

Lemma run_ok {A} a0 (m : Txn A) d : is_ok (m d) = true -> m d = Ok ((run a0 m d).1, (run a0 m d).2).
Proof. unfold run. by destruct (m d) as [[? ?]|]. Qed.

(** Two claims of /31s, one to be retained; the reservations come first. *)
Definition ex_ledger1 : Db := (run "" (AllocatePrefix (ex_request "a" 31 ReclaimDelete)) ex_ledger).2.
Definition ex_ledger2 : Db := (run "" (AllocatePrefix (ex_request "b" 31 ReclaimRetain)) ex_ledger1).2.

Lemma ex_ledger1_inv : inv ex_ledger1.
Proof.
  destruct (AllocatePrefix_run (ex_request "a" 31 ReclaimDelete) ex_ledger _ _ ex_ledger_inv
    (run_ok "" (AllocatePrefix (ex_request "a" 31 ReclaimDelete)) ex_ledger ltac:(vm_compute; reflexivity))) as (? & ? & ? & H). apply H.
Qed.

Lemma ex_ledger2_inv : inv ex_ledger2.
Proof.
  destruct (AllocatePrefix_run (ex_request "b" 31 ReclaimRetain) ex_ledger1 _ _ ex_ledger1_inv
    (run_ok "" (AllocatePrefix (ex_request "b" 31 ReclaimRetain)) ex_ledger1 ltac:(vm_compute; reflexivity))) as (? & ? & ? & H). apply H.
Qed.

Example ex_ledger2_rows :
  map (fun r => (IPNet_String (ar_cidr r), ar_purpose r)) (db_allocs ex_ledger2)
  = [("10.0.0.0/32", PurposeReservation); ("10.0.0.7/32", PurposeReservation);
     ("10.0.0.2/31", PurposeClaim); ("10.0.0.4/31", PurposeClaim)]
  /\ db_consumed ex_ledger2 !! "pools/p" = Some 6.
Proof. split; vm_compute; reflexivity. Qed.

Lemma AllocatePrefix_sound_witness :
  let k := "pools/p" in let dg := EmptyAddressSpaceDigest in
  exists p n res,
    pool_range ex_ledger k p /\ inside p n /\ pones n = 31 /\ "10.0.0.2/31" = IPNet_String n
    /\ (forall r, r ∈ db_allocs ex_ledger -> ar_pool_key r = k -> net_overlap (ar_cidr r) n = true ->
          ar_purpose r = PurposeClaim /\ ar_scope_digest r <> dg)
    /\ db_allocs ex_ledger1 = db_allocs ex_ledger ++ res ++ [claim_row (ex_request "a" 31 ReclaimDelete) dg n]
    /\ Forall (reservation_of k) res
    /\ inv ex_ledger1 /\ same_ranges ex_ledger ex_ledger1 /\ db_identity ex_ledger1 = db_identity ex_ledger.
Proof.
  apply (AllocatePrefix_sound (ex_request "a" 31 ReclaimDelete) ex_ledger); [apply ex_ledger_inv|].
  vm_compute. reflexivity.
Defined.

Lemma AllocatePrefix_exhausted_witness :
  exists p res, pool_range ex_ledger "pools/p" p /\ Forall (reservation_of "pools/p") res
    /\ forall b, ~ free_block p (blocking "pools/p" EmptyAddressSpaceDigest
                                   (set_allocs ex_ledger (db_allocs ex_ledger ++ res))) 30 b.
Proof.
  apply (AllocatePrefix_exhausted (ex_request "a" 30 ReclaimDelete) ex_ledger); [apply ex_ledger_inv|].
  vm_compute. reflexivity.
Defined.

Lemma held_settled d k :
  existsb (fun r => in_pool k r && bool_decide (ar_purpose r = PurposeReservation)) (db_allocs d) = true ->
  exists r, r ∈ db_allocs d /\ reservation_of k r.
Proof.
  intros (r & Hr & [Hk%String.eqb_eq Hp%bool_decide_eq_true]%andb_true_iff)%existsb_exists. exists r.
  split; [by apply list_elem_of_In | by split].
Qed.

(** The second address of the range is free in the example. *)
Definition ex_next : IPNet := mk_net (10 * 2 ^ 24 + 1) 32 32.

Lemma ex_next_free :
  free_block (mk_net (10 * 2 ^ 24) 29 32) (blocking "pools/p" EmptyAddressSpaceDigest ex_ledger2) 32 ex_next.
Proof.
  split; [apply wf_netb_spec; vm_compute; reflexivity|]. split; [reflexivity|]. split; [reflexivity|].
  intros x [_ Hx]%covers_spec. assert (lo ex_next = 10 * 2 ^ 24 + 1) as Hl by (vm_compute; reflexivity).
  assert (hi ex_next = 10 * 2 ^ 24 + 1) as Hh by (vm_compute; reflexivity).
  assert (x = 10 * 2 ^ 24 + 1) as -> by lia. vm_compute. reflexivity.
Qed.

Lemma AllocatePrefix_succeeds_witness :
  exists s d', AllocatePrefix (ex_request "c" 32 ReclaimDelete) ex_ledger2 = Ok (s, d').
Proof.
  pose (p := mk_net (10 * 2 ^ 24) 29 32).
  apply (AllocatePrefix_succeeds (ex_request "c" 32 ReclaimDelete) ex_ledger2
           (default ex_ledger_pool (as_pool (default (DocPool ex_ledger_pool)
              (ob_data <$> db_objects ex_ledger2 !! "pools/p")))) p ex_next).
  - apply ex_ledger2_inv.
  - vm_compute. reflexivity.
  - vm_compute. reflexivity.
  - right. apply held_settled. vm_compute. reflexivity.
  - reflexivity.
  - vm_compute. reflexivity.
  - vm_compute. reflexivity.
  - apply ex_next_free.
  - apply Nat.ltb_lt. vm_compute. reflexivity.
Defined.

Lemma Release_ok_witness :
  exists d',
    Release "b" ex_ledger2
      = Ok (map ar_allocation_key (List.filter (fun r => holds "b" r && retains r) (db_allocs ex_ledger2)), d')
    /\ inv d' /\ db_allocs d' = omap (after_release "b") (db_allocs ex_ledger2)
    /\ db_identity d' = db_identity ex_ledger2 /\ same_ranges ex_ledger2 d'.
Proof. apply (Release_ok "b" ex_ledger2), ex_ledger2_inv. Defined.

Lemma ReleaseAllocation_ok_witness :
  exists d',
    ReleaseAllocation "a" ex_ledger2 = Ok (tt, d') /\ inv d'
    /\ db_allocs d' = List.filter (fun r => negb (String.eqb (ar_allocation_key r) "a")) (db_allocs ex_ledger2)
    /\ db_identity d' = db_identity ex_ledger2 /\ same_ranges ex_ledger2 d'.
Proof. apply (ReleaseAllocation_ok "a" ex_ledger2), ex_ledger2_inv. Defined.

Lemma ReleasePoolReservations_ok_witness :
  exists d',
    ReleasePoolReservations "pools/p" ex_ledger2 = Ok (tt, d') /\ inv d'
    /\ db_allocs d' = List.filter (fun r => negb (in_pool "pools/p" r && bool_decide (ar_purpose r = PurposeReservation)))
                        (db_allocs ex_ledger2)
    /\ db_identity d' = db_identity ex_ledger2 /\ same_ranges ex_ledger2 d'.
Proof. apply (ReleasePoolReservations_ok "pools/p" ex_ledger2), ex_ledger2_inv. Defined.
