(* ===== verification/Cascade.v ===== *)
(** * Cascade: [internal/allocator/cascade.go] and [scoperange.go]

    Provisioning: a claim's class chain is planned into levels, root first, and
    each level's pool is found by its identity or carved from the level above in
    a transaction of its own; a claim may also hold such a pool as a range, and
    give it back.

    Other transactions commit between the transactions of a resolution, and between
    the unlocked identity lookup and the insert that decides who provisions.  They
    appear as the function [others]: what they did to the database at each point.
    [faults] says which of the resolution's own transactions fail for reasons
    outside it: one that would not begin, run or commit leaves no writes. *)

From Stdlib Require Import Ascii String.
From S2P Require Import Prelude Text Float Net Cidr Reservation Allocate Consumption Scan Tenant Scope.
From S2P Require Import NetText Types Db PoolObject Class Discover BoundedSearch Prefix.
Open Scope string_scope.
Open Scope list_scope.
Open Scope Z_scope.

Definition labelProvisionedBy : string := "ipam.miloapis.com/provisioned-by".
Definition labelScopeDigest : string := "ipam.miloapis.com/scope-digest".
Definition labelProvisionedFor : string := "ipam.miloapis.com/provisioned-for".

(** ** Names *)

Definition alnum (c : ascii) : bool :=
  let n := N_of_ascii c in ((97 <=? n)%N && (n <=? 122)%N) || ((48 <=? n)%N && (n <=? 57)%N).

(** [strings.Trim(s, "-")]. *)
Fixpoint trim_left (s : string) : string :=
  match s with
  | String "-" t => trim_left t
  | _ => s
  end.

Fixpoint trim_right (s : string) : string :=
  match s with
  | EmptyString => EmptyString
  | String c t =>
    let t := trim_right t in
    if Ascii.eqb c "-" && String.eqb t "" then EmptyString else String c t
  end.

Definition TrimDash (s : string) : string := trim_right (trim_left s).

(** The builder loop: [written] says something was written, [lastDash] that it
    ended in a dash.  The text is ASCII, as object names are. *)
Fixpoint sanitize_loop (written lastDash : bool) (s : string) : string :=
  match s with
  | EmptyString => EmptyString
  | String c t =>
    if alnum c then String c (sanitize_loop true false t)
    else if negb lastDash && written then String "-" (sanitize_loop true true t)
    else sanitize_loop written lastDash t
  end.

Definition sanitizeName (s : string) : string := TrimDash (sanitize_loop false false (ToLower s)).

Fixpoint join_dash (parts : list string) : string :=
  match parts with
  | [] => ""
  | [p] => p
  | p :: rest => p +:+ "-" +:+ join_dash rest
  end.

Definition maxName : nat := 253.

Definition poolNameFor (t : PoolTenancy) (className : string) (projected : scope_map) : string :=
  let parts := className :: (if String.eqb (Consumer t) "" then [] else [Consumer t])
               ++ map (fun role => sr_Name (ref_of projected role)) (Roles projected) in
  let readable := sanitizeName (join_dash parts) in
  let suffix := "-" +:+ take_str 8 (PoolDigest t projected) in
  let readable :=
    if (maxName <? String.length readable + String.length suffix)%nat
    then TrimDash (take_str (maxName - String.length suffix) readable) else readable in
  readable +:+ suffix.

(** ** Levels *)

Record CascadeLevel := mkLevel {
  lv_Class : ResolvedClass;
  lv_Tenancy : PoolTenancy;
  lv_Scope : scope_map;
  lv_ScopeDigest : string;
  lv_PoolName : string;
  lv_PoolKey : string
}.

Definition lv_OwnerProject (l : CascadeLevel) : string :=
  if negb (String.eqb (Consumer (lv_Tenancy l)) "") then Consumer (lv_Tenancy l) else rc_Project (lv_Class l).

(** One class of the chain. *)
Definition plan_level (consumer : Identity) (claimScope : scope_map) (class : ResolvedClass)
    : result IpamErr CascadeLevel :=
  let '(roles, perConsumer) := PoolPerRoles (cs_PoolPer (rc_Spec class)) in
  projected ← wrap_err ErrScope (ProjectFor claimScope roles "poolPer");
  let tenancy := mkTenancy (rc_Project class) (if perConsumer : bool then id_Name consumer else "") in
  let name := poolNameFor tenancy (rc_Name class) projected in
  Ok (mkLevel class tenancy projected (PoolDigest tenancy projected) name
        (ResourceKey (named (Owner tenancy)) "ippools" name)).

Fixpoint plan_chain (consumer : Identity) (claimScope : scope_map) (chain : list ResolvedClass)
    : result IpamErr (list CascadeLevel) :=
  match chain with
  | [] => Ok []
  | class :: rest =>
    level ← plan_level consumer claimScope class;
    levels ← plan_chain consumer claimScope rest;
    Ok (level :: levels)
  end.

(** Nearest-first classes in, root-first levels out. *)
Definition planLevels (user : option Extras) (chain : list ResolvedClass) (claimScope : scope_map)
    : result IpamErr (list CascadeLevel) :=
  consumer ← wrap_err ErrTenancy (RequireTenant user);
  levels ← plan_chain consumer claimScope chain;
  Ok (rev levels).

Definition PlanCascade (user : option Extras) (leaf : ResolvedClass) (claimScope : scope_map)
    : Txn (list CascadeLevel) :=
  ancestry ← LoadAncestry leaf; lift (planLevels user ancestry claimScope).

Definition PlanScopeRangeCascade (user : option Extras) (leaf : ResolvedClass) (claimScope : scope_map)
    : Txn (list CascadeLevel) :=
  ancestry ← LoadAncestry leaf; lift (planLevels user (leaf :: ancestry) claimScope).

(** ** Identity *)

(** [""] when no pool has been provisioned. *)
Definition lookupPoolIdentity (className scopeDigest : string) : Txn string :=
  k ← select_identity className scopeDigest; mret (default "" k).

Definition claimPoolIdentity (className scopeDigest proposedKey : string) : Txn (string * bool) :=
  r ← insert_identity className scopeDigest proposedKey;
  match r with
  | Some k => mret (k, true)
  | None =>
    winner ← lookupPoolIdentity className scopeDigest;
    if String.eqb winner "" then fail ErrIdentityLeftNoRow else mret (winner, false)
  end.

(** ** Provisioning *)

Record poolCarve := mkCarve {
  pcv_AllocationKey : string;
  pcv_ClassName : string;
  pcv_ScopeDigest : string;
  pcv_IPFamily : string;
  pcv_OwnerProject : string
}.

(** A provisioned pool holds its own carve: the claim key is the allocation key. *)
Definition carve_row (sourcePoolKey : string) (block : IPNet) (carve : poolCarve) : AllocRow :=
  mkAlloc sourcePoolKey block (Some (pcv_AllocationKey carve)) (pcv_AllocationKey carve) (pcv_IPFamily carve)
    PurposePoolCarve (pcv_ClassName carve) (pcv_ScopeDigest carve) "Delete" (pcv_OwnerProject carve) false.

Definition carveFromPool (sourcePoolKey : string) (prefixLen : Z) (carve : poolCarve) : Txn IPNet :=
  pool ← lockAndDecodeIPPool sourcePoolKey;
  parents ← lift (parsePoolCIDR pool);
  pool ← materialiseReservations sourcePoolKey pool parents;
  block ← catch_exhausted (findBlock sourcePoolKey spaceAll parents prefixLen
                             (as_Strategy (ps_Allocation (pl_Spec pool))));
  consumed ← consumptionAfterAllocate sourcePoolKey parents block;
  insert_alloc (carve_row sourcePoolKey block carve);;
  writeConsumed sourcePoolKey consumed;;
  persistPoolCapacity pool sourcePoolKey parents consumed;;
  mret block.

(** What follows the last slash of a key. *)
Fixpoint after_last_slash (s acc : string) : string :=
  match s with
  | EmptyString => acc
  | String c t => if Ascii.eqb c "/" then after_last_slash t "" else after_last_slash t (acc +:+ String c "")
  end.

Definition scopeToVersioned (s : scope_map) : scope_map := s.

(** The system fields [rest.FillObjectMetaSystemFields] stamps, a creation time and
    a UID, are not modelled. *)
Definition newProvisionedPool (level : CascadeLevel) (sourcePoolName : string) (prefixLen : Z) (cidr : IPNet)
    : IPPool :=
  let labels : gmap string string :=
    <[labelScopeDigest := lv_ScopeDigest level]> {[labelProvisionedBy := rc_Name (lv_Class level)]} in
  let labels :=
    if negb (String.eqb (Consumer (lv_Tenancy level)) "")
    then <[labelProvisionedFor := Consumer (lv_Tenancy level)]> labels else labels in
  let spec := rc_Spec (lv_Class level) in
  mkPool (mkMeta (lv_PoolName level) labels ∅)
    (mkPoolSpec "" (cs_IPFamily spec) (Some (mkLocalRef sourcePoolName)) prefixLen []
       (Some (mkLocalRef (rc_Name (lv_Class level)))) (scopeToVersioned (lv_Scope level)) (cs_Reservations spec)
       None (mkAllocationSpec 0 0 "") "")
    (mkPoolStatus PoolReady (IPNet_String cidr) (cs_IPFamily spec) (lv_ScopeDigest level)
       (mkCapacity "" "" "") f_zero).

Definition level_carve (level : CascadeLevel) : poolCarve :=
  mkCarve (lv_PoolKey level) (rc_Name (lv_Class level)) (lv_ScopeDigest level)
    (cs_IPFamily (rc_Spec (lv_Class level))) (lv_OwnerProject level).

Definition provisionPool (level : CascadeLevel) (sourcePoolKey : string) : Txn unit :=
  prefixLen ← lift (EffectivePrefixLength (rc_Class (lv_Class level)) None);
  cidr ← carveFromPool sourcePoolKey prefixLen (level_carve level);
  let sourcePoolName := after_last_slash sourcePoolKey "" in
  let pool := newProvisionedPool level sourcePoolName prefixLen cidr in
  let pool := setPoolCapacityStatus pool [cidr] 0 in
  insertObject (lv_PoolKey level) "IPPool" (lv_PoolName level) (DocPool pool);;
  materialiseReservations (lv_PoolKey level) pool [cidr];;
  mret tt.

(** ** Jobs: sequences of transactions *)

(** A transaction that commits keeps its writes, once the deferred constraints
    hold; one that fails leaves the database as it found it. *)
Definition in_tx {A} (m : Txn A) (d : Db) : result IpamErr A * Db :=
  match m d with
  | Ok (a, d') => if identity_ok d' then (Ok a, d') else (Err (ErrConstraint IdentityPoolKey), d)
  | Err e => (Err e, d)
  end.

(** A transaction begun to read and rolled back. *)
Definition rolled_back {A} (m : Txn A) (d : Db) : result IpamErr A :=
  match m d with Ok (a, _) => Ok a | Err e => Err e end.

(** One that fails for reasons of its own reads nothing. *)
Definition reading {A} (fault : option IpamErr) (m : Txn A) (d : Db) : result IpamErr A :=
  match fault with Some e => Err e | None => rolled_back m d end.

(** Claim the identity, and carve and write the pool on winning it. *)
Definition claim_level (level : CascadeLevel) (sourcePoolKey : string) : Txn (string * bool) :=
  r ← claimPoolIdentity (rc_Name (lv_Class level)) (lv_ScopeDigest level) (lv_PoolKey level);
  if r.2 : bool then provisionPool level sourcePoolKey;; mret r else mret r.

(** One transaction: the lookup, the claim and the carve.  Should any statement of it,
    or its commit, fail for reasons outside it, only what others committed is left. *)
Definition ensureLevel (others : Db -> Db) (fault : option IpamErr) (level : CascadeLevel) (sourcePoolKey : string)
    (d : Db) : result IpamErr (string * bool) * Db :=
  match fault with
  | Some e => (Err e, others d)
  | None =>
    let existing := default "" (db_identity d !! (rc_Name (lv_Class level), lv_ScopeDigest level)) in
    if negb (String.eqb existing "") then (Ok (existing, false), d)
    else in_tx (claim_level level sourcePoolKey) (others d)
  end.

(** The levels in turn, each carving from the one before.  Other transactions also
    commit before a level begins. *)
Fixpoint ensureLevels (others : nat -> Db -> Db) (faults : nat -> option IpamErr) (levels : list CascadeLevel)
    (source : string) (d : Db) : result IpamErr string * Db :=
  match levels with
  | [] => (Ok source, d)
  | level :: rest =>
    match ensureLevel (others 1%nat) (faults O) level source (others O d) with
    | (Ok (poolKey, _), d') => ensureLevels (fun i => others (S (S i))) (fun i => faults (S i)) rest poolKey d'
    | (Err e, d') => (Err e, d')
    end
  end.

(** Planning reads in one transaction, discovery in another; other transactions
    commit before each. *)
Definition resolve_levels (others : nat -> Db -> Db) (faults : nat -> option IpamErr)
    (plan : Txn (list CascadeLevel)) (leaf : ResolvedClass) (claimScope : scope_map) (d : Db)
    : result IpamErr string * Db :=
  let d := others O d in
  match reading (faults O) plan d with
  | Err e => (Err e, d)
  | Ok [] => let d := others 1%nat d in (reading (faults 1%nat) (DiscoverPool leaf claimScope) d, d)
  | Ok (level :: rest) =>
    let d := others 1%nat d in
    match reading (faults 1%nat) (DiscoverPool (lv_Class level) claimScope) d with
    | Err e => (Err e, d)
    | Ok source =>
      ensureLevels (fun i => others (S (S i))) (fun i => faults (S (S i))) (level :: rest) source d
    end
  end.

Definition ResolvePool (others : nat -> Db -> Db) (faults : nat -> option IpamErr) (user : option Extras)
    (leaf : ResolvedClass) (claimScope : scope_map) (d : Db) : result IpamErr string * Db :=
  resolve_levels others faults (PlanCascade user leaf claimScope) leaf claimScope d.

(** Dry run: the key, and the levels that would have to be created. *)
Fixpoint existing_levels (levels : list CascadeLevel) (poolKey : string) : Txn (string * list CascadeLevel) :=
  match levels with
  | [] => mret (poolKey, [])
  | level :: rest =>
    existing ← lookupPoolIdentity (rc_Name (lv_Class level)) (lv_ScopeDigest level);
    if String.eqb existing "" then mret ("", levels) else existing_levels rest existing
  end.

Definition ResolveExistingPool (user : option Extras) (leaf : ResolvedClass) (claimScope : scope_map)
    : Txn (string * list CascadeLevel) :=
  levels ← PlanCascade user leaf claimScope;
  match levels with
  | [] => poolKey ← DiscoverPool leaf claimScope; mret (poolKey, [])
  | level :: _ =>
    DiscoverPool (lv_Class level) claimScope;;
    existing_levels levels ""
  end.

(** ** Ranges *)

Definition ResolveScopeRange (others : nat -> Db -> Db) (faults : nat -> option IpamErr) (user : option Extras)
    (leaf : ResolvedClass) (claimScope : scope_map) (d : Db) : result IpamErr string * Db :=
  match cs_PoolPer (rc_Spec leaf) with
  | [] => (Err ErrClassHoldsNoRange, d)
  | _ => resolve_levels others faults (PlanScopeRangeCascade user leaf claimScope) leaf claimScope d
  end.

(** A carve no claim holds: its pool does. *)
Definition unheld_carve (poolKey : string) (r : AllocRow) : bool :=
  String.eqb (ar_allocation_key r) poolKey && bool_decide (ar_purpose r = PurposePoolCarve)
  && bool_decide (ar_claim_key r = Some (ar_allocation_key r)).

(** The range is returned as its text; the model returns the range. *)
Definition BindScopeRange (poolKey claimKey : string) : Txn IPNet :=
  rows ← set_claim_where (unheld_carve poolKey) (Some claimKey);
  match rows with
  | r :: _ => mret (ar_cidr r)
  | [] =>
    carve ← read (fun d => List.find (fun r => String.eqb (ar_allocation_key r) poolKey
                                            && bool_decide (ar_purpose r = PurposePoolCarve)) (db_allocs d));
    match carve with
    | None => fail ErrScopeRangeCarveMissing
    | Some _ => fail ErrScopeRangeHeld
    end
  end.

Definition FindScopeRange (claimKey : string) : Txn string :=
  row ← read (fun d => List.find (fun r => bool_decide (ar_claim_key r = Some claimKey)
                                        && bool_decide (ar_purpose r = PurposePoolCarve)) (db_allocs d));
  mret match row with None => "" | Some r => ar_allocation_key r end.

(** What a pool holds that keeps it from being released, and the child pools that
    go with it. *)
Definition occupies (poolKey : string) (r : AllocRow) : bool :=
  in_pool poolKey r && negb (bool_decide (ar_purpose r = PurposeReservation)).

Definition derived_carve (r : AllocRow) : bool :=
  bool_decide (ar_purpose r = PurposePoolCarve) && String.eqb (default "" (ar_claim_key r)) (ar_allocation_key r).

(** One unit of fuel per level: depths 0 to [MaxClassChainDepth]. *)
Fixpoint releaseRangeTree (fuel : nat) (poolKey : string) : Txn unit :=
  match fuel with
  | O => fail ErrRangeTooDeep
  | S fuel =>
    inside ← read (fun d => List.filter (occupies poolKey) (db_allocs d));
    match List.filter (fun r => negb (derived_carve r)) inside with
    | _ :: _ => fail ErrScopeRangeOccupied
    | [] =>
      each (fun _ child => releaseRangeTree fuel child) tt (map ar_allocation_key inside);;
      ReleasePoolReservations poolKey;;
      ReleaseAllocation poolKey;;
      deleteObject poolKey;;
      mret tt
    end
  end.

Definition ReleaseScopeRange (poolKey : string) : Txn unit := releaseRangeTree (S MaxClassChainDepth) poolKey.
