(* ===== verification/Locking.v ===== *)
(** * Locking: the rows a release and an allocation wait for

    Elsewhere a transaction is taken whole.  Here are the two places where that is more
    than the code gives.  [AllocatePrefix] locks a pool's row and then the floor of its
    space; [deleteAllocations] deletes first, so that the trigger locks the floors, and
    locks the pool's row afterwards.  The migration's comment has every deletion take
    the pool's row first: [pool_first_never_deadlocks] is what that order would give,
    [release_can_deadlock] what the code's order costs, and [floor_above_a_freed_block]
    a release interleaved with the first search of a space, after which a block that is
    free is never handed out. *)

From Stdlib Require Import Ascii String.
From S2P Require Import Prelude Text Float Net Cidr Reservation Allocate Consumption Scan Tenant Scope.
From S2P Require Import NetText Types Db PoolObject Class Discover BoundedSearch Prefix PoolInvariant.
From S2P Require Import PoolWrites Cascade.
Open Scope string_scope.
Open Scope list_scope.
Open Scope Z_scope.

(** ** Row locks *)

Inductive Lock :=
| PoolRow (key : string)
| FloorRow (key digest : string).

#[export] Instance Lock_eq_dec : EqDecision Lock.
Proof. solve_decision. Defined.

(** A transaction: the locks it holds, to its end, and those it has yet to take. *)
Record Session := mkSession { se_held : list Lock; se_wants : list Lock }.

Definition idle (wants : list Lock) : Session := mkSession [] wants.

Inductive lock_step : list Session -> list Session -> Prop :=
| lock_taken ss i s l rest :
  ss !! i = Some s -> se_wants s = l :: rest ->
  (forall j t, j <> i -> ss !! j = Some t -> l ∉ se_held t) ->
  lock_step ss (<[i := mkSession (l :: se_held s) rest]> ss)
| lock_ended ss i s :
  ss !! i = Some s -> se_wants s = [] -> lock_step ss (<[i := idle []]> ss).

(** Two transactions each waiting for a row the other holds. *)
Definition deadlocked (ss : list Session) : Prop :=
  exists i j s t l m ls ms, i <> j /\ ss !! i = Some s /\ ss !! j = Some t
    /\ se_wants s = l :: ls /\ l ∈ se_held t /\ se_wants t = m :: ms /\ m ∈ se_held s.

(** [lockAndDecodeIPPool], then [lockSearchFloor]. *)
Definition AllocatePrefix_locks (req : PrefixRequest) : list Lock :=
  [PoolRow (rq_PoolKey req); FloorRow (rq_PoolKey req) (effective_digest req)].

(** The floors the trigger updates for a deleted row; an [UPDATE] locks the row it
    finds even where [LEAST] leaves its value. *)
Definition trigger_locks (d : Db) (row : AllocRow) : list Lock :=
  map (fun k => FloorRow k.1 k.2)
    (List.filter (fun k => in_pool k.1 row && (negb (bool_decide (ar_purpose row = PurposeClaim))
                                               || String.eqb (ar_scope_digest row) k.2))
       (map fst (map_to_list (db_floors d)))).

(** [deleteAllocations]: the statement and its triggers, then pool by pool. *)
Definition deleteAllocations_locks (cond : AllocRow -> bool) (d : Db) : list Lock :=
  let gone := List.filter cond (db_allocs d) in
  flat_map (trigger_locks d) gone ++ map (fun r => PoolRow (ar_pool_key r)) gone.

(** *** The order the migration describes *)

Record pool_first (k : string) (ss : list Session) : Prop := {
  pf_first : forall i s, ss !! i = Some s ->
    PoolRow k ∈ se_held s \/ (se_held s = [] /\ (se_wants s = [] \/ head (se_wants s) = Some (PoolRow k)));
  pf_one : forall i j s t, i <> j -> ss !! i = Some s -> ss !! j = Some t ->
    PoolRow k ∈ se_held s -> PoolRow k ∉ se_held t
}.

Lemma pool_first_step k ss ss' : lock_step ss ss' -> pool_first k ss -> pool_first k ss'.
Proof.
  intros [qs i s l rest Hs Hw Hfree | qs i s Hs Hw] [Hf Ho]; constructor.
  - intros j t [(<- & <- & _)|[Hne Ht]]%list_lookup_insert_Some; [|by eapply Hf]. left. cbn.
    destruct (Hf i s Hs) as [?|[_ [E|E]]]; [by right | congruence |]. rewrite Hw in E. injection E as ->. left.
  - assert (Hnew : forall j t, j <> i -> qs !! j = Some t -> PoolRow k ∈ l :: se_held s -> PoolRow k ∉ se_held t).
    { intros j t Hne Ht [<-|Hi]%elem_of_cons; [by eapply Hfree | by eapply (Ho i j s)]. }
    intros j j' t t' Hne [(<- & <- & _)|[Hj Ht]]%list_lookup_insert_Some
      [(<- & <- & _)|[Hj' Ht']]%list_lookup_insert_Some; cbn.
    + done.
    + by eapply Hnew.
    + intros Hi Hi'. by apply (Hnew j t).
    + by eapply (Ho j j').
  - intros j t [(<- & <- & _)|[Hne Ht]]%list_lookup_insert_Some; [right; auto | by eapply Hf].
  - intros j j' t t' Hne [(<- & <- & _)|[Hj Ht]]%list_lookup_insert_Some
      [(<- & <- & _)|[Hj' Ht']]%list_lookup_insert_Some; cbn.
    + done.
    + intros H. by apply not_elem_of_nil in H.
    + intros _. apply not_elem_of_nil.
    + by eapply (Ho j j').
Qed.

(** Transactions that lock the pool's row before anything else never deadlock,
    whatever they lock after it and however many they are. *)
Theorem pool_first_never_deadlocks k ws ss :
  rtc lock_step (map (fun rest => idle (PoolRow k :: rest)) ws) ss -> ~ deadlocked ss.
Proof.
  intros Hr. assert (pool_first k ss) as [Hf Ho].
  { revert ss Hr. apply rtc_ind_r; [|intros; by eapply pool_first_step]. constructor.
    - intros i s. rewrite list_lookup_fmap_Some. intros (w & -> & _). cbn. auto.
    - intros i j s t _. rewrite list_lookup_fmap_Some. intros (w & -> & _) _ H. by apply not_elem_of_nil in H. }
  intros (i & j & s & t & l & m & ls & ms & Hne & Hs & Ht & _ & Hl & _ & Hm).
  destruct (Hf i s Hs) as [Hi|[E _]]; [|rewrite E in Hm; by apply not_elem_of_nil in Hm].
  destruct (Hf j t Ht) as [Hj|[E _]]; [|rewrite E in Hl; by apply not_elem_of_nil in Hl].
  by apply (Ho i j s t).
Qed.

(** *** The order of the code *)

(** Releasing a claim of a space whose floor is on record can deadlock with an
    allocation of that space: the allocation has the pool's row and waits for the
    floor, the release has the floor and waits for the pool's row. *)
Theorem release_can_deadlock req cond d row :
  List.filter cond (db_allocs d) = [row] -> trigger_locks d row = [FloorRow (rq_PoolKey req) (effective_digest req)] ->
  ar_pool_key row = rq_PoolKey req ->
  exists ss, rtc lock_step [idle (AllocatePrefix_locks req); idle (deleteAllocations_locks cond d)] ss
             /\ deadlocked ss.
Proof.
  intros Hg Ht Hk. unfold deleteAllocations_locks, AllocatePrefix_locks. rewrite Hg. cbn. rewrite Ht, Hk. cbn.
  set (P := PoolRow _). set (F := FloorRow _ _).
  exists [mkSession [P] [F]; mkSession [F] [P]]. split.
  - eapply rtc_l; [apply (lock_taken _ 0 (idle [P; F]) P [F]); [done..|]|].
    { intros [|[|j]] t Hj Hq; [done | injection Hq as <-; apply not_elem_of_nil | done]. }
    eapply rtc_l; [apply (lock_taken _ 1 (idle [F; P]) F [P]); [done..|]|]; [|apply rtc_refl].
    intros [|[|j]] t Hj Hq; [injection Hq as <- | done | done]. cbn. intros E%list_elem_of_singleton. done.
  - exists 0%nat, 1%nat, (mkSession [P] [F]), (mkSession [F] [P]), F, P, [], []. cbn.
    split_and!; try done; left.
Qed.

(** ** A release and the first search of a space *)

(** [deleteAllocations cond] whose [DELETE] ran at [d] and which then waited for the
    pool's row while another transaction, begun at [d], ran and committed.  The other
    does not see the deletion, and the triggers saw only the floors of [d]: those are
    the release's, the ones the other made are the other's.  A floor of [d] is locked
    by whichever of the two came first, so this is a run of theirs where the other
    leaves the floors of [d] alone. *)
Definition deleteAllocations_around {A} (other : Txn A) (cond : AllocRow -> bool) : Txn A := fun d =>
  match delete_allocs cond d with
  | Err e => Err e
  | Ok (gone, deleted) =>
    match other d with
    | Err e => Err e
    | Ok (a, d1) =>
      let is_gone r := existsb (fun g => String.eqb (ar_allocation_key g) (ar_allocation_key r)) gone in
      let d2 := set_floors (set_allocs d1 (List.filter (fun r => negb (is_gone r)) (db_allocs d1)))
                  (db_floors deleted ∪ db_floors d1) in
      (each account_release tt gone;; mret a) d2
    end
  end.

(** A /29 that serves a range of its own and the claims of an address space. *)
Definition ex_shared_pool : IPPool :=
  mkPool (mkMeta "p" ∅ ∅)
    (mkPoolSpec "10.0.0.0/29" IPv4 None 0 [] None ∅ None None (mkAllocationSpec 0 0 "") "")
    (mkPoolStatus PoolReady "" IPv4 "" (mkCapacity "8" "0" "8") f_zero).

Definition ex_shared : Db :=
  mkDb {["pools/p" := mkObj "IPPool" "p" (DocPool ex_shared_pool) 1]} [] 1 [] ∅ ∅ ∅ ∅.

Definition ex_no_block : IPNet := mkIPNet [] [].

(** Half of it carved out for a pool of a class. *)
Definition ex_carved : Db :=
  (run ex_no_block (carveFromPool "pools/p" 30 (mkCarve "pools/range" "ranges" "" IPv4 "proj")) ex_shared).2.

Definition ex_is_carve (r : AllocRow) : bool := String.eqb (ar_allocation_key r) "pools/range".

(** The carve's release, around the first claim of the space. *)
Definition ex_around : string * Db :=
  run "" (deleteAllocations_around (AllocatePrefix (ex_request "a" 31 ReclaimDelete)) ex_is_carve) ex_carved.

(** A release of a carve that is waiting for the pool's row while a space is searched
    for the first time leaves the floor of that space above the addresses it frees:
    the second claim after it is refused, though half the pool is held by no row at
    all.  Taken one after the other, in either order, the same two transactions leave
    a floor from which it is served. *)
Theorem floor_above_a_freed_block :
  ex_around.1 = "10.0.0.4/31"
  /\ map (fun r => IPNet_String (ar_cidr r)) (db_allocs ex_around.2) = ["10.0.0.4/31"]
  /\ db_floors ex_carved = ∅
  /\ (let d := (run "" (AllocatePrefix (ex_request "b" 31 ReclaimDelete)) ex_around.2).2 in
      map (fun r => IPNet_String (ar_cidr r)) (db_allocs d) = ["10.0.0.4/31"; "10.0.0.6/31"]
      /\ AllocatePrefix (ex_request "c" 31 ReclaimDelete) d = Err ErrExhausted)
  /\ (let served m := (run "" (AllocatePrefix (ex_request "b" 31 ReclaimDelete)) (run "" m ex_carved).2).1 in
      served (deleteAllocations ex_is_carve;; AllocatePrefix (ex_request "a" 31 ReclaimDelete)) = "10.0.0.2/31"
      /\ served (s ← AllocatePrefix (ex_request "a" 31 ReclaimDelete); deleteAllocations ex_is_carve;; mret s)
         = "10.0.0.0/31").
Proof. cbv zeta beta. split_and!; vm_compute; reflexivity. Qed.

(** A claim, its floor and its release. *)
Definition ex_held : Db := (run "" (AllocatePrefix (ex_request "a" 31 ReclaimDelete)) ex_shared).2.
Definition ex_by_a (r : AllocRow) : bool := bool_decide (ar_claim_key r = Some "a").
Definition ex_held_row : AllocRow :=
  claim_row (ex_request "a" 31 ReclaimDelete) EmptyAddressSpaceDigest (mk_net (10 * 2 ^ 24) 31 32).

Lemma release_can_deadlock_witness :
  exists ss, rtc lock_step [idle (AllocatePrefix_locks (ex_request "b" 31 ReclaimDelete));
                            idle (deleteAllocations_locks ex_by_a ex_held)] ss
             /\ deadlocked ss.
Proof.
  apply (release_can_deadlock (ex_request "b" 31 ReclaimDelete) ex_by_a ex_held ex_held_row);
    vm_compute; reflexivity.
Defined.

Lemma pool_first_never_deadlocks_witness : ~ deadlocked [idle [PoolRow "p"]; idle [PoolRow "p"]].
Proof. apply (pool_first_never_deadlocks "p" [[]; []]). apply rtc_refl. Defined.
