(* ===== verification/Provision.v ===== *)
(** * Provision: what the cascade guarantees

    A carve is free in every address space; a provisioned pool hands out exactly
    the block carved for it; the pool of a class and scope is decided once, so
    racing claims agree on it; and a whole resolution keeps the ledger consistent
    whatever other transactions commit between its steps. *)

From Stdlib Require Import Ascii String.
From S2P Require Import Prelude Text Float Net Cidr Reservation Allocate Consumption Scan Tenant Scope.
From S2P Require Import NetText Types Db PoolObject Class Discover BoundedSearch Prefix PoolInvariant.
From S2P Require Import PoolWrites Cascade.
Open Scope string_scope.
Open Scope list_scope.
Open Scope Z_scope.

(** ** Carving *)

(** A carve's search: free in every space, and no floor. *)
Lemma findBlock_all_ok d k p u s :
  inv d -> pool_range d k p ->
  (findBlock k spaceAll [p] u s d
   = match choice k spaceAll p u s d with Ok n => Ok (n, d) | Err e => Err (ErrAllocation e) end)
  \/ findBlock k spaceAll [p] u s d = Err ErrSearchDidNotAdvance.
Proof.
  intros Hi Hr. pose proof (inv_range _ _ Hi k p Hr) as Hg.
  pose proof (inv_blocking d k p spaceAll Hi Hr) as Hin.
  unfold findBlock. destruct (negb (String.eqb s "") && negb (String.eqb s FirstFit)) eqn:Hs.
  { left. unfold loadAllocationsInSpace, read, lift. unfold mbind, txn_bind.
    change (cidrs_where (searchFilter k spaceAll) d) with (blocking k spaceAll d). fold (choice k spaceAll p u s d).
    by destruct (choice k spaceAll p u s d). }
  assert (choice k spaceAll p u s d = choice k spaceAll p u FirstFit d) as ->.
  { apply strategy_first_fit. apply andb_false_iff in Hs as [Hs%negb_false_iff | Hs%negb_false_iff];
      apply String.eqb_eq in Hs; tauto. }
  rewrite String.eqb_refl. unfold mbind, txn_bind.
  destruct (bounded_search_ok (blocking k spaceAll d) p u (proj1 Hg) (proj1 (proj2 Hg)) Hin (proj2 (proj2 Hg)) k
              spaceAll d None eq_refl ltac:(done) I) as [-> | [-> _]]; [left | by right].
  unfold choice. by destruct (FindFirstAvailableBlock [p] _ u FirstFit).
Qed.

(** A block free in every space overlaps no row of the pool. *)
Lemma free_everywhere d k p u n :
  inv d -> pool_range d k p -> free_block p (blocking k spaceAll d) u n ->
  forall r, r ∈ db_allocs d -> ar_pool_key r = k -> net_overlap (ar_cidr r) n = false.
Proof.
  intros Hi Hr Hf r Hr' Hk. pose proof (inv_range _ _ Hi k p Hr) as Hg.
  pose proof (free_block_inside p _ u n (proj1 Hg) Hf) as Hn.
  assert (inside p (ar_cidr r)) as Hin.
  { destruct (inv_rows _ _ Hi r ltac:(apply elem_of_app; by left)) as (p' & Hp' & Hin). rewrite Hk in Hp'.
    by rewrite (pool_range_fun _ _ _ _ Hr Hp'). }
  apply not_true_iff_false. intros (x & Hx1 & Hx2)%(net_overlap_iff p); [|done..].
  destruct Hf as (_ & _ & _ & Hfree). specialize (Hfree x Hx2). unfold free_in in Hfree.
  apply andb_true_iff in Hfree as [_ Hfree]. apply negb_true_iff in Hfree. rewrite blocked_false in Hfree.
  rewrite (Hfree (ar_cidr r)) in Hx1; [done|]. apply blocking_elem. exists r. split; [done|].
  split; [|done]. split; [done | by left].
Qed.

Lemma carveFromPool_row k u carve d :
  carveFromPool k u carve d =
  match (pool ← lockAndDecodeIPPool k; parents ← lift (parsePoolCIDR pool);
         pool ← materialiseReservations k pool parents; mret (pool, parents)) d with
  | Err e => Err e
  | Ok ((pool, parents), d1) =>
    match catch_exhausted (findBlock k spaceAll parents u (as_Strategy (ps_Allocation (pl_Spec pool)))) d1 with
    | Err e => Err e
    | Ok (n, d2) =>
      match record_row pool parents (carve_row k n carve) d2 with Ok (_, d3) => Ok (n, d3) | Err e => Err e end
    end
  end.
Proof.
  unfold carveFromPool, record_row. unfold mbind, txn_bind.
  destruct (lockAndDecodeIPPool k d) as [[pool d0]|]; [|done].
  destruct (lift (parsePoolCIDR pool) d0) as [[ps d0']|]; [|done].
  destruct (materialiseReservations k pool ps d0') as [[pool1 d1]|]; [|done]. unfold mret, txn_ret.
  destruct (catch_exhausted _ d1) as [[n d2]|]; [|done]. cbn [carve_row ar_pool_key ar_cidr].
  destruct (consumptionAfterAllocate _ _ _ d2) as [[c d3]|]; [|done].
  destruct (insert_alloc _ d3) as [[? d4]|]; [|done]. destruct (writeConsumed _ _ d4) as [[? d5]|]; [|done].
  by destruct (persistPoolCapacity _ _ _ _ d5) as [[? d6]|].
Qed.

(** What a carve that succeeds does. *)
Lemma carveFromPool_run k u carve d n d' :
  inv d -> carveFromPool k u carve d = Ok (n, d') ->
  exists p res, pool_range d k p /\ inside p n /\ pones n = u
    /\ (forall r, r ∈ db_allocs d -> ar_pool_key r = k -> net_overlap (ar_cidr r) n = false)
    /\ db_allocs d' = db_allocs d ++ res ++ [carve_row k n carve] /\ Forall (reservation_of k) res
    /\ inv d' /\ same_ranges d d' /\ db_identity d' = db_identity d /\ same_dom d d'.
Proof.
  intros Hi H. rewrite carveFromPool_row in H. unfold mbind, txn_bind in H.
  destruct (lockAndDecodeIPPool k d) as [[pool d0]|] eqn:Hlock; [|done].
  apply lockAndDecode_ok in Hlock as [-> Hs]. unfold lift in H.
  destruct (parsePoolCIDR pool) as [ps|] eqn:Hp; [|done]. destruct (parsePoolCIDR_one _ _ Hp) as [p ->].
  destruct (materialiseReservations k pool [p] d) as [[pool1 d1]|] eqn:Hm; [|done].
  destruct (materialiseReservations_ok d k pool p pool1 d1 Hi Hs Hp Hm)
    as (Hi1 & Hs1 & Hsame & Hr1 & Hid1 & Hdom1 & res & Ha1 & Hres).
  rewrite <- (same_pool_parse _ _ Hsame) in Hp. pose proof (stored_range d1 k pool1 p Hs1 Hp) as Hr.
  pose proof (inv_range _ _ Hi1 k p Hr) as Hg.
  unfold mret, txn_ret, catch_exhausted, stmt in H.
  set (s := as_Strategy _) in H. destruct (findBlock_all_ok d1 k p u s Hi1 Hr) as [Hfb | Hfb]; rewrite Hfb in H; [|done].
  unfold choice in H. pose proof (FindFirst_one p (blocking k spaceAll d1) u s
                (inside_pool_ok p _ Hg (inv_blocking d1 k p spaceAll Hi1 Hr))) as Hone.
  destruct (FindFirstAvailableBlock [p] _ u s) as [b|e]; [|by destruct Hone as [-> _]]. cbn [wrap_err] in H.
  pose proof (free_block_inside p _ _ b (proj1 Hg) Hone) as Hb.
  pose proof (free_everywhere d1 k p u b Hi1 Hr Hone) as Hfree.
  pose proof (record_row_ok d1 pool1 p (carve_row k b carve) Hi1 Hs1 Hp Hb
    ltac:(intros r Hr' Hk Ho; cbn in Hk, Ho; by rewrite (Hfree r Hr' Hk) in Ho)) as Hrec.
  destruct (record_row pool1 [p] _ d1) as [[? d3]|]; [|done]. injection H as -> ->.
  destruct Hrec as (Hi' & Ha' & Hr' & Hid' & _ & Hdom').
  exists p, res. split; [by apply Hr1|]. split; [done|]. split; [apply Hone|].
  split; [intros r Hr0; apply Hfree; rewrite Ha1; apply elem_of_app; by left|].
  rewrite Ha', Ha1, <- app_assoc. split; [done|]. split; [done|]. split; [done|].
  split; [intros k' p'; rewrite (Hr' k' p'); apply Hr1|]. split; [by rewrite Hid'|].
  intros k'. rewrite (Hdom' k'). apply Hdom1.
Qed.

(** [C25] A carve that succeeds takes a block of the asked length inside the source
    pool's range that no row of the pool shares an address with, whatever its
    space, and records it as a carve the new pool itself holds. *)
Theorem carveFromPool_sound k u carve d n d' :
  inv d -> carveFromPool k u carve d = Ok (n, d') ->
  exists p res row, pool_range d k p /\ inside p n /\ pones n = u
    /\ (forall r, r ∈ db_allocs d -> ar_pool_key r = k -> net_overlap (ar_cidr r) n = false)
    /\ db_allocs d' = db_allocs d ++ res ++ [row] /\ Forall (reservation_of k) res
    /\ ar_pool_key row = k /\ ar_cidr row = n /\ ar_purpose row = PurposePoolCarve
    /\ ar_allocation_key row = pcv_AllocationKey carve /\ ar_claim_key row = Some (pcv_AllocationKey carve)
    /\ inv d' /\ same_ranges d d' /\ db_identity d' = db_identity d /\ same_dom d d'.
Proof.
  intros Hi H. destruct (carveFromPool_run _ _ _ _ _ _ Hi H) as (p & res & H1 & H2 & H3 & H4 & H5 & H6 & H7).
  exists p, res, (carve_row k n carve). do 11 (split; [done|]). exact H7.
Qed.

(** ** Provisioning *)

Lemma good_sub p n : good_range p -> inside p n -> good_range n.
Proof.
  intros (Hp & Hnat & Hnext & Hm) Hin. pose proof (inside_bounds p n Hin) as Hb. destruct Hin as (Hn & Eb & Hlo & Hhi).
  split; [done|]. unfold native_net, native_range, next_native in *. rewrite Eb. split.
  - intros E x Hx. apply (Hnat E). lia.
  - split; [lia|]. intros E. destruct (Z.eq_dec (hi n) (hi p)) as [-> | Hne]; [by apply Hm|].
    apply (Hnat E). lia.
Qed.

(** A new pool object: its range is added and nothing else changes. *)
Lemma insertObject_pool d key kind name pool n rv d' :
  inv d -> insertObject key kind name (DocPool pool) d = Ok (rv, d') ->
  parsePoolCIDR pool = Ok [n] -> good_range n -> counts_ok (reservationFrom (ps_Reservations (pl_Spec pool))) ->
  db_objects d !! key = None /\ inv d' /\ stored d' key pool
  /\ (forall k p, pool_range d' k p <-> pool_range d k p \/ (k = key /\ p = n))
  /\ db_allocs d' = db_allocs d /\ db_identity d' = db_identity d.
Proof.
  intros Hi H Hp Hg Hc. unfold insertObject, insert_object_row, check in H. unfold mbind, txn_bind, stmt in H.
  destruct (db_objects d !! key) as [o|] eqn:Hnone; [done|]. rewrite bool_decide_true in H by done. injection H as _ <-.
  set (row := mkObj _ name _ _).
  set (d1 := log_change _ _ _).
  assert (Ho : db_objects d1 = <[key := row]> (db_objects d)) by done.
  assert (Hrange : forall k p, pool_range d1 k p <-> pool_range d k p \/ (k = key /\ p = n)).
  { intros k p. unfold pool_range. rewrite Ho. destruct (decide (k = key)) as [-> | Hne].
    - rewrite lookup_insert_eq. split.
      + intros (r & q & [= <-] & [= <-] & Hq). right. split; [done|]. rewrite Hp in Hq. by injection Hq.
      + intros [(r & q & Hr & _) | [_ ->]]; [congruence|]. by exists row, pool.
    - rewrite lookup_insert_ne by done. split; [by left | by intros [? | [? _]]]. }
  split; [done|]. split; [|split; [exists row, pool; by rewrite Ho, lookup_insert_eq | by split_and!]].
  assert (Hrow : forall r, r ∈ db_allocs d -> ar_pool_key r <> key).
  { intros r Hr E. destruct (inv_rows _ _ Hi r ltac:(apply elem_of_app; by left)) as (p & (o & _ & Hk & _) & _).
    congruence. }
  assert (Hfk : forall k, (is_Some (db_consumed d !! k) \/ exists dg, is_Some (db_floors d !! (k, dg))) -> k <> key).
  { intros k Hk ->. apply (inv_fk _ _ Hi) in Hk as [o Hk]. congruence. }
  destruct Hi as [I1 I2 I3 I4 I5 I6 I7 I8 I9 I10 I11]. constructor; try done.
  - intros k p [Hr | [_ ->]]%Hrange; [by apply (I1 k) | done].
  - intros r Hr. destruct (I2 r Hr) as (p & Hpr & Hin). exists p. split; [|done]. apply Hrange. by left.
  - intros k p t [Hr | [-> _]]%Hrange Ht; [by apply I4|]. destruct (Hfk key); [left; by exists t | done].
  - intros k dg p f [Hr | [-> _]]%Hrange Hf; [by apply I6|].
    destruct (Hfk key); [right; exists dg; by exists f | done].
  - intros k Hk. rewrite Ho. destruct (decide (k = key)) as [-> | Hne]; [by rewrite lookup_insert_eq; eexists|].
    rewrite lookup_insert_ne by done. by apply I7.
  - by apply (offers_sync_update d key row (DocPool pool)).
  - intros k q (r & q0 & Hr & Hq & Hs & Ha). rewrite Ho in Hr. apply lookup_insert_Some in Hr as [[<- <-] | [_ Hr]].
    + injection Hq as <-. by rewrite Hs.
    + apply (I11 k q). by exists r, q0.
Qed.

(** The class's reservation counts are the 32-bit integers of the API type. *)
Definition level_counts (level : CascadeLevel) : Prop :=
  counts_ok (reservationFrom (cs_Reservations (rc_Spec (lv_Class level)))).

(** What provisioning a level from [source] adds to a ledger: a block [n] carved out
    of the source, a pool of that range, and the reserved positions of both. *)
Record provisioned (level : CascadeLevel) (source : string) (d d' : Db) (n : IPNet) : Prop := {
  pv_source : exists p, pool_range d source p /\ inside p n;
  pv_length : EffectivePrefixLength (rc_Class (lv_Class level)) None = Ok (pones n);
  pv_free : forall r, r ∈ db_allocs d -> ar_pool_key r = source -> net_overlap (ar_cidr r) n = false;
  pv_new : db_objects d !! lv_PoolKey level = None;
  pv_ranges : forall k q, pool_range d' k q <-> pool_range d k q \/ (k = lv_PoolKey level /\ q = n);
  pv_rows : exists res res', db_allocs d' = db_allocs d ++ res ++ [carve_row source n (level_carve level)] ++ res'
              /\ Forall (reservation_of source) res /\ Forall (reservation_of (lv_PoolKey level)) res';
  pv_identity : db_identity d' = db_identity d
}.

Lemma provisionPool_run level source d u d' :
  inv d -> level_counts level -> provisionPool level source d = Ok (u, d') ->
  inv d' /\ exists n, provisioned level source d d' n.
Proof.
  intros Hi Hc H. unfold provisionPool, lift at 1 in H. unfold mbind, txn_bind in H.
  destruct (EffectivePrefixLength _ None) as [len|] eqn:Hlen; [|done].
  destruct (carveFromPool source len (level_carve level) d) as [[n d1]|] eqn:Hcarve; [|done].
  destruct (carveFromPool_run _ _ _ _ _ _ Hi Hcarve)
    as (p & res & Hr & Hin & Hones & Hfree & Ha1 & Hres & Hi1 & Hr1 & Hid1 & Hdom1).
  set (pool := setPoolCapacityStatus (newProvisionedPool level (after_last_slash source "") len n) [n] 0) in H.
  destruct (insertObject _ _ _ (DocPool pool) d1) as [[rv d2]|] eqn:Hins; [|done].
  assert (Hparse : parsePoolCIDR pool = Ok [n]) by (apply parsePoolCIDR_carved; [apply Hin | done]).
  destruct (insertObject_pool d1 _ _ _ pool n rv d2 Hi1 Hins Hparse) as (Hnew & Hi2 & Hs2 & Hr2 & Ha2 & Hid2);
    [by eapply good_sub; [apply (inv_range _ _ Hi source p Hr)|] | done |].
  destruct (materialiseReservations (lv_PoolKey level) pool [n] d2) as [[pool' d3]|] eqn:Hm; [|done]. injection H as _ <-.
  destruct (materialiseReservations_ok _ _ _ _ _ _ Hi2 Hs2 Hparse Hm)
    as (Hi3 & _ & _ & Hr3 & Hid3 & _ & res' & Ha3 & Hres').
  split; [done|]. exists n. constructor.
  - by exists p.
  - by rewrite Hones.
  - done.
  - destruct (db_objects d !! lv_PoolKey level) as [o|] eqn:Ho; [|done].
    destruct (proj2 (Hdom1 (lv_PoolKey level))) as [o' Ho']; [by exists o | congruence].
  - intros k q. rewrite (Hr3 k q), (Hr2 k q), (Hr1 k q). done.
  - exists res, res'. by rewrite Ha3, Ha2, Ha1, <- !app_assoc.
  - by rewrite Hid3, Hid2, Hid1.
Qed.

(** ** One level *)

Definition level_identity (level : CascadeLevel) : string * string := (rc_Name (lv_Class level), lv_ScopeDigest level).

Lemma in_tx_ok {A} (m : Txn A) d a d' : in_tx m d = (Ok a, d') -> m d = Ok (a, d').
Proof. unfold in_tx. destruct (m d) as [[a1 d1]|]; [|done]. destruct (identity_ok d1); [|done]. by intros [= <- <-]. Qed.

Lemma in_tx_err {A} (m : Txn A) d e d' : in_tx m d = (Err e, d') -> d' = d.
Proof. unfold in_tx. destruct (m d) as [[a1 d1]|]; [destruct (identity_ok d1)|]; by intros [= <- <-]. Qed.

Lemma claimPoolIdentity_cases cn dg key d :
  match db_identity d !! (cn, dg) with
  | None => claimPoolIdentity cn dg key d
            = Ok ((key, true), set_identity d (<[(cn, dg) := key]> (db_identity d)))
  | Some k => claimPoolIdentity cn dg key d
              = if String.eqb k "" then Err ErrIdentityLeftNoRow else Ok ((k, false), d)
  end.
Proof.
  unfold claimPoolIdentity, insert_identity, lookupPoolIdentity, select_identity, read. unfold mbind, txn_bind.
  destruct (db_identity d !! (cn, dg)) as [k|] eqn:E; [|done]. rewrite E. cbn [mret txn_ret].
  change (default "" (Some k)) with k. by destruct (String.eqb k "").
Qed.

Lemma inv_identity d x : inv d -> inv (set_identity d x).
Proof. by intros [I1 I2 I3 I4 I5 I6 I7 I8 I9 I10 I11]. Qed.

(** The transaction that decides who provisions. *)
Lemma claim_level_run level source d key won d' :
  inv d -> level_counts level -> claim_level level source d = Ok ((key, won), d') ->
  inv d' /\ db_identity d' !! level_identity level = Some key
  /\ if won
     then key = lv_PoolKey level /\ db_identity d !! level_identity level = None
          /\ exists n, provisioned level source
                         (set_identity d (<[level_identity level := key]> (db_identity d))) d' n
     else d' = d.
Proof.
  intros Hi Hc. unfold claim_level, mbind, txn_bind.
  pose proof (claimPoolIdentity_cases (rc_Name (lv_Class level)) (lv_ScopeDigest level) (lv_PoolKey level) d) as Hcl.
  fold (level_identity level) in *. destruct (db_identity d !! level_identity level) as [k|] eqn:Hk; rewrite Hcl.
  - destruct (String.eqb k ""); [done|]. cbn. intros [= <- <- <-]. by split_and!.
  - cbn [snd]. set (d1 := set_identity d _). destruct (provisionPool level source d1) as [[[] d2]|] eqn:Hp; [|done].
    intros [= <- <- <-]. apply provisionPool_run in Hp as (Hi2 & n & Hpv); [|by apply inv_identity | done].
    split; [done|]. split; [rewrite (pv_identity _ _ _ _ _ Hpv); apply lookup_insert_eq|].
    split; [done|]. split; [done|]. by exists n.
Qed.

(** [C6] When a level's resolution answers with a pool, the identity table names that
    pool for the class and scope, and the ledger is consistent, whatever other
    transactions committed between the lookup and the claim.  Either a pool is
    created here: nobody had one, its block was free in the whole source, and it
    becomes the range of a new pool; or the pool is another's and nothing was
    written. *)
Theorem ensureLevel_sound others fault level source d key created d' :
  inv d -> inv (others d) -> level_counts level ->
  ensureLevel others fault level source d = (Ok (key, created), d') ->
  inv d' /\ db_identity d' !! level_identity level = Some key
  /\ if created
     then key = lv_PoolKey level /\ db_identity (others d) !! level_identity level = None
          /\ exists n, provisioned level source
                         (set_identity (others d) (<[level_identity level := key]> (db_identity (others d)))) d' n
     else d' = d \/ d' = others d.
Proof.
  intros Hi Hi' Hc. unfold ensureLevel. destruct fault; [done|]. fold (level_identity level).
  destruct (String.eqb_spec (default "" (db_identity d !! level_identity level)) "") as [_ | Hne]; cbn [negb].
  - intros H%in_tx_ok. destruct (claim_level_run _ _ _ _ _ _ Hi' Hc H) as (H1 & H2 & H3).
    split; [done|]. split; [done|]. destruct created; [done | by right].
  - intros [= <- <- <-]. destruct (db_identity d !! level_identity level) as [k|] eqn:Hk; [|done].
    split; [done|]. split; [done | by left].
Qed.

(** A pool's identity is decided once: when the table names a pool for the class
    and scope, before the level begins or by the time it tries to claim it, that
    pool is the answer, nothing is carved and no level fails. *)
Theorem ensureLevel_agrees others level source d key :
  key <> "" -> identity_ok (others d) = true ->
  db_identity d !! level_identity level = Some key
  \/ (db_identity d !! level_identity level = None /\ db_identity (others d) !! level_identity level = Some key) ->
  exists d', ensureLevel others None level source d = (Ok (key, false), d') /\ (d' = d \/ d' = others d).
Proof.
  intros Hne Hok Hk. unfold ensureLevel. fold (level_identity level). destruct Hk as [Hk | [Hn Hk]].
  - rewrite Hk. change (default "" (Some key)) with key. destruct (String.eqb_spec key ""); [done|].
    exists d. split; [done | by left].
  - rewrite Hn. exists (others d). split; [|by right]. cbn. unfold in_tx, claim_level, mbind, txn_bind.
    pose proof (claimPoolIdentity_cases (rc_Name (lv_Class level)) (lv_ScopeDigest level) (lv_PoolKey level) (others d))
      as Hcl.
    fold (level_identity level) in Hcl. rewrite Hk in Hcl. rewrite Hcl. destruct (String.eqb_spec key ""); [done|].
    cbn. by rewrite Hok.
Qed.

(** What a level that answers leaves, whoever made the pool. *)
Lemma ensureLevel_resolved others fault level source d key created d' :
  inv d -> inv (others d) -> level_counts level ->
  ensureLevel others fault level source d = (Ok (key, created), d') ->
  inv d' /\ db_identity d' !! level_identity level = Some key.
Proof.
  intros Hi Hi' Hc. unfold ensureLevel. destruct fault; [done|]. fold (level_identity level).
  destruct (String.eqb_spec (default "" (db_identity d !! level_identity level)) "") as [_ | Hne]; cbn [negb].
  - intros H%in_tx_ok. destruct (claim_level_run _ _ _ _ _ _ Hi' Hc H) as (H1 & H2 & _). by split.
  - intros [= <- <- <-]. by destruct (db_identity d !! level_identity level).
Qed.

(** A level that fails leaves nothing of its own behind. *)
Lemma ensureLevel_err others fault level source d e d' :
  ensureLevel others fault level source d = (Err e, d') -> d' = others d.
Proof. unfold ensureLevel. destruct fault; [by intros [= _ <-]|]. destruct (negb _); [done|]. apply in_tx_err. Qed.

(** ** Whole resolutions *)

Lemma ensureLevels_inv levels : forall others faults source d r d',
  (forall i d, inv d -> inv (others i d)) -> Forall level_counts levels -> inv d ->
  ensureLevels others faults levels source d = (r, d') ->
  inv d' /\ forall key level, r = Ok key -> last levels = Some level -> db_identity d' !! level_identity level = Some key.
Proof.
  induction levels as [|level levels IH]; intros others faults source d r d' Ho Hc Hi; cbn [ensureLevels].
  { intros [= <- <-]. by split. }
  apply Forall_cons in Hc as [Hl Hc].
  assert (Hi0 : inv (others O d)) by by apply Ho. assert (Hi1 : inv (others 1%nat (others O d))) by by apply Ho.
  destruct (ensureLevel (others 1%nat) (faults O) level source (others O d)) as [[[key created]|e] d1] eqn:He.
  - destruct (ensureLevel_resolved _ _ _ _ _ _ _ _ Hi0 Hi1 Hl He) as [Hd1 Hk].
    intros H. destruct (IH (fun i => others (S (S i))) (fun i => faults (S i)) key d1 r d' (fun i => Ho (S (S i))) Hc Hd1 H) as [H1 H2].
    split; [done|]. intros key' level' -> Hlast. destruct levels as [|l2 ls].
    + injection H as <- <-. cbn in Hlast. by injection Hlast as <-.
    + apply H2; [done|]. exact Hlast.
  - intros [= <- <-]. apply ensureLevel_err in He as ->. by split.
Qed.

(** ** Plans *)

Lemma PoolPerRoles_spec poolPer :
  (forall r, r ∈ (PoolPerRoles poolPer).1 <-> r ∈ poolPer /\ r <> ReservedRoleProject)
  /\ ((PoolPerRoles poolPer).2 = true <-> ReservedRoleProject ∈ poolPer).
Proof.
  induction poolPer as [|r rest [IH1 IH2]]; cbn [PoolPerRoles].
  { split; [|split]; intros; try done; [|by apply not_elem_of_nil in H].
    split; [by intros ?%not_elem_of_nil | by intros [?%not_elem_of_nil _]]. }
  destruct (PoolPerRoles rest) as [roles per]. cbn [fst snd] in *.
  destruct (String.eqb_spec r ReservedRoleProject) as [-> | Hne]; cbn [fst snd].
  - split; [|split; [left | done]]. intros r'. rewrite IH1, elem_of_cons. naive_solver.
  - split.
    + intros r'. rewrite !elem_of_cons, IH1. naive_solver.
    + rewrite IH2, elem_of_cons. split; [by right | intros [? | ?]; [congruence | done]].
Qed.

Lemma WithoutReserved_id roles : (forall r, r ∈ roles -> r <> ReservedRoleProject) -> WithoutReservedRoles roles = roles.
Proof.
  induction roles as [|r roles IH]; intros H; [done|]. cbn [WithoutReservedRoles].
  destruct (String.eqb_spec r ReservedRoleProject) as [E|]; [by destruct (H r ltac:(left))|]. cbn.
  f_equal. apply IH. intros r' Hr'. apply H. by right.
Qed.

(** A level of a plan: the class's own owner, the consumer when the class names the
    reserved role, and the claim's scope on the roles it names. *)
Lemma plan_level_spec c s class l :
  plan_level c s class = Ok l ->
  let poolPer := cs_PoolPer (rc_Spec class) in
  lv_Class l = class /\ lv_ScopeDigest l = PoolDigest (lv_Tenancy l) (lv_Scope l)
  /\ Owner (lv_Tenancy l) = rc_Project class
  /\ Consumer (lv_Tenancy l) = (if decide (ReservedRoleProject ∈ poolPer) then id_Name c else "")
  /\ (forall role, lv_Scope l !! role
        = if decide (role ∈ poolPer /\ role <> ReservedRoleProject) then s !! role else None).
Proof.
  unfold plan_level. destruct (PoolPerRoles_spec (cs_PoolPer (rc_Spec class))) as [Hr Hp].
  destruct (PoolPerRoles _) as [roles per]. cbn [fst snd] in *.
  destruct (ProjectFor s roles "poolPer") as [out|] eqn:Hpr; [|done]. cbn [wrap_err]. intros [= <-]. cbn.
  split; [done|]. split; [done|]. split; [done|]. split.
  - destruct per, (decide _) as [Hi|Hi]; try done; [by destruct Hi; apply Hp | by apply Hp in Hi].
  - intros role. revert Hpr. unfold ProjectFor. rewrite WithoutReserved_id by (intros r ?; by apply Hr).
    pose proof (Project_run s roles) as H. destruct (Project s roles) as [o|[e| | |]]; try done.
    intros [= ->]. destruct H as [_ ->].
    destruct (decide (role ∈ roles)) as [Hi|Hi], (decide (role ∈ _ /\ _)) as [Hj|Hj]; try done;
      [by destruct Hj; apply Hr | by destruct Hi; apply Hr].
Qed.

(** [C35] Two claims on one class reach one pool exactly when the class says they may:
    the references of the roles it names are the same, and the consuming projects
    are the same if it names the reserved project role; a SHA-256 collision apart.
    So a class that carves per consumer never gives two tenants one pool, and one
    that does not never splits them. *)
Theorem plan_level_shares c1 c2 s1 s2 class l1 l2 :
  plan_level c1 s1 class = Ok l1 -> plan_level c2 s2 class = Ok l2 ->
  let poolPer := cs_PoolPer (rc_Spec class) in
  level_identity l1 = level_identity l2
  <-> ((ReservedRoleProject ∈ poolPer -> id_Name c1 = id_Name c2)
       /\ forall role, role ∈ poolPer -> role <> ReservedRoleProject -> s1 !! role = s2 !! role)
      \/ collide (CanonicalPool (lv_Tenancy l1) (lv_Scope l1)) (CanonicalPool (lv_Tenancy l2) (lv_Scope l2)).
Proof.
  intros (C1 & D1 & O1 & N1 & S1)%plan_level_spec (C2 & D2 & O2 & N2 & S2)%plan_level_spec poolPer. subst poolPer. set (poolPer := cs_PoolPer (rc_Spec class)) in *.
  unfold level_identity. rewrite C1, C2, D1, D2. unfold PoolDigest.
  assert (Hsame : CanonicalPool (lv_Tenancy l1) (lv_Scope l1) = CanonicalPool (lv_Tenancy l2) (lv_Scope l2)
    <-> ((ReservedRoleProject ∈ poolPer -> id_Name c1 = id_Name c2)
       /\ forall role, role ∈ poolPer -> role <> ReservedRoleProject -> s1 !! role = s2 !! role)).
  { split.
    - intros [Ht Hs]%CanonicalPool_inj. split.
      + intros Hi. rewrite decide_True in N1, N2 by done. congruence.
      + intros role Hi Hne. specialize (S1 role). specialize (S2 role). rewrite Hs in S1.
        rewrite decide_True in S1, S2 by done. congruence.
    - intros [Hc Hs]. assert (lv_Tenancy l1 = lv_Tenancy l2) as ->.
      { destruct (lv_Tenancy l1), (lv_Tenancy l2); cbn in *. subst. case_decide; [by rewrite Hc | done]. }
      f_equal. apply map_eq. intros role. rewrite S1, S2.
      destruct (decide (role ∈ poolPer /\ role <> ReservedRoleProject)) as [[Hi Hne] | _]; [by apply Hs | done]. }
  rewrite <- Hsame, <- digest_eq. split; [by intros [= H] | by intros ->].
Qed.

Lemma ancestry_leaf d a b c l :
  cs_IPFamily (rc_Spec a) = cs_IPFamily (rc_Spec b) -> ancestry d a c l -> ancestry d b c l.
Proof. intros E H. induction H; [by constructor|]. eapply anc_step; try done. congruence. Qed.

(** The levels a claim for an address of a child class needs are the levels a
    claim for its parent's whole range needs.  So the range bound for a class and
    scope is the very pool later claims of its child classes draw from. *)
Theorem range_plan_adopted user child parent anc s d :
  LoadAncestry child d = Ok (parent :: anc, d) ->
  PlanCascade user child s d = PlanScopeRangeCascade user parent s d.
Proof.
  intros H. unfold PlanCascade, PlanScopeRangeCascade, mbind, txn_bind. rewrite H.
  apply LoadAncestry_iff in H as (Ha & Hl & Hnd). inversion Ha as [|? ? ? _ _ Hf Hrest]; subst.
  assert (LoadAncestry parent d = Ok (anc, d)) as ->; [|done]. apply LoadAncestry_iff.
  split; [by eapply ancestry_leaf|]. cbn in Hl, Hnd. split; [lia|].
  cbn [map]. by apply NoDup_cons in Hnd as [_ Hnd].
Qed.

(** The levels a plan counts on, read where the resolution reads them. *)
Definition plan_counts (others : nat -> Db -> Db) (faults : nat -> option IpamErr) (plan : Txn (list CascadeLevel))
    (d : Db) : Prop :=
  forall levels, reading (faults O) plan (others O d) = Ok levels -> Forall level_counts levels.

(** The resolution, failed or not. *)
Lemma resolve_levels_run others faults plan leaf s d r d' :
  (forall i d, inv d -> inv (others i d)) -> plan_counts others faults plan d ->
  inv d -> resolve_levels others faults plan leaf s d = (r, d') ->
  inv d' /\ forall levels level key, reading (faults O) plan (others O d) = Ok levels -> last levels = Some level ->
              r = Ok key -> db_identity d' !! level_identity level = Some key.
Proof.
  intros Ho Hc Hi. unfold resolve_levels. cbv zeta.
  destruct (reading (faults O) plan (others O d)) as [[|level rest]|] eqn:Hp.
  - intros [= <- <-]. split; [by apply Ho, Ho|]. by intros levels level key [= <-].
  - assert (Hi2 : inv (others 1%nat (others O d))) by by apply Ho, Ho.
    destruct (reading _ (DiscoverPool _ s) _) as [source|].
    + intros H. destruct (ensureLevels_inv _ (fun i => others (S (S i))) _ source _ r d' (fun i => Ho (S (S i)))
                            (Hc _ Hp) Hi2 H) as [H1 H2].
      split; [done|]. intros levels l key [= <-] Hl ->. by apply H2.
    + intros [= <- <-]. by split.
  - intros [= <- <-]. split; [by apply Ho | done].
Qed.

(** A row other transactions leave is still there when the resolution ends. *)
Lemma ensureLevel_keep others fault level source d x d' r :
  inv (others d) -> level_counts level -> r ∈ db_allocs d -> r ∈ db_allocs (others d) ->
  ensureLevel others fault level source d = (x, d') -> r ∈ db_allocs d'.
Proof.
  intros Hi Hc Hr Hr'. unfold ensureLevel. destruct fault; [by intros [= _ <-]|]. destruct (negb _); [by intros [= _ <-]|].
  destruct x as [[key created]|e]; [|by intros ->%in_tx_err].
  intros H%in_tx_ok. destruct (claim_level_run _ _ _ _ _ _ Hi Hc H) as (_ & _ & H3). destruct created; [|by subst d'].
  destruct H3 as (_ & _ & n & Hpv). destruct (pv_rows _ _ _ _ _ Hpv) as (res & res' & -> & _).
  apply elem_of_app. by left.
Qed.

Lemma ensureLevel_inv others fault level source d x d' :
  inv d -> inv (others d) -> level_counts level -> ensureLevel others fault level source d = (x, d') -> inv d'.
Proof.
  intros Hi Hi' Hc. destruct x as [[key created]|e]; [|by intros ->%ensureLevel_err].
  intros H. by destruct (ensureLevel_resolved _ _ _ _ _ _ _ _ Hi Hi' Hc H).
Qed.

Lemma ensureLevels_keep r levels : forall others faults source d x d',
  (forall i d, inv d -> inv (others i d)) -> (forall i d, r ∈ db_allocs d -> r ∈ db_allocs (others i d)) ->
  Forall level_counts levels -> inv d -> r ∈ db_allocs d ->
  ensureLevels others faults levels source d = (x, d') -> r ∈ db_allocs d'.
Proof.
  induction levels as [|level levels IH]; intros others faults source d x d' Ho Hk Hc Hi Hr; cbn [ensureLevels].
  { by intros [= _ <-]. }
  apply Forall_cons in Hc as [Hl Hc].
  destruct (ensureLevel (others 1%nat) (faults O) level source (others O d)) as [res d1] eqn:He.
  assert (Hr1 : r ∈ db_allocs d1) by (eapply ensureLevel_keep; [| exact Hl | | | exact He]; auto).
  assert (Hi1 : inv d1) by (eapply ensureLevel_inv; [| | exact Hl | exact He]; auto).
  destruct res as [[key created]|e]; [|by intros [= _ <-]].
  intros H. eapply (IH (fun i => others (S (S i)))); [| | exact Hc | exact Hi1 | exact Hr1 | exact H]; auto.
Qed.

Lemma resolve_levels_keep others faults plan leaf s d x d' r :
  (forall i d, inv d -> inv (others i d)) -> (forall i d, r ∈ db_allocs d -> r ∈ db_allocs (others i d)) ->
  plan_counts others faults plan d ->
  inv d -> r ∈ db_allocs d -> resolve_levels others faults plan leaf s d = (x, d') -> r ∈ db_allocs d'.
Proof.
  intros Ho Hk Hc Hi Hr. unfold resolve_levels. cbv zeta.
  destruct (reading (faults O) plan (others O d)) as [[|level rest]|] eqn:Hp; [intros [= _ <-]; auto | |intros [= _ <-]; auto].
  destruct (reading _ (DiscoverPool _ s) _) as [source|]; [|intros [= _ <-]; auto].
  intros H. eapply (ensureLevels_keep r (level :: rest) (fun i => others (S (S i)))); [| | exact (Hc _ Hp) | | | exact H]; auto.
Qed.

(** Resolving a claim's pool, or a range, keeps the ledger consistent whether it
    answers or fails at any level, in any of its transactions, provided the
    transactions that commit in between do; and the answer is the pool the identity
    table names for the last level. *)
Theorem resolve_levels_consistent others faults plan leaf s d r d' :
  (forall i d, inv d -> inv (others i d)) -> plan_counts others faults plan d ->
  inv d -> resolve_levels others faults plan leaf s d = (r, d') ->
  inv d' /\ forall levels level key, reading (faults O) plan (others O d) = Ok levels -> last levels = Some level ->
              r = Ok key -> db_identity d' !! level_identity level = Some key.
Proof. apply resolve_levels_run. Qed.

(** ** Witnesses *)

(** Project [alpha]: a pool offering class [net], which carves a /31 per network and
    consumer, and a class [addr] below it. *)
Definition cx_class (name parent : string) (len : Z) : IPClass :=
  mkClass (mkMeta name ∅ ∅)
    (mkClassSpec None IPv4 "" parent ["network"; "project"] ["network"] None len None (mkRouting "" "") "" "" None "" ∅)
    "Ready".

Definition cx_pool : IPPool :=
  mkPool (mkMeta "p" ∅ ∅)
    (mkPoolSpec "10.0.0.0/29" IPv4 None 0 ["net"] None ∅ (Some (mkReservationSpec 1 1 32)) None
       (mkAllocationSpec 0 0 "") "")
    (mkPoolStatus PoolReady "" IPv4 "" (mkCapacity "8" "0" "8") f_zero).

Definition cx_pool_key : string := ResourceKey (named "alpha") "ippools" "p".

Definition cx_db : Db :=
  mkDb (<[cx_pool_key := mkObj "IPPool" "p" (DocPool cx_pool) 3]>
        (<[classStorageKey "alpha" "net" := mkObj "IPClass" "net" (DocClass (cx_class "net" "" 31)) 2]>
         {[classStorageKey "alpha" "addr" := mkObj "IPClass" "addr" (DocClass (cx_class "addr" "net" 32)) 1]}))
    [] 3 [] {[(cx_pool_key, "net")]} ∅ ∅ ∅.

Lemma cx_only_pool k r q : db_objects cx_db !! k = Some r -> ob_data r = DocPool q -> k = cx_pool_key /\ q = cx_pool.
Proof.
  unfold cx_db. cbn [db_objects]. intros Hr. apply lookup_insert_Some in Hr as [[<- <-] | [_ Hr]].
  - cbn. by intros [= <-].
  - apply lookup_insert_Some in Hr as [[_ <-] | [_ Hr]]; [done|].
    by apply lookup_singleton_Some in Hr as [_ <-].
Qed.

Lemma cx_inv : inv cx_db.
Proof.
  apply inv_fresh; try done.
  - intros k p (r & q & Hr & Hq & Hp). destruct (cx_only_pool k r q Hr Hq) as [_ ->]. vm_compute in Hp. injection Hp as <-.
    split; [apply wf_netb_spec; vm_compute; reflexivity|].
    split; [apply native_netb_spec; vm_compute; reflexivity | done].
  - intros k q (r & q0 & Hr & Hq & [Hs _]). destruct (cx_only_pool k r q0 Hr Hq) as [_ E]. rewrite E in Hs. rewrite Hs.
    split; vm_compute; reflexivity.
  - intros k r q cn Hr Hq. destruct (cx_only_pool k r q Hr Hq) as [-> ->]. unfold cx_db. cbn [db_offers cx_pool pl_Spec ps_ClassNames].
    rewrite elem_of_singleton, list_elem_of_singleton. naive_solver.
Qed.

Definition cx_user (name : string) : option Extras :=
  Some (<[ExtraParentName := [name]]> (<[ExtraParentType := ["Project"]]>
         {[ExtraParentAPIGroup := ["resourcemanager.miloapis.com"]]})).

Definition cx_scope (net : string) : scope_map := {["network" := mkScopeRef "net.example.com" "Network" net]}.

Definition cx_net : ResolvedClass := mkResolved (cx_class "net" "" 31) "alpha" "net".
Definition cx_addr : ResolvedClass := mkResolved (cx_class "addr" "net" 32) "alpha" "addr".

Definition cx_level (consumer net : string) : CascadeLevel :=
  match plan_level (named consumer) (cx_scope net) cx_net with
  | Ok l => l
  | Err _ => mkLevel cx_net (mkTenancy "" "") ∅ "" "" ""
  end.

Lemma cx_level_counts consumer net : level_counts (cx_level consumer net).
Proof. unfold level_counts, cx_level. destruct (plan_level _ _ _) as [l|] eqn:E.
  - apply plan_level_spec in E as (-> & _). split; done.
  - split; done.
Qed.

Lemma carveFromPool_sound_witness :
  let carve := level_carve (cx_level "beta" "n1") in
  let d' := (run (mkIPNet [] []) (carveFromPool cx_pool_key 31 carve) cx_db).2 in
  let n := mk_net (10 * 2 ^ 24 + 2) 31 32 in
  exists p res row, pool_range cx_db cx_pool_key p /\ inside p n /\ pones n = 31
    /\ (forall r, r ∈ db_allocs cx_db -> ar_pool_key r = cx_pool_key -> net_overlap (ar_cidr r) n = false)
    /\ db_allocs d' = db_allocs cx_db ++ res ++ [row] /\ Forall (reservation_of cx_pool_key) res
    /\ ar_pool_key row = cx_pool_key /\ ar_cidr row = n /\ ar_purpose row = PurposePoolCarve
    /\ ar_allocation_key row = pcv_AllocationKey carve /\ ar_claim_key row = Some (pcv_AllocationKey carve)
    /\ inv d' /\ same_ranges cx_db d' /\ db_identity d' = db_identity cx_db /\ same_dom cx_db d'.
Proof.
  intros carve d' n. apply carveFromPool_sound; [apply cx_inv|]. vm_compute. reflexivity.
Defined.

(** Nobody has the pool: it is provisioned. *)
Lemma ensureLevel_sound_witness :
  let level := cx_level "beta" "n1" in
  let d' := (ensureLevel (fun d => d) None level cx_pool_key cx_db).2 in
  inv d' /\ db_identity d' !! level_identity level = Some (lv_PoolKey level)
  /\ lv_PoolKey level = lv_PoolKey level /\ db_identity cx_db !! level_identity level = None
  /\ exists n, provisioned level cx_pool_key
       (set_identity cx_db (<[level_identity level := lv_PoolKey level]> (db_identity cx_db))) d' n.
Proof.
  intros level d'. apply (ensureLevel_sound (fun d => d) None level cx_pool_key cx_db (lv_PoolKey level) true);
    [apply cx_inv | apply cx_inv | apply cx_level_counts | vm_compute; reflexivity].
Defined.

(** Another claim provisions the pool between the lookup and the claim. *)
Lemma ensureLevel_agrees_witness :
  let level := cx_level "beta" "n1" in
  let others := fun d => (ensureLevel (fun d => d) None level cx_pool_key d).2 in
  exists d', ensureLevel others None level cx_pool_key cx_db = (Ok (lv_PoolKey level, false), d')
             /\ (d' = cx_db \/ d' = others cx_db).
Proof.
  intros level others. apply ensureLevel_agrees.
  - vm_compute. discriminate.
  - vm_compute. reflexivity.
  - right. split; vm_compute; reflexivity.
Defined.

(** Two consumers of a class that names the project role. *)
Lemma plan_level_shares_witness :
  let poolPer := cs_PoolPer (rc_Spec cx_net) in
  let l1 := cx_level "beta" "n1" in let l2 := cx_level "gamma" "n1" in
  level_identity l1 = level_identity l2
  <-> ((ReservedRoleProject ∈ poolPer -> "beta" = "gamma")
       /\ forall role, role ∈ poolPer -> role <> ReservedRoleProject -> cx_scope "n1" !! role = cx_scope "n1" !! role)
      \/ collide (CanonicalPool (lv_Tenancy l1) (lv_Scope l1)) (CanonicalPool (lv_Tenancy l2) (lv_Scope l2)).
Proof.
  intros poolPer l1 l2. apply (plan_level_shares (named "beta") (named "gamma") (cx_scope "n1") (cx_scope "n1") cx_net);
    vm_compute; reflexivity.
Defined.

Lemma range_plan_adopted_witness :
  PlanCascade (cx_user "beta") cx_addr (cx_scope "n1") cx_db
  = PlanScopeRangeCascade (cx_user "beta") cx_net (cx_scope "n1") cx_db.
Proof. apply (range_plan_adopted _ cx_addr cx_net []). vm_compute. reflexivity. Defined.

Definition cx_resolved : result IpamErr string * Db :=
  ResolvePool (fun _ d => d) (fun _ => None) (cx_user "beta") cx_addr (cx_scope "n1") cx_db.

Lemma cx_plan : rolled_back (PlanCascade (cx_user "beta") cx_addr (cx_scope "n1")) cx_db = Ok [cx_level "beta" "n1"].
Proof. vm_compute. reflexivity. Qed.

Lemma resolve_levels_consistent_witness :
  inv cx_resolved.2
  /\ forall levels level key, reading None (PlanCascade (cx_user "beta") cx_addr (cx_scope "n1")) cx_db = Ok levels ->
       last levels = Some level -> cx_resolved.1 = Ok key -> db_identity cx_resolved.2 !! level_identity level = Some key.
Proof.
  apply (resolve_levels_consistent (fun _ d => d) (fun _ => None) (PlanCascade (cx_user "beta") cx_addr (cx_scope "n1")) cx_addr
           (cx_scope "n1") cx_db); [done | | apply cx_inv | apply surjective_pairing].
  intros levels. cbn [reading]. rewrite cx_plan. intros [= <-]. constructor; [apply cx_level_counts | constructor].
Defined.
