(* ===== verification/Range.v ===== *)
(** * Range: what binding and releasing a range guarantee

    A range, the pool the cascade provisioned for a class and scope, is held
    through its carve row: bound to one claim at a time, and released only when
    nothing but derived pools and their reservations is left inside it. *)

From Stdlib Require Import Ascii String.
From S2P Require Import Prelude Text Float Net Cidr Reservation Allocate Consumption Scan Tenant Scope.
From S2P Require Import NetText Types Db PoolObject Class Discover BoundedSearch Prefix PoolInvariant.
From S2P Require Import PoolWrites Cascade Provision.
Open Scope string_scope.
Open Scope list_scope.
Open Scope Z_scope.

(** ** Binding *)

Lemma key_inj {A B} (f : A -> B) l x y : NoDup (map f l) -> x ∈ l -> y ∈ l -> f x = f y -> x = y.
Proof.
  intros Hnd [i Hi]%list_elem_of_lookup [j Hj]%list_elem_of_lookup E.
  assert (i = j) as ->; [|congruence]. eapply NoDup_lookup; [exact Hnd | |].
  - rewrite list_lookup_fmap, Hi. done.
  - rewrite list_lookup_fmap, Hj. cbn. by rewrite E.
Qed.

Lemma claim_inj rows x y k :
  NoDup (omap ar_claim_key rows) -> x ∈ rows -> y ∈ rows -> ar_claim_key x = Some k -> ar_claim_key y = Some k -> x = y.
Proof.
  induction rows as [|r rows IH]; [by intros _ ?%not_elem_of_nil|]. intros Hnd Hx Hy Kx Ky. cbn in Hnd.
  assert (Hmem : forall z, z ∈ rows -> ar_claim_key z = Some k -> ar_claim_key r = Some k -> False).
  { intros z Hz Kz Kr. rewrite Kr in Hnd. apply NoDup_cons in Hnd as [Hn _]. apply Hn. apply list_elem_of_omap. by exists z. }
  assert (Hnd' : NoDup (omap ar_claim_key rows)).
  { destruct (ar_claim_key r); [by apply NoDup_cons in Hnd as [_ ?] | done]. }
  apply elem_of_cons in Hx as [-> | Hx], Hy as [-> | Hy]; [done | | | by apply IH]; exfalso; by eapply Hmem.
Qed.

Definition carve_of (k : string) (r : AllocRow) : bool :=
  String.eqb (ar_allocation_key r) k && bool_decide (ar_purpose r = PurposePoolCarve).

Lemma unheld_iff k r :
  unheld_carve k r = true
  <-> ar_allocation_key r = k /\ ar_purpose r = PurposePoolCarve /\ ar_claim_key r = Some k.
Proof.
  unfold unheld_carve. rewrite !andb_true_iff, String.eqb_eq, !bool_decide_eq_true. naive_solver.
Qed.

(** At most one row is bound: the new claim keys stay distinct. *)
Lemma rebind_claim_keys cond ck rows :
  NoDup (omap ar_claim_key rows) ->
  (length (List.filter cond rows) <= 1)%nat ->
  (forall r, r ∈ rows -> cond r = false -> ar_claim_key r <> Some ck) ->
  NoDup (omap ar_claim_key (map (fun r => if cond r then with_claim (Some ck) r else r) rows)).
Proof.
  induction rows as [|r rows IH]; [done|]. cbn. intros Hnd Hlen Hne.
  assert (Hnd' : NoDup (omap ar_claim_key rows)).
  { destruct (ar_claim_key r); [by apply NoDup_cons in Hnd as [_ ?] | done]. }
  assert (Hne' : forall r', r' ∈ rows -> cond r' = false -> ar_claim_key r' <> Some ck) by (intros; apply Hne; [by right | done]).
  destruct (cond r) eqn:Hc; cbn.
  - cbn in Hlen. assert (Hnone : forall r', r' ∈ rows -> cond r' = false).
    { intros r' Hr'. apply not_true_iff_false. intros Hc'.
      assert (r' ∈ List.filter cond rows) as Hin by by apply elem_of_filter_b.
      destruct (List.filter cond rows); [by apply not_elem_of_nil in Hin | cbn in Hlen; lia]. }
    assert (map (fun r => if cond r then with_claim (Some ck) r else r) rows = rows) as ->.
    { rewrite <- map_id. apply map_ext_in. intros r' Hr'%list_elem_of_In. by rewrite Hnone. }
    constructor; [|done]. intros (r' & Hr' & Hk)%list_elem_of_omap. by apply (Hne' r' Hr' (Hnone r' Hr')).
  - destruct (ar_claim_key r) as [k|] eqn:Hk; [|by apply IH]. apply NoDup_cons in Hnd as [Hn _].
    constructor; [|by apply IH]. intros (r' & Hr' & Hk')%list_elem_of_omap.
    apply list_elem_of_fmap in Hr' as (q & -> & Hq). destruct (cond q).
    + cbn in Hk'. injection Hk' as ->. by apply (Hne r ltac:(left) Hc).
    + apply Hn. apply list_elem_of_omap. by exists q.
Qed.

Lemma find_none_iff {A} (f : A -> bool) l : List.find f l = None <-> forall x, x ∈ l -> f x = false.
Proof.
  split.
  - intros H x Hx%list_elem_of_In. by apply (List.find_none _ _ H).
  - intros H. destruct (List.find f l) as [x|] eqn:E; [|done]. apply List.find_some in E as [Hx Hf].
    apply list_elem_of_In in Hx. by rewrite H in Hf.
Qed.

Lemma find_unique {A} (f : A -> bool) l x :
  x ∈ l -> f x = true -> (forall y, y ∈ l -> f y = true -> y = x) -> List.find f l = Some x.
Proof.
  intros Hx Hf Hu. destruct (List.find f l) as [y|] eqn:E.
  - apply List.find_some in E as [Hy Hfy]. apply list_elem_of_In in Hy. f_equal. by apply Hu.
  - pose proof (proj1 (find_none_iff f l) E x Hx). congruence.
Qed.

(** Binding a range nobody holds. *)
Lemma bind_unheld k ck d r :
  inv d -> r ∈ db_allocs d -> unheld_carve k r = true ->
  let f := fun r => if unheld_carve k r then with_claim (Some ck) r else r in
  (forall r', r' ∈ db_allocs d -> unheld_carve k r' = true -> r' = r)
  /\ BindScopeRange k ck d
     = (if existsb (fun r' => bool_decide (ar_claim_key r' = Some ck))
             (List.filter (fun r' => negb (unheld_carve k r')) (db_allocs d))
        then Err (ErrConstraint AllocClaimKey)
        else Ok (ar_cidr r, set_allocs d (map f (db_allocs d)))).
Proof.
  intros Hi Hr Hu f.
  assert (Huniq : forall r', r' ∈ db_allocs d -> unheld_carve k r' = true -> r' = r).
  { intros r' Hr' Hu'. apply unheld_iff in Hu' as (H1 & _), Hu as (H2 & _).
    apply (key_inj ar_allocation_key (db_allocs d)); [apply (inv_alloc_keys _ _ Hi) | done | done | congruence]. }
  split; [done|].
  assert (Hfil : List.filter (unheld_carve k) (db_allocs d) = [r]).
  { assert (Hshort : (length (List.filter (unheld_carve k) (db_allocs d)) <= 1)%nat).
    { transitivity (length (List.filter (fun r' => String.eqb (ar_allocation_key r') k) (db_allocs d))).
      - clear. induction (db_allocs d) as [|x l IH]; [done|]. cbn. unfold unheld_carve at 1.
        destruct (String.eqb (ar_allocation_key x) k); cbn; [destruct (_ && _); cbn; lia | done].
      - apply filter_key_short, (inv_alloc_keys _ _ Hi). }
    assert (r ∈ List.filter (unheld_carve k) (db_allocs d)) as Hin by by apply elem_of_filter_b.
    destruct (List.filter _ _) as [|x [|y l]]; [by apply not_elem_of_nil in Hin | | cbn in Hshort; lia].
    by apply list_elem_of_singleton in Hin as ->. }
  unfold BindScopeRange, set_claim_where. unfold mbind, txn_bind. rewrite Hfil. cbn [length].
  replace ((1 <? Z.of_nat 1) || (1 <=? Z.of_nat 1) && existsb (fun r0 => bool_decide (ar_claim_key r0 = Some ck))
            (List.filter (fun r0 => negb (unheld_carve k r0)) (db_allocs d)))
    with (existsb (fun r' => bool_decide (ar_claim_key r' = Some ck))
             (List.filter (fun r' => negb (unheld_carve k r')) (db_allocs d))) by done.
  by destruct (existsb _ _).
Qed.

Lemma bind_held k ck d :
  (forall r, r ∈ db_allocs d -> unheld_carve k r = false) ->
  BindScopeRange k ck d = Err (match List.find (carve_of k) (db_allocs d) with
                               | None => ErrScopeRangeCarveMissing | Some _ => ErrScopeRangeHeld end).
Proof.
  intros H. assert (Hfil : List.filter (unheld_carve k) (db_allocs d) = []).
  { destruct (List.filter _ _) as [|x l] eqn:E; [done|]. exfalso. assert (x ∈ x :: l) as Hx by left.
    rewrite <- E in Hx. apply elem_of_filter_b in Hx as [Hx Hu]. by rewrite H in Hu. }
  assert (Hmap : map (fun r => if unheld_carve k r then with_claim (Some ck) r else r) (db_allocs d) = db_allocs d).
  { rewrite <- map_id. apply map_ext_in. intros r Hr%list_elem_of_In. by rewrite H. }
  unfold BindScopeRange, set_claim_where. unfold mbind, txn_bind. rewrite Hfil, Hmap. cbn.
  change ((1 <? Z.of_nat 0) || (1 <=? Z.of_nat 0) && existsb _ _) with false. cbn.
  change (fun r => String.eqb (ar_allocation_key r) k && bool_decide (ar_purpose r = PurposePoolCarve)) with (carve_of k).
  by destruct (List.find (carve_of k) (db_allocs d)).
Qed.

Lemma existsb_false {A} (f : A -> bool) l : existsb f l = false <-> forall x, x ∈ l -> f x = false.
Proof.
  rewrite <- not_true_iff_false, existsb_exists. setoid_rewrite <- list_elem_of_In. split.
  - intros H x Hx. apply not_true_iff_false. intros Hf. apply H. eauto.
  - intros H (x & Hx & Hf). by rewrite H in Hf.
Qed.

(** A successful bind, in the terms of the rows. *)
Lemma bind_took k ck d n d' :
  inv d -> BindScopeRange k ck d = Ok (n, d') ->
  exists r, r ∈ db_allocs d /\ unheld_carve k r = true /\ n = ar_cidr r
    /\ db_allocs d' = map (fun r' => if unheld_carve k r' then with_claim (Some ck) r' else r') (db_allocs d)
    /\ inv d' /\ with_claim (Some ck) r ∈ db_allocs d'
    /\ (forall r', r' ∈ db_allocs d -> unheld_carve k r' = true -> r' = r).
Proof.
  intros Hi H. destruct (existsb (unheld_carve k) (db_allocs d)) eqn:He.
  2: { rewrite bind_held in H; [done | by apply existsb_false]. }
  apply existsb_exists in He as (r & Hr%list_elem_of_In & Hu).
  destruct (bind_unheld k ck d r Hi Hr Hu) as [Huniq Heq]. rewrite Heq in H.
  destruct (existsb _ _) eqn:Hclash; [done|]. injection H as <- <-.
  exists r. split; [done|]. split; [done|]. split; [done|]. split; [done|]. split; [|split; [|done]].
  - apply inv_relabel; [apply with_claim_relabels | done|].
    apply rebind_claim_keys; [apply (inv_claim_keys _ _ Hi) | |].
    + destruct (List.filter (unheld_carve k) (db_allocs d)) as [|x [|y l]] eqn:E; cbn; try lia. exfalso.
      assert (Hx : x ∈ List.filter (unheld_carve k) (db_allocs d)) by (rewrite E; left).
      assert (Hnd : NoDup (map ar_allocation_key (List.filter (unheld_carve k) (db_allocs d))))
        by (apply map_filter_NoDup, (inv_alloc_keys _ _ Hi)).
      assert (Hy : y ∈ List.filter (unheld_carve k) (db_allocs d)) by (rewrite E; right; left).
      apply elem_of_filter_b in Hx as [Hx Hux], Hy as [Hy Huy].
      rewrite E, (Huniq x Hx Hux), (Huniq y Hy Huy) in Hnd. cbn in Hnd. apply NoDup_cons in Hnd as [Hn _]. apply Hn. left.
    + intros r' Hr' Hc Hk. rewrite existsb_false in Hclash.
      specialize (Hclash r'). rewrite bool_decide_true in Hclash by done.
      enough (true = false) by done. apply Hclash. apply elem_of_filter_b. by rewrite Hc.
  - cbn. apply list_elem_of_fmap. exists r. by rewrite Hu.
Qed.

(** A bind that succeeds, and what binding answers afterwards. *)
Lemma bind_exclusive k ck d n d' :
  inv d -> BindScopeRange k ck d = Ok (n, d') ->
  (exists r, r ∈ db_allocs d /\ unheld_carve k r = true /\ n = ar_cidr r)
  /\ inv d' /\ FindScopeRange ck d' = Ok (k, d')
  /\ (ck <> k -> forall ck', BindScopeRange k ck' d' = Err ErrScopeRangeHeld).
Proof.
  intros Hi H. destruct (bind_took k ck d n d' Hi H) as (r & Hr & Hu & -> & Ha & Hi' & Hin & Huniq).
  apply unheld_iff in Hu as Hu'. destruct Hu' as (Hak & Hp & Hck).
  split; [by exists r|]. split; [done|]. split.
  - unfold FindScopeRange, read. unfold mbind, txn_bind.
    rewrite (find_unique _ _ (with_claim (Some ck) r)); [cbn; by rewrite Hak | done | |].
    + cbn. rewrite !bool_decide_true by done. done.
    + intros y Hy [Hy1%bool_decide_eq_true _]%andb_true_iff.
      by apply (claim_inj (db_allocs d') _ _ ck); [apply (inv_claim_keys _ _ Hi') | | | |].
  - intros Hne ck'. rewrite bind_held.
    + rewrite (find_unique _ _ (with_claim (Some ck) r)); [done | done | |].
      * unfold carve_of. cbn. by rewrite Hak, String.eqb_refl, Hp.
      * intros y Hy [Hy1%String.eqb_eq _]%andb_true_iff.
        apply (key_inj ar_allocation_key (db_allocs d')); [apply (inv_alloc_keys _ _ Hi') | done | done | cbn; congruence].
    + intros y Hy. apply not_true_iff_false. intros (H1 & _ & H3)%unheld_iff.
      assert (y = with_claim (Some ck) r) as ->.
      { apply (key_inj ar_allocation_key (db_allocs d')); [apply (inv_alloc_keys _ _ Hi') | done | done | cbn; congruence]. }
      cbn in H3. congruence.
Qed.

(** [C9] Binding a range takes it for one claim.  It succeeds only on the carve of a
    pool nobody holds, returns the pool's range, keeps the ledger consistent and
    makes the claim the pool's holder as [FindScopeRange] reads it back; and while
    it is held, binding it again, by any claim, is refused. *)
Theorem BindScopeRange_exclusive k ck d n d' :
  inv d -> BindScopeRange k ck d = Ok (n, d') ->
  (exists r, r ∈ db_allocs d /\ unheld_carve k r = true /\ n = ar_cidr r)
  /\ inv d' /\ FindScopeRange ck d' = Ok (k, d')
  /\ (ck <> k -> forall ck', BindScopeRange k ck' d' = Err ErrScopeRangeHeld).
Proof. apply bind_exclusive. Qed.

(** ** Deleting a pool *)

Lemma deleteObject_ok k d x d' :
  inv d -> deleteObject k d = Ok (x, d') ->
  inv d' /\ db_allocs d' = db_allocs d /\ db_objects d' !! k = None
  /\ forall k' p, pool_range d' k' p -> pool_range d k' p.
Proof.
  intros Hi. unfold deleteObject, delete_object_row. unfold mbind, txn_bind.
  destruct (db_objects d !! k) as [row|] eqn:Hk; [|by intros [= <- <-]].
  destruct (existsb _ (db_allocs d)) eqn:Hin; [done|]. intros [= <- <-].
  rewrite existsb_false in Hin. cbn [log_change cascade set_objects db_objects db_allocs].
  assert (Hrow : forall r, r ∈ db_allocs d -> ar_pool_key r <> k).
  { intros r Hr E. specialize (Hin r Hr). by rewrite E, String.eqb_refl in Hin. }
  set (d1 := log_change _ _ _).
  assert (Ho : db_objects d1 = delete k (db_objects d)) by done.
  assert (Hrange : forall k' p, pool_range d1 k' p <-> k' <> k /\ pool_range d k' p).
  { intros k' p. unfold pool_range. rewrite Ho. setoid_rewrite lookup_delete_Some. naive_solver. }
  split; [|split; [done|]; split; [apply lookup_delete_eq | by intros k' p [_ ?]%Hrange]].
  destruct Hi as [I1 I2 I3 I4 I5 I6 I7 I8 I9 I10 I11]. rewrite app_nil_r in *.
  constructor; cbn [d1 log_change cascade set_objects db_allocs db_consumed db_floors]; rewrite ?app_nil_r; try done.
  - intros k' p [_ Hr]%Hrange. by apply (I1 k').
  - intros r Hr. destruct (I2 r Hr) as (p & Hp & Hins). exists p. split; [|done]. apply Hrange. split; [by apply Hrow | done].
  - intros k' p n [Hne Hr]%Hrange. rewrite lookup_delete_ne by done. by apply I4.
  - intros r Hr. rewrite lookup_delete_ne; [by apply I5|]. intros E. by apply (Hrow r Hr).
  - intros k' dg p f [Hne Hr]%Hrange [Hf _]%map_lookup_filter_Some. by apply I6.
  - intros k' Hk'. rewrite Ho. assert (k' <> k) as Hne.
    { destruct Hk' as [[? H] | (dg & f & H)]; [by apply lookup_delete_Some in H as [? _]|].
      apply map_lookup_filter_Some in H as [_ H]. done. }
    rewrite lookup_delete_ne by done. apply I7. destruct Hk' as [H | (dg & f & H)]; [left | right; exists dg].
    + by rewrite lookup_delete_ne in H.
    + apply map_lookup_filter_Some in H as [H _]. by exists f.
  - intros key r p cn Hr Hp. rewrite Ho in Hr. apply lookup_delete_Some in Hr as [Hne Hr].
    cbn [d1 log_change cascade set_objects db_offers]. rewrite elem_of_filter. cbn. rewrite (I10 key r p cn Hr Hp). naive_solver.
  - intros k' q (r & q0 & Hr & Hq). rewrite Ho in Hr. apply lookup_delete_Some in Hr as [_ Hr]. apply (I11 k' q).
    by exists r, q0.
Qed.

(** What is gone stays gone. *)
Lemma deleteObject_gone k k' d x d' :
  deleteObject k d = Ok (x, d') -> db_objects d !! k' = None -> db_objects d' !! k' = None.
Proof.
  unfold deleteObject, delete_object_row. unfold mbind, txn_bind.
  destruct (db_objects d !! k) as [row|]; [|by intros [= _ <-]]. destruct (existsb _ _); [done|].
  intros [= _ <-] H. cbn. apply lookup_delete_None. by right.
Qed.

(** ** Releasing a range *)

(** What a release must never take: anything but a reservation or a carve its own
    pool holds. *)
Definition live (r : AllocRow) : Prop :=
  match ar_purpose r with
  | PurposeReservation => False
  | PurposeClaim => True
  | PurposePoolCarve => default "" (ar_claim_key r) <> ar_allocation_key r
  end.

Lemma live_iff r : live r <-> ar_purpose r <> PurposeReservation /\ derived_carve r = false.
Proof.
  unfold live, derived_carve. destruct (ar_purpose r).
  - rewrite bool_decide_false by done. cbn. split; [intros _; split; done | intros _; exact I].
  - split; [intros [] | intros [H _]; by apply H].
  - rewrite bool_decide_true by done. cbn [andb]. rewrite String.eqb_neq.
    split; [intros H; refine (conj _ H); discriminate | intros [_ H]; exact H].
Qed.

(** A step of a release: the ledger stays consistent, rows only go, and live rows
    other than the carve of [k] stay. *)
Record released (keep : AllocRow -> Prop) (d d' : Db) : Prop := {
  rl_inv : inv d';
  rl_sub : forall r, r ∈ db_allocs d' -> r ∈ db_allocs d;
  rl_keep : forall r, r ∈ db_allocs d -> live r -> keep r -> r ∈ db_allocs d'
}.

Lemma released_trans keep d1 d2 d3 : released keep d1 d2 -> released keep d2 d3 -> released keep d1 d3.
Proof. intros [A1 A2 A3] [B1 B2 B3]. constructor; [done | auto|]. intros r Hr Hl Hk. apply B3; auto. Qed.

Lemma released_filter cond keep d d' :
  inv d' -> db_allocs d' = List.filter (fun r => negb (cond r)) (db_allocs d) ->
  (forall r, cond r = true -> live r -> ~ keep r) -> released keep d d'.
Proof.
  intros Hi Ha Hc. constructor; [done | |]; rewrite Ha.
  - intros r [Hr _]%elem_of_filter_b. done.
  - intros r Hr Hl Hk. apply elem_of_filter_b. split; [done|]. apply negb_true_iff, not_true_iff_false.
    intros H. by apply (Hc r H Hl).
Qed.

(** The last three steps of a release, once the pool is empty of children. *)
Lemma release_pool_ok k d u d' :
  inv d -> (ReleasePoolReservations k;; ReleaseAllocation k;; deleteObject k;; mret tt) d = Ok (u, d') ->
  released (fun r => ar_allocation_key r <> k) d d' /\ db_objects d' !! k = None.
Proof.
  intros Hi H. unfold mbind, txn_bind in H.
  destruct (deleteAllocations_ok (fun r => in_pool k r && bool_decide (ar_purpose r = PurposeReservation)) d Hi)
    as (d1 & H1 & Hi1 & Ha1 & _).
  { apply apart_held; [eapply ForallOrdPairs_sublist; [apply filter_sublist | apply (inv_apart _ _ Hi)]|].
    intros r [_ Hp]%elem_of_filter_b. apply andb_true_iff in Hp as [_ ->%bool_decide_eq_true]. done. }
  unfold ReleasePoolReservations in H. rewrite H1 in H.
  destruct (deleteAllocations_ok (fun r => String.eqb (ar_allocation_key r) k) d1 Hi1) as (d2 & H2 & Hi2 & Ha2 & _).
  { apply apart_short, filter_key_short, (inv_alloc_keys _ _ Hi1). }
  unfold ReleaseAllocation in H. rewrite H2 in H.
  destruct (deleteObject k d2) as [[x d3]|] eqn:H3; [|done]. injection H as _ <-.
  destruct (deleteObject_ok k d2 x d3 Hi2 H3) as (Hi3 & Ha3 & Ho3 & _). split; [|done].
  apply (released_trans _ d d1); [|apply (released_trans _ d1 d2)].
  - eapply released_filter; [done | exact Ha1|]. intros r [_ Hr%bool_decide_eq_true]%andb_true_iff [Hp _]%live_iff.
    by destruct Hp.
  - eapply released_filter; [done | exact Ha2|]. intros r E%String.eqb_eq _ Hk. by apply Hk.
  - constructor; [done | by rewrite Ha3 | by rewrite Ha3].
Qed.

Lemma filter_nil {A} (f : A -> bool) l : List.filter f l = [] -> forall x, x ∈ l -> f x = false.
Proof.
  intros H x Hx. apply not_true_iff_false. intros Hf. apply (not_elem_of_nil x). rewrite <- H.
  by apply elem_of_filter_b.
Qed.

Lemma derived_live r : derived_carve r = true -> ~ live r.
Proof. intros H [_ Hl]%live_iff. congruence. Qed.

(** The children of a pool, one after another: each is a carve row nobody holds, so
    no live row has its key. *)
Lemma release_children_ok (step : string -> Txn unit) d0 children : forall d u d',
  (forall c d u d', inv d -> step c d = Ok (u, d') -> released (fun r => ar_allocation_key r <> c) d d') ->
  NoDup (map ar_allocation_key (db_allocs d0)) ->
  (forall r, r ∈ db_allocs d -> r ∈ db_allocs d0) -> inv d ->
  Forall (fun c => exists r, r ∈ db_allocs d0 /\ ar_allocation_key r = c /\ derived_carve r = true) children ->
  each (fun _ c => step c) tt children d = Ok (u, d') -> released (fun _ => True) d d'.
Proof.
  induction children as [|c children IH]; intros d u d' Hstep Hnd Hsub Hi Hch; cbn [each].
  { intros [= _ <-]. by constructor. }
  apply Forall_cons in Hch as [(rc & Hrc & Hkey & Hder) Hch]. unfold mbind, txn_bind.
  destruct (step c d) as [[[] d1]|] eqn:H1; [|done]. intros H2.
  pose proof (Hstep c d tt d1 Hi H1) as [Hi1 Hsub1 Hkeep1].
  assert (R1 : released (fun _ => True) d d1).
  { constructor; [done | done|]. intros r Hr Hl _. apply Hkeep1; [done | done|]. intros E.
    apply (derived_live rc Hder). replace rc with r; [done|].
    apply (key_inj ar_allocation_key (db_allocs d0)); [done | by apply Hsub | done | congruence]. }
  eapply released_trans; [exact R1|]. apply (IH d1 u d'); auto.
Qed.

Lemma releaseRangeTree_ok fuel : forall k d u d',
  inv d -> releaseRangeTree fuel k d = Ok (u, d') ->
  released (fun r => ar_allocation_key r <> k) d d' /\ db_objects d' !! k = None.
Proof.
  induction fuel as [|fuel IH]; intros k d u d' Hi; cbn [releaseRangeTree]; [done|].
  unfold read. unfold mbind at 1, txn_bind at 1.
  set (inside := List.filter (occupies k) (db_allocs d)).
  destruct (List.filter (fun r => negb (derived_carve r)) inside) as [|x l] eqn:Hocc; [|done].
  pose proof (filter_nil _ _ Hocc) as Hder. unfold mbind at 1, txn_bind at 1.
  destruct (each _ tt (map ar_allocation_key inside) d) as [[[] d1]|] eqn:He; [|done]. intros H.
  assert (R1 : released (fun _ => True) d d1).
  { apply (release_children_ok (releaseRangeTree fuel) d (map ar_allocation_key inside) d tt d1); try done.
    - intros c d2 u2 d2' Hi2 H2. by apply (IH c d2 u2 d2').
    - apply (inv_alloc_keys _ _ Hi).
    - apply Forall_forall. intros c (r & -> & Hr)%list_elem_of_fmap. exists r.
      pose proof (Hder r Hr) as Hd. apply negb_false_iff in Hd. apply elem_of_filter_b in Hr as [Hr _]. done. }
  destruct (release_pool_ok k d1 u d' (rl_inv _ _ _ R1) H) as [R2 Ho]. split; [|done].
  eapply released_trans; [|exact R2]. destruct R1 as [A1 A2 A3]. constructor; [done | done|].
  intros r Hr Hl _. by apply A3.
Qed.

(** [C10] A release of a range that succeeds leaves a consistent ledger without the
    pool and with nothing recorded in it.  No row appears, and none that somebody
    holds goes, other than the carve of the range itself: every claimed address,
    every retained one and every range another claim holds is still there. *)
Theorem ReleaseScopeRange_keeps_live k d d' :
  inv d -> ReleaseScopeRange k d = Ok (tt, d') ->
  inv d' /\ db_objects d' !! k = None
  /\ (forall r, r ∈ db_allocs d' -> ar_pool_key r <> k /\ r ∈ db_allocs d)
  /\ forall r, r ∈ db_allocs d -> live r -> ar_allocation_key r <> k -> r ∈ db_allocs d'.
Proof.
  intros Hi H. destruct (releaseRangeTree_ok _ k d tt d' Hi H) as [[R1 R2 R3] Ho].
  split; [done|]. split; [done|]. split; [|done]. intros r Hr. split; [|by apply R2]. intros E.
  destruct (inv_rows _ _ R1 r ltac:(apply elem_of_app; by left)) as (p & (o & _ & Hk & _) & _). congruence.
Qed.

Lemma release_occupied k d r :
  r ∈ db_allocs d -> ar_pool_key r = k -> live r -> ReleaseScopeRange k d = Err ErrScopeRangeOccupied.
Proof.
  intros Hr Hk [Hp Hd]%live_iff. unfold ReleaseScopeRange. cbn [releaseRangeTree].
  unfold read. unfold mbind at 1, txn_bind at 1.
  destruct (List.filter (fun r0 => negb (derived_carve r0)) _) as [|x l] eqn:E; [|done].
  exfalso. pose proof (filter_nil _ _ E r) as H. cbn beta in H. rewrite Hd in H. enough (negb false = false) by done. apply H.
  apply elem_of_filter_b. split; [done|]. unfold occupies, in_pool. by rewrite Hk, String.eqb_refl, bool_decide_false.
Qed.

(** A range with anything live inside it is refused, and nothing is released. *)
Theorem ReleaseScopeRange_refuses k d r :
  r ∈ db_allocs d -> ar_pool_key r = k -> live r -> ReleaseScopeRange k d = Err ErrScopeRangeOccupied.
Proof. apply release_occupied. Qed.

(** A range with nothing inside but its own reserved positions can always be
    released. *)
Theorem ReleaseScopeRange_empty k d :
  inv d -> (forall r, r ∈ db_allocs d -> ar_pool_key r = k -> ar_purpose r = PurposeReservation) ->
  exists d', ReleaseScopeRange k d = Ok (tt, d').
Proof.
  intros Hi Hempty. unfold ReleaseScopeRange. cbn [releaseRangeTree]. unfold read. unfold mbind, txn_bind.
  assert (List.filter (occupies k) (db_allocs d) = []) as ->.
  { destruct (List.filter _ _) as [|x l] eqn:E; [done|]. exfalso.
    assert (x ∈ List.filter (occupies k) (db_allocs d)) as Hx by (rewrite E; left).
    apply elem_of_filter_b in Hx as [Hx [Hk%String.eqb_eq Hp]%andb_true_iff].
    by rewrite (bool_decide_true _ (Hempty x Hx Hk)) in Hp. }
  cbn [List.filter map each mret txn_ret].
  destruct (deleteAllocations_ok (fun r => in_pool k r && bool_decide (ar_purpose r = PurposeReservation)) d Hi)
    as (d1 & H1 & Hi1 & Ha1 & _).
  { apply apart_held; [eapply ForallOrdPairs_sublist; [apply filter_sublist | apply (inv_apart _ _ Hi)]|].
    intros r [_ Hp]%elem_of_filter_b. apply andb_true_iff in Hp as [_ ->%bool_decide_eq_true]. done. }
  unfold ReleasePoolReservations. rewrite H1.
  destruct (deleteAllocations_ok (fun r => String.eqb (ar_allocation_key r) k) d1 Hi1) as (d2 & H2 & _ & Ha2 & _).
  { apply apart_short, filter_key_short, (inv_alloc_keys _ _ Hi1). }
  unfold ReleaseAllocation. rewrite H2. unfold deleteObject, delete_object_row. unfold mbind, txn_bind.
  destruct (db_objects d2 !! k) as [o|]; [|by eexists].
  replace (existsb (fun r => String.eqb (ar_pool_key r) k) (db_allocs d2)) with false; [by eexists|].
  symmetry. apply existsb_false. intros r Hr. rewrite Ha2, Ha1 in Hr.
  apply elem_of_filter_b in Hr as [[Hr Hn]%elem_of_filter_b _]. apply negb_true_iff in Hn.
  apply not_true_iff_false. intros Hk%String.eqb_eq. unfold in_pool in Hn.
  by rewrite Hk, String.eqb_refl, (bool_decide_true _ (Hempty r Hr Hk)) in Hn.
Qed.

(** ** Witnesses *)

Definition rx_level : CascadeLevel := cx_level "beta" "n1".
Definition rx_key : string := lv_PoolKey rx_level.

(** The range of [net] for one network, provisioned and then bound to a claim. *)
Definition rx_db : Db := (ensureLevels (fun _ d => d) (fun _ => None) [rx_level] cx_pool_key cx_db).2.
Definition rx_bound : IPNet * Db := run (mkIPNet [] []) (BindScopeRange rx_key "claim") rx_db.

Lemma rx_inv : inv rx_db.
Proof.
  apply (ensureLevels_inv [rx_level] (fun _ d => d) (fun _ => None) cx_pool_key cx_db (ensureLevels (fun _ d => d) (fun _ => None) [rx_level] cx_pool_key cx_db).1 rx_db);
    [done | constructor; [apply cx_level_counts | constructor] | apply cx_inv | apply surjective_pairing].
Qed.

Lemma BindScopeRange_exclusive_witness :
  (exists r, r ∈ db_allocs rx_db /\ unheld_carve rx_key r = true /\ rx_bound.1 = ar_cidr r)
  /\ inv rx_bound.2 /\ FindScopeRange "claim" rx_bound.2 = Ok (rx_key, rx_bound.2)
  /\ ("claim" <> rx_key -> forall ck', BindScopeRange rx_key ck' rx_bound.2 = Err ErrScopeRangeHeld).
Proof.
  apply (BindScopeRange_exclusive rx_key "claim" rx_db); [apply rx_inv|]. apply run_ok. vm_compute. reflexivity.
Defined.

Definition rx_released : Db := (run tt (ReleaseScopeRange rx_key) rx_db).2.

Lemma ReleaseScopeRange_keeps_live_witness :
  inv rx_released /\ db_objects rx_released !! rx_key = None
  /\ (forall r, r ∈ db_allocs rx_released -> ar_pool_key r <> rx_key /\ r ∈ db_allocs rx_db)
  /\ forall r, r ∈ db_allocs rx_db -> live r -> ar_allocation_key r <> rx_key -> r ∈ db_allocs rx_released.
Proof.
  apply (ReleaseScopeRange_keeps_live rx_key rx_db); [apply rx_inv|]. vm_compute. reflexivity.
Defined.

(** The operator's pool holds the range, which is bound: it cannot be released. *)
Lemma ReleaseScopeRange_refuses_witness : ReleaseScopeRange cx_pool_key rx_bound.2 = Err ErrScopeRangeOccupied.
Proof.
  apply (ReleaseScopeRange_refuses cx_pool_key rx_bound.2
    (with_claim (Some "claim") (carve_row cx_pool_key (mk_net (10 * 2 ^ 24 + 2) 31 32) (level_carve rx_level)))).
  - apply list_elem_of_In. vm_compute. auto.
  - reflexivity.
  - apply live_iff. split; [discriminate | vm_compute; reflexivity].
Defined.

Lemma ReleaseScopeRange_empty_witness : exists d', ReleaseScopeRange rx_key rx_db = Ok (tt, d').
Proof.
  apply (ReleaseScopeRange_empty rx_key rx_db); [apply rx_inv|].
  assert (Hnone : forallb (fun r => negb (in_pool rx_key r) || bool_decide (ar_purpose r = PurposeReservation))
            (db_allocs rx_db) = true) by (vm_compute; reflexivity).
  intros r Hr Hk. rewrite forallb_forall in Hnone. apply list_elem_of_In in Hr. specialize (Hnone r Hr).
  unfold in_pool in Hnone. rewrite Hk, String.eqb_refl in Hnone. by apply bool_decide_eq_true in Hnone.
Defined.
