(* ===== verification/ObjectLaws.v ===== *)
(** * ObjectLaws: writing objects that are not pools

    A claim, an allocation or a class written, updated or deleted leaves the ledger
    alone: the same rows, the same ranges, the same totals.  And the identity
    table, whose constraints are checked when a transaction commits, stays sound
    under every operation that leaves it and the pools in place. *)

From Stdlib Require Import Ascii String.
From S2P Require Import Prelude Text Float Net Cidr Reservation Allocate Consumption Scan Tenant Scope.
From S2P Require Import NetText Types Db PoolObject Class Discover BoundedSearch Prefix PoolInvariant.
From S2P Require Import PoolWrites Cascade Provision Range.
Open Scope string_scope.
Open Scope list_scope.
Open Scope Z_scope.

(** No pool is stored under the key. *)
Definition not_pool (d : Db) (k : string) : Prop := forall r p, db_objects d !! k = Some r -> ob_data r <> DocPool p.

Lemma not_pool_none d k : db_objects d !! k = None -> not_pool d k.
Proof. intros H r p Hr. congruence. Qed.

Lemma not_pool_row d k r : db_objects d !! k = Some r -> as_pool (ob_data r) = None -> not_pool d k.
Proof. intros H Hp r' p Hr E. rewrite H in Hr. injection Hr as <-. by rewrite E in Hp. Qed.

#[export] Hint Resolve not_pool_none not_pool_row : ipam.

Lemma plain_ranges k d d' :
  (forall k', k' <> k -> db_objects d' !! k' = db_objects d !! k') -> not_pool d k -> not_pool d' k ->
  same_ranges d d' /\ forall k' pool, stored d' k' pool <-> stored d k' pool.
Proof.
  intros Ho Hn Hn'. split.
  - intros k' p. unfold pool_range. destruct (decide (k' = k)) as [-> | Hne]; [|by rewrite Ho].
    split; intros (r & q & Hr & Hq & _); exfalso; [by apply (Hn' r q) | by apply (Hn r q)].
  - intros k' pool. unfold stored. destruct (decide (k' = k)) as [-> | Hne]; [|by rewrite Ho].
    split; intros (r & q & Hr & Hq & _); exfalso; [by apply (Hn' r q) | by apply (Hn r q)].
Qed.

Lemma inv_plain k d d' :
  (forall k', k' <> k -> db_objects d' !! k' = db_objects d !! k') -> not_pool d k -> not_pool d' k ->
  db_allocs d' = db_allocs d -> db_consumed d' = db_consumed d -> db_floors d' = db_floors d ->
  is_Some (db_objects d' !! k) -> (offers_in_sync d -> offers_in_sync d') -> inv d -> inv d'.
Proof.
  intros Ho Hn Hn' Ha Hc Hf Hk Hs [I1 I2 I3 I4 I5 I6 I7 I8 I9 I10 I11].
  destruct (plain_ranges k d d' Ho Hn Hn') as [Hr Hst]. unfold same_ranges in Hr.
  constructor; rewrite ?Ha, ?Hc, ?Hf; [| | done | | done | | | done | done | auto |].
  - intros k' p. rewrite Hr. apply I1.
  - intros r Hin. destruct (I2 r Hin) as (p & Hp & Hins). exists p. by rewrite Hr.
  - intros k' p n. rewrite Hr. apply I4.
  - intros k' dg p f. rewrite Hr. intros Hp Hfl. eapply floor_valid_ext; [exact Ha|]. by apply I6.
  - intros k' Hk'. destruct (decide (k' = k)) as [-> | Hne]; [done|]. rewrite Ho by done. by apply I7.
  - intros k' pool. rewrite Hst. apply I11.
Qed.

(** ** The three writes *)

Lemma sync_plain d k doc : as_pool doc = None -> sync_offers d k doc = d.
Proof. by destruct doc. Qed.

Lemma insert_plain k kind name doc d rv d' :
  as_pool doc = None -> inv d -> insertObject k kind name doc d = Ok (rv, d') ->
  inv d' /\ db_objects d !! k = None
  /\ db_objects d' = <[k := mkObj (if negb (String.eqb (doc_kind doc) "") then doc_kind doc else kind) name doc rv]> (db_objects d)
  /\ db_allocs d' = db_allocs d /\ db_identity d' = db_identity d /\ same_ranges d d' /\ db_rv d' = rv.
Proof.
  intros Hp Hi. unfold insertObject, insert_object_row, check, stmt. unfold mbind, txn_bind.
  destruct (db_objects d !! k) as [o|] eqn:Hk; [done|]. rewrite bool_decide_true by done.
  cbv zeta. rewrite sync_plain by done. intros [= <- <-].
  set (row := mkObj _ _ _ _). set (d1 := log_change _ _ _).
  assert (Ho : forall k', k' <> k -> db_objects d1 !! k' = db_objects d !! k') by (intros k' Hne; by apply lookup_insert_ne).
  assert (Hn : not_pool d k) by by apply not_pool_none.
  assert (Hn' : not_pool d1 k) by (apply (not_pool_row d1 k row); [apply lookup_insert_eq | done]).
  split; [|split_and!; try done; by apply plain_ranges with k].
  apply (inv_plain k d d1); try done; [by exists row; apply lookup_insert_eq|].
  intros Hs. pose proof (offers_sync_update d k row doc eq_refl Hs) as H. by rewrite sync_plain in H.
Qed.

(** Writing the same key again: the row keeps its kind and name. *)
Lemma update_plain k doc row d :
  as_pool doc = None -> db_objects d !! k = Some row -> as_pool (ob_data row) = None -> inv d ->
  exists d', updateObject k doc d = Ok (db_rv d + 1, d') /\ inv d'
    /\ db_objects d' = <[k := mkObj (ob_kind row) (ob_name row) doc (db_rv d + 1)]> (db_objects d)
    /\ db_allocs d' = db_allocs d /\ db_identity d' = db_identity d /\ same_ranges d d'.
Proof.
  intros Hp Hk Hr Hi. unfold updateObject, update_object_row. unfold mbind, txn_bind. rewrite Hk.
  eexists. split; [done|]. rewrite sync_plain by done. set (row' := mkObj _ _ _ _). set (d1 := log_change _ _ _).
  assert (Ho : forall k', k' <> k -> db_objects d1 !! k' = db_objects d !! k') by (intros k' Hne; by apply lookup_insert_ne).
  assert (Hn : not_pool d k) by by apply (not_pool_row d k row).
  assert (Hn' : not_pool d1 k) by (apply (not_pool_row d1 k row'); [apply lookup_insert_eq | done]).
  split; [|split_and!; try done; by apply plain_ranges with k].
  apply (inv_plain k d d1); try done; [by exists row'; apply lookup_insert_eq|].
  intros Hs. pose proof (offers_sync_update d k row' doc eq_refl Hs) as H. by rewrite sync_plain in H.
Qed.

(** No row is recorded against a key that is not a pool's, so it can be deleted. *)
Lemma not_pool_rows d k r : inv d -> not_pool d k -> r ∈ db_allocs d -> ar_pool_key r <> k.
Proof.
  intros Hi Hn Hr E. destruct (inv_rows _ _ Hi r ltac:(apply elem_of_app; by left)) as (p & (o & q & Ho & Hq & _) & _).
  rewrite E in Ho. by apply (Hn o q).
Qed.

(** An object no row is recorded in can be deleted. *)
Lemma deleteObject_free k d :
  (forall r, r ∈ db_allocs d -> ar_pool_key r <> k) ->
  exists rv d', deleteObject k d = Ok (rv, d') /\ db_objects d' = delete k (db_objects d)
     /\ db_allocs d' = db_allocs d
     /\ db_identity d' = match db_objects d !! k with
                        | None => db_identity d | Some _ => filter (fun i => i.2 <> k) (db_identity d) end.
Proof.
  intros Hrow.
  assert (Hin : existsb (fun r => String.eqb (ar_pool_key r) k) (db_allocs d) = false).
  { apply existsb_false. intros r Hr. apply String.eqb_neq. by apply Hrow. }
  unfold deleteObject, delete_object_row. unfold mbind, txn_bind. destruct (db_objects d !! k) as [row|] eqn:Hk.
  - rewrite Hin. eexists _, _. split; [reflexivity|]. by split_and!.
  - eexists _, _. split; [reflexivity|]. split_and!; try done. by rewrite delete_id.
Qed.

Lemma delete_plain k d :
  inv d -> not_pool d k ->
  exists rv d', deleteObject k d = Ok (rv, d') /\ inv d' /\ db_objects d' = delete k (db_objects d)
    /\ db_allocs d' = db_allocs d
    /\ db_identity d' = match db_objects d !! k with
                        | None => db_identity d | Some _ => filter (fun i => i.2 <> k) (db_identity d) end
    /\ same_ranges d d'.
Proof.
  intros Hi Hn. destruct (deleteObject_free k d (fun r => not_pool_rows d k r Hi Hn)) as (rv & d' & H & Ho & Ha & Hid).
  exists rv, d'. split; [done|]. destruct (deleteObject_ok k d rv d' Hi H) as (Hi' & _). split; [done|]. split_and!; try done.
  apply (plain_ranges k); [intros k' Hne; rewrite Ho; by apply lookup_delete_ne | done|].
  apply not_pool_none. by rewrite Ho, lookup_delete_eq.
Qed.

(** ** What the allocator leaves of other objects *)

(** Objects that are not pools are untouched, pools stay the pools they are, capacity
    apart, and nothing appears or goes. *)
Record keeps_plain (d d' : Db) : Prop := {
  kp_plain : forall k row, db_objects d !! k = Some row -> as_pool (ob_data row) = None -> db_objects d' !! k = Some row;
  kp_pool : forall k row q, db_objects d !! k = Some row -> as_pool (ob_data row) = Some q ->
    exists row' q', db_objects d' !! k = Some row' /\ as_pool (ob_data row') = Some q' /\ same_pool q' q;
  kp_dom : same_dom d d'
}.

Lemma same_pool_trans a b c : same_pool a b -> same_pool b c -> same_pool a c.
Proof. intros [S1 C1] [S2 C2]. split; congruence. Qed.

Lemma same_pool_sym a b : same_pool a b -> same_pool b a.
Proof. by intros [? ?]. Qed.

Lemma keeps_refl d d' : db_objects d' = db_objects d -> keeps_plain d d'.
Proof.
  intros E. constructor; [by rewrite E | intros k row q H1 H2; exists row, q; by rewrite E | intros k; by rewrite E].
Qed.

Lemma keeps_trans a b c : keeps_plain a b -> keeps_plain b c -> keeps_plain a c.
Proof.
  intros [P1 Q1 D1] [P2 Q2 D2]. constructor; [by intros k row H Hp; apply P2; [apply P1|] | |].
  - intros k row q H Hp. destruct (Q1 k row q H Hp) as (row' & q' & H' & Hp' & Hs').
    destruct (Q2 k row' q' H' Hp') as (row2 & q2 & H2 & Hp2 & Hs2). exists row2, q2. split_and!; [done..|].
    by eapply same_pool_trans.
  - intros k. etransitivity; [apply D2 | apply D1].
Qed.

Lemma persistPoolCapacity_keeps pool k parents n d x d' row q :
  db_objects d !! k = Some row -> as_pool (ob_data row) = Some q -> same_pool pool q ->
  persistPoolCapacity pool k parents n d = Ok (x, d') -> keeps_plain d d'.
Proof.
  intros Hr Hq Hs. unfold persistPoolCapacity, updateObject, update_object_row. unfold mbind, txn_bind. rewrite Hr. cbn.
  intros [= _ <-]. constructor; cbn.
  - intros k' row' Hr' Hp. assert (k' <> k) by (intros ->; congruence). by rewrite lookup_insert_ne.
  - intros k' row' q' Hr' Hp. destruct (decide (k' = k)) as [-> | Hne].
    + rewrite lookup_insert_eq. rewrite Hr in Hr'. injection Hr' as <-. rewrite Hq in Hp. injection Hp as <-.
      eexists _, _. split; [done|]. by split.
    + rewrite lookup_insert_ne by done. by exists row', q'.
  - intros k'. cbn. destruct (decide (k' = k)) as [-> | Hne]; [|by rewrite lookup_insert_ne].
    rewrite lookup_insert_eq, Hr. split; intros _; by eexists.
Qed.

Lemma account_release_keeps r d u d' : account_release tt r d = Ok (u, d') -> keeps_plain d d'.
Proof.
  unfold account_release, select_object, read, lift. unfold mbind, txn_bind.
  destruct (db_objects d !! ar_pool_key r) as [row|] eqn:Hr; [|intros [= _ <-]; by apply keeps_refl].
  destruct (as_pool (ob_data row)) as [pool|] eqn:Hp; [|done]. destruct (parsePoolCIDR pool) as [ps|]; [|done].
  destruct (consumptionAfterRelease _ ps _ d) as [[n d1]|] eqn:Hc; [|done].
  assert (d1 = d) as ->.
  { revert Hc. unfold consumptionAfterRelease, loadOverlapping, readConsumed, select_consumed, seedConsumption,
      loadExistingAllocations, read, lift. unfold mbind, txn_bind.
    destruct (db_consumed d !! _); [destruct (RemovedConsumption _ _ _) | destruct (Measure _ _ _)]; by try intros [= _ <-]. }
  unfold writeConsumed, upsert_consumed, check, write. unfold mbind, txn_bind.
  destruct (0 <=? n); [|done]. destruct (bool_decide _); [|done].
  destruct (persistPoolCapacity _ _ _ _ _) as [[x d2]|] eqn:H2; [|done]. intros [= _ <-].
  eapply keeps_trans; [|eapply persistPoolCapacity_keeps; [|exact Hp | done | exact H2]; exact Hr]. by apply keeps_refl.
Qed.

Lemma releases_keep rows : forall d u d', each account_release tt rows d = Ok (u, d') -> keeps_plain d d'.
Proof.
  induction rows as [|r rows IH]; intros d u d'; cbn [each]; [intros [= _ <-]; by apply keeps_refl|].
  unfold mbind, txn_bind. destruct (account_release tt r d) as [[[] d1]|] eqn:H1; [|done]. intros H2.
  eapply keeps_trans; [by eapply account_release_keeps | by eapply IH].
Qed.

Lemma lower_floors_objects rows d : db_objects (foldl (fun d r => lower_floors r d) d rows) = db_objects d.
Proof. revert d. induction rows as [|r rows IH]; intros d; [done|]. cbn. by rewrite IH. Qed.

Lemma deleteAllocations_keeps cond d u d' : deleteAllocations cond d = Ok (u, d') -> keeps_plain d d'.
Proof.
  unfold deleteAllocations, delete_allocs. unfold mbind, txn_bind. intros H.
  eapply keeps_trans; [|by eapply releases_keep]. apply keeps_refl. by rewrite lower_floors_objects.
Qed.

Lemma Release_keeps ck d x d' : Release ck d = Ok (x, d') -> keeps_plain d d'.
Proof.
  unfold Release. unfold mbind, txn_bind. rewrite retainAllocations_eq.
  destruct (deleteAllocations _ _) as [[[] d1]|] eqn:H; [|done]. intros [= _ <-].
  eapply keeps_trans; [|by eapply deleteAllocations_keeps]. by apply keeps_refl.
Qed.

(** *** Allocating *)

(** Statements that write no object. *)
Definition same_objects {A} (m : Txn A) : Prop := forall d a d', m d = Ok (a, d') -> db_objects d' = db_objects d.

Lemma so_bind {A B} (m : Txn A) (f : A -> Txn B) : same_objects m -> (forall a, same_objects (f a)) -> same_objects (m ≫= f).
Proof.
  intros Hm Hf d b d'. unfold mbind, txn_bind. destruct (m d) as [[a d1]|] eqn:H1; [|done]. intros H2.
  rewrite (Hf a d1 b d' H2). by eapply Hm.
Qed.

Lemma so_ret {A} (a : A) : same_objects (mret a).
Proof. by intros d x d' [= _ <-]. Qed.

Lemma so_read {A} (f : Db -> A) : same_objects (read f).
Proof. by intros d x d' [= _ <-]. Qed.

Lemma so_fail {A} e : same_objects (fail (A := A) e).
Proof. done. Qed.

Lemma so_lift {A} (r : result IpamErr A) : same_objects (lift r).
Proof. intros d x d'. unfold lift. destruct r; [by intros [= _ <-] | done]. Qed.

Lemma so_check c p : same_objects (check c p).
Proof. intros d x d'. unfold check. destruct (p d); [by intros [= _ <-] | done]. Qed.

Lemma so_write f : (forall d, db_objects (f d) = db_objects d) -> same_objects (write f).
Proof. intros H d x d' [= _ <-]. apply H. Qed.

Lemma so_each {A B} (f : B -> A -> Txn B) l : (forall b a, same_objects (f b a)) -> forall b, same_objects (each f b l).
Proof. intros Hf. induction l as [|a l IH]; intros b; [apply so_ret | by apply so_bind]. Qed.

Lemma so_catch {A} (m : Txn A) : same_objects m -> same_objects (catch_exhausted m).
Proof. intros H d a d'. unfold catch_exhausted, stmt. destruct (m d) eqn:E; cbn; [intros [= ->]; by eapply H | done]. Qed.

Create HintDb same_objects.
#[export] Hint Resolve so_ret so_read so_fail so_lift so_check so_catch : same_objects.

Ltac same_objects := repeat first
  [ progress auto with same_objects | apply so_bind; [|intros] | apply so_each; intros
  | apply so_write; intros; repeat case_match; reflexivity | case_match ].

Lemma so_bounded_loop fuel k dg : forall s, same_objects (bounded_loop fuel k dg s).
Proof. induction fuel as [|fuel IH]; intros s; cbn [bounded_loop]; unfold loadBlocksCovering, loadBlocksFrom, feed; same_objects; apply IH. Qed.

Lemma so_findBlock k dg parents u s : same_objects (findBlock k dg parents u s).
Proof.
  unfold findBlock, loadAllocationsInSpace, boundedFirstFit, lockSearchFloor, readSearchFloor, raiseSearchFloor,
    insert_floor, select_floor, cas_floor.
  same_objects; try apply so_bounded_loop.
Qed.

Lemma so_counting k parents n : same_objects (consumptionAfterAllocate k parents n).
Proof.
  unfold consumptionAfterAllocate, seedConsumption, loadOverlapping, readConsumed, select_consumed, loadExistingAllocations.
  same_objects.
Qed.

Lemma so_insert_alloc row : same_objects (insert_alloc row).
Proof. unfold insert_alloc. same_objects. Qed.

Lemma so_writeConsumed k n : same_objects (writeConsumed k n).
Proof. unfold writeConsumed, upsert_consumed. same_objects. Qed.

#[export] Hint Resolve so_findBlock so_counting so_insert_alloc so_writeConsumed : same_objects.

Lemma so_reserve k parents family cn c b : same_objects (reserve_block k parents family cn c b).
Proof. unfold reserve_block, insertReservation. same_objects. Qed.
#[export] Hint Resolve so_reserve : same_objects.

Lemma txn_bind_ok {A B} (m : Txn A) (f : A -> Txn B) d x :
  (m ≫= f) d = Ok x -> exists a d1, m d = Ok (a, d1) /\ f a d1 = Ok x.
Proof. unfold mbind, txn_bind. destruct (m d) as [[a d1]|]; [|done]. intros H. by exists a, d1. Qed.

Lemma materialise_keeps k pool parents d x d' row q :
  db_objects d !! k = Some row -> as_pool (ob_data row) = Some q -> same_pool pool q ->
  materialiseReservations k pool parents d = Ok (x, d') -> keeps_plain d d' /\ same_pool x q.
Proof.
  intros Hr Hq Hs. unfold materialiseReservations, holdsReservations.
  destruct (IsZero _); [intros [= <- <-]; by split; [apply keeps_refl|]|]. unfold read. unfold mbind at 1, txn_bind at 1.
  destruct (existsb _ _); [intros [= <- <-]; by split; [apply keeps_refl|]|]. intros H.
  apply txn_bind_ok in H as (blocks & d0 & H0 & H). apply so_lift in H0 as E0.
  apply txn_bind_ok in H as (c & d1 & H1 & H). apply so_each in H1 as E1; [|intros; apply so_reserve].
  destruct c as [c|]; [|injection H as <- <-; split; [apply keeps_refl; congruence | done]]. split.
  - eapply keeps_trans; [by apply (keeps_refl d d1); rewrite E1|].
    eapply persistPoolCapacity_keeps; [by rewrite E1, E0 | exact Hq | exact Hs | exact H].
  - unfold persistPoolCapacity in H. apply txn_bind_ok in H as (u & d2 & _ & [= <- _]). destruct Hs. by split.
Qed.

Lemma AllocatePrefix_keeps req d s d' : AllocatePrefix req d = Ok (s, d') -> keeps_plain d d'.
Proof.
  unfold AllocatePrefix. intros H. apply txn_bind_ok in H as (pool & d0 & H0 & H).
  apply lockAndDecode_ok in H0 as [-> (row & q & Hr & Hq0 & Hs0)].
  assert (as_pool (ob_data row) = Some q) as Hq by (by rewrite Hq0).
  apply txn_bind_ok in H as (parents & d1 & H1 & H). apply so_lift in H1 as E1.
  apply txn_bind_ok in H as (pool2 & d2 & H2 & H).
  destruct (materialise_keeps _ _ _ _ _ _ row q ltac:(by rewrite E1) Hq Hs0 H2) as [K12 S2].
  assert (K2 : keeps_plain d d2) by (eapply keeps_trans; [by apply (keeps_refl d d1)|exact K12]).
  destruct (kp_pool _ _ K2 _ row q Hr Hq) as (row2 & q2 & Hr2 & Hq2 & Hs2). eapply keeps_trans; [exact K2|].
  apply txn_bind_ok in H as (n & d3 & H3 & H). apply so_catch in H3 as E3; [|apply so_findBlock].
  apply txn_bind_ok in H as (c & d4 & H4 & H). apply so_counting in H4 as E4.
  apply txn_bind_ok in H as (u & d5 & H5 & H). apply so_insert_alloc in H5 as E5.
  apply txn_bind_ok in H as (v & d6 & H6 & H). apply so_writeConsumed in H6 as E6.
  apply txn_bind_ok in H as (w & d7 & H7 & [= _ <-]).
  eapply keeps_trans; [by apply (keeps_refl d2 d6); rewrite E6, E5, E4|].
  eapply persistPoolCapacity_keeps; [by rewrite E6, E5, E4, E3 | exact Hq2 | | exact H7].
  eapply same_pool_trans; [exact S2 | by apply same_pool_sym].
Qed.

(** ** The identity table *)

(** What a commit requires: every pool named is stored, and named once. *)
Lemma identity_ok_iff d :
  identity_ok d = true
  <-> (forall i k, db_identity d !! i = Some k -> is_Some (db_objects d !! k))
      /\ forall i j k, db_identity d !! i = Some k -> db_identity d !! j = Some k -> i = j.
Proof.
  unfold identity_ok. rewrite forallb_forall. setoid_rewrite <- list_elem_of_In. split.
  - intros H. split.
    + intros i k Hi. specialize (H (i, k) ltac:(by apply elem_of_map_to_list)).
      apply andb_true_iff in H as [H%bool_decide_eq_true _]. done.
    + intros i j k Hi Hj. specialize (H (i, k) ltac:(by apply elem_of_map_to_list)).
      apply andb_true_iff in H as [_ H]. rewrite forallb_forall in H.
      specialize (H (j, k) ltac:(by apply list_elem_of_In, elem_of_map_to_list)).
      apply bool_decide_eq_true in H. by apply H.
  - intros [Hp Hj] [i k] Hi%elem_of_map_to_list. apply andb_true_iff. split.
    + apply bool_decide_eq_true. by apply (Hp i).
    + apply forallb_forall. intros [j k'] Hk%list_elem_of_In%elem_of_map_to_list. apply bool_decide_eq_true.
      cbn. intros <-. by apply (Hj i j k).
Qed.

(** It survives losing entries, as long as the pools still named are stored. *)
Lemma identity_ok_sub d d' :
  (forall i k, db_identity d' !! i = Some k -> db_identity d !! i = Some k
     /\ (is_Some (db_objects d !! k) -> is_Some (db_objects d' !! k))) ->
  identity_ok d = true -> identity_ok d' = true.
Proof.
  intros Hs [Hp Hj]%identity_ok_iff. apply identity_ok_iff. split.
  - intros i k Hi. destruct (Hs i k Hi) as [H1 H2]. by apply H2, (Hp i).
  - intros i j k Hi Hk. apply (Hj i j k); by apply Hs.
Qed.

Lemma identity_ok_same d d' :
  db_identity d' = db_identity d -> (forall k, is_Some (db_objects d !! k) -> is_Some (db_objects d' !! k)) ->
  identity_ok d = true -> identity_ok d' = true.
Proof. intros E Hd. apply identity_ok_sub. intros i k. rewrite E. by split; [|apply Hd]. Qed.

Lemma delete_commits k d d' :
  db_objects d' = delete k (db_objects d) ->
  db_identity d' = match db_objects d !! k with None => db_identity d | Some _ => filter (fun i => i.2 <> k) (db_identity d) end ->
  identity_ok d = true -> identity_ok d' = true.
Proof.
  intros Ho Hid. apply identity_ok_sub. intros i k' Hi. rewrite Hid in Hi. rewrite Ho.
  destruct (db_objects d !! k) eqn:Hk.
  - apply map_lookup_filter_Some in Hi as [Hi Hne]. split; [done|]. by rewrite lookup_delete_ne.
  - split; [done|]. by rewrite delete_id.
Qed.
