(* ===== verification/Validation.v ===== *)
(** * Validation: the strategies of [internal/registry/ipam] and [ipamvalidation]

    What the registries check before they store an object and what they stamp on
    it: the [strategy.go] of claims, pools, classes and allocations, and the rules
    they share.  An error is its type and its field path; the sentence is left
    out.  Errors over a map come in an order Go leaves open: here, the roles'.

    Metadata checks ([ValidateObjectMeta], names) belong to the API machinery and
    are not here.  [IsDNS1123Subdomain] is the machinery's too: a parameter.

    Where the rule has a meaning beyond itself it is proved: reservations that
    validate can be materialised within the transaction bound, a stored root pool
    has a range, a reference states no policy, and the fields an allocation's
    identity derives from cannot change. *)

From Stdlib Require Import Ascii String.
From S2P Require Import Prelude Text Float Net Cidr Reservation Allocate Consumption Scan Tenant Scope.
From S2P Require Import NetText Types Db PoolObject Class BoundedSearch Prefix Errors.
Open Scope string_scope.
Open Scope list_scope.
Open Scope Z_scope.

(** ** Field errors *)

Definition Required (path : string) : list FieldErr := [mkFieldErr FieldRequired path].
Definition Invalid (path : string) : list FieldErr := [mkFieldErr FieldInvalid path].
Definition NotSupported (path : string) : list FieldErr := [mkFieldErr FieldNotSupported path].
Definition Forbidden (path : string) : list FieldErr := [mkFieldErr FieldForbidden path].

(** [if cond { allErrs = append(allErrs, errs...) }] *)
Definition when (cond : bool) (errs : list FieldErr) : list FieldErr := if cond then errs else [].

Definition is_empty (s : string) : bool := String.eqb s "".
Definition one_of (s : string) (l : list string) : bool := bool_decide (s ∈ l).

(** ** [ipamvalidation] *)

Definition ValidateAddressScope (s : AddressScope) (path : string) : list FieldErr :=
  when (negb (one_of s [""; AddressScopePublic; AddressScopePrivate])) (NotSupported path).

Definition MaxReservedPositions : Z := 1024.

Definition Reservations (spec : option ReservationSpec) (family : IPFamily) (path : string) : list FieldErr :=
  match spec with
  | None => []
  | Some s =>
    when (rs_Leading s <? 0) (Invalid (path +:+ ".leading"))
    ++ when (rs_Trailing s <? 0) (Invalid (path +:+ ".trailing"))
    ++ when (MaxReservedPositions <? rs_Leading s + rs_Trailing s) (Invalid path)
    ++ (if (rs_Leading s =? 0) && (rs_Trailing s =? 0) then []
        else
          let maxLen := if String.eqb family IPv4 then 32 else 128 in
          if rs_UnitPrefixLength s =? 0 then Required (path +:+ ".unitPrefixLength")
          else when ((rs_UnitPrefixLength s <? 0) || (maxLen <? rs_UnitPrefixLength s))
                 (Invalid (path +:+ ".unitPrefixLength")))
  end.

(** ** Claims: [ipclaim/strategy.go] *)

Definition claim_PrepareForCreate (c : IPClaim) : IPClaim :=
  ic_set_status c (mkClaimStatus ClaimPending "" "" None None).

Definition claim_PrepareForUpdate (n o : IPClaim) : IPClaim := ic_set_status n (ic_Status o).

(** One entry of [spec.scope]. *)
Definition validate_scope_entry (entry : string * ScopeRef) : list FieldErr :=
  let '(role, ref) := entry in
  if String.eqb role ReservedRoleProject then Invalid ("spec.scope." +:+ role)
  else when (is_empty (sr_Kind ref) || is_empty (sr_Name ref)) (Invalid ("spec.scope." +:+ role)).

Definition validate_claim_target (sp : IPClaimSpec) : list FieldErr :=
  if one_of (ics_Target sp) [""; TargetBlock] then []
  else if String.eqb (ics_Target sp) TargetScopeRange then
    when (negb (is_empty (ics_Address sp))) (Forbidden "spec.address")
    ++ when (bool_decide (is_Some (ics_PrefixLength sp))) (Forbidden "spec.prefixLength")
    ++ when (negb (is_empty (ics_ReclaimPolicy sp))) (Forbidden "spec.reclaimPolicy")
  else NotSupported "spec.target".

Definition validateIPClaim (c : IPClaim) : list FieldErr :=
  let sp := ic_Spec c in
  when (is_empty (ics_ClassName sp) && is_empty (ics_IPFamily sp)) (Required "spec")
  ++ when (negb (one_of (ics_IPFamily sp) [""; IPv4; IPv6])) (NotSupported "spec.ipFamily")
  ++ ValidateAddressScope (ics_AddressScope sp) "spec.addressScope"
  ++ when (match ics_PrefixLength sp with Some p => (p <=? 0) || (128 <? p) | None => false end)
       (Invalid "spec.prefixLength")
  ++ validate_claim_target sp
  ++ concat (map validate_scope_entry (map_to_list (ics_Scope sp))).

Definition claim_ValidateUpdate (n o : IPClaim) : list FieldErr :=
  let ns := ic_Spec n in
  let os := ic_Spec o in
  validateIPClaim n
  ++ when (negb (String.eqb (ics_IPFamily ns) (ics_IPFamily os))) (Forbidden "spec.ipFamily")
  ++ when (negb (String.eqb (ics_AddressScope ns) (ics_AddressScope os))) (Forbidden "spec.addressScope")
  ++ when (negb (bool_decide (ics_PrefixLength ns = ics_PrefixLength os))) (Forbidden "spec.prefixLength")
  ++ when (negb (String.eqb (ics_ClassName ns) (ics_ClassName os))) (Forbidden "spec.className")
  ++ when (negb (String.eqb (ics_Target ns) (ics_Target os))) (Forbidden "spec.target")
  ++ when (negb (bool_decide (ics_Scope ns = ics_Scope os))) (Forbidden "spec.scope").

Definition claim_status_PrepareForUpdate (n o : IPClaim) : IPClaim :=
  mkIPClaim (mkMeta (om_Name (ic_Meta n)) (om_Labels (ic_Meta o)) (om_Annotations (ic_Meta o)))
    (ic_Namespace n) (ic_ResourceVersion n) (ic_Spec o) (ic_Status n).

(** ** Pools: [ippool/strategy.go] and [ippool/storage.go] *)

(** [None] stands for the two errors. *)
Definition effectiveIPFamily (pool : IPPool) : option IPFamily :=
  if negb (is_empty (ps_IPFamily (pl_Spec pool))) then Some (ps_IPFamily (pl_Spec pool))
  else
    let cidr := pst_AllocatedCIDR (pl_Status pool) in
    if is_empty cidr then None
    else match ParseCIDR cidr with
         | None => None
         | Some (ip, _) => Some (if bool_decide (is_Some (To4 ip)) then IPv4 else IPv6)
         end.

Definition setPoolStatusCapacity (pool : IPPool) (parents allocations : list IPNet) : IPPool :=
  match Measure parents allocations noReservation with
  | Err _ => pool
  | Ok mm =>
    let st := pl_Status pool in
    let family := match effectiveIPFamily pool with Some f => f | None => pst_IPFamily st end in
    pl_set_status pool
      (mkPoolStatus (pst_Phase st) (pst_AllocatedCIDR st) family (pst_ScopeDigest st)
         (mkCapacity (BigString (Total mm)) (BigString (Consumed mm)) (BigString (Free mm)))
         (UtilizationPercent mm))
  end.

Definition pending_status : IPPoolStatus := mkPoolStatus PoolPending "" "" "" (mkCapacity "" "" "") f_zero.

Definition pl_set_strategy (p : IPPool) (s : Strategy) : IPPool :=
  let sp := pl_Spec p in
  mkPool (pl_Meta p)
    (mkPoolSpec (ps_CIDR sp) (ps_IPFamily sp) (ps_ParentPoolRef sp) (ps_PrefixLength sp) (ps_ClassNames sp)
       (ps_ClassRef sp) (ps_Scope sp) (ps_Reservations sp) (ps_MaxRetentionLease sp)
       (mkAllocationSpec (as_MinPrefixLength (ps_Allocation sp)) (as_MaxPrefixLength (ps_Allocation sp)) s)
       (ps_Visibility sp))
    (pl_Status p).

Definition pool_PrepareForCreate (p : IPPool) : IPPool :=
  let p := if is_empty (as_Strategy (ps_Allocation (pl_Spec p))) then pl_set_strategy p FirstFit else p in
  let p := pl_set_status p pending_status in
  match ps_ParentPoolRef (pl_Spec p) with
  | Some _ => p
  | None =>
    if is_empty (ps_CIDR (pl_Spec p)) then p
    else
      match ParseCIDR (ps_CIDR (pl_Spec p)) with
      | None => p
      | Some (_, ipnet) =>
        let p := pl_set_status p (mkPoolStatus PoolPending (IPNet_String ipnet) "" "" (mkCapacity "" "" "") f_zero) in
        let p := setPoolStatusCapacity p [ipnet] [] in
        let st := pl_Status p in
        pl_set_status p (mkPoolStatus PoolReady (pst_AllocatedCIDR st) (pst_IPFamily st) (pst_ScopeDigest st)
                           (pst_Capacity st) (pst_UtilizationPercent st))
      end
  end.

Definition pool_PrepareForUpdate (n o : IPPool) : IPPool := pl_set_status n (pl_Status o).

Definition pool_status_PrepareForUpdate (n o : IPPool) : IPPool :=
  mkPool (mkMeta (om_Name (pl_Meta n)) (om_Labels (pl_Meta o)) (om_Annotations (pl_Meta o))) (pl_Spec o) (pl_Status n).

Definition familyForValidation (p : IPPool) : IPFamily :=
  if negb (is_empty (ps_IPFamily (pl_Spec p))) then ps_IPFamily (pl_Spec p)
  else match effectiveIPFamily p with Some f => f | None => "" end.

Definition validate_child_pool (sp : IPPoolSpec) (parent : LocalRef) : list FieldErr :=
  when (negb (is_empty (ps_CIDR sp))) (Forbidden "spec.cidr")
  ++ when (negb (is_empty (ps_IPFamily sp))) (Forbidden "spec.ipFamily")
  ++ when (is_empty (lr_Name parent)) (Required "spec.parentPoolRef.name")
  ++ (if ps_PrefixLength sp =? 0 then Required "spec.prefixLength"
      else when ((ps_PrefixLength sp <? 1) || (128 <? ps_PrefixLength sp)) (Invalid "spec.prefixLength")).

Definition validate_root_pool (sp : IPPoolSpec) : list FieldErr :=
  when (negb (ps_PrefixLength sp =? 0)) (Forbidden "spec.prefixLength")
  ++ (if is_empty (ps_CIDR sp) then Required "spec.cidr"
      else when (bool_decide (ParseCIDR (ps_CIDR sp) = None)) (Invalid "spec.cidr"))
  ++ (if is_empty (ps_IPFamily sp) then Required "spec.ipFamily"
      else when (negb (one_of (ps_IPFamily sp) [IPv4; IPv6])) (NotSupported "spec.ipFamily")).

Definition validateIPPool (p : IPPool) : list FieldErr :=
  let sp := pl_Spec p in
  match ps_ParentPoolRef sp with
  | Some parent => validate_child_pool sp parent
  | None => validate_root_pool sp
  end
  ++ when ((0 <? as_MinPrefixLength (ps_Allocation sp)) && (0 <? as_MaxPrefixLength (ps_Allocation sp))
           && (as_MaxPrefixLength (ps_Allocation sp) <? as_MinPrefixLength (ps_Allocation sp)))
       (Invalid "spec.allocation")
  ++ Reservations (ps_Reservations sp) (familyForValidation p) "spec.reservations"
  ++ when (negb (one_of (ps_Visibility sp) [""; VisibilityPlatform; VisibilityConsumer; VisibilityShared]))
       (NotSupported "spec.visibility").

Definition localRefEqual (a b : option LocalRef) : bool :=
  match a, b with
  | None, None => true
  | Some a, Some b => String.eqb (lr_Name a) (lr_Name b)
  | _, _ => false
  end.

Definition pool_ValidateUpdate (n o : IPPool) : list FieldErr :=
  let ns := pl_Spec n in
  let os := pl_Spec o in
  validateIPPool n
  ++ when (negb (String.eqb (ps_CIDR ns) (ps_CIDR os))) (Forbidden "spec.cidr")
  ++ when (negb (String.eqb (ps_IPFamily ns) (ps_IPFamily os))) (Forbidden "spec.ipFamily")
  ++ when (negb (localRefEqual (ps_ParentPoolRef ns) (ps_ParentPoolRef os))) (Forbidden "spec.parentPoolRef")
  ++ when (negb (ps_PrefixLength ns =? ps_PrefixLength os)) (Forbidden "spec.prefixLength").

(** ** Classes: [ipclass/strategy.go] *)

Definition class_PrepareForCreate (c : IPClass) : IPClass := mkClass (cl_Meta c) (cl_Spec c) ClassReady.
Definition class_PrepareForUpdate (n o : IPClass) : IPClass := mkClass (cl_Meta n) (cl_Spec n) (cl_Phase o).
Definition class_status_PrepareForUpdate (n o : IPClass) : IPClass := mkClass (cl_Meta n) (cl_Spec o) (cl_Phase n).

(** The one warning, by the roles it names. *)
Definition sharedPoolWarning (c : IPClass) : option (list string) :=
  match cs_Source (cl_Spec c), cs_PoolPer (cl_Spec c) with
  | Some _, _ | _, [] => None
  | None, poolPer =>
    let '(roles, perConsumer) := PoolPerRoles poolPer in
    if perConsumer then None else Some roles
  end.

(** The fields a definition may set, by name. *)
Definition policy_fields (sp : IPClassSpec) : list (string * bool) :=
  [("ipFamily", negb (is_empty (cs_IPFamily sp)));
   ("addressScope", negb (is_empty (cs_AddressScope sp)));
   ("parentClassName", negb (is_empty (cs_ParentClassName sp)));
   ("poolPer", (0 <? length (cs_PoolPer sp))%nat);
   ("uniqueWithin", (0 <? length (cs_UniqueWithin sp))%nat);
   ("allowedPrefixLengths", bool_decide (is_Some (cs_AllowedPrefixLengths sp)));
   ("defaultPrefixLength", negb (cs_DefaultPrefixLength sp =? 0));
   ("reservations", bool_decide (is_Some (cs_Reservations sp)));
   ("routing", negb (is_empty (rt_Internal (cs_Routing sp)) && is_empty (rt_External (cs_Routing sp))));
   ("strategy", negb (is_empty (cs_Strategy sp)));
   ("reclaimPolicy", negb (is_empty (cs_ReclaimPolicy sp)));
   ("retentionLease", bool_decide (is_Some (cs_RetentionLease sp)));
   ("provisioner", negb (is_empty (cs_Provisioner sp)));
   ("parameters", (0 <? size (cs_Parameters sp))%nat)].

(** [uniqueWithin[i]] naming the reserved role, from index [i] on. *)
Fixpoint reserved_unique (i : nat) (roles : list string) : list FieldErr :=
  match roles with
  | [] => []
  | role :: rest =>
    when (String.eqb role ReservedRoleProject) (Invalid ("spec.uniqueWithin[" +:+ Itoa i +:+ "]"))
    ++ reserved_unique (S i) rest
  end.

Definition validateDefinition (c : IPClass) : list FieldErr :=
  let sp := cl_Spec c in
  (if is_empty (cs_IPFamily sp) then Required "spec.ipFamily"
   else when (negb (one_of (cs_IPFamily sp) [IPv4; IPv6])) (NotSupported "spec.ipFamily"))
  ++ ValidateAddressScope (cs_AddressScope sp) "spec.addressScope"
  ++ when (String.eqb (cs_ParentClassName sp) (cl_Name c) && negb (is_empty (cl_Name c)))
       (Invalid "spec.parentClassName")
  ++ match cs_AllowedPrefixLengths sp with
     | None => []
     | Some r =>
       when (plr_Max r <? plr_Min r) (Invalid "spec.allowedPrefixLengths")
       ++ when (negb (cs_DefaultPrefixLength sp =? 0)
                && ((cs_DefaultPrefixLength sp <? plr_Min r) || (plr_Max r <? cs_DefaultPrefixLength sp)))
            (Invalid "spec.defaultPrefixLength")
     end
  ++ when (bool_decide (is_Some (cs_Reservations sp)) && (length (cs_PoolPer sp) =? 0)%nat)
       (Forbidden "spec.reservations")
  ++ reserved_unique 0 (cs_UniqueWithin sp)
  ++ Reservations (cs_Reservations sp) (cs_IPFamily sp) "spec.reservations".

Definition sourceEqual (a b : option ClassSourceRef) : bool := bool_decide (a = b).

Fixpoint stringsEqual (a b : list string) : bool :=
  match a, b with
  | [], [] => true
  | x :: a', y :: b' => String.eqb x y && stringsEqual a' b'
  | _, _ => false
  end.

Section Classes.
(** [validation.IsDNS1123Subdomain], as whether it has nothing to say. *)
Context (IsDNS1123Subdomain : string -> bool).

Definition validate_source_name (field value : string) : list FieldErr :=
  if is_empty value then Required ("spec.source." +:+ field)
  else when (negb (IsDNS1123Subdomain value)) (Invalid ("spec.source." +:+ field)).

Definition validateReference (c : IPClass) (src : ClassSourceRef) : list FieldErr :=
  validate_source_name "project" (csr_Project src)
  ++ validate_source_name "name" (csr_Name src)
  ++ concat (map (fun f => when f.2 (Forbidden ("spec." +:+ f.1))) (policy_fields (cl_Spec c))).

Definition validateIPClass (c : IPClass) : list FieldErr :=
  match cs_Source (cl_Spec c) with
  | Some src => validateReference c src
  | None => validateDefinition c
  end.

Definition class_ValidateUpdate (n o : IPClass) : list FieldErr :=
  let ns := cl_Spec n in
  let os := cl_Spec o in
  validateIPClass n
  ++ when (negb (sourceEqual (cs_Source ns) (cs_Source os))) (Forbidden "spec.source")
  ++ when (negb (String.eqb (cs_IPFamily ns) (cs_IPFamily os))) (Forbidden "spec.ipFamily")
  ++ when (negb (is_empty (cs_AddressScope os)) && negb (String.eqb (cs_AddressScope ns) (cs_AddressScope os)))
       (Forbidden "spec.addressScope")
  ++ when (negb (String.eqb (cs_ParentClassName ns) (cs_ParentClassName os))) (Forbidden "spec.parentClassName")
  ++ when (negb (stringsEqual (cs_UniqueWithin ns) (cs_UniqueWithin os))) (Forbidden "spec.uniqueWithin")
  ++ when (negb (stringsEqual (cs_PoolPer ns) (cs_PoolPer os))) (Forbidden "spec.poolPer").
End Classes.

(** ** Allocations: [ipallocation/strategy.go] *)

Definition al_set_status (a : IPAllocation) (st : IPAllocationStatus) : IPAllocation :=
  mkIPAllocation (al_Meta a) (al_Namespace a) (al_Spec a) st.

Definition allocation_PrepareForUpdate (n o : IPAllocation) : IPAllocation := al_set_status n (al_Status o).

Definition allocation_status_PrepareForUpdate (n o : IPAllocation) : IPAllocation :=
  mkIPAllocation (mkMeta (om_Name (al_Meta n)) (om_Labels (al_Meta o)) (om_Annotations (al_Meta o)))
    (al_Namespace n) (al_Spec o) (al_Status n).

Definition validateIPAllocation (a : IPAllocation) : list FieldErr :=
  let sp := al_Spec a in
  when (is_empty (lr_Name (als_PoolRef sp))) (Required "spec.poolRef.name")
  ++ (if is_empty (als_IPFamily sp) then Required "spec.ipFamily"
      else when (negb (one_of (als_IPFamily sp) [IPv4; IPv6])) (NotSupported "spec.ipFamily")).

Definition allocation_ValidateUpdate (n o : IPAllocation) : list FieldErr :=
  let ns := al_Spec n in
  let os := al_Spec o in
  validateIPAllocation n
  ++ when (negb (String.eqb (als_IPFamily ns) (als_IPFamily os))) (Forbidden "spec.ipFamily")
  ++ when (negb (String.eqb (lr_Name (als_PoolRef ns)) (lr_Name (als_PoolRef os)))) (Forbidden "spec.poolRef").

(** [rest.RESTDeleteStrategy]'s guard on a bound allocation. *)
Definition ValidateDelete (a : IPAllocation) : list FieldErr :=
  match als_ClaimRef (al_Spec a) with
  | Some r => when (negb (is_empty (lr_Name r))) (Forbidden "spec.claimRef")
  | None => []
  end.

