(* ===== verification/ValidationLaws.v ===== *)
(** * ValidationLaws: what admission guarantees

    The rules of Validation, read as facts the rest of the program may rely on:
    reservations that validate fit one transaction, a root pool that validates is
    born ready with the range its text denotes, a reference is determined by its
    source, and no admitted update of a class, a pool or a claim moves what an
    allocation's identity derives from.  Two gaps are proved as well: a claim's
    owner and reclaim policy can be edited after they were taken, and a pool may
    state a family its range does not have. *)

From Stdlib Require Import Ascii String.
From S2P Require Import Prelude Text Float Net Cidr Reservation Allocate Consumption Scan Tenant Scope.
From S2P Require Import NetText NetParse Types Db PoolObject Class Discover BoundedSearch Prefix Cascade Errors Validation.
Open Scope string_scope.
Open Scope list_scope.
Open Scope Z_scope.

(** ** Lists of errors *)

Lemma when_nil c errs : when c errs = [] -> errs <> [] -> c = false.
Proof. by destruct c. Qed.

(** Take a list of errors known to be empty apart: each rule that could speak did
    not apply. *)
Ltac no_errors :=
  repeat match goal with
  | H : _ ++ _ = [] |- _ => apply app_nil in H; destruct H
  | H : when ?c _ = [] |- _ => apply when_nil in H; [|discriminate]
  | H : Required _ = [] |- _ => discriminate H
  | H : NotSupported _ = [] |- _ => discriminate H
  | H : Invalid _ = [] |- _ => discriminate H
  | H : Forbidden _ = [] |- _ => discriminate H
  | H : negb _ = false |- _ => apply negb_false_iff in H
  | H : is_empty ?s = true |- _ => apply String.eqb_eq in H
  | H : is_empty ?s = false |- _ => apply String.eqb_neq in H
  | H : String.eqb _ _ = true |- _ => apply String.eqb_eq in H
  | H : bool_decide _ = true |- _ => apply bool_decide_eq_true in H
  | H : bool_decide _ = false |- _ => apply bool_decide_eq_false in H
  end.

(** ** Reservations *)

Lemma unitsToTake_le remaining units :
  0 <= remaining < 2 ^ 63 -> 0 <= units -> 0 <= unitsToTake remaining units <= remaining.
Proof.
  unfold unitsToTake. intros H Hu. destruct (Z.leb_spec remaining units); [lia|]. rewrite to_int64_id by (red; lia). lia.
Qed.

Lemma unitCount_nonneg u p : 0 <= unitCount u p.
Proof. unfold unitCount. destruct (Mask_Size _). by apply Z.shiftl_nonneg. Qed.

Lemma length_emit_up' n c size u bits : length (emit_up n c size u bits) = n.
Proof. revert c. induction n; intros; cbn; auto. Qed.

Lemma length_emit_down n c size u bits : length (emit_down n c size u bits) = n.
Proof. revert c. induction n; intros; cbn; auto. Qed.

Lemma length_leading u bits ps : forall n, 0 <= n < 2 ^ 63 -> Z.of_nat (length (leading_blocks u bits n ps)) <= n.
Proof.
  induction ps as [|p ps IH]; intros n Hn; cbn [leading_blocks]; [cbn; lia|].
  destruct (Z.ltb_spec 0 n); [|cbn; lia]. cbv zeta. rewrite length_app, length_emit_up'.
  pose proof (unitsToTake_le n (unitCount u p) Hn (unitCount_nonneg u p)). specialize (IH (n - unitsToTake n (unitCount u p)) ltac:(lia)). lia.
Qed.

Lemma length_trailing u bits ps : forall n, 0 <= n < 2 ^ 63 -> Z.of_nat (length (trailing_blocks u bits n ps)) <= n.
Proof.
  induction ps as [|p ps IH]; intros n Hn; cbn [trailing_blocks]; [cbn; lia|].
  destruct (Z.ltb_spec 0 n); [|cbn; lia]. cbv zeta. rewrite length_app, length_emit_down.
  pose proof (unitsToTake_le n (unitCount u p) Hn (unitCount_nonneg u p)). specialize (IH (n - unitsToTake n (unitCount u p)) ltac:(lia)). lia.
Qed.

Lemma ReservedBlocks_length parents l t u out :
  l < 2 ^ 63 -> t < 2 ^ 63 -> ReservedBlocks parents l t u = Ok out -> Z.of_nat (length out) <= l + t.
Proof.
  intros Hl Ht. unfold ReservedBlocks. destruct (_ || _) eqn:E; [done|]. zbool.
  destruct (_ && _); [intros [= <-]; cbn; lia|]. destruct parents as [|p parents]; [done|].
  destruct (sortedDisjointParents _) as [[sorted bits]|]; [|done]. cbn [mbind result_bind].
  destruct (bits <? u); [done|]. destruct (existsb _ _); [done|]. cbv zeta. destruct (_ <? _); [done|].
  intros [= <-]. rewrite length_app, length_rev.
  pose proof (length_leading u bits sorted l ltac:(lia)). pose proof (length_trailing u bits (rev sorted) t ltac:(lia)). lia.
Qed.

Lemma reservations_counts spec family path :
  Reservations (Some spec) family path = [] -> counts_ok (reservationFrom (Some spec)).
Proof.
  intros H. unfold Reservations in H. no_errors. zbool. unfold MaxReservedPositions in *.
  assert (rs_Leading spec + rs_Trailing spec <= 1024) by lia. split; cbn; lia.
Qed.

(** A reservation that validates, on a pool or on the class that provisions
    pools, states counts the allocator's arithmetic can hold, and over whatever
    range it meets asks for at most 1024 blocks: the rows one transaction writes. *)
Theorem Reservations_bounded spec family path :
  Reservations (Some spec) family path = [] ->
  let r := reservationFrom (Some spec) in
  counts_ok r
  /\ (IsZero r = false -> 1 <= UnitPrefixLength r <= 128)
  /\ forall parents out, BlocksIn r parents = Ok out -> Z.of_nat (length out) <= MaxReservedPositions.
Proof.
  intros H r. unfold Reservations in H. no_errors. zbool.
  assert (Hmax : rs_Leading spec + rs_Trailing spec <= MaxReservedPositions) by lia.
  unfold MaxReservedPositions in *. split; [split; cbn; lia|]. split.
  - cbn. unfold IsZero. cbn. destruct (_ && _); [done|]. intros _.
    destruct (Z.eqb_spec (rs_UnitPrefixLength spec) 0); no_errors. zbool. destruct (String.eqb family IPv4); lia.
  - intros parents out Ho. apply ReservedBlocks_length in Ho; cbn in *; lia.
Qed.

Lemma Reservations_bounded_witness :
  let r := reservationFrom (Some (mkReservationSpec 2 1 32)) in
  counts_ok r
  /\ (IsZero r = false -> 1 <= UnitPrefixLength r <= 128)
  /\ forall parents out, BlocksIn r parents = Ok out -> Z.of_nat (length out) <= MaxReservedPositions.
Proof. apply (Reservations_bounded (mkReservationSpec 2 1 32) IPv4 "spec.reservations"). reflexivity. Defined.

(** ** Root pools *)

Lemma Measure_empty n :
  wf_net n -> native_net n -> exists mm, Measure [n] [] noReservation = Ok mm
    /\ Total mm = hi n - lo n + 1 /\ Consumed mm = 0 /\ Free mm = hi n - lo n + 1.
Proof.
  intros Hn Hv.
  assert (HP : pool_ok [n] []).
  { constructor; [by constructor | by constructor | constructor|]. intros p _ c Hc. by apply not_elem_of_nil in Hc. }
  destruct (Measure_counts [n] [] noReservation [] eq_refl HP) as (mm & Hm & Ht & Hf & Hc & Hs).
  exists mm. split; [done|]. unfold sumZ in *. cbn [foldr] in *.
  assert (consumed_in [] n = 0) by (unfold consumed_in; by apply count_false). lia.
Qed.

(** What a root pool that passes both hooks is made of: its text denotes a
    network, and what the create hook writes beside it. *)
Lemma root_admitted p :
  ps_ParentPoolRef (pl_Spec p) = None -> validateIPPool (pool_PrepareForCreate p) = [] ->
  exists ip n q, ParseCIDR (ps_CIDR (pl_Spec p)) = Some (ip, n)
    /\ ps_IPFamily (pl_Spec p) ∈ [IPv4; IPv6]
    /\ pl_Spec (pool_PrepareForCreate p) = pl_Spec q
    /\ ps_IPFamily (pl_Spec q) = ps_IPFamily (pl_Spec p)
    /\ pl_Status (pool_PrepareForCreate p)
       = let st := pl_Status (setPoolStatusCapacity
                    (pl_set_status q (mkPoolStatus PoolPending (IPNet_String n) "" "" (mkCapacity "" "" "") f_zero)) [n] []) in
         mkPoolStatus PoolReady (pst_AllocatedCIDR st) (pst_IPFamily st) (pst_ScopeDigest st)
           (pst_Capacity st) (pst_UtilizationPercent st).
Proof.
  intros Hroot Hv.
  set (q := if is_empty (as_Strategy (ps_Allocation (pl_Spec p))) then pl_set_strategy p FirstFit else p).
  assert (Hq : ps_ParentPoolRef (pl_Spec q) = None /\ ps_CIDR (pl_Spec q) = ps_CIDR (pl_Spec p)
               /\ ps_IPFamily (pl_Spec q) = ps_IPFamily (pl_Spec p)).
  { unfold q. by destruct (is_empty _). }
  destruct Hq as (Hq1 & Hq2 & Hq3).
  assert (Hspec : pl_Spec (pool_PrepareForCreate p) = pl_Spec q).
  { unfold pool_PrepareForCreate. fold q. cbn [pl_set_status pl_Spec]. rewrite Hq1, Hq2.
    destruct (is_empty (ps_CIDR (pl_Spec p))); [done|].
    destruct (ParseCIDR _) as [[ip n]|]; [|done]. unfold setPoolStatusCapacity. by destruct (Measure _ _ _). }
  unfold validateIPPool in Hv. rewrite Hspec, Hq1 in Hv. apply app_nil in Hv as [Hv _].
  unfold validate_root_pool in Hv. rewrite Hq2, Hq3 in Hv.
  apply app_nil in Hv as [_ Hv]. apply app_nil in Hv as [Hc Hf].
  destruct (is_empty (ps_CIDR (pl_Spec p))) eqn:Ec; [done|].
  destruct (is_empty (ps_IPFamily (pl_Spec p))); [done|].
  destruct (ParseCIDR (ps_CIDR (pl_Spec p))) as [[ip n]|] eqn:Hp; [|done].
  exists ip, n, q. split; [done|]. split; [no_errors; by apply bool_decide_eq_true in Hf|].
  split; [done|]. split; [done|].
  unfold pool_PrepareForCreate. fold q. cbn [pl_set_status pl_Spec]. by rewrite Hq1, Hq2, Ec, Hp.
Qed.

(** [C40] A root pool that passes both hooks has a well-typed range: its text denotes
    one block - an aligned network of a family's width, whatever host bits it was
    written with - the status carries that block's text, and unless the block is
    one of the IPv4-mapped ones, whose text is another family's, it is well formed
    and is the range every later search of the pool reads back. *)
Theorem root_pool_typed p :
  let p' := pool_PrepareForCreate p in
  ps_ParentPoolRef (pl_Spec p) = None -> validateIPPool p' = [] ->
  exists ip n, ParseCIDR (ps_CIDR (pl_Spec p)) = Some (ip, n) /\ is_block n
    /\ pst_AllocatedCIDR (pl_Status p') = IPNet_String n
    /\ ((forall t ones, n = mk_net t ones 128 -> ~ v4mapped t) -> wf_net n /\ parsePoolCIDR p' = Ok [n]).
Proof.
  intros p' Hroot Hv. destruct (root_admitted p Hroot Hv) as (ip & n & q & Hp & _ & _ & _ & Hst).
  exists ip, n. split; [done|]. destruct (ParseCIDR_typed _ _ _ Hp) as [Hb Hw]. split; [done|].
  assert (Ha : pst_AllocatedCIDR (pl_Status p') = IPNet_String n).
  { unfold p'. rewrite Hst. unfold setPoolStatusCapacity. by destruct (Measure _ _ _). }
  split; [done|]. intros Hm. split; [by apply Hw | apply parsePoolCIDR_carved; [by apply Hw | done]].
Qed.

(** A root pool that validates after its create hook ran is born Ready: its
    range is the network its text denotes, whatever host bits it was written with,
    its family is the one it states, and its counts are those of an empty range:
    everything available, nothing allocated. *)
Theorem root_pool_born_ready p :
  let p' := pool_PrepareForCreate p in
  ps_ParentPoolRef (pl_Spec p) = None -> validateIPPool p' = [] ->
  (forall ip n, ParseCIDR (ps_CIDR (pl_Spec p)) = Some (ip, n) -> wf_net n /\ native_net n) ->
  exists ip n, ParseCIDR (ps_CIDR (pl_Spec p)) = Some (ip, n)
    /\ parsePoolCIDR p' = Ok [n]
    /\ pst_Phase (pl_Status p') = PoolReady
    /\ pst_IPFamily (pl_Status p') = ps_IPFamily (pl_Spec p)
    /\ ps_IPFamily (pl_Spec p) ∈ [IPv4; IPv6]
    /\ pst_Capacity (pl_Status p')
       = mkCapacity (BigString (hi n - lo n + 1)) (BigString 0) (BigString (hi n - lo n + 1)).
Proof.
  intros p' Hroot Hv Hwf. destruct (root_admitted p Hroot Hv) as (ip & n & q & Hp & Hfam & Hspec & Hq3 & Hst).
  destruct (Hwf ip n Hp) as [Hn Hnat]. exists ip, n. split; [done|].
  destruct (Measure_empty n Hn Hnat) as (mm & Hm & Ht & Hcons & Hfree).
  assert (Hst' : pl_Status p' = mkPoolStatus PoolReady (IPNet_String n) (ps_IPFamily (pl_Spec p)) ""
                  (mkCapacity (BigString (Total mm)) (BigString (Consumed mm)) (BigString (Free mm)))
                  (UtilizationPercent mm)).
  { unfold p'. rewrite Hst. unfold setPoolStatusCapacity. rewrite Hm. unfold effectiveIPFamily.
    cbn [pl_set_status pl_Spec pl_Status]. rewrite Hq3.
    destruct (is_empty (ps_IPFamily (pl_Spec p))) eqn:Ef; [|done].
    apply String.eqb_eq in Ef. rewrite Ef in Hfam. exfalso.
    repeat (apply elem_of_cons in Hfam as [Hfam|Hfam]; [discriminate Hfam|]). by apply not_elem_of_nil in Hfam. }
  rewrite Hst'. cbn. split; [apply parsePoolCIDR_carved; [done | by rewrite Hst']|].
  split; [done|]. split; [done|]. split; [done | by rewrite Ht, Hcons, Hfree].
Qed.

Definition ex_root : IPPool :=
  mkPool (mkMeta "root" ∅ ∅)
    (mkPoolSpec "10.1.2.3/16" IPv4 None 0 [] None ∅ (Some (mkReservationSpec 1 1 32)) None (mkAllocationSpec 0 0 "") "")
    (mkPoolStatus "" "" "" "" (mkCapacity "" "" "") f_zero).

Lemma root_pool_typed_witness :
  exists ip n, ParseCIDR "10.1.2.3/16" = Some (ip, n) /\ is_block n
    /\ pst_AllocatedCIDR (pl_Status (pool_PrepareForCreate ex_root)) = IPNet_String n
    /\ ((forall t ones, n = mk_net t ones 128 -> ~ v4mapped t) ->
        wf_net n /\ parsePoolCIDR (pool_PrepareForCreate ex_root) = Ok [n]).
Proof. apply (root_pool_typed ex_root); [reflexivity | vm_compute; reflexivity]. Defined.

Lemma root_pool_born_ready_witness :
  exists ip n, ParseCIDR "10.1.2.3/16" = Some (ip, n)
    /\ parsePoolCIDR (pool_PrepareForCreate ex_root) = Ok [n]
    /\ pst_Phase (pl_Status (pool_PrepareForCreate ex_root)) = PoolReady
    /\ pst_IPFamily (pl_Status (pool_PrepareForCreate ex_root)) = IPv4
    /\ IPv4 ∈ [IPv4; IPv6]
    /\ pst_Capacity (pl_Status (pool_PrepareForCreate ex_root))
       = mkCapacity (BigString (hi n - lo n + 1)) (BigString 0) (BigString (hi n - lo n + 1)).
Proof.
  apply (root_pool_born_ready ex_root); [reflexivity | vm_compute; reflexivity|].
  intros ip n H. change (ps_CIDR (pl_Spec ex_root)) with "10.1.2.3/16" in H. vm_compute in H. injection H as _ <-.
  split; [apply wf_netb_spec; vm_compute; reflexivity | apply native_netb_spec; vm_compute; reflexivity].
Defined.

(** A pool may state a family its range does not have: nothing compares them. *)
Definition ex_wrong_family : IPPool :=
  mkPool (mkMeta "root" ∅ ∅)
    (mkPoolSpec "2001:db8::/32" IPv4 None 0 [] None ∅ None None (mkAllocationSpec 0 0 "") "")
    (mkPoolStatus "" "" "" "" (mkCapacity "" "" "") f_zero).

Example wrong_family_validates :
  validateIPPool (pool_PrepareForCreate ex_wrong_family) = []
  /\ pst_IPFamily (pl_Status (pool_PrepareForCreate ex_wrong_family)) = IPv4
  /\ parsePoolCIDR (pool_PrepareForCreate ex_wrong_family) = Ok [mk_net (0x20010db8 * 2 ^ 96) 32 128].
Proof. vm_compute. done. Qed.

(** ** Classes *)

Lemma stringsEqual_iff a b : stringsEqual a b = true <-> a = b.
Proof.
  revert b. induction a as [|x a IH]; intros [|y b]; cbn; try done.
  rewrite andb_true_iff, String.eqb_eq, IH. split; [by intros [-> ->] | by intros [= -> ->]].
Qed.

Lemma absent_list {A} (l : list A) : (0 <? length l)%nat = false -> l = [].
Proof. by destruct l. Qed.

Lemma absent_map {A} (m : gmap string A) : (0 <? size m)%nat = false -> m = ∅.
Proof. intros H. apply Nat.ltb_ge in H. apply map_size_empty_iff. lia. Qed.

Lemma absent_option {A} (o : option A) : bool_decide (is_Some o) = false -> o = None.
Proof. intros H%bool_decide_eq_false. by apply eq_None_not_Some. Qed.

(** The spec of a reference: its source, and no policy. *)
Definition reference_spec (src : ClassSourceRef) : IPClassSpec :=
  mkClassSpec (Some src) "" "" "" [] [] None 0 None (mkRouting "" "") "" "" None "" ∅.

(** A class that validates as a reference states nothing but what it points
    at: its whole spec is determined by its source, so it can never be a second
    copy of a policy. *)
Theorem reference_is_its_source dns c src :
  validateIPClass dns c = [] -> cs_Source (cl_Spec c) = Some src ->
  cl_Spec c = reference_spec src /\ csr_Project src <> "" /\ csr_Name src <> "".
Proof.
  unfold validateIPClass. intros H Hs. rewrite Hs in H. unfold validateReference, validate_source_name in H.
  apply app_nil in H as [Hp H]. apply app_nil in H as [Hn H].
  destruct (is_empty (csr_Project src)) eqn:E1; [done|]. destruct (is_empty (csr_Name src)) eqn:E2; [done|]. no_errors.
  destruct (cl_Spec c) as [so fa sc pa pp uw al de re [ri re'] st rp rl pr pm]. cbn in Hs. subst so.
  unfold policy_fields in H. cbn [map concat fst snd cs_IPFamily cs_AddressScope cs_ParentClassName cs_PoolPer
    cs_UniqueWithin cs_AllowedPrefixLengths cs_DefaultPrefixLength cs_Reservations cs_Routing cs_Strategy
    cs_ReclaimPolicy cs_RetentionLease cs_Provisioner cs_Parameters rt_Internal rt_External] in H.
  no_errors. repeat match goal with
  | H : (0 <? length ?l)%nat = false |- _ => apply absent_list in H
  | H : (0 <? size ?l)%nat = false |- _ => apply absent_map in H
  | H : bool_decide (is_Some ?o) = false |- _ => apply absent_option in H
  | H : ~ is_Some ?o |- _ => apply eq_None_not_Some in H
  | H : _ && _ = true |- _ => apply andb_true_iff in H as [?%String.eqb_eq ?%String.eqb_eq]
  | H : (_ =? 0) = true |- _ => apply Z.eqb_eq in H
  end. by subst.
Qed.

Definition ex_reference : IPClass :=
  mkClass (mkMeta "public" ∅ ∅) (reference_spec (mkSource "platform" "public-unicast")) "".

Lemma reference_is_its_source_witness :
  cl_Spec ex_reference = reference_spec (mkSource "platform" "public-unicast")
  /\ "platform" <> "" /\ "public-unicast" <> "".
Proof.
  apply (reference_is_its_source (fun _ => true) ex_reference (mkSource "platform" "public-unicast"));
    vm_compute; reflexivity.
Defined.

(** What decides where a claim of a class allocates: the class it resolves to, the
    level of the cascade it provisions and the digest of its address space. *)
Definition level_identity (l : CascadeLevel) : PoolTenancy * scope_map * string * string * string :=
  (lv_Tenancy l, lv_Scope l, lv_ScopeDigest l, lv_PoolName l, lv_PoolKey l).

(** No admitted update of a class moves an allocation: the level it provisions
    for any consumer and scope keeps its tenancy, digest, pool name and key, a
    claim's address space keeps its digest, and the family, the parent and the
    source stay what they were, the address scope once it is set. *)
Theorem class_update_keeps_identity dns n o :
  class_ValidateUpdate dns n o = [] -> cl_Name n = cl_Name o ->
  (forall project localName consumer claimScope,
     level_identity <$> plan_level consumer claimScope (mkResolved n project localName)
     = level_identity <$> plan_level consumer claimScope (mkResolved o project localName))
  /\ (forall tenant claimScope,
     ProjectAddressSpaceDigest tenant claimScope (cs_UniqueWithin (cl_Spec n)) "uniqueWithin"
     = ProjectAddressSpaceDigest tenant claimScope (cs_UniqueWithin (cl_Spec o)) "uniqueWithin")
  /\ cs_IPFamily (cl_Spec n) = cs_IPFamily (cl_Spec o)
  /\ cs_ParentClassName (cl_Spec n) = cs_ParentClassName (cl_Spec o)
  /\ cs_Source (cl_Spec n) = cs_Source (cl_Spec o)
  /\ (cs_AddressScope (cl_Spec o) <> "" -> cs_AddressScope (cl_Spec n) = cs_AddressScope (cl_Spec o)).
Proof.
  unfold class_ValidateUpdate. cbv zeta. intros H Hname. apply app_nil in H as [_ H]. no_errors.
  repeat match goal with H : stringsEqual _ _ = true |- _ => apply stringsEqual_iff in H end.
  match goal with H : sourceEqual _ _ = true |- _ => apply bool_decide_eq_true in H end.
  assert (Hu : cs_UniqueWithin (cl_Spec n) = cs_UniqueWithin (cl_Spec o)) by done.
  assert (Hp : cs_PoolPer (cl_Spec n) = cs_PoolPer (cl_Spec o)) by done.
  split_and!; try done.
  - intros project localName consumer claimScope. unfold plan_level, rc_Spec, rc_Name. cbn [rc_Class rc_Project].
    rewrite Hp, Hname. destruct (PoolPerRoles _) as [roles perConsumer].
    by destruct (wrap_err ErrScope (ProjectFor claimScope roles "poolPer")).
  - intros tenant claimScope. by rewrite Hu.
  - intros Hne. match goal with H : _ && _ = false |- _ => apply andb_false_iff in H as [H | H] end; no_errors; done.
Qed.

Definition ex_definition (strategy : PoolSelectionStrategy) : IPClass :=
  mkClass (mkMeta "network" ∅ ∅)
    (mkClassSpec None IPv4 "" "" ["project"; "network"] ["network"] None 28 None (mkRouting "" "") strategy "" None "" ∅)
    ClassReady.

Lemma class_update_keeps_identity_witness :
  ProjectAddressSpaceDigest "alpha" ∅ (cs_UniqueWithin (cl_Spec (ex_definition PoolLeastUtilized))) "uniqueWithin"
  = ProjectAddressSpaceDigest "alpha" ∅ (cs_UniqueWithin (cl_Spec (ex_definition PoolFirstFit))) "uniqueWithin".
Proof.
  apply (class_update_keeps_identity (fun _ => true) (ex_definition PoolLeastUtilized) (ex_definition PoolFirstFit));
    vm_compute; reflexivity.
Defined.

(** A definition states a length its allowed range admits, so a claim that names
    none gets it, within its family. *)
Theorem default_length_admitted dns c l :
  validateIPClass dns c = [] -> cs_Source (cl_Spec c) = None -> cs_DefaultPrefixLength (cl_Spec c) = l ->
  0 < l <= (if String.eqb (cs_IPFamily (cl_Spec c)) IPv6 then 128 else 32) ->
  EffectivePrefixLength c None = Ok l.
Proof.
  unfold validateIPClass. intros H Hs Hd Hl. rewrite Hs in H. unfold validateDefinition in H.
  do 3 apply app_nil in H as [_ H]. apply app_nil in H as [Ha _].
  unfold EffectivePrefixLength. rewrite Hd in Ha |- *.
  destruct (Z.eqb_spec l 0); [lia|]. cbn [negb mbind result_bind].
  assert (Hr : match cs_AllowedPrefixLengths (cl_Spec c) with
               | Some r => (l <? plr_Min r) || (plr_Max r <? l) | None => false end = false).
  { destruct (cs_AllowedPrefixLengths (cl_Spec c)) as [r|]; [|done]. apply app_nil in Ha as [_ Ha]. no_errors.
    by destruct (Z.eqb_spec l 0). }
  rewrite Hr. destruct (Z.leb_spec l 0); [lia|]. cbv zeta. zcase; [lia | done].
Qed.

Lemma default_length_admitted_witness : EffectivePrefixLength (ex_definition "") None = Ok 28.
Proof.
  apply (default_length_admitted (fun _ => true) (ex_definition "") 28); [vm_compute; reflexivity | done | done | vm_compute].
  split; [reflexivity | discriminate].
Defined.

(** ** Claims and allocations *)

(** No admitted update of a claim changes what it was allocated under: class,
    family, address scope, length, target and scope stay. *)
Theorem claim_update_keeps_request n o :
  claim_ValidateUpdate n o = [] ->
  let ns := ic_Spec n in let os := ic_Spec o in
  ics_ClassName ns = ics_ClassName os /\ ics_IPFamily ns = ics_IPFamily os
  /\ ics_AddressScope ns = ics_AddressScope os /\ ics_PrefixLength ns = ics_PrefixLength os
  /\ ics_Target ns = ics_Target os /\ ics_Scope ns = ics_Scope os
  /\ claim_PrepareForUpdate n o = ic_set_status n (ic_Status o).
Proof. unfold claim_ValidateUpdate. cbv zeta. intros H. apply app_nil in H as [_ H]. no_errors. by split_and!. Qed.

Definition ex_claim (owner : string) (policy : ReclaimPolicy) : IPClaim :=
  mkIPClaim (mkMeta "web" ∅ ∅) "default" 7
    (mkClaimSpec "network" IPv4 "" "" None ∅ TargetBlock policy (Some (mkObjectRef ParentAPIGroupProject "Project" "" owner)))
    (mkClaimStatus ClaimBound "10.0.0.0/28" "" None None).

Lemma claim_update_keeps_request_witness :
  ics_ClassName (ic_Spec (ex_claim "alpha" ReclaimRetain)) = ics_ClassName (ic_Spec (ex_claim "alpha" ReclaimDelete)).
Proof. apply (claim_update_keeps_request (ex_claim "alpha" ReclaimRetain) (ex_claim "alpha" ReclaimDelete)). vm_compute. reflexivity. Defined.

(** The owner the create handler forces on a claim, and the reclaim policy recorded
    with its allocation, may be edited on the claim afterwards. *)
Example owner_is_editable :
  claim_ValidateUpdate (ex_claim "somebody-else" ReclaimRetain) (ex_claim "alpha" ReclaimDelete) = [].
Proof. vm_compute. reflexivity. Qed.

(** A claim for a range names neither an address, a length nor a policy. *)
Theorem range_claim_is_bare c :
  validateIPClaim c = [] -> ics_Target (ic_Spec c) = TargetScopeRange ->
  ics_Address (ic_Spec c) = "" /\ ics_PrefixLength (ic_Spec c) = None /\ ics_ReclaimPolicy (ic_Spec c) = "".
Proof.
  unfold validateIPClaim. intros H Ht. do 4 apply app_nil in H as [_ H]. apply app_nil in H as [H _].
  unfold validate_claim_target in H. rewrite Ht in H.
  change (one_of TargetScopeRange [""; TargetBlock]) with false in H. rewrite String.eqb_refl in H.
  no_errors. split_and!; try done. by apply eq_None_not_Some.
Qed.

Lemma range_claim_is_bare_witness :
  let c := mkIPClaim (mkMeta "r" ∅ ∅) "default" 0 (mkClaimSpec "network" "" "" "" None ∅ TargetScopeRange "" None)
             (mkClaimStatus "" "" "" None None) in
  ics_Address (ic_Spec c) = "" /\ ics_PrefixLength (ic_Spec c) = None /\ ics_ReclaimPolicy (ic_Spec c) = "".
Proof. cbv zeta. apply range_claim_is_bare; vm_compute; reflexivity. Defined.

(** The scope a validated claim carries never names the reserved role. *)
Theorem validated_scope_unreserved c :
  validateIPClaim c = [] ->
  ics_Scope (ic_Spec c) !! ReservedRoleProject = None
  /\ forall role ref, ics_Scope (ic_Spec c) !! role = Some ref -> sr_Kind ref <> "" /\ sr_Name ref <> "".
Proof.
  unfold validateIPClaim. intros H. do 5 apply app_nil in H as [_ H].
  assert (Hall : forall role ref, ics_Scope (ic_Spec c) !! role = Some ref -> validate_scope_entry (role, ref) = []).
  { intros role ref Hr. apply elem_of_map_to_list in Hr. revert H. induction (map_to_list _) as [|e l IH]; cbn.
    - by apply not_elem_of_nil in Hr.
    - intros [He Hl]%app_nil. apply elem_of_cons in Hr as [<- | Hr]; [done | by apply IH]. }
  split.
  - destruct (_ !! _) as [ref|] eqn:E; [|done]. by specialize (Hall _ _ E).
  - intros role ref Hr. specialize (Hall role ref Hr). unfold validate_scope_entry in Hall.
    destruct (String.eqb role _); [done|]. no_errors. apply orb_false_iff in Hall as [H1 H2]. by no_errors.
Qed.

Lemma validated_scope_unreserved_witness :
  ics_Scope (ic_Spec (ex_claim "alpha" "")) !! ReservedRoleProject = None.
Proof. apply validated_scope_unreserved. vm_compute. reflexivity. Defined.
