(* ===== verification/Access.v ===== *)
(** * Access: [internal/access]

    Who may use what.  [class.go] and [sar.go] ask an authorizer; [crossproject.go]
    puts the gates of a cross-project pool together; [namespace.go] decides whether
    a namespace can still collect what is bound into it, over two caches with
    expiry times.

    The authorizer, the control plane's answers and the clock are not under
    [src/]: they are arguments.  Building a client is an argument's failure too.
    Proved: a class reference is always asked of the source project; only a
    definite answer refuses a namespace, and every failed lookup admits; a Live
    answer is never older than ten seconds, along any run; the cache stays within
    its bound.  The pool check asks about the caller's own project. *)

From Stdlib Require Import Ascii String.
From S2P Require Import Prelude Text Float Net Cidr Tenant Scope NetText Types Db Errors.
Open Scope string_scope.
Open Scope list_scope.
Open Scope Z_scope.

(** ** Asking the authorizer *)

Record UserInfo := mkUser { u_Name : string; u_UID : string; u_Groups : list string; u_Extra : Extras }.

(** [authorizer.AttributesRecord], the fields the checkers set. *)
Record Attributes := mkAttributes {
  at_User : UserInfo;
  at_Verb : string;
  at_APIGroup : string;
  at_Resource : string;
  at_Name : string;
  at_ResourceRequest : bool
}.

Inductive Decision := DecisionDeny | DecisionAllow | DecisionNoOpinion.

#[export] Instance Decision_eq_dec : EqDecision Decision.
Proof. solve_decision. Defined.

(** [strings.Split(s, "/")] *)
Fixpoint split_slash (s acc : string) : list string :=
  match s with
  | EmptyString => [acc]
  | String c t => if Ascii.eqb c "/" then acc :: split_slash t "" else split_slash t (acc +:+ String c "")
  end.

(** The plural is read and makes no difference. *)
Definition resourceAndNameFromPoolKey (poolKey : string) : string * string :=
  let parts := split_slash poolKey "" in
  let parts := match parts with "" :: rest => rest | _ => parts end in
  if (length parts <? 2)%nat then ("ippools", poolKey)
  else
    let plural := default "" (parts !! (length parts - 2)%nat) in
    let name := default "" (parts !! (length parts - 1)%nat) in
    if String.eqb plural "ippools" then ("ippools", name) else ("ippools", name).

Definition scopeUserToProject (u : UserInfo) (project : string) : UserInfo :=
  let extra := <[ExtraParentAPIGroup := [ParentAPIGroupProject]]> (u_Extra u) in
  let extra := <[ExtraParentType := [ParentTypeProject]]> extra in
  let extra := <[ExtraParentName := [project]]> extra in
  mkUser (u_Name u) (u_UID u) (u_Groups u) extra.

Section Authorizer.
Context (Authorize : Attributes -> Decision * option GoErr).

(** [authz.Authorize], as whether it allowed and its error. *)
Definition allowed (attrs : Attributes) : bool * option GoErr :=
  let '(decision, err) := Authorize attrs in (bool_decide (decision = DecisionAllow), err).

Definition CanUsePool (user : option UserInfo) (poolKey : string) : bool * option GoErr :=
  match user with
  | None => (false, None)
  | Some u =>
    let '(resource, name) := resourceAndNameFromPoolKey poolKey in
    allowed (mkAttributes u "use" GroupName resource name true)
  end.

Definition CanUseClass (user : option UserInfo) (project name : string) : bool * option GoErr :=
  match user with
  | None => (false, None)
  | Some u => allowed (mkAttributes (scopeUserToProject u project) "use" GroupName "ipclasses" name true)
  end.
End Authorizer.

(** ** [crossproject.go] *)

Inductive AccessErr :=
| ErrCrossProjectDenied
| AccessLoad (e : IpamErr)
| AccessAuthorize (e : GoErr).

(** [loadIPPool]: no row is [ErrPoolNotFound] here. *)
Definition loadIPPool (poolKey : string) : Txn IPPool :=
  row ← select_object poolKey;
  match row with
  | None => fail ErrPoolNotFound
  | Some r => match as_pool (ob_data r) with None => fail ErrDecode | Some p => mret p end
  end.

(** [None] admits. *)
Definition AuthorizeCrossProjectPrefix (checker : option (string -> bool * option GoErr)) (poolKey : string)
    (d : Db) : option AccessErr :=
  match checker with
  | None => Some ErrCrossProjectDenied
  | Some check =>
    match loadIPPool poolKey d with
    | Err ErrPoolNotFound => Some ErrCrossProjectDenied
    | Err e => Some (AccessLoad e)
    | Ok (pool, _) =>
      if negb (String.eqb (ps_Visibility (pl_Spec pool)) "shared") then Some ErrCrossProjectDenied
      else
        match check poolKey with
        | (_, Some e) => Some (AccessAuthorize e)
        | (false, None) => Some ErrCrossProjectDenied
        | (true, None) => None
        end
    end
  end.

(** ** [namespace.go] *)

Inductive NamespaceState := NamespaceUnknown | NamespaceLive | NamespaceTerminating | NamespaceMissing.

#[export] Instance NamespaceState_eq_dec : EqDecision NamespaceState.
Proof. solve_decision. Defined.

(** Durations in nanoseconds. *)
Definition liveTTL : Z := 10 * 10 ^ 9.
Definition servingTTL : Z := 5 * 60 * 10 ^ 9.
Definition maxLiveEntries : nat := 4096.

(** The caches: when a Live answer, and a probed control plane, expire. *)
Record Checker := mkChecker { nc_live : gmap string Z; nc_serving : gmap string Z }.

Definition newChecker : Checker := mkChecker ∅ ∅.

(** What the control plane answers to a lookup. *)
Inductive Lookup :=
| NsFound (phaseTerminating deletionTimestamp : bool)
| NsNotFound
| NsFailed (e : GoErr).

(** One call's surroundings: the instants its clock is read at, whether a client can
    be built, the lookup's answer and the probe's. *)
Record Surroundings := mkSurroundings {
  su_check : Z;                 (* looking the cache up *)
  su_probe : Z;                 (* looking the probe's cache up *)
  su_store : Z;                 (* storing an answer *)
  su_client : option GoErr;
  su_lookup : Lookup;
  su_version : option GoErr
}.

Definition expire (now : Z) (live : gmap string Z) : gmap string Z := filter (fun kv => now < kv.2) live.

Definition cacheLive (now : Z) (key : string) (c : Checker) : Checker :=
  let live :=
    if (maxLiveEntries <=? size (nc_live c))%nat then
      let live := expire now (nc_live c) in
      if (maxLiveEntries <=? size live)%nat then ∅ else live
    else nc_live c in
  mkChecker (<[key := now + liveTTL]> live) (nc_serving c).

Definition fresh (now : Z) (until : option Z) : bool :=
  match until with Some u => now <? u | None => false end.

Definition controlPlaneServes (su : Surroundings) (project : string) (c : Checker) : bool * option GoErr * Checker :=
  if fresh (su_probe su) (nc_serving c !! project) then (true, None, c)
  else match su_version su with
       | Some e => (false, Some e, c)
       | None => (true, None, mkChecker (nc_live c) (<[project := su_store su + servingTTL]> (nc_serving c)))
       end.

Definition State (su : Surroundings) (project namespace : string) (c : Checker)
    : NamespaceState * option GoErr * Checker :=
  if String.eqb project "" || String.eqb namespace "" then (NamespaceUnknown, None, c)
  else
    let key := project +:+ "/" +:+ namespace in
    if fresh (su_check su) (nc_live c !! key) then (NamespaceLive, None, c)
    else
      match su_client su with
      | Some e => (NamespaceUnknown, Some e, c)
      | None =>
        match su_lookup su with
        | NsNotFound =>
          match controlPlaneServes su project c with
          | (false, e, c) => (NamespaceUnknown, Some (GWrap "no reachable control plane" (default (GText "") e)), c)
          | (true, _, c) => (NamespaceMissing, None, c)
          end
        | NsFailed e => (NamespaceUnknown, Some e, c)
        | NsFound phase deletion =>
          if phase || deletion then (NamespaceTerminating, None, c)
          else (NamespaceLive, None, cacheLive (su_store su) key c)
        end
      end.

Section Refusal.
Context {api : ApiMachinery}.

Definition RefuseNamespace (state : NamespaceState) (namespace resource : string) : option GoErr :=
  match state with
  | NamespaceTerminating =>
    Some (GStatus (NewForbidden resource "" ("unable to create new content in namespace " +:+ namespace
                                             +:+ " because it is being terminated")))
  | NamespaceMissing => Some (GStatus (NewForbidden resource "" ("namespace " +:+ namespace +:+ " does not exist")))
  | _ => None
  end.

(** [checkNamespaceLiveness] of [ipclaim/storage.go]: no checker, or no answer,
    admits. *)
Definition checkNamespaceLiveness (nsChecker : option (string -> string -> NamespaceState * option GoErr))
    (project namespace : string) : option GoErr :=
  match nsChecker with
  | None => None
  | Some state =>
    match state project namespace with
    | (_, Some _) => None
    | (s, None) => RefuseNamespace s namespace "ipclaims"
    end
  end.
End Refusal.

(** ** What the checks establish *)

Lemma scoped_identity u project :
  FromContext (Some (u_Extra (scopeUserToProject u project)))
  = mkIdentity ParentAPIGroupProject ParentTypeProject project.
Proof.
  unfold FromContext, scopeUserToProject. cbn [u_Extra].
  rewrite lookup_insert_eq, !(lookup_insert_ne _ ExtraParentName) by done.
  rewrite lookup_insert_eq, (lookup_insert_ne _ ExtraParentType) by done. by rewrite lookup_insert_eq.
Qed.

(** Whatever project the caller's own identity names, the use of a class is
    asked of the project that holds it: same subject and groups, no other extra
    touched, and a context without a user is denied without asking. *)
Theorem CanUseClass_asks_source Authorize u project name :
  (exists attrs,
     CanUseClass Authorize (Some u) project name = allowed Authorize attrs
     /\ FromContext (Some (u_Extra (at_User attrs))) = mkIdentity ParentAPIGroupProject ParentTypeProject project
     /\ u_Name (at_User attrs) = u_Name u /\ u_Groups (at_User attrs) = u_Groups u
     /\ at_Verb attrs = "use" /\ at_Resource attrs = "ipclasses" /\ at_Name attrs = name
     /\ forall k, k <> ExtraParentAPIGroup -> k <> ExtraParentType -> k <> ExtraParentName ->
          u_Extra (at_User attrs) !! k = u_Extra u !! k)
  /\ CanUseClass Authorize None project name = (false, None).
Proof.
  split; [|done]. eexists. split; [reflexivity|]. cbn [at_User at_Verb at_Resource at_Name].
  split; [apply scoped_identity|]. split_and!; try done.
  intros k H1 H2 H3. unfold scopeUserToProject. cbn [u_Extra]. by rewrite !lookup_insert_ne by congruence.
Qed.

(** *** The pool check *)

Lemma split_slash_app a b acc : split_slash (a +:+ String "/" b) acc = split_slash a acc ++ split_slash b "".
Proof.
  revert acc. induction a as [|c a IH]; intros acc; [done|].
  change (String c a +:+ String "/" b) with (String c (a +:+ String "/" b)). cbn [split_slash].
  destruct (Ascii.eqb c "/"); by rewrite IH.
Qed.

Lemma split_slash_one s acc : no_byte "/" s = true -> split_slash s acc = [acc +:+ s].
Proof.
  revert acc. induction s as [|c s IH]; intros acc; cbn [no_byte split_slash]; [by rewrite append_nil_str|].
  rewrite Ascii.eqb_sym. destruct (Ascii.eqb c "/"); [done|]. intros H. rewrite IH by done. f_equal.
  by rewrite append_assoc_str.
Qed.

Lemma resourceAndName_key project name :
  project <> "" -> no_byte "/" name = true ->
  resourceAndNameFromPoolKey (ResourceKey (mkIdentity "" "" project) "ippools" name) = ("ippools", name).
Proof.
  intros Hp Hn. rewrite ResourceKey_tenant by done. cbn [id_Name].
  unfold resourceAndNameFromPoolKey.
  assert (Hsplit : exists l, split_slash ("project/" +:+ (project +:+ ("/" +:+ "ipam.miloapis.com/" +:+ "ippools" +:+ "/" +:+ name))) ""
                   = "project" :: l ++ ["ippools"; name]).
  { change ("project/" +:+ ?r) with ("project" +:+ String "/" r). rewrite split_slash_app.
    change ("/" +:+ "ipam.miloapis.com/" +:+ "ippools" +:+ "/" +:+ name)
      with (String "/" ("ipam.miloapis.com" +:+ String "/" ("ippools" +:+ String "/" name))).
    rewrite !split_slash_app, (split_slash_one name) by done.
    exists (split_slash project "" ++ ["ipam.miloapis.com"]). by rewrite <- app_assoc. }
  destruct Hsplit as [l ->]. cbv zeta.
  assert (Hlen : length ("project" :: l ++ ["ippools"; name]) = (length l + 3)%nat)
    by (cbn; rewrite length_app; cbn; lia).
  rewrite Hlen. destruct (Nat.ltb_spec (length l + 3) 2); [lia|].
  replace (length l + 3 - 2)%nat with (S (length l + 0)) by lia.
  replace (length l + 3 - 1)%nat with (S (length l + 1)) by lia.
  rewrite !lookup_cons, !lookup_app_r by lia.
  replace (length l + 0 - length l)%nat with O by lia. by replace (length l + 1 - length l)%nat with 1%nat by lia.
Qed.

(** The use of a pool is asked with the caller's own identity, and the project
    is dropped from the pool's key: pools of the same name in any two projects get
    the same answer, whichever of them the caller may use. *)
Theorem pool_check_ignores_project Authorize user p q name :
  p <> "" -> q <> "" -> no_byte "/" name = true ->
  CanUsePool Authorize user (ResourceKey (mkIdentity "" "" p) "ippools" name)
  = CanUsePool Authorize user (ResourceKey (mkIdentity "" "" q) "ippools" name).
Proof. intros Hp Hq Hn. unfold CanUsePool. by rewrite !resourceAndName_key. Qed.

Lemma pool_check_ignores_project_witness :
  CanUsePool (fun _ => (DecisionAllow, None)) None (ResourceKey (mkIdentity "" "" "mine") "ippools" "p")
  = CanUsePool (fun _ => (DecisionAllow, None)) None (ResourceKey (mkIdentity "" "" "theirs") "ippools" "p").
Proof. apply pool_check_ignores_project; done. Defined.

(** A cross-project pool is admitted only when a checker says so of a pool its
    owner marked shared; a missing pool, an unshared one and a denied one are told
    apart by nobody. *)
Theorem cross_project_gates checker poolKey d :
  (AuthorizeCrossProjectPrefix checker poolKey d = None <->
   exists check pool d', checker = Some check /\ loadIPPool poolKey d = Ok (pool, d')
     /\ ps_Visibility (pl_Spec pool) = VisibilityShared /\ check poolKey = (true, None))
  /\ (loadIPPool poolKey d = Err ErrPoolNotFound ->
      AuthorizeCrossProjectPrefix checker poolKey d = Some ErrCrossProjectDenied).
Proof.
  split.
  - unfold AuthorizeCrossProjectPrefix. destruct checker as [check|]; [|split; [done | by intros (? & ? & ? & ? & _)]].
    destruct (loadIPPool poolKey d) as [[pool d']|e].
    2: { split; [by destruct e | by intros (? & ? & ? & _ & ? & _)]. }
    destruct (String.eqb_spec (ps_Visibility (pl_Spec pool)) "shared") as [E|E]; cbn [negb].
    + destruct (check poolKey) as [[] [e|]] eqn:Hc; split; try done; try (by exists check, pool, d').
      all: intros (check' & ? & ? & [= <-] & _ & _ & Hc'); congruence.
    + split; [done|]. intros (? & pool' & ? & _ & [= <- _] & Hs & _). done.
  - intros H. unfold AuthorizeCrossProjectPrefix. destruct checker; [by rewrite H | done].
Qed.

(** ** Namespace liveness along any run *)

Abbreviation Call := (Surroundings * string * string)%type.
Definition call_key (c : Call) : string := c.1.2 +:+ "/" +:+ c.2.
Definition call (c : Checker) (k : Call) : Checker := (State k.1.1 k.1.2 k.2 c).2.
Definition run_calls (hist : list Call) : Checker := foldl call newChecker hist.

(** The lookup of a call found the namespace active, and was made. *)
Definition saw_live (k : Call) : Prop := su_client k.1.1 = None /\ su_lookup k.1.1 = NsFound false false.
Definition probed (k : Call) : Prop := su_version k.1.1 = None.

(** What the caches hold was seen. *)
Record grounded (hist : list Call) (c : Checker) : Prop := {
  gr_live : forall key u, nc_live c !! key = Some u ->
    exists k, k ∈ hist /\ call_key k = key /\ saw_live k /\ u = su_store k.1.1 + liveTTL;
  gr_serving : forall p u, nc_serving c !! p = Some u ->
    exists k, k ∈ hist /\ k.1.2 = p /\ probed k /\ u = su_store k.1.1 + servingTTL;
  gr_size : (size (nc_live c) <= maxLiveEntries)%nat
}.

Lemma grounded_more hist c k : grounded hist c -> grounded (hist ++ [k]) c.
Proof.
  intros [H1 H2 H3]. constructor; [| | done].
  - intros key u Hu. destruct (H1 key u Hu) as (k' & ? & ?). exists k'. rewrite elem_of_app. auto.
  - intros p u Hu. destruct (H2 p u Hu) as (k' & ? & ?). exists k'. rewrite elem_of_app. auto.
Qed.

Lemma grounded_cache hist c su p n :
  grounded hist c -> saw_live (su, p, n) ->
  grounded (hist ++ [(su, p, n)]) (cacheLive (su_store su) (p +:+ "/" +:+ n) c).
Proof.
  intros Hg Hs. destruct (grounded_more hist c (su, p, n) Hg) as [H1 H2 H3].
  unfold cacheLive. set (live := if (_ <=? _)%nat then _ else _).
  assert (Hsub : forall key u, live !! key = Some u -> nc_live c !! key = Some u).
  { intros key u. unfold live. destruct (_ <=? _)%nat; [|done]. cbv zeta. destruct (_ <=? _)%nat; [done|].
    by intros [? _]%map_lookup_filter_Some. }
  assert (Hsz : (size live < maxLiveEntries)%nat).
  { unfold live. destruct (Nat.leb_spec maxLiveEntries (size (nc_live c))); [|done]. cbv zeta.
    destruct (Nat.leb_spec maxLiveEntries (size (expire (su_store su) (nc_live c)))); [|done].
    rewrite map_size_empty. unfold maxLiveEntries. lia. }
  constructor; cbn [nc_live nc_serving]; [|done|].
  - intros key u [[<- <-] | [_ Hu]]%lookup_insert_Some.
    + exists (su, p, n). split; [apply elem_of_app; right; by apply list_elem_of_singleton | done].
    + by apply H1, Hsub.
  - rewrite map_size_insert. destruct (live !! _); unfold id; lia.
Qed.

Lemma grounded_call hist c k : grounded hist c -> grounded (hist ++ [k]) (call c k).
Proof.
  destruct k as [[su p] n]. intros Hg. unfold call, State. cbn [fst snd].
  destruct (_ || _); [by apply grounded_more|]. cbv zeta.
  destruct (fresh _ _); [by apply grounded_more|].
  destruct (su_client su) eqn:Hc; [by apply grounded_more|].
  destruct (su_lookup su) as [phase deletion| |e] eqn:Hl; [| |by apply grounded_more].
  - destruct phase, deletion; cbn [orb snd]; try by apply grounded_more. by apply grounded_cache.
  - unfold controlPlaneServes. destruct (fresh _ _); [by apply grounded_more|].
    destruct (su_version su) as [e|] eqn:Hv; [by apply grounded_more|]. cbn [snd].
    destruct (grounded_more hist c (su, p, n) Hg) as [H1 H2 H3]. constructor; cbn [nc_live nc_serving]; [done| |done].
    intros q u [[<- <-] | [_ Hu]]%lookup_insert_Some; [|by apply H2].
    exists (su, p, n). split; [apply elem_of_app; right; by apply list_elem_of_singleton | done].
Qed.

Lemma run_grounded hist : grounded hist (run_calls hist).
Proof.
  unfold run_calls. induction hist as [|k hist IH] using rev_ind.
  - assert (Hnone : forall i, (∅ : gmap string Z) !! i = None) by (intros i; apply lookup_empty).
    constructor; [| |apply Nat.le_0_l]; intros i u H; cbn [foldl newChecker nc_live nc_serving] in H; by rewrite Hnone in H.
  - rewrite foldl_app. by apply grounded_call.
Qed.

Lemma fresh_iff now until : fresh now until = true <-> exists u, until = Some u /\ now < u.
Proof.
  destruct until as [u|]; cbn; [rewrite Z.ltb_lt|]; split; try done; [by exists u | by intros (? & [= <-] & ?) | by intros (? & ? & _)].
Qed.

(** Along any run of the checker, whatever the clock and the control plane do:
    a namespace is reported Live only when this call or an earlier one found it
    active, in a lookup stored at most ten seconds before; Terminating only when
    this call found it terminating or its deletion requested; Missing only when
    this call did not find it and this call or one of the last five minutes got an
    answer from the project's control plane.  The cache never exceeds its bound. *)
Theorem namespace_answers_grounded hist su p n :
  let c := run_calls hist in
  match (State su p n c).1.1 with
  | NamespaceLive => saw_live (su, p, n)
      \/ exists k, k ∈ hist /\ call_key k = call_key (su, p, n) /\ saw_live k
                 /\ su_check su < su_store k.1.1 + liveTTL
  | NamespaceTerminating => exists phase deletion, su_lookup su = NsFound phase deletion /\ (phase || deletion) = true
  | NamespaceMissing => su_lookup su = NsNotFound
      /\ (probed (su, p, n) \/ exists k, k ∈ hist /\ k.1.2 = p /\ probed k /\ su_probe su < su_store k.1.1 + servingTTL)
  | NamespaceUnknown => True
  end
  /\ (size (nc_live (State su p n c).2) <= maxLiveEntries)%nat.
Proof.
  intros c. pose proof (run_grounded hist) as Hg. fold c in Hg. split.
  2: { apply (gr_size _ _ (grounded_call hist c (su, p, n) Hg)). }
  unfold State. destruct (_ || _); [done|]. cbv zeta.
  destruct (fresh (su_check su) _) eqn:Hf.
  { apply fresh_iff in Hf as (u & Hu & Ht). right.
    destruct (gr_live _ _ Hg _ u Hu) as (k & Hk & Hkey & Hs & ->). by exists k. }
  destruct (su_client su) eqn:Hc; [done|].
  destruct (su_lookup su) as [phase deletion| |e] eqn:Hl; [| |done].
  - destruct (phase || deletion) eqn:E; cbn [fst]; [by exists phase, deletion|].
    apply orb_false_iff in E as [-> ->]. by left.
  - unfold controlPlaneServes. destruct (fresh (su_probe su) _) eqn:Hp.
    + cbn [fst]. apply fresh_iff in Hp as (u & Hu & Ht). split; [done|]. right.
      destruct (gr_serving _ _ Hg _ u Hu) as (k & Hk & Hkey & Hs & ->). by exists k.
    + destruct (su_version su) as [e|] eqn:Hv; [done|]. cbn [fst]. split; [done|]. by left.
Qed.

(** The check fails open: a claim is refused only on a Terminating or a Missing
    answer that came without an error, and any error, an undetermined state and a
    missing checker let it through. *)
Theorem liveness_fails_open `{ApiMachinery} checker project namespace :
  match checkNamespaceLiveness checker project namespace with
  | None => match checker with
            | Some state => is_Some (state project namespace).2
                \/ (state project namespace).1 = NamespaceLive \/ (state project namespace).1 = NamespaceUnknown
            | None => True
            end
  | Some e => exists state s, checker = Some state /\ state project namespace = (s, None)
      /\ (s = NamespaceTerminating \/ s = NamespaceMissing)
      /\ option_map st_Code (statusOf e) = Some StatusForbidden
  end.
Proof.
  unfold checkNamespaceLiveness. destruct checker as [state|]; [|done].
  destruct (state project namespace) as [s [e|]] eqn:E; [by left; eexists|].
  destruct s; cbn [RefuseNamespace fst snd]; auto;
    (eexists state, _; split; [done|]; split; [done|]; split; [auto|]; cbn; by rewrite NewForbidden_code).
Qed.
