(* ===== verification/Claim.v ===== *)
(** * Claim: [internal/registry/ipam/ipclaim]

    The claim handler: create and delete of an IPClaim, for a block and for a
    range, as the REST storage drives them.  Create resolves the class in a
    transaction it rolls back, has the pool resolved level by level, each level
    committing on its own, and then allocates, records the IPAllocation and the
    claim in one transaction.  Delete publishes the Releasing phase in a first
    transaction and releases everything in a second, tried three times; a range is
    released in one.

    Arguments stand for what is not under [src/]: the API machinery's create hook
    ([rest.BeforeCreate]), its read of a claim through the generic store, its
    validation callbacks, and [apierrors.IsNotFound].  [others] is what other
    transactions commit between the handler's own; [faults] says which of the
    handler's transactions fail for reasons outside it: one that would not begin,
    run or commit leaves no writes.  A commit that went through although its answer
    was lost is not modelled: the handler would report a failure it did not have.
    The texts of a failed begin and of a failed commit are not told apart.  Metrics,
    spans and logs are left out. *)

From Stdlib Require Import Ascii String.
From S2P Require Import Prelude Text Float Net Cidr Reservation Allocate Consumption Scan Tenant Sha256 Scope.
From S2P Require Import NetText Types Db PoolObject Class Discover BoundedSearch Prefix Cascade.
From S2P Require Import Errors Validation Access.
Open Scope string_scope.
Open Scope list_scope.
Open Scope Z_scope.

(** ** Transactions of a handler *)

(** A transaction whose failures are already told to the caller. *)
Definition GTxn (A : Type) : Type := Db -> result GoErr (A * Db).

#[export] Instance gtxn_ret : MRet GTxn := fun A a d => Ok (a, d).
#[export] Instance gtxn_bind : MBind GTxn := fun A B k m d =>
  match m d with Ok (a, d') => k a d' | Err e => Err e end.

(** A call into the allocator, its error translated. *)
Definition stage {A} (tell : IpamErr -> GoErr) (m : Txn A) : GTxn A := fun d => wrap_err tell (m d).
Definition refuse {A} (e : GoErr) : GTxn A := fun _ => Err e.

Definition wrapped (what : string) (e : IpamErr) : GoErr := GWrap what (GIpam e).

(** Begin, run, and commit or roll back. *)
Definition in_gtx {A} (what : string) (m : GTxn A) (d : Db) : result GoErr A * Db :=
  match m d with
  | Ok (a, d') => if identity_ok d' then (Ok a, d') else (Err (wrapped what (ErrConstraint IdentityPoolKey)), d)
  | Err e => (Err e, d)
  end.

(** A transaction that may fail for reasons outside the handler. *)
Definition unless {A} (fault : option GoErr) (tx : Db -> result GoErr A * Db) (d : Db) : result GoErr A * Db :=
  match fault with Some e => (Err e, d) | None => tx d end.

(** A dry run's: rolled back whatever it did. *)
Definition dry_gtx {A} (m : GTxn A) (d : Db) : result GoErr A * Db :=
  match m d with Ok (a, _) => (Ok a, d) | Err e => (Err e, d) end.

(** ** The API machinery *)

(** [rest.BeforeCreate]: the create hook of the strategy, then its validation; the
    machinery also fills metadata in and checks it. *)
Class RestCreate (T : Type) := {
  obj_meta : T -> ObjectMeta;
  obj_set_meta : T -> ObjectMeta -> T;
  BeforeCreate : (T -> T) -> (T -> list FieldErr) -> T -> result GoErr T;
  BeforeCreate_ok : forall prepare validate c c', BeforeCreate prepare validate c = Ok c' ->
    exists meta, c' = obj_set_meta (prepare c) meta /\ validate c' = []
}.

Definition isDryRun (dryRun : list string) : bool := bool_decide ("All" ∈ dryRun).

(** ** Names and keys *)

Definition claimObjectKey (id : Identity) (namespace name : string) : string :=
  ApplyPrefix id ("/ipam.miloapis.com/ipclaims/" +:+ namespace +:+ "/" +:+ name).

Definition allocationObjectKey (id : Identity) (namespace name : string) : string :=
  ApplyPrefix id ("/ipam.miloapis.com/ipallocations/" +:+ namespace +:+ "/" +:+ name).

Definition allocationNameFor (namespace name : string) : string :=
  "alloc-" +:+ hexEncode (take 8 (Sum256 (Sha256.bytes_of (namespace +:+ "/" +:+ name)))).

Definition isIdentityCollision (e : IpamErr) : bool := IsUniqueViolation e [AllocAllocationKey; ObjectsPkey].
Definition isClaimNameCollision (e : IpamErr) : bool := IsUniqueViolation e [HolderConstraint].

Section Handler.
Context {api : ApiMachinery} {rest : RestCreate IPClaim}.

(** ** Refusals *)

Definition text_of (e : IpamErr) : string := error_text (GIpam e).

Definition duplicateClaimConflict (claimName : string) : GoErr :=
  GStatus (NewClaimExists "ipclaims" claimName "an IPClaim of this name already holds an allocation").

Definition retainedAllocationConflict (claimName allocationName : string) : GoErr :=
  GStatus (NewRetainedAllocation "ipclaims" claimName allocationName
             "an allocation under this identity already exists, retained by an earlier claim of the same name").

Definition mapAllocationError (e : IpamErr) (poolName : string) : GoErr :=
  match e with
  | ErrExhausted => GStatus (PoolExhausted poolName)
  | ErrPoolNotFound => GStatus (NewBadRequest "IPPool not found")
  | _ => GStatus (NewInternalError (GIpam e))
  end.

(** What Create answers when the class cannot be resolved. *)
Definition class_refusal (e : IpamErr) : GoErr :=
  match e with
  | ErrClassNotFound => GStatus (New ReasonClassNotFound (text_of e))
  | ErrNoDefaultClass => GStatus (New ReasonNoDefaultClass (text_of e))
  | ErrTenancy ErrNoTenant => GStatus (New ReasonNoProjectScope (text_of e))
  | _ => wrapped "resolve class" e
  end.

(** When the address space cannot be told. *)
Definition space_refusal (e : ScopeErr) : GoErr :=
  match e with
  | SMissingRole m => GStatus (NewScopeRolesMissing (mre_Roles m) (text_of (ErrScope e)))
  | _ => GStatus (NewBadRequest (text_of (ErrScope e)))
  end.

(** When the pool cannot be resolved. *)
Definition pool_refusal (e : IpamErr) : GoErr :=
  match e with
  | ErrNoOfferingPool => GStatus (New ReasonNoOfferingPool (text_of e))
  | ErrScope (SMissingRole m) => GStatus (NewScopeRolesMissing (mre_Roles m) (text_of e))
  | ErrExhausted => GStatus (NewInsufficientStorage (text_of e))
  | _ => wrapped "resolve pool" e
  end.

(** When the range cannot be resolved. *)
Definition range_refusal (e : IpamErr) : GoErr :=
  match e with
  | ErrClassHoldsNoRange => GStatus (NewBadRequest (text_of e))
  | ErrNoOfferingPool => GStatus (New ReasonNoOfferingPool (text_of e))
  | ErrExhausted => GStatus (NewInsufficientStorage (text_of e))
  | ErrScope (SMissingRole m) => GStatus (NewScopeRolesMissing (mre_Roles m) (text_of e))
  | _ => wrapped "resolve scope range" e
  end.

Definition allocation_refusal (claimName allocationName poolName : string) (e : IpamErr) : GoErr :=
  if isClaimNameCollision e || isIdentityCollision e then
    if isClaimNameCollision e then duplicateClaimConflict claimName
    else retainedAllocationConflict claimName allocationName
  else mapAllocationError e poolName.

Definition persist_allocation_refusal (claimName allocationName : string) (e : IpamErr) : GoErr :=
  if isIdentityCollision e then retainedAllocationConflict claimName allocationName
  else wrapped "persist IPAllocation" e.

Definition persist_claim_refusal (what claimName : string) (e : IpamErr) : GoErr :=
  if isIdentityCollision e then duplicateClaimConflict claimName else wrapped what e.

Definition bind_refusal (claimName : string) (e : IpamErr) : GoErr :=
  match e with
  | ErrScopeRangeHeld => GStatus (NewConflict "ipclaims" claimName "the range is already held by another claim")
  | ErrScopeRangeCarveMissing => GStatus (NewConflict "ipclaims" claimName "the pool was authored rather than provisioned")
  | _ => GIpam e
  end.

(** ** Create *)

(** The class's choices, written into the claim. *)
Definition default_claim (c : IPClaim) (class : ResolvedClass) : IPClaim :=
  let sp := ic_Spec c in
  ic_set_spec c
    (mkClaimSpec (rc_LocalName class) (cs_IPFamily (rc_Spec class)) (cs_AddressScope (rc_Spec class))
       (ics_Address sp) (ics_PrefixLength sp) (ics_Scope sp) (ics_Target sp) (ics_ReclaimPolicy sp) (ics_OwnerRef sp)).

Definition own_claim (c : IPClaim) (id : Identity) : IPClaim :=
  let sp := ic_Spec c in
  ic_set_spec c
    (mkClaimSpec (ics_ClassName sp) (ics_IPFamily sp) (ics_AddressScope sp) (ics_Address sp) (ics_PrefixLength sp)
       (ics_Scope sp) (ics_Target sp) (ics_ReclaimPolicy sp)
       (Some (mkObjectRef (id_APIGroup id) (id_Kind id) "" (id_Name id)))).

(** Everything before capacity is touched: the claim as it will be stored, and its
    class. *)
Definition admit_claim (fault : option IpamErr) (user : option Extras) (createValidation : option (IPClaim -> option GoErr))
    (nsChecker : option (string -> string -> NamespaceState * option GoErr)) (claim : IPClaim) (d : Db)
    : result GoErr (IPClaim * ResolvedClass) :=
  let id := FromContext user in
  claim ← BeforeCreate claim_PrepareForCreate validateIPClaim claim;
  if is_empty (ics_ClassName (ic_Spec claim)) && is_empty (ics_IPFamily (ic_Spec claim)) then
    Err (GStatus (NewBadRequest "spec.className or spec.ipFamily is required"))
  else
    class ← wrap_err class_refusal
              (reading fault (ResolveClass user (ics_ClassName (ic_Spec claim)) (ics_IPFamily (ic_Spec claim))) d);
    if negb (is_empty (ics_IPFamily (ic_Spec claim)))
       && negb (String.eqb (ics_IPFamily (ic_Spec claim)) (cs_IPFamily (rc_Spec class))) then
      Err (GStatus (New ReasonFamilyMismatch "the class hands out another family"))
    else if negb (is_empty (ics_AddressScope (ic_Spec claim)))
            && negb (String.eqb (ics_AddressScope (ic_Spec claim)) (cs_AddressScope (rc_Spec class))) then
      Err (GStatus (New ReasonAddressScopeMismatch "the class has another addressScope"))
    else
      let claim := default_claim claim class in
      match match createValidation with Some v => v claim | None => None end with
      | Some e => Err e
      | None =>
        match checkNamespaceLiveness nsChecker (Identity_Project id) (ic_Namespace claim) with
        | Some e => Err e
        | None => Ok (own_claim claim id, class)
        end
      end.

Definition bound_claim (claim : IPClaim) (cidr poolName : string) (allocation : option LocalRef) : IPClaim :=
  ic_set_status claim
    (mkClaimStatus ClaimBound cidr (icst_Address (ic_Status claim)) (Some (mkLocalRef poolName)) allocation).

Definition claim_allocation (claim : IPClaim) (class : ResolvedClass) (poolName allocationName cidr : string)
    (uniqueScope : scope_map) (scopeDigest : string) (reclaimPolicy : ReclaimPolicy) : IPAllocation :=
  mkIPAllocation (mkMeta allocationName ∅ ∅) (ic_Namespace claim)
    (mkAllocSpec (cs_IPFamily (rc_Spec class)) (mkLocalRef poolName) (rc_Name class) PurposeClaim
       (Some (mkLocalRef (ic_Name claim))) uniqueScope reclaimPolicy (ics_OwnerRef (ic_Spec claim)))
    (mkAllocStatus AllocationReady cidr "" scopeDigest).

(** The last writes: the allocation's object, then the claim's. *)
Definition persist (id : Identity) (claim : IPClaim) (alloc : IPAllocation) : GTxn IPClaim :=
  let claimKey := claimObjectKey id (ic_Namespace claim) (ic_Name claim) in
  let allocationKey := allocationObjectKey id (ic_Namespace claim) (al_Name alloc) in
  stage (persist_allocation_refusal (ic_Name claim) (al_Name alloc))
    (insertObject allocationKey "IPAllocation" (al_Name alloc) (DocAllocation alloc));;
  rv ← stage (persist_claim_refusal "persist claim" (ic_Name claim))
         (insertObject claimKey "IPClaim" (ic_Name claim) (DocClaim claim));
  mret (ic_set_rv claim rv).

Definition block_request (id : Identity) (claim : IPClaim) (class : ResolvedClass) (poolKey : string) (prefixLen : Z)
    (scopeDigest : string) (reclaimPolicy : ReclaimPolicy) : PrefixRequest :=
  mkRequest poolKey prefixLen (cs_IPFamily (rc_Spec class))
    (claimObjectKey id (ic_Namespace claim) (ic_Name claim))
    (allocationObjectKey id (ic_Namespace claim) (allocationNameFor (ic_Namespace claim) (ic_Name claim)))
    (id_Name id) scopeDigest (rc_Name class) reclaimPolicy.

(** The allocation transaction up to the point where a dry run stops. *)
Definition take_block (id : Identity) (claim : IPClaim) (class : ResolvedClass) (poolKey : string) (prefixLen : Z)
    (scopeDigest : string) (reclaimPolicy : ReclaimPolicy) : GTxn IPClaim :=
  let poolName := after_last_slash poolKey "" in
  let allocationName := allocationNameFor (ic_Namespace claim) (ic_Name claim) in
  cidr ← stage (allocation_refusal (ic_Name claim) allocationName poolName)
           (AllocatePrefix (block_request id claim class poolKey prefixLen scopeDigest reclaimPolicy));
  mret (bound_claim claim cidr poolName (Some (mkLocalRef allocationName))).

Definition record_claim (id : Identity) (claim : IPClaim) (class : ResolvedClass) (poolKey : string)
    (uniqueScope : scope_map) (scopeDigest : string) (reclaimPolicy : ReclaimPolicy) : GTxn IPClaim :=
  persist id claim
    (claim_allocation claim class (after_last_slash poolKey "")
       (allocationNameFor (ic_Namespace claim) (ic_Name claim)) (icst_AllocatedCIDR (ic_Status claim))
       uniqueScope scopeDigest reclaimPolicy).

Definition create_block (others : nat -> Db -> Db) (faults : nat -> option IpamErr) (user : option Extras)
    (dryRun : bool) (claim : IPClaim) (class : ResolvedClass) (d : Db) : result GoErr IPClaim * Db :=
  let id := FromContext user in
  let scope := ics_Scope (ic_Spec claim) in
  match EffectivePrefixLength (rc_Class class) (ics_PrefixLength (ic_Spec claim)) with
  | Err e => (Err (GStatus (New ReasonPrefixLengthRejected (text_of e))), d)
  | Ok prefixLen =>
    let reclaimPolicy := EffectiveReclaimPolicy (rc_Class class) (ics_ReclaimPolicy (ic_Spec claim)) in
    match ProjectAddressSpaceDigest (id_Name id) scope (cs_UniqueWithin (rc_Spec class)) "uniqueWithin" with
    | Err e => (Err (space_refusal e), d)
    | Ok (uniqueScope, scopeDigest) =>
      match ResolvePool (fun i => others (S i)) (fun i => faults (S i)) user class scope d with
      | (Err e, d) => (Err (pool_refusal e), d)
      | (Ok poolKey, d) =>
        let block := take_block id claim class poolKey prefixLen scopeDigest reclaimPolicy in
        unless (option_map (wrapped "begin allocation transaction") (faults O))
          (if dryRun then dry_gtx block
           else in_gtx "commit allocation transaction"
                  (claim ← block; record_claim id claim class poolKey uniqueScope scopeDigest reclaimPolicy))
          (others O d)
      end
    end
  end.

Definition take_range (id : Identity) (claim : IPClaim) (poolKey : string) : GTxn IPClaim :=
  let claimKey := claimObjectKey id (ic_Namespace claim) (ic_Name claim) in
  range ← stage (bind_refusal (ic_Name claim)) (BindScopeRange poolKey claimKey);
  let st := ic_Status claim in
  mret (bound_claim claim (IPNet_String range) (after_last_slash poolKey "") (icst_BoundAllocationRef st)).

Definition record_range_claim (id : Identity) (claim : IPClaim) : GTxn IPClaim :=
  rv ← stage (persist_claim_refusal "persist scope-range claim" (ic_Name claim))
         (insertObject (claimObjectKey id (ic_Namespace claim) (ic_Name claim)) "IPClaim" (ic_Name claim) (DocClaim claim));
  mret (ic_set_rv claim rv).

Definition createScopeRange (others : nat -> Db -> Db) (faults : nat -> option IpamErr) (user : option Extras)
    (dryRun : bool) (claim : IPClaim) (class : ResolvedClass) (d : Db) : result GoErr IPClaim * Db :=
  let id := FromContext user in
  match ResolveScopeRange (fun i => others (S i)) (fun i => faults (S i)) user class (ics_Scope (ic_Spec claim)) d with
  | (Err e, d) => (Err (range_refusal e), d)
  | (Ok poolKey, d) =>
    unless (option_map (wrapped "begin scope-range transaction") (faults O))
      (if dryRun then dry_gtx (take_range id claim poolKey)
       else in_gtx "commit scope-range transaction"
              (claim ← take_range id claim poolKey; record_range_claim id claim))
      (others O d)
  end.

(** The class is resolved in the first transaction; the last is the second of [faults],
    and the resolution of the pool, or range, has the rest. *)
Definition Create (others : nat -> Db -> Db) (faults : nat -> option IpamErr) (user : option Extras)
    (createValidation : option (IPClaim -> option GoErr))
    (nsChecker : option (string -> string -> NamespaceState * option GoErr))
    (dryRun : list string) (claim : IPClaim) (d : Db) : result GoErr IPClaim * Db :=
  match admit_claim (faults O) user createValidation nsChecker claim d with
  | Err e => (Err e, d)
  | Ok (claim, class) =>
    if String.eqb (ics_Target (ic_Spec claim)) TargetScopeRange
    then createScopeRange others (fun i => faults (S i)) user (isDryRun dryRun) claim class d
    else create_block others (fun i => faults (S i)) user (isDryRun dryRun) claim class d
  end.

(** ** Delete *)

(** The claim of a name, as the generic store reads it; an error when there is none. *)
Context (Get : string -> Db -> result GoErr IPClaim).

Definition deleteMaxAttempts : nat := 3.

Definition releasing_claim (claim : IPClaim) : IPClaim :=
  let st := ic_Status claim in
  ic_set_status claim
    (mkClaimStatus ClaimReleasing (icst_AllocatedCIDR st) (icst_Address st) (icst_PoolRef st) (icst_BoundAllocationRef st)).

Definition unbound_allocation (a : IPAllocation) : IPAllocation :=
  let sp := al_Spec a in
  mkIPAllocation (al_Meta a) (al_Namespace a)
    (mkAllocSpec (als_IPFamily sp) (als_PoolRef sp) (als_ClassName sp) (als_Purpose sp) None (als_Scope sp)
       (als_ReclaimPolicy sp) (als_OwnerRef sp))
    (al_Status a).

Definition unbindAllocation (allocationKey : string) : GTxn unit :=
  data ← (fun d => match GetObject allocationKey d with
                   | Ok (doc, d) => Ok (Some doc, d)
                   | Err ErrObjectNotFound => Ok (None, d)
                   | Err e => Err (wrapped "read retained IPAllocation" e)
                   end : result GoErr (option Document * Db));
  match data with
  | None => mret tt
  | Some doc =>
    match as_allocation doc with
    | None => refuse (GText "expected *ipam.IPAllocation")
    | Some alloc =>
      stage (wrapped "unbind retained IPAllocation") (updateObject allocationKey (DocAllocation (unbound_allocation alloc)));;
      mret tt
    end
  end.

(** What becomes of the bound allocation's object. *)
Definition dispose_allocation (id : Identity) (claim : IPClaim) (retained : list string) : GTxn unit :=
  match icst_BoundAllocationRef (ic_Status claim) with
  | None => mret tt
  | Some ref =>
    if is_empty (lr_Name ref) then mret tt
    else
      let allocationKey := allocationObjectKey id (ic_Namespace claim) (lr_Name ref) in
      if bool_decide (allocationKey ∈ retained) then unbindAllocation allocationKey
      else stage (wrapped "delete IPAllocation row") (deleteObject allocationKey);; mret tt
  end.

Definition releaseAndDelete (id : Identity) (claim : IPClaim) (claimKey : string) : GTxn bool :=
  retained ← stage (wrapped "release allocation") (Release claimKey);
  dispose_allocation id claim retained;;
  stage (wrapped "delete claim row") (deleteObject claimKey);;
  mret (negb (bool_decide (retained = []))).

(** The loop over the attempts, [n] of them left, the next numbered [i]. *)
Fixpoint attempts (others : nat -> Db -> Db) (faults : nat -> option GoErr) (id : Identity) (claim : IPClaim)
    (claimKey : string) (n i : nat) (d : Db) : result GoErr bool * Db :=
  match n with
  | O => (Err (GText "no attempt"), d)
  | S n =>
    let d := others i d in
    match unless (faults i) (in_gtx "commit release transaction" (releaseAndDelete id claim claimKey)) d with
    | (Ok retained, d) => (Ok retained, d)
    | (Err e, d) => match n with O => (Err e, d) | S _ => attempts others faults id claim claimKey n (S i) d end
    end
  end.

(** The claim handed back, and whether it was deleted at once.  The first of [faults] is
    the Releasing transaction's, the rest the attempts'. *)
Definition delete_block (others : nat -> Db -> Db) (faults : nat -> option GoErr) (id : Identity) (claim : IPClaim)
    (d : Db) : result GoErr (IPClaim * bool) * Db :=
  let claimKey := claimObjectKey id (ic_Namespace claim) (ic_Name claim) in
  let releasing := releasing_claim claim in
  match unless (faults O)
          (in_gtx "commit releasing transaction"
             (stage (wrapped "publish releasing phase") (updateObject claimKey (DocClaim releasing)))) (others O d) with
  | (Err e, d) => (Err e, d)
  | (Ok rv, d) =>
    match attempts (fun i => others (S i)) (fun i => faults (S i)) id claim claimKey deleteMaxAttempts O d with
    | (Err e, d) => (Err (GWrap "release allocation after 3 attempts" e), d)
    | (Ok _, d) => (Ok (ic_set_rv releasing rv, true), d)
    end
  end.

Definition release_range (id : Identity) (claim : IPClaim) : GTxn unit :=
  let claimKey := claimObjectKey id (ic_Namespace claim) (ic_Name claim) in
  poolKey ← stage GIpam (FindScopeRange claimKey);
  (if negb (is_empty poolKey) then
     stage (fun e => match e with
                     | ErrScopeRangeOccupied => GStatus (NewConflict "ipclaims" (ic_Name claim) (text_of e))
                     | _ => GIpam e
                     end) (ReleaseScopeRange poolKey)
   else mret tt);;
  stage (wrapped "delete scope-range claim row") (deleteObject claimKey);;
  mret tt.

Definition deleteScopeRange (others : nat -> Db -> Db) (faults : nat -> option GoErr) (id : Identity)
    (claim : IPClaim) (d : Db) : result GoErr (IPClaim * bool) * Db :=
  match unless (faults O) (in_gtx "commit scope-range release transaction" (release_range id claim)) (others O d) with
  | (Err e, d) => (Err e, d)
  | (Ok _, d) => (Ok (releasing_claim claim, true), d)
  end.

Definition Delete (others : nat -> Db -> Db) (faults : nat -> option GoErr) (user : option Extras)
    (deleteValidation : option (IPClaim -> option GoErr)) (dryRun : list string) (name : string) (d : Db)
    : result GoErr (IPClaim * bool) * Db :=
  match Get name d with
  | Err e => (Err e, d)
  | Ok claim =>
    match match deleteValidation with Some v => v claim | None => None end with
    | Some e => (Err e, d)
    | None =>
      if isDryRun dryRun then (Ok (claim, true), d)
      else if String.eqb (ics_Target (ic_Spec claim)) TargetScopeRange
      then deleteScopeRange others faults (FromContext user) claim d
      else delete_block others faults (FromContext user) claim d
    end
  end.

(** The items of a list, one after another: a missing one is skipped, the other
    failures are joined at the end. *)
Fixpoint delete_all (others : nat -> nat -> Db -> Db) (faults : nat -> nat -> option GoErr) (IsNotFound : GoErr -> bool)
    (user : option Extras) (deleteValidation : option (IPClaim -> option GoErr)) (dryRun : list string)
    (i : nat) (names : list string) (d : Db) : list IPClaim * list GoErr * Db :=
  match names with
  | [] => ([], [], d)
  | name :: rest =>
    match Delete (others i) (faults i) user deleteValidation dryRun name d with
    | (Err e, d) =>
      let '(deleted, errs, d) := delete_all others faults IsNotFound user deleteValidation dryRun (S i) rest d in
      (deleted, if IsNotFound e then errs else GWrap ("delete claim " +:+ name) e :: errs, d)
    | (Ok (c, _), d) =>
      let '(deleted, errs, d) := delete_all others faults IsNotFound user deleteValidation dryRun (S i) rest d in
      (c :: deleted, errs, d)
    end
  end.

Definition DeleteCollection (others : nat -> nat -> Db -> Db) (faults : nat -> nat -> option GoErr)
    (IsNotFound : GoErr -> bool) (user : option Extras) (deleteValidation : option (IPClaim -> option GoErr))
    (dryRun : list string) (listed : result GoErr (list IPClaim)) (d : Db) : list IPClaim * option GoErr * Db :=
  match listed with
  | Err e => ([], Some (GWrap "list claims for deletecollection" e), d)
  | Ok claims =>
    let '(deleted, errs, d) :=
      delete_all others faults IsNotFound user deleteValidation dryRun O (map ic_Name claims) d in
    (deleted, match errs with [] => None | _ => Some (GJoin errs) end, d)
  end.

End Handler.
