(* ===== verification/ClaimLaws.v ===== *)
(** * ClaimLaws: what creating and deleting a claim promises

    Create either leaves what pool resolution committed and nothing of its own, or
    a claim, its allocation and the row that holds its block, in a consistent
    ledger.  Delete takes away what Create recorded and nothing anyone else
    holds. *)

From Stdlib Require Import Ascii String.
From S2P Require Import Prelude Text Float Net Cidr Reservation Allocate Consumption Scan Tenant Sha256 Scope.
From S2P Require Import NetText Types Db PoolObject Class Discover BoundedSearch Prefix PoolInvariant.
From S2P Require Import PoolWrites Cascade Provision Range ObjectLaws Errors Validation Access Claim.
Open Scope string_scope.
Open Scope list_scope.
Open Scope Z_scope.

(** ** Transactions *)

Lemma stage_ok {A} tell (m : Txn A) d x : stage tell m d = Ok x <-> m d = Ok x.
Proof. unfold stage. destruct (m d); cbn; split; congruence. Qed.

Lemma in_gtx_ok {A} what (m : GTxn A) d a d' :
  in_gtx what m d = (Ok a, d') -> m d = Ok (a, d') /\ identity_ok d' = true.
Proof. unfold in_gtx. destruct (m d) as [[a1 d1]|]; [|done]. destruct (identity_ok d1) eqn:E; [|done]. by intros [= <- <-]. Qed.

Lemma in_gtx_err {A} what (m : GTxn A) d e d' : in_gtx what m d = (Err e, d') -> d' = d.
Proof. unfold in_gtx. destruct (m d) as [[a1 d1]|]; [destruct (identity_ok d1)|]; by intros [= _ <-]. Qed.

Lemma gtxn_bind_ok {A B} (m : GTxn A) (k : A -> GTxn B) d x :
  (m ≫= k) d = Ok x -> exists a d1, m d = Ok (a, d1) /\ k a d1 = Ok x.
Proof. unfold mbind, gtxn_bind. destruct (m d) as [[a d1]|]; [|done]. intros H. by exists a, d1. Qed.

(** ** Classes *)

(** Every class on record states counts the allocator can hold, as every validated
    class does. *)
Definition class_counted (c : IPClass) : Prop := counts_ok (reservationFrom (cs_Reservations (cl_Spec c))).
Definition classes_counted (d : Db) : Prop :=
  forall k r c, db_objects d !! k = Some r -> ob_data r = DocClass c -> class_counted c.

(** The same, as it is computed. *)
Definition counted_row (kr : string * ObjRow) : bool :=
  match as_class (ob_data kr.2) with
  | Some c => let r := reservationFrom (cs_Reservations (cl_Spec c)) in (Leading r <? 2 ^ 63) && (Trailing r <? 2 ^ 63)
  | None => true
  end.

Lemma counted_all d : forallb counted_row (map_to_list (db_objects d)) = true -> classes_counted d.
Proof.
  rewrite forallb_forall. intros H k r c Hr Hc.
  specialize (H (k, r) ltac:(by apply list_elem_of_In, elem_of_map_to_list)). unfold counted_row in H. cbn [snd] in H.
  rewrite Hc in H. apply andb_true_iff in H as [H1%Z.ltb_lt H2%Z.ltb_lt]. by split.
Qed.

Lemma loadClassIn_counted d project name c d' :
  classes_counted d -> loadClassIn project name d = Ok (c, d') -> class_counted c /\ d' = d.
Proof.
  intros Hc. unfold loadClassIn, select_object, read, mbind, txn_bind.
  destruct (db_objects d !! _) as [r|] eqn:Hr; [|done]. destruct (ob_data r) eqn:Hd; try done. cbn.
  intros [= <- <-]. split; [by eapply Hc | done].
Qed.

Lemma resolveClassIn_counted d project name rc d' :
  classes_counted d -> resolveClassIn project name d = Ok (rc, d') -> class_counted (rc_Class rc) /\ d' = d.
Proof.
  intros Hc. unfold resolveClassIn, mbind, txn_bind.
  destruct (loadClassIn project name d) as [[c d1]|] eqn:H1; [|done].
  apply loadClassIn_counted in H1 as [H1 ->]; [|done].
  destruct (cs_Source (cl_Spec c)) as [src|]; [|by intros [= <- <-]].
  destruct (loadClassIn _ _ d) as [[c2 d2]|] eqn:H2; [|done]. apply loadClassIn_counted in H2 as [H2 ->]; [|done].
  destruct (cs_Source (cl_Spec c2)); [done|]. by intros [= <- <-].
Qed.

Lemma pick_family_counted d project family names rc d' :
  classes_counted d -> pick_family project family names d = Ok (rc, d') -> class_counted (rc_Class rc).
Proof.
  intros Hc. induction names as [|name rest IH]; [done|]. cbn [pick_family]. unfold mbind at 1, txn_bind at 1.
  destruct (resolveClassIn project name d) as [[r d1]|] eqn:H1; [|done].
  apply resolveClassIn_counted in H1 as [H1 ->]; [|done]. destruct (String.eqb _ _); [by intros [= <- _] | done].
Qed.

Lemma ResolveClass_counted d user className family rc d' :
  classes_counted d -> ResolveClass user className family d = Ok (rc, d') -> class_counted (rc_Class rc).
Proof.
  intros Hc. unfold ResolveClass, LoadClass, LoadDefaultClass, requireTenant, lift, read, mbind, txn_bind.
  destruct (negb _).
  - destruct (RequireTenant user); [|done]. cbn. intros [H _]%resolveClassIn_counted; done.
  - destruct (String.eqb family ""); [done|]. destruct (RequireTenant user); [|done]. cbn. by apply pick_family_counted.
Qed.

Lemma ancestry_counted d leaf c l :
  classes_counted d -> ancestry d leaf c l -> Forall (fun r => class_counted (rc_Class r)) l.
Proof.
  intros Hc H. induction H as [|c p rest _ Hp _ _ IH]; constructor; [|done].
  by apply resolveClassIn_counted in Hp as [Hp _].
Qed.

Lemma plan_chain_counted c s chain : forall levels,
  Forall (fun r => class_counted (rc_Class r)) chain -> plan_chain c s chain = Ok levels -> Forall level_counts levels.
Proof.
  induction chain as [|class rest IH]; intros levels Hc; cbn [plan_chain]; [by intros [= <-]|].
  apply Forall_cons in Hc as [H1 H2].
  intros (level & Hl & (ls & Hls & [= <-])%result_bind_ok)%result_bind_ok.
  constructor; [|by apply IH]. apply plan_level_spec in Hl as (E & _). unfold level_counts. by rewrite E.
Qed.

Lemma planLevels_counted user chain s levels :
  Forall (fun r => class_counted (rc_Class r)) chain -> planLevels user chain s = Ok levels -> Forall level_counts levels.
Proof.
  intros Hc (c & _ & (ls & Hls & [= <-])%result_bind_ok)%result_bind_ok. apply Forall_rev. by eapply plan_chain_counted.
Qed.

(** The plans of a claim, for a block and for a range. *)
Lemma plans_counted d user leaf s levels :
  classes_counted d -> class_counted (rc_Class leaf) ->
  rolled_back (PlanCascade user leaf s) d = Ok levels \/ rolled_back (PlanScopeRangeCascade user leaf s) d = Ok levels ->
  Forall level_counts levels.
Proof.
  intros Hc Hl. unfold rolled_back, PlanCascade, PlanScopeRangeCascade, lift, mbind, txn_bind.
  destruct (LoadAncestry leaf d) as [[anc d1]|] eqn:Ha; [|by intros [|]].
  assert (Forall (fun r => class_counted (rc_Class r)) anc) as Hanc.
  { pose proof (LoadAncestry_ro leaf d anc d1 Ha) as ->. apply LoadAncestry_iff in Ha as (Ha & _).
    by eapply ancestry_counted. }
  intros [H | H].
  - destruct (planLevels user anc s) eqn:Hp; [|done]. injection H as <-. by eapply planLevels_counted.
  - destruct (planLevels user (leaf :: anc) s) eqn:Hp; [|done]. injection H as <-.
    eapply planLevels_counted; [|exact Hp]. by constructor.
Qed.

(** ** Rows of one ledger *)

(** Two rows of a consistent ledger are compatible. *)
Lemma rows_compatible d a b : inv d -> a ∈ db_allocs d -> b ∈ db_allocs d -> a <> b -> compatible a b.
Proof.
  intros Hi. generalize (inv_apart _ _ Hi). induction (db_allocs d) as [|r rows IH]; intros Hp Ha Hb Hne.
  { by apply not_elem_of_nil in Ha. }
  inversion Hp as [|? ? Hr Hp']; subst. rewrite Forall_forall in Hr.
  apply elem_of_cons in Ha as [-> | Ha], Hb as [Eb | Hb]; try by subst.
  - by apply Hr.
  - subst r. by apply compatible_sym, Hr.
  - by apply IH.
Qed.

(** One row holds a claim. *)
Lemma holder_unique d a b ck :
  inv d -> a ∈ db_allocs d -> b ∈ db_allocs d -> ar_claim_key a = Some ck -> ar_claim_key b = Some ck -> a = b.
Proof. intros Hi Ha Hb. apply (claim_inj (db_allocs d)); [apply (inv_claim_keys _ _ Hi) | done | done]. Qed.

Section Laws.
Context {api : ApiMachinery} {rest : RestCreate IPClaim}.

(** ** Admission *)

Lemma admit_counted fault user cv ns claim0 d claim class :
  classes_counted d -> admit_claim fault user cv ns claim0 d = Ok (claim, class) -> class_counted (rc_Class class).
Proof.
  intros Hc. unfold admit_claim. intros (c & _ & H)%result_bind_ok. destruct (_ && _); [done|].
  apply result_bind_ok in H as (cl & Hcl & H). unfold reading, rolled_back in Hcl. destruct fault; [done|].
  destruct (ResolveClass user _ _ d) as [[rc d1]|] eqn:Hr; [|done]. injection Hcl as ->.
  apply ResolveClass_counted in Hr; [|done]. destruct (_ && _); [done|]. destruct (_ && _); [done|].
  cbv zeta in H. repeat (case_match; try done); by injection H as _ <-.
Qed.

(** ** The last writes *)

Lemma persist_run id claim alloc d c d' :
  let ck := claimObjectKey id (ic_Namespace claim) (ic_Name claim) in
  let ak := allocationObjectKey id (ic_Namespace claim) (al_Name alloc) in
  inv d -> persist id claim alloc d = Ok (c, d') ->
  c = ic_set_rv claim (db_rv d') /\ inv d' /\ db_allocs d' = db_allocs d /\ same_ranges d d'
  /\ db_identity d' = db_identity d
  /\ db_objects d !! ak = None /\ db_objects d !! ck = None /\ ck <> ak
  /\ exists rv, db_objects d' = <[ck := mkObj "IPClaim" (ic_Name claim) (DocClaim claim) (db_rv d')]>
                  (<[ak := mkObj "IPAllocation" (al_Name alloc) (DocAllocation alloc) rv]> (db_objects d)).
Proof.
  intros ck ak Hi H. unfold persist in H. fold ck ak in H.
  apply gtxn_bind_ok in H as (rv1 & d1 & H1%stage_ok & H).
  apply gtxn_bind_ok in H as (rv2 & d2 & H2%stage_ok & H). injection H as <- <-.
  apply insert_plain in H1 as (Hi1 & Hn1 & Ho1 & Ha1 & Hid1 & Hr1 & Hv1); [|done..].
  apply insert_plain in H2 as (Hi2 & Hn2 & Ho2 & Ha2 & Hid2 & Hr2 & Hv2); [|done..].
  assert (Hne : ck <> ak) by (intros E; by rewrite Ho1, E, lookup_insert_eq in Hn2).
  rewrite Ho1, lookup_insert_ne in Hn2 by done. cbn in Ho1, Ho2. subst rv1 rv2. rewrite Ho1 in Ho2.
  split_and!; try done; [congruence | | congruence | by eexists].
  intros k p. etransitivity; [apply Hr2 | apply Hr1].
Qed.

(** ** Creating a block's claim *)

Lemma take_block_ok id claim class poolKey u dg policy d c d' :
  take_block id claim class poolKey u dg policy d = Ok (c, d') ->
  exists s, AllocatePrefix (block_request id claim class poolKey u dg policy) d = Ok (s, d')
    /\ c = bound_claim claim s (after_last_slash poolKey "")
             (Some (mkLocalRef (allocationNameFor (ic_Namespace claim) (ic_Name claim)))).
Proof.
  intros H. apply gtxn_bind_ok in H as (s & d1 & H%stage_ok & [= <- <-]). by exists s.
Qed.

(** A row under the claim's key keeps any other row from taking it. *)
Lemma take_block_key_free id claim class poolKey u dg policy d c d' r :
  inv d -> r ∈ db_allocs d -> ar_claim_key r = Some (claimObjectKey id (ic_Namespace claim) (ic_Name claim)) ->
  take_block id claim class poolKey u dg policy d <> Ok (c, d').
Proof.
  intros Hi Hr Hk H. apply take_block_ok in H as (s & H & _).
  apply AllocatePrefix_run in H as (p & n & res & _ & _ & _ & _ & _ & Ha & _ & Hi' & _); [|done].
  pose proof (inv_claim_keys _ _ Hi') as Hnd. rewrite Ha, !omap_app in Hnd.
  apply NoDup_app in Hnd as (_ & Hd & _). refine (Hd (claimObjectKey id (ic_Namespace claim) (ic_Name claim)) _ _).
  - apply list_elem_of_omap. by exists r.
  - apply elem_of_app. right. cbn. left.
Qed.

(** The allocation transaction as a whole. *)
Lemma block_transaction_ok id claim class poolKey u uniqueScope dg policy d c d' :
  let req := block_request id claim class poolKey u dg policy in
  let ck := claimObjectKey id (ic_Namespace claim) (ic_Name claim) in
  let ak := allocationObjectKey id (ic_Namespace claim) (allocationNameFor (ic_Namespace claim) (ic_Name claim)) in
  let poolName := after_last_slash poolKey "" in
  inv d ->
  (claim ← take_block id claim class poolKey u dg policy;
   record_claim id claim class poolKey uniqueScope dg policy) d = Ok (c, d') ->
  inv d' /\ exists p n res rv, let row := claim_row req (effective_digest req) n in
    pool_range d' poolKey p /\ inside p n /\ pones n = u
    /\ db_allocs d' = db_allocs d ++ res ++ [row] /\ Forall (reservation_of poolKey) res
    /\ let bound := bound_claim claim (IPNet_String n) poolName
                      (Some (mkLocalRef (allocationNameFor (ic_Namespace claim) (ic_Name claim)))) in
       let alloc := claim_allocation bound class poolName
                      (allocationNameFor (ic_Namespace claim) (ic_Name claim)) (IPNet_String n) uniqueScope dg policy in
       c = ic_set_rv bound (db_rv d') /\ ck <> ak
       /\ db_objects d' !! ck = Some (mkObj "IPClaim" (ic_Name claim) (DocClaim bound) (db_rv d'))
       /\ db_objects d' !! ak = Some (mkObj "IPAllocation" (al_Name alloc) (DocAllocation alloc) rv)
       /\ forall k o, k <> ck -> k <> ak -> db_objects d !! k = Some o -> as_pool (ob_data o) = None ->
            db_objects d' !! k = Some o.
Proof.
  intros req ck ak poolName Hi H. apply gtxn_bind_ok in H as (bound & d1 & H1 & H).
  apply take_block_ok in H1 as (s & H1 & ->). pose proof (AllocatePrefix_keeps _ _ _ _ H1) as Hk.
  apply AllocatePrefix_run in H1 as (p & n & res & Hp & Hin & Hu & -> & _ & Ha & Hres & Hi1 & Hr1 & _); [|done].
  unfold record_claim in H. apply persist_run in H as (Hc & Hi' & Ha' & Hr' & _ & _ & _ & Hne & rv & Ho'); [|done].
  split; [done|]. exists p, n, res, rv. cbn zeta. split; [by apply Hr', Hr1|]. split; [done|]. split; [done|].
  split; [by rewrite Ha'|]. split; [done|]. split; [exact Hc|]. split; [exact Hne|]. rewrite Ho'. split; [|split].
  - apply lookup_insert_eq.
  - rewrite lookup_insert_ne by exact Hne. apply lookup_insert_eq.
  - intros k o Hnc Hna Hok Hpl. rewrite !lookup_insert_ne by (apply not_eq_sym; assumption). by apply (kp_plain _ _ Hk).
Qed.

(** ** Creating a range's claim *)

Lemma take_range_ok id claim poolKey d c d' :
  take_range id claim poolKey d = Ok (c, d') ->
  exists n, BindScopeRange poolKey (claimObjectKey id (ic_Namespace claim) (ic_Name claim)) d = Ok (n, d')
    /\ c = bound_claim claim (IPNet_String n) (after_last_slash poolKey "") (icst_BoundAllocationRef (ic_Status claim)).
Proof. intros H. apply gtxn_bind_ok in H as (n & d1 & H%stage_ok & [= <- <-]). by exists n. Qed.

Lemma take_range_key_free id claim poolKey d c d' r :
  inv d -> r ∈ db_allocs d -> ar_claim_key r = Some (claimObjectKey id (ic_Namespace claim) (ic_Name claim)) ->
  ar_purpose r = PurposeClaim -> take_range id claim poolKey d <> Ok (c, d').
Proof.
  intros Hi Hr Hk Hp H. apply take_range_ok in H as (n & H & _).
  destruct (bind_took _ _ _ _ _ Hi H) as (q & Hq & (_ & Hqp & _)%unheld_iff & _ & Ha & Hi' & Hin & _).
  assert (Hr' : r ∈ db_allocs d').
  { rewrite Ha. apply list_elem_of_fmap. exists r. split; [|done]. unfold unheld_carve.
    rewrite (bool_decide_false (ar_purpose r = _)) by (by rewrite Hp). by rewrite andb_false_r. }
  pose proof (holder_unique d' _ _ _ Hi' Hin Hr' eq_refl Hk) as E. subst r. cbn in Hp. congruence.
Qed.

Lemma FindScopeRange_allocs ck d d' k :
  db_allocs d' = db_allocs d -> FindScopeRange ck d = Ok (k, d) -> FindScopeRange ck d' = Ok (k, d').
Proof. intros E. unfold FindScopeRange, read, mbind, txn_bind. rewrite E. cbn. by intros [= ->]. Qed.

Lemma BindScopeRange_held_allocs k ck d d' :
  db_allocs d' = db_allocs d -> BindScopeRange k ck d = Err ErrScopeRangeHeld -> BindScopeRange k ck d' = Err ErrScopeRangeHeld.
Proof.
  intros E. unfold BindScopeRange, set_claim_where, read, mbind, txn_bind. cbv zeta. rewrite E.
  destruct ((_ <? _) || _); [done|]. destruct (List.filter (unheld_carve k) (db_allocs d)); [|done]. cbn [map].
  cbn [set_allocs db_allocs]. rewrite ?E. by destruct (List.find _ _).
Qed.

Lemma range_transaction_ok id claim poolKey d c d' :
  let ck := claimObjectKey id (ic_Namespace claim) (ic_Name claim) in
  inv d -> (claim ← take_range id claim poolKey; record_range_claim id claim) d = Ok (c, d') ->
  inv d' /\ exists n,
    (exists r, r ∈ db_allocs d /\ unheld_carve poolKey r = true /\ n = ar_cidr r)
    /\ FindScopeRange ck d' = Ok (poolKey, d')
    /\ (ck <> poolKey -> forall ck', BindScopeRange poolKey ck' d' = Err ErrScopeRangeHeld)
    /\ let bound := bound_claim claim (IPNet_String n) (after_last_slash poolKey "")
                      (icst_BoundAllocationRef (ic_Status claim)) in
       c = ic_set_rv bound (db_rv d')
       /\ db_objects d' !! ck = Some (mkObj "IPClaim" (ic_Name claim) (DocClaim bound) (db_rv d')).
Proof.
  intros ck Hi H. apply gtxn_bind_ok in H as (bound & d1 & H1 & H). apply take_range_ok in H1 as (n & H1 & ->). fold ck in H1.
  destruct (bind_exclusive _ _ _ _ _ Hi H1) as (Hn & Hi1 & Hf & Hex).
  apply gtxn_bind_ok in H as (rv & d2 & H2%stage_ok & [= <- <-]). fold ck in H2.
  apply insert_plain in H2 as (Hi2 & _ & Ho2 & Ha2 & _ & _ & Hv2); [|done..]. split; [done|]. exists n.
  split; [done|]. split; [by apply (FindScopeRange_allocs _ d1)|].
  split; [intros Hne ck'; by apply (BindScopeRange_held_allocs _ _ d1); [|apply Hex]|].
  cbv zeta. rewrite Hv2. split; [done|]. rewrite Ho2. apply lookup_insert_eq.
Qed.

(** ** Create *)

(** The pool Create resolves: of the class's parents for a block, of the class
    itself for a range. *)
Definition is_range (claim : IPClaim) : bool := String.eqb (ics_Target (ic_Spec claim)) TargetScopeRange.

Definition resolution (others : nat -> Db -> Db) (faults : nat -> option IpamErr) (user : option Extras)
    (claim : IPClaim) (class : ResolvedClass) (d : Db) : result IpamErr string * Db :=
  let others := fun i => others (S i) in let faults := fun i => faults (S (S i)) in
  if is_range claim then ResolveScopeRange others faults user class (ics_Scope (ic_Spec claim)) d
  else ResolvePool others faults user class (ics_Scope (ic_Spec claim)) d.

Lemma resolution_cases others faults user claim class d :
  (exists e, resolution others faults user claim class d = (Err e, d))
  \/ exists plan, (forall d levels, classes_counted d -> class_counted (rc_Class class) ->
                      rolled_back plan d = Ok levels -> Forall level_counts levels)
       /\ resolution others faults user claim class d
          = resolve_levels (fun i => others (S i)) (fun i => faults (S (S i))) plan class (ics_Scope (ic_Spec claim)) d.
Proof.
  unfold resolution, ResolveScopeRange, ResolvePool. destruct (is_range claim).
  - destruct (cs_PoolPer _); [left; by eexists | right; eexists; split; [|done]].
    intros d0 levels Hc Hl H. exact (plans_counted d0 user class _ levels Hc Hl (or_intror H)).
  - right; eexists; split; [|done]. intros d0 levels Hc Hl H. exact (plans_counted d0 user class _ levels Hc Hl (or_introl H)).
Qed.

(** The classes are sound when the claim is admitted and when its plan is read. *)
Definition classes_sound (others : nat -> Db -> Db) (d : Db) : Prop :=
  classes_counted d /\ classes_counted (others 1%nat d).

Lemma plan_sound others faults plan d :
  (forall d levels, classes_counted d -> rolled_back plan d = Ok levels -> Forall level_counts levels) ->
  classes_sound others d -> plan_counts (fun i => others (S i)) faults plan d.
Proof. intros Hp [_ Hc] levels. unfold reading. destruct (faults O); [done|]. by apply Hp. Qed.

Lemma resolution_inv others faults user cv ns claim0 claim class d r d' :
  (forall i d, inv d -> inv (others i d)) -> inv d -> classes_sound others d ->
  admit_claim (faults O) user cv ns claim0 d = Ok (claim, class) ->
  resolution others faults user claim class d = (r, d') -> inv d'.
Proof.
  intros Ho Hi Hc Hadm. pose proof (admit_counted _ _ _ _ _ _ _ _ (proj1 Hc) Hadm) as Hcl.
  destruct (resolution_cases others faults user claim class d) as [[e ->] | (plan & Hp & ->)]; [by intros [= <- <-]|].
  intros H. refine (proj1 (resolve_levels_run _ _ _ _ _ _ _ _ _ _ Hi H)); [auto|]. apply plan_sound; eauto.
Qed.

Lemma resolution_keep others faults user cv ns claim0 claim class d x d' r :
  (forall i d, inv d -> inv (others i d)) -> (forall i d, r ∈ db_allocs d -> r ∈ db_allocs (others i d)) ->
  inv d -> classes_sound others d -> admit_claim (faults O) user cv ns claim0 d = Ok (claim, class) ->
  resolution others faults user claim class d = (x, d') -> r ∈ db_allocs d -> r ∈ db_allocs d'.
Proof.
  intros Ho Hk Hi Hc Hadm. pose proof (admit_counted _ _ _ _ _ _ _ _ (proj1 Hc) Hadm) as Hcl.
  destruct (resolution_cases others faults user claim class d) as [[e ->] | (plan & Hp & ->)]; [by intros [= _ <-]|].
  intros H Hr. refine (resolve_levels_keep (fun i => others (S i)) _ _ _ _ _ _ _ _ (fun i => Ho (S i)) (fun i => Hk (S i)) _ Hi Hr H).
  apply plan_sound; eauto.
Qed.

(** The transaction that allocates, once the pool is resolved; [u], [uniqueScope] and
    [dg] are of no use to a range. *)
Definition allocating (user : option Extras) (claim : IPClaim) (class : ResolvedClass) (poolKey : string) (u : Z) (dg : string)
    : GTxn IPClaim :=
  let id := FromContext user in
  if is_range claim then take_range id claim poolKey
  else take_block id claim class poolKey u dg (EffectiveReclaimPolicy (rc_Class class) (ics_ReclaimPolicy (ic_Spec claim))).

Definition recording (user : option Extras) (claim bound : IPClaim) (class : ResolvedClass) (poolKey : string)
    (uniqueScope : scope_map) (dg : string) : GTxn IPClaim :=
  let id := FromContext user in
  if is_range claim then record_range_claim id bound
  else record_claim id bound class poolKey uniqueScope dg
         (EffectiveReclaimPolicy (rc_Class class) (ics_ReclaimPolicy (ic_Spec claim))).

(** Create in one shape: refused before any pool is resolved, refused by the
    resolution or for want of the last transaction, or decided by that transaction. *)
Lemma Create_cases others faults user cv ns dr claim0 d r d' :
  Create others faults user cv ns dr claim0 d = (r, d') ->
  (exists e, r = Err e /\ d' = d /\ forall dr', Create others faults user cv ns dr' claim0 d = (Err e, d))
  \/ exists claim class r1 d1, admit_claim (faults O) user cv ns claim0 d = Ok (claim, class)
       /\ resolution others faults user claim class d = (r1, d1)
       /\ ((exists e, r = Err e /\ (d' = d1 \/ d' = others O d1)
               /\ forall dr', Create others faults user cv ns dr' claim0 d = (Err e, d'))
           \/ exists poolKey u uniqueScope dg what, r1 = Ok poolKey
                /\ (is_range claim = false ->
                     EffectivePrefixLength (rc_Class class) (ics_PrefixLength (ic_Spec claim)) = Ok u
                     /\ ProjectAddressSpaceDigest (id_Name (FromContext user)) (ics_Scope (ic_Spec claim))
                          (cs_UniqueWithin (rc_Spec class)) "uniqueWithin" = Ok (uniqueScope, dg))
                /\ forall dr', Create others faults user cv ns dr' claim0 d
                    = if isDryRun dr' then dry_gtx (allocating user claim class poolKey u dg) (others O d1)
                      else in_gtx what (bound ← allocating user claim class poolKey u dg;
                                        recording user claim bound class poolKey uniqueScope dg) (others O d1)).
Proof.
  intros H. assert (Hd : Create others faults user cv ns dr claim0 d = (r, d')) by done. unfold Create in H.
  destruct (admit_claim (faults O) user cv ns claim0 d) as [[claim class]|e] eqn:Hadm.
  2: { injection H as <- <-. left. exists e. split_and!; try done. intros dr'. unfold Create. by rewrite Hadm. }
  destruct (resolution others faults user claim class d) as [r1 d1] eqn:Hres.
  set (faults' := fun i => faults (S i)) in *.
  assert (HC : forall dr', Create others faults user cv ns dr' claim0 d
    = if is_range claim then createScopeRange others faults' user (isDryRun dr') claim class d
      else create_block others faults' user (isDryRun dr') claim class d).
  { intros dr'. unfold Create. by rewrite Hadm. }
  setoid_rewrite HC. setoid_rewrite HC in Hd. clear H HC. unfold resolution in Hres. unfold allocating, recording.
  destruct (is_range claim) eqn:Ht.
  - right. exists claim, class, r1, d1. split; [done|]. split; [unfold resolution; by rewrite Ht|].
    unfold createScopeRange in *. subst faults'. cbv beta zeta in *. rewrite Hres in *. destruct r1 as [poolKey|e].
    + destruct (faults 1%nat) as [e|]; cbn [option_map unless] in *.
      * injection Hd as <- <-. left. eexists. split; [done|]. split; [by right | done].
      * right. exists poolKey, 0, ∅, "", "commit scope-range transaction". rewrite Ht. split_and!; try done.
        intros dr'. by destruct (isDryRun dr').
    + injection Hd as <- <-. left. eexists. split; [done|]. split; [by left | done].
  - unfold create_block in *. destruct (EffectivePrefixLength _ _) as [u|e] eqn:Hu.
    2: { injection Hd as <- <-. left. by eexists. }
    destruct (ProjectAddressSpaceDigest _ _ _ _) as [[us dg]|e] eqn:Hdg.
    2: { injection Hd as <- <-. left. by eexists. }
    right. exists claim, class, r1, d1. split; [done|]. split; [unfold resolution; by rewrite Ht|].
    subst faults'. cbv beta zeta in *. rewrite Hres in *. destruct r1 as [poolKey|e].
    + destruct (faults 1%nat) as [e|]; cbn [option_map unless] in *.
      * injection Hd as <- <-. left. eexists. split; [done|]. split; [by right | done].
      * right. exists poolKey, u, us, dg, "commit allocation transaction". rewrite Ht. split_and!; try done.
        intros dr'. by destruct (isDryRun dr').
    + injection Hd as <- <-. left. eexists. split; [done|]. split; [by left | done].
Qed.

Lemma not_dry : isDryRun [] = false.
Proof. done. Qed.

Lemma all_dry : isDryRun ["All"] = true.
Proof. by apply bool_decide_true; left. Qed.

Lemma dry_gtx_ok {A} (m : GTxn A) d a d' : dry_gtx m d = (Ok a, d') -> d' = d /\ exists d1, m d = Ok (a, d1).
Proof. unfold dry_gtx. destruct (m d) as [[a1 d1]|]; [|done]. intros [= -> <-]. split; [done | by exists d1]. Qed.

Lemma dry_gtx_err {A} (m : GTxn A) d e d' : dry_gtx m d = (Err e, d') -> d' = d /\ m d = Err e.
Proof. unfold dry_gtx. destruct (m d) as [[a1 d1]|]; [done|]. by intros [= -> <-]. Qed.

(** [C7] A claim for a block that is granted is granted a block: of the length its class
    settles on, inside the pool's range, recorded under the claim's key, and
    sharing addresses in its pool only with claims of other address spaces.  The
    claim is stored Bound to the block's text, the IPAllocation beside it, and the
    ledger is consistent, whatever other consistent transactions commit on the
    way. *)
Theorem Create_block_sound others faults user cv ns claim0 d c d' :
  (forall i d, inv d -> inv (others i d)) -> inv d -> classes_sound others d ->
  Create others faults user cv ns [] claim0 d = (Ok c, d') -> ics_Target (ic_Spec c) <> TargetScopeRange ->
  let id := FromContext user in
  exists claim class poolKey p n uniqueScope dg,
    admit_claim (faults O) user cv ns claim0 d = Ok (claim, class)
    /\ EffectivePrefixLength (rc_Class class) (ics_PrefixLength (ic_Spec claim)) = Ok (pones n)
    /\ ProjectAddressSpaceDigest (id_Name id) (ics_Scope (ic_Spec claim)) (cs_UniqueWithin (rc_Spec class)) "uniqueWithin"
       = Ok (uniqueScope, dg)
    /\ inv d' /\ pool_range d' poolKey p /\ inside p n
    /\ let policy := EffectiveReclaimPolicy (rc_Class class) (ics_ReclaimPolicy (ic_Spec claim)) in
       let req := block_request id claim class poolKey (pones n) dg policy in
       let row := claim_row req (effective_digest req) n in
       row ∈ db_allocs d'
       /\ (forall r, r ∈ db_allocs d' -> r <> row -> ar_pool_key r = poolKey -> net_overlap (ar_cidr r) n = true ->
             ar_purpose r = PurposeClaim /\ ar_scope_digest r <> effective_digest req)
       /\ let name := allocationNameFor (ic_Namespace claim) (ic_Name claim) in
          let poolName := after_last_slash poolKey "" in
          let bound := bound_claim claim (IPNet_String n) poolName (Some (mkLocalRef name)) in
          let alloc := claim_allocation bound class poolName name (IPNet_String n) uniqueScope dg policy in
          c = ic_set_rv bound (db_rv d')
          /\ db_objects d' !! claimObjectKey id (ic_Namespace claim) (ic_Name claim)
             = Some (mkObj "IPClaim" (ic_Name claim) (DocClaim bound) (db_rv d'))
          /\ exists rv, db_objects d' !! allocationObjectKey id (ic_Namespace claim) name
             = Some (mkObj "IPAllocation" name (DocAllocation alloc) rv).
Proof.
  intros Ho Hi Hc H Ht id. destruct (Create_cases _ _ _ _ _ _ _ _ _ _ H)
    as [(e & [=] & _) | (claim & class & r1 & d1 & Hadm & Hres & [(e & [=] & _) | (poolKey & u & us & dg & what & -> & Hu & Hdr)])].
  specialize (Hdr []). rewrite H, not_dry in Hdr. symmetry in Hdr. apply in_gtx_ok in Hdr as [Hdr _].
  pose proof (Ho O _ (resolution_inv _ _ _ _ _ _ _ _ _ _ _ Ho Hi Hc Hadm Hres)) as Hi1.
  destruct (is_range claim) eqn:Hrange.
  { exfalso. apply Ht. unfold allocating, recording in Hdr. rewrite Hrange in Hdr.
    apply range_transaction_ok in Hdr as (_ & n & _ & _ & _ & -> & _); [|done]. by apply String.eqb_eq in Hrange. }
  destruct (Hu eq_refl) as [Hlen Hdg]. unfold allocating, recording in Hdr. rewrite Hrange in Hdr.
  apply block_transaction_ok in Hdr as (Hi' & p & n & res & rv & Hp & Hin & <- & Ha & Hrest & -> & Hne & Hck & Hak & _); [|done].
  exists claim, class, poolKey, p, n, us, dg. split_and!; try done; cbv zeta.
  set (row := claim_row _ _ n) in *.
  assert (Hrow : row ∈ db_allocs d') by (rewrite Ha; apply elem_of_app; right; apply elem_of_app; right; left).
  split; [done|]. split.
  { intros r Hr Hner Hk Hov. destruct (rows_compatible d' r row Hi' Hr Hrow Hner) as (H1 & H2 & H3); try done. }
  split; [done|]. split; [exact Hck|]. by exists rv.
Qed.

(** A claim for a range that is granted holds that range alone: it is the carve of
    the class's pool, which nobody held; reading the claim's range back gives the
    pool; and no other claim can bind it.  The claim is stored Bound to the range's
    text and the ledger is consistent. *)
Theorem Create_range_sound others faults user cv ns claim0 d c d' :
  (forall i d, inv d -> inv (others i d)) -> inv d -> classes_sound others d ->
  Create others faults user cv ns [] claim0 d = (Ok c, d') -> ics_Target (ic_Spec c) = TargetScopeRange ->
  exists claim class poolKey d1 r,
    admit_claim (faults O) user cv ns claim0 d = Ok (claim, class)
    /\ resolution others faults user claim class d = (Ok poolKey, d1)
    /\ r ∈ db_allocs (others O d1) /\ unheld_carve poolKey r = true
    /\ inv d'
    /\ let ck := claimObjectKey (FromContext user) (ic_Namespace claim) (ic_Name claim) in
       FindScopeRange ck d' = Ok (poolKey, d')
       /\ (ck <> poolKey -> forall ck', BindScopeRange poolKey ck' d' = Err ErrScopeRangeHeld)
       /\ let bound := bound_claim claim (IPNet_String (ar_cidr r)) (after_last_slash poolKey "")
                         (icst_BoundAllocationRef (ic_Status claim)) in
          c = ic_set_rv bound (db_rv d')
          /\ db_objects d' !! ck = Some (mkObj "IPClaim" (ic_Name claim) (DocClaim bound) (db_rv d')).
Proof.
  intros Ho Hi Hc H Ht. destruct (Create_cases _ _ _ _ _ _ _ _ _ _ H)
    as [(e & [=] & _) | (claim & class & r1 & d1 & Hadm & Hres & [(e & [=] & _) | (poolKey & u & us & dg & what & -> & _ & Hdr)])].
  specialize (Hdr []). rewrite H, not_dry in Hdr. symmetry in Hdr. apply in_gtx_ok in Hdr as [Hdr _].
  pose proof (Ho O _ (resolution_inv _ _ _ _ _ _ _ _ _ _ _ Ho Hi Hc Hadm Hres)) as Hi1.
  exists claim, class, poolKey, d1.
  unfold allocating, recording in Hdr. destruct (is_range claim) eqn:Hrange.
  - apply range_transaction_ok in Hdr as (Hi' & n & (r & Hr & Hun & ->) & Hf & Hex & -> & Hck); [|done].
    exists r. by split_and!.
  - exfalso. apply block_transaction_ok in Hdr as (_ & p & n & res & rv & _ & _ & _ & _ & _ & -> & _); [|done].
    unfold is_range in Hrange. cbn in Ht. by rewrite Ht in Hrange.
Qed.

(** [C20] A create that is refused has recorded nothing of the claim: the state is the one
    it found, or the one pool resolution left.  Either way it is consistent. *)
Theorem Create_refused_clean others faults user cv ns dr claim0 d e d' :
  (forall i d, inv d -> inv (others i d)) -> inv d -> classes_sound others d ->
  Create others faults user cv ns dr claim0 d = (Err e, d') ->
  inv d' /\ (d' = d \/ exists claim class r1 d1, admit_claim (faults O) user cv ns claim0 d = Ok (claim, class)
              /\ resolution others faults user claim class d = (r1, d1) /\ (d' = d1 \/ d' = others O d1)).
Proof.
  intros Ho Hi Hc H. destruct (Create_cases _ _ _ _ _ _ _ _ _ _ H)
    as [(e' & _ & -> & _) | (claim & class & r1 & d1 & Hadm & Hres & Hd)]; [by split; [|left]|].
  pose proof (resolution_inv _ _ _ _ _ _ _ _ _ _ _ Ho Hi Hc Hadm Hres) as Hi1.
  enough (d' = d1 \/ d' = others O d1) as Hd'.
  { split; [destruct Hd' as [-> | ->]; auto|]. right. by exists claim, class, r1, d1. }
  destruct Hd as [(e' & _ & Hd' & _) | (poolKey & u & us & dg & what & _ & _ & Hdr)]; [done | right].
  specialize (Hdr dr). rewrite H in Hdr. symmetry in Hdr. destruct (isDryRun dr).
  - by apply dry_gtx_err in Hdr as [-> _].
  - by apply in_gtx_err in Hdr.
Qed.

(** A dry run answers as the create would: refused, the create is refused with the
    same error; and a claim that is created is the one the dry run showed, with a
    resource version. *)
Theorem Create_dry_run_agrees others faults user cv ns claim0 d :
  match (Create others faults user cv ns ["All"] claim0 d).1 with
  | Err e => (Create others faults user cv ns [] claim0 d).1 = Err e
  | Ok shown => forall c, (Create others faults user cv ns [] claim0 d).1 = Ok c ->
                  c = ic_set_rv shown (ic_ResourceVersion c)
  end.
Proof.
  destruct (Create others faults user cv ns ["All"] claim0 d) as [r d'] eqn:H.
  destruct (Create_cases _ _ _ _ _ _ _ _ _ _ H)
    as [(e & -> & _ & Hd) | (claim & class & r1 & d1 & _ & _ & [(e & -> & _ & Hd) | (poolKey & u & us & dg & what & _ & _ & Hdr)])];
    cbn [fst]; [by rewrite Hd | by rewrite Hd|].
  pose proof (Hdr []) as Hreal. rewrite not_dry in Hreal. pose proof (Hdr ["All"]) as Hdry. rewrite all_dry, H in Hdry.
  destruct r as [shown|e].
  - symmetry in Hdry. apply dry_gtx_ok in Hdry as (_ & d2 & Hdry). intros c Hc.
    rewrite Hreal in Hc. destruct (in_gtx _ _ _) as [rr dd] eqn:Hg. cbn in Hc. subst rr. apply in_gtx_ok in Hg as [Hg _].
    apply gtxn_bind_ok in Hg as (b & d3 & Hb & Hg). rewrite Hdry in Hb. injection Hb as <- <-.
    unfold recording, record_claim, record_range_claim, persist in Hg. destruct (is_range claim).
    + apply gtxn_bind_ok in Hg as (rv & d4 & _ & [= <- <-]). by destruct shown.
    + apply gtxn_bind_ok in Hg as (rv1 & d4 & _ & Hg). apply gtxn_bind_ok in Hg as (rv & d5 & _ & [= <- <-]). by destruct shown.
  - symmetry in Hdry. apply dry_gtx_err in Hdry as [_ Hdry]. rewrite Hreal. unfold in_gtx, mbind, gtxn_bind. by rewrite Hdry.
Qed.

(** [C19] A name holds one claim at a time: while a block is recorded under the claim's
    key and nobody releases it, no create of that name succeeds, for a block or for
    a range. *)
Theorem Create_name_once others faults user cv ns dr claim0 d r claim class c d' :
  (forall i d, inv d -> inv (others i d)) -> inv d -> classes_sound others d ->
  (forall i d, r ∈ db_allocs d -> r ∈ db_allocs (others i d)) ->
  admit_claim (faults O) user cv ns claim0 d = Ok (claim, class) ->
  r ∈ db_allocs d -> ar_claim_key r = Some (claimObjectKey (FromContext user) (ic_Namespace claim) (ic_Name claim)) ->
  ar_purpose r = PurposeClaim ->
  Create others faults user cv ns dr claim0 d <> (Ok c, d').
Proof.
  intros Ho Hi Hc Hk Hadm Hr Hck Hp H. destruct (Create_cases _ _ _ _ _ _ _ _ _ _ H)
    as [(e & [=] & _) | (claim' & class' & r1 & d1 & Hadm' & Hres & [(e & [=] & _) | (poolKey & u & us & dg & what & _ & _ & Hdr)])].
  rewrite Hadm in Hadm'. injection Hadm' as <- <-.
  pose proof (Ho O _ (resolution_inv _ _ _ _ _ _ _ _ _ _ _ Ho Hi Hc Hadm Hres)) as Hi1.
  pose proof (Hk O _ (resolution_keep _ _ _ _ _ _ _ _ _ _ _ _ Ho Hk Hi Hc Hadm Hres Hr)) as Hr1.
  assert (exists b d2, allocating user claim class poolKey u dg (others O d1) = Ok (b, d2)) as (b & d2 & Hb).
  { specialize (Hdr dr). rewrite H in Hdr. symmetry in Hdr. destruct (isDryRun dr).
    - apply dry_gtx_ok in Hdr as (_ & d2 & Hdr). by eexists _, _.
    - apply in_gtx_ok in Hdr as [Hdr _]. apply gtxn_bind_ok in Hdr as (b & d2 & Hb & _). by exists b, d2. }
  unfold allocating in Hb. destruct (is_range claim).
  - by eapply (take_range_key_free _ _ _ _ _ _ r).
  - by eapply (take_block_key_free _ _ _ _ _ _ _ _ _ _ r).
Qed.
End Laws.

(** ** Witnesses *)

#[refine] Definition plain_rest : RestCreate IPClaim := {|
  obj_meta := ic_Meta;
  obj_set_meta c m := mkIPClaim m (ic_Namespace c) (ic_ResourceVersion c) (ic_Spec c) (ic_Status c);
  BeforeCreate prepare validate c :=
    match validate (prepare c) with [] => Ok (prepare c) | _ => Err (GText "invalid") end
|}.
Proof.
  intros prepare validate c c'. destruct (validate (prepare c)) eqn:E; [|done]. intros [= <-].
  exists (ic_Meta (prepare c)). by destruct (prepare c).
Defined.

(** A claim of project [alpha] for an address of one network, and one for its range. *)
Definition ex_claim (class target : string) : IPClaim :=
  mkIPClaim (mkMeta "c1" ∅ ∅) "default" 0
    (mkClaimSpec class "" "" "" None (cx_scope "n1") target "" None)
    (mkClaimStatus "" "" "" None None).

Local Abbreviation ex_create :=
  (@Create plain_machinery plain_rest (fun _ d => d) (fun _ => None) (cx_user "alpha") None None).

Definition ex_done (dryRun : list string) (claim : IPClaim) (d : Db) : IPClaim * Db :=
  match ex_create dryRun claim d with (Ok c, d') => (c, d') | (Err _, d') => (claim, d') end.

Definition ex_block : IPClaim * Db := ex_done [] (ex_claim "addr" "") cx_db.
Definition ex_range : IPClaim * Db := ex_done [] (ex_claim "net" TargetScopeRange) cx_db.

Lemma ex_done_eq dr claim d :
  is_ok (ex_create dr claim d).1 = true -> ex_create dr claim d = (Ok (ex_done dr claim d).1, (ex_done dr claim d).2).
Proof. unfold ex_done. by destruct (ex_create dr claim d) as [[c|e] d']. Qed.

Lemma ex_block_eq : ex_create [] (ex_claim "addr" "") cx_db = (Ok ex_block.1, ex_block.2).
Proof. apply ex_done_eq. vm_compute. reflexivity. Qed.

Lemma ex_range_eq : ex_create [] (ex_claim "net" TargetScopeRange) cx_db = (Ok ex_range.1, ex_range.2).
Proof. apply ex_done_eq. vm_compute. reflexivity. Qed.

Lemma cx_counted : classes_counted cx_db.
Proof. apply counted_all. vm_compute. reflexivity. Qed.

Lemma Create_block_sound_witness :
  exists poolKey p n, inv ex_block.2 /\ pool_range ex_block.2 poolKey p /\ inside p n
    /\ icst_AllocatedCIDR (ic_Status ex_block.1) = IPNet_String n.
Proof.
  destruct (@Create_block_sound plain_machinery plain_rest (fun _ d => d) (fun _ => None) (cx_user "alpha") None None (ex_claim "addr" "")
              cx_db ex_block.1 ex_block.2 (fun _ _ H => H) cx_inv (conj cx_counted cx_counted) ex_block_eq ltac:(vm_compute; discriminate))
    as (claim & class & poolKey & p & n & us & dg & _ & _ & _ & Hi & Hp & Hn & _ & _ & Hc & _).
  exists poolKey, p, n. split; [exact Hi|]. split; [exact Hp|]. split; [exact Hn|]. rewrite Hc. reflexivity.
Defined.

(** What admission makes of the example claims. *)
Definition ex_admit := @admit_claim plain_machinery plain_rest None (cx_user "alpha") None None.
Definition ex_key : string := claimObjectKey (FromContext (cx_user "alpha")) "default" "c1".

Definition admitted (claim : IPClaim) (d : Db) : bool :=
  match ex_admit claim d with
  | Ok (c, _) => String.eqb (ic_Namespace c) "default" && String.eqb (ic_Name c) "c1"
  | Err _ => false
  end.

Lemma admitted_key claim d c class :
  admitted claim d = true -> ex_admit claim d = Ok (c, class) ->
  claimObjectKey (FromContext (cx_user "alpha")) (ic_Namespace c) (ic_Name c) = ex_key.
Proof. unfold admitted. intros H E. rewrite E in H. apply andb_true_iff in H as [->%String.eqb_eq ->%String.eqb_eq]. done. Qed.

Lemma Create_range_sound_witness :
  exists poolKey, FindScopeRange ex_key ex_range.2 = Ok (poolKey, ex_range.2).
Proof.
  destruct (@Create_range_sound plain_machinery plain_rest (fun _ d => d) (fun _ => None) (cx_user "alpha") None None
              (ex_claim "net" TargetScopeRange)
              cx_db ex_range.1 ex_range.2 (fun _ _ H => H) cx_inv (conj cx_counted cx_counted) ex_range_eq ltac:(vm_compute; reflexivity))
    as (claim & class & poolKey & d1 & r & Hadm & _ & _ & _ & _ & Hf & _).
  exists poolKey. rewrite (admitted_key (ex_claim "net" TargetScopeRange) cx_db claim class) in Hf; [exact Hf | vm_compute; reflexivity | exact Hadm].
Defined.

(** The state a create leaves is consistent. *)
Lemma created_inv claim d c d' : inv d -> classes_sound (fun _ d => d) d -> ex_create [] claim d = (Ok c, d') -> inv d'.
Proof.
  intros Hi Hc H. destruct (Create_cases _ _ _ _ _ _ _ _ _ _ H)
    as [(e & [=] & _) | (claim' & class & r1 & d1 & Hadm & Hres & [(e & [=] & _) | (k & u & us & dg & w & _ & _ & Hdr)])].
  specialize (Hdr []). rewrite H, not_dry in Hdr. symmetry in Hdr. apply in_gtx_ok in Hdr as [Hdr _].
  pose proof (resolution_inv (fun _ d => d) _ _ _ _ _ _ _ _ _ _ (fun _ _ H => H) Hi Hc Hadm Hres) as Hi1.
  unfold allocating, recording in Hdr. destruct (is_range claim').
  - by apply range_transaction_ok in Hdr as [? _].
  - by apply block_transaction_ok in Hdr as [? _].
Qed.

Lemma ex_block_good : inv ex_block.2 /\ classes_sound (fun _ d => d) ex_block.2.
Proof.
  split; [exact (created_inv _ _ _ _ cx_inv (conj cx_counted cx_counted) ex_block_eq)|]. split; apply counted_all; vm_compute; reflexivity.
Qed.

(** The name is taken: the second claim is refused. *)
Definition ex_again : result GoErr IPClaim * Db := ex_create [] (ex_claim "addr" "") ex_block.2.

Definition err_of {A} (r : result GoErr A) : GoErr := match r with Err e => e | Ok _ => GText "" end.

Lemma refused_eq {A} (x : result GoErr A * Db) : is_ok x.1 = false -> x = (Err (err_of x.1), x.2).
Proof. by destruct x as [[a|e] d]. Qed.

Lemma Create_refused_clean_witness : inv ex_again.2.
Proof.
  refine (proj1 (@Create_refused_clean plain_machinery plain_rest (fun _ d => d) (fun _ => None) (cx_user "alpha") None None []
    (ex_claim "addr" "") ex_block.2 (err_of ex_again.1) ex_again.2 (fun _ _ H => H) (proj1 ex_block_good) (proj2 ex_block_good) _)).
  apply refused_eq. vm_compute. reflexivity.
Defined.

Definition holds_key (r : AllocRow) : bool :=
  bool_decide (ar_claim_key r = Some ex_key) && bool_decide (ar_purpose r = PurposeClaim).

Lemma Create_name_once_witness :
  exists claim class, ex_admit (ex_claim "addr" "") ex_block.2 = Ok (claim, class)
    /\ forall c d', ex_create [] (ex_claim "addr" "") ex_block.2 <> (Ok c, d').
Proof.
  assert (Had : admitted (ex_claim "addr" "") ex_block.2 = true) by (vm_compute; reflexivity).
  assert (exists claim class, ex_admit (ex_claim "addr" "") ex_block.2 = Ok (claim, class)) as (claim & class & Hadm).
  { unfold admitted in Had. destruct (ex_admit _ _) as [[c cl]|]; [eexists _, _; reflexivity | discriminate]. }
  exists claim, class. split; [exact Hadm|]. intros c d'. pose proof (admitted_key _ _ _ _ Had Hadm) as Hk.
  assert (Hf : existsb holds_key (db_allocs ex_block.2) = true) by (vm_compute; reflexivity).
  apply existsb_exists in Hf as (r & Hr & [Hr1%bool_decide_eq_true Hr2%bool_decide_eq_true]%andb_true_iff).
  apply list_elem_of_In in Hr. rewrite <- Hk in Hr1.
  exact (@Create_name_once plain_machinery plain_rest (fun _ d => d) (fun _ => None) (cx_user "alpha") None None [] (ex_claim "addr" "")
           ex_block.2 r claim class c d' (fun _ _ H => H) (proj1 ex_block_good) (proj2 ex_block_good) (fun _ _ H => H)
           Hadm Hr Hr1 Hr2).
Defined.

(** ** A dry run that writes *)

(** A dry run is not without effect: the claim it shows is not stored, but the pool
    its class is missing is provisioned and stays, with its identity and the carve
    that takes its range from the operator's pool, reserved positions and all. *)
Theorem dry_run_provisions :
  let out := ex_create ["All"] (ex_claim "addr" "") cx_db in
  (is_ok out.1, map ar_purpose (db_allocs cx_db), map ar_purpose (db_allocs out.2),
   map (fun i => (bool_decide (is_Some (db_objects cx_db !! i.2)), bool_decide (is_Some (db_objects out.2 !! i.2))))
     (map_to_list (db_identity out.2)))
  = (true, [], [PurposeReservation; PurposeReservation; PurposePoolCarve], [(false, true)]).
Proof. vm_compute. reflexivity. Qed.
