(* ===== verification/ClaimDelete.v ===== *)
(** * ClaimDelete: what deleting a claim promises

    The release transaction always goes through on a consistent ledger, so a delete
    completes unless all of its attempts fail for reasons outside the handler; it
    takes the claim, its allocation's object and its row, unbinding the last two
    when the policy is to retain; and a create followed by a delete leaves the
    ledger as the pool resolution had it, reserved positions apart. *)

From Stdlib Require Import Ascii String.
From S2P Require Import Prelude Text Float Net Cidr Reservation Allocate Consumption Scan Tenant Sha256 Scope.
From S2P Require Import NetText Types Db PoolObject Class Discover BoundedSearch Prefix PoolInvariant.
From S2P Require Import PoolWrites Cascade Provision Range ObjectLaws Errors Validation Access Claim ClaimLaws.
Open Scope string_scope.
Open Scope list_scope.
Open Scope Z_scope.

(** ** The release transaction *)

(** A ledger a claim can be deleted from: consistent, committed, the claim stored, and
    nothing but an allocation under the allocation's key. *)
Record deletable (ck ak : string) (d : Db) : Prop := {
  dl_inv : inv d;
  dl_ids : identity_ok d = true;
  dl_claim : exists row, db_objects d !! ck = Some row /\ as_pool (ob_data row) = None;
  dl_alloc : forall row, db_objects d !! ak = Some row -> exists a, ob_data row = DocAllocation a
}.

Lemma keeps_plain_row d d' k row :
  keeps_plain d d' -> (forall row, db_objects d !! k = Some row -> as_pool (ob_data row) = None) ->
  db_objects d' !! k = Some row -> db_objects d !! k = Some row.
Proof.
  intros [Hp _ Hd] Hk H. assert (is_Some (db_objects d !! k)) as [row0 H0] by (apply Hd; by exists row).
  pose proof (Hp k row0 H0 (Hk row0 H0)) as H1. congruence.
Qed.

Lemma keys_differ id ns name ns' name' : claimObjectKey id ns name <> allocationObjectKey id ns' name'.
Proof.
  unfold claimObjectKey, allocationObjectKey, ApplyPrefix. destruct (String.eqb _ ""); [discriminate|].
  intros H%(inj (String.append _)). discriminate.
Qed.

Section Deletes.
Context {api : ApiMachinery}.

Definition retained_by (ck : string) (d : Db) : list string :=
  map ar_allocation_key (List.filter (fun r => holds ck r && retains r) (db_allocs d)).

(** The allocation's object under key [ak], after a release of [ck] in [d]. *)
Definition disposed (ck ak : string) (d d' : Db) : Prop :=
  if bool_decide (ak ∈ retained_by ck d)
  then forall row a, db_objects d !! ak = Some row -> ob_data row = DocAllocation a ->
         exists row', db_objects d' !! ak = Some row' /\ ob_data row' = DocAllocation (unbound_allocation a)
  else db_objects d' !! ak = None.

(** Every other object that is not a pool. *)
Definition leaves_others (ck ak : string) (d d' : Db) : Prop :=
  forall k row, k <> ck -> k <> ak -> db_objects d !! k = Some row -> as_pool (ob_data row) = None ->
    db_objects d' !! k = Some row.

Lemma unbindAllocation_ok ak d :
  inv d -> (forall row, db_objects d !! ak = Some row -> exists a, ob_data row = DocAllocation a) ->
  exists d', unbindAllocation ak d = Ok (tt, d') /\ inv d' /\ db_allocs d' = db_allocs d
    /\ db_identity d' = db_identity d
    /\ match db_objects d !! ak with
       | None => db_objects d' = db_objects d
       | Some row => exists row', db_objects d' = <[ak := row']> (db_objects d)
           /\ forall a, ob_data row = DocAllocation a -> ob_data row' = DocAllocation (unbound_allocation a)
       end.
Proof.
  intros Hi Ha. unfold unbindAllocation, GetObject, select_object, read. unfold mbind, gtxn_bind, txn_bind.
  destruct (db_objects d !! ak) as [row|] eqn:Hrow; [|by exists d].
  destruct (Ha row eq_refl) as [a Hdoc]. cbn. rewrite Hdoc. cbn [as_allocation].
  destruct (update_plain ak (DocAllocation (unbound_allocation a)) row d eq_refl Hrow ltac:(by rewrite Hdoc) Hi)
    as (d' & Hu & Hi' & Ho & Hall & Hid & _).
  exists d'. unfold stage. rewrite Hu. cbn. split_and!; try done.
  eexists. split; [exact Ho|]. intros a'. cbn. congruence.
Qed.

Lemma dispose_ok id claim retained d name :
  let ak := allocationObjectKey id (ic_Namespace claim) name in
  icst_BoundAllocationRef (ic_Status claim) = Some (mkLocalRef name) -> name <> "" ->
  inv d -> identity_ok d = true -> (forall row, db_objects d !! ak = Some row -> exists a, ob_data row = DocAllocation a) ->
  exists d', dispose_allocation id claim retained d = Ok (tt, d') /\ inv d' /\ identity_ok d' = true
    /\ db_allocs d' = db_allocs d
    /\ (forall k, k <> ak -> db_objects d' !! k = db_objects d !! k)
    /\ if bool_decide (ak ∈ retained)
       then forall row a, db_objects d !! ak = Some row -> ob_data row = DocAllocation a ->
              exists row', db_objects d' !! ak = Some row' /\ ob_data row' = DocAllocation (unbound_allocation a)
       else db_objects d' !! ak = None.
Proof.
  intros ak Href Hn Hi Hok Ha. unfold dispose_allocation. rewrite Href. cbn [lr_Name].
  unfold is_empty. destruct (String.eqb_spec name ""); [done|]. fold ak.
  destruct (bool_decide (ak ∈ retained)).
  - destruct (unbindAllocation_ok ak d Hi Ha) as (d' & H & Hi' & Hall & Hid & Ho). exists d'. split; [exact H|].
    destruct (db_objects d !! ak) as [row|] eqn:Hrow.
    + destruct Ho as (row' & Ho & Hdoc). split_and!; try done.
      * apply (identity_ok_same d); [done | | done]. intros k Hk. rewrite Ho. destruct (decide (k = ak)) as [-> | Hne].
        -- rewrite lookup_insert_eq. by eexists.
        -- by rewrite lookup_insert_ne.
      * intros k Hne. rewrite Ho. by apply lookup_insert_ne.
      * intros row0 a [= ->] Hr. exists row'. split; [rewrite Ho; apply lookup_insert_eq | by apply Hdoc].
    + split_and!; try done; [apply (identity_ok_same d); [done | by rewrite Ho | done] | by rewrite Ho].
  - assert (Hn' : not_pool d ak) by (intros row p Hr E; destruct (Ha row Hr); congruence).
    destruct (delete_plain ak d Hi Hn') as (rv & d' & H & Hi' & Ho & Hall & Hid & _). exists d'.
    unfold stage. unfold mbind, gtxn_bind. rewrite H. cbn. split_and!; try done.
    + by eapply delete_commits.
    + intros k Hne. rewrite Ho. by apply lookup_delete_ne.
    + rewrite Ho. apply lookup_delete_eq.
Qed.

(** Releasing and deleting a claim, on a ledger it can be deleted from. *)
Lemma releaseAndDelete_ok id claim name d :
  let ck := claimObjectKey id (ic_Namespace claim) (ic_Name claim) in
  let ak := allocationObjectKey id (ic_Namespace claim) name in
  icst_BoundAllocationRef (ic_Status claim) = Some (mkLocalRef name) -> name <> "" -> deletable ck ak d ->
  exists d', releaseAndDelete id claim ck d = Ok (negb (bool_decide (retained_by ck d = [])), d')
    /\ inv d' /\ identity_ok d' = true
    /\ db_allocs d' = omap (after_release ck) (db_allocs d)
    /\ db_objects d' !! ck = None /\ disposed ck ak d d' /\ leaves_others ck ak d d'.
Proof.
  intros ck ak Href Hn [Hi Hok (row & Hrow & Hplain) Halloc].
  destruct (release_run ck d Hi) as (d1 & H1 & Hi1 & Ha1 & Hid1 & _). fold (retained_by ck d) in H1.
  pose proof (Release_keeps ck d _ d1 H1) as Hk.
  assert (Hok1 : identity_ok d1 = true) by (apply (identity_ok_same d); [done | intros k; apply (kp_dom _ _ Hk) | done]).
  assert (Hback : forall r, db_objects d1 !! ak = Some r -> db_objects d !! ak = Some r).
  { intros r. apply keeps_plain_row; [done|]. intros r0 Hr0. by destruct (Halloc r0 Hr0) as [a ->]. }
  assert (Halloc1 : forall r, db_objects d1 !! ak = Some r -> exists a, ob_data r = DocAllocation a) by auto.
  destruct (dispose_ok id claim (retained_by ck d) d1 name Href Hn Hi1 Hok1 Halloc1)
    as (d2 & H2 & Hi2 & Hok2 & Ha2 & Ho2 & Hdis). fold ak in Ho2, Hdis.
  pose proof (keys_differ id (ic_Namespace claim) (ic_Name claim) (ic_Namespace claim) name : ck <> ak) as Hne.
  assert (Hrow2 : db_objects d2 !! ck = Some row) by (rewrite Ho2 by done; by apply (kp_plain _ _ Hk)).
  destruct (delete_plain ck d2 Hi2 (not_pool_row _ _ _ Hrow2 Hplain)) as (rv & d3 & H3 & Hi3 & Ho3 & Ha3 & Hid3 & _).
  exists d3. split.
  { unfold releaseAndDelete, stage. unfold mbind, gtxn_bind. rewrite H1. cbn [wrap_err]. rewrite H2, H3. done. }
  split; [done|]. split; [by eapply delete_commits|]. split; [by rewrite Ha3, Ha2|].
  split; [rewrite Ho3; apply lookup_delete_eq|]. split.
  - unfold disposed. rewrite Ho3, lookup_delete_ne by done.
    destruct (bool_decide _); [|done]. intros row0 a Hr0 Hdoc. apply (Hdis row0); [|done].
    apply (kp_plain _ _ Hk); [done | by rewrite Hdoc].
  - intros k row0 Hnc Hna Hr0 Hp. rewrite Ho3, lookup_delete_ne, Ho2 by done. by apply (kp_plain _ _ Hk).
Qed.

(** ** Delete *)

(** What a release leaves, compared with the ledger it ran on. *)
Record claim_gone (ck ak : string) (d d' : Db) : Prop := {
  cg_inv : inv d';
  cg_ids : identity_ok d' = true;
  cg_rows : db_allocs d' = omap (after_release ck) (db_allocs d);
  cg_claim : db_objects d' !! ck = None;
  cg_alloc : disposed ck ak d d';
  cg_others : leaves_others ck ak d d'
}.

(** The claim's row is published Releasing, and can still be deleted. *)
Lemma publish_ok ck ak doc d :
  as_pool doc = None -> ck <> ak -> deletable ck ak d ->
  exists rv d', updateObject ck doc d = Ok (rv, d') /\ deletable ck ak d' /\ db_allocs d' = db_allocs d
    /\ exists row, db_objects d' = <[ck := row]> (db_objects d) /\ ob_data row = doc.
Proof.
  intros Hp Hne [Hi Hok (row & Hrow & Hplain) Halloc].
  destruct (update_plain ck doc row d Hp Hrow Hplain Hi) as (d' & H & Hi' & Ho & Ha & Hid & _).
  eexists _, d'. split; [exact H|]. split; [|split; [done|]; by eexists].
  constructor; [done | | |].
  - apply (identity_ok_same d); [done | | done]. intros k Hk. rewrite Ho. destruct (decide (k = ck)) as [-> |].
    + rewrite lookup_insert_eq. by eexists.
    + by rewrite lookup_insert_ne.
  - rewrite Ho. eexists. by rewrite lookup_insert_eq.
  - rewrite Ho, lookup_insert_ne by done. done.
Qed.

Section OneClaim.
Context (others : nat -> Db -> Db) (faults : nat -> option GoErr) (id : Identity) (claim : IPClaim) (name : string).

#[local] Abbreviation ck := (claimObjectKey id (ic_Namespace claim) (ic_Name claim)).
#[local] Abbreviation ak := (allocationObjectKey id (ic_Namespace claim) name).

Context (Href : icst_BoundAllocationRef (ic_Status claim) = Some (mkLocalRef name)) (Hname : name <> "").

(** [P] is what the other transactions keep. *)
Lemma attempts_ok n : forall i d (P : Db -> Prop),
  (forall i d, P d -> P (others i d)) -> P d -> (forall d, P d -> deletable ck ak d) ->
  (exists j, (j < n)%nat /\ faults (i + j)%nat = None) ->
  exists b d1 d', attempts others faults id claim ck n i d = (Ok b, d') /\ P d1 /\ claim_gone ck ak d1 d'.
Proof using Href Hname.
  induction n as [|n IH]; intros i d P Ho Hd HP (j & Hj & Hf); [lia|]. cbn [attempts].
  pose proof (Ho i d Hd) as Hd1. destruct (faults i) as [e|] eqn:Hfi; cbn [unless].
  - destruct j as [|j]; [rewrite Nat.add_0_r in Hf; congruence|]. destruct n as [|n]; [lia|].
    apply IH; [done | done | done|]. exists j. split; [lia|]. by rewrite <- Nat.add_succ_comm in Hf.
  - destruct (releaseAndDelete_ok id claim name (others i d) Href Hname (HP _ Hd1))
      as (d' & H & Hi' & Hok' & Ha' & Hc' & Hdis & Hoth).
    exists (negb (bool_decide (retained_by ck (others i d) = []))), (others i d), d'.
    unfold in_gtx. rewrite H, Hok'. by split_and!.
Qed.

(** All attempts fail: nothing was released. *)
Lemma attempts_fail n : forall i d (P : Db -> Prop),
  (forall i d, P d -> P (others i d)) -> P d -> (0 < n)%nat ->
  (forall j, (j < n)%nat -> is_Some (faults (i + j)%nat)) ->
  exists e d', attempts others faults id claim ck n i d = (Err e, d') /\ P d'
    /\ Some e = faults (i + (n - 1))%nat.
Proof using Type.
  induction n as [|n IH]; intros i d P Ho HP Hn Hf; [lia|]. cbn [attempts].
  destruct (Hf O ltac:(lia)) as [e He]. rewrite Nat.add_0_r in He. rewrite He. cbn [unless].
  destruct n as [|n].
  - exists e, (others i d). split; [done|]. split; [by apply Ho|]. by rewrite Nat.add_0_r.
  - destruct (IH (S i) (others i d) P Ho (Ho i d HP) ltac:(lia)) as (e' & d' & H1 & H2 & H3).
    { intros j Hj. specialize (Hf (S j) ltac:(lia)). by rewrite <- Nat.add_succ_comm in Hf. }
    exists e', d'. split; [exact H1|]. split; [done|]. rewrite H3. f_equal. lia.
Qed.
End OneClaim.
End Deletes.

Section Handler.
Context {api : ApiMachinery} (Get : string -> Db -> result GoErr IPClaim).

(** The claim is stored in the Releasing phase, and its block is still its own. *)
Definition stuck_releasing (ck : string) (claim : IPClaim) (r : AllocRow) (d : Db) : Prop :=
  r ∈ db_allocs d
  /\ exists row, db_objects d !! ck = Some row /\ ob_data row = DocClaim (releasing_claim claim).

Lemma delete_block_published others faults id claim name d :
  let ck := claimObjectKey id (ic_Namespace claim) (ic_Name claim) in
  let ak := allocationObjectKey id (ic_Namespace claim) name in
  deletable ck ak (others O d) -> faults O = None ->
  exists rv d1, deletable ck ak d1 /\ db_allocs d1 = db_allocs (others O d)
    /\ (exists row, db_objects d1 !! ck = Some row /\ ob_data row = DocClaim (releasing_claim claim))
    /\ delete_block others faults id claim d
       = match attempts (fun i => others (S i)) (fun i => faults (S i)) id claim ck deleteMaxAttempts O d1 with
         | (Err e, d) => (Err (GWrap "release allocation after 3 attempts" e), d)
         | (Ok _, d) => (Ok (ic_set_rv (releasing_claim claim) rv, true), d)
         end.
Proof.
  intros ck ak Hd Hf. destruct (publish_ok ck ak (DocClaim (releasing_claim claim)) (others O d) eq_refl
    (keys_differ _ _ _ _ _) Hd) as (rv & d1 & Hu & Hd1 & Ha1 & row & Ho1 & Hdoc).
  exists rv, d1. split; [done|]. split; [done|]. split; [exists row; by rewrite Ho1, lookup_insert_eq|].
  unfold delete_block. fold ck. rewrite Hf. cbn [unless]. unfold in_gtx, stage. rewrite Hu. cbn [wrap_err]. by rewrite (dl_ids _ _ _ Hd1).
Qed.

(** The claim [Delete] acts on. *)
Record deletes (dv : option (IPClaim -> option GoErr)) (objName : string) (d : Db) (claim : IPClaim) (name : string) : Prop := {
  ds_get : Get objName d = Ok claim;
  ds_valid : match dv with Some v => v claim | None => None end = None;
  ds_block : ics_Target (ic_Spec claim) <> TargetScopeRange;
  ds_ref : icst_BoundAllocationRef (ic_Status claim) = Some (mkLocalRef name);
  ds_name : name <> ""
}.

Lemma Delete_block others faults user dv objName d claim name :
  deletes dv objName d claim name ->
  Delete Get others faults user dv [] objName d = delete_block others faults (FromContext user) claim d.
Proof.
  intros [Hg Hv Ht _ _]. unfold Delete. rewrite Hg, Hv, not_dry. by apply String.eqb_neq in Ht as ->.
Qed.

(** The other transactions leave the row where it is. *)
Definition stays (others : nat -> Db -> Db) (r : AllocRow) : Prop :=
  forall i d, r ∈ db_allocs d -> r ∈ db_allocs (others i d).

(** What is left of the claim's rows once it is gone: none is its own, and everyone
    else's is where it was. *)
Lemma claim_gone_rows ck ak d d' :
  claim_gone ck ak d d' ->
  (forall r, r ∈ db_allocs d' -> ar_claim_key r <> Some ck)
  /\ forall r, r ∈ db_allocs d -> ar_claim_key r <> Some ck -> r ∈ db_allocs d'.
Proof.
  intros Hg. rewrite (cg_rows _ _ _ _ Hg). split.
  - intros r (r0 & _ & Hr0)%list_elem_of_omap. unfold after_release in Hr0. destruct (holds ck r0) eqn:Hb.
    + destruct (retains r0); [by injection Hr0 as <- | done].
    + apply bool_decide_eq_false in Hb. by injection Hr0 as <-.
  - intros r Hr Hne. apply list_elem_of_omap. exists r. split; [done|]. unfold after_release, holds.
    by rewrite bool_decide_false.
Qed.

(** [C8] A delete of a block's claim that others leave deletable, met by any faults.
    Should the Releasing transaction not begin, run or commit, the delete fails and
    has changed nothing.  Otherwise it completes as soon as one of its three attempts
    is not cut short: it leaves the ledger it found then without the claim, its row
    gone, or kept unbound under policy Retain, its object gone, the allocation's
    object gone or unbound to match, no other object touched, and every row of
    another holder that others leave alone still there.  Should all three attempts be
    cut short the delete fails, and the claim can still be deleted. *)
Theorem Delete_completes others faults user dv objName d claim name :
  let id := FromContext user in
  let ck := claimObjectKey id (ic_Namespace claim) (ic_Name claim) in
  let ak := allocationObjectKey id (ic_Namespace claim) name in
  (forall i d, deletable ck ak d -> deletable ck ak (others i d)) ->
  deletable ck ak d -> deletes dv objName d claim name ->
  let out := Delete Get others faults user dv [] objName d in
  (forall e, faults O = Some e -> out = (Err e, others O d))
  /\ (faults O = None -> (exists j, (j < 3)%nat /\ faults (S j) = None) ->
      exists rv d1 d', out = (Ok (ic_set_rv (releasing_claim claim) rv, true), d')
        /\ deletable ck ak d1 /\ claim_gone ck ak d1 d'
        /\ (forall r, r ∈ db_allocs d' -> ar_claim_key r <> Some ck)
        /\ forall r, stays others r -> r ∈ db_allocs d -> ar_claim_key r <> Some ck -> r ∈ db_allocs d')
  /\ (faults O = None -> (forall j, (j < 3)%nat -> is_Some (faults (S j))) ->
      exists e d', out = (Err (GWrap "release allocation after 3 attempts" e), d') /\ faults 3%nat = Some e
        /\ deletable ck ak d').
Proof.
  intros id ck ak Ho Hd Hdel out. subst out. rewrite (Delete_block _ _ _ _ _ _ _ _ Hdel).
  change (FromContext user) with id. destruct Hdel as [_ _ _ Href Hname]. split.
  { intros e Hf. unfold delete_block. by rewrite Hf. }
  split; intros Hf0 Hf;
    destruct (delete_block_published others faults id claim name d (Ho O d Hd) Hf0) as (rv & d1 & Hd1 & Ha1 & _ & ->).
  - set (P := fun x => deletable ck ak x /\ forall r, stays others r -> r ∈ db_allocs d -> r ∈ db_allocs x).
    destruct (attempts_ok (fun i => others (S i)) (fun i => faults (S i)) id claim name Href Hname deleteMaxAttempts O d1 P)
      as (b & d2 & d' & Hat & [Hd2 Hk2] & Hgone).
    + intros i x [H1 H2]. split; [by apply Ho|]. intros r Hs Hr. apply Hs. by apply H2.
    + split; [done|]. intros r Hs Hr. rewrite Ha1. by apply Hs.
    + by intros x [H1 _].
    + exact Hf.
    + rewrite Hat. destruct (claim_gone_rows _ _ _ _ Hgone) as [G1 G2]. exists rv, d2, d'.
      split_and!; try done. intros r Hs Hr Hne. apply G2; [by apply Hk2 | done].
  - destruct (attempts_fail (fun i => others (S i)) (fun i => faults (S i)) id claim deleteMaxAttempts O d1 (deletable ck ak))
      as (e & d' & Hat & HP & He); [auto | done | unfold deleteMaxAttempts; lia | exact Hf |].
    rewrite Hat. exists e, d'. split; [done|]. by split.
Qed.

(** When all three attempts fail the delete fails with the last one's error, and
    nothing was released: the claim is stored in the Releasing phase and its block
    is still recorded, for a later delete to take. *)
Theorem Delete_gives_up others faults user dv objName d claim name r :
  let id := FromContext user in
  let ck := claimObjectKey id (ic_Namespace claim) (ic_Name claim) in
  let ak := allocationObjectKey id (ic_Namespace claim) name in
  deletable ck ak (others O d) -> deletes dv objName d claim name ->
  r ∈ db_allocs (others O d) ->
  (forall i d, stuck_releasing ck claim r d -> stuck_releasing ck claim r (others (S i) d)) ->
  faults O = None -> (forall j, (j < 3)%nat -> is_Some (faults (S j))) ->
  exists e d', Delete Get others faults user dv [] objName d = (Err (GWrap "release allocation after 3 attempts" e), d')
    /\ faults 3%nat = Some e /\ stuck_releasing ck claim r d'.
Proof.
  intros id ck ak Hd Hdel Hr Ho Hf0 Hf. rewrite (Delete_block _ _ _ _ _ _ _ _ Hdel). change (FromContext user) with id.
  destruct (delete_block_published others faults id claim name d Hd Hf0) as (rv & d1 & _ & Ha1 & Hrow & ->).
  destruct (attempts_fail (fun i => others (S i)) (fun i => faults (S i)) id claim deleteMaxAttempts O d1 (stuck_releasing ck claim r))
    as (e & d' & Hat & HP & He); [exact Ho | split; [by rewrite Ha1 | done] | unfold deleteMaxAttempts; lia | exact Hf |].
  rewrite Hat. by exists e, d'.
Qed.

(** ** Ranges *)

(** A range cannot be given up while anything live is inside it: the delete answers
    Conflict and the ledger is as other transactions left it. *)
Theorem deleteScopeRange_refuses others faults id claim poolKey d r :
  let ck := claimObjectKey id (ic_Namespace claim) (ic_Name claim) in
  let d0 := others O d in
  FindScopeRange ck d0 = Ok (poolKey, d0) -> poolKey <> "" ->
  r ∈ db_allocs d0 -> ar_pool_key r = poolKey -> live r ->
  faults O = None ->
  deleteScopeRange others faults id claim d
  = (Err (GStatus (NewConflict "ipclaims" (ic_Name claim) (text_of ErrScopeRangeOccupied))), d0).
Proof.
  intros ck d0 Hf Hne Hr Hk Hl Hf0. unfold deleteScopeRange. rewrite Hf0. cbn [unless]. fold d0. unfold in_gtx, release_range. fold ck.
  unfold stage, mbind, gtxn_bind. rewrite Hf. cbn [wrap_err]. unfold is_empty.
  destruct (String.eqb_spec poolKey ""); [done|]. cbn [negb]. by rewrite (release_occupied poolKey d0 r Hr Hk Hl).
Qed.

(** A range that is given up is gone with everything derived from it: its pool, the
    pools below it and their reservations, and the claim.  Everything anyone holds,
    the range's own carve apart, is still on record. *)
Theorem deleteScopeRange_keeps_live others faults id claim poolKey d x d' :
  let ck := claimObjectKey id (ic_Namespace claim) (ic_Name claim) in
  let d0 := others O d in
  inv d0 -> not_pool d0 ck -> FindScopeRange ck d0 = Ok (poolKey, d0) -> poolKey <> "" ->
  deleteScopeRange others faults id claim d = (Ok x, d') ->
  inv d' /\ db_objects d' !! poolKey = None /\ db_objects d' !! ck = None
  /\ (forall r, r ∈ db_allocs d' -> ar_pool_key r <> poolKey /\ r ∈ db_allocs d0)
  /\ forall r, r ∈ db_allocs d0 -> live r -> ar_allocation_key r <> poolKey -> r ∈ db_allocs d'.
Proof.
  intros ck d0 Hi Hn Hf Hne. unfold deleteScopeRange. destruct (faults O); [done|]. cbn [unless]. fold d0.
  destruct (in_gtx _ _ d0) as [[u|e] d1] eqn:Hg; [|done]. intros [= <- <-]. apply in_gtx_ok in Hg as [Hg _].
  unfold release_range in Hg. fold ck in Hg. apply gtxn_bind_ok in Hg as (k & da & Hk%stage_ok & Hg).
  rewrite Hf in Hk. injection Hk as <- <-. unfold is_empty in Hg. destruct (String.eqb_spec poolKey ""); [done|]. cbn [negb] in Hg.
  apply gtxn_bind_ok in Hg as ([] & d2 & H2%stage_ok & Hg). apply gtxn_bind_ok in Hg as (rv & d3 & H3%stage_ok & [= _ <-]).
  destruct (releaseRangeTree_ok _ poolKey d0 tt d2 Hi H2) as [[Hi2 Hsub Hkeep] Ho2].
  destruct (deleteObject_ok ck d2 rv d3 Hi2 H3) as (Hi3 & Ha3 & Ho3 & _). rewrite Ha3.
  split; [done|]. split.
  { by eapply (deleteObject_gone ck poolKey). }
  split; [done|]. split; [|done]. intros r Hr. split; [|by apply Hsub]. intros E.
  destruct (inv_rows _ _ Hi2 r ltac:(apply elem_of_app; by left)) as (p & (o & _ & Hk & _) & _). congruence.
Qed.
End Handler.

(** ** Create, then delete *)

Lemma omap_keep_all ck (rows : list AllocRow) :
  (forall r, r ∈ rows -> ar_claim_key r <> Some ck) -> omap (after_release ck) rows = rows.
Proof.
  induction rows as [|r rows IH]; intros H; [done|]. cbn.
  assert (after_release ck r = Some r) as ->.
  { unfold after_release, holds. rewrite bool_decide_false; [done|]. apply H. left. }
  f_equal. apply IH. intros r' Hr'. apply H. by right.
Qed.

Section RoundTrip.
Context {api : ApiMachinery} {rest : RestCreate IPClaim}.

(** A delete nobody interferes with, in the terms of the ledger it started from. *)
Lemma delete_block_alone id claim name d :
  let ck := claimObjectKey id (ic_Namespace claim) (ic_Name claim) in
  let ak := allocationObjectKey id (ic_Namespace claim) name in
  icst_BoundAllocationRef (ic_Status claim) = Some (mkLocalRef name) -> name <> "" -> deletable ck ak d ->
  exists out d', delete_block (fun _ d => d) (fun _ => None) id claim d = (Ok out, d') /\ claim_gone ck ak d d'.
Proof.
  intros ck ak Href Hn Hd. pose proof (keys_differ id (ic_Namespace claim) (ic_Name claim) (ic_Namespace claim) name : ck <> ak) as Hne.
  destruct (publish_ok ck ak (DocClaim (releasing_claim claim)) d eq_refl Hne Hd) as (rv & d1 & Hu & Hd1 & Ha1 & row & Ho1 & Hdoc).
  destruct (releaseAndDelete_ok id claim name d1 Href Hn Hd1) as (d' & H & Hi' & Hok' & Ha' & Hc' & Hdis & Hoth).
  exists (ic_set_rv (releasing_claim claim) rv, true), d'. split.
  - unfold delete_block. fold ck. cbn [unless]. unfold in_gtx at 1, stage. rewrite Hu. cbn [wrap_err]. rewrite (dl_ids _ _ _ Hd1).
    unfold deleteMaxAttempts. cbn [attempts unless]. unfold in_gtx. fold ck in H. by rewrite H, Hok'.
  - assert (Hret : retained_by ck d1 = retained_by ck d) by (unfold retained_by; by rewrite Ha1).
    constructor; [done | done | by rewrite Ha', Ha1 | done | |].
    + change (disposed ck ak d1 d') in Hdis. unfold disposed in *. rewrite Hret, Ho1, lookup_insert_ne in Hdis by done. done.
    + intros k o Hnc Hna Hk Hp. apply Hoth; [done | done | | done]. by rewrite Ho1, lookup_insert_ne.
Qed.

(** What a create that grants a block leaves can be deleted from. *)
Lemma created_deletable others faults user cv ns claim0 claim class d c d' :
  let id := FromContext user in
  (forall i d, inv d -> inv (others i d)) -> inv d -> classes_sound others d ->
  admit_claim (faults O) user cv ns claim0 d = Ok (claim, class) -> is_range claim = false ->
  Create others faults user cv ns [] claim0 d = (Ok c, d') ->
  deletable (claimObjectKey id (ic_Namespace claim) (ic_Name claim))
    (allocationObjectKey id (ic_Namespace claim) (allocationNameFor (ic_Namespace claim) (ic_Name claim))) d'.
Proof.
  intros id Ho Hi Hc Hadm Hrange H. destruct (Create_cases _ _ _ _ _ _ _ _ _ _ H)
    as [(e & [=] & _) | (claim' & class' & r1 & d1 & Hadm' & Hres & [(e & [=] & _) | (poolKey & u & us & dg & what & _ & _ & Hdr)])].
  rewrite Hadm in Hadm'. injection Hadm' as <- <-.
  pose proof (Ho O _ (resolution_inv _ _ _ _ _ _ _ _ _ _ _ Ho Hi Hc Hadm Hres)) as Hi1.
  specialize (Hdr []). rewrite H, not_dry in Hdr. symmetry in Hdr. apply in_gtx_ok in Hdr as [Hdr Hok].
  unfold allocating, recording in Hdr. rewrite Hrange in Hdr.
  apply block_transaction_ok in Hdr as (Hi' & p & n & res & rv & _ & _ & _ & _ & _ & _ & _ & Hck & Hak & _); [|done].
  constructor; [done | done | |].
  - eexists. split; [exact Hck | done].
  - intros o Hob. cbn zeta in Hak. fold id in Hak. rewrite Hak in Hob. injection Hob as <-. by eexists.
Qed.

(** [C17] Creating a block's claim under policy Delete and deleting it, nobody
    interfering, gives back what was taken: the rows are those pool resolution left
    and the reserved positions the pool records anyway; the claim and its
    allocation are gone, and no other object that is not a pool has changed. *)
Theorem Create_Delete_roundtrip user cv ns claim0 claim class d d1 c d2 r1 :
  let alone := fun (_ : nat) (d : Db) => d in
  let unharmed := fun _ : nat => None in
  let id := FromContext user in
  let ck := claimObjectKey id (ic_Namespace claim) (ic_Name claim) in
  let ak := allocationObjectKey id (ic_Namespace claim) (allocationNameFor (ic_Namespace claim) (ic_Name claim)) in
  inv d -> classes_counted d ->
  admit_claim None user cv ns claim0 d = Ok (claim, class) ->
  ics_Target (ic_Spec claim) <> TargetScopeRange ->
  EffectiveReclaimPolicy (rc_Class class) (ics_ReclaimPolicy (ic_Spec claim)) = ReclaimDelete ->
  resolution alone unharmed user claim class d = (r1, d1) ->
  Create alone unharmed user cv ns [] claim0 d = (Ok c, d2) ->
  exists out d3 poolKey res, delete_block alone (fun _ => None) id c d2 = (Ok out, d3)
    /\ inv d3 /\ db_allocs d3 = db_allocs d1 ++ res /\ Forall (reservation_of poolKey) res
    /\ db_objects d3 !! ck = None /\ db_objects d3 !! ak = None
    /\ forall k row, k <> ck -> k <> ak -> db_objects d1 !! k = Some row -> as_pool (ob_data row) = None ->
         db_objects d3 !! k = Some row.
Proof.
  intros alone unharmed id ck ak Hi Hc Hadm Ht Hpol Hres H.
  assert (Hrange : is_range claim = false) by by apply String.eqb_neq.
  pose proof (resolution_inv alone unharmed _ _ _ _ _ _ _ _ _ (fun _ _ H => H) Hi (conj Hc Hc) Hadm Hres) as Hi1.
  pose proof (created_deletable alone unharmed _ _ _ _ _ _ _ _ _ (fun _ _ H => H) Hi (conj Hc Hc) Hadm Hrange H) as Hd2.
  destruct (Create_cases _ _ _ _ _ _ _ _ _ _ H)
    as [(e & [=] & _) | (claim' & class' & r1' & d1' & Hadm' & Hres' & [(e & [=] & _) | (poolKey & u & us & dg & what & _ & _ & Hdr)])].
  change (admit_claim None user cv ns claim0 d = Ok (claim', class')) in Hadm'.
  rewrite Hadm in Hadm'. injection Hadm' as <- <-. rewrite Hres in Hres'. injection Hres' as <- <-.
  specialize (Hdr []). rewrite H, not_dry in Hdr. symmetry in Hdr. apply in_gtx_ok in Hdr as [Hdr Hok2].
  unfold allocating, recording in Hdr. rewrite Hrange in Hdr.
  apply block_transaction_ok in Hdr as (Hi2 & p & n & res & rv & _ & _ & _ & Ha & Hresv & -> & Hne & Hck & Hak & Hkept); [|done].
  set (row := claim_row _ _ n) in *. cbn zeta in Hck, Hak. fold id ck ak in Hck, Hak, Hkept, Hne.
  set (bound := bound_claim _ _ _ _) in *.
  destruct (delete_block_alone id (ic_set_rv bound (db_rv d2)) (allocationNameFor (ic_Namespace claim) (ic_Name claim)) d2
              eq_refl ltac:(done) Hd2) as (out & d3 & Hdel & [Hi3 _ Ha3 Hc3 Hdis3 Ho3]).
  assert (Hrow : after_release ck row = None).
  { unfold after_release, holds. rewrite bool_decide_true by done. unfold retains, row. cbn. by rewrite Hpol. }
  assert (Hothers : forall r, r ∈ db_allocs d1 ++ res -> ar_claim_key r <> Some ck).
  { intros r Hr E. pose proof (inv_claim_keys _ _ Hi2) as Hnd. rewrite Ha, app_assoc, omap_app in Hnd.
    apply NoDup_app in Hnd as (_ & Hd & _). refine (Hd ck _ _).
    - apply list_elem_of_omap. by exists r.
    - cbn. left. }
  exists out, d3, poolKey, res. split; [exact Hdel|]. split; [done|].
  split.
  { rewrite Ha3, Ha, app_assoc, omap_app.
    transitivity (omap (after_release ck) (db_allocs d1 ++ res) ++ []); [f_equal|].
    - change (match after_release ck row with Some y => [y] | None => [] end = []). by rewrite Hrow.
    - rewrite app_nil_r. by apply omap_keep_all. }
  split; [done|]. split; [exact Hc3|]. split.
  - unfold disposed in Hdis3. rewrite bool_decide_false in Hdis3; [exact Hdis3|]. unfold retained_by.
    intros (r & _ & [Hr [Hh%bool_decide_eq_true Hret]%andb_true_iff]%elem_of_filter_b)%list_elem_of_fmap.
    rewrite Ha, app_assoc in Hr. apply elem_of_app in Hr as [Hr | ->%list_elem_of_singleton]; [by apply (Hothers r Hr)|].
    unfold retains, row in Hret. cbn in Hret. by rewrite Hpol in Hret.
  - intros k o Hnc Hna Hok Hp. apply Ho3; [done | done | by apply Hkept | done].
Qed.
End RoundTrip.

(** ** Witnesses *)

Definition ex_id : Identity := FromContext (cx_user "alpha").
Definition ex_alloc : string := allocationNameFor "default" "c1".
Definition ex_alloc_key : string := allocationObjectKey ex_id "default" ex_alloc.

(** The claim as the store holds it. *)
Definition ex_get (name : string) (d : Db) : result GoErr IPClaim :=
  match db_objects d !! claimObjectKey ex_id "default" name with
  | Some r => match as_claim (ob_data r) with Some c => Ok c | None => Err (GText "not a claim") end
  | None => Err (GText "not found")
  end.

Definition ex_stored : IPClaim := match ex_get "c1" ex_block.2 with Ok c => c | Err _ => ex_block.1 end.

Lemma ex_admitted : exists claim class, ex_admit (ex_claim "addr" "") cx_db = Ok (claim, class)
  /\ ic_Namespace claim = "default" /\ ic_Name claim = "c1" /\ is_range claim = false.
Proof.
  assert (H : match ex_admit (ex_claim "addr" "") cx_db with
              | Ok (c, _) => String.eqb (ic_Namespace c) "default" && String.eqb (ic_Name c) "c1" && negb (is_range c)
              | Err _ => false end = true) by (vm_compute; reflexivity).
  destruct (ex_admit _ _) as [[c class]|]; [|discriminate]. exists c, class.
  apply andb_true_iff in H as [[H1%String.eqb_eq H2%String.eqb_eq]%andb_true_iff H3%negb_true_iff]. by repeat split.
Qed.

Lemma ex_deletable : deletable ex_key ex_alloc_key ex_block.2.
Proof.
  destruct ex_admitted as (claim & class & Hadm & Hns & Hn & Hr).
  pose proof (@created_deletable plain_machinery plain_rest (fun _ d => d) (fun _ => None) (cx_user "alpha") None None (ex_claim "addr" "") claim class
    cx_db ex_block.1 ex_block.2 (fun _ _ H => H) cx_inv (conj cx_counted cx_counted)
    Hadm Hr ex_block_eq) as H. rewrite Hns, Hn in H. exact H.
Qed.

Lemma ex_deletes : deletes ex_get None "c1" ex_block.2 ex_stored ex_alloc.
Proof.
  constructor; [| reflexivity | vm_compute; discriminate | vm_compute; reflexivity | vm_compute; discriminate].
  assert (is_ok (ex_get "c1" ex_block.2) = true) as H by (vm_compute; reflexivity).
  unfold ex_stored. destruct (ex_get "c1" ex_block.2); [reflexivity | discriminate].
Qed.

Lemma ex_stored_key : claimObjectKey (FromContext (cx_user "alpha")) (ic_Namespace ex_stored) (ic_Name ex_stored) = ex_key
  /\ allocationObjectKey (FromContext (cx_user "alpha")) (ic_Namespace ex_stored) ex_alloc = ex_alloc_key.
Proof. split; vm_compute; reflexivity. Qed.

(** The first two attempts are cut short. *)
Lemma Delete_completes_witness :
  let faults := fun i => if ((0 <? i) && (i <? 3))%nat then Some (GText "connection reset") else None in
  exists rv d1 d', @Delete plain_machinery ex_get (fun _ d => d) faults (cx_user "alpha") None [] "c1" ex_block.2
                   = (Ok (ic_set_rv (releasing_claim ex_stored) rv, true), d')
    /\ deletable ex_key ex_alloc_key d1 /\ claim_gone ex_key ex_alloc_key d1 d'
    /\ (forall r, r ∈ db_allocs d' -> ar_claim_key r <> Some ex_key)
    /\ forall r, stays (fun _ d => d) r -> r ∈ db_allocs ex_block.2 -> ar_claim_key r <> Some ex_key -> r ∈ db_allocs d'.
Proof.
  intros faults. rewrite <- (proj1 ex_stored_key), <- (proj2 ex_stored_key).
  refine (proj1 (proj2 (@Delete_completes plain_machinery ex_get (fun _ d => d) faults (cx_user "alpha") None "c1" ex_block.2
                          ex_stored ex_alloc _ _ ex_deletes)) _ _).
  - intros i d H. exact H.
  - rewrite (proj1 ex_stored_key), (proj2 ex_stored_key). exact ex_deletable.
  - reflexivity.
  - exists 2%nat. split; [lia | reflexivity].
Defined.

(** Every attempt is cut short. *)
Definition ex_resets (i : nat) : option GoErr := if (0 <? i)%nat then Some (GText "connection reset") else None.

Lemma Delete_gives_up_witness :
  exists r e d', @Delete plain_machinery ex_get (fun _ d => d) ex_resets (cx_user "alpha") None []
                   "c1" ex_block.2 = (Err (GWrap "release allocation after 3 attempts" e), d')
    /\ stuck_releasing ex_key ex_stored r d'.
Proof.
  assert (Hf : existsb holds_key (db_allocs ex_block.2) = true) by (vm_compute; reflexivity).
  apply existsb_exists in Hf as (r & Hr & _). apply list_elem_of_In in Hr. exists r.
  assert (H : exists e d', @Delete plain_machinery ex_get (fun _ d => d) ex_resets (cx_user "alpha")
     None [] "c1" ex_block.2 = (Err (GWrap "release allocation after 3 attempts" e), d')
    /\ Some (GText "connection reset") = Some e
    /\ stuck_releasing (claimObjectKey (FromContext (cx_user "alpha")) (ic_Namespace ex_stored) (ic_Name ex_stored)) ex_stored r d').
  { apply (@Delete_gives_up plain_machinery ex_get (fun _ d => d) ex_resets (cx_user "alpha") None
             "c1" ex_block.2 ex_stored ex_alloc r).
    - rewrite (proj1 ex_stored_key), (proj2 ex_stored_key). exact ex_deletable.
    - exact ex_deletes.
    - exact Hr.
    - intros i d Hd. exact Hd.
    - reflexivity.
    - intros j _. by eexists. }
  destruct H as (e & d' & H & _ & Hst). exists e, d'. rewrite (proj1 ex_stored_key) in Hst. split; [exact H | exact Hst].
Defined.

Lemma Create_Delete_roundtrip_witness :
  exists out d3 poolKey res, delete_block (fun _ d => d) (fun _ => None) ex_id ex_block.1 ex_block.2 = (Ok out, d3)
    /\ inv d3 /\ Forall (reservation_of poolKey) res.
Proof.
  destruct ex_admitted as (claim & class & Hadm & Hns & Hn & Hr).
  assert (Hpol : match ex_admit (ex_claim "addr" "") cx_db with
    | Ok (c, class) => String.eqb (EffectiveReclaimPolicy (rc_Class class) (ics_ReclaimPolicy (ic_Spec c))) ReclaimDelete
    | Err _ => false end = true) by (vm_compute; reflexivity).
  rewrite Hadm in Hpol. apply String.eqb_eq in Hpol.
  destruct (@Create_Delete_roundtrip plain_machinery plain_rest (cx_user "alpha") None None (ex_claim "addr" "") claim class cx_db
    (resolution (fun _ d => d) (fun _ => None) (cx_user "alpha") claim class cx_db).2 ex_block.1 ex_block.2
    (resolution (fun _ d => d) (fun _ => None) (cx_user "alpha") claim class cx_db).1 cx_inv cx_counted Hadm (proj1 (String.eqb_neq _ _) Hr)
    Hpol (surjective_pairing _) ex_block_eq) as (out & d3 & poolKey & res & H & Hi & _ & Hres & _).
  exists out, d3, poolKey, res. split; [exact H|]. split; [exact Hi | exact Hres].
Defined.

(** A range with an address claimed inside it, and one without. *)
Definition ex_second : IPClaim :=
  mkIPClaim (mkMeta "c2" ∅ ∅) "default" 0 (ic_Spec (ex_claim "addr" "")) (ic_Status (ex_claim "addr" "")).
Definition ex_busy : IPClaim * Db := ex_done [] ex_second ex_range.2.

Definition range_of (d : Db) : string := match FindScopeRange ex_key d with Ok (k, _) => k | Err _ => "" end.

Lemma range_of_eq d : FindScopeRange ex_key d = Ok (range_of d, d).
Proof. reflexivity. Qed.

Lemma ex_range_key : claimObjectKey ex_id (ic_Namespace ex_range.1) (ic_Name ex_range.1) = ex_key.
Proof. vm_compute. reflexivity. Qed.

Lemma deleteScopeRange_refuses_witness :
  @deleteScopeRange plain_machinery (fun _ d => d) (fun _ => None) ex_id ex_range.1 ex_busy.2
  = (Err (GStatus (@NewConflict plain_machinery "ipclaims" (ic_Name ex_range.1) (@text_of plain_machinery ErrScopeRangeOccupied))),
     ex_busy.2).
Proof.
  assert (Hex : existsb (fun r => String.eqb (ar_pool_key r) (range_of ex_busy.2)
                 && (negb (bool_decide (ar_purpose r = PurposeReservation)) && negb (derived_carve r))) (db_allocs ex_busy.2) = true)
    by (vm_compute; reflexivity).
  apply existsb_exists in Hex as (r & Hr & [Hk%String.eqb_eq [Hp%negb_true_iff%bool_decide_eq_false Hd%negb_true_iff]%andb_true_iff]%andb_true_iff).
  apply (@deleteScopeRange_refuses plain_machinery (fun _ d => d) (fun _ => None) ex_id ex_range.1 (range_of ex_busy.2) ex_busy.2 r).
  - rewrite ex_range_key. apply range_of_eq.
  - vm_compute. discriminate.
  - apply list_elem_of_In. exact Hr.
  - exact Hk.
  - apply live_iff. split; [exact Hp | exact Hd].
  - reflexivity.
Defined.

Definition ex_given_up : result GoErr (IPClaim * bool) * Db :=
  @deleteScopeRange plain_machinery (fun _ d => d) (fun _ => None) ex_id ex_range.1 ex_range.2.

Lemma ex_range_inv : inv ex_range.2.
Proof. exact (created_inv _ _ _ _ cx_inv (conj cx_counted cx_counted) ex_range_eq). Qed.

Lemma deleteScopeRange_keeps_live_witness :
  inv ex_given_up.2 /\ db_objects ex_given_up.2 !! range_of ex_range.2 = None
  /\ forall r, r ∈ db_allocs ex_range.2 -> live r -> ar_allocation_key r <> range_of ex_range.2 -> r ∈ db_allocs ex_given_up.2.
Proof.
  assert (Hok : is_ok ex_given_up.1 = true) by (vm_compute; reflexivity).
  destruct ex_given_up as [[x|e] d'] eqn:E; [|discriminate Hok].
  assert (Hplain : match db_objects ex_range.2 !! ex_key with Some r => bool_decide (as_pool (ob_data r) = None) | None => false end = true)
    by (vm_compute; reflexivity).
  destruct (@deleteScopeRange_keeps_live plain_machinery (fun _ d => d) (fun _ => None) ex_id ex_range.1 (range_of ex_range.2) ex_range.2 x d')
    as (H1 & H2 & _ & _ & H3).
  - exact ex_range_inv.
  - rewrite ex_range_key. intros r p Hr Hp. rewrite Hr, Hp in Hplain. discriminate Hplain.
  - rewrite ex_range_key. apply range_of_eq.
  - vm_compute. discriminate.
  - exact E.
  - split; [exact H1|]. split; [exact H2 | exact H3].
Defined.
