(* ===== verification/Pools.v ===== *)
(** * Pools: [internal/registry/ipam/ippool]

    The pool handler.  A root pool is checked against the tenant's other root pools
    and then left to the generic store; a child pool is carved out of its parent in
    a transaction of its own.  Delete refuses a pool anything is recorded in, and
    otherwise releases what the pool holds for itself.

    The generic store's create and delete, which are not under [src/], are
    arguments, and so is its read of a pool; [others] is what other transactions
    commit between the handler's own.  Conditions, spans and logs are left out. *)

From Stdlib Require Import Ascii String.
From S2P Require Import Prelude Text Float Net Cidr Reservation Allocate Consumption Scan Tenant Sha256 Scope.
From S2P Require Import NetText Types Db PoolObject Class Discover BoundedSearch Prefix Cascade.
From S2P Require Import Errors Validation Access Claim.
Open Scope string_scope.
Open Scope list_scope.
Open Scope Z_scope.

Definition poolStorageKey (project name : string) : string := ResourceKey (named project) "ippools" name.

Section Pools.
Context {api : ApiMachinery} {rest : RestCreate IPPool}.

(** ** Class offers: [offers.go] *)

(** The refusal, if any. *)
Definition validateClassOffers (user : option Extras) (pool : IPPool) (d : Db) : option GoErr :=
  let names := ps_ClassNames (pl_Spec pool) in
  if (length names <? 2)%nat then None
  else
    match rolled_back (OfferedSpaces (id_Name (FromContext user)) names) d with
    | Err e => Some (wrapped "resolve the classes the pool offers itself to" e)
    | Ok spaces =>
      match FirstDisagreement spaces with
      | None => None
      | Some _ => Some (GStatus (NewInvalid "IPPool" (pl_Name pool) (Invalid "spec.classNames")))
      end
    end.

(** What [Update] adds to the caller's validation of the object it writes. *)
Definition update_validation (user : option Extras) (updateValidation : option (IPPool -> IPPool -> option GoErr))
    (pool old : IPPool) (d : Db) : option GoErr :=
  match match updateValidation with Some v => v pool old | None => None end with
  | Some e => Some e
  | None => validateClassOffers user pool d
  end.

(** ** Root pools: [rootoverlap.go] *)

Record rootPool := mkRoot { rp_name : string; rp_cidr : IPNet }.

(** The rows the query selects: the tenant's prefix is a [LIKE] pattern as it stands. *)
Definition root_row (id : Identity) (excludeName : string) (key : string) (r : ObjRow) : bool :=
  like (ResourceKey id "ippools" "" +:+ "%") key
  && negb (String.eqb (ob_name r) excludeName)
  && match as_pool (ob_data r) with
     | Some p => bool_decide (ps_ParentPoolRef (pl_Spec p) = None) && negb (is_empty (ps_CIDR (pl_Spec p)))
     | None => false
     end.

(** One row as a root pool; a text that does not parse is skipped. *)
Definition root_of (kr : string * ObjRow) : option rootPool :=
  match as_pool (ob_data kr.2) with
  | None => None
  | Some p => match ParseCIDR (ps_CIDR (pl_Spec p)) with
              | None => None
              | Some (_, ipnet) => Some (mkRoot (ob_name kr.2) ipnet)
              end
  end.

(** The query states no order; key order stands for whichever the database takes. *)
Definition tenantRootPoolCIDRs (id : Identity) (excludeName : string) (d : Db) : list rootPool :=
  omap root_of (rows_where (root_row id excludeName) d).

Definition overlapConflict (name : string) (other : rootPool) : GoErr :=
  GStatus (NewConflict "ippools" name ("spec.cidr overlaps root IPPool " +:+ rp_name other)).

Definition validateNoRootOverlap (pool : IPPool) (id : Identity) (d : Db) : option GoErr :=
  if bool_decide (is_Some (ps_ParentPoolRef (pl_Spec pool))) || is_empty (ps_CIDR (pl_Spec pool)) then None
  else
    match ParseCIDR (ps_CIDR (pl_Spec pool)) with
    | None => Some (GStatus (NewBadRequest "parse spec.cidr"))
    | Some (_, candidate) =>
      option_map (overlapConflict (pl_Name pool))
        (List.find (fun other => CIDRsOverlap candidate (rp_cidr other)) (tenantRootPoolCIDRs id (pl_Name pool) d))
    end.

(** ** Create *)

Definition duplicatePoolConflict (poolName : string) : GoErr :=
  GStatus (NewConflict "ippools" poolName "an IPPool of this name already exists").

Definition mapPoolError (e : IpamErr) : GoErr :=
  match e with
  | ErrExhausted => GStatus (NewInsufficientStorage "parent pool exhausted")
  | ErrPoolNotFound => GStatus (NewBadRequest "parent IPPool not found")
  | _ => GStatus (NewInternalError (GIpam e))
  end.

Definition child_refusal (poolName : string) (e : IpamErr) : GoErr :=
  if IsUniqueViolation e [HolderConstraint] then duplicatePoolConflict poolName else mapPoolError e.

Definition persist_child_refusal (poolName : string) (e : IpamErr) : GoErr :=
  if IsUniqueViolation e [ObjectsPkey] then duplicatePoolConflict poolName else wrapped "persist child pool" e.

(** The carve's request: no owner, no class, no policy, and no digest. *)
Definition child_request (project : string) (pool : IPPool) (parentName ipFamily : string) : PrefixRequest :=
  let childKey := poolStorageKey project (pl_Name pool) in
  mkRequest (poolStorageKey project parentName) (ps_PrefixLength (pl_Spec pool)) ipFamily childKey childKey "" "" "" "".

(** The child as it is stored: Ready over its block, and empty. *)
Definition carved_child (pool : IPPool) (cidr : string) : IPPool :=
  let st := pl_Status pool in
  let pool := pl_set_status pool
                (mkPoolStatus PoolReady cidr (pst_IPFamily st) (pst_ScopeDigest st) (pst_Capacity st)
                   (pst_UtilizationPercent st)) in
  match ParseCIDR cidr with
  | Some (_, ipnet) => setPoolStatusCapacity pool [ipnet] []
  | None =>
    let st := pl_Status pool in
    pl_set_status pool (mkPoolStatus (pst_Phase st) (pst_AllocatedCIDR st) (pst_IPFamily st) (pst_ScopeDigest st)
                          (mkCapacity "" "" "") (pst_UtilizationPercent st))
  end.

Definition carve_child (project : string) (pool : IPPool) (parentName ipFamily : string) : GTxn IPPool :=
  cidr ← stage (child_refusal (pl_Name pool)) (AllocatePrefix (child_request project pool parentName ipFamily));
  let pool := carved_child pool cidr in
  stage (persist_child_refusal (pl_Name pool))
    (insertObject (poolStorageKey project (pl_Name pool)) "IPPool" (pl_Name pool) (DocPool pool));;
  mret pool.

Context (GetPool : string -> Db -> result GoErr IPPool).
Context (StoreCreate : IPPool -> option (IPPool -> option GoErr) -> list string -> Db -> result GoErr IPPool * Db).
Context (StoreDelete : string -> option (IPPool -> option GoErr) -> list string -> Db -> result GoErr (IPPool * bool) * Db).

Definition create_child (others : nat -> Db -> Db) (user : option Extras)
    (createValidation : option (IPPool -> option GoErr)) (parent : LocalRef) (pool : IPPool) (d : Db)
    : result GoErr IPPool * Db :=
  let id := FromContext user in
  match BeforeCreate pool_PrepareForCreate validateIPPool pool with
  | Err e => (Err e, d)
  | Ok pool =>
    match match createValidation with Some v => v pool | None => None end with
    | Some e => (Err e, d)
    | None =>
      match GetPool (lr_Name parent) d with
      | Err _ => (Err (GStatus (NewBadRequest "parent IPPool not found")), d)
      | Ok parentPool =>
        match effectiveIPFamily parentPool with
        | None => (Err (GStatus (NewBadRequest "parent IPPool has no resolved IP family")), d)
        | Some ipFamily =>
          in_gtx "commit child-pool allocation transaction" (carve_child (id_Name id) pool (lr_Name parent) ipFamily)
            (others O d)
        end
      end
    end
  end.

(** [dryRun] is the generic store's business; the child path does not look at it. *)
Definition Create (others : nat -> Db -> Db) (user : option Extras)
    (createValidation : option (IPPool -> option GoErr)) (dryRun : list string) (pool : IPPool) (d : Db)
    : result GoErr IPPool * Db :=
  match validateClassOffers user pool d with
  | Some e => (Err e, d)
  | None =>
    let d := others O d in
    match ps_ParentPoolRef (pl_Spec pool) with
    | None =>
      match validateNoRootOverlap pool (FromContext user) d with
      | Some e => (Err e, d)
      | None => StoreCreate pool createValidation dryRun (others 1%nat d)
      end
    | Some parent => create_child (fun i => others (S i)) user createValidation parent pool d
    end
  end.

(** ** Delete *)

(** [SELECT COUNT( * ) ... WHERE pool_key = $1 AND purpose <> 'Reservation'] *)
Definition active_allocations (poolKey : string) (d : Db) : nat :=
  length (List.filter (occupies poolKey) (db_allocs d)).

Definition releaseReservations (poolKey : string) : GTxn unit :=
  stage (wrapped "release pool reservations") (ReleasePoolReservations poolKey).

Definition delete_child (poolKey : string) : GTxn unit :=
  stage (wrapped "release child-pool reservations") (ReleasePoolReservations poolKey);;
  stage (wrapped "release child-pool allocation") (Release poolKey);;
  stage (wrapped "delete child-pool row") (deleteObject poolKey);;
  mret tt.

Definition Delete (others : nat -> Db -> Db) (user : option Extras) (deleteValidation : option (IPPool -> option GoErr))
    (dryRun : list string) (name : string) (d : Db) : result GoErr (IPPool * bool) * Db :=
  match GetPool name d with
  | Err e => (Err e, d)
  | Ok pool =>
    match match deleteValidation with Some v => v pool | None => None end with
    | Some e => (Err e, d)
    | None =>
      let poolKey := poolStorageKey (id_Name (FromContext user)) name in
      let d := others O d in
      if (0 <? active_allocations poolKey d)%nat
      then (Err (GStatus (NewConflict "ippools" name "cannot delete IPPool with active allocations")), d)
      else
        match ps_ParentPoolRef (pl_Spec pool) with
        | None =>
          match in_gtx "commit reservation release transaction" (releaseReservations poolKey) (others 1%nat d) with
          | (Err e, d) => (Err e, d)
          | (Ok _, d) => StoreDelete name deleteValidation dryRun (others 2%nat d)
          end
        | Some _ =>
          match in_gtx "commit child-pool delete transaction" (delete_child poolKey) (others 1%nat d) with
          | (Err e, d) => (Err e, d)
          | (Ok _, d) => (Ok (pool, true), d)
          end
        end
    end
  end.
End Pools.
