(* ===== verification/PoolLaws.v ===== *)
(** * PoolLaws: what creating and deleting a pool promises

    Two root pools of a tenant are not admitted over one address; a child pool's
    range is a block of its parent that nothing else holds in the parent's own
    space; a pool in use is not deleted, and one that is not in use always can be.
    Three closed runs show where the handler falls short of what the allocator
    guarantees for the pools it provisions itself. *)

From Stdlib Require Import Ascii String.
From S2P Require Import Prelude Text Float Net Cidr Reservation Allocate Consumption Scan Tenant Sha256 Scope.
From S2P Require Import NetText NetParse Types Db PoolObject Class Discover BoundedSearch Prefix PoolInvariant.
From S2P Require Import PoolWrites Cascade Provision Range ObjectLaws Errors Validation ValidationLaws Access.
From S2P Require Import Claim ClaimLaws ClaimDelete Pools.
Open Scope string_scope.
Open Scope list_scope.
Open Scope Z_scope.

(** ** Root pools *)

(** No backslash, [LIKE]'s escape. *)
Fixpoint unescaped (s : string) : bool :=
  match s with "" => true | String c s => negb (Ascii.eqb c "\") && unescaped s end.

(** A text without escapes, read as a pattern, matches at least itself. *)
Lemma like_literal t : forall s, unescaped t = true -> HasPrefix s t = true -> like (t +:+ "%") s = true.
Proof.
  induction t as [|c t IH]; intros s Hu Hp; [apply like_any|].
  cbn [unescaped] in Hu. apply andb_true_iff in Hu as [Hc%negb_true_iff Hu].
  destruct s as [|d s]; [done|]. cbn [HasPrefix] in Hp. apply andb_true_iff in Hp as [Hcd Hp].
  assert (E : c = d) by (first [by apply Ascii.eqb_eq | symmetry; by apply Ascii.eqb_eq]). subst d.
  change (String c t +:+ "%") with (String c (t +:+ "%")). specialize (IH s Hu Hp). cbn [like].
  destruct (Ascii.eqb c "%"); [apply orb_true_iff; right; by destruct s; rewrite IH|].
  destruct (Ascii.eqb c "_"); [exact IH|]. rewrite Hc, Ascii.eqb_refl. exact IH.
Qed.

Section Laws.
Context {api : ApiMachinery} {rest : RestCreate IPPool}.

(** A range that is not IPv4 written as IPv6. *)
Definition not_mapped (n : IPNet) : Prop := forall t ones, n = mk_net t ones 128 -> ~ v4mapped t.

(** [C30] When the check lets a root pool through, no address of its range is in the range
    of any other root pool stored under the tenant's keys, in the state the check reads,
    the pool of its own name and ranges that are IPv4 written as IPv6 apart.  The store
    that follows is another transaction: a pool created between the two is not seen. *)
Theorem no_root_overlap pool id d ip candidate :
  unescaped (ResourceKey id "ippools" "") = true ->
  ps_ParentPoolRef (pl_Spec pool) = None -> ParseCIDR (ps_CIDR (pl_Spec pool)) = Some (ip, candidate) -> not_mapped candidate ->
  validateNoRootOverlap pool id d = None ->
  forall key r other oip n,
    db_objects d !! key = Some r -> HasPrefix key (ResourceKey id "ippools" "") = true ->
    as_pool (ob_data r) = Some other -> ob_name r <> pl_Name pool ->
    ps_ParentPoolRef (pl_Spec other) = None -> ParseCIDR (ps_CIDR (pl_Spec other)) = Some (oip, n) -> not_mapped n ->
    forall bits x, covers candidate bits x = true -> covers n bits x = false.
Proof.
  intros Hu Hroot Hp Hm Hv key r other oip n Hr Hpre Hpool Hname Hroot' Hp' Hm' bits x Hx. apply not_true_iff_false. intros Hy.
  assert (Hne : forall p i m, ParseCIDR (ps_CIDR (pl_Spec p)) = Some (i, m) -> is_empty (ps_CIDR (pl_Spec p)) = false).
  { intros p i m. unfold is_empty. by destruct (String.eqb_spec (ps_CIDR (pl_Spec p)) "") as [->|]. }
  unfold validateNoRootOverlap in Hv. rewrite Hroot, (Hne pool _ _ Hp), Hp in Hv. cbn [bool_decide orb] in Hv.
  rewrite bool_decide_false in Hv by (by intros [? ?]). cbn [orb] in Hv.
  destruct (List.find _ _) eqn:Hf; [done|]. rewrite find_none_iff in Hf.
  assert (CIDRsOverlap candidate n = true) as Hov.
  { apply CIDRsOverlap_iff; [by apply (ParseCIDR_typed _ _ _ Hp) | by apply (ParseCIDR_typed _ _ _ Hp')|].
    exists x. by pose proof Hx as [-> _]%covers_spec. }
  apply (eq_true_false_abs _ Hov), (Hf (mkRoot (ob_name r) n)). apply list_elem_of_omap. exists (key, r). split.
  - apply rows_where_elem. split; [done|]. unfold root_row. rewrite like_literal by done. rewrite Hpool, Hroot', (Hne other _ _ Hp').
    apply String.eqb_neq in Hname as ->. done.
  - unfold root_of. cbn [snd]. by rewrite Hpool, Hp'.
Qed.

(** ** Children *)

Lemma carved_child_spec pool n :
  wf_net n -> parsePoolCIDR (carved_child pool (IPNet_String n)) = Ok [n]
  /\ pl_Spec (carved_child pool (IPNet_String n)) = pl_Spec pool /\ pl_Meta (carved_child pool (IPNet_String n)) = pl_Meta pool.
Proof.
  intros Hn. unfold carved_child. rewrite (ParseCIDR_text n Hn).
  unfold setPoolStatusCapacity. destruct (Measure [n] [] noReservation).
  - split; [by apply parsePoolCIDR_carved | done].
  - split; [by apply parsePoolCIDR_carved | done].
Qed.

Lemma validated_counts p : validateIPPool p = [] -> counts_ok (reservationFrom (ps_Reservations (pl_Spec p))).
Proof.
  unfold validateIPPool. intros H. no_errors.
  destruct (ps_Reservations (pl_Spec p)) as [spec|]; [|by split]. by eapply reservations_counts.
Qed.

(** What the carve's transaction leaves. *)
Lemma carve_child_ok project pool parentName family d c d' :
  inv d -> counts_ok (reservationFrom (ps_Reservations (pl_Spec pool))) ->
  carve_child project pool parentName family d = Ok (c, d') ->
  let parentKey := poolStorageKey project parentName in
  let childKey := poolStorageKey project (pl_Name pool) in
  inv d' /\ exists p n res,
    let row := claim_row (child_request project pool parentName family) EmptyAddressSpaceDigest n in
    c = carved_child pool (IPNet_String n)
    /\ pool_range d' parentKey p /\ inside p n /\ pones n = ps_PrefixLength (pl_Spec pool)
    /\ pool_range d' childKey n
    /\ db_allocs d' = db_allocs d ++ res ++ [row] /\ Forall (reservation_of parentKey) res
    /\ (forall r, r ∈ db_allocs d -> ar_pool_key r = parentKey -> net_overlap (ar_cidr r) n = true ->
          ar_purpose r = PurposeClaim /\ ar_scope_digest r <> EmptyAddressSpaceDigest)
    /\ db_identity d' = db_identity d.
Proof.
  intros Hi Hc H parentKey childKey. apply gtxn_bind_ok in H as (s & d1 & H1%stage_ok & H).
  apply AllocatePrefix_run in H1 as (p & n & res & Hp & Hin & Hu & -> & Hfree & Ha & Hres & Hi1 & Hr1 & Hid1); [|done].
  apply gtxn_bind_ok in H as (rv & d2 & H2%stage_ok & [= <- <-]).
  destruct (carved_child_spec pool n ltac:(apply Hin)) as (Hparse & Hspec & Hmeta).
  destruct (insertObject_pool d1 _ _ _ _ n rv d2 Hi1 H2 Hparse) as (Hnew & Hi2 & _ & Hr2 & Ha2 & Hid2).
  { eapply good_sub; [apply (inv_range _ _ Hi parentKey p Hp) | done]. }
  { by rewrite Hspec. }
  split; [done|]. exists p, n, res. cbn zeta. split; [done|]. split; [apply Hr2; left; by apply Hr1|]. split; [done|]. split; [done|].
  split. { apply Hr2. right. split; [|done]. unfold childKey, pl_Name. by rewrite Hmeta. }
  split; [by rewrite Ha2, Ha|]. split; [done|]. split; [done|]. by rewrite Hid2.
Qed.

Context (GetPool : string -> Db -> result GoErr IPPool).
Context (StoreCreate : IPPool -> option (IPPool -> option GoErr) -> list string -> Db -> result GoErr IPPool * Db).
Context (StoreDelete : string -> option (IPPool -> option GoErr) -> list string -> Db -> result GoErr (IPPool * bool) * Db).

Lemma Create_child others user cv dr pool parent d c d' :
  ps_ParentPoolRef (pl_Spec pool) = Some parent ->
  Pools.Create GetPool StoreCreate others user cv dr pool d = (Ok c, d') ->
  exists pool' family, BeforeCreate pool_PrepareForCreate validateIPPool pool = Ok pool'
    /\ carve_child (id_Name (FromContext user)) pool' (lr_Name parent) family (others 1%nat (others O d)) = Ok (c, d').
Proof.
  intros Hp. unfold Pools.Create. destruct (validateClassOffers user pool d); [done|]. rewrite Hp. unfold create_child.
  destruct (BeforeCreate _ _ pool) as [pool'|]; [|done]. destruct (match cv with Some v => v pool' | None => None end); [done|].
  destruct (GetPool _ _) as [parentPool|]; [|done]. destruct (effectiveIPFamily parentPool) as [family|]; [|done].
  intros [H _]%in_gtx_ok. by exists pool', family.
Qed.

(** [C22] A child pool that is created is given a block of the length it asks for inside
    its parent's range, disjoint from everything recorded in the parent that is not
    a claim of some other address space.  The block is the child's range, it is
    recorded in the parent under the child's key, and the ledger is consistent. *)
Theorem Create_child_sound others user cv dr pool parent d c d' :
  (forall i d, inv d -> inv (others i d)) -> inv d ->
  ps_ParentPoolRef (pl_Spec pool) = Some parent ->
  Pools.Create GetPool StoreCreate others user cv dr pool d = (Ok c, d') ->
  let project := id_Name (FromContext user) in
  let parentKey := poolStorageKey project (lr_Name parent) in
  let childKey := poolStorageKey project (pl_Name c) in
  inv d' /\ exists p n row,
    pool_range d' parentKey p /\ inside p n /\ pones n = ps_PrefixLength (pl_Spec c)
    /\ pool_range d' childKey n /\ pst_AllocatedCIDR (pl_Status c) = IPNet_String n
    /\ row ∈ db_allocs d' /\ ar_pool_key row = parentKey /\ ar_cidr row = n /\ ar_claim_key row = Some childKey
    /\ forall r, r ∈ db_allocs d' -> r <> row -> ar_pool_key r = parentKey -> net_overlap (ar_cidr r) n = true ->
         ar_purpose r = PurposeClaim /\ ar_scope_digest r <> EmptyAddressSpaceDigest.
Proof.
  intros Ho Hi Hp H project parentKey childKey. destruct (Create_child _ _ _ _ _ _ _ _ _ Hp H) as (pool' & family & Hb & Hc).
  assert (Hcounts : counts_ok (reservationFrom (ps_Reservations (pl_Spec pool')))).
  { apply BeforeCreate_ok in Hb as (meta & _ & Hv). by apply validated_counts. }
  apply carve_child_ok in Hc as (Hi' & p & n & res & -> & Hpr & Hin & Hu & Hcr & Ha & Hres & _ & _); [|auto|done].
  destruct (carved_child_spec pool' n ltac:(apply Hin)) as (_ & Hspec & Hmeta).
  split; [done|]. cbn zeta in Ha. set (row := claim_row _ _ n) in Ha. exists p, n, row.
  assert (Hrow : row ∈ db_allocs d') by (rewrite Ha; apply elem_of_app; right; apply elem_of_app; right; left).
  assert (Hname : pl_Name (carved_child pool' (IPNet_String n)) = pl_Name pool') by (unfold pl_Name; by rewrite Hmeta).
  unfold childKey. rewrite Hname, Hspec. split; [done|]. split; [done|]. split; [done|]. split; [done|].
  split. { unfold carved_child, setPoolStatusCapacity. destruct (ParseCIDR _) as [[? ?]|]; [destruct (Measure _ _ _)|]; done. }
  split; [done|]. split; [done|]. split; [done|]. split; [done|].
  intros r Hr Hne Hk Hov. by destruct (rows_compatible d' r row Hi' Hr Hrow Hne Hk Hov) as (H1 & H2 & H3).
Qed.

(** ** Deleting *)

(** A pool anything is recorded in, its own reserved positions apart, is not
    deleted: the answer is Conflict and nothing changes. *)
Theorem Delete_refuses_occupied others user dv dr name d pool r :
  GetPool name d = Ok pool -> match dv with Some v => v pool | None => None end = None ->
  let poolKey := poolStorageKey (id_Name (FromContext user)) name in
  r ∈ db_allocs (others O d) -> ar_pool_key r = poolKey -> ar_purpose r <> PurposeReservation ->
  exists e, Pools.Delete GetPool StoreDelete others user dv dr name d = (Err (GStatus e), others O d)
            /\ st_Code e = StatusConflict.
Proof.
  intros Hg Hv poolKey Hr Hk Hp. unfold Pools.Delete. rewrite Hg, Hv. fold poolKey.
  assert (Hn : (0 <? active_allocations poolKey (others O d))%nat = true).
  { apply Nat.ltb_lt. unfold active_allocations.
    assert (Hin : r ∈ List.filter (occupies poolKey) (db_allocs (others O d))).
    { apply elem_of_filter_b. split; [done|]. unfold occupies, in_pool. by rewrite Hk, String.eqb_refl, bool_decide_false. }
    destruct (List.filter _ _); [by apply not_elem_of_nil in Hin | cbn; lia]. }
  rewrite Hn. eexists. split; [done | apply NewConflict_code].
Qed.

Lemma release_own_reservations k d :
  inv d -> exists d', ReleasePoolReservations k d = Ok (tt, d') /\ inv d'
    /\ db_allocs d' = List.filter (fun r => negb (in_pool k r && bool_decide (ar_purpose r = PurposeReservation))) (db_allocs d)
    /\ db_identity d' = db_identity d /\ same_ranges d d'.
Proof.
  intros Hi. apply deleteAllocations_ok; [done|]. apply apart_held.
  - eapply ForallOrdPairs_sublist; [apply filter_sublist | apply (inv_apart _ _ Hi)].
  - intros r [_ [_ ->%bool_decide_eq_true]%andb_true_iff]%elem_of_filter_b. done.
Qed.

(** Deleting a child nothing is recorded in. *)
Lemma delete_child_ok k d :
  inv d -> identity_ok d = true -> (forall r, r ∈ db_allocs d -> occupies k r = false) ->
  exists d', delete_child k d = Ok (tt, d') /\ inv d' /\ identity_ok d' = true /\ db_objects d' !! k = None
    /\ (forall r, r ∈ db_allocs d' -> ar_pool_key r <> k /\ ar_claim_key r <> Some k)
    /\ forall r, r ∈ db_allocs d -> ar_pool_key r <> k -> ar_claim_key r <> Some k -> r ∈ db_allocs d'.
Proof.
  intros Hi Hok Hocc. destruct (release_own_reservations k d Hi) as (d1 & H1 & Hi1 & Ha1 & Hid1 & Hr1).
  destruct (release_run k d1 Hi1) as (d2 & H2 & Hi2 & Ha2 & Hid2 & Hr2).
  assert (Hrow1 : forall r, r ∈ db_allocs d1 -> r ∈ db_allocs d /\ ar_pool_key r <> k).
  { intros r Hr. rewrite Ha1 in Hr. apply elem_of_filter_b in Hr as [Hr Hn%negb_true_iff]. split; [done|]. intros E.
    specialize (Hocc r Hr). unfold occupies, in_pool in *. rewrite E, String.eqb_refl in *. cbn [andb] in *.
    apply negb_false_iff in Hocc. congruence. }
  assert (Hrow2 : forall r, r ∈ db_allocs d2 -> ar_pool_key r <> k /\ ar_claim_key r <> Some k).
  { intros r Hr. rewrite Ha2 in Hr. apply list_elem_of_omap in Hr as (r0 & Hr0 & E). apply Hrow1 in Hr0 as [_ Hr0].
    unfold after_release in E. destruct (holds k r0) eqn:Hh.
    - destruct (retains r0); [|done]. by injection E as <-.
    - injection E as <-. split; [done|]. by apply bool_decide_eq_false in Hh. }
  destruct (deleteObject_free k d2 (fun r Hr => proj1 (Hrow2 r Hr))) as (rv & d3 & H3 & Ho3 & Ha3 & Hid3).
  destruct (deleteObject_ok k d2 rv d3 Hi2 H3) as (Hi3 & _ & Hgone & _).
  pose proof (deleteAllocations_keeps _ _ _ _ H1) as K1. pose proof (Release_keeps _ _ _ _ H2) as K2.
  assert (Hok2 : identity_ok d2 = true).
  { apply (identity_ok_same d1); [done | intros k'; apply (kp_dom _ _ K2)|].
    apply (identity_ok_same d); [done | intros k'; apply (kp_dom _ _ K1) | done]. }
  exists d3. split.
  { unfold delete_child, stage. unfold mbind, gtxn_bind. rewrite H1. cbn [wrap_err]. rewrite H2. cbn [wrap_err]. by rewrite H3. }
  split; [done|]. split; [by eapply delete_commits|]. split; [done|]. split; [by rewrite Ha3|].
  intros r Hr Hk Hc. rewrite Ha3, Ha2. apply list_elem_of_omap. exists r. split.
  - rewrite Ha1. apply elem_of_filter_b. split; [done|]. apply negb_true_iff, andb_false_iff. left. by apply String.eqb_neq.
  - unfold after_release, holds. by rewrite bool_decide_false.
Qed.

(** A child pool nothing is recorded in can always be deleted.  Its own carve, the
    positions it withholds and its object go; every row of another pool that it does
    not hold stays, and the ledger is consistent. *)
Theorem Delete_child_completes others user dv dr name d pool parent :
  GetPool name d = Ok pool -> match dv with Some v => v pool | None => None end = None ->
  ps_ParentPoolRef (pl_Spec pool) = Some parent ->
  let poolKey := poolStorageKey (id_Name (FromContext user)) name in
  let d0 := others 1%nat (others O d) in
  inv d0 -> identity_ok d0 = true ->
  (forall r, r ∈ db_allocs (others O d) -> occupies poolKey r = false) ->
  (forall r, r ∈ db_allocs d0 -> occupies poolKey r = false) ->
  exists d', Pools.Delete GetPool StoreDelete others user dv dr name d = (Ok (pool, true), d')
    /\ inv d' /\ db_objects d' !! poolKey = None
    /\ (forall r, r ∈ db_allocs d' -> ar_pool_key r <> poolKey /\ ar_claim_key r <> Some poolKey)
    /\ forall r, r ∈ db_allocs d0 -> ar_pool_key r <> poolKey -> ar_claim_key r <> Some poolKey -> r ∈ db_allocs d'.
Proof.
  intros Hg Hv Hp poolKey d0 Hi Hok Hocc Hocc0.
  destruct (delete_child_ok poolKey d0 Hi Hok Hocc0) as (d' & H & Hi' & Hok' & Hgone & Hrows & Hkept). exists d'.
  split; [|by split_and!]. unfold Pools.Delete. rewrite Hg, Hv. fold poolKey.
  assert (active_allocations poolKey (others O d) = 0%nat) as ->.
  { unfold active_allocations. destruct (List.filter _ _) as [|r l] eqn:E; [done|]. exfalso.
    assert (Hr : r ∈ r :: l) by left. rewrite <- E in Hr. apply elem_of_filter_b in Hr as [Hr Ho]. by rewrite Hocc in Ho. }
  cbn [Nat.ltb Nat.leb]. rewrite Hp. fold d0. unfold in_gtx. by rewrite H, Hok'.
Qed.
End Laws.

(** ** Witnesses *)

#[refine] Definition plain_rest_pool : RestCreate IPPool := {|
  obj_meta := pl_Meta;
  obj_set_meta p m := mkPool m (pl_Spec p) (pl_Status p);
  BeforeCreate prepare validate p :=
    match validate (prepare p) with [] => Ok (prepare p) | _ => Err (GText "invalid") end
|}.
Proof.
  intros prepare validate p p'. destruct (validate (prepare p)) eqn:E; [|done]. intros [= <-].
  exists (pl_Meta (prepare p)). by destruct (prepare p).
Defined.

(** The generic store of project [alpha]: read, create and delete by key. *)
Definition ex_read_pool (name : string) (d : Db) : result GoErr IPPool :=
  match db_objects d !! poolStorageKey "alpha" name with
  | Some r => match as_pool (ob_data r) with Some p => Ok p | None => Err (GText "not a pool") end
  | None => Err (GText "not found")
  end.

Definition ex_store_create (pool : IPPool) (cv : option (IPPool -> option GoErr)) (dr : list string) (d : Db)
    : result GoErr IPPool * Db :=
  let p := pool_PrepareForCreate pool in
  match validateIPPool p with
  | [] => in_gtx "commit" (stage (wrapped "create") (insertObject (poolStorageKey "alpha" (pl_Name p)) "IPPool" (pl_Name p) (DocPool p));;
                           mret p) d
  | _ => (Err (GText "invalid"), d)
  end.

Definition ex_store_delete (name : string) (dv : option (IPPool -> option GoErr)) (dr : list string) (d : Db)
    : result GoErr (IPPool * bool) * Db :=
  match ex_read_pool name d with
  | Err e => (Err e, d)
  | Ok p => in_gtx "commit" (stage (wrapped "delete") (deleteObject (poolStorageKey "alpha" name));; mret (p, true)) d
  end.

Local Abbreviation ex_pool_create :=
  (@Pools.Create plain_machinery plain_rest_pool ex_read_pool ex_store_create (fun _ d => d) (cx_user "alpha") None []).
Local Abbreviation ex_pool_delete :=
  (@Pools.Delete plain_machinery ex_read_pool ex_store_delete (fun _ d => d) (cx_user "alpha") None []).

Definition ex_child : IPPool :=
  mkPool (mkMeta "child" ∅ ∅)
    (mkPoolSpec "" "" (Some (mkLocalRef "p")) 31 [] None ∅ None None (mkAllocationSpec 0 0 "") "") pending_status.

Definition ex_parented : result GoErr IPPool * Db := ex_pool_create ex_child cx_db.
Definition pool_of (r : result GoErr IPPool) : IPPool := match r with Ok p => p | Err _ => ex_child end.

Lemma ex_parented_eq : ex_parented = (Ok (pool_of ex_parented.1), ex_parented.2).
Proof.
  assert (H : is_ok ex_parented.1 = true) by (vm_compute; reflexivity).
  destruct ex_parented as [[p|e] d]; [reflexivity | discriminate H].
Qed.

Lemma Create_child_sound_witness :
  inv ex_parented.2 /\ exists p n, pool_range ex_parented.2 (poolStorageKey "alpha" "p") p /\ inside p n
    /\ pst_AllocatedCIDR (pl_Status (pool_of ex_parented.1)) = IPNet_String n.
Proof.
  destruct (@Create_child_sound plain_machinery plain_rest_pool ex_read_pool ex_store_create (fun _ d => d) (cx_user "alpha")
    None [] ex_child (mkLocalRef "p") cx_db (pool_of ex_parented.1) ex_parented.2 (fun _ _ H => H) cx_inv eq_refl ex_parented_eq)
    as (Hi & p & n & row & Hp & Hn & _ & _ & Hs & _).
  split; [exact Hi|]. exists p, n. split; [exact Hp|]. split; [exact Hn | exact Hs].
Defined.

(** A second root pool beside the first. *)
Definition ex_root (name cidr : string) : IPPool :=
  mkPool (mkMeta name ∅ ∅) (mkPoolSpec cidr IPv4 None 0 [] None ∅ None None (mkAllocationSpec 0 0 "") "") pending_status.

Lemma not_mapped_short n : length (ipnet_IP n) = 4%nat -> not_mapped n.
Proof. intros E t ones ->. cbn [mk_net ipnet_IP] in E. by rewrite length_encode in E. Qed.

Lemma no_root_overlap_witness :
  exists ip n, ParseCIDR "10.0.0.8/29" = Some (ip, n)
    /\ forall bits x, covers n bits x = true -> covers (mk_net (10 * 2 ^ 24) 29 32) bits x = false.
Proof.
  destruct (ParseCIDR "10.0.0.8/29") as [[ip n]|] eqn:E; [|vm_compute in E; discriminate E].
  destruct (ParseCIDR "10.0.0.0/29") as [[oip o]|] eqn:E2; [|vm_compute in E2; discriminate E2].
  exists ip, n. split; [reflexivity|].
  assert (o = mk_net (10 * 2 ^ 24) 29 32) as <- by (vm_compute in E2; injection E2 as _ <-; reflexivity).
  apply (@no_root_overlap plain_machinery (ex_root "q" "10.0.0.8/29") (named "alpha") cx_db ip n)
    with (key := cx_pool_key) (r := mkObj "IPPool" "p" (DocPool cx_pool) 3) (other := cx_pool) (oip := oip);
    try reflexivity; [exact E | | discriminate | exact E2 |];
    apply not_mapped_short; [vm_compute in E; injection E as _ <- | vm_compute in E2; injection E2 as _ <-]; vm_compute; reflexivity.
Defined.

Lemma Delete_refuses_occupied_witness :
  exists e, @Pools.Delete plain_machinery ex_read_pool ex_store_delete (fun _ d => d) (cx_user "alpha") None [] "p" ex_parented.2
            = (Err (GStatus e), ex_parented.2) /\ st_Code e = StatusConflict.
Proof.
  assert (Hex : existsb (fun r => String.eqb (ar_pool_key r) (poolStorageKey "alpha" "p")
                 && negb (bool_decide (ar_purpose r = PurposeReservation))) (db_allocs ex_parented.2) = true) by (vm_compute; reflexivity).
  apply existsb_exists in Hex as (r & Hr & [Hk%String.eqb_eq Hp%negb_true_iff%bool_decide_eq_false]%andb_true_iff).
  assert (Hg : is_ok (ex_read_pool "p" ex_parented.2) = true) by (vm_compute; reflexivity).
  destruct (ex_read_pool "p" ex_parented.2) as [pool|e] eqn:Eg; [|discriminate Hg].
  apply (@Delete_refuses_occupied plain_machinery ex_read_pool ex_store_delete (fun _ d => d) (cx_user "alpha") None [] "p"
           ex_parented.2 pool r); [exact Eg | reflexivity | apply list_elem_of_In; exact Hr | exact Hk | exact Hp].
Defined.

Lemma Delete_child_completes_witness :
  exists pool d', @Pools.Delete plain_machinery ex_read_pool ex_store_delete (fun _ d => d) (cx_user "alpha") None [] "child"
                    ex_parented.2 = (Ok (pool, true), d')
    /\ inv d' /\ db_objects d' !! poolStorageKey "alpha" "child" = None.
Proof.
  assert (Hg : match ex_read_pool "child" ex_parented.2 with
               | Ok p => bool_decide (ps_ParentPoolRef (pl_Spec p) = Some (mkLocalRef "p")) | Err _ => false end = true)
    by (vm_compute; reflexivity).
  destruct (ex_read_pool "child" ex_parented.2) as [pool|e] eqn:Eg; [|discriminate Hg].
  assert (Hocc : forall r, r ∈ db_allocs ex_parented.2 -> occupies (poolStorageKey "alpha" "child") r = false).
  { apply existsb_false. vm_compute. reflexivity. }
  destruct (@Delete_child_completes plain_machinery ex_read_pool ex_store_delete (fun _ d => d) (cx_user "alpha") None [] "child"
    ex_parented.2 pool (mkLocalRef "p") Eg eq_refl (proj1 (bool_decide_eq_true _) Hg) (proj1 Create_child_sound_witness)
    ltac:(vm_compute; reflexivity) Hocc Hocc) as (d' & H & Hi & Hgone & _).
  exists pool, d'. split; [exact H|]. split; [exact Hi | exact Hgone].
Defined.

(** ** Where the pool handler falls short *)

(** A /31 for a claim of project [alpha] in the address space [space]. *)
Definition ex_block_request (poolKey claimKey space : string) : PrefixRequest :=
  mkRequest poolKey 31 IPv4 claimKey claimKey "alpha" space "net" "".

(** One claim drawn from the parent, another from the child, one after the other. *)
Definition drawn_twice (space : string) (d : Db) : option (string * string) :=
  match AllocatePrefix (ex_block_request (poolStorageKey "alpha" "p") "claim-1" space) d with
  | Ok (a, d) =>
    match AllocatePrefix (ex_block_request (poolStorageKey "alpha" "child") "claim-2" space) d with
    | Ok (b, _) => Some (a, b)
    | Err _ => None
    end
  | Err _ => None
  end.

(** A child pool's range is not its own.  The handler records the carve as a claim
    under no scope, so a claim of any other address space may be given addresses
    inside it; and a claim of the same space drawn from the child is then given the
    same block: two holders of one block in one address space. *)
Theorem child_carve_is_shared :
  drawn_twice "space-1" ex_parented.2 = Some ("10.0.0.2/31", "10.0.0.2/31")
  /\ pst_AllocatedCIDR (pl_Status (pool_of ex_parented.1)) = "10.0.0.2/31".
Proof. split; vm_compute; reflexivity. Qed.

(** The range of [net] is bound to a claim, and its pool is deleted. *)
Definition ex_range_name : string := after_last_slash (range_of ex_range.2) "".
Definition ex_stranded : result GoErr (IPPool * bool) * Db := ex_pool_delete ex_range_name ex_range.2.

(** Deleting the pool of a range a claim holds strands the range: the delete
    succeeds, for the pool is empty, but its carve stays recorded in the pool above
    under the claim that holds it, and a claim that was served before is refused once
    it needs the pool provisioned again. *)
Theorem bound_pool_delete_strands :
  (is_ok ex_stranded.1, bool_decide (db_objects ex_stranded.2 !! range_of ex_range.2 = None),
   existsb (fun r => String.eqb (ar_allocation_key r) (range_of ex_range.2)) (db_allocs ex_stranded.2),
   is_ok (@Claim.Create plain_machinery plain_rest (fun _ d => d) (fun _ => None) (cx_user "alpha") None None [] ex_second ex_range.2).1,
   is_ok (@Claim.Create plain_machinery plain_rest (fun _ d => d) (fun _ => None) (cx_user "alpha") None None [] ex_second ex_stranded.2).1)
  = (true, true, true, true, false).
Proof. vm_compute. reflexivity. Qed.

(** Between the check of one root pool and its store, another is created. *)
Definition racing (i : nat) (d : Db) : Db :=
  if (i =? 1)%nat then (ex_pool_create (ex_root "a" "192.168.0.0/24") d).2 else d.

Definition ex_raced : result GoErr IPPool * Db :=
  @Pools.Create plain_machinery plain_rest_pool ex_read_pool ex_store_create racing (cx_user "alpha") None []
    (ex_root "b" "192.168.0.0/25") cx_db.

(** The overlap check and the store are two transactions, so two root pools created
    at once may both be admitted over one range. *)
Theorem root_overlap_races :
  is_ok ex_raced.1 = true
  /\ (exists e, @validateNoRootOverlap plain_machinery (ex_root "b" "192.168.0.0/25") (named "alpha") ex_raced.2 = Some e)
  /\ is_ok (ex_pool_create (ex_root "b" "192.168.0.0/25") (racing 1 cx_db)).1 = false.
Proof. split; [vm_compute; reflexivity|]. split; [vm_compute; by eexists | vm_compute; reflexivity]. Qed.
