(* ===== verification/Registry.v ===== *)
(** * Registry: [internal/registry/ipam/ipclass] and [ipallocation]

    The class handler's create, which authorizes a reference into another project
    and keeps a class out of pools that serve a class of another address space; and
    the allocation handler's delete, the only way to hand a retained address back. *)

From Stdlib Require Import Ascii String.
From S2P Require Import Prelude Text Float Net Cidr Reservation Allocate Consumption Scan Tenant Sha256 Scope.
From S2P Require Import NetText Types Db PoolObject Class Discover BoundedSearch Prefix PoolInvariant.
From S2P Require Import PoolWrites Cascade Provision Range ObjectLaws Errors Validation Access.
From S2P Require Import Claim ClaimLaws ClaimDelete.
Open Scope string_scope.
Open Scope list_scope.
Open Scope Z_scope.

Section Classes.
Context {api : ApiMachinery}.

(** ** Classes *)

(** The refusal, if any.  [classChecker] answers whether the caller may use a class of
    another project, or fails. *)
Definition authorizeSource (user : option Extras) (classChecker : option (string -> string -> bool * option GoErr))
    (class : IPClass) : option GoErr :=
  match cs_Source (cl_Spec class) with
  | None => None
  | Some src =>
    let forbidden (detail : string) := GStatus (NewForbidden "ipclasses" (cl_Name class) detail) in
    if String.eqb (csr_Project src) (id_Name (FromContext user)) then None
    else
      match classChecker with
      | None => Some (forbidden "cross-project class references are unavailable")
      | Some check =>
        match check (csr_Project src) (csr_Name src) with
        | (_, Some e) => Some (GStatus (NewInternalError (GWrap "authorize class reference" e)))
        | (allowed, None) => if allowed then None else Some (forbidden "not authorized to use the source class")
        end
      end
  end.

Definition validateOfferAgreement (user : option Extras) (class : IPClass) (d : Db) : option GoErr :=
  let sp := cl_Spec class in
  if bool_decide (is_Some (cs_Source sp)) || negb (is_empty (cs_ParentClassName sp)) then None
  else
    match rolled_back (ClassJoinsDisagreement (id_Name (FromContext user)) (mkSpace (cl_Name class) (cs_UniqueWithin sp))) d with
    | Err e => Some (wrapped "resolve the pools offering the class" e)
    | Ok None => None
    | Ok (Some _) => Some (GStatus (NewInvalid "IPClass" (cl_Name class) (Invalid "spec.uniqueWithin")))
    end.

(** [StoreCreate] is the generic store's. *)
Definition class_Create (others : nat -> Db -> Db) (user : option Extras)
    (classChecker : option (string -> string -> bool * option GoErr))
    (StoreCreate : IPClass -> Db -> result GoErr IPClass * Db) (class : IPClass) (d : Db) : result GoErr IPClass * Db :=
  match authorizeSource user classChecker class with
  | Some e => (Err e, d)
  | None =>
    match validateOfferAgreement user class d with
    | Some e => (Err e, d)
    | None => StoreCreate class (others O d)
    end
  end.
End Classes.

(** ** Allocations *)

Section Allocations.
Context {api : ApiMachinery} (GetAlloc : string -> Db -> result GoErr IPAllocation).

Definition release_allocation (key : string) : GTxn unit :=
  stage (wrapped "release retained allocation") (ReleaseAllocation key);;
  stage (wrapped "delete IPAllocation row") (deleteObject key);;
  mret tt.

Definition allocation_Delete (others : nat -> Db -> Db) (user : option Extras)
    (deleteValidation : option (IPAllocation -> option GoErr)) (dryRun : list string) (name : string) (d : Db)
    : result GoErr (IPAllocation * bool) * Db :=
  match GetAlloc name d with
  | Err e => (Err e, d)
  | Ok alloc =>
    match match deleteValidation with Some v => v alloc | None => None end with
    | Some e => (Err e, d)
    | None =>
      match ValidateDelete alloc with
      | [] =>
        if isDryRun dryRun then (Ok (alloc, true), d)
        else
          let key := allocationObjectKey (FromContext user) (al_Namespace alloc) (al_Name alloc) in
          match in_gtx "commit allocation delete transaction" (release_allocation key) (others O d) with
          | (Err e, d) => (Err e, d)
          | (Ok _, d) => (Ok (alloc, true), d)
          end
      | errs => (Err (GStatus (NewInvalid "IPAllocation" name errs)), d)
      end
    end
  end.

(** The items one after another: a missing one is skipped, the other failures are
    joined at the end. *)
Fixpoint delete_allocations (others : nat -> nat -> Db -> Db) (IsNotFound : GoErr -> bool) (user : option Extras)
    (deleteValidation : option (IPAllocation -> option GoErr)) (dryRun : list string)
    (i : nat) (names : list string) (d : Db) : list IPAllocation * list GoErr * Db :=
  match names with
  | [] => ([], [], d)
  | name :: rest =>
    match allocation_Delete (others i) user deleteValidation dryRun name d with
    | (Err e, d) =>
      let '(deleted, errs, d) := delete_allocations others IsNotFound user deleteValidation dryRun (S i) rest d in
      (deleted, if IsNotFound e then errs else GWrap ("delete allocation " +:+ name) e :: errs, d)
    | (Ok (a, _), d) =>
      let '(deleted, errs, d) := delete_allocations others IsNotFound user deleteValidation dryRun (S i) rest d in
      (a :: deleted, errs, d)
    end
  end.

Definition allocation_DeleteCollection (others : nat -> nat -> Db -> Db) (IsNotFound : GoErr -> bool)
    (user : option Extras) (deleteValidation : option (IPAllocation -> option GoErr)) (dryRun : list string)
    (listed : result GoErr (list IPAllocation)) (d : Db) : list IPAllocation * option GoErr * Db :=
  match listed with
  | Err e => ([], Some (GWrap "list allocations for deletecollection" e), d)
  | Ok allocs =>
    let '(deleted, errs, d) :=
      delete_allocations others IsNotFound user deleteValidation dryRun O (map al_Name allocs) d in
    (deleted, match errs with [] => None | _ => Some (GJoin errs) end, d)
  end.
End Allocations.

(** ** What the class handler admits *)

(** A class that is created was allowed: a reference into another project only when
    a checker is configured and said so without error, and a class pools draw from
    directly only when every pool already offering its name serves its address
    space alone.  A checker that fails, or is missing, admits nothing. *)
Theorem class_Create_gates {api : ApiMachinery} others user checker StoreCreate class d c d' :
  class_Create others user checker StoreCreate class d = (Ok c, d') ->
  StoreCreate class (others O d) = (Ok c, d')
  /\ (forall src, cs_Source (cl_Spec class) = Some src -> csr_Project src <> id_Name (FromContext user) ->
        exists check, checker = Some check /\ check (csr_Project src) (csr_Name src) = (true, None))
  /\ (cs_Source (cl_Spec class) = None -> cs_ParentClassName (cl_Spec class) = "" ->
        rolled_back (ClassJoinsDisagreement (id_Name (FromContext user))
          (mkSpace (cl_Name class) (cs_UniqueWithin (cl_Spec class)))) d = Ok None).
Proof.
  unfold class_Create. destruct (authorizeSource user checker class) as [e|] eqn:Ha; [done|].
  destruct (validateOfferAgreement user class d) as [e|] eqn:Hv; [done|]. intros H. split; [done|]. split.
  - intros src Hs Hne. unfold authorizeSource in Ha. rewrite Hs in Ha. apply String.eqb_neq in Hne. rewrite Hne in Ha.
    destruct checker as [check|]; [|done]. exists check. split; [done|].
    destruct (check _ _) as [[|] [e|]]; done.
  - intros Hs Hp. unfold validateOfferAgreement in Hv. rewrite Hs, Hp in Hv. cbn [is_empty String.eqb negb] in Hv.
    rewrite bool_decide_false in Hv by (by intros [? ?]). cbn [orb] in Hv. destruct (rolled_back _ d) as [[?|]|]; done.
Qed.

(** ** What deleting an allocation does *)

Lemma release_allocation_ok key d :
  inv d -> identity_ok d = true -> not_pool d key ->
  exists d', release_allocation key d = Ok (tt, d') /\ inv d' /\ identity_ok d' = true /\ db_objects d' !! key = None
    /\ db_allocs d' = List.filter (fun r => negb (String.eqb (ar_allocation_key r) key)) (db_allocs d).
Proof.
  intros Hi Hok Hn.
  destruct (deleteAllocations_ok (fun r => String.eqb (ar_allocation_key r) key) d Hi) as (d1 & H1 & Hi1 & Ha1 & Hid1 & _).
  { apply apart_short, filter_key_short, (inv_alloc_keys _ _ Hi). }
  pose proof (deleteAllocations_keeps _ _ _ _ H1) as K1.
  assert (Hn1 : not_pool d1 key).
  { intros r p Hr E. assert (is_Some (db_objects d !! key)) as [r0 Hr0] by (apply (kp_dom _ _ K1); by exists r).
    assert (Hp : as_pool (ob_data r0) = None).
    { destruct (as_pool (ob_data r0)) as [q|] eqn:Eq; [|done]. apply as_pool_Some in Eq. by destruct (Hn r0 q Hr0). }
    pose proof (kp_plain _ _ K1 key r0 Hr0 Hp) as Hr1. rewrite Hr in Hr1. injection Hr1 as <-. by rewrite E in Hp. }
  destruct (delete_plain key d1 Hi1 Hn1) as (rv & d2 & H2 & Hi2 & Ho2 & Ha2 & Hid2 & _).
  exists d2. split.
  { unfold release_allocation, stage. unfold mbind, gtxn_bind. unfold ReleaseAllocation. rewrite H1. cbn [wrap_err]. by rewrite H2. }
  split; [done|]. split.
  { eapply delete_commits; [exact Ho2 | exact Hid2|]. apply (identity_ok_same d); [done | intros k; apply (kp_dom _ _ K1) | done]. }
  split; [rewrite Ho2; apply lookup_delete_eq | by rewrite Ha2].
Qed.

Section Laws.
Context {api : ApiMachinery} (GetAlloc : string -> Db -> result GoErr IPAllocation).

(** An allocation a claim is bound to is never deleted: the answer is Invalid and
    nothing changes, in a dry run or not. *)
Theorem allocation_Delete_refuses_bound others user dv dr name d alloc ref :
  GetAlloc name d = Ok alloc -> match dv with Some v => v alloc | None => None end = None ->
  als_ClaimRef (al_Spec alloc) = Some ref -> lr_Name ref <> "" ->
  exists e, allocation_Delete GetAlloc others user dv dr name d = (Err (GStatus e), d)
            /\ st_Code e = StatusUnprocessableEntity.
Proof.
  intros Hg Hv Href Hne. unfold allocation_Delete. rewrite Hg, Hv. unfold ValidateDelete. rewrite Href. unfold is_empty.
  apply String.eqb_neq in Hne as ->. cbn [negb when]. eexists. split; [done | apply NewInvalid_code].
Qed.

(** What a delete of an unbound allocation leaves. *)
Lemma allocation_Delete_run others user dv name d alloc :
  let key := allocationObjectKey (FromContext user) (al_Namespace alloc) (al_Name alloc) in
  let d0 := others O d in
  GetAlloc name d = Ok alloc -> match dv with Some v => v alloc | None => None end = None -> ValidateDelete alloc = [] ->
  inv d0 -> identity_ok d0 = true -> not_pool d0 key ->
  exists d', allocation_Delete GetAlloc others user dv [] name d = (Ok (alloc, true), d')
    /\ inv d' /\ db_objects d' !! key = None
    /\ db_allocs d' = List.filter (fun r => negb (String.eqb (ar_allocation_key r) key)) (db_allocs d0).
Proof.
  intros key d0 Hg Hv Hd Hi Hok Hn. destruct (release_allocation_ok key d0 Hi Hok Hn) as (d' & H & Hi' & Hok' & Ho' & Ha').
  exists d'. split; [|by split_and!]. unfold allocation_Delete. rewrite Hg, Hv, Hd, not_dry. fold key d0.
  unfold in_gtx. by rewrite H, Hok'.
Qed.

(** A retained address comes back.  A claim under policy Retain has been deleted;
    its allocation is stored unbound, so deleting that is not refused: it succeeds,
    the allocation and its row are gone, so that nothing holds the address, and no
    other row is touched. *)
Theorem retained_address_returns user dv name ck ak d1 d row0 row alloc :
  deletable ck ak d1 -> claim_gone ck ak d1 d -> ak ∈ retained_by ck d1 ->
  db_objects d1 !! ak = Some row0 -> db_objects d !! ak = Some row -> ob_data row = DocAllocation alloc ->
  allocationObjectKey (FromContext user) (al_Namespace alloc) (al_Name alloc) = ak ->
  GetAlloc name d = Ok alloc -> match dv with Some v => v alloc | None => None end = None ->
  exists d', allocation_Delete GetAlloc (fun _ d => d) user dv [] name d = (Ok (alloc, true), d')
    /\ inv d' /\ db_objects d' !! ak = None
    /\ (forall r, r ∈ db_allocs d' -> ar_allocation_key r <> ak)
    /\ forall r, r ∈ db_allocs d -> ar_allocation_key r <> ak -> r ∈ db_allocs d'.
Proof.
  intros Hd1 [Hi Hok _ _ Hdis _] Hret Hrow0 Hrow Hdoc Hkey Hg Hv.
  assert (Hval : ValidateDelete alloc = []).
  { destruct (dl_alloc _ _ _ Hd1 row0 Hrow0) as [a0 Ha0]. unfold disposed in Hdis. rewrite bool_decide_true in Hdis by done.
    destruct (Hdis row0 a0 Hrow0 Ha0) as (row' & Hrow' & Hdoc'). rewrite Hrow in Hrow'. injection Hrow' as <-.
    rewrite Hdoc in Hdoc'. injection Hdoc' as ->. done. }
  destruct (allocation_Delete_run (fun _ d => d) user dv name d alloc Hg Hv Hval Hi Hok) as (d' & H & Hi' & Ho' & Ha').
  { rewrite Hkey. apply (not_pool_row d ak row); [done | by rewrite Hdoc]. }
  rewrite Hkey in Ho', Ha'. exists d'. split; [done|]. split; [done|]. split; [done|]. rewrite Ha'. split.
  - intros r [_ Hr%negb_true_iff%String.eqb_neq]%elem_of_filter_b. done.
  - intros r Hr Hne. apply elem_of_filter_b. split; [done|]. by apply negb_true_iff, String.eqb_neq.
Qed.
End Laws.

(** ** Witnesses *)

Definition ex_source_class : IPClass :=
  mkClass (mkMeta "ref" ∅ ∅)
    (mkClassSpec (Some (mkSource "alpha" "net")) "" "" "" [] [] None 0 None (mkRouting "" "") "" "" None "" ∅) "".

Lemma class_Create_gates_witness :
  exists check, Some (fun _ _ => (true, None)) = Some check /\ check "alpha" "net" = (true, None : option GoErr).
Proof.
  destruct (@class_Create_gates plain_machinery (fun _ d => d) (cx_user "beta") (Some (fun _ _ => (true, None)))
    (fun c d => (Ok c, d)) ex_source_class cx_db ex_source_class cx_db eq_refl) as (_ & H & _).
  exact (H (mkSource "alpha" "net") eq_refl ltac:(discriminate)).
Defined.

Definition ex_read_alloc (name : string) (d : Db) : result GoErr IPAllocation :=
  match db_objects d !! allocationObjectKey ex_id "default" name with
  | Some r => match as_allocation (ob_data r) with Some a => Ok a | None => Err (GText "not an allocation") end
  | None => Err (GText "not found")
  end.

Lemma allocation_Delete_refuses_bound_witness :
  exists e, @allocation_Delete plain_machinery ex_read_alloc (fun _ d => d) (cx_user "alpha") None [] ex_alloc ex_block.2
            = (Err (GStatus e), ex_block.2) /\ st_Code e = StatusUnprocessableEntity.
Proof.
  assert (H : match ex_read_alloc ex_alloc ex_block.2 with
              | Ok a => bool_decide (als_ClaimRef (al_Spec a) = Some (mkLocalRef "c1")) | Err _ => false end = true)
    by (vm_compute; reflexivity).
  destruct (ex_read_alloc ex_alloc ex_block.2) as [a|e] eqn:E; [|discriminate H].
  apply (@allocation_Delete_refuses_bound plain_machinery ex_read_alloc (fun _ d => d) (cx_user "alpha") None [] ex_alloc
           ex_block.2 a (mkLocalRef "c1")); [exact E | reflexivity | exact (proj1 (bool_decide_eq_true _) H) | discriminate].
Defined.

(** The example claim, under policy Retain, created and deleted. *)
Definition ex_retaining : IPClaim :=
  let sp := ic_Spec (ex_claim "addr" "") in
  ic_set_spec (ex_claim "addr" "")
    (mkClaimSpec (ics_ClassName sp) (ics_IPFamily sp) (ics_AddressScope sp) (ics_Address sp) (ics_PrefixLength sp)
       (ics_Scope sp) (ics_Target sp) ReclaimRetain (ics_OwnerRef sp)).
Definition ex_kept : IPClaim * Db := ex_done [] ex_retaining cx_db.

Lemma ex_kept_deletable : deletable ex_key ex_alloc_key ex_kept.2.
Proof.
  assert (H : match ex_admit ex_retaining cx_db with
              | Ok (c, _) => String.eqb (ic_Namespace c) "default" && String.eqb (ic_Name c) "c1" && negb (is_range c)
              | Err _ => false end = true) by (vm_compute; reflexivity).
  destruct (ex_admit ex_retaining cx_db) as [[c class]|] eqn:Hadm; [|discriminate H].
  apply andb_true_iff in H as [[H1%String.eqb_eq H2%String.eqb_eq]%andb_true_iff H3%negb_true_iff].
  pose proof (@created_deletable plain_machinery plain_rest (fun _ d => d) (fun _ => None) (cx_user "alpha") None None ex_retaining c class
    cx_db ex_kept.1 ex_kept.2 (fun _ _ H => H) cx_inv (conj cx_counted cx_counted) Hadm H3
    (ex_done_eq [] ex_retaining cx_db ltac:(vm_compute; reflexivity))) as Hd.
  rewrite H1, H2 in Hd. exact Hd.
Qed.

Lemma retained_address_returns_witness :
  exists d alloc d', @allocation_Delete plain_machinery ex_read_alloc (fun _ d => d) (cx_user "alpha") None [] ex_alloc d
                     = (Ok (alloc, true), d')
    /\ inv d' /\ forall r, r ∈ db_allocs d' -> ar_allocation_key r <> ex_alloc_key.
Proof.
  assert (Href : match icst_BoundAllocationRef (ic_Status ex_kept.1) with
                 | Some r => String.eqb (lr_Name r) ex_alloc | None => false end
                 && String.eqb (ic_Namespace ex_kept.1) "default" && String.eqb (ic_Name ex_kept.1) "c1" = true) by (vm_compute; reflexivity).
  apply andb_true_iff in Href as [[Href Hns%String.eqb_eq]%andb_true_iff Hn%String.eqb_eq].
  destruct (icst_BoundAllocationRef (ic_Status ex_kept.1)) as [[rn]|] eqn:Eref; [|discriminate Href].
  cbn [lr_Name] in Href. apply String.eqb_eq in Href as ->.
  pose proof (@releaseAndDelete_ok ex_id ex_kept.1 ex_alloc ex_kept.2 Eref ltac:(discriminate)) as Hrel.
  rewrite Hns, Hn in Hrel. fold ex_key ex_alloc_key in Hrel. destruct (Hrel ex_kept_deletable) as (d & Hrun & Hi & Hok & Ha & Hc & Hdis & Hoth).
  assert (Hret : ex_alloc_key ∈ retained_by ex_key ex_kept.2).
  { apply (bool_decide_eq_true (ex_alloc_key ∈ retained_by ex_key ex_kept.2)). vm_compute. reflexivity. }
  assert (H0 : match db_objects ex_kept.2 !! ex_alloc_key with
               | Some r => match as_allocation (ob_data r) with
                           | Some a => String.eqb (allocationObjectKey ex_id (al_Namespace a) (al_Name a)) ex_alloc_key
                           | None => false end | None => false end = true) by (vm_compute; reflexivity).
  destruct (db_objects ex_kept.2 !! ex_alloc_key) as [row0|] eqn:Hrow0; [|discriminate H0].
  destruct (as_allocation (ob_data row0)) as [a0|] eqn:Ha0; [|discriminate H0].
  apply String.eqb_eq in H0. apply as_allocation_Some in Ha0.
  pose proof Hdis as Hdis'. unfold disposed in Hdis'. rewrite bool_decide_true in Hdis' by exact Hret.
  destruct (Hdis' row0 a0 Hrow0 Ha0) as (row & Hrow & Hdoc).
  assert (Hget : ex_read_alloc ex_alloc d = Ok (unbound_allocation a0)).
  { unfold ex_read_alloc. fold ex_alloc_key. rewrite Hrow, Hdoc. reflexivity. }
  destruct (@retained_address_returns plain_machinery ex_read_alloc (cx_user "alpha") None ex_alloc ex_key ex_alloc_key
    ex_kept.2 d row0 row (unbound_allocation a0) ex_kept_deletable (Build_claim_gone _ _ _ _ Hi Hok Ha Hc Hdis Hoth) Hret
    Hrow0 Hrow Hdoc H0 Hget eq_refl) as (d' & H & Hi' & _ & Hgone & _).
  exists d, (unbound_allocation a0), d'. split; [exact H|]. split; [exact Hi' | exact Hgone].
Defined.
