(* ===== verification/Nesting.v ===== *)
(** * Nesting: pools carved out of pools

    A pool with a parent hands out from the block its own row holds of that parent
    ([linked]).  Every operation of the allocator keeps it: most because they leave the
    ranges, the parents and the blocks alone ([calm]), provisioning because it writes
    the row and the pool together.  [Service] has the consequence for whole trees of
    pools. *)

From Stdlib Require Import Ascii String.
From S2P Require Import Prelude Text Float Net Cidr Reservation Allocate Consumption Scan Tenant Sha256 Scope.
From S2P Require Import NetText Types Db PoolObject Class Discover BoundedSearch Prefix PoolInvariant.
From S2P Require Import PoolWrites Cascade Provision Range ObjectLaws.
Open Scope string_scope.
Open Scope list_scope.
Open Scope Z_scope.

(** A stored pool that names a parent. *)
Definition is_child (d : Db) (k : string) : Prop :=
  exists row pool, db_objects d !! k = Some row /\ ob_data row = DocPool pool /\ ps_ParentPoolRef (pl_Spec pool) <> None.

(** Rows other than a pool's own reservations. *)
Definition held_row (r : AllocRow) : Prop := ar_purpose r <> PurposeReservation.

(** The row recorded under a child pool's key is the block that pool hands out from. *)
Definition linked (d : Db) : Prop := forall s p,
  s ∈ db_allocs d -> held_row s -> is_child d (ar_allocation_key s) -> pool_range d (ar_allocation_key s) p -> p = ar_cidr s.

(** A row that is another but for who holds it. *)
Definition same_block (s s' : AllocRow) : Prop :=
  ar_purpose s = ar_purpose s' /\ ar_allocation_key s = ar_allocation_key s' /\ ar_cidr s = ar_cidr s'.

(** No child pool appears or moves, and no row appears under the key of one. *)
Record calm (d d' : Db) : Prop := {
  cm_child : forall k, is_child d' k -> is_child d k;
  cm_range : forall k p, is_child d' k -> pool_range d' k p -> pool_range d k p;
  cm_rows : forall s', s' ∈ db_allocs d' -> held_row s' -> is_child d' (ar_allocation_key s') ->
    exists s, s ∈ db_allocs d /\ same_block s s'
}.

Lemma calm_linked d d' : calm d d' -> linked d -> linked d'.
Proof.
  intros C H s' p Hs Hh Hc Hp. destruct (cm_rows _ _ C s' Hs Hh Hc) as (s & Hs0 & Ep & Ek & Ec). rewrite <- Ec.
  apply H; [done | unfold held_row in *; congruence | rewrite Ek; by apply (cm_child _ _ C) | rewrite Ek; by apply (cm_range _ _ C)].
Qed.

Lemma calm_trans a b c : calm a b -> calm b c -> calm a c.
Proof.
  intros C1 C2. constructor.
  - intros k Hk. by apply (cm_child _ _ C1), (cm_child _ _ C2).
  - intros k p Hk Hp. apply (cm_range _ _ C1); [by apply (cm_child _ _ C2) | by apply (cm_range _ _ C2)].
  - intros s Hs Hh Hk. destruct (cm_rows _ _ C2 s Hs Hh Hk) as (s1 & Hs1 & P1 & K1 & N1).
    destruct (cm_rows _ _ C1 s1 Hs1) as (s0 & Hs0 & P0 & K0 & N0).
    + unfold held_row in *. congruence.
    + rewrite K1. by apply (cm_child _ _ C2).
    + exists s0. split; [done|]. split_and!; congruence.
Qed.

(** *** Objects *)

Lemma keeps_child d d' k : keeps_plain d d' -> is_child d' k ->
  exists row row' q q', db_objects d !! k = Some row /\ ob_data row = DocPool q /\ db_objects d' !! k = Some row'
    /\ ob_data row' = DocPool q' /\ same_pool q' q /\ ps_ParentPoolRef (pl_Spec q) <> None.
Proof.
  intros K (row' & q' & Hr' & Hq' & Hp). destruct (proj1 (kp_dom _ _ K k)) as [row Hr]; [by exists row'|].
  destruct (as_pool (ob_data row)) as [q|] eqn:Hq.
  - destruct (kp_pool _ _ K k row q Hr Hq) as (row2 & q2 & Hr2 & Hq2 & Hs). rewrite Hr' in Hr2. injection Hr2 as <-.
    rewrite Hq' in Hq2. injection Hq2 as <-. apply as_pool_Some in Hq. exists row, row', q, q'.
    split_and!; try done. by rewrite <- (proj1 Hs).
  - pose proof (kp_plain _ _ K k row Hr Hq) as Hr2. rewrite Hr' in Hr2. injection Hr2 as <-. by rewrite Hq' in Hq.
Qed.

(** Every row was there, but for who holds it. *)
Definition rows_from (d d' : Db) : Prop :=
  forall s', s' ∈ db_allocs d' -> held_row s' -> exists s, s ∈ db_allocs d /\ same_block s s'.

Lemma rows_from_same d d' : db_allocs d' = db_allocs d -> rows_from d d'.
Proof. intros E s' Hs _. rewrite E in Hs. by exists s'. Qed.

Lemma calm_objects d d' : keeps_plain d d' ->
  (forall s', s' ∈ db_allocs d' -> held_row s' -> is_child d' (ar_allocation_key s') -> exists s, s ∈ db_allocs d /\ same_block s s') ->
  calm d d'.
Proof.
  intros K Hr. constructor; [| |exact Hr].
  - intros k Hk. destruct (keeps_child d d' k K Hk) as (row & row' & q & q' & H1 & H2 & _ & _ & _ & H3). by exists row, q.
  - intros k p Hk (r & q0 & Hr0 & Hq0 & Hp). destruct (keeps_child d d' k K Hk) as (row & row' & q & q' & H1 & H2 & H3 & H4 & H5 & _).
    rewrite Hr0 in H3. injection H3 as <-. rewrite Hq0 in H4. injection H4 as <-. exists row, q. by rewrite <- (same_pool_parse _ _ H5).
Qed.

Lemma calm_keeps d d' : keeps_plain d d' -> rows_from d d' -> calm d d'.
Proof. intros K H. apply calm_objects; [done|]. intros s' Hs Hh _. by apply H. Qed.

Lemma calm_same d d' : db_objects d' = db_objects d -> rows_from d d' -> calm d d'.
Proof. intros E. apply calm_keeps, keeps_refl, E. Qed.

(** An object that is not a child pool written, or any object gone. *)
Lemma calm_put d d' k r :
  db_objects d' = <[k := r]> (db_objects d) -> (forall p, ob_data r = DocPool p -> ps_ParentPoolRef (pl_Spec p) = None) ->
  db_allocs d' = db_allocs d -> calm d d'.
Proof.
  intros E Hr Ha.
  assert (forall k', is_child d' k' -> k' <> k /\ db_objects d' !! k' = db_objects d !! k') as Hk.
  { intros k' (row & q & Hrow & Hq & Hp). rewrite E in Hrow |- *. destruct (decide (k' = k)) as [->|Hne].
    - rewrite lookup_insert_eq in Hrow. injection Hrow as <-. by destruct Hp; apply Hr.
    - split; [done|]. by rewrite lookup_insert_ne. }
  constructor.
  - intros k' Hk'. destruct (Hk k' Hk') as [_ El]. destruct Hk' as (row & q & Hrow & H). exists row, q. by rewrite <- El.
  - intros k' p Hk'. destruct (Hk k' Hk') as [_ El]. unfold pool_range. by rewrite El.
  - intros s' Hs _ _. rewrite Ha in Hs. by exists s'.
Qed.

Lemma calm_gone d d' k : db_objects d' = delete k (db_objects d) -> db_allocs d' = db_allocs d -> calm d d'.
Proof.
  intros E Ha.
  assert (forall k' row, db_objects d' !! k' = Some row -> db_objects d !! k' = Some row) as Hk.
  { intros k' row. rewrite E. by intros [_ ?]%lookup_delete_Some. }
  constructor.
  - intros k' (row & q & Hrow & H). exists row, q. split; [by apply Hk | done].
  - intros k' p _ (row & q & Hrow & H). exists row, q. split; [by apply Hk | done].
  - intros s' Hs _ _. rewrite Ha in Hs. by exists s'.
Qed.

(** *** Rows given back *)

Lemma updateObject_allocs k doc d rv d' : updateObject k doc d = Ok (rv, d') -> db_allocs d' = db_allocs d.
Proof.
  unfold updateObject, update_object_row. unfold mbind, txn_bind. destruct (db_objects d !! k); [|done]. intros [= _ <-]. by destruct doc.
Qed.

Lemma insertObject_allocs k kind name doc d rv d' : insertObject k kind name doc d = Ok (rv, d') -> db_allocs d' = db_allocs d.
Proof.
  unfold insertObject, insert_object_row, check, stmt. unfold mbind, txn_bind. destruct (bool_decide _); [|done]. intros [= _ <-]. by destruct doc.
Qed.

Lemma insertObject_other k kind name doc d rv d' k' :
  insertObject k kind name doc d = Ok (rv, d') -> k' <> k -> db_objects d' !! k' = db_objects d !! k'.
Proof.
  unfold insertObject, insert_object_row, check, stmt. unfold mbind, txn_bind. destruct (bool_decide _); [|done].
  intros [= _ <-] Hne. by destruct doc; cbn; rewrite lookup_insert_ne.
Qed.

Lemma insert_plain_calm k kind name doc d rv d' :
  as_pool doc = None -> insertObject k kind name doc d = Ok (rv, d') -> calm d d'.
Proof.
  intros Hp H. pose proof (insertObject_allocs _ _ _ _ _ _ _ H) as Ha.
  revert H. unfold insertObject, insert_object_row, check, stmt. unfold mbind, txn_bind. destruct (bool_decide _); [|done].
  intros [= _ <-]. eapply calm_put; [by destruct doc| |exact Ha]. cbn. intros p ->. done.
Qed.

Lemma update_calm k doc d rv d' :
  (forall p, doc = DocPool p -> exists row q, db_objects d !! k = Some row /\ ob_data row = DocPool q
     /\ parsePoolCIDR p = parsePoolCIDR q /\ (ps_ParentPoolRef (pl_Spec q) = None -> ps_ParentPoolRef (pl_Spec p) = None)) ->
  updateObject k doc d = Ok (rv, d') -> calm d d'.
Proof.
  intros Hdoc H. pose proof (updateObject_allocs _ _ _ _ _ H) as Ha.
  assert (exists r, db_objects d' = <[k := r]> (db_objects d) /\ ob_data r = doc) as (r & E & Hr).
  { revert H. unfold updateObject, update_object_row. unfold mbind, txn_bind. destruct (db_objects d !! k); [|done].
    intros [= _ <-]. eexists. split; [by destruct doc | reflexivity]. }
  assert (forall k', is_child d' k' -> is_child d k' /\ forall p, pool_range d' k' p -> pool_range d k' p) as Hk.
  { intros k' (row' & p & Hrow & Hp & Hn). rewrite E in Hrow. unfold pool_range. rewrite E. destruct (decide (k' = k)) as [->|Hne].
    - rewrite lookup_insert_eq in Hrow |- *. injection Hrow as <-. rewrite Hr in Hp.
      destruct (Hdoc p Hp) as (row & q & Hrow & Hq & Hc & Hpn). split; [exists row, q; split_and!; [done..|by intros ?%Hpn]|].
      intros n (r' & p' & [= <-] & Hp' & Hn'). rewrite Hr, Hp in Hp'. injection Hp' as <-. exists row, q. by rewrite <- Hc.
    - rewrite lookup_insert_ne in Hrow |- * by done. by split; [exists row', p|]. }
  constructor; [intros k' H1; by apply Hk | intros k' n H1; by apply Hk |]. intros s' Hs _ _. rewrite Ha in Hs. by exists s'.
Qed.

Lemma update_plain_calm k doc d rv d' : as_pool doc = None -> updateObject k doc d = Ok (rv, d') -> calm d d'.
Proof. intros Hp. apply update_calm. by intros p ->. Qed.

Lemma deleteObject_calm k d x d' : deleteObject k d = Ok (x, d') -> calm d d'.
Proof.
  unfold deleteObject, delete_object_row. unfold mbind, txn_bind.
  destruct (db_objects d !! k); [|intros [= _ <-]; apply calm_same; [done | by apply rows_from_same]].
  destruct (existsb _ _); [done|]. intros [= _ <-]. by apply (calm_gone _ _ k).
Qed.

Lemma account_release_allocs r d u d' : account_release tt r d = Ok (u, d') -> db_allocs d' = db_allocs d.
Proof.
  unfold account_release, select_object, read, lift. unfold mbind, txn_bind.
  destruct (db_objects d !! ar_pool_key r) as [row|]; [|by intros [= _ <-]].
  destruct (as_pool (ob_data row)) as [pool|]; [|done]. destruct (parsePoolCIDR pool) as [ps|]; [|done].
  destruct (consumptionAfterRelease _ ps _ d) as [[n d1]|] eqn:Hc; [|done].
  assert (d1 = d) as ->.
  { revert Hc. unfold consumptionAfterRelease, loadOverlapping, readConsumed, select_consumed, seedConsumption,
      loadExistingAllocations, read, lift. unfold mbind, txn_bind.
    destruct (db_consumed d !! _); [destruct (RemovedConsumption _ _ _) | destruct (Measure _ _ _)]; by try intros [= _ <-]. }
  unfold writeConsumed, upsert_consumed, check, write. unfold mbind, txn_bind.
  destruct (0 <=? n); [|done]. destruct (bool_decide _); [|done].
  destruct (persistPoolCapacity _ _ _ _ _) as [[x d2]|] eqn:H2; [|done]. intros [= _ <-].
  unfold persistPoolCapacity in H2. apply txn_bind_ok in H2 as (rv & d3 & H3 & [= _ <-]). by apply updateObject_allocs in H3.
Qed.

Lemma releases_allocs rows : forall d u d', each account_release tt rows d = Ok (u, d') -> db_allocs d' = db_allocs d.
Proof.
  induction rows as [|r rows IH]; intros d u d'; cbn [each]; [by intros [= _ <-]|].
  intros ([] & d1 & H1 & H)%txn_bind_ok. by rewrite (IH _ _ _ H), (account_release_allocs _ _ _ _ H1).
Qed.

Lemma lower_floors_allocs rows d : db_allocs (foldl (fun d r => lower_floors r d) d rows) = db_allocs d.
Proof. revert d. induction rows as [|r rows IH]; intros d; [done|]. cbn. by rewrite IH. Qed.

Lemma deleteAllocations_calm cond d u d' : deleteAllocations cond d = Ok (u, d') -> calm d d'.
Proof.
  intros H. apply calm_keeps; [by eapply deleteAllocations_keeps|]. unfold deleteAllocations, delete_allocs in H.
  apply txn_bind_ok in H as (gone & d1 & [= <- <-] & H). apply releases_allocs in H. rewrite lower_floors_allocs in H. cbn in H.
  intros s' Hs _. rewrite H in Hs. apply list_elem_of_In, filter_In in Hs as [Hs _]. exists s'. by rewrite list_elem_of_In.
Qed.

Lemma relabel_calm (f : AllocRow -> AllocRow) d d' :
  (forall r, same_block r (f r)) -> db_objects d' = db_objects d -> db_allocs d' = map f (db_allocs d) -> calm d d'.
Proof.
  intros Hf Ho Ha. apply calm_same; [done|]. intros s' Hs _. rewrite Ha in Hs. apply list_elem_of_In, in_map_iff in Hs as (s & <- & Hs).
  exists s. by rewrite list_elem_of_In.
Qed.

Lemma with_claim_block (cond : AllocRow -> bool) c r : same_block r (if cond r then with_claim c r else r).
Proof. by destruct (cond r). Qed.

Lemma Release_calm ck d x d' : Release ck d = Ok (x, d') -> calm d d'.
Proof.
  unfold Release. intros (retained & d1 & H1 & H)%txn_bind_ok. apply txn_bind_ok in H as ([] & d2 & H2 & [= _ <-]).
  eapply calm_trans; [|by eapply deleteAllocations_calm]. rewrite retainAllocations_eq in H1. injection H1 as _ <-.
  eapply (relabel_calm (unbound _)); [intros r; apply with_claim_block | reflexivity | reflexivity].
Qed.

Lemma bind_objects k ck d n d' : BindScopeRange k ck d = Ok (n, d') -> db_objects d' = db_objects d.
Proof.
  unfold BindScopeRange, set_claim_where, read, mbind, txn_bind. cbv zeta.
  destruct ((_ <? _) || _); [done|]. cbn. destruct (List.filter _ _); [by repeat case_match|]. by intros [= _ <-].
Qed.

Lemma bind_calm k ck d n d' : inv d -> BindScopeRange k ck d = Ok (n, d') -> calm d d'.
Proof.
  intros Hi H. destruct (bind_took k ck d n d' Hi H) as (r & _ & _ & _ & Ha & _).
  eapply relabel_calm; [intros r'; apply with_claim_block|by eapply bind_objects|exact Ha].
Qed.

(** *** Rows taken *)

Lemma taken_calm d d' res row :
  keeps_plain d d' -> db_allocs d' = db_allocs d ++ res ++ [row] -> Forall (reservation_of (ar_pool_key row)) res ->
  ~ is_child d (ar_allocation_key row) -> calm d d'.
Proof.
  intros K Ha Hres Hn. apply calm_objects; [done|]. intros s' Hs Hh Hc. rewrite Ha in Hs.
  apply elem_of_app in Hs as [Hs|[Hs|Hs]%elem_of_app]; [by exists s'| |].
  - destruct Hh. rewrite Forall_forall in Hres. by apply Hres.
  - apply list_elem_of_singleton in Hs as ->. destruct Hn.
    destruct (keeps_child _ _ _ K Hc) as (r0 & r1 & q0 & q1 & H1 & H2 & _ & _ & _ & H3). by exists r0, q0.
Qed.

Lemma AllocatePrefix_calm req d s d' :
  inv d -> AllocatePrefix req d = Ok (s, d') ->
  ~ is_child d (if String.eqb (rq_AllocationKey req) "" then rq_ClaimKey req else rq_AllocationKey req) -> calm d d'.
Proof.
  intros Hi H Hn. destruct (AllocatePrefix_run req d s d' Hi H) as (p & n & res & _ & _ & _ & _ & _ & Ha & Hres & _).
  eapply taken_calm; [by eapply AllocatePrefix_keeps | exact Ha | exact Hres | exact Hn].
Qed.

(** A pool stored with the row of its block, or without a parent. *)
Lemma insert_pool_linked k kind name pool n d rv d' :
  inv d -> insertObject k kind name (DocPool pool) d = Ok (rv, d') -> parsePoolCIDR pool = Ok [n] -> good_range n ->
  counts_ok (reservationFrom (ps_Reservations (pl_Spec pool))) ->
  (ps_ParentPoolRef (pl_Spec pool) <> None -> exists s, s ∈ db_allocs d /\ ar_allocation_key s = k /\ ar_cidr s = n) ->
  linked d -> linked d'.
Proof.
  intros Hi H Hp Hg Hc Hs Hl.
  destruct (insertObject_pool d k kind name pool n rv d' Hi H Hp Hg Hc) as (Hnone & Hi' & (r & q & Hr & Hq & Hsp) & Hrange & Ha & _).
  intros s' p' Hs' Hh' Hc' Hp'. rewrite Ha in Hs'. destruct (decide (ar_allocation_key s' = k)) as [E|Hne].
  - assert (p' = n) as ->.
    { rewrite E in Hp'. apply Hrange in Hp' as [(r0 & _ & Hr0 & _)|[_ ->]]; [congruence|done]. }
    destruct Hs as (s & Hs & Ek & <-).
    { destruct Hc' as (r1 & q1 & Hr1 & Hq1 & Hn1). rewrite E, Hr in Hr1. injection Hr1 as <-. rewrite Hq in Hq1. injection Hq1 as <-.
      by rewrite (proj1 Hsp). }
    by rewrite (key_inj ar_allocation_key (db_allocs d) s s' (inv_alloc_keys _ _ Hi) Hs Hs') by congruence.
  - apply Hl; [done|done| |].
    + destruct Hc' as (r1 & q1 & Hr1 & Hq1 & Hn1). exists r1, q1. split; [|done].
      assert (E : db_objects d' !! ar_allocation_key s' = db_objects d !! ar_allocation_key s'); [|congruence].
      by eapply insertObject_other.
    + apply Hrange in Hp' as [?|[? _]]; done.
Qed.

(** ** Provisioning *)

Lemma carveFromPool_keeps k u carve d n d' : carveFromPool k u carve d = Ok (n, d') -> keeps_plain d d'.
Proof.
  unfold carveFromPool. intros H. apply txn_bind_ok in H as (pool & d0 & H0 & H).
  apply lockAndDecode_ok in H0 as [-> (row & q & Hr & Hq0 & Hs0)].
  assert (as_pool (ob_data row) = Some q) as Hq by (by rewrite Hq0).
  apply txn_bind_ok in H as (parents & d1 & H1 & H). apply so_lift in H1 as E1.
  apply txn_bind_ok in H as (pool2 & d2 & H2 & H).
  destruct (materialise_keeps _ _ _ _ _ _ row q ltac:(by rewrite E1) Hq Hs0 H2) as [K12 S2].
  assert (K2 : keeps_plain d d2) by (eapply keeps_trans; [by apply (keeps_refl d d1)|exact K12]).
  destruct (kp_pool _ _ K2 _ row q Hr Hq) as (row2 & q2 & Hr2 & Hq2 & Hs2). eapply keeps_trans; [exact K2|].
  apply txn_bind_ok in H as (b & d3 & H3 & H). apply so_catch in H3 as E3; [|apply so_findBlock].
  apply txn_bind_ok in H as (c & d4 & H4 & H). apply so_counting in H4 as E4.
  apply txn_bind_ok in H as ([] & d5 & H5 & H). apply so_insert_alloc in H5 as E5.
  apply txn_bind_ok in H as ([] & d6 & H6 & H). apply so_writeConsumed in H6 as E6.
  apply txn_bind_ok in H as (w & d7 & H7 & [= _ <-]).
  eapply keeps_trans; [by apply (keeps_refl d2 d6); rewrite E6, E5, E4|].
  eapply persistPoolCapacity_keeps; [by rewrite E6, E5, E4, E3 | exact Hq2 | | exact H7].
  eapply same_pool_trans; [exact S2 | by apply same_pool_sym].
Qed.

Lemma carveFromPool_calm k u carve d n d' :
  inv d -> carveFromPool k u carve d = Ok (n, d') -> ~ is_child d (pcv_AllocationKey carve) ->
  calm d d' /\ exists s, s ∈ db_allocs d' /\ ar_allocation_key s = pcv_AllocationKey carve /\ ar_cidr s = n.
Proof.
  intros Hi H Hn. destruct (carveFromPool_run _ _ _ _ _ _ Hi H) as (p & res & _ & _ & _ & _ & Ha & Hres & _).
  split; [eapply taken_calm; [by eapply carveFromPool_keeps | exact Ha | exact Hres | exact Hn]|].
  exists (carve_row k n carve). split; [|done]. rewrite Ha, !elem_of_app. right. right. by apply list_elem_of_singleton.
Qed.

Lemma provisionPool_linked level source d u d' :
  inv d -> level_counts level -> provisionPool level source d = Ok (u, d') -> linked d -> linked d'.
Proof.
  intros Hi Hc H Hl. unfold provisionPool in H. apply txn_bind_ok in H as (len & d0 & H0 & H).
  assert (d0 = d) as -> by (unfold lift in H0; destruct (EffectivePrefixLength _ None); by try injection H0 as _ <-).
  apply txn_bind_ok in H as (n & d1 & H1 & H).
  destruct (carveFromPool_run _ _ _ _ _ _ Hi H1) as (p & res & Hr & Hin & _ & _ & _ & _ & Hi1 & _ & _ & Hdom).
  set (pool := setPoolCapacityStatus _ _ _) in H. apply txn_bind_ok in H as (rv & d2 & H2 & H).
  apply txn_bind_ok in H as (pool' & d3 & H3 & [= _ <-]).
  assert (Hparse : parsePoolCIDR pool = Ok [n]) by (apply parsePoolCIDR_carved; [apply Hin | done]).
  assert (Hg : good_range n) by (by eapply good_sub; [apply (inv_range _ _ Hi source p Hr)|]).
  destruct (insertObject_pool d1 _ _ _ pool n rv d2 Hi1 H2 Hparse Hg Hc) as (Hnone & Hi2 & Hs2 & _ & _ & _).
  destruct (carveFromPool_calm _ _ _ _ _ _ Hi H1) as [C1 Hs1].
  { intros (row & q & Hrow & _). destruct (proj2 (Hdom (lv_PoolKey level))) as [o Ho]; [by exists row|]. congruence. }
  assert (linked d2) as L2.
  { eapply insert_pool_linked; [exact Hi1 | exact H2 | exact Hparse | exact Hg | exact Hc | done | by eapply calm_linked]. }
  destruct Hs2 as (r2 & q2 & Hr2 & Hq2 & Hsame). eapply calm_linked; [|exact L2].
  destruct (materialise_keeps _ _ _ _ _ _ r2 q2 Hr2 ltac:(by rewrite Hq2) Hsame H3) as [K3 _].
  destruct (materialiseReservations_ok _ _ _ _ _ _ Hi2 ltac:(by exists r2, q2) Hparse H3) as (_ & _ & _ & _ & _ & _ & res' & Ha3 & Hres').
  apply calm_keeps; [exact K3|]. intros s' Hs Hh. rewrite Ha3 in Hs. apply elem_of_app in Hs as [Hs|Hs]; [by exists s'|].
  destruct Hh. rewrite Forall_forall in Hres'. by apply Hres'.
Qed.

Lemma claim_level_linked level source d x d' :
  inv d -> level_counts level -> claim_level level source d = Ok (x, d') -> linked d -> linked d'.
Proof.
  intros Hi Hc H Hl. unfold claim_level in H. apply txn_bind_ok in H as ([key won] & d1 & H1 & H).
  assert (inv d1 /\ linked d1) as [Hi1 L1].
  { pose proof (claimPoolIdentity_cases (rc_Name (lv_Class level)) (lv_ScopeDigest level) (lv_PoolKey level) d) as Hcs.
    rewrite H1 in Hcs. destruct (db_identity d !! _) as [k|]; [destruct (String.eqb k ""); [done|]|];
      injection Hcs as _ _ ->; [done | split; [by apply inv_identity|]].
    eapply calm_linked; [|exact Hl]. by apply calm_same; [|apply rows_from_same]. }
  cbn [snd] in H. destruct won; [|by injection H as _ <-].
  apply txn_bind_ok in H as ([] & d2 & H2 & [= _ <-]). by eapply provisionPool_linked.
Qed.
