(* ===== verification/History.v ===== *)
(** * History: the changelog tells the objects

    The handlers write objects and changelog rows side by side, each transaction through
    the statements of [Db].  [told]: a changelog read change by change, an ADDED of a
    key that had no object, a MODIFIED or a DELETED of one that had, the last with the
    content that went.  Every transaction of the allocator and of the handlers,
    whatever it is asked and wherever it stops, adds to the changelog exactly what it
    did to the objects ([history]).

    Read key by key ([story]) this says nothing of how the rows of different objects
    are interleaved, and nothing is said of the versions the rows carry but that the
    last one is the object's: writers draw versions before they commit and publish
    them out of order, as [internal/watch/postgres.go] explains. *)

From Stdlib Require Import Ascii String.
From S2P Require Import Prelude Text Float Net Cidr Reservation Allocate Consumption Scan Tenant Sha256 Scope.
From S2P Require Import NetText Types Db PoolObject Class Discover BoundedSearch Prefix PoolInvariant.
From S2P Require Import PoolWrites Cascade Provision Range ObjectLaws Errors Validation ValidationLaws Access.
From S2P Require Import Claim ClaimLaws Pools Registry.
Open Scope string_scope.
Open Scope list_scope.
Open Scope Z_scope.

(** What a reader of the objects sees: contents and versions. *)
Abbreviation Contents := (gmap string (Document * Z)).
Definition contents (d : Db) : Contents := (fun r => (ob_data r, ob_rv r)) <$> db_objects d.

(** A change of the contents, as its row states it. *)
Inductive change (m : Contents) : ChangeRow -> Contents -> Prop :=
| change_added k rv doc : m !! k = None -> change m (mkChange k rv ADDED doc) (<[k := (doc, rv)]> m)
| change_modified k rv doc : is_Some (m !! k) -> change m (mkChange k rv MODIFIED doc) (<[k := (doc, rv)]> m)
| change_deleted k rv doc rv0 : m !! k = Some (doc, rv0) -> change m (mkChange k rv DELETED doc) (delete k m).

(** From contents to contents. *)
Inductive told : Contents -> list ChangeRow -> Contents -> Prop :=
| told_nil m : told m [] m
| told_cons m c m' cs m2 : change m c m' -> told m' cs m2 -> told m (c :: cs) m2.

Definition history (d d' : Db) : Prop :=
  exists cs, db_changelog d' = db_changelog d ++ cs /\ told (contents d) cs (contents d').

Lemma told_app m cs m' cs' m2 : told m cs m' -> told m' cs' m2 -> told m (cs ++ cs') m2.
Proof. induction 1 as [|m c m' cs m1 Hc _ IH]; [done|]. intros H. cbn. econstructor; [exact Hc | by apply IH]. Qed.

(** *** One object's story *)

(** What its rows make of an object: nothing, or a content at a version. *)
Inductive story : option (Document * Z) -> list ChangeRow -> option (Document * Z) -> Prop :=
| story_nil v : story v [] v
| story_added k rv doc cs v : story (Some (doc, rv)) cs v -> story None (mkChange k rv ADDED doc :: cs) v
| story_modified v0 k rv doc cs v : story (Some (doc, rv)) cs v -> story (Some v0) (mkChange k rv MODIFIED doc :: cs) v
| story_deleted doc rv0 k rv cs v : story None cs v -> story (Some (doc, rv0)) (mkChange k rv DELETED doc :: cs) v.

Definition rows_of (k : string) (cs : list ChangeRow) : list ChangeRow :=
  List.filter (fun c => String.eqb (ch_key c) k) cs.

Lemma told_story m cs m' k : told m cs m' -> story (m !! k) (rows_of k cs) (m' !! k).
Proof.
  induction 1 as [m | m0 c m1 cs m2 Hc _ IH]; [constructor|]. unfold rows_of in *. cbn [List.filter].
  destruct Hc as [k0 rv doc Hn | k0 rv doc [v0 Hv] | k0 rv doc rv0 Hv]; cbn [ch_key];
    destruct (String.eqb_spec k0 k) as [-> | Hne].
  - rewrite lookup_insert_eq in IH. rewrite Hn. by constructor.
  - by rewrite lookup_insert_ne in IH.
  - rewrite lookup_insert_eq in IH. rewrite Hv. by constructor.
  - by rewrite lookup_insert_ne in IH.
  - rewrite lookup_delete_eq in IH. rewrite Hv. by constructor.
  - by rewrite lookup_delete_ne in IH.
Qed.

Lemma history_same d d' :
  db_objects d' = db_objects d -> db_changelog d' = db_changelog d -> history d d'.
Proof. intros Ho Hc. exists []. rewrite app_nil_r. split; [done|]. unfold contents. rewrite Ho. constructor. Qed.

Lemma history_one d d' c :
  db_changelog d' = db_changelog d ++ [c] -> change (contents d) c (contents d') -> history d d'.
Proof. intros Hc H. exists [c]. split; [done|]. econstructor; [exact H | constructor]. Qed.

#[export] Instance history_preorder : PreOrder history.
Proof.
  split; [intros d; by apply history_same|]. intros a b c (cs & E & H) (cs' & E' & H').
  exists (cs ++ cs'). rewrite E', E, <- app_assoc. split; [done|]. by eapply told_app.
Qed.

(** ** Transactions *)

Definition tells {E A} (m : Db -> result E (A * Db)) : Prop := forall d a d', m d = Ok (a, d') -> history d d'.

Lemma tells_bind {A B} (m : Txn A) (f : A -> Txn B) : tells m -> (forall a, tells (f a)) -> tells (m ≫= f).
Proof. intros Hm Hf d b d' (a & d1 & H1 & H2)%txn_bind_ok. etrans; [by eapply Hm | by eapply Hf]. Qed.

Lemma tells_gbind {A B} (m : GTxn A) (f : A -> GTxn B) : tells m -> (forall a, tells (f a)) -> tells (m ≫= f).
Proof. intros Hm Hf d b d' (a & d1 & H1 & H2)%gtxn_bind_ok. etrans; [by eapply Hm | by eapply Hf]. Qed.

Lemma tells_stage {A} tell (m : Txn A) : tells m -> tells (stage tell m).
Proof. intros Hm d a d' H%stage_ok. by eapply Hm. Qed.

Lemma tells_ret {A} (a : A) : tells (mret a : Txn A).
Proof. by intros d x d' [= _ <-]. Qed.

Lemma tells_gret {A} (a : A) : tells (mret a : GTxn A).
Proof. by intros d x d' [= _ <-]. Qed.

Lemma tells_read {A} (f : Db -> A) : tells (read f).
Proof. by intros d x d' [= _ <-]. Qed.

Lemma tells_fail {A} e : tells (fail (A := A) e).
Proof. done. Qed.

Lemma tells_refuse {A} e : tells (refuse (A := A) e).
Proof. done. Qed.

Lemma tells_lift {A} (r : result IpamErr A) : tells (lift r).
Proof. intros d x d'. unfold lift. destruct r; [by intros [= _ <-] | done]. Qed.

Lemma tells_check c p : tells (check c p).
Proof. intros d x d'. unfold check. destruct (p d); [by intros [= _ <-] | done]. Qed.

Lemma tells_write f : (forall d, history d (f d)) -> tells (write f).
Proof. intros H d x d' [= _ <-]. apply H. Qed.

Lemma tells_each {A B} (f : B -> A -> Txn B) l : (forall b a, tells (f b a)) -> forall b, tells (each f b l).
Proof. intros Hf. induction l as [|a l IH]; intros b; [apply tells_ret | by apply tells_bind]. Qed.

Lemma tells_catch {A} (m : Txn A) : tells m -> tells (catch_exhausted m).
Proof. intros H d a d'. unfold catch_exhausted, stmt. destruct (m d) eqn:E; cbn; [intros [= ->]; by eapply H | done]. Qed.

Create HintDb tells.
#[export] Hint Resolve tells_ret tells_gret tells_read tells_fail tells_refuse tells_lift tells_check : tells.

Ltac tells := repeat first
  [ progress auto with tells | apply tells_bind; [|intros] | apply tells_gbind; [|intros] | apply tells_stage
  | apply tells_catch | apply tells_each; intros | apply tells_write; intros; apply history_same; repeat case_match; reflexivity
  | case_match ].

(** *** The statements *)

Lemma contents_sync d k doc : contents (sync_offers d k doc) = contents d.
Proof. by destruct doc. Qed.

Lemma contents_lookup d k : contents d !! k = option_map (fun r => (ob_data r, ob_rv r)) (db_objects d !! k).
Proof. unfold contents. by rewrite lookup_fmap. Qed.

Lemma contents_put d d' k r :
  db_objects d' = <[k := r]> (db_objects d) -> contents d' = <[k := (ob_data r, ob_rv r)]> (contents d).
Proof. intros E. unfold contents. by rewrite E, fmap_insert. Qed.

Lemma contents_gone d d' k : db_objects d' = delete k (db_objects d) -> contents d' = delete k (contents d).
Proof. intros E. unfold contents. by rewrite E, fmap_delete. Qed.

Lemma insert_tells k kind name doc : tells (insertObject k kind name doc).
Proof.
  intros d rv d'. unfold insertObject, insert_object_row, check, stmt. unfold mbind, txn_bind.
  destruct (bool_decide _) eqn:Hn; [|done]. apply bool_decide_eq_true in Hn. intros [= _ <-].
  set (d2 := log_change _ _ _). eapply history_one; [by destruct doc |].
  rewrite (contents_put d d2 k (mkObj (if negb (String.eqb (doc_kind doc) "") then doc_kind doc else kind) name doc (db_rv d + 1))) by (by destruct doc). apply change_added. by rewrite contents_lookup, Hn.
Qed.

Lemma update_tells k doc : tells (updateObject k doc).
Proof.
  intros d rv d'. unfold updateObject, update_object_row. unfold mbind, txn_bind. destruct (db_objects d !! k) as [r|] eqn:Hr; [|done].
  intros [= _ <-]. set (d2 := log_change _ _ _). eapply history_one; [by destruct doc |].
  rewrite (contents_put d d2 k (mkObj (ob_kind r) (ob_name r) doc (db_rv d + 1))) by (by destruct doc). apply change_modified. rewrite contents_lookup, Hr. by eexists.
Qed.

Lemma delete_tells k : tells (deleteObject k).
Proof.
  intros d rv d'. unfold deleteObject, delete_object_row. unfold mbind, txn_bind.
  destruct (db_objects d !! k) as [r|] eqn:Hr; [|by intros [= _ <-]]. destruct (existsb _ _); [done|].
  intros [= _ <-]. set (d2 := log_change _ _ _). eapply history_one; [reflexivity |].
  rewrite (contents_gone d d2 k) by reflexivity. apply (change_deleted _ _ _ _ (ob_rv r)). by rewrite contents_lookup, Hr.
Qed.

#[export] Hint Resolve insert_tells update_tells delete_tells : tells.

Lemma lower_floors_history rows d : history d (foldl (fun d r => lower_floors r d) d rows).
Proof. revert d. induction rows as [|r rows IH]; intros d; [reflexivity|]. cbn. etrans; [|apply IH]. by apply history_same. Qed.

Lemma delete_allocs_tells cond : tells (delete_allocs cond).
Proof. intros d x d'. unfold delete_allocs. intros [= _ <-]. etrans; [|apply lower_floors_history]. by apply history_same. Qed.

Lemma set_claim_tells cond k : tells (set_claim_where cond k).
Proof. intros d x d'. unfold set_claim_where. cbv zeta. destruct (match k with Some _ => _ | None => _ end); [done|]. intros [= _ <-]. by apply history_same. Qed.

Lemma insert_identity_tells cn dg k : tells (insert_identity cn dg k).
Proof. intros d x d'. unfold insert_identity. destruct (db_identity d !! _); intros [= _ <-]; by apply history_same. Qed.

Lemma cas_floor_tells k dg f g : tells (cas_floor k dg f g).
Proof. unfold cas_floor. tells. Qed.

#[export] Hint Resolve delete_allocs_tells set_claim_tells insert_identity_tells cas_floor_tells : tells.

(** *** The allocator *)

Lemma bounded_loop_tells fuel k dg : forall s, tells (bounded_loop fuel k dg s).
Proof. induction fuel as [|fuel IH]; intros s; cbn [bounded_loop]; unfold loadBlocksCovering, loadBlocksFrom, feed; tells; apply IH. Qed.
#[export] Hint Resolve bounded_loop_tells : tells.

Lemma findBlock_tells k dg parents u s : tells (findBlock k dg parents u s).
Proof.
  unfold findBlock, loadAllocationsInSpace, boundedFirstFit, lockSearchFloor, raiseSearchFloor, insert_floor, select_floor. tells.
Qed.

Lemma persist_capacity_tells pool k parents n : tells (persistPoolCapacity pool k parents n).
Proof. unfold persistPoolCapacity. tells. Qed.

Lemma consumed_tells k n : tells (writeConsumed k n).
Proof. unfold writeConsumed, upsert_consumed. tells. Qed.

Lemma after_allocate_tells k parents n : tells (consumptionAfterAllocate k parents n).
Proof. unfold consumptionAfterAllocate, seedConsumption, loadOverlapping, readConsumed, select_consumed, loadExistingAllocations. tells. Qed.

Lemma after_release_tells k parents n : tells (consumptionAfterRelease k parents n).
Proof. unfold consumptionAfterRelease, seedConsumption, loadOverlapping, readConsumed, select_consumed, loadExistingAllocations. tells. Qed.

Lemma insert_alloc_tells row : tells (insert_alloc row).
Proof. unfold insert_alloc. tells. Qed.

#[export] Hint Resolve findBlock_tells persist_capacity_tells consumed_tells after_allocate_tells after_release_tells
  insert_alloc_tells : tells.

Lemma materialise_tells k pool parents : tells (materialiseReservations k pool parents).
Proof. unfold materialiseReservations, holdsReservations, reserve_block, insertReservation. tells. Qed.

Lemma lock_tells k : tells (lockAndDecodeIPPool k).
Proof. unfold lockAndDecodeIPPool, select_object. tells. Qed.

#[export] Hint Resolve materialise_tells lock_tells : tells.

Lemma AllocatePrefix_tells req : tells (AllocatePrefix req).
Proof. unfold AllocatePrefix, insertPrefixAllocation. tells. Qed.

Lemma deleteAllocations_tells cond : tells (deleteAllocations cond).
Proof. unfold deleteAllocations, account_release, select_object. tells. Qed.
#[export] Hint Resolve AllocatePrefix_tells deleteAllocations_tells : tells.

Lemma Release_tells ck : tells (Release ck).
Proof. unfold Release, retainAllocations. tells. Qed.

Lemma BindScopeRange_tells k ck : tells (BindScopeRange k ck).
Proof. unfold BindScopeRange. tells. Qed.

Lemma releaseRangeTree_tells fuel : forall k, tells (releaseRangeTree fuel k).
Proof.
  induction fuel as [|fuel IH]; intros k; cbn [releaseRangeTree]; unfold ReleasePoolReservations, ReleaseAllocation; tells.
Qed.
#[export] Hint Resolve Release_tells BindScopeRange_tells releaseRangeTree_tells : tells.

Lemma claim_level_tells level source : tells (claim_level level source).
Proof.
  unfold claim_level, claimPoolIdentity, lookupPoolIdentity, select_identity, provisionPool, carveFromPool. tells.
Qed.
#[export] Hint Resolve claim_level_tells : tells.

(** ** Handlers *)

(** Whatever commits between the transactions of a handler has a history too. *)

Lemma in_tx_history {A} (m : Txn A) d r d' : tells m -> in_tx m d = (r, d') -> history d d'.
Proof.
  intros Hm. unfold in_tx. destruct (m d) as [[a d1]|] eqn:E; [|by intros [= _ <-]].
  destruct (identity_ok d1); intros [= _ <-]; [by eapply Hm | done].
Qed.

Lemma in_gtx_history {A} what (m : GTxn A) d r d' : tells m -> in_gtx what m d = (r, d') -> history d d'.
Proof.
  intros Hm. unfold in_gtx. destruct (m d) as [[a d1]|] eqn:E; [|by intros [= _ <-]].
  destruct (identity_ok d1); intros [= _ <-]; [by eapply Hm | done].
Qed.

Lemma unless_history {A} fault (tx : Db -> result GoErr A * Db) d r d' :
  (tx d = (r, d') -> history d d') -> unless fault tx d = (r, d') -> history d d'.
Proof. unfold unless. destruct fault; [by intros _ [= _ <-] | done]. Qed.

Lemma dry_gtx_history {A} (m : GTxn A) d r d' : dry_gtx m d = (r, d') -> history d d'.
Proof. unfold dry_gtx. destruct (m d) as [[a d1]|]; by intros [= _ <-]. Qed.

Lemma ensureLevels_history levels : forall others faults source d r d',
  (forall i d, history d (others i d)) -> ensureLevels others faults levels source d = (r, d') -> history d d'.
Proof.
  induction levels as [|level levels IH]; intros others faults source d r d' Ho; cbn [ensureLevels]; [by intros [= _ <-]|].
  destruct (ensureLevel (others 1%nat) (faults O) level source (others O d)) as [x d1] eqn:He.
  assert (history d d1) as H1.
  { etrans; [apply (Ho O)|]. unfold ensureLevel in He. destruct (faults O); [injection He as _ <-; apply (Ho 1%nat)|].
    destruct (negb _); [by injection He as _ <-|].
    etrans; [apply (Ho 1%nat)|]. eapply in_tx_history; [|exact He]. apply claim_level_tells. }
  destruct x as [[key created]|e]; [|by intros [= _ <-]]. intros H. etrans; [exact H1|].
  by apply (IH (fun i => others (S (S i))) (fun i => faults (S i)) key d1 r d' (fun i => Ho (S (S i)))).
Qed.

Lemma resolve_levels_history others faults plan leaf s d r d' :
  (forall i d, history d (others i d)) -> resolve_levels others faults plan leaf s d = (r, d') -> history d d'.
Proof.
  intros Ho. unfold resolve_levels. cbv zeta. assert (history d (others 1%nat (others O d))) as H1 by (etrans; apply Ho).
  destruct (reading _ plan _) as [[|level rest]|]; [by intros [= _ <-] | | intros [= _ <-]; apply Ho].
  destruct (reading _ _ _) as [source|]; [|by intros [= _ <-]]. intros H. etrans; [exact H1|].
  eapply (ensureLevels_history _ (fun i => others (S (S i)))); [|exact H]. intros i. apply Ho.
Qed.

Section Claims.
Context {api : ApiMachinery} {rest : RestCreate IPClaim}.

Lemma persist_tells id claim alloc : tells (persist id claim alloc).
Proof. unfold persist. tells. Qed.
Local Hint Resolve persist_tells : tells.

Lemma Create_history others faults user cv ns dr claim d r d' :
  (forall i d, history d (others i d)) -> Claim.Create others faults user cv ns dr claim d = (r, d') -> history d d'.
Proof.
  intros Ho H.
  destruct (Create_cases _ _ _ _ _ _ _ _ _ _ H) as [(e & _ & -> & _) | (c & class & r1 & d1 & _ & Hres & Hd)]; [done|].
  assert (history d d1) as H1.
  { destruct (resolution_cases others faults user c class d) as [[e E] | (plan & _ & E)]; rewrite E in Hres;
      [by injection Hres as _ <-|]. eapply (resolve_levels_history (fun i => others (S i))); [|exact Hres]. intros i. apply Ho. }
  destruct Hd as [(e & _ & [-> | ->] & _) | (poolKey & u & us & dg & what & _ & _ & Hdr)];
    [done | etrans; [exact H1 | apply Ho]|].
  etrans; [exact H1|]. etrans; [apply (Ho O)|]. rewrite (Hdr dr) in H. destruct (isDryRun dr); [by eapply dry_gtx_history|].
  eapply in_gtx_history; [|exact H]. unfold allocating, recording, take_range, record_range_claim, take_block, record_claim. tells.
Qed.

Lemma releaseAndDelete_tells id claim ck : tells (releaseAndDelete id claim ck).
Proof.
  unfold releaseAndDelete, dispose_allocation, unbindAllocation. tells.
  intros d x d'. unfold GetObject, select_object, read, mbind, txn_bind. destruct (db_objects d !! _); by intros [= _ <-].
Qed.

Lemma attempts_history others faults id claim ck n : forall i d r d',
  (forall i d, history d (others i d)) -> attempts others faults id claim ck n i d = (r, d') -> history d d'.
Proof.
  induction n as [|n IH]; intros i d r d' Ho; cbn [attempts]; [by intros [= _ <-]|].
  destruct (unless (faults i) _ _) as [[b|e] d1] eqn:E;
    (assert (history d d1) as H1 by (etrans; [apply (Ho i)|]; eapply unless_history; [|exact E];
       apply in_gtx_history, releaseAndDelete_tells)).
  - by intros [= _ <-].
  - destruct n; [by intros [= _ <-]|]. intros H. etrans; [exact H1 | by eapply IH].
Qed.

Lemma Delete_history Get others faults user dv dr name d r d' :
  (forall i d, history d (others i d)) -> Claim.Delete Get others faults user dv dr name d = (r, d') -> history d d'.
Proof.
  intros Ho. unfold Claim.Delete. destruct (Get name d) as [claim|]; [|by intros [= _ <-]].
  destruct (match dv with Some v => v claim | None => None end); [by intros [= _ <-]|]. destruct (isDryRun dr); [by intros [= _ <-]|].
  destruct (String.eqb _ _).
  - unfold deleteScopeRange. destruct (unless _ _ _) as [[u|e] d1] eqn:E; intros [= _ <-]; (etrans; [apply (Ho O)|]);
      (eapply unless_history; [|exact E]; apply in_gtx_history; unfold release_range, FindScopeRange, ReleaseScopeRange; tells).
  - unfold delete_block. cbv zeta. destruct (unless _ _ _) as [[rv|e] d1] eqn:E;
      (assert (history d d1) as H1 by (etrans; [apply (Ho O)|]; eapply unless_history; [|exact E]; apply in_gtx_history; tells)).
    + destruct (attempts _ _ _ _ _ _ _ d1) as [[b|e] d2] eqn:E2; intros [= _ <-];
        (etrans; [exact H1|]; eapply attempts_history; [|exact E2]; intros; apply Ho).
    + by intros [= _ <-].
Qed.
End Claims.

Section PoolHandlers.
Context {api : ApiMachinery} {rest : RestCreate IPPool}.
Context (Get : string -> Db -> result GoErr IPPool).
Context (SC : IPPool -> option (IPPool -> option GoErr) -> list string -> Db -> result GoErr IPPool * Db).
Context (SD : string -> option (IPPool -> option GoErr) -> list string -> Db -> result GoErr (IPPool * bool) * Db).

Lemma pool_Create_history others user cv dr pool d r d' :
  (forall i d, history d (others i d)) -> (forall pool cv dr d r d', SC pool cv dr d = (r, d') -> history d d') ->
  Pools.Create Get SC others user cv dr pool d = (r, d') -> history d d'.
Proof.
  intros Ho Hs. unfold Pools.Create. destruct (validateClassOffers user pool d); [by intros [= _ <-]|]. cbv zeta.
  destruct (ps_ParentPoolRef (pl_Spec pool)) as [parent|].
  - unfold create_child. destruct (BeforeCreate _ _ pool) as [p|]; [|intros [= _ <-]; apply (Ho O)].
    destruct (match cv with Some v => v p | None => None end); [intros [= _ <-]; apply (Ho O)|].
    destruct (Get _ _); [|intros [= _ <-]; apply (Ho O)]. destruct (effectiveIPFamily _); [|intros [= _ <-]; apply (Ho O)].
    intros H. etrans; [apply (Ho O)|]. etrans; [apply (Ho 1%nat)|]. eapply in_gtx_history; [|exact H]. unfold carve_child. tells.
  - destruct (validateNoRootOverlap _ _ _); [intros [= _ <-]; apply (Ho O)|]. intros H.
    etrans; [apply (Ho O)|]. etrans; [apply (Ho 1%nat)|]. by eapply Hs.
Qed.

Lemma pool_Delete_history others user dv dr name d r d' :
  (forall i d, history d (others i d)) -> (forall name dv dr d r d', SD name dv dr d = (r, d') -> history d d') ->
  Pools.Delete Get SD others user dv dr name d = (r, d') -> history d d'.
Proof.
  intros Ho Hs. unfold Pools.Delete. destruct (Get name d) as [pool|]; [|by intros [= _ <-]].
  destruct (match dv with Some v => v pool | None => None end); [by intros [= _ <-]|]. cbv zeta.
  destruct (0 <? _)%nat; [intros [= _ <-]; apply Ho|].
  assert (history d (others 1%nat (others O d))) as H0 by (etrans; apply Ho). destruct (ps_ParentPoolRef _).
  - destruct (in_gtx _ _ (others 1%nat _)) as [[u|e] d1] eqn:E; intros [= _ <-]; (etrans; [exact H0|]);
      (eapply in_gtx_history; [|exact E]; unfold delete_child, ReleasePoolReservations; tells).
  - destruct (in_gtx _ _ (others 1%nat _)) as [[u|e] d1] eqn:E;
      (assert (history d d1) as H1 by
        (etrans; [exact H0|]; eapply in_gtx_history; [|exact E]; unfold releaseReservations, ReleasePoolReservations; tells)).
    + intros H. etrans; [exact H1|]. etrans; [apply (Ho 2%nat)|]. by eapply Hs.
    + by intros [= _ <-].
Qed.
End PoolHandlers.

Lemma allocation_Delete_history `{ApiMachinery} Get others user dv dr name d r d' :
  (forall i d, history d (others i d)) -> allocation_Delete Get others user dv dr name d = (r, d') -> history d d'.
Proof.
  intros Ho. unfold allocation_Delete. destruct (Get name d) as [a|]; [|by intros [= _ <-]].
  destruct (match dv with Some v => v a | None => None end); [by intros [= _ <-]|].
  destruct (ValidateDelete a); [|by intros [= _ <-]]. destruct (isDryRun dr); [by intros [= _ <-]|].
  destruct (in_gtx _ _ (others O d)) as [[u|e] d1] eqn:E; intros [= _ <-]; (etrans; [apply (Ho O)|]);
    (eapply in_gtx_history; [|exact E]; unfold release_allocation, ReleaseAllocation; tells).
Qed.

Lemma class_Create_history `{ApiMachinery} SC others user checker class d r d' :
  (forall i d, history d (others i d)) -> (forall class d r d', SC class d = (r, d') -> history d d') ->
  class_Create others user checker SC class d = (r, d') -> history d d'.
Proof.
  intros Ho Hs. unfold class_Create. destruct (authorizeSource _ _ _); [by intros [= _ <-]|].
  destruct (validateOfferAgreement _ _ _); [by intros [= _ <-]|]. intros Hc. etrans; [apply (Ho O)|]. by eapply Hs.
Qed.
