(* ===== verification/Service.v ===== *)
(** * Service: the handlers together, over any run

    One state, the database, and a step for every handler that changes it: claims and
    pools created and deleted, allocations created and released, classes defined, and
    the updates the strategies admit.  Between two of a handler's own transactions there
    may be a whole run of the handlers, to any depth ([run]).

    What the runs take for granted:
    - a transaction is taken whole, one at a time.  PostgreSQL's row locks order most
      of them; a release, which deletes rows before it locks the pool, they do not
      order, and [Locking] shows what that costs (a deadlock, a floor left too high);
    - of the transactions of claim create and claim delete any may fail ([faults]),
      leaving nothing.  The other handlers write in one transaction of their own, the
      loss of which leaves nothing to tell, or, for a root pool, in one of their own
      and one of the generic store's, which may write nothing.  A commit that went
      through although its answer was lost is not modelled;
    - [writers] says who may write what the strategies do not check: the status of a
      pool, and the range of a root pool.  The theorems ask that they be [careful], that
      a status keep the pool's range and a root range be neither IPv4 written as IPv6
      nor end at its family's last address; [pool_status_unguarded] is a run of
      handlers whose writers are not, and has an address out twice.

    Under those terms [service_invariant]: whatever is called and in whatever order, the
    ledger stays consistent, the identity table stays committed, every object stays
    under a key of its kind and every pool inside its own block.  [no_address_twice],
    over whole trees of pools, [totals_never_drift] and [claims_stay_deletable] are
    what that gives a consumer.  [changelog_never_lies] asks nothing of the writers.

    What the generic registry store does is stated as two laws: it writes the object
    the strategy prepared and validated, in a transaction, or nothing. *)

From Stdlib Require Import Ascii String.
From S2P Require Import Prelude Text Float Net Cidr Reservation Allocate Consumption Scan Tenant Sha256 Scope.
From S2P Require Import NetText Types Db PoolObject Class Discover BoundedSearch Prefix PoolInvariant.
From S2P Require Import PoolWrites Cascade Provision Range ObjectLaws Errors Validation ValidationLaws Access.
From S2P Require Import Claim ClaimLaws ClaimDelete Pools PoolLaws Registry Nesting History.
Open Scope string_scope.
Open Scope list_scope.
Open Scope Z_scope.

(** ** Keys and what is under them *)

(** A tenant's name, as the front door gives it, holds no slash. *)
Definition tenant_ok (id : Identity) : Prop := no_byte "/" (id_Name id) = true.

Definition is_key (res k : string) : Prop := exists id n, tenant_ok id /\ k = ResourceKey id res n.

Lemma ResourceKey_bare id res n : id_Name id = "" ->
  ResourceKey id res n = "/ipam.miloapis.com/" +:+ (res +:+ String "/" n).
Proof. intros E. unfold ResourceKey, ApplyPrefix, KeyPrefix. by rewrite E. Qed.

Lemma ResourceKey_named id res n : id_Name id <> "" ->
  ResourceKey id res n = "project/" +:+ (id_Name id +:+ String "/" ("ipam.miloapis.com/" +:+ (res +:+ String "/" n))).
Proof. intros E. by rewrite ResourceKey_tenant. Qed.

(** A key says what kind of object it is for. *)
Lemma is_key_resource r1 r2 k :
  no_byte "/" r1 = true -> no_byte "/" r2 = true -> is_key r1 k -> is_key r2 k -> r1 = r2.
Proof.
  intros H1 H2 (i1 & n1 & T1 & E1) (i2 & n2 & T2 & E2). rewrite E1 in E2. clear k E1.
  destruct (String.eqb_spec (id_Name i1) "") as [A|A], (String.eqb_spec (id_Name i2) "") as [B|B].
  - rewrite !ResourceKey_bare in E2 by done. apply append_inj_l in E2. by apply split_at_byte in E2 as [-> _].
  - rewrite ResourceKey_bare, ResourceKey_named in E2 by done. discriminate E2.
  - rewrite ResourceKey_named, ResourceKey_bare in E2 by done. discriminate E2.
  - rewrite !ResourceKey_named in E2 by done. apply append_inj_l in E2. apply split_at_byte in E2 as [_ E2]; [|done..].
    apply append_inj_l in E2. by apply split_at_byte in E2 as [-> _].
Qed.

Lemma claim_is_key id namespace name : tenant_ok id -> is_key "ipclaims" (claimObjectKey id namespace name).
Proof. intros H. by exists id, (namespace +:+ "/" +:+ name). Qed.

Lemma allocation_is_key id namespace name : tenant_ok id -> is_key "ipallocations" (allocationObjectKey id namespace name).
Proof. intros H. by exists id, (namespace +:+ "/" +:+ name). Qed.

(** The project a reference points at names a tenant. *)
Definition source_ok (c : IPClass) : Prop :=
  match cs_Source (cl_Spec c) with Some s => no_byte "/" (csr_Project s) = true | None => True end.

(** A document where it belongs, and, for a class, as validation admits it. *)
Definition row_ok (k : string) (doc : Document) : Prop :=
  match doc with
  | DocPool _ => is_key "ippools" k
  | DocClaim _ => is_key "ipclaims" k
  | DocAllocation _ => is_key "ipallocations" k
  | DocClass c => is_key "ipclasses" k /\ class_counted c /\ source_ok c
  | DocOther _ _ _ => False
  end.

Definition rows_ok (d : Db) : Prop := forall k r, db_objects d !! k = Some r -> row_ok k (ob_data r).

(** What every step keeps. *)
Record sane (d : Db) : Prop := {
  sn_inv : inv d;
  sn_ids : identity_ok d = true;
  sn_rows : rows_ok d;
  sn_linked : linked d
}.

Lemma rows_ok_classes d : rows_ok d -> classes_counted d.
Proof. intros H k r c Hr Hc. specialize (H k r Hr). rewrite Hc in H. apply H. Qed.

(** A row under a key of another kind is not a pool. *)
Lemma rows_ok_plain d k r res :
  rows_ok d -> is_key res k -> no_byte "/" res = true -> res <> "ippools" ->
  db_objects d !! k = Some r -> as_pool (ob_data r) = None.
Proof.
  intros H Hk Hres Hne Hr. specialize (H k r Hr). destruct (ob_data r); try done.
  destruct Hne. by apply (is_key_resource res "ippools" k).
Qed.

Lemma rows_ok_child d k res : rows_ok d -> is_key res k -> no_byte "/" res = true -> res <> "ippools" -> ~ is_child d k.
Proof.
  intros H Hk Hres Hne (r & q & Hr & Hq & _). pose proof (rows_ok_plain d k r res H Hk Hres Hne Hr) as Hp. by rewrite Hq in Hp.
Qed.

Lemma rows_ok_allocation d k r :
  rows_ok d -> is_key "ipallocations" k -> db_objects d !! k = Some r -> exists a, ob_data r = DocAllocation a.
Proof.
  intros H Hk Hr. specialize (H k r Hr). destruct (ob_data r) as [c|p|c|a|]; [| | |by exists a|done]; exfalso.
  - by pose proof (is_key_resource "ipallocations" "ipclasses" k eq_refl eq_refl Hk (proj1 H)).
  - by pose proof (is_key_resource "ipallocations" "ippools" k eq_refl eq_refl Hk H).
  - by pose proof (is_key_resource "ipallocations" "ipclaims" k eq_refl eq_refl Hk H).
Qed.

(** ** What keeps the rows *)

Lemma rows_keeps d d' : keeps_plain d d' -> rows_ok d -> rows_ok d'.
Proof.
  intros K H k r' Hr'. assert (is_Some (db_objects d !! k)) as [r Hr] by (apply (kp_dom _ _ K); by exists r').
  specialize (H k r Hr). destruct (as_pool (ob_data r)) as [q|] eqn:Hq.
  - destruct (kp_pool _ _ K k r q Hr Hq) as (r2 & q2 & Hr2 & Hq2 & _). rewrite Hr' in Hr2. injection Hr2 as <-.
    apply as_pool_Some in Hq, Hq2. rewrite Hq in H. by rewrite Hq2.
  - pose proof (kp_plain _ _ K k r Hr Hq) as Hr2. rewrite Hr' in Hr2. by injection Hr2 as ->.
Qed.

Lemma rows_same d d' : db_objects d' = db_objects d -> rows_ok d -> rows_ok d'.
Proof. intros E H k r. rewrite E. apply H. Qed.

Lemma rows_put d d' k r : db_objects d' = <[k := r]> (db_objects d) -> row_ok k (ob_data r) -> rows_ok d -> rows_ok d'.
Proof. intros E Hr H k' r'. rewrite E. intros [[<- <-]|[_ ?]]%lookup_insert_Some; [done|by apply H]. Qed.

Lemma objects_sync d k doc : db_objects (sync_offers d k doc) = db_objects d.
Proof. by destruct doc. Qed.

Lemma insertObject_put k kind name doc d rv d' :
  insertObject k kind name doc d = Ok (rv, d') ->
  exists r, db_objects d' = <[k := r]> (db_objects d) /\ ob_data r = doc /\ db_objects d !! k = None /\ db_identity d' = db_identity d.
Proof.
  unfold insertObject, insert_object_row, check, stmt. unfold mbind, txn_bind.
  destruct (bool_decide _) eqn:Hn; [|done]. apply bool_decide_eq_true in Hn. intros [= <- <-]. eexists. cbn.
  rewrite objects_sync. split; [reflexivity|]. split_and!; try done. by destruct doc.
Qed.

Lemma updateObject_put k doc d rv d' :
  updateObject k doc d = Ok (rv, d') ->
  exists r0 r, db_objects d !! k = Some r0 /\ db_objects d' = <[k := r]> (db_objects d) /\ ob_data r = doc
    /\ db_identity d' = db_identity d.
Proof.
  unfold updateObject, update_object_row. unfold mbind, txn_bind. destruct (db_objects d !! k) as [r0|]; [|done].
  intros [= <- <-]. eexists r0, _. cbn. rewrite objects_sync. split; [done|]. split; [reflexivity|]. split; [done|]. by destruct doc.
Qed.

Lemma rows_insert k kind name doc d rv d' :
  row_ok k doc -> insertObject k kind name doc d = Ok (rv, d') -> rows_ok d -> rows_ok d'.
Proof. intros Hk (r & E & Hr & _)%insertObject_put. apply (rows_put _ _ k r E). by rewrite Hr. Qed.

Lemma rows_update k doc d rv d' : row_ok k doc -> updateObject k doc d = Ok (rv, d') -> rows_ok d -> rows_ok d'.
Proof. intros Hk (r0 & r & _ & E & Hr & _)%updateObject_put. apply (rows_put _ _ k r E). by rewrite Hr. Qed.

Lemma rows_delete k d x d' : deleteObject k d = Ok (x, d') -> rows_ok d -> rows_ok d'.
Proof.
  unfold deleteObject, delete_object_row. unfold mbind, txn_bind. destruct (db_objects d !! k); [|by intros [= _ <-]].
  destruct (existsb _ _); [done|]. intros [= _ <-] H k' r Hr. cbn in Hr. apply lookup_delete_Some in Hr as [_ Hr]. by apply H.
Qed.

(** ** Provisioning keeps the service sane *)

Lemma provisionPool_rows level source d u d' :
  is_key "ippools" (lv_PoolKey level) -> provisionPool level source d = Ok (u, d') -> rows_ok d -> rows_ok d'.
Proof.
  intros Hk H Hr. unfold provisionPool in H. apply txn_bind_ok in H as (len & d0 & H0 & H). apply so_lift in H0 as E0.
  apply txn_bind_ok in H as (n & d1 & H1 & H). apply carveFromPool_keeps in H1 as K1.
  set (pool := setPoolCapacityStatus _ _ _) in H. apply txn_bind_ok in H as (rv & d2 & H2 & H).
  apply txn_bind_ok in H as (pool' & d3 & H3 & [= _ <-]).
  assert (rows_ok d2) as R2 by (eapply (rows_insert _ _ _ (DocPool pool)); [exact Hk|exact H2|]; eapply rows_keeps; [exact K1|by apply (rows_same d)]).
  destruct (insertObject_put _ _ _ _ _ _ _ H2) as (r & E & Hdoc & _).
  eapply rows_keeps; [|exact R2].
  by apply (materialise_keeps _ _ _ _ _ _ r pool) in H3 as [? _]; [|rewrite E, lookup_insert_eq|rewrite Hdoc|].
Qed.

Lemma claim_level_rows level source d x d' :
  is_key "ippools" (lv_PoolKey level) -> claim_level level source d = Ok (x, d') -> rows_ok d -> rows_ok d'.
Proof.
  intros Hk H Hr. unfold claim_level in H. apply txn_bind_ok in H as ([key won] & d1 & H1 & H).
  assert (rows_ok d1) as R1.
  { pose proof (claimPoolIdentity_cases (rc_Name (lv_Class level)) (lv_ScopeDigest level) (lv_PoolKey level) d) as Hc.
    rewrite H1 in Hc. destruct (db_identity d !! _) as [k|]; [destruct (String.eqb k ""); [done|]|];
      injection Hc as _ _ ->; [done | by apply (rows_same d)]. }
  cbn [snd] in H. destruct won; [|by injection H as _ <-].
  apply txn_bind_ok in H as ([] & d2 & H2 & [= _ <-]). by eapply provisionPool_rows.
Qed.

(** What the steps of a resolution have in common. *)
Definition level_ok (level : CascadeLevel) : Prop := level_counts level /\ is_key "ippools" (lv_PoolKey level).

Lemma ensureLevels_sane levels : forall others faults source d r d',
  (forall i d, sane d -> sane (others i d)) -> Forall level_ok levels -> sane d ->
  ensureLevels others faults levels source d = (r, d') -> sane d'.
Proof.
  induction levels as [|level levels IH]; intros others faults source d r d' Ho Hl Hd; cbn [ensureLevels]; [by intros [= _ <-]|].
  apply Forall_cons in Hl as [[Hc Hk] Hl]. destruct (ensureLevel (others 1%nat) (faults O) level source (others O d)) as [x d1] eqn:He.
  assert (sane d1) as Hd1.
  { assert (S0 : sane (others O d)) by by apply Ho. assert (S1 : sane (others 1%nat (others O d))) by by apply Ho.
    unfold ensureLevel in He. destruct (faults O); [by injection He as _ <-|]. destruct (negb _); [by injection He as _ <-|].
    unfold in_tx in He. destruct (claim_level level source _) as [[y d2]|] eqn:Hcl; [|by injection He as _ <-].
    destruct (identity_ok d2) eqn:Hok; [|by injection He as _ <-]. injection He as _ <-. destruct y as [key won].
    constructor; [apply (claim_level_run _ _ _ _ _ _ (sn_inv _ S1) Hc Hcl) | done | by eapply claim_level_rows; [| |apply S1]|].
    by eapply claim_level_linked; [apply S1 | exact Hc | exact Hcl | apply S1]. }
  destruct x as [[key created]|e]; [|by intros [= _ <-]]. intros H.
  by apply (IH (fun i => others (S (S i))) (fun i => faults (S i)) key d1 r d' (fun i => Ho (S (S i)))).
Qed.

(** *** The levels of a plan *)

Definition project_ok (c : ResolvedClass) : Prop := no_byte "/" (rc_Project c) = true.

Lemma resolveClassIn_project d project name rc d' :
  rows_ok d -> no_byte "/" project = true -> resolveClassIn project name d = Ok (rc, d') -> project_ok rc.
Proof.
  intros Hr Hp. unfold resolveClassIn, loadClassIn, select_object, read. intros H.
  apply txn_bind_ok in H as (c & d1 & H1 & H). apply txn_bind_ok in H1 as (row & d0 & [= <- <-] & H1).
  destruct (db_objects d !! classStorageKey project name) as [r|] eqn:E; [|done].
  destruct (as_class (ob_data r)) as [c'|] eqn:Hc; [|done]. injection H1 as -> <-.
  destruct (cs_Source (cl_Spec c)) as [src|] eqn:Hs; [|by injection H as <- _].
  apply txn_bind_ok in H as (c2 & d2 & _ & H). destruct (cs_Source (cl_Spec c2)); [done|]. injection H as <- _.
  specialize (Hr _ r E). destruct (ob_data r); try done. injection Hc as ->. destruct Hr as (_ & _ & Hso).
  unfold source_ok in Hso. by rewrite Hs in Hso.
Qed.

Lemma pick_family_project d project family names rc d' :
  rows_ok d -> no_byte "/" project = true -> pick_family project family names d = Ok (rc, d') -> project_ok rc.
Proof.
  intros Hr Hp. induction names as [|name names IH]; [done|]. cbn [pick_family]. intros H.
  apply txn_bind_ok in H as (r & d1 & H1 & H). pose proof (resolveClassIn_ro _ _ _ _ _ H1) as ->.
  destruct (String.eqb _ _); [injection H as <- _; by eapply resolveClassIn_project | by apply IH].
Qed.

Lemma ResolveClass_project d user className family rc d' :
  rows_ok d -> tenant_ok (FromContext user) -> ResolveClass user className family d = Ok (rc, d') -> project_ok rc.
Proof.
  intros Hr Ht. unfold ResolveClass, LoadClass, LoadDefaultClass, requireTenant, lift, read.
  assert (forall id, RequireTenant user = Ok id -> no_byte "/" (id_Name id) = true) as Hid.
  { intros id. unfold RequireTenant. destruct (String.eqb _ _); [done|]. by intros [= <-]. }
  destruct (negb _).
  - intros (id & d1 & H1 & H)%txn_bind_ok. destruct (RequireTenant user) as [id0|]; [|done]. injection H1 as -> <-.
    eapply resolveClassIn_project; [done | by apply Hid | exact H].
  - destruct (String.eqb family ""); [done|]. intros (id & d1 & H1 & H)%txn_bind_ok.
    destruct (RequireTenant user) as [id0|]; [|done]. injection H1 as -> <-. apply txn_bind_ok in H as (rows & d2 & [= <- <-] & H).
    eapply pick_family_project; [done | by apply Hid | exact H].
Qed.

Lemma ancestry_project d leaf c l : rows_ok d -> project_ok c -> ancestry d leaf c l -> Forall project_ok l.
Proof.
  intros Hr Hc H. induction H as [|c p rest _ Hp _ _ IH]; constructor.
  - by eapply resolveClassIn_project in Hp.
  - apply IH. by eapply resolveClassIn_project in Hp.
Qed.

Lemma plan_level_key c s class l : project_ok class -> plan_level c s class = Ok l -> is_key "ippools" (lv_PoolKey l).
Proof.
  intros Hp. unfold plan_level. destruct (PoolPerRoles _) as [roles per]. destruct (ProjectFor s roles "poolPer"); [|done].
  cbn [wrap_err]. intros [= <-]. cbn [lv_PoolKey]. eexists (named _), _. split; [exact Hp | reflexivity].
Qed.

Lemma plan_chain_ok c s chain : forall levels,
  Forall (fun r => class_counted (rc_Class r)) chain -> Forall project_ok chain ->
  plan_chain c s chain = Ok levels -> Forall level_ok levels.
Proof.
  induction chain as [|class chain IH]; intros levels Hc Hp; cbn [plan_chain]; [by intros [= <-]|].
  apply Forall_cons in Hc as [Hc1 Hc2], Hp as [Hp1 Hp2].
  intros (level & Hl & (ls & Hls & [= <-])%result_bind_ok)%result_bind_ok. constructor; [|by apply IH].
  split; [|by eapply plan_level_key]. apply plan_level_spec in Hl as (E & _). unfold level_counts. by rewrite E.
Qed.

Lemma planLevels_ok user chain s levels :
  Forall (fun r => class_counted (rc_Class r)) chain -> Forall project_ok chain ->
  planLevels user chain s = Ok levels -> Forall level_ok levels.
Proof. intros Hc Hp (c & _ & (ls & Hls & [= <-])%result_bind_ok)%result_bind_ok. apply Forall_rev. by eapply plan_chain_ok. Qed.

Lemma plans_ok d user leaf s levels :
  rows_ok d -> class_counted (rc_Class leaf) -> project_ok leaf ->
  rolled_back (PlanCascade user leaf s) d = Ok levels \/ rolled_back (PlanScopeRangeCascade user leaf s) d = Ok levels ->
  Forall level_ok levels.
Proof.
  intros Hr Hl Hp. unfold rolled_back, PlanCascade, PlanScopeRangeCascade, lift, mbind, txn_bind.
  destruct (LoadAncestry leaf d) as [[anc d1]|] eqn:Ha; [|by intros [|]].
  assert (Forall (fun r => class_counted (rc_Class r)) anc /\ Forall project_ok anc) as [Hanc Hanp].
  { pose proof (LoadAncestry_ro leaf d anc d1 Ha) as ->. apply LoadAncestry_iff in Ha as (Ha & _).
    split; [by eapply ancestry_counted; [apply rows_ok_classes|] | by eapply ancestry_project]. }
  intros [H|H].
  - destruct (planLevels user anc s) eqn:E; [|done]. injection H as <-. by eapply planLevels_ok.
  - destruct (planLevels user (leaf :: anc) s) eqn:E; [|done]. injection H as <-.
    eapply planLevels_ok; [| |exact E]; by constructor.
Qed.

Lemma resolve_levels_sane others faults plan leaf s d r d' :
  (forall i d, sane d -> sane (others i d)) ->
  (forall d levels, sane d -> rolled_back plan d = Ok levels -> Forall level_ok levels) ->
  sane d -> resolve_levels others faults plan leaf s d = (r, d') -> sane d'.
Proof.
  intros Ho Hl Hd. unfold resolve_levels. cbv zeta.
  assert (sane (others O d)) as H0 by by apply Ho. assert (sane (others 1%nat (others O d))) as H1 by by apply Ho.
  destruct (reading (faults O) plan (others O d)) as [[|level rest]|] eqn:Hp; [by intros [= _ <-]| |by intros [= _ <-]].
  destruct (reading _ (DiscoverPool (lv_Class level) s) _) as [source|e]; [|by intros [= _ <-]]. intros H.
  eapply (ensureLevels_sane _ (fun i => others (S (S i)))); [intros i; apply Ho | | exact H1 | exact H].
  apply (Hl _ _ H0). unfold reading in Hp. by destruct (faults O).
Qed.

(** ** Transactions *)

(** A transaction that, when it goes through, leaves the ledger and the rows sound. *)
Definition keeps_sane {A} (m : GTxn A) : Prop :=
  forall d a d', sane d -> m d = Ok (a, d') -> inv d' /\ rows_ok d' /\ linked d'.

(** The commit checks the rest. *)
Lemma in_gtx_sane {A} what (m : GTxn A) d r d' : keeps_sane m -> sane d -> in_gtx what m d = (r, d') -> sane d'.
Proof.
  intros Hm Hd. unfold in_gtx. destruct (m d) as [[a d1]|] eqn:E; [|by intros [= _ <-]].
  destruct (identity_ok d1) eqn:Hok; intros [= _ <-]; [|done]. by destruct (Hm d a d1 Hd E) as (? & ? & ?).
Qed.

Lemma unless_sane {A} fault (tx : Db -> result GoErr A * Db) d r d' :
  sane d -> (tx d = (r, d') -> sane d') -> unless fault tx d = (r, d') -> sane d'.
Proof. intros Hd H. unfold unless. destruct fault; [by intros [= _ <-] | done]. Qed.

Lemma dry_gtx_sane {A} (m : GTxn A) d r d' : sane d -> dry_gtx m d = (r, d') -> sane d'.
Proof. intros Hd. unfold dry_gtx. destruct (m d) as [[a d1]|]; by intros [= _ <-]. Qed.

Section Claims.
Context {api : ApiMachinery} {rest : RestCreate IPClaim}.

Lemma admit_ok fault user cv ns claim0 d claim class :
  rows_ok d -> tenant_ok (FromContext user) -> admit_claim fault user cv ns claim0 d = Ok (claim, class) ->
  class_counted (rc_Class class) /\ project_ok class.
Proof.
  intros Hr Ht H. split; [by eapply admit_counted; [apply rows_ok_classes|]|].
  unfold admit_claim in H. apply result_bind_ok in H as (c & _ & H). destruct (_ && _); [done|].
  apply result_bind_ok in H as (cl & Hcl & H). unfold reading, rolled_back in Hcl. destruct fault; [done|].
  destruct (ResolveClass user _ _ d) as [[rc d1]|] eqn:E; [|done]. injection Hcl as ->.
  apply ResolveClass_project in E; [|done..]. destruct (_ && _); [done|]. destruct (_ && _); [done|].
  cbv zeta in H. repeat (case_match; try done); by injection H as _ <-.
Qed.

Lemma resolution_sane others faults user cv ns claim0 claim class d r d' :
  (forall i d, sane d -> sane (others i d)) -> sane d -> tenant_ok (FromContext user) ->
  admit_claim (faults O) user cv ns claim0 d = Ok (claim, class) ->
  resolution others faults user claim class d = (r, d') -> sane d'.
Proof.
  intros Ho Hd Ht Hadm. destruct (admit_ok _ _ _ _ _ _ _ _ (sn_rows _ Hd) Ht Hadm) as [Hc Hp].
  unfold resolution, ResolveScopeRange, ResolvePool. destruct (is_range claim).
  - destruct (cs_PoolPer _); [by intros [= _ <-]|]. apply resolve_levels_sane; [intros i; apply Ho | | done].
    intros d0 levels Hd0 Hl. eapply plans_ok; [apply Hd0 | done..|by right].
  - apply resolve_levels_sane; [intros i; apply Ho | | done]. intros d0 levels Hd0 Hl. eapply plans_ok; [apply Hd0 | done..|by left].
Qed.

Lemma persist_rows id claim alloc d c d' :
  tenant_ok id -> persist id claim alloc d = Ok (c, d') -> rows_ok d -> rows_ok d'.
Proof.
  intros Ht H Hr. apply gtxn_bind_ok in H as (rv1 & d1 & H1%stage_ok & H). apply gtxn_bind_ok in H as (rv2 & d2 & H2%stage_ok & [= _ <-]).
  eapply rows_insert; [|exact H2|]; [by apply claim_is_key|]. eapply rows_insert; [|exact H1|done]. by apply allocation_is_key.
Qed.

Lemma persist_calm id claim alloc d c d' : persist id claim alloc d = Ok (c, d') -> calm d d'.
Proof.
  intros H. apply gtxn_bind_ok in H as (rv1 & d1 & H1%stage_ok & H). apply gtxn_bind_ok in H as (rv2 & d2 & H2%stage_ok & [= _ <-]).
  eapply calm_trans; (eapply insert_plain_calm; [|eassumption]; done).
Qed.

Lemma allocate_keeps_sane user claim class poolKey u dg uniqueScope :
  tenant_ok (FromContext user) ->
  keeps_sane (bound ← allocating user claim class poolKey u dg; recording user claim bound class poolKey uniqueScope dg).
Proof.
  intros Ht d c d' Hd H. unfold allocating, recording in H. destruct (is_range claim).
  - assert (inv d') as Hi by (by apply range_transaction_ok in H as [? _]; [|apply Hd]). split; [done|].
    apply gtxn_bind_ok in H as (b & d1 & H1 & H). apply take_range_ok in H1 as (n & H1 & ->).
    apply gtxn_bind_ok in H as (rv & d2 & H2%stage_ok & [= _ <-]). split.
    + eapply rows_insert; [|exact H2|]; [by apply claim_is_key|]. apply (rows_same d); [by eapply bind_objects|apply Hd].
    + eapply calm_linked; [|apply Hd]. eapply calm_trans; [by eapply bind_calm; [apply Hd|]|]. by eapply insert_plain_calm; [|exact H2].
  - assert (inv d') as Hi by (by apply block_transaction_ok in H as [? _]; [|apply Hd]). split; [done|].
    apply gtxn_bind_ok in H as (b & d1 & H1 & H). apply gtxn_bind_ok in H1 as (cidr & d0 & H0%stage_ok & [= <- <-]). split.
    + eapply persist_rows; [exact Ht | exact H|]. eapply rows_keeps; [by eapply AllocatePrefix_keeps | apply Hd].
    + eapply calm_linked; [|apply Hd]. eapply calm_trans; [|by eapply persist_calm].
      eapply AllocatePrefix_calm; [apply Hd | exact H0|]. cbn [block_request rq_AllocationKey rq_ClaimKey].
      destruct (String.eqb _ ""); [eapply (rows_ok_child _ _ "ipclaims")|eapply (rows_ok_child _ _ "ipallocations")];
        try done; try apply Hd; [by apply claim_is_key | by apply allocation_is_key].
Qed.

Lemma Create_sane others faults user cv ns dr claim0 d r d' :
  (forall i d, sane d -> sane (others i d)) -> sane d -> tenant_ok (FromContext user) ->
  Claim.Create others faults user cv ns dr claim0 d = (r, d') -> sane d'.
Proof.
  intros Ho Hd Ht H.
  destruct (Create_cases _ _ _ _ _ _ _ _ _ _ H) as [(e & _ & -> & _) | (claim & class & r1 & d1 & Hadm & Hres & Hc)]; [done|].
  assert (sane d1) as Hd1 by by eapply resolution_sane. assert (sane (others O d1)) as Hd2 by by apply Ho.
  destruct Hc as [(e & _ & [-> | ->] & _) | (poolKey & u & us & dg & what & _ & _ & Hdr)]; [done | done |].
  specialize (Hdr dr). rewrite H in Hdr. destruct (isDryRun dr).
  - by eapply dry_gtx_sane.
  - eapply in_gtx_sane; [|exact Hd2 | by symmetry]. by apply allocate_keeps_sane.
Qed.

(** *** Releasing *)

Lemma publish_keeps_sane tell k doc res :
  as_pool doc = None -> row_ok k doc -> is_key res k -> no_byte "/" res = true -> res <> "ippools" ->
  keeps_sane (stage tell (updateObject k doc)).
Proof.
  intros Hp Hrow Hk Hres Hne d rv d' Hd H%stage_ok.
  split; [|split; [by eapply rows_update; [| |apply Hd] | by eapply calm_linked; [eapply update_plain_calm|apply Hd]]].
  destruct (updateObject_put _ _ _ _ _ H) as (r0 & r & Hr0 & _).
  destruct (update_plain k doc r0 d Hp Hr0) as (d1 & Hu & Hi & _); [by eapply rows_ok_plain; [apply Hd|..] | apply Hd |].
  rewrite Hu in H. by injection H as _ <-.
Qed.

Lemma dispose_sane id claim retained d u d' :
  tenant_ok id -> inv d -> rows_ok d -> dispose_allocation id claim retained d = Ok (u, d') -> inv d' /\ rows_ok d'.
Proof.
  intros Ht Hi Hr. unfold dispose_allocation. destruct (icst_BoundAllocationRef _) as [ref|]; [|by intros [= _ <-]].
  destruct (is_empty _); [by intros [= _ <-]|]. cbv zeta.
  pose proof (allocation_is_key id (ic_Namespace claim) (lr_Name ref) Ht) as Hk.
  set (ak := allocationObjectKey _ _ _) in *. destruct (bool_decide _).
  - destruct (unbindAllocation_ok ak d Hi) as (d1 & H1 & Hi1 & _ & _ & Ho); [intros row; by apply rows_ok_allocation|].
    rewrite H1. intros [= _ <-]. split; [done|]. destruct (db_objects d !! ak) as [row|] eqn:Hrow; [|by apply (rows_same d)].
    destruct Ho as (row' & Ho & Hdoc). destruct (rows_ok_allocation d ak row Hr Hk Hrow) as [a Ha].
    eapply rows_put; [exact Ho | by rewrite (Hdoc a Ha) | done].
  - intros (x & d1 & H1%stage_ok & [= _ <-])%gtxn_bind_ok. split; [by eapply deleteObject_ok in H1 as [? _] | by eapply rows_delete].
Qed.

Lemma dispose_calm id claim retained d u d' : dispose_allocation id claim retained d = Ok (u, d') -> calm d d'.
Proof.
  assert (calm d d) as C by (by apply calm_same; [|apply rows_from_same]).
  unfold dispose_allocation. destruct (icst_BoundAllocationRef _) as [ref|]; [|by intros [= _ <-]].
  destruct (is_empty _); [by intros [= _ <-]|]. cbv zeta. destruct (bool_decide _).
  - unfold unbindAllocation. intros (o & d1 & H1 & H)%gtxn_bind_ok.
    assert (d1 = d) as ->.
    { revert H1. unfold GetObject, select_object, read, mbind, txn_bind. destruct (db_objects d !! _); [by intros [= _ <-]|].
      cbn. by intros [= _ <-]. }
    destruct o as [doc|]; [|by injection H as _ <-]. destruct (as_allocation doc) as [a|]; [|done].
    apply gtxn_bind_ok in H as (rv & d2 & H2%stage_ok & [= _ <-]). by eapply update_plain_calm; [|exact H2].
  - intros (x & d1 & H1%stage_ok & [= _ <-])%gtxn_bind_ok. by eapply deleteObject_calm.
Qed.

Lemma releaseAndDelete_keeps_sane id claim ck : tenant_ok id -> keeps_sane (releaseAndDelete id claim ck).
Proof.
  intros Ht d b d' Hd H. unfold releaseAndDelete in H. apply gtxn_bind_ok in H as (retained & d1 & H1%stage_ok & H).
  destruct (release_run ck d (sn_inv _ Hd)) as (d1' & H1' & Hi1 & _). rewrite H1 in H1'. injection H1' as _ <-.
  assert (rows_ok d1) as R1 by (eapply rows_keeps; [by eapply Release_keeps | apply Hd]).
  apply gtxn_bind_ok in H as ([] & d2 & H2 & H). destruct (dispose_sane _ _ _ _ _ _ Ht Hi1 R1 H2) as [Hi2 R2].
  apply gtxn_bind_ok in H as (x & d3 & H3%stage_ok & [= _ <-]).
  split; [by eapply deleteObject_ok in H3 as [? _]|]. split; [by eapply rows_delete|]. eapply calm_linked; [|apply Hd].
  eapply calm_trans; [by eapply Release_calm|]. eapply calm_trans; [by eapply dispose_calm | by eapply deleteObject_calm].
Qed.

Lemma attempts_sane others faults id claim ck n : forall i d r d',
  (forall i d, sane d -> sane (others i d)) -> tenant_ok id -> sane d ->
  attempts others faults id claim ck n i d = (r, d') -> sane d'.
Proof.
  induction n as [|n IH]; intros i d r d' Ho Ht Hd; cbn [attempts]; [by intros [= _ <-]|].
  assert (sane (others i d)) as Hd1 by by apply Ho.
  destruct (unless (faults i) _ (others i d)) as [[b|e] d1] eqn:E;
    (assert (sane d1) by (eapply unless_sane; [exact Hd1| |exact E]; apply in_gtx_sane; [by apply releaseAndDelete_keeps_sane | done])).
  - by intros [= _ <-].
  - destruct n; [by intros [= _ <-]|]. by apply IH.
Qed.

(** *** A range given back *)

Lemma each_rows {A} (f : A -> Txn unit) l : (forall a d u d', f a d = Ok (u, d') -> rows_ok d -> rows_ok d') ->
  forall d u d', each (fun _ => f) tt l d = Ok (u, d') -> rows_ok d -> rows_ok d'.
Proof.
  intros Hf. induction l as [|a l IH]; intros d u d'; cbn [each]; [by intros [= _ <-]|].
  intros ([] & d1 & H1 & H)%txn_bind_ok Hr. eapply IH; [exact H|]. by eapply Hf.
Qed.

Lemma releaseRangeTree_rows fuel : forall k d u d', releaseRangeTree fuel k d = Ok (u, d') -> rows_ok d -> rows_ok d'.
Proof.
  induction fuel as [|fuel IH]; intros k d u d'; cbn [releaseRangeTree]; [done|].
  intros (rows & d0 & [= <- <-] & H)%txn_bind_ok Hr. destruct (List.filter (fun r => negb (derived_carve r)) _); [|done].
  apply txn_bind_ok in H as ([] & d1 & H1 & H). apply each_rows in H1; [|exact IH|exact Hr].
  apply txn_bind_ok in H as ([] & d2 & H2 & H). eapply rows_keeps in H1; [|by eapply deleteAllocations_keeps].
  apply txn_bind_ok in H as ([] & d3 & H3 & H). eapply rows_keeps in H1; [|by eapply deleteAllocations_keeps].
  apply txn_bind_ok in H as (x & d4 & H4 & [= _ <-]). by eapply rows_delete.
Qed.

Lemma each_calm {A} (f : A -> Txn unit) l : (forall a d u d', f a d = Ok (u, d') -> calm d d') ->
  forall d u d', each (fun _ => f) tt l d = Ok (u, d') -> calm d d'.
Proof.
  intros Hf. induction l as [|a l IH]; intros d u d'; cbn [each]; [intros [= _ <-]; apply calm_same; [done|by apply rows_from_same]|].
  intros ([] & d1 & H1 & H)%txn_bind_ok. eapply calm_trans; [by eapply Hf | by eapply IH].
Qed.

Lemma releaseRangeTree_calm fuel : forall k d u d', releaseRangeTree fuel k d = Ok (u, d') -> calm d d'.
Proof.
  induction fuel as [|fuel IH]; intros k d u d'; cbn [releaseRangeTree]; [done|].
  intros (rows & d0 & [= <- <-] & H)%txn_bind_ok. destruct (List.filter (fun r => negb (derived_carve r)) _); [|done].
  apply txn_bind_ok in H as ([] & d1 & H1 & H). apply each_calm in H1; [|exact IH]. eapply calm_trans; [exact H1|].
  apply txn_bind_ok in H as ([] & d2 & H2 & H). eapply calm_trans; [by eapply deleteAllocations_calm|].
  apply txn_bind_ok in H as ([] & d3 & H3 & H). eapply calm_trans; [by eapply deleteAllocations_calm|].
  apply txn_bind_ok in H as (x & d4 & H4 & [= _ <-]). by eapply deleteObject_calm.
Qed.

Lemma release_range_keeps_sane id claim : keeps_sane (release_range id claim).
Proof.
  intros d u d' Hd H. unfold release_range in H. apply gtxn_bind_ok in H as (k & d0 & H0%stage_ok & H).
  assert (d0 = d) as -> by (revert H0; unfold FindScopeRange, read, mbind, txn_bind; by intros [= _ <-]).
  apply gtxn_bind_ok in H as ([] & d1 & H1 & H). apply gtxn_bind_ok in H as (x & d2 & H2%stage_ok & [= _ <-]).
  assert (inv d1 /\ rows_ok d1 /\ linked d1) as (Hi1 & R1 & L1).
  { destruct (negb (is_empty k)); [|injection H1 as <-; split_and!; apply Hd]. apply stage_ok in H1. unfold ReleaseScopeRange in H1.
    split_and!; [by apply releaseRangeTree_ok in H1 as [[? _ _] _]; [|apply Hd] | eapply releaseRangeTree_rows; [exact H1|apply Hd]|].
    eapply calm_linked; [by eapply releaseRangeTree_calm | apply Hd]. }
  split_and!; [by eapply deleteObject_ok in H2 as [? _] | by eapply rows_delete|].
  eapply calm_linked; [by eapply deleteObject_calm | done].
Qed.

Lemma Delete_sane Get others faults user dv dr name d r d' :
  (forall i d, sane d -> sane (others i d)) -> sane d -> tenant_ok (FromContext user) ->
  Claim.Delete Get others faults user dv dr name d = (r, d') -> sane d'.
Proof.
  intros Ho Hd Ht. unfold Claim.Delete. destruct (Get name d) as [claim|]; [|by intros [= _ <-]].
  destruct (match dv with Some v => v claim | None => None end); [by intros [= _ <-]|]. destruct (isDryRun dr); [by intros [= _ <-]|].
  assert (sane (others O d)) as Hd0 by by apply Ho. destruct (String.eqb _ _).
  - unfold deleteScopeRange. destruct (unless _ _ (others O d)) as [[u|e] d1] eqn:E; intros [= _ <-];
      (eapply unless_sane; [exact Hd0| |exact E]; apply in_gtx_sane; [apply release_range_keeps_sane | done]).
  - unfold delete_block. pose proof (claim_is_key _ (ic_Namespace claim) (ic_Name claim) Ht) as Hk.
    set (ck := claimObjectKey _ _ _) in *. destruct (unless _ _ (others O d)) as [x d1] eqn:E.
    assert (sane d1) as Hd1.
    { eapply unless_sane; [exact Hd0| |exact E]. apply in_gtx_sane; [by apply (publish_keeps_sane _ ck _ "ipclaims") | done]. }
    destruct x as [rv|e]; [|by intros [= _ <-]].
    destruct (attempts _ _ _ _ _ _ _ d1) as [[b|e] d2] eqn:E2; intros [= _ <-];
      (eapply attempts_sane; [|exact Ht|exact Hd1|exact E2]; intros; by apply Ho).
Qed.
End Claims.

(** ** Pools *)

Section PoolHandlers.
Context {api : ApiMachinery} {rest : RestCreate IPPool}.

Lemma pool_is_key id name : tenant_ok id -> is_key "ippools" (poolStorageKey (id_Name id) name).
Proof. intros H. by exists (named (id_Name id)), name. Qed.

(** The child and the row of its block are written together. *)
Lemma carve_child_linked project pool parent family d s d1 rv d2 :
  inv d -> counts_ok (reservationFrom (ps_Reservations (pl_Spec pool))) ->
  AllocatePrefix (child_request project pool parent family) d = Ok (s, d1) ->
  insertObject (poolStorageKey project (pl_Name (carved_child pool s))) "IPPool" (pl_Name (carved_child pool s))
    (DocPool (carved_child pool s)) d1 = Ok (rv, d2) -> linked d -> linked d2.
Proof.
  intros Hi Hc H1 H2 Hl.
  destruct (AllocatePrefix_run _ _ _ _ Hi H1) as (p & n & res & Hr & Hin & _ & -> & _ & Ha & _ & Hi1 & _).
  destruct (carved_child_spec pool n ltac:(apply Hin)) as (Hparse & Hspec & Hmeta).
  assert (pl_Name (carved_child pool (IPNet_String n)) = pl_Name pool) as E by (unfold pl_Name; by rewrite Hmeta). rewrite E in H2.
  destruct (insertObject_put _ _ _ _ _ _ _ H2) as (_ & _ & _ & Hnone & _).
  assert (good_range n) as Hg by (by eapply good_sub; [apply (inv_range _ _ Hi _ p Hr)|]).
  assert (linked d1) as L1.
  { eapply calm_linked; [|exact Hl]. eapply AllocatePrefix_calm; [done|exact H1|]. cbn [child_request rq_AllocationKey rq_ClaimKey].
    assert (forall b : bool, (if b then poolStorageKey project (pl_Name pool) else poolStorageKey project (pl_Name pool))
                             = poolStorageKey project (pl_Name pool)) as -> by by intros [].
    intros (row & q & Hrow & _). pose proof (AllocatePrefix_keeps _ _ _ _ H1) as K.
    destruct (proj2 (kp_dom _ _ K (poolStorageKey project (pl_Name pool)))) as [o Ho]; [by exists row | congruence]. }
  eapply insert_pool_linked; [exact Hi1 | exact H2 | exact Hparse | exact Hg | by rewrite Hspec | | exact L1].
  - intros _. exists (claim_row (child_request project pool parent family) (effective_digest (child_request project pool parent family)) n).
    split_and!; [rewrite Ha, !elem_of_app; right; right; by apply list_elem_of_singleton | | done]. by cbn; case_match.
Qed.

Lemma carve_child_keeps_sane id pool parent family :
  tenant_ok id -> counts_ok (reservationFrom (ps_Reservations (pl_Spec pool))) ->
  keeps_sane (carve_child (id_Name id) pool parent family).
Proof.
  intros Ht Hc d c d' Hd H. split; [by apply carve_child_ok in H as [? _]; [|apply Hd|]|].
  apply gtxn_bind_ok in H as (s & d1 & H1%stage_ok & H). apply gtxn_bind_ok in H as (rv & d2 & H2%stage_ok & [= _ <-]). split.
  - eapply rows_insert; [|exact H2|]; [by apply pool_is_key|]. eapply rows_keeps; [by eapply AllocatePrefix_keeps | apply Hd].
  - by eapply carve_child_linked; [apply Hd | exact Hc | exact H1 | exact H2 | apply Hd].
Qed.

Lemma delete_child_keeps_sane k : keeps_sane (delete_child k).
Proof.
  intros d u d' Hd H. unfold delete_child in H. apply gtxn_bind_ok in H as ([] & d1 & H1%stage_ok & H).
  destruct (release_own_reservations k d (sn_inv _ Hd)) as (d1' & H1' & Hi1 & _). rewrite H1 in H1'. injection H1' as <-.
  assert (rows_ok d1) as R1 by (eapply rows_keeps; [by eapply deleteAllocations_keeps | apply Hd]).
  apply gtxn_bind_ok in H as (x & d2 & H2%stage_ok & H).
  destruct (release_run k d1 Hi1) as (d2' & H2' & Hi2 & _). rewrite H2 in H2'. injection H2' as _ <-.
  assert (rows_ok d2) as R2 by (eapply rows_keeps; [by eapply Release_keeps | done]).
  apply gtxn_bind_ok in H as (y & d3 & H3%stage_ok & [= _ <-]).
  split_and!; [by eapply deleteObject_ok in H3 as [? _] | by eapply rows_delete|]. eapply calm_linked; [|apply Hd].
  eapply calm_trans; [by eapply deleteAllocations_calm|]. eapply calm_trans; [by eapply Release_calm | by eapply deleteObject_calm].
Qed.

Lemma releaseReservations_keeps_sane k : keeps_sane (releaseReservations k).
Proof.
  intros d u d' Hd H%stage_ok. destruct (release_own_reservations k d (sn_inv _ Hd)) as (d1 & H1 & Hi1 & _).
  rewrite H in H1. injection H1 as -> <-. split; [done|]. split; [eapply rows_keeps; [by eapply deleteAllocations_keeps | apply Hd]|].
  eapply calm_linked; [by eapply deleteAllocations_calm | apply Hd].
Qed.

Lemma insert_pool_keeps_sane tell k kind name pool n :
  is_key "ippools" k -> parsePoolCIDR pool = Ok [n] -> good_range n ->
  counts_ok (reservationFrom (ps_Reservations (pl_Spec pool))) -> ps_ParentPoolRef (pl_Spec pool) = None ->
  keeps_sane (stage tell (insertObject k kind name (DocPool pool))).
Proof.
  intros Hk Hp Hg Hc Hroot d rv d' Hd H%stage_ok.
  split; [|split; [by eapply rows_insert; [|exact H|apply Hd] | by eapply insert_pool_linked; [apply Hd|exact H| | | | |apply Hd]]].
  by destruct (insertObject_pool d k kind name pool n rv d' (sn_inv _ Hd) H Hp Hg Hc) as (_ & ? & _).
Qed.

Lemma delete_object_keeps_sane tell k : keeps_sane (stage tell (deleteObject k)).
Proof.
  intros d x d' Hd H%stage_ok. split_and!; [by eapply deleteObject_ok in H as [? _]; [|apply Hd] | by eapply rows_delete; [|apply Hd]|].
  eapply calm_linked; [by eapply deleteObject_calm | apply Hd].
Qed.
End PoolHandlers.

Lemma prepare_parent p : ps_ParentPoolRef (pl_Spec (pool_PrepareForCreate p)) = ps_ParentPoolRef (pl_Spec p).
Proof. unfold pool_PrepareForCreate, setPoolStatusCapacity. repeat case_match; done. Qed.

(** A pool written again over the same range: the ledger does not notice. *)
Lemma update_pool_inv k old pool r0 d rv d' :
  db_objects d !! k = Some r0 -> ob_data r0 = DocPool old -> parsePoolCIDR pool = parsePoolCIDR old ->
  counts_ok (reservationFrom (ps_Reservations (pl_Spec pool))) ->
  inv d -> updateObject k (DocPool pool) d = Ok (rv, d') -> inv d'.
Proof.
  intros Hr0 Hold Hp Hc Hi H. unfold updateObject, update_object_row in H. unfold mbind, txn_bind in H. rewrite Hr0 in H.
  injection H as _ <-. set (r := mkObj _ _ _ _). set (d1 := set_objects d _). set (d' := log_change _ _ _).
  assert (Ho : db_objects d' = <[k := r]> (db_objects d)) by done.
  assert (Hrange : same_ranges d d').
  { intros k' p. unfold pool_range. rewrite Ho. destruct (decide (k' = k)) as [->|Hne]; [|by rewrite lookup_insert_ne].
    rewrite lookup_insert_eq. split.
    - intros (r1 & q & [= <-] & Hq & Hpq). injection Hq as <-. exists r0, old. by rewrite <- Hp.
    - intros (r1 & q & Hr1 & Hq & Hpq). rewrite Hr0 in Hr1. injection Hr1 as <-. rewrite Hold in Hq. injection Hq as <-.
      exists r, pool. by rewrite Hp. }
  pose proof Hrange as Hrange'. unfold same_ranges in Hrange'.
  destruct Hi as [I1 I2 I3 I4 I5 I6 I7 I8 I9 I10 I11]. constructor; try done.
  - intros k' p Hk. apply (I1 k'). by apply Hrange'.
  - intros x Hx. destruct (I2 x Hx) as (p & Hk & Hin). exists p. split; [by apply Hrange' | done].
  - intros k' p n Hk. apply I4. by apply Hrange'.
  - intros k' dg p f Hk Hf. apply (floor_valid_ext d); [done|]. apply I6; [by apply Hrange' | done].
  - intros k' Hk'. rewrite Ho. destruct (decide (k' = k)) as [->|Hne]; [rewrite lookup_insert_eq; by eexists|].
    rewrite lookup_insert_ne by done. by apply I7.
  - by apply (offers_sync_update d k r (DocPool pool)).
  - intros k' q (r1 & q0 & Hr1 & Hq & Hs & Ha). rewrite Ho in Hr1. apply lookup_insert_Some in Hr1 as [[<- <-]|[_ Hr1]].
    + injection Hq as <-. by rewrite Hs.
    + apply (I11 k' q). by exists r1, q0.
Qed.

(** What the strategy lets through of a pool's update. *)
Lemma pool_update_same n o :
  pool_ValidateUpdate (pool_PrepareForUpdate n o) o = [] ->
  parsePoolCIDR (pool_PrepareForUpdate n o) = parsePoolCIDR o
  /\ counts_ok (reservationFrom (ps_Reservations (pl_Spec (pool_PrepareForUpdate n o))))
  /\ (ps_ParentPoolRef (pl_Spec o) = None -> ps_ParentPoolRef (pl_Spec (pool_PrepareForUpdate n o)) = None).
Proof.
  unfold pool_ValidateUpdate. cbv zeta. intros [Hv H]%app_nil. apply app_nil in H as [Hc H]. apply app_nil in H as [_ H].
  apply app_nil in H as [Hpar _]. split; [|split; [by apply validated_counts|]].
  2: { intros E. rewrite E in Hpar. cbn [pool_PrepareForUpdate pl_set_status pl_Spec] in *. by destruct (ps_ParentPoolRef (pl_Spec n)). }
  unfold parsePoolCIDR. cbn [pool_PrepareForUpdate pl_set_status pl_Status].
  destruct (String.eqb_spec (ps_CIDR (pl_Spec (pool_PrepareForUpdate n o))) (ps_CIDR (pl_Spec o))) as [E|]; [|done].
  by rewrite E.
Qed.

(** ** Classes *)

Lemma validated_class dns c :
  (forall s, dns s = true -> no_byte "/" s = true) -> validateIPClass dns c = [] -> class_counted c /\ source_ok c.
Proof.
  intros Hdns. unfold validateIPClass, class_counted, source_ok. destruct (cs_Source (cl_Spec c)) as [src|] eqn:Hs; intros Hv.
  - assert (cs_Reservations (cl_Spec c) = None) as ->.
    { unfold validateReference in Hv. apply app_nil in Hv as [_ Hv]. apply app_nil in Hv as [_ Hv].
      unfold policy_fields in Hv. cbn [map concat fst snd] in Hv. no_errors.
      destruct (cs_Reservations (cl_Spec c)); [|done]. exfalso. repeat case_bool_decide; try done; by eauto. }
    split; [by split|]. unfold validateReference, validate_source_name in Hv. apply app_nil in Hv as [Hp _].
    destruct (is_empty (csr_Project src)); [done|]. apply Hdns. by destruct (dns (csr_Project src)).
  - split; [|done]. unfold validateDefinition in Hv. cbv zeta in Hv. no_errors.
    destruct (cs_Reservations (cl_Spec c)) as [spec|] eqn:E; [|by split]. by eapply reservations_counts.
Qed.

(** ** One step of the service *)

(** An object written or deleted in a transaction of its own, and committed. *)
Definition inserted (key kind name : string) (doc : Document) (d d' : Db) : Prop :=
  exists rv, insertObject key kind name doc d = Ok (rv, d') /\ identity_ok d' = true.
Definition updated (key : string) (doc : Document) (d d' : Db) : Prop :=
  exists rv, updateObject key doc d = Ok (rv, d') /\ identity_ok d' = true.
Definition deleted (key : string) (d d' : Db) : Prop :=
  exists rv, deleteObject key d = Ok (rv, d') /\ identity_ok d' = true.

(** Other transactions, wherever a handler is between two of its own, that keep the
    service sane; every run of the handlers does ([run_sane]). *)
Definition interleaves (others : nat -> Db -> Db) : Prop := forall i d, sane d -> sane (others i d).

(** The range a root pool takes from its text: one network, none of it, nor the address
    after it, being IPv4 written as IPv6 where the pool is IPv6. *)
Definition root_range (p : IPPool) : Prop := exists n, parsePoolCIDR p = Ok [n] /\ good_range n.

(** Who may write what the strategies let anyone write: a pool's status over another, and
    a root pool. *)
Record writers := mkWriters {
  status_may : IPPool -> IPPool -> Prop;
  root_may : IPPool -> Prop
}.

(** Anyone may write anything, as in the code. *)
Definition anyone : writers := mkWriters (fun _ _ => True) (fun _ => True).

(** Writers of a status keep the pool's range, and writers of root pools give them one
    the allocator can count in. *)
Record careful (w : writers) : Prop := {
  cf_status : forall old new, status_may w old new -> parsePoolCIDR new = parsePoolCIDR old;
  cf_root : forall p, root_may w p -> root_range p
}.

Section Steps.
Context {api : ApiMachinery} {rc : RestCreate IPClaim} {rp : RestCreate IPPool} {rk : RestCreate IPClass}.
Context (dns : string -> bool) (w : writers).

(** The generic store behind the pool and the class handlers: it writes what the
    strategy prepared and validated, or nothing. *)
Record pool_store (user : option Extras)
    (StoreCreate : IPPool -> option (IPPool -> option GoErr) -> list string -> Db -> result GoErr IPPool * Db)
    (StoreDelete : string -> option (IPPool -> option GoErr) -> list string -> Db -> result GoErr (IPPool * bool) * Db) : Prop := {
  ps_create : forall pool cv dr d r d', StoreCreate pool cv dr d = (r, d') ->
    d' = d \/ exists p kind, BeforeCreate pool_PrepareForCreate validateIPPool pool = Ok p
              /\ inserted (poolStorageKey (id_Name (FromContext user)) (pl_Name p)) kind (pl_Name p) (DocPool p) d d';
  ps_meta : forall (p : IPPool) meta, pl_Spec (obj_set_meta p meta) = pl_Spec p;
  ps_delete : forall name dv dr d r d', StoreDelete name dv dr d = (r, d') ->
    d' = d \/ deleted (poolStorageKey (id_Name (FromContext user)) name) d d'
}.

Definition class_store (user : option Extras) (StoreCreate : IPClass -> Db -> result GoErr IPClass * Db) : Prop :=
  forall class d r d', StoreCreate class d = (r, d') ->
    d' = d \/ exists c kind, BeforeCreate class_PrepareForCreate (validateIPClass dns) class = Ok c
              /\ inserted (classStorageKey (id_Name (FromContext user)) (cl_Name c)) kind (cl_Name c) (DocClass c) d d'.

(** Each handler, with whatever it answers; [allowed] says what other transactions may
    do between its own.  [object_deleted] is the generic store's own delete: of a class,
    and of the pools and classes a delete of a whole collection lists; [allocation_created]
    is its create of an IPAllocation, which no handler overrides. *)
Inductive step (allowed : (nat -> Db -> Db) -> Prop) (d d' : Db) : Prop :=
| claim_created others faults user cv ns dr claim r :
    tenant_ok (FromContext user) -> allowed others ->
    Claim.Create others faults user cv ns dr claim d = (r, d') -> step allowed d d'
| claim_deleted Get others faults user dv dr name r :
    tenant_ok (FromContext user) -> allowed others ->
    Claim.Delete Get others faults user dv dr name d = (r, d') -> step allowed d d'
| pool_created Get StoreCreate StoreDelete others user cv dr pool r :
    tenant_ok (FromContext user) -> allowed others -> pool_store user StoreCreate StoreDelete ->
    (forall p, BeforeCreate pool_PrepareForCreate validateIPPool pool = Ok p -> ps_ParentPoolRef (pl_Spec pool) = None -> root_may w p) ->
    Pools.Create Get StoreCreate others user cv dr pool d = (r, d') -> step allowed d d'
| pool_deleted Get StoreCreate StoreDelete others user dv dr name r :
    tenant_ok (FromContext user) -> allowed others -> pool_store user StoreCreate StoreDelete ->
    Pools.Delete Get StoreDelete others user dv dr name d = (r, d') -> step allowed d d'
| allocation_deleted Get others user dv dr name r :
    tenant_ok (FromContext user) -> allowed others ->
    allocation_Delete Get others user dv dr name d = (r, d') -> step allowed d d'
| class_created StoreCreate others user checker class r :
    tenant_ok (FromContext user) -> allowed others -> class_store user StoreCreate ->
    class_Create others user checker StoreCreate class d = (r, d') -> step allowed d d'
| claim_updated id namespace name c :
    tenant_ok id -> updated (claimObjectKey id namespace name) (DocClaim c) d d' -> step allowed d d'
| allocation_created id namespace name kind a :
    tenant_ok id -> inserted (allocationObjectKey id namespace name) kind name (DocAllocation a) d d' -> step allowed d d'
| allocation_updated id namespace name a :
    tenant_ok id -> updated (allocationObjectKey id namespace name) (DocAllocation a) d d' -> step allowed d d'
| class_updated id name old new row :
    tenant_ok id -> db_objects d !! classStorageKey (id_Name id) name = Some row -> ob_data row = DocClass old ->
    class_ValidateUpdate dns (class_PrepareForUpdate new old) old = [] ->
    updated (classStorageKey (id_Name id) name) (DocClass (class_PrepareForUpdate new old)) d d' -> step allowed d d'
| pool_updated id name old new row :
    tenant_ok id -> db_objects d !! poolStorageKey (id_Name id) name = Some row -> ob_data row = DocPool old ->
    pool_ValidateUpdate (pool_PrepareForUpdate new old) old = [] ->
    updated (poolStorageKey (id_Name id) name) (DocPool (pool_PrepareForUpdate new old)) d d' -> step allowed d d'
| class_status_updated id name old new row :
    tenant_ok id -> db_objects d !! classStorageKey (id_Name id) name = Some row -> ob_data row = DocClass old ->
    updated (classStorageKey (id_Name id) name) (DocClass (class_status_PrepareForUpdate new old)) d d' -> step allowed d d'
| pool_status_updated id name old new row :
    tenant_ok id -> db_objects d !! poolStorageKey (id_Name id) name = Some row -> ob_data row = DocPool old ->
    status_may w old (pool_status_PrepareForUpdate new old) ->
    updated (poolStorageKey (id_Name id) name) (DocPool (pool_status_PrepareForUpdate new old)) d d' -> step allowed d d'
| object_deleted key :
    deleted key d d' -> step allowed d d'.

(** Runs, by the depth to which handlers run within one another: between the
    transactions of a handler there are runs of the handlers themselves. *)
Fixpoint run (depth : nat) : Db -> Db -> Prop :=
  match depth with
  | O => eq
  | S n => rtc (step (fun others => forall i d, run n d (others i d)))
  end.

(** ** Every step keeps the service sane *)

Context (Hdns : forall s, dns s = true -> no_byte "/" s = true) (Hw : careful w).

Lemma updated_sane k doc d d' :
  row_ok k doc -> sane d -> updated k doc d d' -> (forall rv, updateObject k doc d = Ok (rv, d') -> inv d' /\ calm d d') -> sane d'.
Proof using Type.
  intros Hk Hd (rv & H & Hok) Hi. destruct (Hi rv H) as [Hi' Hc].
  constructor; [done | done | eapply rows_update; [done|exact H|apply Hd] | eapply calm_linked; [exact Hc|apply Hd]].
Qed.

Lemma updated_plain_sane k doc res d d' :
  row_ok k doc -> as_pool doc = None -> is_key res k -> no_byte "/" res = true -> res <> "ippools" ->
  sane d -> updated k doc d d' -> sane d'.
Proof using Type.
  intros Hrow Hp Hk Hres Hne Hd Hu. apply (updated_sane k doc d); [done..|]. intros rv H.
  destruct (publish_keeps_sane (wrapped "") k doc res Hp Hrow Hk Hres Hne d rv d' Hd (proj2 (stage_ok _ _ _ _) H)) as [Hi _].
  split; [done|]. by eapply update_plain_calm.
Qed.

Lemma updated_pool_sane k old pool row d d' :
  is_key "ippools" k -> db_objects d !! k = Some row -> ob_data row = DocPool old -> parsePoolCIDR pool = parsePoolCIDR old ->
  counts_ok (reservationFrom (ps_Reservations (pl_Spec pool))) ->
  (ps_ParentPoolRef (pl_Spec old) = None -> ps_ParentPoolRef (pl_Spec pool) = None) ->
  sane d -> updated k (DocPool pool) d d' -> sane d'.
Proof using Type.
  intros Hk Hr Ho Hp Hc Hpar Hd Hu. apply (updated_sane k (DocPool pool) d); [done..|]. intros rv H.
  split; [by eapply update_pool_inv; [..|apply Hd|exact H]|]. eapply update_calm; [|exact H].
  intros p [= <-]. by exists row, old.
Qed.

Lemma deleted_sane k d d' : sane d -> deleted k d d' -> sane d'.
Proof using Type.
  intros Hd (x & H & Hok). destruct (delete_object_keeps_sane (wrapped "") k d x d' Hd (proj2 (stage_ok _ _ _ _) H)) as (? & ? & ?). by constructor.
Qed.

Lemma pool_Create_sane Get SC SD others user cv dr pool d r d' :
  tenant_ok (FromContext user) -> interleaves others -> pool_store user SC SD ->
  (forall p, BeforeCreate pool_PrepareForCreate validateIPPool pool = Ok p -> ps_ParentPoolRef (pl_Spec pool) = None -> root_range p) ->
  sane d -> Pools.Create Get SC others user cv dr pool d = (r, d') -> sane d'.
Proof using Type.
  intros Ht Ho Hs Hroot Hd. unfold Pools.Create. destruct (validateClassOffers user pool d); [by intros [= _ <-]|]. cbv zeta.
  assert (sane (others O d)) as Hd0 by by apply Ho. assert (sane (others 1%nat (others O d))) as Hd1 by by apply Ho.
  destruct (ps_ParentPoolRef (pl_Spec pool)) as [parent|] eqn:Hp.
  - unfold create_child. destruct (BeforeCreate _ _ pool) as [p|] eqn:Hb; [|by intros [= _ <-]].
    destruct (match cv with Some v => v p | None => None end); [by intros [= _ <-]|].
    destruct (Get _ _); [|by intros [= _ <-]]. destruct (effectiveIPFamily _); [|by intros [= _ <-]].
    intros H. eapply in_gtx_sane; [|exact Hd1|exact H]. apply carve_child_keeps_sane; [done|].
    apply BeforeCreate_ok in Hb as (meta & _ & Hv). by apply validated_counts.
  - destruct (validateNoRootOverlap _ _ _); [by intros [= _ <-]|]. intros H.
    destruct (ps_create _ _ _ Hs _ _ _ _ _ _ H) as [->|(p & kind & Hb & rv & Hi & Hok)]; [done|].
    destruct (Hroot p Hb eq_refl) as (n & Hpn & Hg). apply BeforeCreate_ok in Hb as (meta & Hpm & Hv).
    assert (ps_ParentPoolRef (pl_Spec p) = None) as Hpr by (by rewrite Hpm, (ps_meta _ _ _ Hs), prepare_parent).
    destruct (insert_pool_keeps_sane (wrapped "") (poolStorageKey (id_Name (FromContext user)) (pl_Name p)) kind (pl_Name p) p n
      (pool_is_key _ _ Ht) Hpn Hg (validated_counts p Hv) Hpr _ rv d' Hd1 (proj2 (stage_ok _ _ _ _) Hi)) as (? & ? & ?). by constructor.
Qed.

Lemma pool_Delete_sane Get SC SD others user dv dr name d r d' :
  interleaves others -> pool_store user SC SD ->
  sane d -> Pools.Delete Get SD others user dv dr name d = (r, d') -> sane d'.
Proof using Type.
  intros Ho Hs Hd. unfold Pools.Delete. destruct (Get name d) as [pool|]; [|by intros [= _ <-]].
  destruct (match dv with Some v => v pool | None => None end); [by intros [= _ <-]|].
  cbv zeta. assert (sane (others O d)) as H0 by by apply Ho.
  destruct (0 <? _)%nat; [by intros [= _ <-]|]. assert (sane (others 1%nat (others O d))) as Hd0 by by apply Ho.
  destruct (ps_ParentPoolRef _).
  - destruct (in_gtx _ _ (others 1%nat _)) as [[u|e] d1] eqn:E; intros [= _ <-];
      (eapply in_gtx_sane; [|exact Hd0|exact E]; apply delete_child_keeps_sane).
  - destruct (in_gtx _ _ (others 1%nat _)) as [[u|e] d1] eqn:E.
    + assert (sane d1) by (eapply in_gtx_sane; [|exact Hd0|exact E]; apply releaseReservations_keeps_sane).
      intros H1. assert (sane (others 2%nat d1)) by by apply Ho.
      destruct (ps_delete _ _ _ Hs _ _ _ _ _ _ H1) as [->|Hdel]; [done|]. by eapply deleted_sane.
    + intros [= _ <-]. eapply in_gtx_sane; [|exact Hd0|exact E]; apply releaseReservations_keeps_sane.
Qed.

Lemma allocation_Delete_sane Get others user dv dr name d r d' :
  tenant_ok (FromContext user) -> interleaves others ->
  sane d -> allocation_Delete Get others user dv dr name d = (r, d') -> sane d'.
Proof using Type.
  intros Ht Ho Hd. unfold allocation_Delete. destruct (Get name d) as [a|]; [|by intros [= _ <-]].
  destruct (match dv with Some v => v a | None => None end); [by intros [= _ <-]|].
  destruct (ValidateDelete a); [|by intros [= _ <-]]. destruct (isDryRun dr); [by intros [= _ <-]|].
  pose proof (allocation_is_key _ (al_Namespace a) (al_Name a) Ht) as Hk. set (k := allocationObjectKey _ _ _) in *.
  assert (sane (others O d)) as Hd0 by by apply Ho.
  assert (keeps_sane (release_allocation k)) as Hs.
  { intros d1 u d2 Hd1 H. apply gtxn_bind_ok in H as ([] & d3 & H3%stage_ok & H).
    apply gtxn_bind_ok in H as (x & d4 & H4%stage_ok & [= _ <-]).
    destruct (deleteAllocations_ok (fun r => String.eqb (ar_allocation_key r) k) d1 (sn_inv _ Hd1)) as (d3' & H3' & Hi3 & _).
    { apply apart_short, filter_key_short, (inv_alloc_keys _ _ (sn_inv _ Hd1)). }
    unfold ReleaseAllocation in H3. rewrite H3 in H3'. injection H3' as <-.
    split; [by eapply deleteObject_ok in H4 as [? _]|]. split.
    - eapply rows_delete; [exact H4|]. eapply rows_keeps; [by eapply deleteAllocations_keeps|apply Hd1].
    - eapply calm_linked; [|apply Hd1]. eapply calm_trans; [by eapply deleteAllocations_calm | by eapply deleteObject_calm]. }
  destruct (in_gtx _ _ (others O d)) as [[u|e] d1] eqn:E; intros [= _ <-]; by eapply in_gtx_sane.
Qed.

Lemma class_is_key id name : tenant_ok id -> is_key "ipclasses" (classStorageKey (id_Name id) name).
Proof using Type. intros H. by exists (named (id_Name id)), name. Qed.

Lemma inserted_plain_sane k kind name doc d d' :
  row_ok k doc -> as_pool doc = None -> sane d -> inserted k kind name doc d d' -> sane d'.
Proof using Type.
  intros Hk Hp Hd (rv & Hi & Hok).
  constructor; [|done|by eapply (rows_insert _ _ _ doc); [|exact Hi|apply Hd]
               |by eapply calm_linked; [eapply (insert_plain_calm _ _ _ doc); [|exact Hi]|apply Hd]].
  by destruct (insert_plain _ _ _ doc _ _ _ Hp (sn_inv _ Hd) Hi) as [? _].
Qed.

Lemma class_Create_sane SC others user checker class d r d' :
  tenant_ok (FromContext user) -> interleaves others -> class_store user SC ->
  sane d -> class_Create others user checker SC class d = (r, d') -> sane d'.
Proof using Hdns.
  intros Ht Ho Hs Hd. unfold class_Create. destruct (authorizeSource _ _ _); [by intros [= _ <-]|].
  destruct (validateOfferAgreement _ _ _); [by intros [= _ <-]|]. intros H. assert (sane (others O d)) as Hd0 by by apply Ho.
  destruct (Hs _ _ _ _ H) as [->|(c & kind & Hb & rv & Hi & Hok)]; [done|].
  apply BeforeCreate_ok in Hb as (meta & _ & Hv). destruct (validated_class dns c Hdns Hv) as [Hc Hso].
  eapply (inserted_plain_sane _ kind _ (DocClass c)); [|done|exact Hd0|by exists rv].
  split; [by apply class_is_key | done].
Qed.

Lemma step_sane (allowed : (nat -> Db -> Db) -> Prop) d d' :
  (forall others, allowed others -> interleaves others) -> step allowed d d' -> sane d -> sane d'.
Proof using Hdns Hw.
  intros Hallowed Hstep Hd. destruct Hstep; try match goal with H : allowed _ |- _ => apply Hallowed in H end.
  - by eapply Create_sane.
  - by eapply Delete_sane.
  - eapply pool_Create_sane; try eassumption. intros p Hb Hp. apply (cf_root _ Hw). by eauto.
  - by eapply pool_Delete_sane.
  - by eapply allocation_Delete_sane.
  - by eapply class_Create_sane.
  - eapply (updated_plain_sane _ (DocClaim c) "ipclaims"); try done; by apply claim_is_key.
  - eapply (inserted_plain_sane _ kind name (DocAllocation a)); try done. by apply allocation_is_key.
  - eapply (updated_plain_sane _ (DocAllocation a) "ipallocations"); try done; by apply allocation_is_key.
  - pose proof (class_is_key id name ltac:(done)) as Hk. unfold class_ValidateUpdate in *. cbv zeta in *.
    match goal with H : _ ++ _ = [] |- _ => apply app_nil in H as [Hv _] end.
    destruct (validated_class dns _ Hdns Hv).
    by eapply (updated_plain_sane _ (DocClass _) "ipclasses").
  - match goal with H : pool_ValidateUpdate _ _ = [] |- _ => destruct (pool_update_same _ _ H) as (Hp & Hc & Hr) end.
    by eapply updated_pool_sane; [apply pool_is_key|..].
  - assert (row_ok (classStorageKey (id_Name id) name) (DocClass old)) as Hrow
      by (match goal with H : ob_data row = _ |- _ => rewrite <- H end; by apply (sn_rows _ Hd)).
    eapply (updated_plain_sane _ (DocClass (class_status_PrepareForUpdate new old)) "ipclasses"); try done. by apply class_is_key.
  - eapply updated_pool_sane; [by apply pool_is_key | done | done | by apply (cf_status _ Hw) | | done | done | done].
    apply (inv_counts _ _ (sn_inv _ Hd) (poolStorageKey (id_Name id) name) old). by exists row, old.
  - by eapply deleted_sane.
Qed.

(** ** Runs *)

(** A database as the migrations leave it, at whatever version. *)
Definition fresh (rv : Z) : Db := mkDb ∅ [] rv [] ∅ ∅ ∅ ∅.

Lemma fresh_sane rv : sane (fresh rv).
Proof using Type.
  constructor; [|done|by intros k r ?|by intros s p ?%elem_of_nil].
  apply inv_fresh; try done; [by intros k p (r & q & ? & _) | by intros k q (r & q0 & ? & _)].
Qed.

Definition reachable (d : Db) : Prop := exists rv depth, run depth (fresh rv) d.

Lemma run_sane depth : forall d d', run depth d d' -> sane d -> sane d'.
Proof using Hdns Hw.
  induction depth as [|n IH]; intros d d' H; [by rewrite <- H|]. induction H as [|d d1 d' H _ IHs]; [done|].
  intros Hd. apply IHs. refine (step_sane _ d d1 _ H Hd). intros others Ho i d2. by apply IH.
Qed.

Lemma reachable_sane d : reachable d -> sane d.
Proof using Hdns Hw. intros (rv & depth & H). by eapply run_sane; [exact H | apply fresh_sane]. Qed.

(** [C2] Whatever handlers run, on whatever input, in whatever order, with whole runs of
    handlers between the transactions of one, and whichever transactions of claim create
    and delete fail; transactions being taken one at a time, status writers leaving a
    pool's range and root ranges being countable ([careful]): the ledger stays
    consistent, the identity table names stored pools and each once, and every object
    is stored under a key of its kind, with classes that can still be resolved: their
    reservations within the positions counted, their source in a project that can be
    named.  The block recorded under the key of a pool with a parent is the range the
    pool hands out from. *)
Theorem service_invariant d : reachable d ->
  inv d /\ identity_ok d = true /\ linked d /\ forall k row, db_objects d !! k = Some row -> row_ok k (ob_data row).
Proof using Hdns Hw. by intros [Hi Hid Hr Hl]%reachable_sane. Qed.

Lemma inside_covers p b bits x : inside p b -> covers b bits x = true -> covers p bits x = true.
Proof using Type. intros (_ & E & ? & ?). unfold covers. rewrite E. zbool. intros. zbool. repeat (apply andb_true_iff; split); zbool; lia. Qed.

Lemma shared_overlap a b bits x : covers a bits x = true -> covers b bits x = true -> net_overlap a b = true.
Proof using Type. unfold covers, net_overlap. intros Ha Hb. zbool. repeat (apply andb_true_iff; split); zbool; lia. Qed.

Lemma rows_in_range d r : reachable d -> r ∈ db_allocs d -> exists p, pool_range d (ar_pool_key r) p /\ inside p (ar_cidr r).
Proof using Hdns Hw. intros Hd%reachable_sane H. apply (inv_rows _ _ (sn_inv _ Hd)). apply elem_of_app. by left. Qed.

(** A row of a child pool is beneath the row that pool hands out from. *)
Definition under (d : Db) (r s : AllocRow) : Prop :=
  r ∈ db_allocs d /\ s ∈ db_allocs d /\ held_row s /\ ar_pool_key r = ar_allocation_key s /\ is_child d (ar_pool_key r).
Definition beneath (d : Db) : AllocRow -> AllocRow -> Prop := rtc (under d).

Lemma beneath_inside d r s : reachable d -> beneath d r s -> forall bits x, covers (ar_cidr r) bits x = true -> covers (ar_cidr s) bits x = true.
Proof using Hdns Hw.
  intros Hd H bits x. induction H as [|r t s (Hr & Ht & Hh & Ek & Hc) _ IH]; [done|]. intros Hx. apply IH.
  destruct (rows_in_range d r Hd Hr) as (p & Hp & Hin). pose proof (sn_linked _ (reachable_sane d Hd)) as Hl.
  rewrite Ek in Hp, Hc. rewrite <- (Hl t p Ht Hh Hc Hp). by eapply inside_covers.
Qed.

(** [C1] No address is out twice, in any state the service reaches with transactions taken
    one at a time and careful writers, those of a pool's status leaving its range and
    those of root pools giving them one the allocator can count in.  Take two different
    rows of one pool, of which one at least is a reserved position or the range of a pool
    carved inside, or which are claims of one address space: nothing recorded beneath the
    one, however deep in the tree of pools, shares an address with the other or with
    anything beneath it. *)
Theorem no_address_twice d s1 s2 r1 r2 :
  reachable d -> s1 ∈ db_allocs d -> s2 ∈ db_allocs d -> s1 <> s2 -> ar_pool_key s1 = ar_pool_key s2 ->
  ar_purpose s1 <> PurposeClaim \/ ar_purpose s2 <> PurposeClaim \/ ar_scope_digest s1 = ar_scope_digest s2 ->
  beneath d r1 s1 -> beneath d r2 s2 ->
  forall bits x, covers (ar_cidr r1) bits x = true -> covers (ar_cidr r2) bits x = false.
Proof using Hdns Hw.
  intros Hr H1 H2 Hne Hk Hp B1 B2 bits x Hx%(beneath_inside d r1 s1 Hr B1). apply not_true_iff_false.
  intros Hy%(beneath_inside d r2 s2 Hr B2).
  destruct (rows_compatible d s1 s2 (sn_inv _ (reachable_sane d Hr)) H1 H2 Hne Hk (shared_overlap _ _ _ _ Hx Hy)) as (P1 & P2 & Hdg).
  by destruct Hp as [?|[?|?]].
Qed.

(** *** What a watcher can be told *)

Lemma inserted_history key kind name doc d d' : inserted key kind name doc d d' -> history d d'.
Proof using Type. intros (rv & H & _). by eapply insert_tells. Qed.
Lemma updated_history key doc d d' : updated key doc d d' -> history d d'.
Proof using Type. intros (rv & H & _). by eapply update_tells. Qed.
Lemma deleted_history key d d' : deleted key d d' -> history d d'.
Proof using Type. intros (rv & H & _). by eapply delete_tells. Qed.

Lemma step_history (allowed : (nat -> Db -> Db) -> Prop) d d' :
  (forall others, allowed others -> forall i d, history d (others i d)) -> step allowed d d' -> history d d'.
Proof using Type.
  intros Hallowed Hstep. destruct Hstep; try match goal with H : allowed _ |- _ => pose proof (Hallowed _ H); clear H end.
  - by eapply Create_history.
  - by eapply Delete_history.
  - eapply pool_Create_history; [eassumption| |eassumption]. intros p cv' dr' e r' e' H'.
    destruct (ps_create _ _ _ ltac:(eassumption) _ _ _ _ _ _ H') as [->|(q & kind & _ & Hi)]; [done | by eapply inserted_history].
  - eapply pool_Delete_history; [eassumption| |eassumption]. intros n dv' dr' e r' e' H'.
    destruct (ps_delete _ _ _ ltac:(eassumption) _ _ _ _ _ _ H') as [->|Hi]; [done | by eapply deleted_history].
  - by eapply allocation_Delete_history.
  - eapply class_Create_history; [eassumption| |eassumption]. intros c e r' e' H'.
    match goal with H : class_store _ _ |- _ => destruct (H _ _ _ _ H') as [->|(q & kind & _ & Hi)] end; [done | by eapply inserted_history].
  - by eapply updated_history.
  - by eapply inserted_history.
  - by eapply updated_history.
  - by eapply updated_history.
  - by eapply updated_history.
  - by eapply updated_history.
  - by eapply updated_history.
  - by eapply deleted_history.
Qed.

Lemma run_history depth : forall d d', run depth d d' -> history d d'.
Proof using Type.
  induction depth as [|n IH]; intros d d' H; [by rewrite <- H|]. induction H as [|d d1 d' H _ IHs]; [done|].
  etrans; [|exact IHs]. refine (step_history _ d d1 _ H). intros others Ho i d2. by apply IH.
Qed.

(** [C4] The changelog never lies about an object.  In every state the service reaches,
    whatever handlers ran and failed and whoever wrote what, transactions taken one at a
    time, the rows of any one key, read in the order they were appended, tell its life:
    an ADDED when it was not there, a MODIFIED or a DELETED when it was, the last with
    the content that went; and the last row leaves it as it is stored now, content and
    version, or gone.  Nothing is said of the order of versions, across objects or for
    one. *)
Theorem changelog_never_lies d k : reachable d -> story None (rows_of k (db_changelog d)) (contents d !! k).
Proof using Type.
  intros (rv & depth & H). destruct (run_history depth _ _ H) as (cs & E & Ht). rewrite E. exact (told_story _ _ _ k Ht).
Qed.

(** [C12] The running total of a pool never drifts: in any state the service reaches with
    transactions taken one at a time and careful writers, status writes leaving the
    pool's range, it is the number of addresses of that range the pool's rows cover. *)
Theorem totals_never_drift d k p n :
  reachable d -> pool_range d k p -> db_consumed d !! k = Some n -> n = consumed_in (cidrs_of k (db_allocs d)) p.
Proof using Hdns Hw.
  intros Hd%reachable_sane Hp Hn. pose proof (inv_total _ _ (sn_inv _ Hd) k p n Hp Hn) as H. by rewrite app_nil_r in H.
Qed.

(** [C3] A claim can always be given back: in every state the service reaches with
    transactions taken one at a time and careful writers, status writes leaving every
    pool a range, deleting a stored claim of a block, nobody interfering and nothing
    failing, succeeds, takes its object and its row (or unbinds them, under policy
    Retain), and touches nothing else. *)
Theorem claims_stay_deletable Get user dv objName d claim name row :
  let id := FromContext user in
  let ck := claimObjectKey id (ic_Namespace claim) (ic_Name claim) in
  let ak := allocationObjectKey id (ic_Namespace claim) name in
  reachable d -> tenant_ok id -> db_objects d !! ck = Some row -> deletes Get dv objName d claim name ->
  exists out d', Claim.Delete Get (fun _ d => d) (fun _ => None) user dv [] objName d = (Ok out, d')
    /\ claim_gone ck ak d d' /\ forall r, r ∈ db_allocs d' -> ar_claim_key r <> Some ck.
Proof using Hdns Hw.
  intros id ck ak Hd%reachable_sane Ht Hrow Hdel. rewrite (Delete_block Get _ _ _ _ _ _ _ _ Hdel). change (FromContext user) with id.
  destruct Hdel as [_ _ _ Href Hname].
  assert (deletable ck ak d) as Hdl.
  { constructor; [apply Hd | apply Hd | exists row; split; [done|] | intros o; apply rows_ok_allocation; [apply Hd|by apply allocation_is_key]].
    by apply (rows_ok_plain d ck row "ipclaims"); [apply Hd|apply claim_is_key| | |]. }
  destruct (delete_block_alone id claim name d Href Hname Hdl) as (out & d' & H & Hg). exists out, d'. split; [exact H|]. split; [exact Hg|].
  apply (claim_gone_rows _ _ _ _ Hg).
Qed.
End Steps.

(** ** A run *)

#[refine] Definition plain_rest_class : RestCreate IPClass := {|
  obj_meta := cl_Meta;
  obj_set_meta c m := mkClass m (cl_Spec c) (cl_Phase c);
  BeforeCreate prepare validate c :=
    match validate (prepare c) with [] => Ok (prepare c) | _ => Err (GText "invalid") end
|}.
Proof.
  intros prepare validate c c'. destruct (validate (prepare c)) eqn:E; [|done]. intros [= <-].
  exists (cl_Meta (prepare c)). by destruct (prepare c).
Defined.

Definition alone (_ : nat) (d : Db) : Db := d.

Definition run_dns : string -> bool := no_byte "/".

Definition run_class_create (class : IPClass) (d : Db) : result GoErr IPClass * Db :=
  let c := class_PrepareForCreate class in
  match validateIPClass run_dns c with
  | [] => in_gtx "commit" (stage (wrapped "create") (insertObject (classStorageKey "alpha" (cl_Name c)) "IPClass" (cl_Name c) (DocClass c));;
                           mret c) d
  | _ => (Err (GText "invalid"), d)
  end.

Local Abbreviation run_runs w := (@run plain_machinery plain_rest plain_rest_pool plain_rest_class run_dns w).
Local Abbreviation run_step w n := (@step plain_machinery plain_rest plain_rest_pool plain_rest_class run_dns w
  (fun others => forall i d, run_runs w n d (others i d))).

(** One write in a transaction: it is committed, or nothing happened. *)
Lemma one_write {A B} what tell (m : Txn A) (b : B) d r d' :
  in_gtx what (stage tell m;; mret b) d = (r, d') -> d' = d \/ exists a, m d = Ok (a, d') /\ identity_ok d' = true.
Proof.
  destruct r as [b'|e]; [|intros H%in_gtx_err; by left].
  intros [H Hok]%in_gtx_ok. right. apply gtxn_bind_ok in H as (a & d1 & H%stage_ok & [= _ <-]). by exists a.
Qed.

Lemma run_class_store : @class_store plain_rest_class run_dns (cx_user "alpha") run_class_create.
Proof.
  intros class d r d'. unfold run_class_create. cbv zeta. destruct (validateIPClass _ _) eqn:Hv; [|intros [= _ <-]; by left].
  intros [->|(rv & H)]%one_write; [by left | right]. exists (class_PrepareForCreate class), "IPClass".
  split; [cbn; by rewrite Hv|]. by exists rv.
Qed.

Lemma run_pool_store : @pool_store plain_rest_pool (cx_user "alpha") ex_store_create ex_store_delete.
Proof.
  constructor.
  - intros pool cv dr d r d'. unfold ex_store_create. cbv zeta. destruct (validateIPPool _) eqn:Hv; [|intros [= _ <-]; by left].
    intros [->|(rv & H)]%one_write; [by left | right]. exists (pool_PrepareForCreate pool), "IPPool".
    split; [cbn; by rewrite Hv|]. by exists rv.
  - done.
  - intros name dv dr d r d'. unfold ex_store_delete. destruct (ex_read_pool name d) as [p|]; [|intros [= _ <-]; by left].
    intros [->|(rv & H)]%one_write; [by left | right]. by exists rv.
Qed.

(** Two classes, a pool that offers the first, and claims of the second for two
    networks, from an empty database. *)
Definition run_net : Db := (@class_Create plain_machinery alone (cx_user "alpha") None run_class_create (cx_class "net" "" 31) (fresh 0)).2.
Definition run_addr : Db := (@class_Create plain_machinery alone (cx_user "alpha") None run_class_create (cx_class "addr" "net" 32) run_net).2.
Definition run_pool : Db :=
  (@Pools.Create plain_machinery plain_rest_pool ex_read_pool ex_store_create alone (cx_user "alpha") None [] cx_pool run_addr).2.
Definition run_claim (name net : string) : IPClaim :=
  mkIPClaim (mkMeta name ∅ ∅) "default" 0 (mkClaimSpec "addr" "" "" "" None (cx_scope net) "" "" None) (mkClaimStatus "" "" "" None None).
Definition run_claimed (others : nat -> Db -> Db) (claim : IPClaim) (d : Db) : result GoErr IPClaim * Db :=
  @Claim.Create plain_machinery plain_rest others (fun _ => None) (cx_user "alpha") None None [] claim d.
Definition run_first : Db := (run_claimed alone (run_claim "c1" "n1") run_pool).2.
(** Between the transactions of the second claim, a third of the first network. *)
Definition run_between (i : nat) (d : Db) : Db := match i with O => (run_claimed alone (run_claim "c3" "n1") d).2 | _ => d end.
Definition run_second : Db := (run_claimed run_between (run_claim "c2" "n2") run_first).2.

Example run_rows : (is_ok (run_claimed alone (run_claim "c1" "n1") run_pool).1, is_ok (run_claimed run_between (run_claim "c2" "n2") run_first).1,
    map (fun r => (IPNet_String (ar_cidr r), match ar_purpose r with PurposeClaim => "claim" | PurposeReservation => "reserved" | PurposePoolCarve => "carve" end))
      (db_allocs run_second))
  = (true, true, [("10.0.0.0/32", "reserved"); ("10.0.0.7/32", "reserved"); ("10.0.0.2/31", "carve"); ("10.0.0.2/32", "claim");
                  ("10.0.0.4/31", "carve"); ("10.0.0.3/32", "claim"); ("10.0.0.4/32", "claim")]).
Proof. vm_compute. reflexivity. Qed.

Lemma run_alone w n : forall i d, run_runs w n d (alone i d).
Proof. intros i d. destruct n; [reflexivity | apply rtc_refl]. Qed.

Lemma run_claimed_step w n others claim d :
  (forall i d, run_runs w n d (others i d)) -> run_step w n d (run_claimed others claim d).2.
Proof.
  intros Ho. apply (claim_created _ _ _ _ _ others (fun _ => None) (cx_user "alpha") None None [] claim (run_claimed others claim d).1);
    [vm_compute; reflexivity | exact Ho | apply surjective_pairing].
Qed.

Lemma run_between_runs w i d : run_runs w 1 d (run_between i d).
Proof.
  destruct i; [|apply rtc_refl]. apply rtc_once. apply (run_claimed_step w 0 alone), run_alone.
Qed.

Lemma run_root p : @BeforeCreate _ plain_rest_pool pool_PrepareForCreate validateIPPool cx_pool = Ok p -> root_range p.
Proof.
  intros Hp. assert (p = pool_PrepareForCreate cx_pool) as ->.
  { cbn [BeforeCreate plain_rest_pool] in Hp. destruct (validateIPPool _); [by injection Hp as <- | done]. }
  destruct (parsePoolCIDR (pool_PrepareForCreate cx_pool)) as [[|n [|]]|] eqn:E; try (vm_compute in E; discriminate E).
  exists n. split; [exact E|]. vm_compute in E. injection E as <-.
  split; [apply wf_netb_spec; vm_compute; reflexivity|]. split; [apply native_netb_spec; vm_compute; reflexivity|].
  split; [vm_compute; reflexivity | intros H; vm_compute in H; discriminate H].
Qed.

(** The run, whoever may write, as long as someone may create the pool. *)
Lemma run_run w : (forall p, root_range p -> root_may w p) -> run_runs w 2 (fresh 0) run_second.
Proof.
  intros Hw. assert (Ht : tenant_ok (FromContext (cx_user "alpha"))) by (vm_compute; reflexivity).
  apply (rtc_l (run_step w 1) _ run_net).
  { eapply class_created; [exact Ht | exact (run_alone w 1) | exact run_class_store | apply surjective_pairing]. }
  apply (rtc_l (run_step w 1) _ run_addr).
  { eapply class_created; [exact Ht | exact (run_alone w 1) | exact run_class_store | apply surjective_pairing]. }
  apply (rtc_l (run_step w 1) _ run_pool).
  { eapply pool_created; [exact Ht | exact (run_alone w 1) | exact run_pool_store | | apply surjective_pairing].
    intros p Hp _. by apply Hw, run_root. }
  apply (rtc_l (run_step w 1) _ run_first); [apply run_claimed_step, run_alone|].
  apply (rtc_l (run_step w 1) _ run_second); [apply run_claimed_step, run_between_runs | apply rtc_refl].
Qed.

(** Writers that keep to what the theorems ask, and may do anything else. *)
Definition keepers : writers := mkWriters (fun old new => parsePoolCIDR new = parsePoolCIDR old) root_range.

Lemma keepers_careful : careful keepers.
Proof. by constructor. Qed.

Lemma run_reachable : @reachable plain_machinery plain_rest plain_rest_pool plain_rest_class run_dns keepers run_second.
Proof. exists 0, 2%nat. apply run_run. by intros p. Qed.

Lemma run_dns_segment s : run_dns s = true -> no_byte "/" s = true.
Proof. done. Qed.

Lemma service_invariant_witness : 0 < Z.of_nat (length (db_allocs run_second)) /\ inv run_second.
Proof. split; [vm_compute; reflexivity|]. apply (service_invariant run_dns keepers run_dns_segment keepers_careful run_second run_reachable). Defined.

Lemma changelog_never_lies_witness :
  let k := poolStorageKey "alpha" "p" in
  (4 <= length (rows_of k (db_changelog run_second)))%nat
  /\ story None (rows_of k (db_changelog run_second)) (contents run_second !! k).
Proof.
  split; [apply Nat.leb_le; vm_compute; reflexivity|]. apply (changelog_never_lies run_dns keepers run_second _ run_reachable).
Defined.

(** The rows of a run by who holds them. *)
Definition run_pools : string := "project/alpha/ipam.miloapis.com/ippools/".
Definition run_claims : string := "project/alpha/ipam.miloapis.com/ipclaims/default/".
Definition run_row (pu : AllocationPurpose) (ck pk ak : string) (r : AllocRow) : bool :=
  bool_decide (ar_claim_key r = Some ck) && String.eqb (ar_pool_key r) pk
  && (String.eqb ak "" || String.eqb (ar_allocation_key r) ak) && bool_decide (ar_purpose r = pu).

Lemma run_row_in pu ck pk ak : existsb (run_row pu ck pk ak) (db_allocs run_second) = true ->
  exists r, r ∈ db_allocs run_second /\ ar_claim_key r = Some ck /\ ar_pool_key r = pk /\ (ak = "" \/ ar_allocation_key r = ak) /\ ar_purpose r = pu.
Proof.
  intros (r & Hr%list_elem_of_In & H)%existsb_exists. unfold run_row in H. zbool. exists r. split; [exact Hr|].
  repeat match goal with H : _ && _ = true |- _ => apply andb_true_iff in H as [? ?] end.
  split_and!; try (by eapply bool_decide_eq_true_1); try (by apply String.eqb_eq).
  match goal with H : _ || _ = true |- _ => apply orb_true_iff in H as [?%String.eqb_eq|?%String.eqb_eq]; [by left|by right] end.
Qed.

(** A network carved of the root pool, and a claim of it. *)
Lemma run_network net claim :
  existsb (run_row PurposePoolCarve (run_pools +:+ net) (run_pools +:+ "p") (run_pools +:+ net)) (db_allocs run_second) = true ->
  existsb (run_row PurposeClaim (run_claims +:+ claim) (run_pools +:+ net) "") (db_allocs run_second) = true ->
  match db_objects run_second !! (run_pools +:+ net) with
  | Some o => match as_pool (ob_data o) with Some p => bool_decide (is_Some (ps_ParentPoolRef (pl_Spec p))) | None => false end
  | None => false
  end = true ->
  exists s r, s ∈ db_allocs run_second /\ ar_pool_key s = run_pools +:+ "p" /\ ar_allocation_key s = run_pools +:+ net /\ ar_purpose s = PurposePoolCarve
    /\ ar_claim_key r = Some (run_claims +:+ claim) /\ beneath run_second r s.
Proof.
  intros (s & Hs & _ & Ps & [Ks|Ks] & Hh)%run_row_in (r & Hr & Cr & Pr & _)%run_row_in Hc; [discriminate Ks|].
  exists s, r. split_and!; [exact Hs | exact Ps | exact Ks | exact Hh | exact Cr|]. apply rtc_once. unfold under.
  split_and!; [exact Hr | exact Hs | unfold held_row; by rewrite Hh | by rewrite Pr, Ks|]. rewrite Pr. unfold is_child.
  destruct (db_objects run_second !! _) as [o|]; [|discriminate Hc]. destruct (as_pool (ob_data o)) as [p|] eqn:Hp; [|discriminate Hc].
  exists o, p. split; [reflexivity|]. split; [by apply as_pool_Some|]. apply bool_decide_eq_true_1 in Hc as [x ->]. discriminate.
Qed.

(** The first claim's addresses are not the second's, though they are in different pools. *)
Lemma no_address_twice_witness : exists r1 r2, ar_claim_key r1 = Some (run_claims +:+ "c1") /\ ar_claim_key r2 = Some (run_claims +:+ "c2")
  /\ forall bits x, covers (ar_cidr r1) bits x = true -> covers (ar_cidr r2) bits x = false.
Proof.
  destruct (run_network "net-alpha-n1-b9f959ed" "c1") as (s1 & r1 & H1 & P1 & K1 & U1 & C1 & B1); [vm_compute; reflexivity..|].
  destruct (run_network "net-alpha-n2-b09d8e23" "c2") as (s2 & r2 & H2 & P2 & K2 & _ & C2 & B2); [vm_compute; reflexivity..|].
  exists r1, r2. split; [exact C1|]. split; [exact C2|].
  apply (no_address_twice run_dns keepers run_dns_segment keepers_careful run_second s1 s2 r1 r2 run_reachable H1 H2).
  - intros ->. rewrite K1 in K2. discriminate K2.
  - by rewrite P1, P2.
  - left. rewrite U1. discriminate.
  - exact B1.
  - exact B2.
Defined.

Lemma totals_never_drift_witness : exists p, pool_range run_second "project/alpha/ipam.miloapis.com/ippools/p" p
  /\ 6 = consumed_in (cidrs_of "project/alpha/ipam.miloapis.com/ippools/p" (db_allocs run_second)) p.
Proof.
  destruct (run_network "net-alpha-n1-b9f959ed" "c1") as (s & _ & Hs & Ps & _); [vm_compute; reflexivity..|].
  destruct (rows_in_range run_dns keepers run_dns_segment keepers_careful run_second s run_reachable Hs) as (p & Hp & _). rewrite Ps in Hp.
  exists p. split; [exact Hp|].
  apply (totals_never_drift run_dns keepers run_dns_segment keepers_careful run_second _ p 6 run_reachable Hp). vm_compute. reflexivity.
Defined.

Lemma run_stored : exists claim row name, ex_get "c1" run_second = Ok claim
  /\ claimObjectKey (FromContext (cx_user "alpha")) (ic_Namespace claim) (ic_Name claim) = "project/alpha/ipam.miloapis.com/ipclaims/default/c1"
  /\ db_objects run_second !! "project/alpha/ipam.miloapis.com/ipclaims/default/c1" = Some row
  /\ deletes ex_get None "c1" run_second claim name.
Proof.
  assert (H : match ex_get "c1" run_second with
    | Ok c => String.eqb (claimObjectKey (FromContext (cx_user "alpha")) (ic_Namespace c) (ic_Name c)) "project/alpha/ipam.miloapis.com/ipclaims/default/c1"
              && bool_decide (ics_Target (ic_Spec c) <> TargetScopeRange)
              && match icst_BoundAllocationRef (ic_Status c) with Some (mkLocalRef n) => negb (String.eqb n "") | None => false end
    | Err _ => false end = true) by (vm_compute; reflexivity).
  assert (Hr : is_Some (db_objects run_second !! "project/alpha/ipam.miloapis.com/ipclaims/default/c1")) by (vm_compute; by eexists).
  destruct Hr as [row Hrow]. destruct (ex_get "c1" run_second) as [c|] eqn:Hg; [|discriminate H].
  apply andb_true_iff in H as [[Hk Ht%bool_decide_eq_true]%andb_true_iff Hn].
  destruct (icst_BoundAllocationRef (ic_Status c)) as [[n]|] eqn:Hb; [|discriminate Hn].
  exists c, row, n. split; [reflexivity|]. split; [by apply String.eqb_eq|]. split; [exact Hrow|].
  constructor; [exact Hg | reflexivity | exact Ht | exact Hb | intros ->; discriminate Hn].
Qed.

Lemma claims_stay_deletable_witness : exists claim out d', ex_get "c1" run_second = Ok claim
  /\ @Claim.Delete plain_machinery ex_get (fun _ d => d) (fun _ => None) (cx_user "alpha") None [] "c1" run_second = (Ok out, d')
  /\ forall r, r ∈ db_allocs d' -> ar_claim_key r <> Some "project/alpha/ipam.miloapis.com/ipclaims/default/c1".
Proof.
  destruct run_stored as (claim & row & name & Hg & Hk & Hrow & Hd).
  assert (Ht : tenant_ok (FromContext (cx_user "alpha"))) by (vm_compute; reflexivity).
  rewrite <- Hk in Hrow |- *.
  destruct (claims_stay_deletable run_dns keepers run_dns_segment keepers_careful ex_get (cx_user "alpha") None "c1" run_second claim name row run_reachable Ht Hrow Hd)
    as (out & d' & H & _ & Hr).
  exists claim, out, d'. split; [exact Hg|]. split; [exact H | exact Hr].
Defined.

(** ** What nothing keeps *)

Definition run_read (key : string) (d : Db) : option IPPool := r ← db_objects d !! key; as_pool (ob_data r).

(** A pool's status is written as the client sent it. *)
Definition run_status (key cidr : string) (d : Db) : Db :=
  match run_read key d with
  | None => d
  | Some p =>
    let st := pl_Status p in
    let new := pl_set_status p (mkPoolStatus (pst_Phase st) cidr (pst_IPFamily st) (pst_ScopeDigest st) (pst_Capacity st) (pst_UtilizationPercent st)) in
    match updateObject key (DocPool (pool_status_PrepareForUpdate new p)) d with Ok (_, d') => d' | Err _ => d end
  end.

Definition run_moved : Db := run_status "project/alpha/ipam.miloapis.com/ippools/net-alpha-n1-b9f959ed" "10.0.0.4/31" run_second.
Definition run_fourth : result GoErr IPClaim * Db := run_claimed alone (run_claim "c4" "n1") run_moved.

(** The addresses claims hold, with the claim. *)
Definition held (d : Db) : list (string * string) :=
  omap (fun r => if bool_decide (ar_purpose r = PurposeClaim) then option_map (pair (IPNet_String (ar_cidr r))) (ar_claim_key r) else None)
    (db_allocs d).

Lemma run_moved_step :
  exists n1 row old new,
    db_objects run_second !! poolStorageKey (id_Name (FromContext (cx_user "alpha"))) n1 = Some row /\ ob_data row = DocPool old
    /\ updated (poolStorageKey (id_Name (FromContext (cx_user "alpha"))) n1)
         (DocPool (pool_status_PrepareForUpdate new old)) run_second run_moved.
Proof.
  set (k := poolStorageKey (id_Name (FromContext (cx_user "alpha"))) "net-alpha-n1-b9f959ed").
  assert (Ek : k = "project/alpha/ipam.miloapis.com/ippools/net-alpha-n1-b9f959ed") by (vm_compute; reflexivity).
  assert (H : match run_read k run_second with Some _ => identity_ok run_moved && is_ok (updateObject k (DocPool cx_pool) run_second) | None => false end = true)
    by (vm_compute; reflexivity).
  unfold run_moved, run_status in *. rewrite <- Ek in *. unfold run_read in *. unfold mbind, option_bind in *.
  destruct (db_objects run_second !! k) as [row|] eqn:Hrow; [|discriminate H].
  destruct (as_pool (ob_data row)) as [p|] eqn:Hp; [|discriminate H]. apply as_pool_Some in Hp.
  set (new := pl_set_status p _) in *. apply andb_true_iff in H as [Hok _].
  assert (exists x, updateObject k (DocPool (pool_status_PrepareForUpdate new p)) run_second = Ok x) as ([rv d'] & Hu).
  { unfold updateObject, update_object_row, mbind, txn_bind. rewrite Hrow. by eexists. }
  exists "net-alpha-n1-b9f959ed", row, p, new. split; [exact Hrow|]. split; [exact Hp|]. exists rv.
  rewrite Hu in Hok |- *. by split.
Qed.

Lemma run_fourth_reachable :
  @reachable plain_machinery plain_rest plain_rest_pool plain_rest_class run_dns anyone run_fourth.2.
Proof.
  assert (Ht : tenant_ok (FromContext (cx_user "alpha"))) by (vm_compute; reflexivity).
  exists 0, 2%nat. refine (transitivity (run_run anyone _) _); [done|].
  destruct run_moved_step as (n1 & row & old & new & Hrow & Hold & Hu).
  apply (rtc_l (run_step anyone 1) _ run_moved).
  { by eapply (pool_status_updated _ _ _ _ _ (FromContext (cx_user "alpha")) n1 old new row). }
  apply rtc_once. apply run_claimed_step, run_alone.
Qed.

(** The range of a pool is read from its status, and an update of the status is not
    validated.  So among the states the service reaches when anyone may write one there
    is one with an address out twice: the status of the first network's pool was moved
    onto the second's range, and the next claim of the first was given the address the
    second holds. *)
Theorem pool_status_unguarded :
  exists d, @reachable plain_machinery plain_rest plain_rest_pool plain_rest_class run_dns anyone d
  /\ held d = [("10.0.0.2/32", "project/alpha/ipam.miloapis.com/ipclaims/default/c1");
               ("10.0.0.3/32", "project/alpha/ipam.miloapis.com/ipclaims/default/c3");
               ("10.0.0.4/32", "project/alpha/ipam.miloapis.com/ipclaims/default/c2");
               ("10.0.0.4/32", "project/alpha/ipam.miloapis.com/ipclaims/default/c4")].
Proof. exists run_fourth.2. split; [exact run_fourth_reachable | vm_compute; reflexivity]. Qed.

Definition run_child_create (d : Db) : result GoErr IPPool * Db :=
  @Pools.Create plain_machinery plain_rest_pool ex_read_pool ex_store_create alone (cx_user "alpha") None [] ex_child d.
Definition run_child : Db := (run_child_create run_pool).2.
Definition run_child_key : string := poolStorageKey "alpha" "child".

(** What the generic store's delete of a collection does to one pool it lists. *)
Definition run_collected : Db := match deleteObject run_child_key run_child with Ok (_, d) => d | Err _ => run_child end.

(** Deleting a child pool with its collection reaches the generic store's delete and not
    the handler's: the object goes, and the range it holds of its parent stays recorded
    under its key.  The name cannot be created again, and the parent cannot be deleted. *)
Theorem pool_collection_strands :
  deleted run_child_key run_child run_collected
  /\ run_read run_child_key run_collected = None
  /\ existsb (fun r => bool_decide (ar_claim_key r = Some run_child_key)) (db_allocs run_collected) = true
  /\ is_ok (run_child_create run_collected).1 = false
  /\ is_ok (@Pools.Delete plain_machinery ex_read_pool ex_store_delete alone (cx_user "alpha") None [] "p" run_collected).1 = false
  /\ is_ok (@Pools.Delete plain_machinery ex_read_pool ex_store_delete alone (cx_user "alpha") None [] "child" run_child).1 = true.
Proof.
  split_and!; try (vm_compute; reflexivity). unfold run_collected.
  assert (H : match deleteObject run_child_key run_child with Ok (_, d) => identity_ok d | Err _ => false end = true) by (vm_compute; reflexivity).
  destruct (deleteObject run_child_key run_child) as [[rv d]|] eqn:E; [|discriminate H]. exists rv. split; [exact E | exact H].
Qed.
