(* ===== verification/Changelog.v ===== *)
(** * Changelog: the tables the watch reads, and the transactions that fill them

    [ipam_changelog] and [ipam_objects] as [internal/watch] and
    [internal/storage/postgres] see them, with the encoded documents as byte
    strings, and the transaction system behind them as a step relation: a
    transaction takes a 64-bit id when it first writes, stamps it on the rows it
    inserts, and commits or rolls back at any later time; row ids and resource
    versions are drawn from sequences at the insert.

    [settles] is the promise the watch relies on, stated over any history of
    logs: below the horizon nothing new appears.  [settles_steps] proves that the
    transaction system keeps it. *)

From Stdlib Require Import Ascii String.
From S2P Require Import Prelude Text.
From S2P Require Import Class.
Open Scope string_scope.
Open Scope list_scope.
Open Scope Z_scope.

(** ** Rows *)

(** A row of [ipam_changelog]. [lg_created] is [created_at] in nanoseconds. *)
Record LogRow := mkLog {
  lg_id : Z;
  lg_key : string;
  lg_rv : Z;
  lg_event : string;
  lg_data : option string;
  lg_xid : Z;
  lg_created : Z
}.

#[export] Instance LogRow_eq_dec : EqDecision LogRow.
Proof. solve_decision. Defined.

(** A row of [ipam_objects]. *)
Record StoredRow := mkStored {
  so_rv : Z;
  so_kind : string;
  so_namespace : string;
  so_name : string;
  so_data : string;
  so_labels : string
}.

#[export] Instance StoredRow_eq_dec : EqDecision StoredRow.
Proof. solve_decision. Defined.

(** ** The order of [ORDER BY commit_xid ASC, id ASC] *)

(** A position of the log: a transaction id and a row id. *)
Abbreviation Cursor := (Z * Z)%type.

Definition pos (r : LogRow) : Cursor := (lg_xid r, lg_id r).

Definition cur_lt (a b : Cursor) : Prop := a.1 < b.1 \/ (a.1 = b.1 /\ a.2 < b.2).
Definition cur_le (a b : Cursor) : Prop := a.1 < b.1 \/ (a.1 = b.1 /\ a.2 <= b.2).

#[export] Instance cur_lt_dec a b : Decision (cur_lt a b).
Proof. unfold cur_lt. apply _. Defined.
#[export] Instance cur_le_dec a b : Decision (cur_le a b).
Proof. unfold cur_le. apply _. Defined.

Definition log_le (a b : LogRow) : Prop := cur_le (pos a) (pos b).
Definition log_lt (a b : LogRow) : Prop := cur_lt (pos a) (pos b).

#[export] Instance log_le_dec : RelDecision log_le.
Proof. intros a b. unfold log_le. apply _. Defined.
#[export] Instance log_le_trans : Transitive log_le.
Proof. intros a b c. unfold log_le, cur_le. lia. Qed.
#[export] Instance log_le_total : Total log_le.
Proof. intros a b. unfold log_le, cur_le. lia. Qed.

Definition order_log (l : list LogRow) : list LogRow := merge_sort log_le l.

Lemma order_log_perm l : Permutation (order_log l) l.
Proof. apply merge_sort_Permutation. Qed.

(** Row ids are a primary key. *)
Definition ids_unique (l : list LogRow) : Prop := NoDup (map lg_id l).

Lemma ids_unique_eq l a b : ids_unique l -> a ∈ l -> b ∈ l -> lg_id a = lg_id b -> a = b.
Proof.
  intros Hn Ha Hb E. apply list_elem_of_lookup in Ha as [i Hi], Hb as [j Hj].
  assert (i = j) as <-; [|congruence].
  eapply (NoDup_lookup (map lg_id l)); [done | |].
  - rewrite list_lookup_fmap, Hi. done.
  - rewrite list_lookup_fmap, Hj. cbn. by rewrite E.
Qed.

(** Ordered rows of a log with unique ids are strictly ordered. *)
Lemma order_log_strict l : ids_unique l -> StronglySorted log_lt (order_log l).
Proof.
  intros Hn.
  assert (Hs : StronglySorted log_le (order_log l)) by (apply StronglySorted_merge_sort; apply _).
  assert (Hu : ids_unique (order_log l)).
  { unfold ids_unique. by rewrite order_log_perm. }
  revert Hs Hu. generalize (order_log l). clear. intros l Hs.
  induction Hs as [|x l Hs IH Hx]; intros Hu; [constructor|].
  apply NoDup_cons in Hu as [Hni Hu]. constructor; [by apply IH|].
  rewrite Forall_forall in Hx |- *. intros y Hy. specialize (Hx y Hy).
  assert (lg_id x <> lg_id y).
  { intros E. apply Hni. rewrite E. by apply list_elem_of_fmap_2. }
  revert Hx. unfold log_le, log_lt, cur_le, cur_lt, pos. cbn. lia.
Qed.

Lemma log_lt_irrefl a : ~ log_lt a a.
Proof. unfold log_lt, cur_lt. lia. Qed.

#[export] Instance log_lt_trans : Transitive log_lt.
Proof. intros a b c. unfold log_lt, cur_lt. lia. Qed.

Lemma log_lt_asym a b : log_lt a b -> ~ log_lt b a.
Proof. unfold log_lt, cur_lt. lia. Qed.

(** A strictly ordered list is determined by its members. *)
Lemma strict_unique l k :
  StronglySorted log_lt l -> StronglySorted log_lt k -> (forall r, r ∈ l <-> r ∈ k) -> l = k.
Proof.
  intros Hl. revert k. induction Hl as [|x l Hl IH Hx]; intros k Hk Heq.
  - destruct k as [|y k]; [done|]. specialize (Heq y). exfalso.
    by apply (not_elem_of_nil y), Heq; left.
  - destruct Hk as [|y k Hk Hy].
    { exfalso. by apply (not_elem_of_nil x), Heq; left. }
    rewrite Forall_forall in Hx, Hy.
    assert (x = y) as <-.
    { assert (x ∈ y :: k) as Hxk by (apply Heq; left).
      assert (y ∈ x :: l) as Hyl by (apply Heq; left).
      apply elem_of_cons in Hxk as [E|Hxk]; [done|].
      apply elem_of_cons in Hyl as [E|Hyl]; [done|].
      exfalso. apply (log_lt_asym x y); [by apply Hx | by apply Hy]. }
    f_equal. apply IH; [done|]. intros r. specialize (Heq r). rewrite !elem_of_cons in Heq.
    split; intros Hr.
    + destruct (proj1 Heq (or_intror Hr)) as [E|?]; [|done]. subst r.
      by apply Hx, log_lt_irrefl in Hr.
    + destruct (proj2 Heq (or_intror Hr)) as [E|?]; [|done]. subst r.
      by apply Hy, log_lt_irrefl in Hr.
Qed.

(** ** Transactions *)

(** [tx_open] holds the transactions in flight and the rows each has inserted,
    invisible until it commits. *)
Record TxState := mkTx {
  tx_next : Z;                        (* the next transaction id *)
  tx_id : Z;                          (* the BIGSERIAL of the log *)
  tx_open : gmap Z (list LogRow);
  tx_log : list LogRow                (* the committed rows *)
}.

Definition tx_init : TxState := mkTx 1 1 ∅ [].

Inductive tx_step : TxState -> TxState -> Prop :=
| tx_begin s :
  tx_step s (mkTx (tx_next s + 1) (tx_id s) (<[tx_next s := []]> (tx_open s)) (tx_log s))
| tx_insert s xid rows key rv event data created :
  tx_open s !! xid = Some rows ->
  tx_step s (mkTx (tx_next s) (tx_id s + 1)
               (<[xid := rows ++ [mkLog (tx_id s) key rv event data xid created]]> (tx_open s)) (tx_log s))
| tx_commit s xid rows :
  tx_open s !! xid = Some rows ->
  tx_step s (mkTx (tx_next s) (tx_id s) (delete xid (tx_open s)) (tx_log s ++ rows))
| tx_rollback s xid rows :
  tx_open s !! xid = Some rows ->
  tx_step s (mkTx (tx_next s) (tx_id s) (delete xid (tx_open s)) (tx_log s)).

(** [pg_snapshot_xmin(pg_current_snapshot())]: the oldest transaction in flight,
    or the next one to start. *)
Definition xmin (s : TxState) : Z :=
  foldr Z.min (tx_next s) (map fst (map_to_list (tx_open s))).

Lemma foldr_min_spec d l : foldr Z.min d l <= d /\ (forall x, x ∈ l -> foldr Z.min d l <= x).
Proof.
  induction l as [|y l [IH1 IH2]]; cbn; [split; [lia | intros x Hx; by apply not_elem_of_nil in Hx]|].
  split; [lia|]. intros x [->|Hx]%elem_of_cons; [lia|]. specialize (IH2 x Hx). lia.
Qed.

Lemma xmin_next s : xmin s <= tx_next s.
Proof. exact (proj1 (foldr_min_spec _ _)). Qed.

Lemma xmin_open s x rows : tx_open s !! x = Some rows -> xmin s <= x.
Proof.
  intros Hx. apply (proj2 (foldr_min_spec (tx_next s) _)). apply list_elem_of_fmap. exists (x, rows).
  split; [done|]. by apply elem_of_map_to_list.
Qed.

(** *** The invariant of the transaction system *)

Record tx_ok (s : TxState) : Prop := mkTxOk {
  tok_open_next : forall x rows, tx_open s !! x = Some rows -> 0 < x < tx_next s;
  tok_open_rows : forall x rows r, tx_open s !! x = Some rows -> r ∈ rows -> lg_xid r = x /\ lg_id r < tx_id s;
  tok_log_rows : forall r, r ∈ tx_log s -> 0 < lg_xid r < tx_next s /\ tx_open s !! lg_xid r = None /\ lg_id r < tx_id s;
  tok_log_unique : ids_unique (tx_log s);
  tok_open_unique : forall x rows, tx_open s !! x = Some rows -> ids_unique rows;
  tok_apart : forall x rows r, tx_open s !! x = Some rows -> r ∈ rows -> lg_id r ∉ map lg_id (tx_log s);
  tok_open_apart : forall x y rx ry r, tx_open s !! x = Some rx -> tx_open s !! y = Some ry -> x <> y ->
                   r ∈ rx -> lg_id r ∉ map lg_id ry;
  tok_next : 0 < tx_next s
}.

Lemma in_ids (r : LogRow) l : r ∈ l -> lg_id r ∈ map lg_id l.
Proof. apply list_elem_of_fmap_2. Qed.

Lemma in_ids_inv i l : i ∈ map lg_id l -> exists r, r ∈ l /\ lg_id r = i.
Proof. intros (r & -> & Hr)%list_elem_of_fmap. by exists r. Qed.

Lemma tx_init_ok : tx_ok tx_init.
Proof.
  split; cbn; try (intros *; rewrite lookup_empty; done); try lia.
  - intros r Hr. by apply not_elem_of_nil in Hr.
  - apply NoDup_nil_2.
Qed.

Lemma tx_begin_ok s :
  tx_ok s -> tx_ok (mkTx (tx_next s + 1) (tx_id s) (<[tx_next s := []]> (tx_open s)) (tx_log s)).
Proof.
  intros [I1 I2 I3 I4 I5 I6 I7 I8].
  assert (Hfresh : forall x rows r, <[tx_next s := []]> (tx_open s) !! x = Some rows -> r ∈ rows ->
                               tx_open s !! x = Some rows /\ x <> tx_next s).
  { intros x rows r Hx Hr. apply lookup_insert_Some in Hx as [[<- <-]|[Hne Hx]]; [|done].
    by apply not_elem_of_nil in Hr. }
  split; cbn; try done; try lia.
  - intros x rows [[<- _]|[_ Hx]]%lookup_insert_Some; [lia|]. specialize (I1 _ _ Hx). lia.
  - intros x rows r Hx Hr. destruct (Hfresh _ _ _ Hx Hr) as [Hx' _]. by apply (I2 _ _ _ Hx').
  - intros r Hr. destruct (I3 r Hr) as (? & Hn & ?). split_and!; try lia.
    rewrite lookup_insert_ne by lia. done.
  - intros x rows [[<- <-]|[_ Hx]]%lookup_insert_Some; [apply NoDup_nil_2 | by apply (I5 x)].
  - intros x rows r Hx Hr. destruct (Hfresh _ _ _ Hx Hr) as [Hx' _]. by apply (I6 _ _ _ Hx').
  - intros x y rx ry r Hx Hy Hne Hr.
    destruct (Hfresh _ _ _ Hx Hr) as [Hx' _].
    apply lookup_insert_Some in Hy as [[<- <-]|[_ Hy]]; [apply not_elem_of_nil|].
    by apply (I7 x y rx).
Qed.

Lemma tx_insert_ok s xid rows key rv event data created :
  tx_ok s -> tx_open s !! xid = Some rows ->
  tx_ok (mkTx (tx_next s) (tx_id s + 1)
           (<[xid := rows ++ [mkLog (tx_id s) key rv event data xid created]]> (tx_open s)) (tx_log s)).
Proof.
  intros [I1 I2 I3 I4 I5 I6 I7 I8] Hxid. set (row := mkLog _ _ _ _ _ _ _).
  assert (Hcase : forall x rx r, <[xid := rows ++ [row]]> (tx_open s) !! x = Some rx -> r ∈ rx ->
            (r = row /\ x = xid) \/ exists rx', tx_open s !! x = Some rx' /\ r ∈ rx').
  { intros x rx r [[<- <-]|[_ Hx]]%lookup_insert_Some Hr; [|right; by exists rx].
    apply elem_of_app in Hr as [Hr | ->%list_elem_of_singleton]; [right; by exists rows | by left]. }
  assert (Hlog : forall r, r ∈ tx_log s -> lg_id r < tx_id s) by (intros r Hr; apply I3 in Hr; lia).
  assert (Hnew : forall l, (forall r, r ∈ l -> lg_id r < tx_id s) -> tx_id s ∉ map lg_id l).
  { intros l Hl (r & Hr & E)%in_ids_inv. specialize (Hl r Hr). lia. }
  split; cbn; try done.
  - intros x rx [[<- _]|[_ Hx]]%lookup_insert_Some; [by eapply I1 | by eapply I1].
  - intros x rx r Hx Hr. destruct (Hcase _ _ _ Hx Hr) as [[-> ->] | (rx' & Hx' & Hr')]; [cbn; lia|].
    destruct (I2 _ _ _ Hx' Hr'). lia.
  - intros r Hr. destruct (I3 r Hr) as (? & Hn & ?). split_and!; try lia.
    apply lookup_insert_None. split; [done|]. intros ->. congruence.
  - intros x rx [[<- <-]|[_ Hx]]%lookup_insert_Some; [|by apply (I5 x)].
    unfold ids_unique. rewrite map_app. cbn. apply NoDup_app. split_and!.
    + by apply (I5 xid).
    + intros i Hi ->%list_elem_of_singleton. revert Hi. apply Hnew.
      intros r Hr. by apply (I2 _ _ _ Hxid).
    + apply NoDup_singleton.
  - intros x rx r Hx Hr. destruct (Hcase _ _ _ Hx Hr) as [[-> ->] | (rx' & Hx' & Hr')].
    + cbn. by apply Hnew.
    + by apply (I6 _ _ _ Hx').
  - intros x y rx ry r Hx Hy Hne Hr Hi. apply in_ids_inv in Hi as (q & Hq & E).
    destruct (Hcase _ _ _ Hx Hr) as [[-> ->] | (rx' & Hx' & Hr')],
             (Hcase _ _ _ Hy Hq) as [[-> ->] | (ry' & Hy' & Hq')]; cbn in *.
    + done.
    + destruct (I2 _ _ _ Hy' Hq'). lia.
    + destruct (I2 _ _ _ Hx' Hr'). lia.
    + apply (I7 x y _ _ _ Hx' Hy' Hne Hr'). rewrite <- E. by apply in_ids.
Qed.

(** Ending a transaction, with the rows it publishes. *)
Lemma tx_end_ok s xid rows (pub : list LogRow) :
  tx_ok s -> tx_open s !! xid = Some rows -> pub = rows \/ pub = [] ->
  tx_ok (mkTx (tx_next s) (tx_id s) (delete xid (tx_open s)) (tx_log s ++ pub)).
Proof.
  intros [I1 I2 I3 I4 I5 I6 I7 I8] Hxid Hpub.
  assert (Hp : forall r, r ∈ pub -> r ∈ rows).
  { intros r Hr. destruct Hpub as [-> | ->]; [done | by apply not_elem_of_nil in Hr]. }
  assert (Hu : ids_unique pub).
  { destruct Hpub as [-> | ->]; [by apply (I5 xid) | apply NoDup_nil_2]. }
  assert (Hd : forall x rx, delete xid (tx_open s) !! x = Some rx -> xid <> x /\ tx_open s !! x = Some rx).
  { intros x rx Hx. by apply lookup_delete_Some in Hx. }
  split; cbn; try done.
  - intros x rx [_ Hx]%Hd. by eapply I1.
  - intros x rx r [_ Hx]%Hd. by eapply I2.
  - intros r [Hr|Hr]%elem_of_app.
    + destruct (I3 r Hr) as (? & Hn & ?). split_and!; try lia. apply lookup_delete_None. by right.
    + apply Hp in Hr. destruct (I2 _ _ _ Hxid Hr) as [-> ?]. specialize (I1 _ _ Hxid).
      split_and!; try lia. apply lookup_delete_None. by left.
  - unfold ids_unique. rewrite map_app. apply NoDup_app. split_and!; [done | | done].
    intros i Hi (r & Hr & <-)%in_ids_inv. by apply (I6 _ _ r Hxid); [apply Hp|].
  - intros x rx [_ Hx]%Hd. by apply (I5 x).
  - intros x rx r [Hne Hx]%Hd Hr. rewrite map_app, not_elem_of_app.
    split; [by apply (I6 _ _ _ Hx)|]. intros (q & Hq & E)%in_ids_inv.
    apply (I7 x xid _ _ _ Hx Hxid (not_eq_sym Hne) Hr). rewrite <- E. by apply in_ids, Hp.
  - intros x y rx ry r [_ Hx]%Hd [_ Hy]%Hd. by apply (I7 x y).
Qed.

Lemma tx_step_ok s s' : tx_step s s' -> tx_ok s -> tx_ok s'.
Proof.
  destruct 1; intros Hs.
  - by apply tx_begin_ok.
  - by apply tx_insert_ok.
  - apply (tx_end_ok s xid rows); auto.
  - rewrite <- (app_nil_r (tx_log s)). apply (tx_end_ok s xid rows); auto.
Qed.

(** ** What a reader may rely on *)

(** A log taken when the horizon was [h], against a later one: nothing is lost,
    and below [h] nothing is added. *)
Record settles (h : Z) (l l' : list LogRow) : Prop := mkSettles {
  settles_kept : forall r, r ∈ l -> r ∈ l';
  settles_below : forall r, r ∈ l' -> lg_xid r < h -> r ∈ l
}.

Lemma settles_refl h l : settles h l l.
Proof. by split. Qed.

(** The transaction system keeps the promise: a row below the oldest transaction
    in flight is committed now or never. *)
Lemma settles_steps s s' :
  tx_ok s -> rtc tx_step s s' -> tx_ok s' /\ settles (xmin s) (tx_log s) (tx_log s') /\ xmin s <= xmin s'.
Proof.
  intros Hs Hr.
  assert (H : tx_ok s' /\ settles (xmin s) (tx_log s) (tx_log s') /\ tx_next s <= tx_next s'
              /\ (forall x rows, tx_open s' !! x = Some rows -> xmin s <= x)).
  { revert s' Hr. apply rtc_ind_r.
    { split_and!; [done | apply settles_refl | lia | apply xmin_open]. }
    intros s1 s2 Hr Hst IH. destruct IH as (Hok & [Hk Hb] & Hn & Hm). pose proof (tx_step_ok _ _ Hst Hok) as Hok2.
    pose proof (xmin_next s) as Hx.
    split; [done|]. destruct Hst as [s1 | s1 xid rows key rv event data created Hxid | s1 xid rows Hxid | s1 xid rows Hxid];
      cbn; (split; [split|]); try done; try (split; [lia|]).
    - intros x rows [[<- _]|[_ Hy]]%lookup_insert_Some; [lia | by eapply Hm].
    - intros x r [[<- _]|[_ Hy]]%lookup_insert_Some; [by eapply Hm | by eapply Hm].
    - intros r Hr0. apply elem_of_app. left. by apply Hk.
    - intros r [Hr0|Hr0]%elem_of_app Hlt; [by apply Hb|]. exfalso.
      destruct (tok_open_rows _ Hok _ _ _ Hxid Hr0) as [Hq _]. specialize (Hm _ _ Hxid). lia.
    - intros x r [_ Hy]%lookup_delete_Some. by eapply Hm.
    - intros x r [_ Hy]%lookup_delete_Some. by eapply Hm. }
  destruct H as (Hok & Hset & Hn & Hm). split_and!; [done..|].
  unfold xmin at 2. revert Hm. pose proof (xmin_next s) as Hx. intros Hm.
  assert (Hall : forall x, x ∈ map fst (map_to_list (tx_open s')) -> xmin s <= x).
  { intros x ([y rows] & -> & Hy)%list_elem_of_fmap. apply elem_of_map_to_list in Hy. by eapply Hm. }
  revert Hall. generalize (map fst (map_to_list (tx_open s'))). intros l Hl.
  induction l as [|y l IH]; cbn; [lia|].
  pose proof (Hl y ltac:(left)). specialize (IH (fun x Hx => Hl x ltac:(by right))). lia.
Qed.

Definition reachable (s : TxState) : Prop := rtc tx_step tx_init s.

Lemma reachable_ok s : reachable s -> tx_ok s.
Proof. intros H. by destruct (settles_steps _ _ tx_init_ok H). Qed.

(** ** Retention *)

(** [DELETE FROM ipam_changelog WHERE created_at < cutoff] *)
Definition prune (cutoff : Z) (l : list LogRow) : list LogRow :=
  List.filter (fun r => negb (lg_created r <? cutoff)) l.

(** [defaultChangelogRetention], in nanoseconds. *)
Definition defaultChangelogRetention : Z := 5 * 60 * 1000000000.

(** One round of [cleanupLoop]. *)
Definition cleanup (now : Z) (l : list LogRow) : list LogRow := prune (now - defaultChangelogRetention) l.

(** ** Keys a request covers *)

(** [strings.HasSuffix(key, "/")] decides whether a slash is appended. *)
Fixpoint ends_slash (s : string) : bool :=
  match s with
  | EmptyString => false
  | String c EmptyString => Ascii.eqb c "/"
  | String _ t => ends_slash t
  end.

Definition dir_of (key : string) : string := if ends_slash key then key else key +:+ "/".
