(* ===== verification/Watch.v ===== *)
(** * Watch: [internal/watch/postgres.go]

    A watch reads the changelog in pages behind a cursor of transaction id and
    row id, and emits an event per row.  The codec, the versioner and the
    predicates come from the Kubernetes libraries and are parameters.

    A call to the database is a parameter of the call that makes it: what the
    statement saw, or its failure.  [room] is the number of events the result
    channel takes before the watch is stopped; [None] is a watch that goes on. *)

From Stdlib Require Import Ascii String.
From S2P Require Import Prelude Text.
From S2P Require Import Tenant Class Changelog.
Open Scope string_scope.
Open Scope list_scope.
Open Scope Z_scope.

(** ** Constants, in nanoseconds *)

Definition second : Z := 1000000000.
Definition listenerMinReconnect : Z := 1 * second.
Definition listenerMaxReconnect : Z := 30 * second.
Definition horizonStallWarnInterval : Z := 5 * 60 * second.

(** [pollBatchSize] *)
Definition pollBatchSize : nat := 500.

(** ** [kindFromKey] *)

(** [strings.Cut] *)
Fixpoint Cut (s sep : string) : option (string * string) :=
  if HasPrefix s sep then Some ("", drop_str (String.length sep) s)
  else match s with
       | EmptyString => None
       | String c t => match Cut t sep with
                       | Some (before, after) => Some (String c before, after)
                       | None => None
                       end
       end.

Definition kindFromKey (key : string) : string :=
  match Cut key "/ipam.miloapis.com/" with
  | None => "unknown"
  | Some (_, rest) =>
    if String.eqb rest "" then "unknown"
    else match Cut rest "/" with Some (kind, _) => kind | None => rest end
  end.

(** ** Reading a resource version *)

Definition digit_val (c : ascii) : option Z :=
  let n := Z.of_N (N_of_ascii c) in if (48 <=? n) && (n <=? 57) then Some (n - 48) else None.

(** The digits at the front of a text, as a number; [None] when there is none. *)
Fixpoint scan_digits (acc : option Z) (s : string) : option Z :=
  match s with
  | EmptyString => acc
  | String c t => match digit_val c with
                  | Some d => scan_digits (Some (default 0 acc * 10 + d)) t
                  | None => acc
                  end
  end.

Fixpoint skip_spaces (s : string) : string :=
  match s with
  | String c t => let n := N_of_ascii c in
                  if (n =? 32)%N || (n =? 9)%N || (n =? 11)%N || (n =? 12)%N then skip_spaces t else s
  | EmptyString => EmptyString
  end.

(** [fmt.Sscanf(s, "%d", &v)] for an [int64]: leading blanks, a sign, digits, and
    whatever follows is left unread. *)
Definition Sscanf_d (s : string) : option Z :=
  let s := skip_spaces s in
  let '(neg, s) := match s with
                   | String c t => if Ascii.eqb c "-" then (true, t)
                                   else if Ascii.eqb c "+" then (false, t) else (false, s)
                   | EmptyString => (false, s)
                   end in
  match scan_digits None s with
  | None => None
  | Some v => let v := if neg then - v else v in
              if (- 2 ^ 63 <=? v) && (v <? 2 ^ 63) then Some v else None
  end.

(** ** Events and watches *)

Inductive WatchType := Added | Modified | Deleted | Bookmark.

#[export] Instance WatchType_eq_dec : EqDecision WatchType.
Proof. solve_decision. Defined.

Record Event (Object : Type) := mkEvent { ev_Type : WatchType; ev_Object : Object }.
Arguments mkEvent {Object} _ _.
Arguments ev_Type {Object} _.
Arguments ev_Object {Object} _.

(** What the caller of [Watch] asked for. [wc_predicate] is [None] for an empty
    predicate; a predicate answers [None] when it fails. *)
Record WatchConfig (Object : Type) := mkConfig {
  wc_key : string;
  wc_predicate : option (Object -> option bool);
  wc_newFunc : option Object;
  wc_excludedKeyPrefixes : list string;
  wc_sendInitialEvents : bool
}.
Arguments mkConfig {Object} _ _ _ _ _.
Arguments wc_key {Object} _.
Arguments wc_predicate {Object} _.
Arguments wc_newFunc {Object} _.
Arguments wc_excludedKeyPrefixes {Object} _.
Arguments wc_sendInitialEvents {Object} _.

(** [postgresWatch]: the fields that change. [w_progress] and [w_kick] are the
    channels of capacity one. *)
Record watch := mkWatch {
  lastXid : Z;
  lastID : Z;
  lastRV : Z;
  horizonAtLastAdvance : Z;
  horizonLastAdvance : Z;
  w_progress : option Z;
  w_kick : bool;
  w_done : bool
}.

Definition new_watch : watch := mkWatch 0 0 0 0 0 None false false.

Definition cursor (w : watch) : Cursor := (lastXid w, lastID w).

Definition set_cursor (w : watch) (xid id : Z) : watch :=
  mkWatch xid id (lastRV w) (horizonAtLastAdvance w) (horizonLastAdvance w) (w_progress w) (w_kick w) (w_done w).
Definition set_rv (w : watch) (rv : Z) : watch :=
  mkWatch (lastXid w) (lastID w) rv (horizonAtLastAdvance w) (horizonLastAdvance w) (w_progress w) (w_kick w) (w_done w).
Definition set_horizon (w : watch) (h now : Z) : watch :=
  mkWatch (lastXid w) (lastID w) (lastRV w) h now (w_progress w) (w_kick w) (w_done w).
Definition set_signals (w : watch) (p : option Z) (k : bool) : watch :=
  mkWatch (lastXid w) (lastID w) (lastRV w) (horizonAtLastAdvance w) (horizonLastAdvance w) p k (w_done w).
Definition set_done (w : watch) : watch :=
  mkWatch (lastXid w) (lastID w) (lastRV w) (horizonAtLastAdvance w) (horizonLastAdvance w) (w_progress w) (w_kick w) true.

(** [if rv > w.lastRV { w.lastRV = rv }] *)
Definition raise_rv (w : watch) (rv : Z) : watch := if lastRV w <? rv then set_rv w rv else w.

Definition advanceCursor (w : watch) (xid id rv : Z) : watch := raise_rv (set_cursor w xid id) rv.

(** The watch after the check, and whether it warned. *)
Definition maybeWarnHorizonStall (w : watch) (horizon now : Z) : watch * bool :=
  if horizonAtLastAdvance w <? horizon then (set_horizon w horizon now, false)
  else if horizonStallWarnInterval <=? now - horizonLastAdvance w
  then (set_horizon w (horizonAtLastAdvance w) now, true)
  else (w, false).

(** ** Statements *)

(** What one poll meets: the horizon it read, the log its query saw (each [None]
    when the statement fails), the rows delivered before the result set breaks,
    the room in the result channel, the clock. *)
Record PollEnv := mkEnv {
  pe_horizon : option Z;
  pe_log : option (list LogRow);
  pe_fault : option nat;
  pe_room : option nat;
  pe_now : Z;
  pe_after : option bool   (* after a full batch: [Some true] cancelled, [Some false] stopped *)
}.

(** One snapshot of a [REPEATABLE READ] transaction. *)
Record Snapshot := mkSnapshot {
  sn_xmin : Z;
  sn_log : list LogRow;
  sn_objects : gmap string StoredRow
}.

(** The first row of [ORDER BY ... LIMIT 1]: [better a b] when [a] sorts first. *)
Fixpoint pick (better : LogRow -> LogRow -> bool) (l : list LogRow) : option LogRow :=
  match l with
  | [] => None
  | r :: l' => match pick better l' with
               | None => Some r
               | Some q => if better q r then Some q else Some r
               end
  end.

Definition max_rv (rvs : list Z) : Z := foldr Z.max 0 rvs.

Definition committedMaxResourceVersion (s : Snapshot) : Z :=
  Z.max (Z.max (max_rv (map (fun kr => so_rv kr.2) (map_to_list (sn_objects s))))
               (max_rv (map lg_rv (List.filter (fun r => lg_xid r <? sn_xmin s) (sn_log s))))) 0.

(** ** One watch *)

Section Watching.
Context {Object : Type}.
Variable Decode : string -> option Object.               (* runtime.Codec *)
Variable UpdateObject : Object -> Z -> option Object.     (* APIObjectVersioner *)
Variable Annotate : Object -> option Object.              (* the initial-events-end annotation *)

Abbreviation event := (Event Object).
Abbreviation config := (WatchConfig Object).

Definition toWatchEvent (eventType : string) (data : option string) (rv : Z) : option event :=
  let watchType := if String.eqb eventType "ADDED" then Some Added
                   else if String.eqb eventType "MODIFIED" then Some Modified
                   else if String.eqb eventType "DELETED" then Some Deleted else None in
  match watchType with
  | None => None
  | Some t => match data with
              | None => None
              | Some d => match Decode d with
                          | None => None
                          | Some obj => match UpdateObject obj rv with
                                        | None => None
                                        | Some obj => Some (mkEvent t obj)
                                        end
                          end
              end
  end.

(** [!w.predicate.Empty()] and [w.predicate.Matches]: an object is dropped when
    the predicate fails or answers no. *)
Definition passes (c : config) (obj : Object) : bool :=
  match wc_predicate c with
  | None => true
  | Some p => match p obj with Some b => b | None => false end
  end.

(** The keys of the watch: [key = $4 OR key LIKE $5], less the excluded ones. *)
Definition covers_key (c : config) (key : string) : bool :=
  (String.eqb key (wc_key c) || like (dir_of (wc_key c) +:+ "%") key)
  && forallb (fun excl => negb (like (excl +:+ "%") key)) (wc_excludedKeyPrefixes c).

(** The event of a row, if it has one. *)
Definition row_event (c : config) (r : LogRow) : option event :=
  match toWatchEvent (lg_event r) (lg_data r) (lg_rv r) with
  | None => None
  | Some e => if passes c (ev_Object e) then Some e else None
  end.

(** The page [pollChanges] selects. *)
Definition page (c : config) (from : Cursor) (horizon : Z) (log : list LogRow) : list LogRow :=
  take pollBatchSize
    (order_log (List.filter (fun r => (lg_xid r <? horizon)
                                 && bool_decide (cur_lt from (pos r))
                                 && covers_key c (lg_key r)) log)).

(** The loop over the rows: the events sent, the watch, the rows handled, and
    whether the call fails. *)
Fixpoint scanRows (c : config) (w : watch) (rows : list LogRow) (fault room : option nat)
  : list event * watch * nat * bool :=
  match fault with
  | Some O => ([], w, O, true)
  | _ =>
    match rows with
    | [] => ([], w, O, false)
    | r :: rest =>
      let w' := advanceCursor w (lg_xid r) (lg_id r) (lg_rv r) in
      match row_event c r with
      | None =>
        let '(evs, w2, n, err) := scanRows c w' rest (option_map pred fault) room in (evs, w2, S n, err)
      | Some e =>
        match room with
        | Some O => ([], w, O, false)
        | _ =>
          let '(evs, w2, n, err) := scanRows c w' rest (option_map pred fault) (option_map pred room) in
          (e :: evs, w2, S n, err)
        end
      end
    end
  end.

Definition pollChanges (c : config) (w : watch) (env : PollEnv) : list event * watch * nat * bool :=
  match pe_horizon env with
  | None => ([], w, O, true)
  | Some horizon =>
    let w := fst (maybeWarnHorizonStall w horizon (pe_now env)) in
    match pe_log env with
    | None => ([], w, O, true)
    | Some log => scanRows c w (page c (cursor w) horizon log) (pe_fault env) (pe_room env)
    end
  end.

Inductive DrainResult := DrainDone | DrainFailed | DrainGoesOn.

(** [drainChangelog], with what each poll meets.  [DrainGoesOn] says that the
    loop has polled once for every environment given and would poll again. *)
Fixpoint drainChangelog (c : config) (w : watch) (envs : list PollEnv) : list event * watch * DrainResult :=
  match envs with
  | [] => ([], w, DrainGoesOn)
  | env :: rest =>
    let '(evs, w, n, err) := pollChanges c w env in
    if err then (evs, w, DrainFailed)
    else if (n <? pollBatchSize)%nat then (evs, w, DrainDone)
    else match pe_after env with
         | Some true => (evs, w, DrainFailed)
         | Some false => (evs, w, DrainDone)
         | None => let '(evs', w, r) := drainChangelog c w rest in (evs ++ evs', w, r)
         end
  end.

(** *** Where a watch starts *)

(** [ORDER BY id DESC] and [ORDER BY resource_version DESC, id DESC]. *)
Definition by_id (a b : LogRow) : bool := lg_id b <? lg_id a.
Definition by_rv (a b : LogRow) : bool :=
  (lg_rv b <? lg_rv a) || ((lg_rv a =? lg_rv b) && (lg_id b <? lg_id a)).
(** [ORDER BY commit_xid DESC, id DESC] *)
Definition by_pos (a b : LogRow) : bool := bool_decide (cur_lt (pos b) (pos a)).

(** The two queries of [seedCursorFromRV] may see different logs. *)
Definition seedCursorFromRV (w : watch) (startRV : Z) (log1 log2 : option (list LogRow)) : option watch :=
  let found :=
    match log1 with
    | None => None
    | Some l =>
      match pick by_id (List.filter (fun r => lg_rv r =? startRV) l) with
      | Some r => Some (Some r)
      | None =>
        match log2 with
        | None => None
        | Some l2 => Some (pick by_rv (List.filter (fun r => lg_rv r <=? startRV) l2))
        end
      end
    end in
  match found with
  | None => None
  | Some (Some r) => Some (set_rv (set_cursor w (lg_xid r) (lg_id r)) startRV)
  | Some None => Some (set_rv w startRV)
  end.

(** [Watch]: the watch registered and polled, or an internal error. *)
Definition Watch (c : config) (ResourceVersion : string) (log1 log2 : option (list LogRow)) : option watch :=
  if String.eqb ResourceVersion "" then Some new_watch
  else match Sscanf_d ResourceVersion with
       | None => None
       | Some startRV =>
         if 0 <? startRV then seedCursorFromRV new_watch startRV log1 log2 else Some new_watch
       end.

(** *** The initial list *)

Definition rv_le (a b : string * StoredRow) : Prop := so_rv a.2 <= so_rv b.2.

#[export] Instance rv_le_dec : RelDecision rv_le.
Proof. intros a b. unfold rv_le. apply _. Defined.

(** The objects listed, by ascending resource version. *)
Definition listed (c : config) (s : Snapshot) : list (string * StoredRow) :=
  merge_sort rv_le (List.filter (fun kr => covers_key c kr.1) (map_to_list (sn_objects s))).

(** The loop over the listed objects: the events, the watch, and whether the
    watch was stopped before the end. *)
Fixpoint sendListed (c : config) (w : watch) (rows : list (string * StoredRow)) (room : option nat)
  : list event * watch * bool :=
  match rows with
  | [] => ([], w, false)
  | (_, row) :: rest =>
    match toWatchEvent "ADDED" (Some (so_data row)) (so_rv row) with
    | None => sendListed c w rest room
    | Some e =>
      if passes c (ev_Object e) then
        match room with
        | Some O => ([], w, true)
        | _ =>
          let '(evs, w, stop) := sendListed c (raise_rv w (so_rv row)) rest (option_map pred room) in
          (e :: evs, w, stop)
        end
      else sendListed c (raise_rv w (so_rv row)) rest room
    end
  end.

(** [snap] is the snapshot of the transaction, [None] when a statement before the
    rows fails; [fault] breaks the result set or the commit after the rows
    delivered. The last component is the error. *)
Definition sendInitialEventList (c : config) (w : watch) (snap : option Snapshot) (fault : option nat)
    (room : option nat) : list event * watch * bool :=
  match snap with
  | None => ([], w, true)
  | Some s =>
    let top := pick by_pos (List.filter (fun r => lg_xid r <? sn_xmin s) (sn_log s)) in
    let rows := match fault with Some n => take n (listed c s) | None => listed c s end in
    let '(evs, w, stop) := sendListed c w rows room in
    if stop then (evs, w, false)
    else match fault with
         | Some _ => (evs, w, true)
         | None =>
           let '(xid, id) := match top with Some r => pos r | None => (0, 0) end in
           (evs, set_cursor w xid id, false)
         end
  end.

(** [sendInitialEventsEndBookmark]: [maxRV] is what the database answers. *)
Definition sendInitialEventsEndBookmark (c : config) (w : watch) (maxRV : option Z) (room : option nat)
  : list event * watch * bool :=
  match wc_newFunc c with
  | None => ([], w, false)
  | Some obj =>
    match maxRV with
    | None => ([], w, false)
    | Some m =>
      let w := raise_rv w m in
      match UpdateObject obj (lastRV w) with
      | None => ([], w, false)
      | Some obj =>
        match Annotate obj with
        | None => ([], w, false)
        | Some obj =>
          match room with
          | Some O => ([], w, false)
          | _ => ([mkEvent Bookmark obj], w, true)
          end
        end
      end
    end
  end.

(** *** Bookmarks *)

(** What a bookmark meets at the result channel. *)
Inductive BookmarkSend := Sent | NotSent.

(** [sendBookmarkAt] and [sendBookmarkBlocking]: they differ in when a bookmark
    is not sent, a full channel or only a stopped watch. *)
Definition sendBookmarkAt (c : config) (w : watch) (rv : Z) (ch : BookmarkSend) : list event * watch :=
  match wc_newFunc c with
  | None => ([], w)
  | Some obj =>
    match UpdateObject obj rv with
    | None => ([], w)
    | Some obj => match ch with
                  | Sent => ([mkEvent Bookmark obj], raise_rv w rv)
                  | NotSent => ([], w)
                  end
    end
  end.

Definition sendBookmarkBlocking (c : config) (w : watch) (rv : Z) (stopped : bool) : list event * watch :=
  sendBookmarkAt c w rv (if stopped then NotSent else Sent).

Definition sendBookmark (c : config) (w : watch) (maxRV : option Z) (ch : BookmarkSend) : list event * watch :=
  match maxRV with
  | None => ([], w)
  | Some m => if m <=? lastRV w then ([], w) else sendBookmarkAt c w m ch
  end.

(** *** The loop of [poll] *)

(** What [select] delivers, with what the handler meets. *)
Inductive Signal :=
| SigStop
| SigProgress (envs : list PollEnv) (stopped : bool)
| SigKick (envs : list PollEnv)
| SigBookmark (maxRV : option Z) (ch : BookmarkSend)
| SigPoll (env : PollEnv).

(** One turn of the loop: the events, the watch, and whether the loop goes on.
    [None] when the signal is not pending. *)
Definition handle (c : config) (w : watch) (s : Signal) : option (list event * watch * bool) :=
  match s with
  | SigStop => Some ([], w, false)
  | SigProgress envs stopped =>
    match w_progress w with
    | None => None
    | Some rv =>
      let '(evs, w, _) := drainChangelog c (set_signals w None (w_kick w)) envs in
      let w := raise_rv w rv in
      let '(bm, w) := sendBookmarkBlocking c w (lastRV w) stopped in
      Some (evs ++ bm, w, true)
    end
  | SigKick envs =>
    if w_kick w then
      let '(evs, w, _) := drainChangelog c (set_signals w (w_progress w) false) envs in
      Some (evs, w, true)
    else None
  | SigBookmark maxRV ch => let '(bm, w) := sendBookmark c w maxRV ch in Some (bm, w, true)
  | SigPoll env => let '(evs, w, _, _) := pollChanges c w env in Some (evs, w, true)
  end.

(** [poll] up to the loop: whether it is entered. *)
Definition poll_start (c : config) (w : watch) (now : Z) (snap : option Snapshot) (fault room : option nat)
    (maxRV : option Z) (room2 : option nat) : list event * watch * bool :=
  let w := set_horizon w (horizonAtLastAdvance w) now in
  if wc_sendInitialEvents c then
    let '(evs, w, err) := sendInitialEventList c w snap fault room in
    if err then (evs, w, false)
    else let '(bm, w, ok) := sendInitialEventsEndBookmark c w maxRV room2 in (evs ++ bm, w, ok)
  else ([], w, true).

End Watching.

(** ** The watcher: the active watches *)

(** The active watches of a [PostgresWatcher]. *)
Abbreviation Active := (gmap nat watch).

Definition register (i : nat) (w : watch) (active : Active) : Active := <[i := w]> active.
Definition unregister (i : nat) (active : Active) : Active := delete i active.

(** [select { case w.progress <- rv: default: }] *)
Definition offer_progress (rv : Z) (w : watch) : watch :=
  match w_progress w with
  | None => set_signals w (Some rv) (w_kick w)
  | Some _ => w
  end.

Definition NotifyProgress (rv : Z) (active : Active) : Active := offer_progress rv <$> active.

Definition kickAll (active : Active) : Active := (fun w => set_signals w (w_progress w) true) <$> active.

(** [Stop]: [closeOnce] makes a second call do nothing. *)
Definition Stop (i : nat) (w : watch) (active : Active) : watch * Active :=
  if w_done w then (w, active) else (set_done w, unregister i active).

(** The wait before the next reconnect of the listener. *)
Definition next_backoff (backoff : Z) : Z :=
  let b := backoff * 2 in if listenerMaxReconnect <? b then listenerMaxReconnect else b.
