(* ===== verification/WatchStream.v ===== *)
(** * WatchStream: what a watch delivers

    Every committed row a watch covers is emitted exactly once and in order of
    transaction and row id, however polls fail and writers interleave, unless the
    cleanup, which goes by age alone, deleted it before the watch reached it; a drain
    ends and leaves nothing behind below the horizon; the initial list hands over
    without a gap.  The last section has the histories in which an event is lost
    all the same, because it was cleaned up unread or because a position is advertised
    before it is reached, and one in which the order of transaction ids is not the
    order in which an object was written. *)

From Stdlib Require Import Ascii String.
From S2P Require Import Prelude Text.
From S2P Require Import Tenant Class Changelog Watch.
Open Scope string_scope.
Open Scope list_scope.
Open Scope Z_scope.

(** ** Positions *)

Ltac cur_lia := unfold log_lt, log_le, cur_lt, cur_le, pos in *; cbn in *; lia.

Lemma cursor_raise w rv : cursor (raise_rv w rv) = cursor w.
Proof. unfold raise_rv. by zcase. Qed.

Lemma cursor_advance w xid id rv : cursor (advanceCursor w xid id rv) = (xid, id).
Proof. unfold advanceCursor. by rewrite cursor_raise. Qed.

Lemma cursor_warn w h now : cursor (fst (maybeWarnHorizonStall w h now)) = cursor w.
Proof. unfold maybeWarnHorizonStall. by repeat zcase. Qed.

Section Stream.
Context {Object : Type}.
Variable Decode : string -> option Object.
Variable UpdateObject : Object -> Z -> option Object.
Context (c : WatchConfig Object).

Abbreviation row_event := (row_event Decode UpdateObject c).
Abbreviation scanRows := (scanRows Decode UpdateObject c).
Abbreviation pollChanges := (pollChanges Decode UpdateObject c).
Abbreviation drainChangelog := (drainChangelog Decode UpdateObject c).

Definition advance (w : watch) (r : LogRow) : watch := advanceCursor w (lg_xid r) (lg_id r) (lg_rv r).

(** The rows a watch at [from] may emit once the horizon is [h]. *)
Definition pending (from : Cursor) (h : Z) (log : list LogRow) : list LogRow :=
  order_log (List.filter (fun r => (lg_xid r <? h) && bool_decide (cur_lt from (pos r))
                                   && covers_key c (lg_key r)) log).

Lemma page_pending from h log : page c from h log = take pollBatchSize (pending from h log).
Proof. done. Qed.

Lemma pending_elem from h log r :
  r ∈ pending from h log
  <-> r ∈ log /\ lg_xid r < h /\ cur_lt from (pos r) /\ covers_key c (lg_key r) = true.
Proof.
  unfold pending. rewrite order_log_perm, list_elem_of_In, filter_In, <- list_elem_of_In.
  rewrite !andb_true_iff, Z.ltb_lt, bool_decide_eq_true. tauto.
Qed.

Lemma ids_unique_filter p l : ids_unique l -> ids_unique (List.filter p l).
Proof.
  unfold ids_unique. induction l as [|x l IH]; [done|]. cbn. intros [Hx Hl]%NoDup_cons.
  destruct (p x); [|by apply IH]. cbn. apply NoDup_cons. split; [|by apply IH].
  intros Hi. apply Hx. apply list_elem_of_fmap in Hi as (y & E & Hy). rewrite E.
  apply in_ids. apply list_elem_of_In in Hy. apply filter_In in Hy as [Hy _]. by apply list_elem_of_In.
Qed.

Lemma pending_strict from h log : ids_unique log -> StronglySorted log_lt (pending from h log).
Proof. intros Hn. by apply order_log_strict, ids_unique_filter. Qed.

(** *** One poll *)

(** However the loop ends it has handled a prefix of the rows: the events are
    theirs and the cursor is on the last of them. *)
Lemma scanRows_prefix rows : forall w fault room evs w' n err,
  scanRows w rows fault room = (evs, w', n, err) ->
  evs = omap row_event (take n rows) /\ w' = foldl advance w (take n rows) /\ (n <= length rows)%nat.
Proof.
  induction rows as [|r rows IH]; intros w fault room evs w' n err H; cbn [Watch.scanRows] in H.
  - destruct fault as [[|k]|]; injection H as <- <- <- <-; cbn; split_and!; try done; lia.
  - assert (Hstep : forall room' evs1 w1 n1 err1,
      scanRows (advance w r) rows (option_map pred fault) room' = (evs1, w1, n1, err1) ->
      evs1 = omap row_event (take n1 rows) /\ w1 = foldl advance (advance w r) (take n1 rows)
      /\ (n1 <= length rows)%nat) by (intros; by eapply IH).
    unfold advance in Hstep at 1.
    destruct fault as [[|k]|].
    1: injection H as <- <- <- <-; cbn; split_and!; try done; lia.
    all: destruct (row_event r) as [e|] eqn:Er;
      [destruct room as [[|j]|]; [injection H as <- <- <- <-; cbn; split_and!; try done; lia | |]|];
      match type of H with context [Watch.scanRows ?a ?b ?d ?w2 ?l ?f ?ro] =>
        destruct (Watch.scanRows a b d w2 l f ro) as [[[evs1 w1] n1] err1] eqn:Es end;
      injection H as <- <- <- <-;
      destruct (Hstep _ _ _ _ _ Es) as (-> & -> & Hl);
      cbn [take omap list_omap]; rewrite ?Er; split_and!; try done; cbn; lia.
Qed.

(** A poll that meets no trouble handles every row of its page. *)
Lemma scanRows_all rows : forall w,
  scanRows w rows None None = (omap row_event rows, foldl advance w rows, length rows, false).
Proof.
  induction rows as [|r rows IH]; intros w; [done|]. cbn [Watch.scanRows option_map].
  destruct (row_event r) as [e|] eqn:Er; rewrite IH; cbn; rewrite Er; done.
Qed.

Lemma cursor_advanced rows w :
  cursor (foldl advance w rows) = match last rows with Some r => pos r | None => cursor w end.
Proof.
  induction rows as [|r rows IH] using rev_ind; [done|].
  rewrite foldl_app, last_snoc. cbn. apply cursor_advance.
Qed.

(** What a poll does to the events and the cursor, whatever it meets. *)
Lemma pollChanges_prefix w env evs w' n err :
  pollChanges w env = (evs, w', n, err) ->
  (evs = [] /\ cursor w' = cursor w)
  \/ exists h log rows rest,
       pe_horizon env = Some h /\ pe_log env = Some log /\
       pending (cursor w) h log = rows ++ rest /\
       evs = omap row_event rows /\
       cursor w' = match last rows with Some r => pos r | None => cursor w end.
Proof.
  unfold Watch.pollChanges. destruct (pe_horizon env) as [h|] eqn:Eh.
  2: { intros [= <- <- _ _]. by left. }
  destruct (pe_log env) as [log|] eqn:El.
  2: { intros [= <- <- _ _]. left. split; [done|]. apply cursor_warn. }
  intros H. destruct (scanRows_prefix _ _ _ _ _ _ _ _ H) as (-> & -> & Hn). right.
  rewrite cursor_warn in *. rewrite page_pending in *.
  exists h, log, (take n (pending (cursor w) h log)), (drop n (pending (cursor w) h log)).
  assert (Ht : take n (take pollBatchSize (pending (cursor w) h log)) = take n (pending (cursor w) h log)).
  { rewrite take_take. f_equal. rewrite length_take in Hn. lia. }
  rewrite Ht, cursor_advanced, cursor_warn, take_drop. done.
Qed.

(** *** A watch over a history *)

(** What a cleanup at [now] takes of the log from a watch that has not reached it. *)
Definition unread (w : watch) (now : Z) (L : list LogRow) : list LogRow :=
  List.filter (fun r => bool_decide (cur_lt (cursor w) (pos r)) && negb (bool_decide (r ∈ cleanup now L))) L.

(** [stream w0 H L lost h evs w]: a watch that started at [w0] has emitted [evs] and is
    [w].  [H] are the rows of the log it started on and those committed since, [L] those
    of them still in the log, [lost] those a cleanup deleted before the watch reached
    them, and [h] is the highest horizon it used. *)
Inductive stream (w0 : watch) :
    list LogRow -> list LogRow -> list LogRow -> Z -> list (Event Object) -> watch -> Prop :=
| stream_start H h : ids_unique H -> stream w0 H H [] h [] w0
| stream_commits H H' L L' lost h evs w :
  stream w0 H L lost h evs w -> settles h H H' -> ids_unique H' ->
  (forall r, r ∈ L' <-> r ∈ L \/ (r ∈ H' /\ r ∉ H)) -> stream w0 H' L' lost h evs w
| stream_cleanup H L lost h evs w now :
  stream w0 H L lost h evs w -> stream w0 H (cleanup now L) (lost ++ unread w now L) h evs w
| stream_signal H L lost h evs w w' :
  stream w0 H L lost h evs w -> cursor w' = cursor w -> stream w0 H L lost h evs w'
| stream_poll H L lost h evs w env evs' w' n err :
  stream w0 H L lost h evs w ->
  (forall log, pe_log env = Some log -> ids_unique log /\ forall r, r ∈ log <-> r ∈ L) ->
  pollChanges w env = (evs', w', n, err) ->
  stream w0 H L lost (Z.max h (default h (pe_horizon env))) (evs ++ evs') w'.

(** Being covered and lying between two positions. *)
Definition between (lo hi : Cursor) (r : LogRow) : Prop :=
  covers_key c (lg_key r) = true /\ cur_lt lo (pos r) /\ cur_le (pos r) hi.

Lemma strict_app_inv l1 l2 :
  StronglySorted log_lt (l1 ++ l2) ->
  StronglySorted log_lt l1 /\ StronglySorted log_lt l2 /\ (forall a b, a ∈ l1 -> b ∈ l2 -> log_lt a b).
Proof.
  induction l1 as [|x l1 IH]; cbn; intros H.
  - split_and!; [constructor | done | intros a b Ha; by apply not_elem_of_nil in Ha].
  - inversion_clear H as [|? ? Hs Hx]. destruct (IH Hs) as (H1 & H2 & H3).
    rewrite Forall_forall in Hx. split_and!; [|done|].
    + constructor; [done|]. apply Forall_forall. intros y Hy. apply Hx, elem_of_app. by left.
    + intros a b [->|Ha]%elem_of_cons Hb; [apply Hx, elem_of_app; by right | by apply H3].
Qed.

Lemma strict_app l1 l2 :
  StronglySorted log_lt l1 -> StronglySorted log_lt l2 ->
  (forall a b, a ∈ l1 -> b ∈ l2 -> log_lt a b) -> StronglySorted log_lt (l1 ++ l2).
Proof.
  induction 1 as [|x l1 H1 IH Hx]; cbn; intros H2 H3; [done|].
  constructor.
  - apply IH; [done|]. intros a b Ha. apply H3. by right.
  - apply Forall_app. split; [done|]. apply Forall_forall. intros y Hy. apply H3; [left | done].
Qed.

(** The handled rows of a poll are the covered ones of the log between the two cursors. *)
Lemma poll_rows w h log rows rest :
  ids_unique log -> pending (cursor w) h log = rows ++ rest ->
  let to := match last rows with Some r => pos r | None => cursor w end in
  StronglySorted log_lt rows /\
  (forall r, r ∈ rows <-> r ∈ log /\ between (cursor w) to r) /\
  (to = cursor w \/ (cur_lt (cursor w) to /\ to.1 < h)).
Proof.
  intros Hu Hp. pose proof (pending_strict (cursor w) h log Hu) as Hs.
  rewrite Hp in Hs. destruct (strict_app_inv _ _ Hs) as (Hs1 & _ & Hs3). cbn.
  assert (Hel : forall r, r ∈ rows -> r ∈ log /\ lg_xid r < h /\ cur_lt (cursor w) (pos r)
                          /\ covers_key c (lg_key r) = true).
  { intros r Hr. apply (pending_elem (cursor w) h log r). rewrite Hp. apply elem_of_app. by left. }
  destruct (last rows) as [z|] eqn:El.
  - apply last_Some in El as [front ->]. destruct (strict_app_inv _ _ Hs1) as (_ & _ & Hz).
    assert (Hzl : z ∈ front ++ [z]) by (apply elem_of_app; right; by apply list_elem_of_singleton).
    destruct (Hel z Hzl) as (_ & Hzh & Hzc & _).
    split_and!; [done | | right; split; [done | exact Hzh]].
    intros r. split.
    + intros Hr. destruct (Hel r Hr) as (Hl & _ & Hc & Hk). split; [done|]. split_and!; [done..|].
      apply elem_of_app in Hr as [Hr | ->%list_elem_of_singleton]; [|cur_lia].
      specialize (Hz r z Hr ltac:(by apply list_elem_of_singleton)). cur_lia.
    + intros (Hr & Hk & Hlt & Hle).
      assert (Hpend : r ∈ pending (cursor w) h log) by (apply pending_elem; split_and!; [done | | done..]; cur_lia).
      rewrite Hp in Hpend. apply elem_of_app in Hpend as [?|Hrest]; [done|].
      specialize (Hs3 z r Hzl Hrest). cur_lia.
  - apply last_None in El as ->. split_and!; [constructor | | by left].
    intros r. split; [intros Hr; by apply not_elem_of_nil in Hr|].
    intros (_ & _ & Hlt & Hle). cur_lia.
Qed.

(** What the rows in the log and the lost ones are to the committed ones. *)
Record accounted (H L lost : list LogRow) (w : watch) : Prop := {
  ac_unique : ids_unique H;
  ac_log : forall r, r ∈ L -> r ∈ H /\ r ∉ lost;
  ac_lost : forall r, r ∈ lost -> r ∈ H;
  ac_ahead : forall r, r ∈ H -> cur_lt (cursor w) (pos r) -> r ∈ L \/ r ∈ lost
}.

Lemma cleanup_elem now L r : r ∈ cleanup now L -> r ∈ L.
Proof. unfold cleanup, prune. rewrite !list_elem_of_In, filter_In. tauto. Qed.

Lemma unread_elem w now L r : r ∈ unread w now L <-> r ∈ L /\ cur_lt (cursor w) (pos r) /\ r ∉ cleanup now L.
Proof.
  unfold unread. rewrite list_elem_of_In, filter_In, <-list_elem_of_In, andb_true_iff, negb_true_iff.
  by rewrite bool_decide_eq_true, bool_decide_eq_false.
Qed.

Lemma accounted_cleanup H L lost w now :
  accounted H L lost w -> accounted H (cleanup now L) (lost ++ unread w now L) w.
Proof.
  intros [Hu Hl Hs Ha]. constructor; [done | | |].
  - intros r Hr. destruct (Hl r (cleanup_elem _ _ _ Hr)). split; [done|]. rewrite elem_of_app, unread_elem. tauto.
  - intros r [?|(?%Hl & _)%unread_elem]%elem_of_app; [by apply Hs | tauto].
  - intros r Hr Hc. rewrite elem_of_app, unread_elem. destruct (Ha r Hr Hc) as [HL|?]; [|tauto].
    destruct (decide (r ∈ cleanup now L)); tauto.
Qed.

Lemma accounted_commits H H' L L' lost h w :
  accounted H L lost w -> settles h H H' -> ids_unique H' ->
  (forall r, r ∈ L' <-> r ∈ L \/ (r ∈ H' /\ r ∉ H)) -> accounted H' L' lost w.
Proof.
  intros [Hu Hl Hs Ha] Hset Hu' HL. assert (forall r, r ∈ H -> r ∈ H') as Hin by (intros r Hr; by apply Hset).
  constructor; [done | | |].
  - intros r [Hr|[Hr Hn]]%HL; [destruct (Hl r Hr); split; auto|]. split; [done|]. intros ?%Hs. tauto.
  - intros r ?%Hs. auto.
  - intros r Hr Hc. rewrite HL. destruct (decide (r ∈ H)) as [Hi|]; [|tauto]. destruct (Ha r Hi Hc); tauto.
Qed.

(** The rows a stream has handled. *)
Lemma stream_rows w0 H L lost h evs w :
  stream w0 H L lost h evs w ->
  accounted H L lost w
  /\ (cursor w = cursor w0 \/ (cur_lt (cursor w0) (cursor w) /\ (cursor w).1 < h))
  /\ exists rows, evs = omap row_event rows /\ StronglySorted log_lt rows
                  /\ (forall r, r ∈ rows <-> r ∈ H /\ between (cursor w0) (cursor w) r /\ r ∉ lost).
Proof.
  induction 1 as [H h Hu | H H' L L' lost h evs w Hst IH Hset Hu' HL | H L lost h evs w now Hst IH
                 | H L lost h evs w w' Hst IH Hc | H L lost h evs w env evs' w' n err Hst IH Hlaw Hpoll].
  - split; [|split; [by left | exists []]].
    { constructor; [done | | |]; [intros r Hr; split; [done | apply not_elem_of_nil] | by intros r ?%not_elem_of_nil | by left]. }
    split_and!; [done | constructor|]. intros r. split; [intros Hr; by apply not_elem_of_nil in Hr|].
    intros (_ & (_ & Hlt & Hle) & _). cur_lia.
  - destruct IH as (Hac & Hcur & rows & -> & Hs & Hrows). split; [by eapply accounted_commits|].
    split; [done|]. exists rows. split_and!; [done..|]. intros r. rewrite Hrows. split.
    + intros (Hr & Hb & Hn). split; [by apply Hset | done].
    + intros (Hr & Hb & Hn). split; [|done]. apply (settles_below _ _ _ Hset r Hr).
      destruct Hb as (_ & Hlt & Hle). destruct Hcur as [E|[_ ?]]; [rewrite E in Hle|]; cur_lia.
  - destruct IH as (Hac & Hcur & rows & -> & Hs & Hrows). split; [by apply accounted_cleanup|].
    split; [done|]. exists rows. split_and!; [done..|]. intros r. rewrite Hrows, elem_of_app, unread_elem.
    split; [|tauto]. intros (Hr & Hb & Hn). split; [done|]. split; [done|]. intros [?|(_ & Hc & _)]; [done|].
    destruct Hb as (_ & _ & Hle). cur_lia.
  - destruct IH as ([Hu Hl Hs Ha] & IH). split; [by constructor; try rewrite Hc|]. by rewrite Hc.
  - destruct IH as (Hac & Hcur & rows & -> & Hs & Hrows).
    destruct (pollChanges_prefix _ _ _ _ _ _ Hpoll)
      as [[-> Hc] | (h' & log & rows' & rest & Eh & El & Hp & -> & Hc)].
    { rewrite Hc, app_nil_r. split; [by destruct Hac; constructor; try rewrite Hc|]. split; [|by exists rows].
      destruct Hcur as [?|[? ?]]; [by left | right]. split; [done | lia]. }
    destruct (Hlaw log El) as (Hlu & Hlog).
    destruct (poll_rows w h' log rows' rest Hlu Hp) as (Hs' & Hrows' & Hto).
    rewrite <- Hc in Hrows', Hto. rewrite Eh. unfold default, id.
    assert (Hmono : cur_le (cursor w0) (cursor w) /\ cur_le (cursor w) (cursor w')).
    { split; [destruct Hcur as [E|[? _]] | destruct Hto as [E|[? _]]]; rewrite ?E; cur_lia. }
    destruct Hac as [Hu Hl Hlo Ha]. split; [|split].
    { constructor; [done..|]. intros r Hr Hlt. apply Ha; [done|]. cur_lia. }
    { destruct Hto as [E|[Hlt Hb]]; [rewrite E; destruct Hcur as [?|[? ?]]; [by left | right; split; [done|lia]]|].
      right. split; [|lia]. cur_lia. }
    exists (rows ++ rows'). split; [by rewrite omap_app|]. split.
    + apply strict_app; [done..|]. intros a b Ha1 Hb. apply Hrows in Ha1 as (_ & (_ & _ & Ha1) & _).
      apply Hrows' in Hb as (_ & _ & Hb & _). cur_lia.
    + intros r. rewrite elem_of_app, Hrows, Hrows', Hlog. unfold between. split.
      * intros [(Hr & (Hk & H1 & H2) & Hn) | (Hr & Hk & H1 & H2)].
        -- split_and!; try done; cur_lia.
        -- destruct (Hl r Hr). split_and!; try done; cur_lia.
      * intros (Hr & (Hk & H1 & H2) & Hn). destruct (decide (cur_le (pos r) (cursor w))) as [|Hgt]; [by left|].
        right. assert (cur_lt (cursor w) (pos r)) as Hlt by cur_lia. destruct (Ha r Hr Hlt); [|done]. by split_and!.
Qed.

(** *** Draining *)

(** A database that answers: the horizon, the log and a result channel that takes
    every event. *)
Definition good_env (h : Z) (log : list LogRow) (now : Z) : PollEnv :=
  mkEnv (Some h) (Some log) None None now None.

Lemma pollChanges_good w h log now :
  exists w', pollChanges w (good_env h log now)
             = (omap row_event (page c (cursor w) h log), w', length (page c (cursor w) h log), false)
             /\ cursor w' = match last (page c (cursor w) h log) with Some r => pos r | None => cursor w end.
Proof.
  unfold Watch.pollChanges, good_env. cbn. rewrite scanRows_all, cursor_warn. eexists. split; [done|].
  by rewrite cursor_advanced, cursor_warn.
Qed.

(** What is pending after a prefix has been handled is the rest. *)
Lemma pending_rest from h log rows rest z :
  ids_unique log -> pending from h log = rows ++ rest -> last rows = Some z ->
  pending (pos z) h log = rest.
Proof.
  intros Hu Hp [front ->]%last_Some. pose proof (pending_strict from h log Hu) as Hs.
  rewrite Hp in Hs. destruct (strict_app_inv _ _ Hs) as (Hs1 & Hs2 & Hs3).
  destruct (strict_app_inv _ _ Hs1) as (_ & _ & Hz).
  apply strict_unique; [by apply pending_strict | done |]. intros r.
  assert (Hzin : z ∈ front ++ [z]) by (apply elem_of_app; right; by apply list_elem_of_singleton).
  assert (Hzp : z ∈ pending from h log) by (rewrite Hp; apply elem_of_app; by left).
  apply pending_elem in Hzp as (_ & _ & Hzc & _). rewrite pending_elem. split.
  - intros (Hl & Hh & Hc & Hk).
    assert (Hr : r ∈ pending from h log) by (apply pending_elem; split_and!; try done; cur_lia).
    rewrite Hp in Hr. apply elem_of_app in Hr as [Hr|?]; [|done]. exfalso.
    apply elem_of_app in Hr as [Hr | ->%list_elem_of_singleton]; [|cur_lia].
    specialize (Hz r z Hr ltac:(by apply list_elem_of_singleton)). cur_lia.
  - intros Hr. assert (Hrp : r ∈ pending from h log) by (rewrite Hp; apply elem_of_app; by right).
    apply pending_elem in Hrp as (? & ? & ? & ?). split_and!; [done..| |done].
    specialize (Hs3 z r Hzin Hr). cur_lia.
Qed.

Lemma drain_run h log now (Hu : ids_unique log) k : forall w,
  (length (pending (cursor w) h log) < k * pollBatchSize)%nat ->
  exists w', drainChangelog w (repeat (good_env h log now) k)
             = (omap row_event (pending (cursor w) h log), w', DrainDone)
             /\ pending (cursor w') h log = []
             /\ (cursor w' = match last (pending (cursor w) h log) with Some r => pos r | None => cursor w end).
Proof.
  induction k as [|k IH]; intros w Hk; [lia|]. cbn [repeat Watch.drainChangelog].
  destruct (pollChanges_good w h log now) as (w1 & -> & Hc1). rewrite page_pending in *.
  set (P := pending (cursor w) h log) in *.
  destruct (Nat.ltb_spec (length (take pollBatchSize P)) pollBatchSize) as [Hlt|Hge].
  - assert (HP : take pollBatchSize P = P).
    { apply take_ge. rewrite length_take in Hlt. lia. }
    rewrite HP in *. exists w1. split_and!; [done | | done].
    destruct (last P) as [z|] eqn:El.
    + rewrite Hc1. apply (pending_rest (cursor w) h log P []); [done | by rewrite app_nil_r | done].
    + rewrite Hc1. by apply last_None in El.
  - cbn [pe_after good_env].
    assert (HP : P = take pollBatchSize P ++ drop pollBatchSize P) by (by rewrite take_drop).
    destruct (last (take pollBatchSize P)) as [z|] eqn:El.
    2: { apply last_None in El. rewrite El in Hge. cbn in Hge. unfold pollBatchSize in Hge. lia. }
    assert (Hrest : pending (cursor w1) h log = drop pollBatchSize P).
    { rewrite Hc1. by eapply pending_rest. }
    destruct (IH w1) as (w2 & E2 & Hp2 & Hc2).
    { rewrite Hrest, length_drop. rewrite length_take in Hge. rewrite Nat.mul_succ_l in Hk. lia. }
    exists w2. rewrite E2, Hrest. split_and!; [|done|].
    + rewrite HP at 3. by rewrite omap_app.
    + rewrite Hc2, Hrest, Hc1. rewrite HP at 2. rewrite last_app, El.
      by destruct (last (drop pollBatchSize P)).
Qed.
End Stream.

(** ** Properties of a watch *)

(** [C14] Every committed row the watch covers is emitted exactly once unless the cleanup
    deleted it first: from the cursor it started at to the one it reached, the events of
    a watch are those of the covered rows between the two, of the log it started on and
    of those committed since, but the ones a cleanup, which goes by age alone, took
    before the watch reached them; each once and in order of transaction and row id.
    Polls may fail or stop after any row, and writers may commit in any order. *)
Theorem stream_exactly_once {Object} Decode UpdateObject (c : WatchConfig Object) w0 H L lost h evs w
    (Hst : stream Decode UpdateObject c w0 H L lost h evs w) :
  exists rows, evs = omap (row_event Decode UpdateObject c) rows
    /\ StronglySorted log_lt rows
    /\ (forall r, r ∈ rows <-> r ∈ H /\ between c (cursor w0) (cursor w) r /\ r ∉ lost).
Proof. by destruct (stream_rows _ _ _ _ _ _ _ _ _ _ Hst) as (_ & _ & ?). Qed.

(** Draining ends and leaves nothing behind: as long as the polls succeed,
    one poll more than the full pages pending emits every row below the horizon
    the watch covers, in order, and stops with none pending. *)
Theorem drainChangelog_complete {Object} Decode UpdateObject (c : WatchConfig Object) w h log now k :
  ids_unique log ->
  (length (pending c (cursor w) h log) < k * pollBatchSize)%nat ->
  exists w', drainChangelog Decode UpdateObject c w (repeat (good_env h log now) k)
             = (omap (row_event Decode UpdateObject c) (pending c (cursor w) h log), w', DrainDone)
             /\ pending c (cursor w') h log = [].
Proof.
  intros Hu Hk. destruct (drain_run Decode UpdateObject c h log now Hu k w Hk) as (w' & ? & ? & _).
  by exists w'.
Qed.

(** ** The initial list *)

Section InitialList.
Context {Object : Type}.
Variable Decode : string -> option Object.
Variable UpdateObject : Object -> Z -> option Object.
Context (c : WatchConfig Object).

(** The event of a listed object, if it has one. *)
Definition listed_event (kr : string * StoredRow) : option (Event Object) :=
  match toWatchEvent Decode UpdateObject "ADDED" (Some (so_data kr.2)) (so_rv kr.2) with
  | None => None
  | Some e => if passes c (ev_Object e) then Some e else None
  end.

Lemma omap_listed kr rows :
  omap listed_event (kr :: rows)
  = match listed_event kr with Some e => e :: omap listed_event rows | None => omap listed_event rows end.
Proof. done. Qed.

Lemma sendListed_all rows : forall w,
  exists w', sendListed Decode UpdateObject c w rows None = (omap listed_event rows, w', false)
             /\ cursor w' = cursor w.
Proof.
  induction rows as [|[k row] rows IH]; intros w; [by exists w|].
  rewrite omap_listed. unfold listed_event at 1. cbn [sendListed fst snd].
  destruct (toWatchEvent Decode UpdateObject "ADDED" (Some (so_data row)) (so_rv row)) as [e|]; [|by apply IH].
  destruct (passes c (ev_Object e)); destruct (IH (raise_rv w (so_rv row))) as (w' & Hs & Hc);
    cbn [option_map]; rewrite Hs; exists w'; by rewrite Hc, cursor_raise.
Qed.

Lemma pick_spec better l :
  (forall a b d, better a b = true -> better b d = true -> better a d = true) ->
  (forall a b d, better a b = false -> better b d = false -> better a d = false) ->
  (forall a, better a a = false) ->
  match pick better l with
  | Some r => r ∈ l /\ forall x, x ∈ l -> better x r = false
  | None => l = []
  end.
Proof.
  intros Ht Ht' Hi. induction l as [|x l IH]; cbn; [done|].
  destruct (pick better l) as [q|].
  - destruct IH as [Hq Hmax]. destruct (better q x) eqn:E.
    + split; [by right|]. intros y [->|Hy]%elem_of_cons; [|by apply Hmax].
      destruct (better x q) eqn:E2; [|done]. by rewrite <- (Hi q), (Ht q x q).
    + split; [left|]. intros y [->|Hy]%elem_of_cons; [done|].
      apply (Ht' y q x); [by apply Hmax | done].
  - subst l. split; [left|]. intros y Hy. by apply list_elem_of_singleton in Hy as ->.
Qed.

Lemma pick_by_pos l :
  match pick by_pos l with
  | Some r => r ∈ l /\ forall x, x ∈ l -> cur_le (pos x) (pos r)
  | None => l = []
  end.
Proof.
  pose proof (pick_spec by_pos l) as H. unfold by_pos in *.
  assert (Hb : forall a b, bool_decide (cur_lt (pos b) (pos a)) = false <-> cur_le (pos a) (pos b)).
  { intros a b. rewrite bool_decide_eq_false. cur_lia. }
  specialize (H ltac:(intros a b d; rewrite !bool_decide_eq_true; cur_lia)
                ltac:(intros a b d; rewrite !Hb; cur_lia) ltac:(intros a; rewrite Hb; cur_lia)).
  destruct (pick _ l) as [r|]; [|done]. destruct H as [H1 H2]. split; [done|].
  intros x Hx. apply Hb. by apply H2.
Qed.

(** The list and the cursor it leaves. *)
Lemma sendInitialEventList_run w s :
  exists w', sendInitialEventList Decode UpdateObject c w (Some s) None None
             = (omap listed_event (listed c s), w', false)
    /\ (forall r, r ∈ sn_log s -> lg_xid r < sn_xmin s -> cur_le (pos r) (cursor w'))
    /\ (cursor w' = (0, 0) \/ (cursor w').1 < sn_xmin s).
Proof.
  unfold sendInitialEventList. destruct (sendListed_all (listed c s) w) as (w1 & -> & _).
  pose proof (pick_by_pos (List.filter (fun r => lg_xid r <? sn_xmin s) (sn_log s))) as Hp.
  assert (Hf : forall r, r ∈ List.filter (fun r => lg_xid r <? sn_xmin s) (sn_log s)
                    <-> r ∈ sn_log s /\ lg_xid r < sn_xmin s).
  { intros r. by rewrite list_elem_of_In, filter_In, <- list_elem_of_In, Z.ltb_lt. }
  destruct (pick _ _) as [z|]; eexists; (split; [done|]); cbn.
  - destruct Hp as [Hz Hmax]. apply Hf in Hz as [_ Hz]. split; [|by right].
    intros r Hr Hx. apply Hmax, Hf. done.
  - split; [|by left]. intros r Hr Hx. exfalso.
    apply (not_elem_of_nil r). rewrite <- Hp. by apply Hf.
Qed.
End InitialList.

(** The initial list hands over to the stream without a gap: the list has an
    event for every covered object of the snapshot, and every row committed after
    the snapshot lies ahead of the cursor it leaves, so once the stream has passed
    the row its event has been emitted, unless a cleanup took it first; rows below the snapshot's horizon are not
    emitted again. *)
Theorem initial_list_no_gap {Object} Decode UpdateObject (c : WatchConfig Object) w s H H' L lost h evs w2 :
  (forall r, r ∈ sn_log s -> r ∈ H) -> (forall r, r ∈ H' -> 0 < lg_xid r) -> settles (sn_xmin s) H H' ->
  exists w1, sendInitialEventList Decode UpdateObject c w (Some s) None None
             = (omap (listed_event Decode UpdateObject c) (listed c s), w1, false)
    /\ (forall r, r ∈ sn_log s -> lg_xid r < sn_xmin s -> ~ cur_lt (cursor w1) (pos r))
    /\ (forall r, r ∈ H' -> r ∉ H -> cur_lt (cursor w1) (pos r))
    /\ (stream Decode UpdateObject c w1 H' L lost h evs w2 ->
        forall r e, r ∈ H' -> r ∉ H -> r ∉ lost -> covers_key c (lg_key r) = true -> cur_le (pos r) (cursor w2) ->
               row_event Decode UpdateObject c r = Some e -> e ∈ evs).
Proof.
  intros Hin Hpos Hset. destruct (sendInitialEventList_run Decode UpdateObject c w s) as (w1 & E & Hdup & Hcur).
  assert (Hnew : forall r, r ∈ H' -> r ∉ H -> cur_lt (cursor w1) (pos r)).
  { intros r Hr Hn. specialize (Hpos r Hr).
    destruct (Z.lt_ge_cases (lg_xid r) (sn_xmin s)) as [Hlt|Hge]; [by destruct Hn; eapply settles_below|].
    destruct Hcur as [->|?]; cur_lia. }
  exists w1. split_and!; [done | | done |].
  - intros r Hr Hx. specialize (Hdup r Hr Hx). cur_lia.
  - intros Hst r e Hr Hn Hlost Hk Hle He.
    destruct (stream_rows _ _ _ _ _ _ _ _ _ _ Hst) as (_ & _ & rows & -> & _ & Hrows).
    apply list_elem_of_omap. exists r. split; [|done]. apply Hrows. split; [done|].
    split; [|done]. split_and!; [done | by apply Hnew | done].
Qed.

(** ** A concrete watch *)

(** Objects that are their text and resource version. *)
Definition ex_decode (d : string) : option (string * Z) := Some (d, 0).
Definition ex_version (o : string * Z) (rv : Z) : option (string * Z) := Some (o.1, rv).

Definition ex_config : WatchConfig (string * Z) :=
  mkConfig "/ipam.miloapis.com/ippools" None (Some ("", 0)) [] false.

Definition ex_row (id rv xid : Z) : LogRow :=
  mkLog id "/ipam.miloapis.com/ippools/p" rv "ADDED" (Some "p") xid 0.

Definition ex_r1 : LogRow := ex_row 1 1 2.
Definition ex_r2 : LogRow := ex_row 2 2 1.

(** Two transactions: the second one to start commits first. *)
Definition ex_tx1 : TxState := mkTx 3 3 {[ 1 := [ex_r2] ]} [ex_r1].
Definition ex_tx2 : TxState := mkTx 3 3 ∅ [ex_r1; ex_r2].

Lemma rtc_of_eq {A} (R : A -> A -> Prop) x y : x = y -> rtc R x y.
Proof. intros ->. apply rtc_refl. Qed.

Lemma ex_tx1_reachable : reachable ex_tx1.
Proof.
  unfold reachable. eapply rtc_l; [apply tx_begin|]. eapply rtc_l; [apply tx_begin|].
  eapply rtc_l; [apply (tx_insert _ 2 [] "/ipam.miloapis.com/ippools/p" 1 "ADDED" (Some "p") 0); reflexivity|].
  eapply rtc_l; [apply (tx_insert _ 1 [] "/ipam.miloapis.com/ippools/p" 2 "ADDED" (Some "p") 0); reflexivity|].
  eapply rtc_l; [apply (tx_commit _ 2 [ex_r1]); reflexivity|].
  apply rtc_of_eq. vm_compute. reflexivity.
Qed.

Lemma ex_tx2_reachable : rtc tx_step ex_tx1 ex_tx2.
Proof.
  eapply rtc_l; [apply (tx_commit _ 1 [ex_r2]); reflexivity|].
  apply rtc_of_eq. vm_compute. reflexivity.
Qed.

Lemma ex_unique : ids_unique [ex_r1; ex_r2].
Proof. apply (tok_log_unique _ (reachable_ok ex_tx2 (transitivity ex_tx1_reachable ex_tx2_reachable))). Qed.

(** A watch over them: nothing is below the horizon at first, then both rows are
    emitted, the older transaction's first. *)
Definition ex_run :=
  pollChanges ex_decode ex_version ex_config new_watch (good_env 3 [ex_r1; ex_r2] 0).

Example ex_run_events :
  ex_run.1.1.1 = [mkEvent Added ("p", 2); mkEvent Added ("p", 1)] /\ cursor ex_run.1.1.2 = (2, 1).
Proof. vm_compute. done. Qed.

(** Both are emitted, and then cleaned up. *)
Lemma stream_exactly_once_witness :
  exists rows, [mkEvent Added ("p", 2); mkEvent Added ("p", 1)]
               = omap (row_event ex_decode ex_version ex_config) rows
    /\ StronglySorted log_lt rows
    /\ (forall r, r ∈ rows <-> r ∈ [ex_r1; ex_r2] /\ between ex_config (cursor new_watch) (cursor ex_run.1.1.2) r
                               /\ r ∉ [] ++ unread ex_run.1.1.2 (defaultChangelogRetention + 1) [ex_r1; ex_r2]).
Proof.
  apply (stream_exactly_once ex_decode ex_version ex_config new_watch [ex_r1; ex_r2]
           (cleanup (defaultChangelogRetention + 1) [ex_r1; ex_r2]) _ 3).
  apply stream_cleanup.
  refine (stream_poll ex_decode ex_version ex_config new_watch [ex_r1; ex_r2] [ex_r1; ex_r2] [] 0 [] new_watch
            (good_env 3 [ex_r1; ex_r2] 0) _ _ ex_run.1.2 ex_run.2 _ _ _).
  - apply (stream_commits _ _ _ _ [ex_r1; ex_r2] _ [ex_r1; ex_r2]);
      [apply stream_start; exact ex_unique | apply settles_refl | exact ex_unique | intros r; tauto].
  - intros log [= <-]. split; [exact ex_unique | done].
  - vm_compute. reflexivity.
Defined.

Lemma drainChangelog_complete_witness :
  exists w', drainChangelog ex_decode ex_version ex_config new_watch (repeat (good_env 3 [ex_r1; ex_r2] 0) 1)
             = (omap (row_event ex_decode ex_version ex_config) (pending ex_config (0, 0) 3 [ex_r1; ex_r2]), w', DrainDone)
             /\ pending ex_config (cursor w') 3 [ex_r1; ex_r2] = [].
Proof.
  apply (drainChangelog_complete ex_decode ex_version ex_config new_watch).
  - exact ex_unique.
  - apply Nat.ltb_lt. vm_compute. reflexivity.
Defined.

Definition ex_object (rv : Z) : StoredRow := mkStored rv "IPPool" "" "p" "p" "{}".

(** A snapshot taken while the older transaction is in flight. *)
Definition ex_snap : Snapshot :=
  mkSnapshot (xmin ex_tx1) (tx_log ex_tx1) {[ "/ipam.miloapis.com/ippools/p" := ex_object 1 ]}.

Lemma initial_list_no_gap_witness :
  exists w1, sendInitialEventList ex_decode ex_version ex_config new_watch (Some ex_snap) None None
             = (omap (listed_event ex_decode ex_version ex_config) (listed ex_config ex_snap), w1, false)
    /\ (forall r, r ∈ [ex_r1] -> lg_xid r < 1 -> ~ cur_lt (cursor w1) (pos r))
    /\ (forall r, r ∈ [ex_r1; ex_r2] -> r ∉ [ex_r1] -> cur_lt (cursor w1) (pos r))
    /\ (stream ex_decode ex_version ex_config w1 [ex_r1; ex_r2] [ex_r1; ex_r2] [] 3 [] w1 ->
        forall r e, r ∈ [ex_r1; ex_r2] -> r ∉ [ex_r1] -> r ∉ [] -> covers_key ex_config (lg_key r) = true ->
               cur_le (pos r) (cursor w1) -> row_event ex_decode ex_version ex_config r = Some e -> e ∈ []).
Proof.
  destruct (initial_list_no_gap ex_decode ex_version ex_config new_watch ex_snap [ex_r1] [ex_r1; ex_r2] [ex_r1; ex_r2]
              [] 3 [] (set_cursor new_watch 0 0)) as (w1 & H1 & H2 & H3 & _).
  - intros r Hr. exact Hr.
  - intros r [-> | ->%list_elem_of_singleton]%elem_of_cons; cbn; lia.
  - exact (proj1 (proj2 (settles_steps _ _ (reachable_ok _ ex_tx1_reachable) ex_tx2_reachable))).
  - exists w1. split; [exact H1|]. split; [exact H2|]. split; [exact H3|].
    intros _ r e Hr Hn _ _ Hle _. exfalso. specialize (H3 r Hr Hn). cur_lia.
Defined.

(** ** Histories that lose an event

    A position handed to a client is a resource version.  These histories hand
    one out ahead of rows the stream has not reached. *)

(** A row at or behind the cursor is never pending again. *)
Lemma behind_never_pending {Object} (c : WatchConfig Object) from r h log :
  cur_le (pos r) from -> r ∉ pending c from h log.
Proof. intros Hle (_ & _ & Hlt & _)%pending_elem. cur_lia. Qed.

(** A client that resumes from the version of a list or a bookmark can miss
    an event for good.  One transaction is in flight while a later one has
    committed; the highest committed version is the later one's, taken from the
    object rows without regard to the horizon; a watch resumed there starts
    behind the later transaction, and when the older one commits no poll, at any
    horizon and over any log, selects its row. *)
Theorem resume_skips_in_flight :
  reachable ex_tx1 /\ rtc tx_step ex_tx1 ex_tx2 /\
  let snap := mkSnapshot (xmin ex_tx1) (tx_log ex_tx1)
                {[ "/ipam.miloapis.com/ippools/q" := ex_object 1 ]} in
  committedMaxResourceVersion snap = 1 /\
  exists w, Watch ex_config "1" (Some (tx_log ex_tx1)) (Some (tx_log ex_tx1)) = Some w /\
    ex_r2 ∈ tx_log ex_tx2 /\ ex_r2 ∉ tx_log ex_tx1 /\
    (forall h log, ex_r2 ∉ pending ex_config (cursor w) h log).
Proof.
  split; [exact ex_tx1_reachable|]. split; [exact ex_tx2_reachable|].
  split; [vm_compute; reflexivity|].
  exists (set_rv (set_cursor new_watch 2 1) 1). split; [vm_compute; reflexivity|].
  split; [by right; left|]. split.
  - intros H. apply list_elem_of_singleton in H. discriminate H.
  - intros h log. apply behind_never_pending. vm_compute. by left.
Qed.

(** The bookmark of the periodic ticker, with a row committed since the last poll. *)
Definition ex_behind : watch := set_cursor new_watch 0 0.
Definition ex_committed : Snapshot :=
  mkSnapshot 3 [ex_r2] {[ "/ipam.miloapis.com/ippools/p" := ex_object 2 ]}.

(** A periodic bookmark can overtake an event.  It carries the highest
    committed version without draining the log first, so it is sent while a row of
    that version is still pending; a client that resumes from the bookmark never
    receives the row. *)
Theorem bookmark_overtakes_event :
  ex_r2 ∈ pending ex_config (cursor ex_behind) (sn_xmin ex_committed) (sn_log ex_committed) /\
  sendBookmark ex_version ex_config ex_behind (Some (committedMaxResourceVersion ex_committed)) Sent
    = ([mkEvent Bookmark ("", 2)], set_rv ex_behind 2) /\
  exists w, Watch ex_config "2" (Some (sn_log ex_committed)) (Some (sn_log ex_committed)) = Some w /\
    (forall h log, ex_r2 ∉ pending ex_config (cursor w) h log).
Proof.
  split; [apply (pending_elem ex_config); split_and!; [left | cbn; lia | cur_lia | vm_compute; reflexivity]|].
  split; [vm_compute; reflexivity|].
  exists (set_rv (set_cursor new_watch 1 2) 2). split; [vm_compute; reflexivity|].
  intros h log. apply behind_never_pending. vm_compute. right. split; [done | discriminate].
Qed.

(** The cleanup removes rows by age alone, so a transaction that stays in
    flight for the retention period costs a connected watch every row committed
    above it: before the cleanup the row is above the horizon, after it the row is
    gone, and no poll emits it. *)
Theorem cleanup_drops_unread :
  reachable ex_tx1 /\ ex_r1 ∈ tx_log ex_tx1 /\
  (forall w, ex_r1 ∉ pending ex_config (cursor w) (xmin ex_tx1) (tx_log ex_tx1)) /\
  (forall now, defaultChangelogRetention < now -> cleanup now (tx_log ex_tx1) = []) /\
  covers_key ex_config (lg_key ex_r1) = true.
Proof.
  split; [exact ex_tx1_reachable|]. split; [left|]. split.
  { intros w (_ & Hh & _)%pending_elem. vm_compute in Hh. discriminate Hh. }
  split; [|vm_compute; reflexivity].
  intros now Hn. unfold cleanup, prune. cbn [tx_log ex_tx1 List.filter ex_r1 ex_row lg_created].
  zcase; [done | lia].
Qed.

(** The order of transaction ids is not always the order in which an object was
    written: an id is taken at a transaction's first write, and the object's row is
    locked later.  Here the first transaction writes another key first (a release
    deleting its allocations) and waits for the row of the pool, the second takes that
    row, publishes version 100 of the pool and commits, and the first then publishes
    version 101 and commits.  A watch of the pool emits 101 before 100, so what it
    shows last is the older object. *)
Definition ex_pool_row (id rv xid : Z) (data : string) : LogRow :=
  mkLog id "/ipam.miloapis.com/ippools/p" rv "MODIFIED" (Some data) xid 0.

Definition ex_first : LogRow :=
  mkLog 1 "/ipam.miloapis.com/ipallocations/a" 99 "DELETED" (Some "a") 1 0.
Definition ex_second : LogRow := ex_pool_row 2 100 2 "second".
Definition ex_waited : LogRow := ex_pool_row 3 101 1 "first".

Definition ex_both : TxState := mkTx 3 4 ∅ [ex_second; ex_first; ex_waited].

Lemma ex_both_reachable : reachable ex_both.
Proof.
  unfold reachable. eapply rtc_l; [apply tx_begin|].
  eapply rtc_l; [apply (tx_insert _ 1 [] "/ipam.miloapis.com/ipallocations/a" 99 "DELETED" (Some "a") 0); reflexivity|].
  eapply rtc_l; [apply tx_begin|].
  eapply rtc_l; [apply (tx_insert _ 2 [] "/ipam.miloapis.com/ippools/p" 100 "MODIFIED" (Some "second") 0); reflexivity|].
  eapply rtc_l; [apply (tx_commit _ 2 [ex_second]); reflexivity|].
  eapply rtc_l; [apply (tx_insert _ 1 [ex_first] "/ipam.miloapis.com/ippools/p" 101 "MODIFIED" (Some "first") 0);
                 reflexivity|].
  eapply rtc_l; [apply (tx_commit _ 1 [ex_first; ex_waited]); reflexivity|].
  apply rtc_of_eq. vm_compute. reflexivity.
Qed.

Theorem xid_order_not_write_order :
  reachable ex_both /\ tx_open ex_both = ∅ /\
  (pollChanges ex_decode ex_version ex_config new_watch (good_env (xmin ex_both) (tx_log ex_both) 0)).1.1.1
    = [mkEvent Modified ("first", 101); mkEvent Modified ("second", 100)].
Proof. split; [exact ex_both_reachable|]. split; [reflexivity|]. vm_compute. reflexivity. Qed.

(** A progress request made while an earlier one is pending is dropped, not
    merged: the bookmark the watch then sends carries the older version, and with
    nothing else pending it stays below the version just requested. *)
Theorem NotifyProgress_keeps_first i w rv rv' active :
  active !! i = Some w -> w_progress w = Some rv ->
  exists w', NotifyProgress rv' active !! i = Some w' /\ w_progress w' = Some rv.
Proof.
  intros Hi Hw. exists w. split; [|done]. unfold NotifyProgress, offer_progress.
  rewrite lookup_fmap, Hi. cbn. by rewrite Hw.
Qed.

Definition ex_waiting : watch := set_signals new_watch (Some 5) false.

Lemma NotifyProgress_keeps_first_witness :
  (exists w', NotifyProgress 9 {[ 0%nat := ex_waiting ]} !! 0%nat = Some w' /\ w_progress w' = Some 5)
  /\ exists w, handle ex_decode ex_version ex_config ex_waiting (SigProgress [good_env 9 [] 0] false)
               = Some ([mkEvent Bookmark ("", 5)], w, true).
Proof.
  split; [apply (NotifyProgress_keeps_first 0 ex_waiting 5 9); reflexivity|].
  eexists. vm_compute. reflexivity.
Defined.

(** ** The kind of a key *)

Lemma Cut_app_no_slash a s sep :
  no_byte "/" a = true -> HasPrefix sep "/" = true ->
  Cut (a +:+ s) sep = match Cut s sep with Some (b, t) => Some (a +:+ b, t) | None => None end.
Proof.
  intros Ha Hsep. destruct sep as [|e sep]; [done|]. apply andb_true_iff in Hsep as [He _].
  apply Ascii.eqb_eq in He. subst e.
  induction a as [|x a IH]; [change ("" +:+ s) with s; by destruct (Cut s (String "/" sep)) as [[? ?]|]|].
  cbn [no_byte] in Ha. apply andb_true_iff in Ha as [Hx Ha]. apply negb_true_iff in Hx.
  change (String x a +:+ s) with (String x (a +:+ s)). cbn [Cut HasPrefix]. rewrite Hx. cbn [andb].
  rewrite (IH Ha). by destruct (Cut s _) as [[? ?]|].
Qed.

Lemma Cut_here sep s : Cut (sep +:+ s) sep = Some ("", s).
Proof.
  pose proof (HasPrefix_app sep s) as Hp. pose proof (drop_str_app sep s) as Hd.
  destruct (sep +:+ s) as [|x t] eqn:E; cbn [Cut]; rewrite Hp, Hd; done.
Qed.

Lemma HasPrefix_slash a b s :
  no_byte "/" a = true -> no_byte "/" b = true ->
  HasPrefix (a +:+ String "/" s) (b +:+ "/") = true -> a = b.
Proof.
  revert b. induction a as [|x a IH]; intros [|y b] Ha Hb H; [done | | |].
  - change (HasPrefix (String "/" s) (String y (b +:+ "/")) = true) in H. cbn [HasPrefix] in H.
    apply andb_true_iff in H as [H _]. apply Ascii.eqb_eq in H. subst y. done.
  - change (HasPrefix (String x (a +:+ String "/" s)) (String "/" "") = true) in H. cbn [HasPrefix] in H.
    apply andb_true_iff in H as [H _]. apply Ascii.eqb_eq in H. subst x. done.
  - change (HasPrefix (String x (a +:+ String "/" s)) (String y (b +:+ "/")) = true) in H.
    cbn [HasPrefix] in H. cbn [no_byte] in Ha, Hb.
    apply andb_true_iff in H as [H1 H2], Ha as [_ Ha], Hb as [_ Hb].
    apply Ascii.eqb_eq in H1. subst y. f_equal. by apply IH.
Qed.

Lemma Cut_slash r n : no_byte "/" r = true -> Cut (r +:+ String "/" n) "/" = Some (r, n).
Proof.
  intros Hr. rewrite Cut_app_no_slash by done.
  change (String "/" n) with ("/" +:+ n). rewrite Cut_here. by rewrite append_nil_str.
Qed.

Lemma kind_after r n : no_byte "/" r = true ->
  (if String.eqb (r +:+ String "/" n) "" then "unknown"
   else match Cut (r +:+ String "/" n) "/" with Some (kind, _) => kind | None => r +:+ String "/" n end) = r.
Proof.
  intros Hr. rewrite Cut_slash by done.
  destruct (String.eqb_spec (r +:+ String "/" n) "") as [E|]; [by destruct r|done].
Qed.

(** The metric label of a watch is the resource of its key, for every key the
    server writes; the project name that spells the API group is the exception. *)
Theorem kindFromKey_ResourceKey id r n :
  no_byte "/" (id_Name id) = true -> no_byte "/" r = true -> id_Name id <> "ipam.miloapis.com" ->
  kindFromKey (ResourceKey id r n) = r.
Proof.
  intros Hi Hr Hne. unfold kindFromKey. destruct (String.eqb_spec (id_Name id) "") as [E|E].
  - unfold ResourceKey, ApplyPrefix, KeyPrefix. rewrite E. cbn [String.eqb].
    rewrite Cut_here. apply kind_after. exact Hr.
  - rewrite ResourceKey_tenant by done.
    change ("project/" +:+ ?t) with ("project" +:+ String "/" t).
    rewrite Cut_app_no_slash by done.
    change ("/" +:+ "ipam.miloapis.com/" +:+ r +:+ "/" +:+ n)
      with ("/ipam.miloapis.com/" +:+ (r +:+ String "/" n)).
    set (rest := r +:+ String "/" n). set (sep := "/ipam.miloapis.com/").
    assert (Hno : HasPrefix (String "/" (id_Name id +:+ (sep +:+ rest))) sep = false).
    { destruct (HasPrefix _ sep) eqn:Ep; [|done]. exfalso. apply Hne.
      unfold sep in Ep. cbn [HasPrefix] in Ep. rewrite Ascii.eqb_refl in Ep. cbn [andb] in Ep.
      apply (HasPrefix_slash _ "ipam.miloapis.com" ("ipam.miloapis.com/" +:+ rest)); [done..|]. exact Ep. }
    cbn [Cut]. rewrite Hno, Cut_app_no_slash by done. rewrite Cut_here. apply kind_after. exact Hr.
Qed.

Lemma kindFromKey_ResourceKey_witness : kindFromKey (ResourceKey ex_id "ippools" "p1") = "ippools".
Proof. apply (kindFromKey_ResourceKey ex_id "ippools" "p1"); [reflexivity | reflexivity | discriminate]. Defined.
