(* ===== verification/Startup.v ===== *)
(** * Startup: connecting, and staying connected

    [cmd/ipam/serve.go]: the options that must be set and the retries that open the
    allocator's connection pool.  [internal/watch/postgres.go]: the goroutine that holds
    the LISTEN connection, its backoff, and the kicks it sends to the watches.
    [internal/fieldindex]: the statements that create the selector indexes, and the
    lists of them the strategies declare.

    What the outside does is an argument, by attempt: what connecting and pinging
    answer, which notifications arrive and how a connection ends, when the process is
    shut down. *)

From Stdlib Require Import Ascii String.
From S2P Require Import Prelude Text Float Net Cidr Reservation Allocate Consumption Scan Tenant Sha256 Scope.
From S2P Require Import NetText Types Db PoolObject Errors Class Discover BoundedSearch Prefix.
From S2P Require Import Changelog Watch.
Open Scope string_scope.
Open Scope list_scope.
Open Scope Z_scope.

(** ** The allocator's pool: [newAllocatorPoolWithRetry] *)

(** Seconds to wait before each attempt. *)
Definition allocatorPoolRetrySchedule : list Z := [0; 2; 4; 8].

Section Retry.
(** [pgxpool.NewWithConfig] and [pool.Ping] at an attempt; whether the context is done
    before the wait of that attempt is. *)
Context (NewWithConfig : nat -> option GoErr) (Ping : nat -> option GoErr) (Done : nat -> bool) (ctxErr : GoErr).

(** A pool is named by the attempt that opened it. *)
Record opening := mkOpening { op_pools : list nat; op_waited : Z }.

Definition Close (i : nat) (o : opening) : opening := mkOpening (filter (fun j => j <> i) (op_pools o)) (op_waited o).

Fixpoint open_attempts (i : nat) (schedule : list Z) (lastErr : option GoErr) (o : opening) : result GoErr nat * opening :=
  match schedule with
  | [] => (Err (match lastErr with Some e => GWrap "allocator pgxpool: exhausted 4 retries" e
                                 | None => GText "allocator pgxpool: exhausted 4 retries" end), o)
  | wait :: rest =>
    if (0 <? wait) && Done i then (Err ctxErr, o)
    else
      let o := mkOpening (op_pools o) (op_waited o + wait) in
      match NewWithConfig i with
      | Some e => open_attempts (S i) rest (Some e) o
      | None =>
        let o := mkOpening (i :: op_pools o) (op_waited o) in
        match Ping i with
        | None => (Ok i, o)
        | Some e => open_attempts (S i) rest (Some e) (Close i o)
        end
      end
  end.

Definition newAllocatorPoolWithRetry : result GoErr nat * opening :=
  open_attempts O allocatorPoolRetrySchedule None (mkOpening [] 0).

(** An attempt that answers. *)
Definition answers (i : nat) : bool := bool_decide (NewWithConfig i = None) && bool_decide (Ping i = None).

Lemma open_attempts_spec schedule : forall i lastErr o r o',
  Forall (fun j => (j < i)%nat) (op_pools o) -> Forall (fun w => 0 <= w) schedule ->
  open_attempts i schedule lastErr o = (r, o') ->
  op_waited o <= op_waited o' <= op_waited o + sumZ id schedule
  /\ match r with
     | Ok j => (i <= j < i + length schedule)%nat /\ answers j = true /\ op_pools o' = j :: op_pools o
               /\ forall k, (i <= k < j)%nat -> answers k = false
     | Err _ => op_pools o' = op_pools o
     end.
Proof.
  induction schedule as [|wait rest IH]; intros i lastErr o r o' Hlt Hw; cbn [open_attempts length].
  { intros [= <- <-]. cbn. split; [lia | done]. }
  apply Forall_cons in Hw as [Hw0 Hw]. change (sumZ id (wait :: rest)) with (wait + sumZ id rest).
  assert (0 <= sumZ id rest) as Hsum by (clear -Hw; induction Hw as [|x l Hx _ IHl]; [done | change (0 <= x + sumZ id l); lia]).
  destruct ((0 <? wait) && Done i); [intros [= <- <-]; split; [lia | done]|].
  set (o1 := mkOpening (op_pools o) (op_waited o + wait)).
  assert (Hnext : forall e o2, op_pools o2 = op_pools o -> op_waited o2 = op_waited o1 -> answers i = false ->
    open_attempts (S i) rest e o2 = (r, o') ->
    op_waited o <= op_waited o' <= op_waited o + (wait + sumZ id rest)
    /\ match r with
       | Ok j => (i <= j < i + S (length rest))%nat /\ answers j = true /\ op_pools o' = j :: op_pools o
                 /\ forall k, (i <= k < j)%nat -> answers k = false
       | Err _ => op_pools o' = op_pools o
       end).
  { intros e o2 Hp2 Hw2 Hno H.
    destruct (IH (S i) e o2 r o') as [Hb Hr]; [rewrite Hp2; eapply Forall_impl; [exact Hlt|]; cbn; intros; lia | done | done |].
    rewrite Hp2 in Hr. unfold o1 in *. cbn in Hw2. split; [lia|]. destruct r as [j|]; [|done].
    destruct Hr as (Hj & Ha & Hp & Hk). split_and!; [lia | lia | done | done |].
    intros k Hki. destruct (decide (k = i)) as [->|]; [done | apply Hk; lia]. }
  destruct (NewWithConfig i) as [e|] eqn:Hn.
  { apply Hnext; [done | done|]. unfold answers. by rewrite Hn. }
  destruct (Ping i) as [e|] eqn:Hp.
  { apply Hnext; [|done | unfold answers; by rewrite Hn, Hp]. unfold Close. cbn [op_pools].
    rewrite filter_cons_False by (intros E; by apply E).
    change (op_pools o1) with (op_pools o). clear -Hlt. induction (op_pools o) as [|j l IH]; [done|]. apply Forall_cons in Hlt as [Hj Hl].
    rewrite filter_cons_True by lia. by rewrite IH. }
  intros [= <- <-]. cbn. split; [lia|]. split_and!; [lia | lia | unfold answers; by rewrite Hn, Hp | done | lia].
Qed.

(** Opening the pool waits fourteen seconds at most.  It answers with the pool of the
    first attempt at which the server answered, and no other pool is left open; when it
    fails, none is. *)
Theorem pool_retry_exact :
  let '(r, o) := newAllocatorPoolWithRetry in
  0 <= op_waited o <= 14
  /\ match r with
     | Ok j => (j < 4)%nat /\ answers j = true /\ op_pools o = [j] /\ forall k, (k < j)%nat -> answers k = false
     | Err _ => op_pools o = []
     end.
Proof.
  unfold newAllocatorPoolWithRetry. destruct (open_attempts _ _ _ _) as [r o] eqn:E.
  apply open_attempts_spec in E as [Hw Hr]; [|constructor | by repeat constructor]. cbn in Hw, Hr. split; [lia|].
  destruct r as [j|]; [|done]. destruct Hr as (Hj & Ha & Hp & Hk). split_and!; [lia | done | done |]. intros k Hkj. apply Hk. lia.
Qed.
End Retry.

(** ** The listener *)

(** One connection: what connecting and LISTEN answer, the notifications that arrive
    ([false] is [n == nil]), and the error that ends it, [None] on shutdown. *)
Record connection := mkConnection {
  cn_connect : option GoErr;
  cn_listen : option GoErr;
  cn_notes : list bool;
  cn_end : option GoErr
}.

Definition notified (note : bool) (active : Active) : Active := if note then kickAll active else active.

Definition runListener (c : connection) (active : Active) : option GoErr * Active :=
  match cn_connect c with
  | Some e => (Some (GWrap "pgx connect" e), active)
  | None =>
    match cn_listen c with
    | Some e => (Some (GWrap "LISTEN ipam_changes" e), active)
    | None =>
      let active := kickAll active in
      let active := foldl (fun a n => notified n a) active (cn_notes c) in
      (option_map (GWrap "WaitForNotification") (cn_end c), active)
    end
  end.

Section Listener.
(** [errors.Is(err, context.Canceled)]; whether the process is shut down before an
    attempt, or during the wait after it; and the connections. *)
Context (IsCanceled : GoErr -> bool) (down : nat -> bool) (downWaiting : nat -> bool) (conn : nat -> connection).

(** The attempts made, the waits between them, and whether the loop returned: [n]
    rounds of it. *)
Fixpoint listen_loop (n i : nat) (backoff : Z) (active : Active) : list Z * bool * Active :=
  match n with
  | O => ([], false, active)
  | S n =>
    if down i then ([], true, active)
    else
      match runListener (conn i) active with
      | (None, active) => ([], true, active)
      | (Some e, active) =>
        if IsCanceled e then ([], true, active)
        else if downWaiting i then ([], true, active)
        else
          let '(waits, stopped, active) := listen_loop n (S i) (next_backoff backoff) active in
          (backoff :: waits, stopped, active)
      end
  end.

(** [dsn] empty: no listener. *)
Definition startListener (dsn : string) (n : nat) (active : Active) : list Z * bool * Active :=
  if String.eqb dsn "" then ([], true, active) else listen_loop n O listenerMinReconnect active.
End Listener.

(** The wait after [k] failures in a row. *)
Definition backoff_after (k : nat) : Z := Z.min listenerMaxReconnect (listenerMinReconnect * 2 ^ Z.of_nat k).

Lemma next_backoff_after k : next_backoff (backoff_after k) = backoff_after (S k).
Proof.
  unfold next_backoff, backoff_after, listenerMaxReconnect, listenerMinReconnect, second. cbv zeta.
  rewrite Nat2Z.inj_succ, Z.pow_succ_r by lia. pose proof (Z.pow_pos_nonneg 2 (Z.of_nat k) ltac:(lia) ltac:(lia)).
  repeat case_match; zbool; lia.
Qed.

(** Watches that a kick has reached. *)
Definition all_kicked (active : Active) : Prop := forall i w, active !! i = Some w -> w_kick w = true.

Lemma kickAll_kicks active : all_kicked (kickAll active).
Proof. intros i w. unfold kickAll. rewrite lookup_fmap. destruct (active !! i) as [w0|]; [|done]. by intros [= <-]. Qed.

Lemma kicked_notes notes : forall active, all_kicked active -> all_kicked (foldl (fun a n => notified n a) active notes).
Proof. induction notes as [|n notes IH]; intros active H; [done|]. cbn. apply IH. unfold notified. destruct n; [apply kickAll_kicks | done]. Qed.

Lemma runListener_kicks c active :
  cn_connect c = None -> cn_listen c = None -> all_kicked (runListener c active).2.
Proof. intros Hc Hl. unfold runListener. rewrite Hc, Hl. cbn. apply kicked_notes, kickAll_kicks. Qed.

Section Listening.
Context (IsCanceled : GoErr -> bool) (down downWaiting : nat -> bool) (conn : nat -> connection).

(** Attempt [i] fails, and the process is up. *)
Definition lost (i : nat) : Prop :=
  down i = false /\ downWaiting i = false
  /\ forall active, exists e, (runListener (conn i) active).1 = Some e /\ IsCanceled e = false.

Lemma listen_loop_lost n : forall i k active, (forall j, (i <= j < i + n)%nat -> lost j) ->
  (listen_loop IsCanceled down downWaiting conn n i (backoff_after k) active).1
  = (map backoff_after (seq k n), false).
Proof.
  induction n as [|n IH]; intros i k active Hl; [done|]. cbn [listen_loop].
  destruct (Hl i ltac:(lia)) as (Hd & Hdw & Hr). destruct (Hr active) as (e & He & Hc). rewrite Hd.
  destruct (runListener (conn i) active) as [r a1] eqn:Er. cbn in He. subst r. rewrite Hc, Hdw, next_backoff_after.
  specialize (IH (S i) (S k) a1 ltac:(intros j Hj; apply Hl; lia)).
  destruct (listen_loop _ _ _ _ n (S i) (backoff_after (S k)) a1) as [[waits stopped] a2]. cbn in IH. injection IH as -> ->. done.
Qed.
End Listening.

(** A process that stays up never stops listening: while every connection is lost it
    keeps opening another, after one second, then two, and so on, and never after more
    than thirty. *)
Theorem listener_never_gives_up IsCanceled down downWaiting conn dsn n active :
  dsn <> "" -> (forall i, (i < n)%nat -> lost IsCanceled down downWaiting conn i) ->
  let '(waits, stopped, _) := startListener IsCanceled down downWaiting conn dsn n active in
  stopped = false /\ length waits = n
  /\ (forall k, (k < n)%nat -> waits !! k = Some (backoff_after k))
  /\ Forall (fun w => listenerMinReconnect <= w <= listenerMaxReconnect) waits.
Proof.
  intros Hdsn Hl. unfold startListener. destruct (String.eqb_spec dsn "") as [|_]; [done|].
  pose proof (listen_loop_lost IsCanceled down downWaiting conn n O O active ltac:(intros j Hj; apply Hl; lia)) as H.
  change (backoff_after 0) with listenerMinReconnect in H.
  destruct (listen_loop _ _ _ _ n O listenerMinReconnect active) as [[waits stopped] a]. cbn in H. injection H as -> ->.
  split_and!; [done | by rewrite length_map, length_seq | |].
  - intros k Hk. rewrite list_lookup_fmap, lookup_seq_lt by done. done.
  - apply Forall_map, Forall_forall. intros k _. unfold backoff_after, listenerMaxReconnect, listenerMinReconnect, second.
    pose proof (Z.pow_pos_nonneg 2 (Z.of_nat k) ltac:(lia) ltac:(lia)). lia.
Qed.

Lemma listener_never_gives_up_witness :
  let down := mkConnection (Some (GText "refused")) None [] None in
  let '(waits, stopped, _) := startListener (fun _ => false) (fun _ => false) (fun _ => false) (fun _ => down) "postgres://" 7 ∅ in
  stopped = false /\ length waits = 7%nat
  /\ (forall k, (k < 7)%nat -> waits !! k = Some (backoff_after k))
  /\ Forall (fun w => listenerMinReconnect <= w <= listenerMaxReconnect) waits.
Proof.
  intros down. apply (listener_never_gives_up (fun _ => false) (fun _ => false) (fun _ => false) (fun _ => down) "postgres://" 7 ∅); [discriminate|].
  intros i _. split; [reflexivity|]. split; [reflexivity|]. intros active. by eexists.
Defined.

Example listener_waits :
  (startListener (fun _ => false) (fun _ => false) (fun _ => false)
     (fun _ => mkConnection None None [true] (Some (GText "reset"))) "postgres://" 7 ∅).1.1
  = map (fun s => s * second) [1; 2; 4; 8; 16; 30; 30].
Proof. vm_compute. reflexivity. Qed.

(** ** Selector indexes: [internal/fieldindex] and the strategies' lists *)

Record FieldIndex := mkFieldIndex { fi_IndexName : string; fi_Expression : string }.

Definition data_index (name path kind : string) : FieldIndex :=
  mkFieldIndex name ("((ipam_data_to_jsonb(data) -> " +:+ path +:+ ")) WHERE kind = '" +:+ kind +:+ "'").

Definition claim_FieldIndexes : list FieldIndex :=
  [ data_index "idx_ipam_ipclaim_class_name" "'spec' ->> 'className'" "IPClaim";
    data_index "idx_ipam_ipclaim_status_pool_ref_name" "'status' -> 'poolRef' ->> 'name'" "IPClaim" ].

Definition allocation_FieldIndexes : list FieldIndex :=
  [ data_index "idx_ipam_ipallocation_ip_family" "'spec' ->> 'ipFamily'" "IPAllocation";
    data_index "idx_ipam_ipallocation_pool_ref_name" "'spec' -> 'poolRef' ->> 'name'" "IPAllocation" ].

Definition pool_FieldIndexes : list FieldIndex :=
  [ data_index "idx_ipam_ippool_ip_family" "'spec' ->> 'ipFamily'" "IPPool";
    data_index "idx_ipam_ippool_parent_pool_ref_name" "'spec' -> 'parentPoolRef' ->> 'name'" "IPPool" ].

Definition class_FieldIndexes : list FieldIndex :=
  [ data_index "idx_ipam_ipclass_ip_family" "'spec' ->> 'ipFamily'" "IPClass";
    data_index "idx_ipam_ipclass_parent_class_name" "'spec' ->> 'parentClassName'" "IPClass";
    data_index "idx_ipam_ipclass_source_project" "'spec' -> 'source' ->> 'project'" "IPClass" ].

Definition AllFieldIndexes : list FieldIndex :=
  claim_FieldIndexes ++ allocation_FieldIndexes ++ pool_FieldIndexes ++ class_FieldIndexes.

(** The statements sent, and the error; [exec] is the database's answer to one. *)
Fixpoint SyncIndexes (exec : string -> option GoErr) (indexes : list FieldIndex) : list string * option GoErr :=
  match indexes with
  | [] => ([], None)
  | idx :: rest =>
    let stmt := "CREATE INDEX IF NOT EXISTS " +:+ fi_IndexName idx +:+ " ON ipam_objects " +:+ fi_Expression idx in
    match exec stmt with
    | Some e => ([stmt], Some (GWrap ("sync index " +:+ fi_IndexName idx) e))
    | None => let '(stmts, err) := SyncIndexes exec rest in (stmt :: stmts, err)
    end
  end.

Lemma index_names_unique : NoDup (map fi_IndexName AllFieldIndexes).
Proof. apply (bool_decide_unpack _). vm_compute. reflexivity. Qed.

(** The sync stops at the first index that cannot be created: when the database
    refuses one, none after it is asked for. *)
Theorem sync_stops_at_failure exec a idx b e :
  (forall i, i ∈ a -> exec ("CREATE INDEX IF NOT EXISTS " +:+ fi_IndexName i +:+ " ON ipam_objects " +:+ fi_Expression i) = None) ->
  exec ("CREATE INDEX IF NOT EXISTS " +:+ fi_IndexName idx +:+ " ON ipam_objects " +:+ fi_Expression idx) = Some e ->
  length (SyncIndexes exec (a ++ idx :: b)).1 = S (length a)
  /\ (SyncIndexes exec (a ++ idx :: b)).2 = Some (GWrap ("sync index " +:+ fi_IndexName idx) e).
Proof.
  intros Ha He. induction a as [|i a IH]; cbn [app SyncIndexes]; [by rewrite He|].
  rewrite Ha by left. destruct IH as [Hl Hr]; [intros j Hj; apply Ha; by right|].
  destruct (SyncIndexes exec (a ++ idx :: b)) as [stmts err]. cbn in *. by rewrite Hl.
Qed.

Lemma sync_stops_at_failure_witness :
  let exec := fun s => if HasPrefix s "CREATE INDEX IF NOT EXISTS idx_ipam_ipclaim_class_name" then Some (GText "timeout") else None in
  length (SyncIndexes exec AllFieldIndexes).1 = 1%nat
  /\ (SyncIndexes exec AllFieldIndexes).2 = Some (GWrap "sync index idx_ipam_ipclaim_class_name" (GText "timeout")).
Proof.
  intros exec. apply (sync_stops_at_failure exec [] (data_index "idx_ipam_ipclaim_class_name" "'spec' ->> 'className'" "IPClaim")
    (tail AllFieldIndexes)); [by intros i ?%elem_of_nil | reflexivity].
Defined.
