(* ===== verification/Store.v ===== *)
(** * Store: [internal/storage/postgres]

    [storage.Interface] over [ipam_objects] and [ipam_changelog].  A transaction
    restores the tables when it fails and keeps what it drew from the sequences,
    as PostgreSQL does.  The codec, the versioner, the metadata accessor and JSON
    are library code and parameters; [fails] says which statements fail.

    An instance of [StoreDb] is what one transaction sees; other writers act
    between the statements of a request that opens no transaction. *)

From Stdlib Require Import Ascii String.
From S2P Require Import Prelude Text.
From S2P Require Import Tenant Class Changelog Watch.
Open Scope string_scope.
Open Scope list_scope.
Open Scope Z_scope.

(** ** Tables and transactions *)

Record Tables := mkTables { t_objects : gmap string StoredRow; t_log : list LogRow }.

(** [sd_rv] and [sd_id] are the last values of the two sequences. *)
Record StoreDb := mkStore { sd_tables : Tables; sd_rv : Z; sd_id : Z }.

Inductive StorageErr (E : Type) :=
| ErrInternal
| ErrKeyExists (key : string)
| ErrKeyNotFound (key : string)
| ErrCtx                          (* the request's context ended *)
| ErrCallback (e : E).            (* what a callback of the caller returned *)
Arguments ErrInternal {E}.
Arguments ErrKeyExists {E} key.
Arguments ErrKeyNotFound {E} key.
Arguments ErrCtx {E}.
Arguments ErrCallback {E} e.

(** The statements of a transaction, each of which may fail. *)
Inductive Stmt := StBegin | StRead | StNextRv | StWrite | StLog | StCommit.

(** ** The codec, [codec.go] *)

(** What the Kubernetes libraries do with an object. *)
Record Codec (Object : Type) := mkCodec {
  cd_Encode : Object -> option string;
  cd_Decode : string -> option Object;
  cd_UpdateObject : Object -> Z -> option Object;              (* the versioner *)
  cd_Accessor : Object -> option (string * string);            (* namespace and name *)
  cd_Labels : Object -> option string;                         (* labels as JSON, when there are any *)
  cd_JsonKind : string -> option string;                       (* the document's kind *)
  cd_ObjectKind : Object -> string;                            (* TypeMeta's kind *)
  cd_Zero : Object                                             (* a zero value *)
}.
Arguments mkCodec {Object} _ _ _ _ _ _ _ _.
Arguments cd_Encode {Object} _ _.
Arguments cd_Decode {Object} _ _.
Arguments cd_UpdateObject {Object} _ _ _.
Arguments cd_Accessor {Object} _ _.
Arguments cd_Labels {Object} _ _.
Arguments cd_JsonKind {Object} _ _.
Arguments cd_ObjectKind {Object} _ _.
Arguments cd_Zero {Object} _.

Section Store.
Context {Object E : Type}.
Context (cd : Codec Object).
Context (IsConflict : E -> bool).                 (* storage.IsConflict on a callback's error *)
(** Foreign keys of the allocation tables that refuse a delete. *)
Context (delete_refused : Tables -> string -> bool).

Abbreviation StorageErr := (StorageErr E).

(** A transaction's body: it may fail at any point, with the state so far. *)
Definition Tx (A : Type) : Type := StoreDb -> StoreDb * result StorageErr A.

#[local] Instance tx_ret : MRet Tx := fun A a d => (d, Ok a).
#[local] Instance tx_bind : MBind Tx := fun A B k m d =>
  match m d with (d', Ok a) => k a d' | (d', Err e) => (d', Err e) end.

Definition abort {A} (e : StorageErr) : Tx A := fun d => (d, Err e).
Definition orInternal {A} (o : option A) : Tx A :=
  match o with Some a => mret a | None => abort ErrInternal end.
Definition stmt {A} (f : StoreDb -> StoreDb * result StorageErr A) : Tx A := f.
Definition select {A} (f : Tables -> A) : Tx A := fun d => (d, Ok (f (sd_tables d))).
Definition update (f : Tables -> Tables) : Tx unit :=
  fun d => (mkStore (f (sd_tables d)) (sd_rv d) (sd_id d), Ok tt).
Definition guard (fails : Stmt -> bool) (s : Stmt) : Tx unit :=
  if fails s then abort ErrInternal else mret tt.

(** [BeginTx], the body, [Commit]; the deferred [Rollback] on every error. *)
Definition transaction {A} (fails : Stmt -> bool) (body : Tx A) : Tx A := fun d =>
  if fails StBegin then (d, Err ErrInternal)
  else
    let '(d', r) := body d in
    let rolled_back := mkStore (sd_tables d) (sd_rv d') (sd_id d') in
    match r with
    | Err e => (rolled_back, Err e)
    | Ok a => if fails StCommit then (rolled_back, Err ErrInternal) else (d', Ok a)
    end.

(** *** [codec.go] *)

Definition decode (data : string) (rv : Z) : option Object :=
  match cd_Decode cd data with
  | None => None
  | Some obj => cd_UpdateObject cd obj rv
  end.

Definition labelsJSON (obj : Object) : string := default "{}" (cd_Labels cd obj).

Definition kindFromData (data : string) (obj : Object) : string :=
  match cd_JsonKind cd data with
  | Some k => if String.eqb k "" then cd_ObjectKind cd obj else k
  | None => cd_ObjectKind cd obj
  end.

Definition extractMetadata (obj : Object) (data : string) : string * string * string :=
  let '(ns, name) := default ("", "") (cd_Accessor cd obj) in (kindFromData data obj, ns, name).

Definition matchesPredicate (predicate : option (Object -> option bool)) (obj : Object) : option bool :=
  match predicate with None => Some true | Some p => p obj end.

(** [writeChangelog]: the row takes the next id and the transaction's own. *)
Definition writeChangelog (fails : Stmt -> bool) (xid now : Z) (key : string) (rv : Z) (eventType data : string) : Tx unit :=
  guard fails StLog;;
  stmt (fun d =>
    let id := sd_id d + 1 in
    let t := sd_tables d in
    (mkStore (mkTables (t_objects t) (t_log t ++ [mkLog id key rv eventType (Some data) xid now])) (sd_rv d) id, Ok tt)).

(** *** Versions *)

Definition nextResourceVersion (fails : Stmt -> bool) : Tx Z :=
  guard fails StNextRv;;
  stmt (fun d => (mkStore (sd_tables d) (sd_rv d + 1) (sd_id d), Ok (sd_rv d + 1))).

Definition currentResourceVersion (xmin : Z) (t : Tables) : Z :=
  Z.max (Z.max (max_rv (map (fun kr => so_rv kr.2) (map_to_list (t_objects t))))
               (max_rv (map lg_rv (List.filter (fun r => lg_xid r <? xmin) (t_log t))))) 1.

Definition validateKey (key : string) : bool := negb (String.eqb key "").

(** *** [Create] *)

Definition put_row (key : string) (row : StoredRow) (t : Tables) : Tables :=
  mkTables (<[key := row]> (t_objects t)) (t_log t).

Definition Create_tx (fails : Stmt -> bool) (xid now : Z) (key : string) (obj : Object) : Tx (string * Z) :=
  rv ← nextResourceVersion fails;
  obj ← orInternal (cd_UpdateObject cd obj rv);
  data ← orInternal (cd_Encode cd obj);
  let '(kind, ns, name) := extractMetadata obj data in
  guard fails StWrite;;
  taken ← select (fun t => bool_decide (is_Some (t_objects t !! key)));
  (if taken : bool then abort (ErrKeyExists key) else mret tt);;
  update (put_row key (mkStored rv kind ns name data (labelsJSON obj)));;
  writeChangelog fails xid now key rv "ADDED" data;;
  mret (data, rv).

Definition Create (id : Identity) (fails : Stmt -> bool) (xid now : Z) (key : string) (obj : Object) : Tx Object :=
  if negb (validateKey key) then abort ErrInternal
  else
    let key := ApplyPrefix id key in
    r ← transaction fails (Create_tx fails xid now key obj);
    orInternal (decode r.1 r.2).

(** *** [Delete] *)

Definition drop_row (key : string) (t : Tables) : Tables := mkTables (delete key (t_objects t)) (t_log t).

Definition callback (r : option E) : Tx unit :=
  match r with Some e => abort (ErrCallback e) | None => mret tt end.

(** [preconditions] and [validateDeletion] answer the error they raise. *)
Definition Delete_tx (fails : Stmt -> bool) (xid now : Z) (key : string)
    (preconditions validateDeletion : Object -> option E) : Tx (string * Z) :=
  guard fails StRead;;
  row ← select (fun t => t_objects t !! key);
  match row with
  | None => abort (ErrKeyNotFound key)
  | Some row =>
    existing ← orInternal (cd_Decode cd (so_data row));
    callback (preconditions existing);;
    callback (validateDeletion existing);;
    rv ← nextResourceVersion fails;
    guard fails StWrite;;
    refused ← select (fun t => delete_refused t key);
    (if refused : bool then abort ErrInternal else mret tt);;
    update (drop_row key);;
    writeChangelog fails xid now key rv "DELETED" (so_data row);;
    mret (so_data row, so_rv row)
  end.

Definition Delete (id : Identity) (fails : Stmt -> bool) (xid now : Z) (key : string)
    (preconditions validateDeletion : Object -> option E) : Tx Object :=
  if negb (validateKey key) then abort ErrInternal
  else
    let key := ApplyPrefix id key in
    r ← transaction fails (Delete_tx fails xid now key preconditions validateDeletion);
    orInternal (decode r.1 r.2).

(** *** [Get] and [GetList] *)

Definition Get (id : Identity) (key : string) (ignoreNotFound : bool) (t : Tables) : result StorageErr Object :=
  if negb (validateKey key) then Err ErrInternal
  else
    let key := ApplyPrefix id key in
    match t_objects t !! key with
    | None => if ignoreNotFound then Ok (cd_Zero cd) else Err (ErrKeyNotFound key)
    | Some row => match decode (so_data row) (so_rv row) with Some o => Ok o | None => Err ErrInternal end
    end.

Definition by_key (a b : string * StoredRow) : Prop := str_le a.1 b.1.

#[local] Instance by_key_dec : RelDecision by_key.
Proof. intros a b. unfold by_key. apply _. Defined.

(** The rows of the list query. *)
Definition list_rows (id : Identity) (key : string) (recursive : bool) (t : Tables) : list (string * StoredRow) :=
  if recursive
  then merge_sort by_key
         (List.filter (fun kr => like (ApplyPrefix id (dir_of key) +:+ "%") kr.1) (map_to_list (t_objects t)))
  else match t_objects t !! ApplyPrefix id key with
       | Some row => [(ApplyPrefix id key, row)]
       | None => []
       end.

Fixpoint list_items (predicate : option (Object -> option bool)) (rows : list (string * StoredRow))
  : result StorageErr (list Object) :=
  match rows with
  | [] => Ok []
  | (_, row) :: rest =>
    match decode (so_data row) (so_rv row) with
    | None => Err ErrInternal
    | Some obj =>
      match matchesPredicate predicate obj with
      | None => Err ErrInternal
      | Some keep =>
        match list_items predicate rest with
        | Err e => Err e
        | Ok items => Ok (if keep then obj :: items else items)
        end
      end
    end
  end.

(** The list query sees [t1]; the version is read by a later statement, which
    sees [t2] under the horizon [xmin2]. *)
Definition GetList (id : Identity) (key : string) (recursive : bool) (predicate : option (Object -> option bool))
    (t1 : Tables) (xmin2 : Z) (t2 : Tables) : result StorageErr (list Object * Z) :=
  match list_items predicate (list_rows id key recursive t1) with
  | Err e => Err e
  | Ok items => Ok (items, currentResourceVersion xmin2 t2)
  end.

(** *** [GuaranteedUpdate] *)

(** [tryUpdate] sees the object and its version; it answers the new object or an
    error. *)
Definition guaranteedUpdateOnce (fails : Stmt -> bool) (xid now : Z) (key : string) (ignoreNotFound : bool)
    (preconditions : Object -> option E) (tryUpdate : Object -> Z -> Object + E) : Tx (string * Z) :=
  transaction fails
    (guard fails StRead;;
     row ← select (fun t => t_objects t !! key);
     existing ←
       match row with
       | None => if ignoreNotFound then mret (cd_Zero cd) else abort (ErrKeyNotFound key)
       | Some row =>
         obj ← orInternal (cd_Decode cd (so_data row));
         orInternal (cd_UpdateObject cd obj (so_rv row))
       end;
     callback (preconditions existing);;
     let existingRV := match row with Some row => so_rv row | None => 0 end in
     match tryUpdate existing existingRV with
     | inr e => abort (ErrCallback e)
     | inl ret =>
       newData ← orInternal (cd_Encode cd ret);
       if match row with Some row => String.eqb (so_data row) newData | None => false end
       then mret (newData, existingRV)
       else
         rv ← nextResourceVersion fails;
         ret ← orInternal (cd_UpdateObject cd ret rv);
         data ← orInternal (cd_Encode cd ret);
         let '(kind, ns, name) := extractMetadata ret data in
         guard fails StWrite;;
         update (put_row key (mkStored rv kind ns name data (labelsJSON ret)));;
         writeChangelog fails xid now key rv (match row with Some _ => "MODIFIED" | None => "ADDED" end) data;;
         mret (data, rv)
     end).

(** Durations in nanoseconds. *)
Definition millisecond : Z := 1000000.
Definition guaranteedUpdateMaxBackoff : Z := 640 * millisecond.
Definition fallbackMaxAttempts : nat := 10.

Definition grow_backoff (backoff : Z) : Z :=
  if backoff * 2 <? guaranteedUpdateMaxBackoff then backoff * 2 else guaranteedUpdateMaxBackoff.

(** What one attempt meets: the writers before it, the statements that fail, its
    transaction id and time, the time left when it fails ([None]: no deadline),
    and whether the context ends during the wait. *)
Record Attempt := mkAttempt {
  at_others : StoreDb -> StoreDb;
  at_fails : Stmt -> bool;
  at_xid : Z;
  at_now : Z;
  at_remaining : option Z;
  at_cancelled : bool
}.

Definition is_conflict (e : StorageErr) : bool :=
  match e with ErrCallback e => IsConflict e | _ => false end.

(** The loop: [None] when it would attempt once more than [envs] provides. *)
Fixpoint update_loop (key : string) (ignoreNotFound : bool) (preconditions : Object -> option E)
    (tryUpdate : Object -> Z -> Object + E) (attempt : nat) (backoff : Z) (envs : list Attempt) (d : StoreDb)
  : option (StoreDb * result StorageErr Object) :=
  match envs with
  | [] => None
  | env :: envs =>
    let '(d, r) := guaranteedUpdateOnce (at_fails env) (at_xid env) (at_now env) key ignoreNotFound
                     preconditions tryUpdate (at_others env d) in
    match r with
    | Ok (data, rv) => Some (d, match decode data rv with Some o => Ok o | None => Err ErrInternal end)
    | Err e =>
      if negb (is_conflict e) then Some (d, Err e)
      else if match at_remaining env with
              | Some remaining => remaining <? backoff + 100 * millisecond
              | None => (fallbackMaxAttempts <=? attempt)%nat
              end
      then Some (d, Err e)
      else if at_cancelled env then Some (d, Err ErrCtx)
      else update_loop key ignoreNotFound preconditions tryUpdate (S attempt) (grow_backoff backoff) envs d
    end
  end.

Definition GuaranteedUpdate (id : Identity) (key : string) (ignoreNotFound : bool)
    (preconditions : Object -> option E) (tryUpdate : Object -> Z -> Object + E) (envs : list Attempt)
    (d : StoreDb) : option (StoreDb * result StorageErr Object) :=
  if negb (validateKey key) then Some (d, Err ErrInternal)
  else update_loop (ApplyPrefix id key) ignoreNotFound preconditions tryUpdate 0 (10 * millisecond) envs d.

(** *** The rest *)

Definition Stats (t : Tables) : Z := Z.of_nat (size (t_objects t)).

Definition GetCurrentResourceVersion (xmin : Z) (t : Tables) : Z := currentResourceVersion xmin t.

Definition CompactRevision : Z := 0.

Definition RequestWatchProgress (xmin : Z) (t : Tables) (active : Active) : Active :=
  NotifyProgress (currentResourceVersion xmin t) active.

End Store.
