(* ===== verification/StoreLaws.v ===== *)
(** * StoreLaws: what the store keeps and promises

    Whatever operations run and however they fail, replaying the changelog gives
    the objects; what is created can be read back; an update is retried a bounded
    number of times; a list is confined to its tenant.  The list's version is read
    after its rows, and the last theorem is the history in which that costs a
    client an event. *)

From Stdlib Require Import Ascii String.
From S2P Require Import Prelude Text.
From S2P Require Import Tenant Class Changelog Watch.
From S2P Require Import WatchStream Store.
Open Scope string_scope.
Open Scope list_scope.
Open Scope Z_scope.

(** ** The changelog replays to the table *)

Definition image (o : gmap string StoredRow) : gmap string (Z * string) :=
  (fun row => (so_rv row, so_data row)) <$> o.

Definition replay_row (m : gmap string (Z * string)) (r : LogRow) : gmap string (Z * string) :=
  if String.eqb (lg_event r) "DELETED" then delete (lg_key r) m
  else match lg_data r with
       | Some data => <[lg_key r := (lg_rv r, data)]> m
       | None => m
       end.

Definition replay (l : list LogRow) : gmap string (Z * string) := foldl replay_row ∅ l.

Record store_ok (d : StoreDb) : Prop := mkStoreOk {
  ok_replay : replay (t_log (sd_tables d)) = image (t_objects (sd_tables d));
  ok_rvs : forall r, r ∈ t_log (sd_tables d) -> lg_rv r <= sd_rv d /\ lg_id r <= sd_id d;
  ok_ids : ids_unique (t_log (sd_tables d));
  ok_versions : NoDup (map lg_rv (t_log (sd_tables d)))
}.

Definition empty_store : StoreDb := mkStore (mkTables ∅ []) 0 0.

Lemma empty_store_ok : store_ok empty_store.
Proof. split; [done | | constructor..]. intros r Hr. by apply not_elem_of_nil in Hr. Qed.

(** What a committed operation did to the tables. *)
Inductive effect (d d' : StoreDb) : Prop :=
| effect_none : sd_tables d' = sd_tables d -> effect d d'
| effect_put key row event xid now rv id :
  event <> "DELETED" -> sd_rv d < rv <= sd_rv d' -> sd_id d < id <= sd_id d' -> so_rv row = rv ->
  sd_tables d' = mkTables (<[key := row]> (t_objects (sd_tables d)))
                   (t_log (sd_tables d) ++ [mkLog id key rv event (Some (so_data row)) xid now]) ->
  effect d d'
| effect_drop key data xid now rv id :
  sd_rv d < rv <= sd_rv d' -> sd_id d < id <= sd_id d' ->
  sd_tables d' = mkTables (delete key (t_objects (sd_tables d)))
                   (t_log (sd_tables d) ++ [mkLog id key rv "DELETED" (Some data) xid now]) ->
  effect d d'.

Definition seqs_grow (d d' : StoreDb) : Prop := sd_rv d <= sd_rv d' /\ sd_id d <= sd_id d'.

Lemma replay_snoc l r : replay (l ++ [r]) = replay_row (replay l) r.
Proof. unfold replay. by rewrite foldl_app. Qed.

Lemma log_grows d d' r :
  store_ok d -> seqs_grow d d' -> sd_rv d < lg_rv r <= sd_rv d' -> sd_id d < lg_id r <= sd_id d' ->
  t_log (sd_tables d') = t_log (sd_tables d) ++ [r] ->
  (forall q, q ∈ t_log (sd_tables d') -> lg_rv q <= sd_rv d' /\ lg_id q <= sd_id d')
  /\ ids_unique (t_log (sd_tables d')) /\ NoDup (map lg_rv (t_log (sd_tables d'))).
Proof.
  intros [_ Hb Hi Hv] [Hs1 Hs2] Hrv Hid ->. split_and!.
  - intros q [Hq | ->%list_elem_of_singleton]%elem_of_app; [destruct (Hb q Hq); lia | lia].
  - unfold ids_unique. rewrite map_app. apply NoDup_app. split_and!; [done | | apply NoDup_singleton].
    intros i (q & Hq & <-)%in_ids_inv E%list_elem_of_singleton. destruct (Hb q Hq). lia.
  - rewrite map_app. apply NoDup_app. split_and!; [done | | apply NoDup_singleton].
    intros v (q & -> & Hq)%list_elem_of_fmap E%list_elem_of_singleton. destruct (Hb q Hq). lia.
Qed.

Lemma effect_ok d d' : store_ok d -> seqs_grow d d' -> effect d d' -> store_ok d'.
Proof.
  intros Hok Hg He. destruct He as [Ht | key row event xid now rv id Hev Hrv Hid Hrow Ht
                                   | key data xid now rv id Hrv Hid Ht].
  - destruct Hok as [H1 H2 H3 H4]. destruct Hg. split; rewrite Ht; try done.
    intros r Hr. destruct (H2 r Hr). lia.
  - edestruct (log_grows d d' (mkLog id key rv event (Some (so_data row)) xid now)) as (H2 & H3 & H4);
      [done | done | exact Hrv | exact Hid | by rewrite Ht|].
    split; [|done..]. rewrite Ht. cbn [t_log t_objects].
    rewrite replay_snoc, (ok_replay d Hok). unfold replay_row. cbn [lg_event lg_data lg_key lg_rv].
    rewrite (proj2 (String.eqb_neq _ _) Hev). unfold image. by rewrite fmap_insert, Hrow.
  - edestruct (log_grows d d' (mkLog id key rv "DELETED" (Some data) xid now)) as (H2 & H3 & H4);
      [done | done | exact Hrv | exact Hid | by rewrite Ht|].
    split; [|done..]. rewrite Ht. cbn [t_log t_objects].
    rewrite replay_snoc, (ok_replay d Hok). unfold replay_row. cbn [lg_event lg_key String.eqb].
    unfold image. by rewrite fmap_delete.
Qed.

Section Laws.
Context {Object E : Type}.
Context (cd : Codec Object) (IsConflict : E -> bool) (delete_refused : Tables -> string -> bool).

#[local] Existing Instance tx_ret.
#[local] Existing Instance tx_bind.

(** A transaction in progress: begun at [base], nothing written yet, and perhaps a
    version drawn. *)
Definition in_progress (base : StoreDb) (drawn : option Z) (d : StoreDb) : Prop :=
  seqs_grow base d /\ sd_tables d = sd_tables base
  /\ match drawn with Some rv => sd_rv base < rv <= sd_rv d | None => True end.

(** The rest of a transaction: the sequences only move forward, and when it
    succeeds the whole transaction has made one write or none. *)
Definition sound {A} (base : StoreDb) (drawn : option Z) (m : Tx (E:=E) A) : Prop :=
  forall d d' r, in_progress base drawn d -> m d = (d', r) ->
                 seqs_grow base d' /\ (forall a, r = Ok a -> effect base d').

(** A step that does not touch the tables. *)
Definition passive {A} (m : Tx (E:=E) A) : Prop :=
  forall d d' r, m d = (d', r) -> seqs_grow d d' /\ sd_tables d' = sd_tables d.

Lemma seqs_refl d : seqs_grow d d.
Proof. split; lia. Qed.
Lemma seqs_trans a b d : seqs_grow a b -> seqs_grow b d -> seqs_grow a d.
Proof. unfold seqs_grow. lia. Qed.

Lemma passive_ret {A} (a : A) : passive (mret a).
Proof. intros d d' r [= <- <-]. split; [apply seqs_refl | done]. Qed.
Lemma passive_abort {A} e : passive (A:=A) (abort e).
Proof. intros d d' r [= <- <-]. split; [apply seqs_refl | done]. Qed.
Lemma passive_select {A} (f : Tables -> A) : passive (select f).
Proof. intros d d' r [= <- <-]. split; [apply seqs_refl | done]. Qed.
Lemma passive_orInternal {A} (o : option A) : passive (orInternal o).
Proof. destruct o; [apply passive_ret | apply passive_abort]. Qed.
Lemma passive_guard fails s : passive (guard fails s).
Proof. unfold guard. destruct (fails s); [apply passive_abort | apply passive_ret]. Qed.
Lemma passive_callback (r : option E) : passive (callback r).
Proof. destruct r; [apply passive_abort | apply passive_ret]. Qed.
Lemma passive_bind {A B} (m : Tx A) (k : A -> Tx B) : passive m -> (forall a, passive (k a)) -> passive (m ≫= k).
Proof.
  intros Hm Hk d d' r H. unfold mbind, tx_bind in H. destruct (m d) as [d1 [a|e]] eqn:Em.
  - destruct (Hm _ _ _ Em) as [? Et], (Hk a _ _ _ H) as [? Et']. split; [by eapply seqs_trans | congruence].
  - injection H as <- <-. by eapply Hm.
Qed.
Lemma passive_next fails : passive (nextResourceVersion fails).
Proof.
  apply passive_bind; [apply passive_guard|]. intros _ d d' r [= <- <-]. split; [split; cbn; lia | done].
Qed.

Lemma in_progress_refl d : in_progress d None d.
Proof. split; [apply seqs_refl | done]. Qed.

Lemma sound_passive {A} base drawn (m : Tx A) : passive m -> sound base drawn m.
Proof.
  intros Hm d d' r (Hg & Ht & _) H. destruct (Hm _ _ _ H) as [Hg' Ht'].
  split; [by eapply seqs_trans|]. intros a _. apply effect_none. congruence.
Qed.

Lemma sound_bind {A B} base drawn (m : Tx A) (k : A -> Tx B) :
  passive m -> (forall a, sound base drawn (k a)) -> sound base drawn (m ≫= k).
Proof.
  intros Hm Hk d d' r (Hg & Ht & Hd) H. unfold mbind, tx_bind in H. destruct (m d) as [d1 [a|e]] eqn:Em;
    destruct (Hm _ _ _ Em) as [Hg1 Ht1].
  - apply (Hk a d1); [|done]. split_and!; [by eapply seqs_trans | congruence |].
    destruct drawn; [|done]. destruct Hg1. lia.
  - injection H as <- <-. split; [by eapply seqs_trans | done].
Qed.

Lemma sound_next {B} base fails (k : Z -> Tx B) :
  (forall rv, sound base (Some rv) (k rv)) -> sound base None (nextResourceVersion fails ≫= k).
Proof.
  intros Hk d d' r (Hg & Ht & _) H.
  unfold nextResourceVersion, guard, stmt, mbind, tx_bind, mret, tx_ret in H.
  destruct (fails StNextRv); cbn in H; [by injection H as <- <-|].
  eapply Hk; [|exact H]. destruct Hg. split_and!; [split; cbn; lia | done | cbn; lia | cbn; lia].
Qed.

(** The write of a row and its log entry. *)
Lemma sound_put base fails xid now key row event (a : string * Z) :
  event <> "DELETED" ->
  sound base (Some (so_rv row))
    (update (put_row key row);; writeChangelog fails xid now key (so_rv row) event (so_data row);; mret a).
Proof.
  intros Hev d d' r ([Hg1 Hg2] & Ht & Hrv) H.
  unfold writeChangelog, guard, update, stmt, mbind, tx_bind, mret, tx_ret, put_row in H. cbn in H.
  destruct (fails StLog); cbn in H; injection H as <- <-; (split; [split; cbn; lia|]); [done|].
  intros b _. eapply (effect_put _ _ key row event xid now); [done | | | done | cbn; by rewrite Ht]; cbn; lia.
Qed.

Lemma sound_drop base fails xid now key data rv (a : string * Z) :
  sound base (Some rv) (update (drop_row key);; writeChangelog fails xid now key rv "DELETED" data;; mret a).
Proof.
  intros d d' r ([Hg1 Hg2] & Ht & Hrv) H.
  unfold writeChangelog, guard, update, stmt, mbind, tx_bind, mret, tx_ret, drop_row in H. cbn in H.
  destruct (fails StLog); cbn in H; injection H as <- <-; (split; [split; cbn; lia|]); [done|].
  intros b _. eapply (effect_drop _ _ key data xid now); [| | cbn; by rewrite Ht]; cbn; lia.
Qed.

Hint Resolve passive_ret passive_abort passive_select passive_orInternal passive_guard passive_callback : ipam.

(** A transaction commits a sound body or changes no table. *)
Lemma transaction_ok {A} fails (m : Tx A) d d' r :
  (forall base, sound base None m) -> transaction fails m d = (d', r) -> store_ok d -> store_ok d'.
Proof.
  intros Hm H Hok. unfold transaction in H. destruct (fails StBegin); [by injection H as <- _|].
  destruct (m d) as [d1 r1] eqn:Em.
  destruct (Hm d _ _ _ (in_progress_refl d) Em) as [Hg He].
  assert (Hback : store_ok (mkStore (sd_tables d) (sd_rv d1) (sd_id d1))).
  { eapply effect_ok; [done | exact Hg | by apply effect_none]. }
  destruct r1 as [a|e]; [|by injection H as <- _].
  destruct (fails StCommit); injection H as <- _; [done|]. exact (effect_ok d d1 Hok Hg (He a eq_refl)).
Qed.

Lemma Create_tx_sound base fails xid now key obj : sound base None (Create_tx cd fails xid now key obj).
Proof.
  unfold Create_tx. apply sound_next. intros rv. apply sound_bind; [auto with ipam|]. intros o.
  apply sound_bind; [auto with ipam|]. intros data. destruct (extractMetadata cd o data) as [[kind ns] name].
  apply sound_bind; [auto with ipam|]. intros []. apply sound_bind; [auto with ipam|]. intros taken.
  apply sound_bind; [destruct taken; auto with ipam|]. intros [].
  apply (sound_put base fails xid now key (mkStored rv kind ns name data (labelsJSON cd o)) "ADDED"). done.
Qed.

Lemma Delete_tx_sound base fails xid now key (pre val : Object -> option E) :
  sound base None (Delete_tx cd delete_refused fails xid now key pre val).
Proof.
  unfold Delete_tx. apply sound_bind; [auto with ipam|]. intros [].
  apply sound_bind; [auto with ipam|]. intros [row|]; [|apply sound_passive; auto with ipam].
  do 3 (apply sound_bind; [auto with ipam|]; intros ?). apply sound_next. intros rv.
  do 2 (apply sound_bind; [auto with ipam|]; intros ?).
  apply sound_bind; [case_match; auto with ipam|]. intros []. apply sound_drop.
Qed.

Lemma guaranteedUpdateOnce_ok fails xid now key ign (pre : Object -> option E) tryU d d' r :
  guaranteedUpdateOnce cd fails xid now key ign pre tryU d = (d', r) -> store_ok d -> store_ok d'.
Proof.
  apply transaction_ok. intros base. apply sound_bind; [auto with ipam|]. intros [].
  apply sound_bind; [auto with ipam|]. intros row.
  apply sound_bind.
  { destruct row; [|destruct ign; auto with ipam]. apply passive_bind; auto with ipam. }
  intros existing. apply sound_bind; [auto with ipam|]. intros _.
  cbv zeta. destruct (tryU existing _) as [ret|e]; [|apply sound_passive; auto with ipam].
  apply sound_bind; [auto with ipam|]. intros newData.
  destruct (match row with Some _ => _ | None => false end); [apply sound_passive; auto with ipam|].
  apply sound_next. intros rv. do 2 (apply sound_bind; [auto with ipam|]; intros ?).
  destruct (extractMetadata cd _ _) as [[kind ns] name]. apply sound_bind; [auto with ipam|]. intros [].
  eapply (sound_put base fails xid now key (mkStored rv kind ns name _ (labelsJSON cd _))).
  by destruct row.
Qed.

(** *** Histories of the store *)

(** One request, whatever it asks for and whatever fails in it. *)
Inductive store_step : StoreDb -> StoreDb -> Prop :=
| step_create id fails xid now key obj d d' r :
  Create (E:=E) cd id fails xid now key obj d = (d', r) -> store_step d d'
| step_delete id fails xid now key (pre val : Object -> option E) d d' r :
  Delete cd delete_refused id fails xid now key pre val d = (d', r) -> store_step d d'
| step_update fails xid now key ign (pre : Object -> option E) tryU d d' r :
  guaranteedUpdateOnce cd fails xid now key ign pre tryU d = (d', r) -> store_step d d'.

Lemma checked_ok {A B} (m : Tx (E:=E) A) (k : A -> option B) d d' r :
  (forall d1 r1, m d = (d1, r1) -> store_ok d -> store_ok d1) ->
  (m ≫= (fun a => orInternal (k a))) d = (d', r) -> store_ok d -> store_ok d'.
Proof.
  intros Hm H Hok. unfold mbind, tx_bind in H. destruct (m d) as [d1 [a|e]] eqn:Em.
  - destruct (passive_orInternal (k a) _ _ _ H) as [Hg Ht]. eapply effect_ok; [by eapply Hm | done|].
    by apply effect_none.
  - injection H as <- _. by eapply Hm.
Qed.

Lemma store_step_ok d d' : store_step d d' -> store_ok d -> store_ok d'.
Proof.
  destruct 1 as [id fails xid now key obj d d' r H | id fails xid now key pre val d d' r H | ? ? ? ? ? ? ? ? ? r H].
  - unfold Create in H. destruct (validateKey key); cbn [negb] in H; [|by injection H as <- _].
    eapply (checked_ok _ (fun r => decode cd r.1 r.2)); [|exact H].
    intros d1 r1. apply transaction_ok. intros. apply Create_tx_sound.
  - unfold Delete in H. destruct (validateKey key); cbn [negb] in H; [|by injection H as <- _].
    eapply (checked_ok _ (fun r => decode cd r.1 r.2)); [|exact H].
    intros d1 r1. apply transaction_ok. intros. apply Delete_tx_sound.
  - by eapply guaranteedUpdateOnce_ok.
Qed.
End Laws.

(** ** Properties of the store *)

(** [C15] Whatever requests the store serves, from an empty database and with any
    statement of them failing, replaying the changelog gives exactly the objects
    with their versions; row ids and resource versions are never reused, and both
    stay at or below their sequences, across rolled-back requests too. *)
Theorem changelog_replays {Object E} (cd : Codec Object) (delete_refused : Tables -> string -> bool) d
    (Hd : rtc (store_step (E:=E) cd delete_refused) empty_store d) : store_ok d.
Proof.
  revert d Hd. apply rtc_ind_r; [exact empty_store_ok|].
  intros d d' _ Hstep IH. by eapply store_step_ok.
Qed.

(** *** Concrete objects: a text, and the version it carries *)

Definition ex_codec : Codec (string * Z) :=
  mkCodec (fun o => Some o.1) (fun d => Some (d, 0)) (fun o rv => Some (o.1, rv))
    (fun o => Some ("", o.1)) (fun _ => None) (fun _ => Some "IPPool") (fun _ => "") ("", 0).

Definition no_failure (_ : Stmt) : bool := false.
Definition nobody : Identity := mkIdentity "" "" "".
Definition ex_key : string := "/ipam.miloapis.com/ippools/p".

Definition ex_created : StoreDb := fst (Create (E:=unit) ex_codec nobody no_failure 1 0 ex_key ("p", 0) empty_store).

Lemma changelog_replays_witness : store_ok ex_created.
Proof.
  apply (changelog_replays (E:=unit) ex_codec (fun _ _ => false)).
  apply rtc_once. eapply (step_create ex_codec (fun _ _ => false) nobody no_failure 1 0 ex_key ("p", 0)).
  unfold ex_created. apply surjective_pairing.
Defined.

(** *** Creating and reading back *)

(** A created object: the draw, the row and the log entry. *)
Lemma Create_run {Object E} (cd : Codec Object) id fails xid now key obj d d' out :
  Create (E:=E) cd id fails xid now key obj d = (d', Ok out) ->
  key <> "" /\ t_objects (sd_tables d) !! ApplyPrefix id key = None
  /\ exists obj' data row,
       cd_UpdateObject cd obj (sd_rv d + 1) = Some obj' /\ cd_Encode cd obj' = Some data
       /\ so_rv row = sd_rv d + 1 /\ so_data row = data
       /\ decode cd data (sd_rv d + 1) = Some out
       /\ d' = mkStore (mkTables (<[ApplyPrefix id key := row]> (t_objects (sd_tables d)))
                          (t_log (sd_tables d) ++
                           [mkLog (sd_id d + 1) (ApplyPrefix id key) (sd_rv d + 1) "ADDED" (Some data) xid now]))
                 (sd_rv d + 1) (sd_id d + 1).
Proof.
  unfold Create, validateKey. destruct (String.eqb_spec key "") as [|Hk]; cbn [negb]; [done|].
  unfold transaction, Create_tx, nextResourceVersion, writeChangelog, guard, stmt, update, select, orInternal,
    mbind, tx_bind, mret, tx_ret.
  destruct (fails StBegin); [done|]. destruct (fails StNextRv); [done|]. cbn.
  destruct (cd_UpdateObject cd obj (sd_rv d + 1)) as [obj'|] eqn:Eu; [|done].
  destruct (cd_Encode cd obj') as [data|] eqn:Ed; [|done].
  destruct (extractMetadata cd obj' data) as [[kind ns] name].
  destruct (fails StWrite); [done|]. cbn.
  case_bool_decide as Ht; [done|]. cbn. destruct (fails StLog); [done|]. cbn.
  destruct (fails StCommit); [done|]. cbn.
  destruct (decode cd data (sd_rv d + 1)) as [o|] eqn:Eo; [|done]. intros [= <- <-].
  split; [done|]. split; [by apply eq_None_not_Some|].
  exists obj', data, (mkStored (sd_rv d + 1) kind ns name data (labelsJSON cd obj')). done.
Qed.

(** What is created can be read back: after a successful create, a read of the
    key by the same tenant answers the object the create answered, and every other
    key is as it was. *)
Theorem Create_Get {Object E} (cd : Codec Object) id fails xid now key obj d d' out ign
    (Hc : Create (E:=E) cd id fails xid now key obj d = (d', Ok out)) :
  Get (E:=E) cd id key ign (sd_tables d') = Ok out
  /\ forall k, k <> ApplyPrefix id key -> t_objects (sd_tables d') !! k = t_objects (sd_tables d) !! k.
Proof.
  destruct (Create_run _ _ _ _ _ _ _ _ _ _ Hc) as (Hk & _ & obj' & data & row & _ & _ & Hrv & Hd & Hdec & ->).
  split; [|intros k Hne; cbn; by rewrite lookup_insert_ne].
  unfold Get, validateKey. destruct (String.eqb_spec key "") as [|_]; [done|]. cbn [negb sd_tables t_objects].
  by rewrite lookup_insert_eq, Hd, Hrv, Hdec.
Qed.

Lemma Create_Get_witness :
  Get (E:=unit) ex_codec nobody ex_key false (sd_tables ex_created) = Ok ("p", 1)
  /\ forall k, k <> ApplyPrefix nobody ex_key ->
       t_objects (sd_tables ex_created) !! k = t_objects (sd_tables empty_store) !! k.
Proof.
  apply (Create_Get (E:=unit) ex_codec nobody no_failure 1 0 ex_key ("p", 0) empty_store ex_created ("p", 1) false).
  reflexivity.
Defined.

(** *** Retries *)

Lemma grow_backoff_min b : 10 * millisecond <= b -> 10 * millisecond <= grow_backoff b.
Proof. unfold grow_backoff, guaranteedUpdateMaxBackoff, millisecond. zcase; lia. Qed.

(** An attempt at which the loop stops retrying, whatever happened. *)
Definition last_attempt (i : nat) (env : Attempt) : Prop :=
  match at_remaining env with
  | Some remaining => remaining < 110 * millisecond
  | None => (fallbackMaxAttempts <= i)%nat
  end.

Lemma update_loop_stops {Object E} cd IsConflict key ign pre (try : Object -> Z -> Object + E) envs :
  forall attempt backoff d i env,
  10 * millisecond <= backoff -> envs !! i = Some env -> last_attempt (attempt + i) env ->
  is_Some (update_loop cd IsConflict key ign pre try attempt backoff envs d).
Proof.
  induction envs as [|e envs IH]; intros attempt backoff d i env Hb Hi Hlast; [done|].
  cbn [update_loop]. destruct (guaranteedUpdateOnce _ _ _ _ _ _ _ _ _) as [d1 [[data rv]|err]]; [by eexists|].
  destruct (negb (is_conflict IsConflict err)); [by eexists|].
  destruct i as [|i].
  - injection Hi as ->. rewrite Nat.add_0_r in Hlast. unfold last_attempt in Hlast.
    destruct (at_remaining env) as [rem|].
    + rewrite (proj2 (Z.ltb_lt _ _)) by (unfold millisecond in *; lia). by eexists.
    + rewrite (proj2 (Nat.leb_le _ _)) by done. by eexists.
  - destruct (match at_remaining e with Some _ => _ | None => _ end); [by eexists|].
    destruct (at_cancelled e); [by eexists|].
    apply (IH (S attempt) (grow_backoff backoff) d1 i env); [by apply grow_backoff_min | done|].
    by replace (S attempt + i)%nat with (attempt + S i)%nat by lia.
Qed.

(** An update ends: without a deadline after at most eleven attempts, however
    often they conflict, and with one after at most an attempt per ten milliseconds
    of the time allowed, since no wait between attempts is shorter. *)
Theorem GuaranteedUpdate_ends {Object E} cd IsConflict id key ign pre (try : Object -> Z -> Object + E)
    envs total d :
  0 <= total ->
  (forall i env, envs !! i = Some env ->
     match at_remaining env with Some r => r <= total - Z.of_nat i * (10 * millisecond) | None => True end) ->
  Z.max (Z.of_nat fallbackMaxAttempts) (total / (10 * millisecond)) < Z.of_nat (length envs) ->
  is_Some (GuaranteedUpdate cd IsConflict id key ign pre try envs d).
Proof.
  intros Ht Hrem Hlen. unfold GuaranteedUpdate. destruct (validateKey key); [|by eexists].
  set (n := Z.max (Z.of_nat fallbackMaxAttempts) (total / (10 * millisecond))) in *.
  assert (Hn : 0 <= n) by (unfold n; lia).
  destruct (lookup_lt_is_Some_2 envs (Z.to_nat n)) as [env He]; [lia|].
  cbn [negb]. apply (update_loop_stops _ _ _ _ _ _ _ 0 _ _ (Z.to_nat n) env); [done | done |].
  cbn [Nat.add]. unfold last_attempt. specialize (Hrem _ _ He). destruct (at_remaining env) as [r|].
  - rewrite Z2Nat.id in Hrem by lia. unfold millisecond in *.
    change (10 * 1000000) with 10000000 in *.
    assert (Hq : total / 10000000 <= n) by (unfold n; lia). clearbody n.
    pose proof (Z.div_mod total 10000000 ltac:(lia)).
    pose proof (Z.mod_pos_bound total 10000000 ltac:(lia)). lia.
  - lia.
Qed.

(** An update whose every attempt conflicts. *)
Definition ex_attempt : Attempt := mkAttempt id no_failure 1 0 None false.
Definition ex_conflict (_ : string * Z) (_ : Z) : (string * Z) + unit := inr tt.

(** Ten attempts are not enough to stop it: an eleventh follows. *)
Lemma GuaranteedUpdate_ends_witness :
  is_Some (GuaranteedUpdate ex_codec (fun _ => true) nobody ex_key false (fun _ => None) ex_conflict
             (repeat ex_attempt 11) ex_created)
  /\ GuaranteedUpdate ex_codec (fun _ => true) nobody ex_key false (fun _ => None) ex_conflict
       (repeat ex_attempt 10) ex_created = None.
Proof.
  split; [|vm_compute; reflexivity].
  apply (GuaranteedUpdate_ends ex_codec (fun _ => true) nobody ex_key false (fun _ => None) ex_conflict
           (repeat ex_attempt 11) 0 ex_created).
  - lia.
  - intros i env Hi. apply list_elem_of_lookup_2, list_elem_of_In, repeat_spec in Hi. by subst env.
  - vm_compute. reflexivity.
Defined.

(** *** Lists *)

(** Text in which [LIKE] sees no wildcard and no escape. *)
Fixpoint wild_free (s : string) : bool :=
  match s with
  | EmptyString => true
  | String c t => negb (Ascii.eqb c "\" || Ascii.eqb c "%" || Ascii.eqb c "_") && wild_free t
  end.

Lemma wild_free_escape s : wild_free s = true -> likeEscape s = s.
Proof.
  induction s as [|c s IH]; cbn [wild_free likeEscape]; [done|].
  intros [Hc Hs]%andb_true_iff. apply negb_true_iff in Hc. rewrite Hc. f_equal. by apply IH.
Qed.

Lemma wild_free_app a b : wild_free (a +:+ b) = wild_free a && wild_free b.
Proof.
  induction a as [|c a IH]; [done|].
  change (wild_free (String c (a +:+ b)) = wild_free (String c a) && wild_free b).
  cbn [wild_free]. by rewrite IH, andb_assoc.
Qed.

Lemma like_plain p s : wild_free p = true -> like (p +:+ "%") s = HasPrefix s p.
Proof. intros Hp. rewrite <- (wild_free_escape p Hp) at 1. apply like_prefix. Qed.

Lemma ProjectFromKey_prefix name rest :
  no_byte "/" name = true -> ProjectFromKey ("project/" +:+ (name +:+ String "/" rest)) = name.
Proof.
  intros Hs. unfold ProjectFromKey. rewrite HasPrefix_app, drop_str_app. cbn [negb].
  rewrite IndexByte_app by done. destruct (String.length name) eqn:El; [by destruct name|].
  rewrite <- El. apply take_str_app.
Qed.

Lemma drop_wild_free n s : wild_free s = true -> wild_free (drop_str n s) = true.
Proof.
  revert n. induction s as [|c s IH]; intros [|n] H; try done. cbn [drop_str]. apply IH.
  cbn [wild_free] in H. by apply andb_true_iff in H as [_ H].
Qed.

(** A tenant's recursive list holds keys of its own project only, when
    neither the project's name nor the key holds a byte [LIKE] interprets. *)
Theorem list_confined id key t kr :
  id_Name id <> "" -> no_byte "/" (id_Name id) = true -> wild_free (id_Name id) = true -> wild_free key = true ->
  kr ∈ list_rows id key true t -> ProjectFromKey kr.1 = id_Name id.
Proof.
  intros Hne Hs Hw Hk Hin. unfold list_rows in Hin. cbn in Hin.
  rewrite merge_sort_Permutation, list_elem_of_In, filter_In in Hin. destruct Hin as [_ Hl].
  unfold ApplyPrefix, KeyPrefix in Hl. rewrite (proj2 (String.eqb_neq _ _) Hne) in Hl.
  destruct (String.eqb_spec ("project/" +:+ id_Name id +:+ "/") "") as [E|_]; [done|].
  rewrite like_plain in Hl.
  - apply HasPrefix_iff in Hl as [rest ->].
    replace (("project/" +:+ id_Name id +:+ "/") +:+ TrimPrefix (dir_of key) "/")
      with ("project/" +:+ (id_Name id +:+ String "/" (TrimPrefix (dir_of key) "/")))
      by by rewrite !append_assoc_str.
    rewrite !append_assoc_str. by apply ProjectFromKey_prefix.
  - rewrite !wild_free_app, Hw. cbn. unfold TrimPrefix. case_match; [apply drop_wild_free|];
      unfold dir_of; destruct (ends_slash key); try done; by rewrite wild_free_app, Hk.
Qed.

Definition ex_project : Identity := named "alpha".
Definition ex_row1 : StoredRow := mkStored 1 "IPPool" "" "p" "p" "{}".
Definition ex_listed : Tables :=
  mkTables {[ "project/alpha/ipam.miloapis.com/ippools/p" := ex_row1 ]} [].

Lemma list_confined_witness : ProjectFromKey "project/alpha/ipam.miloapis.com/ippools/p" = "alpha".
Proof.
  apply (list_confined ex_project "/ipam.miloapis.com/ippools" ex_listed
           ("project/alpha/ipam.miloapis.com/ippools/p", ex_row1)); [discriminate | reflexivity.. |].
  assert (E : list_rows ex_project "/ipam.miloapis.com/ippools" true ex_listed
              = [("project/alpha/ipam.miloapis.com/ippools/p", ex_row1)]) by (vm_compute; reflexivity).
  rewrite E. left.
Defined.

(** The key is not escaped for [LIKE]: a project whose name holds an
    underscore lists the objects of every project whose name differs from it at
    that byte only. *)
Theorem list_crosses_projects :
  list_rows (named "alph_") "/ipam.miloapis.com/ippools" true ex_listed
  = [("project/alpha/ipam.miloapis.com/ippools/p", ex_row1)]
  /\ ProjectFromKey "project/alpha/ipam.miloapis.com/ippools/p" = "alpha".
Proof. vm_compute. done. Qed.

(** A client that lists and then watches from the list's version can miss an
    object for good.  The version is read by a later statement than the rows: an
    object committed between the two is not in the list, and its version is the
    list's, so the watch starts behind it and no poll selects it. *)
Theorem list_then_watch_gap :
  GetList (E:=unit) ex_codec nobody "/ipam.miloapis.com/ippools" true None (sd_tables empty_store) 2 (sd_tables ex_created)
    = Ok ([], 1) /\
  exists r w, t_log (sd_tables ex_created) = [r] /\ lg_key r = ex_key /\
    covers_key ex_config (lg_key r) = true /\
    Watch ex_config "1" (Some (t_log (sd_tables ex_created))) (Some (t_log (sd_tables ex_created))) = Some w /\
    (forall h log, r ∉ pending ex_config (cursor w) h log).
Proof.
  split; [vm_compute; reflexivity|].
  exists (mkLog 1 ex_key 1 "ADDED" (Some "p") 1 0), (set_rv (set_cursor new_watch 1 1) 1).
  do 4 (split; [vm_compute; reflexivity|]).
  intros h log. apply behind_never_pending. vm_compute. right. split; [done | discriminate].
Qed.
