(* ===== verification/ClientScope.v ===== *)
(** * ClientScope: [cmd/milo-ipam/scope.go], and the parsers of [helpers.go] and [errors.go]

    What a user of the command line may write and what the client makes of it: the
    scope grammar, owner references, families, strategies, policies, purposes; and
    the errors the client ends with, each an exit code automation branches on.

    The grammar reads back what the client prints ([formatScopeRef_pasted]), a
    repeated role is refused, and a scope that is built holds exactly the entries
    given.  Error sentences are left out; white space is ASCII. *)

From Stdlib Require Import Ascii String.
From S2P Require Import Prelude Text Net Cidr Tenant Scope NetText Types Db Errors Access.
Open Scope string_scope.
Open Scope list_scope.
Open Scope Z_scope.

(** ** Exit codes: [errors.go] *)

Definition exitOK : Z := 0.
Definition exitError : Z := 1.
Definition exitUsage : Z := 2.
Definition exitForbidden : Z := 3.
Definition exitNotFound : Z := 4.
Definition exitConflict : Z := 5.
Definition exitInvalid : Z := 6.
Definition exitExhausted : Z := 7.
Definition exitUnavailable : Z := 8.
Definition exitAborted : Z := 9.

(** A [cliError]: its exit code and the API error behind it. *)
Record cliError := mkCliError { ce_code : Z; ce_cause : option GoErr }.

Definition newCLIError (code : Z) : cliError := mkCliError code None.
Definition withCause (e : cliError) (cause : GoErr) : cliError := mkCliError (ce_code e) (Some cause).
Definition usageErrorf : cliError := newCLIError exitUsage.

(** The HTTP code an API error carries, 0 when it carries none. *)
Definition httpStatusCode (err : GoErr) : Z := match statusOf err with Some s => st_Code s | None => 0 end.

(** [strings.Contains] *)
Fixpoint Contains (s sub : string) : bool :=
  HasPrefix s sub || match s with EmptyString => false | String _ t => Contains t sub end.

Definition connection_words : list string :=
  ["connection refused"; "no such host"; "i/o timeout"; "deadline exceeded"; "tls"; "dial tcp"; "eof"; "connect:";
   "unable to connect"].

Definition isConnectionError (msg : string) : bool :=
  let m := ToLower msg in existsb (Contains m) connection_words.

Section Classify.
Context {api : ApiMachinery}.

Definition classifyError (err : GoErr) : cliError :=
  let code := httpStatusCode err in
  withCause
    (newCLIError
       (if code =? 403 then exitForbidden
        else if code =? 404 then exitNotFound
        else if code =? 409 then exitConflict
        else if (code =? 400) || (code =? 422) then exitInvalid
        else if code =? 507 then exitExhausted
        else if isConnectionError (error_text err) then exitUnavailable
        else exitError)) err.

End Classify.

Definition exhaustionError (cause : GoErr) : cliError := withCause (newCLIError exitExhausted) cause.

(** ** Text *)

Definition space (c : ascii) : bool :=
  let n := N_of_ascii c in ((9 <=? n)%N && (n <=? 13)%N) || (n =? 32)%N.

Fixpoint trim_left (s : string) : string :=
  match s with
  | EmptyString => ""
  | String c t => if space c then trim_left t else s
  end.

Fixpoint trim_right (s : string) : string :=
  match s with
  | EmptyString => ""
  | String c t => match trim_right t with
                  | EmptyString => if space c then "" else String c ""
                  | t' => String c t'
                  end
  end.

(** [strings.TrimSpace] *)
Definition TrimSpace (s : string) : string := trim_right (trim_left s).

(** [strings.Cut] at one byte. *)
Definition cut_byte (s : string) (c : ascii) : option (string * string) :=
  option_map (fun i => (take_str i s, drop_str (S i) s)) (IndexByte s c).

(** ** The scope grammar *)

Definition wellKnownScopeRoles (role : string) : option (string * string) :=
  if String.eqb role "network" then Some ("networking.datumapis.com", "Network")
  else if String.eqb role "location" then Some ("networking.datumapis.com", "Location")
  else if String.eqb role "project" then Some ("resourcemanager.miloapis.com", "Project")
  else None.

Definition parseScopeValue (role value : string) : result cliError ScopeRef :=
  match cut_byte value "/" with
  | None =>
    match wellKnownScopeRoles role with
    | None => Err usageErrorf
    | Some (apiGroup, kind) => Ok (mkScopeRef apiGroup kind value)
    end
  | Some (qualifier, name) =>
    match cut_byte qualifier "." with
    | None => Err usageErrorf
    | Some (kind, apiGroup) =>
      if String.eqb kind "" || String.eqb apiGroup "" || String.eqb name "" then Err usageErrorf
      else Ok (mkScopeRef apiGroup kind name)
    end
  end.

Definition parseScopeEntry (arg : string) : result cliError (string * ScopeRef) :=
  match cut_byte arg "=" with
  | None => Err usageErrorf
  | Some (role, value) =>
    let role := TrimSpace role in
    let value := TrimSpace value in
    if String.eqb role "" || String.eqb value "" then Err usageErrorf
    else ref ← parseScopeValue role value; mret (role, ref)
  end.

Fixpoint build_scope_loop (args : list string) (scope : scope_map) : result cliError scope_map :=
  match args with
  | [] => Ok scope
  | arg :: args =>
    entry ← parseScopeEntry arg;
    match scope !! entry.1 with
    | Some _ => Err usageErrorf
    | None => build_scope_loop args (<[entry.1 := entry.2]> scope)
    end
  end.

(** Go's nil map is the empty one. *)
Definition buildScope (args : list string) : result cliError scope_map := build_scope_loop args ∅.

Definition scopeContains (have want : scope_map) : bool :=
  forallb (fun '(role, w) => match have !! role with
                             | Some h => String.eqb (sr_Name h) (sr_Name w)
                             | None => false
                             end) (map_to_list want).

Definition parseObjectRef (value : string) : result cliError (option ObjectRef) :=
  let value := TrimSpace value in
  if String.eqb value "" then Ok None
  else
    let parts := split_slash value "" in
    if (length parts <? 2)%nat || (3 <? length parts)%nat then Err usageErrorf
    else
      let part i := default "" (parts !! i) in
      match cut_byte (part 0%nat) "." with
      | None => Err usageErrorf
      | Some (kind, apiGroup) =>
        if String.eqb kind "" || String.eqb apiGroup "" then Err usageErrorf
        else
          let '(namespace, name) := if (length parts =? 3)%nat then (part 1%nat, part 2%nat) else ("", part 1%nat) in
          if String.eqb name "" then Err usageErrorf
          else Ok (Some (mkObjectRef apiGroup kind namespace name))
      end.

(** ** Printing *)

Definition emDash : string := "—".
Definition orDash (s : string) : string := if String.eqb s "" then emDash else s.

Definition sortedScopeRoles (scope : scope_map) : list string := Roles scope.

Definition formatScope (scope : scope_map) : string :=
  if (size scope =? 0)%nat then emDash
  else joinWith " " (map (fun r => r +:+ "=" +:+ sr_Name (ref_of scope r)) (sortedScopeRoles scope)).

Definition formatScopeRef (ref : ScopeRef) : string :=
  sr_Kind ref +:+ "." +:+ sr_APIGroup ref +:+ "/" +:+ sr_Name ref.

Definition formatObjectRef (ref : option ObjectRef) : string :=
  match ref with
  | None => emDash
  | Some r =>
    if String.eqb (or_Name r) "" then emDash
    else
      let name := if String.eqb (or_Namespace r) "" then or_Name r else or_Namespace r +:+ "/" +:+ or_Name r in
      if String.eqb (or_Kind r) "" then name else or_Kind r +:+ " " +:+ name
  end.

(** ** The other flags: [helpers.go], [claim.go], [allocation.go] *)

Definition oneOfText (s : string) (l : list string) : bool := existsb (String.eqb s) l.

Definition parseFamily (s : string) : result cliError IPFamily :=
  let s := ToLower s in
  if oneOfText s ["ipv4"; "v4"; "4"] then Ok IPv4
  else if oneOfText s ["ipv6"; "v6"; "6"] then Ok IPv6
  else Err usageErrorf.

Definition parseStrategy (s : string) : result cliError string :=
  let s := ToLower s in
  if oneOfText s ["firstfit"; "first-fit"; "first"] then Ok "FirstFit"
  else if oneOfText s ["bestfit"; "best-fit"; "best"] then Ok "BestFit"
  else if oneOfText s ["leastutilized"; "least-utilized"; "least"] then Ok "LeastUtilized"
  else Err usageErrorf.

Definition parseReclaimPolicy (s : string) : result cliError ReclaimPolicy :=
  let s := ToLower (TrimSpace s) in
  if String.eqb s "" then Ok ""
  else if String.eqb s "delete" then Ok ReclaimDelete
  else if String.eqb s "retain" then Ok ReclaimRetain
  else Err usageErrorf.

(** [None] is the empty purpose, which filters nothing. *)
Definition parsePurpose (s : string) : result cliError (option AllocationPurpose) :=
  let s := ToLower (TrimSpace s) in
  if String.eqb s "" then Ok None
  else if String.eqb s "claim" then Ok (Some PurposeClaim)
  else if String.eqb s "reservation" then Ok (Some PurposeReservation)
  else if oneOfText s ["poolcarve"; "pool-carve"] then Ok (Some PurposePoolCarve)
  else Err usageErrorf.

Definition refOrNil (name : string) : option LocalRef := if String.eqb name "" then None else Some (mkLocalRef name).

Example scope_short : parseScopeEntry " network = default " = Ok ("network", mkScopeRef "networking.datumapis.com" "Network" "default").
Proof. reflexivity. Qed.
Example scope_qualified : parseScopeEntry "site=Site.infra.example.com/dc-1" = Ok ("site", mkScopeRef "infra.example.com" "Site" "dc-1").
Proof. reflexivity. Qed.
Example scope_unknown : parseScopeEntry "site=dc-1" = Err usageErrorf.
Proof. reflexivity. Qed.
Example owner_namespaced : parseObjectRef "Instance.compute.example.com/ns/hello-0"
  = Ok (Some (mkObjectRef "compute.example.com" "Instance" "ns" "hello-0")).
Proof. reflexivity. Qed.

(** ** Trimming *)

Lemma app_cons_str c a b : String c a +:+ b = String c (a +:+ b).
Proof. done. Qed.

(** Text [TrimSpace] leaves alone. *)
Definition trimmed (s : string) : bool := String.eqb (TrimSpace s) s.

Lemma trim_right_cons c t :
  trim_right (String c t) = if String.eqb (trim_right t) "" then if space c then "" else String c ""
                            else String c (trim_right t).
Proof. simpl. by destruct (trim_right t). Qed.

Lemma trim_right_app a b : trim_right b = b -> b <> "" -> trim_right (a +:+ b) = a +:+ b.
Proof.
  intros Hb Hne. induction a as [|c a IH]; [done|]. rewrite app_cons_str, trim_right_cons, IH.
  destruct (String.eqb_spec (a +:+ b) "") as [E|]; [|done]. by destruct a, b.
Qed.

Lemma trim_right_le s : (String.length (trim_right s) <= String.length s)%nat.
Proof.
  induction s as [|c s IH]; [done|]. rewrite trim_right_cons.
  destruct (String.eqb _ _), (space c); simpl; lia.
Qed.

Lemma trim_left_le s : (String.length (trim_left s) <= String.length s)%nat.
Proof. induction s as [|c s IH]; [done|]. simpl. destruct (space c); simpl; lia. Qed.

(** What is trimmed starts and ends with no space. *)
Lemma trimmed_cons c s : trimmed (String c s) = true ->
  space c = false /\ trim_right (String c s) = String c s.
Proof.
  intros H%String.eqb_eq. unfold TrimSpace in H. cbn [trim_left] in H. destruct (space c) eqn:E; [|done].
  apply (f_equal String.length) in H. pose proof (trim_right_le (trim_left s)). pose proof (trim_left_le s).
  simpl in H. lia.
Qed.

Lemma TrimSpace_trimmed s : trimmed s = true -> TrimSpace s = s.
Proof. apply String.eqb_eq. Qed.

Lemma trimmed_tail a b : trimmed b = true -> b <> "" -> trim_right (a +:+ b) = a +:+ b.
Proof.
  intros Hb Hne. apply trim_right_app; [|done]. destruct b as [|c b]; [done|]. by apply trimmed_cons in Hb as [_ ?].
Qed.

(** A trimmed head, anything, a trimmed tail. *)
Lemma trimmed_app a m b :
  trimmed a = true -> a <> "" -> trimmed b = true -> b <> "" -> TrimSpace (a +:+ m +:+ b) = a +:+ m +:+ b.
Proof.
  intros Ha Hna Hb Hnb. destruct a as [|c a]; [done|]. apply trimmed_cons in Ha as [Hc _].
  unfold TrimSpace. rewrite !app_cons_str. cbn [trim_left]. rewrite Hc, <-app_cons_str, <-append_assoc_str.
  by apply trimmed_tail.
Qed.

Lemma no_byte_trim_right c s : no_byte c s = true -> no_byte c (trim_right s) = true.
Proof.
  induction s as [|d s IH]; [done|]. cbn [no_byte]. intros [H1 H2]%andb_true_iff. rewrite trim_right_cons.
  destruct (String.eqb _ _); [destruct (space d)|]; cbn [no_byte]; rewrite ?H1, ?(IH H2); done.
Qed.

Lemma no_byte_TrimSpace c s : no_byte c s = true -> no_byte c (TrimSpace s) = true.
Proof.
  intros H. apply no_byte_trim_right. induction s as [|d s IH]; [done|]. simpl. destruct (space d); [|done].
  apply IH. by apply andb_true_iff in H as [_ ?].
Qed.

(** ** Cutting *)

Lemma cut_byte_app c a r : no_byte c a = true -> cut_byte (a +:+ String c r) c = Some (a, r).
Proof.
  intros H. unfold cut_byte. rewrite IndexByte_app by done. cbn [option_map]. rewrite take_str_app.
  change (a +:+ String c r) with (a +:+ (String c "" +:+ r)). rewrite <-append_assoc_str.
  replace (S (String.length a)) with (String.length (a +:+ String c "")); [by rewrite drop_str_app|].
  clear. induction a; simpl; [done | by f_equal].
Qed.

Lemma cut_byte_none c s : no_byte c s = true -> cut_byte s c = None.
Proof.
  unfold cut_byte. intros H. replace (IndexByte s c) with (@None nat); [done|].
  induction s as [|d s IH]; [done|]. simpl in *. apply andb_true_iff in H as [H1 H2].
  apply negb_true_iff in H1. rewrite H1. by rewrite <-IH.
Qed.

Lemma cut_byte_Some s c a r : cut_byte s c = Some (a, r) -> s = a +:+ String c r /\ no_byte c a = true.
Proof.
  revert a r. induction s as [|d s IH]; [done|]. intros a r. unfold cut_byte. cbn [IndexByte].
  destruct (Ascii.eqb_spec c d) as [<-|Hne].
  { intros [= <- <-]. by destruct s. }
  specialize (IH). unfold cut_byte in IH. destruct (IndexByte s c) as [i|]; [|done].
  cbn [option_map take_str drop_str] in *. intros [= <- <-]. destruct (IH _ _ eq_refl) as [E Hn].
  split; [rewrite E at 1; done|]. cbn [no_byte]. rewrite Hn. by destruct (Ascii.eqb_spec c d).
Qed.

Lemma trim_right_idem s : trim_right (trim_right s) = trim_right s.
Proof.
  induction s as [|c s IH]; [done|]. rewrite trim_right_cons.
  destruct (String.eqb_spec (trim_right s) "") as [E|E].
  - destruct (space c) eqn:Es; [done|]. simpl. by rewrite Es.
  - rewrite trim_right_cons, IH. by destruct (String.eqb_spec (trim_right s) "").
Qed.

Lemma TrimSpace_idem s : trimmed (TrimSpace s) = true.
Proof.
  apply String.eqb_eq. unfold TrimSpace.
  assert (forall t, trim_left t = "" \/ exists c u, trim_left t = String c u /\ space c = false) as Hl.
  { clear. intros t. induction t as [|c t IH]; [by left|]. simpl. destruct (space c) eqn:E; [done | by right; eauto]. }
  destruct (Hl s) as [-> | (c & u & -> & Hc)]; [done|].
  replace (trim_left (trim_right (String c u))) with (trim_right (String c u)); [apply trim_right_idem|].
  rewrite trim_right_cons, Hc. destruct (String.eqb _ _); simpl; by rewrite Hc.
Qed.

(** ** The scope grammar reads back *)

Lemma formatScopeRef_value k g n r :
  no_byte "/" (k +:+ String "." g) = true -> no_byte "." k = true -> k <> "" -> g <> "" -> n <> "" ->
  parseScopeValue r (formatScopeRef (mkScopeRef g k n)) = Ok (mkScopeRef g k n).
Proof.
  intros Hs Hk Hk0 Hg0 Hn0. unfold parseScopeValue, formatScopeRef. cbn [sr_Kind sr_APIGroup sr_Name].
  change (k +:+ "." +:+ g +:+ "/" +:+ n) with (k +:+ ("." +:+ (g +:+ ("/" +:+ n)))).
  rewrite <-(append_assoc_str "." g), <-append_assoc_str. change ("/" +:+ n) with (String "/" n).
  rewrite cut_byte_app by exact Hs. change ("." +:+ g) with (String "." g). rewrite cut_byte_app by done.
  by rewrite !(proj2 (String.eqb_neq _ _)).
Qed.

(** What a parsed value holds. *)
Lemma parseScopeValue_ok role value ref : trimmed value = true -> value <> "" ->
  parseScopeValue role value = Ok ref ->
  parseScopeValue role (formatScopeRef ref) = Ok ref /\ trimmed (formatScopeRef ref) = true
  /\ sr_APIGroup ref <> "" /\ sr_Kind ref <> "" /\ sr_Name ref <> "".
Proof.
  intros Ht Hv. unfold parseScopeValue at 1. destruct (cut_byte value "/") as [[q n]|] eqn:Ec.
  - apply cut_byte_Some in Ec as [-> Hq]. destruct (cut_byte q ".") as [[k g]|] eqn:Eq; [|done].
    apply cut_byte_Some in Eq as [-> Hk].
    destruct (String.eqb_spec k ""); [done|]. destruct (String.eqb_spec g ""); [done|].
    destruct (String.eqb_spec n ""); [done|]. intros [= <-]. split; [by apply formatScopeRef_value|].
    split; [|done]. revert Ht. unfold formatScopeRef. cbn [sr_Kind sr_APIGroup sr_Name].
    by rewrite append_assoc_str.
  - destruct (wellKnownScopeRoles role) as [[g k]|] eqn:Ew; [|done]. intros [= <-].
    unfold wellKnownScopeRoles in Ew.
    assert (no_byte "/" (k +:+ String "." g) = true /\ no_byte "." k = true /\ k <> "" /\ g <> "" /\ trimmed k = true)
      as (H1 & H2 & H3 & H4 & H5).
    { repeat destruct (String.eqb role _); inversion Ew; subst; by repeat split. }
    split; [by apply formatScopeRef_value|]. split; [|done]. apply String.eqb_eq. unfold formatScopeRef.
    cbn [sr_Kind sr_APIGroup sr_Name].
    replace (k +:+ "." +:+ g +:+ "/" +:+ value) with (k +:+ ("." +:+ g +:+ "/") +:+ value)
      by (by rewrite !append_assoc_str).
    by apply trimmed_app.
Qed.

Lemma parseScopeEntry_ok arg role ref : parseScopeEntry arg = Ok (role, ref) ->
  exists value, no_byte "=" role = true /\ trimmed role = true /\ role <> ""
    /\ trimmed value = true /\ value <> "" /\ parseScopeValue role value = Ok ref.
Proof.
  unfold parseScopeEntry. destruct (cut_byte arg "=") as [[r v]|] eqn:Ec; [|done].
  apply cut_byte_Some in Ec as [_ Hr]. cbv zeta.
  destruct (String.eqb_spec (TrimSpace r) ""); [done|]. destruct (String.eqb_spec (TrimSpace v) ""); [done|].
  cbn [orb]. intros H. apply result_bind_ok in H as (ref' & Hp & [= <- <-]).
  exists (TrimSpace v). rewrite !TrimSpace_idem. repeat split; try done.
  by apply no_byte_TrimSpace.
Qed.

Lemma entry_reads role value : trimmed role = true -> role <> "" -> no_byte "=" role = true ->
  trimmed value = true -> value <> "" ->
  parseScopeEntry (role +:+ "=" +:+ value) = ref ← parseScopeValue role value; mret (role, ref).
Proof.
  intros Ht Hr Hn Hv Hv0. unfold parseScopeEntry. change ("=" +:+ value) with (String "=" value).
  rewrite cut_byte_app by done. cbv zeta. rewrite !TrimSpace_trimmed by done.
  by rewrite !(proj2 (String.eqb_neq _ _)).
Qed.

(** What [claim show] prints for a scope entry the client accepted can be pasted
    back into [--scope]: the parser reads the printed reference as the same role and
    the same reference, whether the entry was typed in the short form or the
    qualified one. *)
Theorem formatScopeRef_pasted arg role ref : parseScopeEntry arg = Ok (role, ref) ->
  parseScopeEntry (role +:+ "=" +:+ formatScopeRef ref) = Ok (role, ref).
Proof.
  intros H. apply parseScopeEntry_ok in H as (value & Hn & Ht & Hr & Htv & Hv & Hp).
  apply parseScopeValue_ok in Hp as (Hp & Hf & _); [|done..].
  rewrite entry_reads, Hp; try done. unfold formatScopeRef. by destruct (sr_Kind ref).
Qed.

Lemma formatScopeRef_pasted_witness :
  parseScopeEntry ("network" +:+ "=" +:+ formatScopeRef (mkScopeRef "networking.datumapis.com" "Network" "default"))
  = Ok ("network", mkScopeRef "networking.datumapis.com" "Network" "default").
Proof. apply (formatScopeRef_pasted " network = default "). reflexivity. Defined.

(** A reference of the core group, which the server accepts, is printed in a form
    the client refuses. *)
Theorem core_group_not_pasted role k n :
  no_byte "." k = true -> no_byte "/" k = true ->
  parseScopeValue role (formatScopeRef (mkScopeRef "" k n)) = Err usageErrorf.
Proof.
  intros Hk Hs. unfold parseScopeValue, formatScopeRef. cbn [sr_Kind sr_APIGroup sr_Name].
  change (k +:+ "." +:+ "" +:+ "/" +:+ n) with (k +:+ ("." +:+ ("/" +:+ n))).
  rewrite <-append_assoc_str. change ("/" +:+ n) with (String "/" n).
  rewrite cut_byte_app by (rewrite no_byte_app, Hs; done).
  change (k +:+ ".") with (k +:+ String "." ""). rewrite cut_byte_app by done.
  by rewrite (orb_comm (String.eqb k "")).
Qed.

Lemma core_group_not_pasted_witness :
  parseScopeValue "node" (formatScopeRef (mkScopeRef "" "Node" "n1")) = Err usageErrorf.
Proof. by apply core_group_not_pasted. Defined.

(** ** A scope is the entries given, each role once *)

Lemma build_scope_loop_spec args : forall scope m,
  build_scope_loop args scope = Ok m <->
  exists entries, Forall2 (fun a e => parseScopeEntry a = Ok e) args entries
    /\ NoDup entries.*1 /\ Forall (fun e => scope !! e.1 = None) entries /\ m = list_to_map entries ∪ scope.
Proof.
  induction args as [|arg args IH]; intros scope m; cbn [build_scope_loop].
  { split.
    - intros [= <-]. exists []. split; [constructor|]. split; [constructor|]. split; [constructor|].
      by rewrite list_to_map_nil, map_empty_union.
    - intros (es & H & _ & _ & ->). inversion H. subst. by rewrite list_to_map_nil, map_empty_union. }
  destruct (parseScopeEntry arg) as [[role ref] | e] eqn:Ep; cbn [mbind result_bind];
    [|split; [done|]; intros (es & (y & es' & Hp & _)%Forall2_cons_inv_l & _); congruence].
  cbn [fst snd]. destruct (scope !! role) as [prev|] eqn:Er.
  { split; [done|]. intros (es & (y & es' & Hp & _ & ->)%Forall2_cons_inv_l & _ & Hf & _).
    rewrite Ep in Hp. injection Hp as <-. apply Forall_cons in Hf as [Hf _]. simpl in Hf. congruence. }
  rewrite IH. split.
  - intros (es & H & Hd & Hf & ->). exists ((role, ref) :: es).
    assert (Hnew : role ∉ es.*1).
    { intros ([? ?] & -> & Hin)%list_elem_of_fmap. rewrite Forall_forall in Hf. apply Hf in Hin.
      by rewrite lookup_insert_eq in Hin. }
    split; [by constructor|]. split; [by apply NoDup_cons|]. split.
    + constructor; [done|]. eapply Forall_impl; [exact Hf|]. intros [r v] Hl. cbn [fst] in *.
      destruct (decide (role = r)) as [->|]; [by rewrite lookup_insert_eq in Hl | by rewrite lookup_insert_ne in Hl].
    + rewrite list_to_map_cons, <-insert_union_r, insert_union_l; [done|]. by apply not_elem_of_list_to_map_1.
  - intros (es & (y & es' & Hp & Hes & ->)%Forall2_cons_inv_l & Hd & Hf & ->).
    rewrite Ep in Hp. injection Hp as <-.
    apply NoDup_cons in Hd as [Hnew Hd]. apply Forall_cons in Hf as [_ Hf]. exists es'.
    repeat split; try done.
    + rewrite Forall_forall in Hf |- *. intros [r v] Hin. rewrite lookup_insert_ne; [by apply (Hf (r, v))|].
      intros ->. apply Hnew. by apply (list_elem_of_fmap_2 fst) in Hin.
    + rewrite list_to_map_cons, <-insert_union_r, insert_union_l; [done|]. by apply not_elem_of_list_to_map_1.
Qed.

(** The scope a command line builds is exactly the entries it gives: [buildScope]
    succeeds on precisely the argument lists that all parse and name no role twice,
    and its map holds each entry's reference under its role and nothing else.  Go's
    map order cannot show: no entry overwrites another. *)
Theorem buildScope_exact args m :
  buildScope args = Ok m <->
  exists entries, Forall2 (fun a e => parseScopeEntry a = Ok e) args entries
    /\ NoDup entries.*1 /\ m = list_to_map entries.
Proof.
  unfold buildScope. rewrite build_scope_loop_spec. split.
  - intros (es & H & Hd & _ & ->). exists es. by rewrite map_union_empty.
  - intros (es & H & Hd & ->). exists es. rewrite map_union_empty. repeat split; try done.
    by apply Forall_forall.
Qed.

(** What [claim list --scope] keeps: the scopes holding every wanted role and name. *)
Lemma scopeContains_spec have want :
  scopeContains have want = true <->
  forall role w, want !! role = Some w -> exists h, have !! role = Some h /\ sr_Name h = sr_Name w.
Proof.
  unfold scopeContains. rewrite forallb_forall. split.
  - intros H role w Hw. apply elem_of_map_to_list, list_elem_of_In, H in Hw.
    destruct (have !! role) as [h|]; [|done]. exists h. by apply String.eqb_eq in Hw.
  - intros H [role w] Hin. apply list_elem_of_In, elem_of_map_to_list, H in Hin as (h & -> & E).
    by apply String.eqb_eq.
Qed.

(** ** Exit codes follow the server's refusals *)

Section ExitCodes.
Context {api : ApiMachinery}.

Lemma classify_code e s : statusOf e = Some s ->
  ce_code (classifyError e) =
    if st_Code s =? 403 then exitForbidden
    else if st_Code s =? 404 then exitNotFound
    else if st_Code s =? 409 then exitConflict
    else if (st_Code s =? 400) || (st_Code s =? 422) then exitInvalid
    else if st_Code s =? 507 then exitExhausted
    else if isConnectionError (error_text e) then exitUnavailable
    else exitError.
Proof. intros He. unfold classifyError, httpStatusCode. by rewrite He. Qed.

(** The exit codes automation branches on follow the server's refusals, however
    the error was wrapped: space that ran out exits 7, a claim that exists and an
    allocation that is retained exit 5, every other IPAM reason and every
    validation failure exit 6, a forbidden request exits 3; and no failure of any
    kind exits 0. *)
Theorem exit_codes_follow e s : statusOf e = Some s ->
  (forall r m, known r = true -> s = New r m ->
     ce_code (classifyError e) =
       if String.eqb r ReasonExhausted then exitExhausted
       else if String.eqb r ReasonAllocationRetained || String.eqb r ReasonClaimExists then exitConflict
       else exitInvalid)
  /\ (forall p m, s = NewPoolExhausted p m -> ce_code (classifyError e) = exitExhausted)
  /\ (forall roles m, s = NewScopeRolesMissing roles m -> ce_code (classifyError e) = exitInvalid)
  /\ (forall g n m, s = NewClaimExists g n m -> ce_code (classifyError e) = exitConflict)
  /\ (forall g n a m, s = NewRetainedAllocation g n a m -> ce_code (classifyError e) = exitConflict)
  /\ (forall k n l, s = NewInvalid k n l -> ce_code (classifyError e) = exitInvalid)
  /\ (forall g n m, s = NewForbidden g n m -> ce_code (classifyError e) = exitForbidden)
  /\ ce_code (classifyError e) <> exitOK.
Proof.
  intros He. pose proof (classify_code e s He) as Hc. split_and!; intros; subst; rewrite Hc.
  - unfold New, newStatus. cbn [st_Code]. unfold codeFor. by repeat destruct (String.eqb r _).
  - reflexivity.
  - by destruct roles.
  - unfold NewClaimExists, newConflict. cbn [with_details st_Code]. by rewrite NewConflict_code.
  - unfold NewRetainedAllocation, newConflict. cbn [with_details st_Code]. by rewrite NewConflict_code.
  - by rewrite NewInvalid_code.
  - by rewrite NewForbidden_code.
  - by repeat case_match.
Qed.
End ExitCodes.

Lemma exit_codes_follow_witness :
  ce_code (@classifyError plain_machinery (GWrap "create claim" (GStatus (NewPoolExhausted "edge" "full")))) = exitExhausted.
Proof.
  exact (proj1 (proj2 (@exit_codes_follow plain_machinery
    (GWrap "create claim" (GStatus (NewPoolExhausted "edge" "full"))) _ eq_refl)) _ _ eq_refl).
Defined.

(** A class no pool offers is documented to exit 4; the server refuses it with 400. *)
Theorem no_offering_pool_exit `{ApiMachinery} m :
  ce_code (classifyError (GStatus (New ReasonNoOfferingPool m))) = exitInvalid.
Proof. reflexivity. Qed.

(** A server's own failure that happens to speak of tls is reported as a network that
    cannot be reached. *)
Theorem internal_error_called_unreachable :
  exists api : ApiMachinery, exists e s,
    statusOf e = Some s /\ st_Code s = 500 /\ ce_code (@classifyError api e) = exitUnavailable.
Proof.
  unshelve eexists; [refine {| error_text := fun _ => "pool tls-edge: store: row not found";
    NewConflict := fun _ _ _ => plain_status 409 ""; NewForbidden := fun _ _ _ => plain_status 403 "";
    NewBadRequest := fun _ => plain_status 400 ""; NewInternalError := fun _ => plain_status 500 "";
    NewInvalid := fun _ _ _ => plain_status 422 "" |}; intros; try reflexivity; constructor|].
  exists (GStatus (plain_status 500 "")), (plain_status 500 ""). split; [done|]. split; [done | reflexivity].
Qed.
