(* ===== verification/ClientAddr.v ===== *)
(** * ClientAddr: an address the user types, and who holds it

    Go's [net/netip] as the client uses it ([ParseAddr] with zones, [ParsePrefix],
    [Prefix.Contains]), [looksLikeAddress] of [cmd/milo-ipam/claim.go], and the
    reverse lookup of [allocation.go]: [allocationCovers],
    [lookupAllocationsByAddress], [warnMultipleHolders].

    [address_lookup_exact] says what the lookup answers over allocations as the
    server stores them: every allocation whose block holds the address and is as
    small as any that does, in the order listed, and a refusal only when no block
    holds it. *)

From Stdlib Require Import Ascii String.
From S2P Require Import Prelude Text Net Cidr Tenant Scope NetText NetParse Types Db Class Errors.
From S2P Require Import ClientScope.
Open Scope string_scope.
Open Scope list_scope.
Open Scope Z_scope.

(** ** [net/netip] *)

(** An address: 4 or 16 bytes, and the zone of an IPv6 one. *)
Record NetipAddr := mkNetip { na_bytes : list Z; na_zone : string }.
Record NetipPrefix := mkNetipPrefix { np_addr : NetipAddr; np_bits : Z }.

Definition BitLen (a : NetipAddr) : Z := Z.of_nat (length (na_bytes a)) * 8.

(** The first of ['.'], [':'] and ['%'] decides. *)
Fixpoint netip_family (s : string) : option ascii :=
  match s with
  | EmptyString => None
  | String c t => if Ascii.eqb c "." || Ascii.eqb c ":" || Ascii.eqb c "%" then Some c else netip_family t
  end.

(** [parseIPv6] takes the zone off first. *)
Definition netip_parse6 (s : string) : option NetipAddr :=
  match cut_byte s "%" with
  | None => option_map (fun b => mkNetip b "") (parseIPv6 s)
  | Some (s, zone) =>
    if String.eqb zone "" then None else option_map (fun b => mkNetip b zone) (parseIPv6 s)
  end.

(** [netip.ParseAddr] *)
Definition netip_ParseAddr (s : string) : option NetipAddr :=
  match netip_family s with
  | Some "."%char => option_map (fun b => mkNetip b "") (parseIPv4 s)
  | Some ":"%char => netip_parse6 s
  | _ => None
  end.

(** [strings.LastIndexByte] *)
Fixpoint LastIndexByte (s : string) (c : ascii) : option nat :=
  match s with
  | EmptyString => None
  | String d t => match LastIndexByte t c with
                  | Some i => Some (S i)
                  | None => if Ascii.eqb c d then Some O else None
                  end
  end.

(** [strconv.Atoi] of text that starts with no sign.  A number beyond [int] is an
    error there and above every bound here. *)
Fixpoint atoi_loop (s : string) (n : Z) : option Z :=
  match s with
  | EmptyString => Some n
  | String c t => match dec_digit c with Some d => atoi_loop t (n * 10 + d) | None => None end
  end.

Definition atoi (s : string) : option Z := match s with EmptyString => None | _ => atoi_loop s 0 end.

(** No sign and no leading zero. *)
Definition bits_text_ok (s : string) : bool :=
  match s with
  | String c (String _ _) => (49 <=? code c) && (code c <=? 57)
  | _ => true
  end.

(** [netip.ParsePrefix] *)
Definition ParsePrefix (s : string) : option NetipPrefix :=
  match LastIndexByte s "/" with
  | None => None
  | Some i =>
    match netip_ParseAddr (take_str i s) with
    | None => None
    | Some ip =>
      let bitsStr := drop_str (S i) s in
      if negb (String.eqb (na_zone ip) "") then None
      else if negb (bits_text_ok bitsStr) then None
      else match atoi bitsStr with
           | None => None
           | Some bits => if (bits <? 0) || (BitLen ip <? bits) then None else Some (mkNetipPrefix ip bits)
           end
    end
  end.

Definition netip_value (a : NetipAddr) : Z := SetBytes (na_bytes a).

(** [mask6] *)
Definition mask6 (n : Z) : Z := Z.shiftl (Z.ones n) (128 - n).

(** [Prefix.Contains] *)
Definition Prefix_Contains (p : NetipPrefix) (ip : NetipAddr) : bool :=
  if negb (String.eqb (na_zone ip) "") then false
  else if negb (BitLen (np_addr p) =? BitLen ip) then false
  else
    let x := Z.lxor (netip_value ip) (netip_value (np_addr p)) in
    if BitLen ip =? 32 then Z.shiftr x (32 - np_bits p) =? 0
    else Z.land x (mask6 (np_bits p)) =? 0.

(** ** The reverse lookup *)

Definition is_some {A} (o : option A) : bool := match o with Some _ => true | None => false end.

Definition looksLikeAddress (arg : string) : bool := is_some (netip_ParseAddr arg) || is_some (ParsePrefix arg).

Definition allocationAddress (al : IPAllocation) : string :=
  if negb (String.eqb (alst_Address (al_Status al)) "") then alst_Address (al_Status al)
  else alst_AllocatedCIDR (al_Status al).

(** The block's prefix length, when the block holds what was asked for. *)
Definition allocationCovers (al : IPAllocation) (arg : string) : option Z :=
  match ParsePrefix (alst_AllocatedCIDR (al_Status al)) with
  | None => None
  | Some block =>
    match netip_ParseAddr arg with
    | Some addr => if Prefix_Contains block addr then Some (np_bits block) else None
    | None =>
      match ParsePrefix arg with
      | Some p => if (np_bits block <=? np_bits p) && Prefix_Contains block (np_addr p)
                  then Some (np_bits block) else None
      | None => None
      end
    end
  end.

Definition exact_match (arg : string) (al : IPAllocation) : bool :=
  String.eqb (alst_Address (al_Status al)) arg || String.eqb (alst_AllocatedCIDR (al_Status al)) arg.

(** One turn of the loop: the exact holders, the best ones and their length. *)
Definition lookup_step (arg : string) (acc : list IPAllocation * list IPAllocation * Z) (al : IPAllocation)
    : list IPAllocation * list IPAllocation * Z :=
  let '(exact, best, bestBits) := acc in
  if exact_match arg al then (exact ++ [al], best, bestBits)
  else match allocationCovers al arg with
       | None => acc
       | Some bits =>
         if bestBits <? bits then (exact, [al], bits)
         else if bits =? bestBits then (exact, best ++ [al], bestBits)
         else acc
       end.

(** What is answered once the allocations of the namespace are listed. *)
Definition lookup_holders (items : list IPAllocation) (arg : string) : result cliError (list IPAllocation) :=
  let '(exact, best, _) := foldl (lookup_step arg) ([], [], -1) items in
  match exact with
  | _ :: _ => Ok exact
  | [] => match best with
          | _ :: _ => Ok best
          | [] => Err (newCLIError exitNotFound)
          end
  end.

Definition lookupAllocationsByAddress `{ApiMachinery} (listed : result GoErr (list IPAllocation)) (arg : string)
    : result cliError (list IPAllocation) :=
  items ← wrap_err classifyError listed;
  lookup_holders items arg.

(** Whether [warnMultipleHolders] calls the holders a defect in the data. *)
Definition warnMultipleHolders (holders : list IPAllocation) : bool := negb (length holders <? 2)%nat.

Definition allocationClaimName (al : IPAllocation) : string :=
  match als_ClaimRef (al_Spec al) with
  | Some r => lr_Name r
  | None => match als_Purpose (al_Spec al) with
            | PurposeReservation => "— (reserved)"
            | PurposePoolCarve => "— (child pool)"
            | PurposeClaim => "— (retained)"
            end
  end.

Example netip_zone : netip_ParseAddr "fe80::1%eth0" = Some (mkNetip [254;128;0;0;0;0;0;0;0;0;0;0;0;0;0;1] "eth0").
Proof. reflexivity. Qed.
Example netip_bad : (netip_ParseAddr "fe80::1%", netip_ParseAddr "1.2.3.4%eth0", netip_ParseAddr "%1:", ParsePrefix "fe80::1%e/64",
   ParsePrefix "10.0.0.0/08", ParsePrefix "10.0.0.0/+8", ParsePrefix "10.0.0.0/33", ParsePrefix "10.0.0.0")
  = (None, None, None, None, None, None, None, None).
Proof. reflexivity. Qed.
Example netip_prefix : ParsePrefix "10.1.2.3/8" = Some (mkNetipPrefix (mkNetip [10;1;2;3] "") 8).
Proof. reflexivity. Qed.
Example netip_contains : (Prefix_Contains (mkNetipPrefix (mkNetip [10;1;2;3] "") 8) (mkNetip [10;255;0;1] ""),
   Prefix_Contains (mkNetipPrefix (mkNetip [10;1;2;3] "") 8) (mkNetip [11;0;0;1] "")) = (true, false).
Proof. reflexivity. Qed.

(** ** Containment, as arithmetic *)

Lemma shiftr_xor_zero a b k : 0 <= k -> (Z.shiftr (Z.lxor a b) k =? 0) = (a / 2 ^ k =? b / 2 ^ k).
Proof.
  intros Hk. rewrite Z.shiftr_lxor, !Z.shiftr_div_pow2 by done. apply Bool.eq_true_iff_eq.
  by rewrite !Z.eqb_eq, Z.lxor_eq_0_iff.
Qed.

Lemma land_mask6_zero x n : 0 <= x < 2 ^ 128 -> 0 <= n <= 128 ->
  (Z.land x (mask6 n) =? 0) = (Z.shiftr x (128 - n) =? 0).
Proof.
  intros Hx Hn. unfold mask6.
  assert (Z.land x (Z.shiftl (Z.ones n) (128 - n)) = Z.shiftl (Z.shiftr x (128 - n)) (128 - n)) as ->.
  { apply Z.bits_inj'. intros i Hi. rewrite Z.land_spec, !Z.shiftl_spec by done.
    destruct (Z.ltb_spec i (128 - n)).
    - rewrite !(Z.testbit_neg_r _ (i - (128 - n))) by lia. by rewrite andb_false_r.
    - rewrite Z.shiftr_spec by lia. replace (i - (128 - n) + (128 - n)) with i by lia.
      destruct (Z.ltb_spec i 128).
      + rewrite Z.ones_spec_low by lia. by rewrite andb_true_r.
      + rewrite Z.ones_spec_high by lia. rewrite andb_false_r. symmetry.
        destruct (Z.eqb_spec x 0) as [->|]; [apply Z.bits_0|]. apply Z.bits_above_log2; [lia|].
        apply Z.log2_lt_pow2; [lia|]. pose proof (Z.pow_le_mono_r 2 128 i ltac:(lia) ltac:(lia)). lia. }
  apply Bool.eq_true_iff_eq. rewrite !Z.eqb_eq, Z.shiftl_eq_0_iff by lia. done.
Qed.

Lemma lxor_bound a b n : 0 < n -> 0 <= a < 2 ^ n -> 0 <= b < 2 ^ n -> 0 <= Z.lxor a b < 2 ^ n.
Proof.
  intros Hn Ha Hb. split; [apply Z.lxor_nonneg; lia|].
  assert (forall v, 0 <= v < 2 ^ n -> Z.log2 v < n) as Hl.
  { intros v Hv. destruct (Z.eqb_spec v 0) as [->|]; [done|]. apply Z.log2_lt_pow2; lia. }
  apply Z.log2_lt_cancel. rewrite Z.log2_pow2 by lia. eapply Z.le_lt_trans; [apply Z.log2_lxor; lia|].
  apply Z.max_lub_lt; by apply Hl.
Qed.

(** Same family and the same leading bits. *)
Lemma Prefix_Contains_spec p z ones w b w' :
  family_bits w -> 0 <= ones <= w -> 0 <= p < 2 ^ w -> family_bits w' -> 0 <= b < 2 ^ w' ->
  Prefix_Contains (mkNetipPrefix (mkNetip (encode (Z.to_nat (w / 8)) p) z) ones) (mkNetip (encode (Z.to_nat (w' / 8)) b) "")
  = (w =? w') && (b / 2 ^ (w - ones) =? p / 2 ^ (w - ones)).
Proof.
  intros Hw Ho Hp Hw' Hb. unfold Prefix_Contains, BitLen, netip_value. cbn [na_zone na_bytes np_addr np_bits].
  change (String.eqb "" "") with true. cbn [negb]. rewrite !length_encode.
  assert (forall v, family_bits v -> Z.of_nat (Z.to_nat (v / 8)) * 8 = v) as E by (by intros ? [-> | ->]).
  rewrite !E by done. destruct (Z.eqb_spec w w') as [<-|]; [|done]. cbn [negb andb].
  assert (forall v, 0 <= v < 2 ^ w -> SetBytes (encode (Z.to_nat (w / 8)) v) = v) as D.
  { intros v Hv. apply SetBytes_encode. by rewrite family_range. }
  rewrite !D by done. destruct Hw as [-> | ->]; cbn [Z.eqb Pos.eqb].
  - apply shiftr_xor_zero. lia.
  - rewrite land_mask6_zero by (lia || by apply lxor_bound). apply shiftr_xor_zero. lia.
Qed.

(** ** Reading what the server writes *)

Lemma netip_family_plain s : no_byte "%" s = true -> netip_family s = addr_family s.
Proof.
  induction s as [|c s IH]; [done|]. cbn [no_byte netip_family addr_family]. intros [H1 H2]%andb_true_iff.
  rewrite (Ascii.eqb_sym c "%"). apply negb_true_iff in H1. rewrite H1, orb_false_r, IH by done. done.
Qed.

Lemma addr_family_cases s : addr_family s = None \/ addr_family s = Some "."%char \/ addr_family s = Some ":"%char.
Proof.
  induction s as [|c s IH]; [by left|]. cbn [addr_family]. destruct (Ascii.eqb_spec c ".") as [->|]; [auto|].
  destruct (Ascii.eqb_spec c ":") as [->|]; [auto | done].
Qed.

(** Without a zone both parsers agree. *)
Lemma netip_ParseAddr_plain s b : ParseAddr s = Some b -> netip_ParseAddr s = Some (mkNetip b "").
Proof.
  unfold ParseAddr, netip_ParseAddr. destruct (no_byte "%" s) eqn:Hz; [|done]. cbn [negb].
  rewrite netip_family_plain by done. destruct (addr_family_cases s) as [-> | [-> | ->]]; [done | |]; cbn [Ascii.eqb Bool.eqb].
  - by intros ->.
  - unfold netip_parse6. rewrite cut_byte_none by done. by intros ->.
Qed.

Lemma LastIndexByte_none c s : no_byte c s = true -> LastIndexByte s c = None.
Proof.
  induction s as [|d s IH]; [done|]. cbn [no_byte LastIndexByte]. intros [H1 H2]%andb_true_iff.
  rewrite IH by done. apply negb_true_iff in H1. by rewrite H1.
Qed.

Lemma LastIndexByte_app c a b : no_byte c b = true -> LastIndexByte (a +:+ String c b) c = Some (String.length a).
Proof.
  intros Hb. induction a as [|d a IH]; cbn [LastIndexByte String.app].
  - change ("" +:+ String c b) with (String c b). cbn [LastIndexByte]. rewrite LastIndexByte_none by done.
    by rewrite Ascii.eqb_refl.
  - rewrite app_cons_str. cbn [LastIndexByte]. by rewrite IH.
Qed.

Lemma atoi_dec n : 0 <= n <= 128 -> atoi (dec n) = Some n /\ bits_text_ok (dec n) = true /\ no_byte "/" (dec n) = true.
Proof.
  intros Hn. split; [|split; [|by apply dec_no_byte]].
  - pose proof (upto_spec 129 (fun b => match atoi (dec b) with Some n => n =? b | None => false end) n
      ltac:(vm_compute; reflexivity) ltac:(lia)) as H. cbv beta in H. destruct (atoi (dec n)); [|done]. zbool. by subst.
  - exact (upto_spec 129 (fun b => bits_text_ok (dec b)) n ltac:(vm_compute; reflexivity) ltac:(lia)).
Qed.

(** The text of a network reads back as its address and length. *)
Lemma ParsePrefix_text n : wf_net n ->
  ParsePrefix (IPNet_String n) = Some (mkNetipPrefix (mkNetip (ipnet_IP n) "") (pones n)).
Proof.
  intros Hn. destruct (wf_net_facts n Hn) as (Hb & Ho & H128 & Hl & Hh & Hh2 & _ & _ & Hm).
  destruct (wf_net_eta n Hn) as [V E].
  destruct (ParseAddr_IP_String (lo n) (pbits n) Hb ltac:(lia) Hm) as [Ha Hnb].
  assert (IPNet_String n = IP_String (ipnet_IP n) +:+ String "/" (dec (pones n))) as ->.
  { transitivity (IPNet_String (mk_net (lo n) (pones n) (pbits n))); [by rewrite <-E|].
    rewrite IPNet_String_mk by done.
    change (encode (Z.to_nat (pbits n / 8)) (lo n)) with (ipnet_IP (mk_net (lo n) (pones n) (pbits n))). by rewrite <-E. }
  change (encode (Z.to_nat (pbits n / 8)) (lo n)) with (ipnet_IP (mk_net (lo n) (pones n) (pbits n))) in Ha, Hnb.
  rewrite <-E in Ha, Hnb. set (a := IP_String (ipnet_IP n)) in *. destruct (atoi_dec (pones n) ltac:(lia)) as (Hd & Ht & Hs).
  unfold ParsePrefix. rewrite LastIndexByte_app by done. rewrite take_str_app.
  change (a +:+ String "/" (dec (pones n))) with (a +:+ (String "/" "" +:+ dec (pones n))).
  rewrite <-append_assoc_str. replace (S (String.length a)) with (String.length (a +:+ String "/" ""))
    by (clear; induction a; simpl; [done | by f_equal]).
  rewrite drop_str_app, (netip_ParseAddr_plain a _ Ha). cbn [na_zone]. change (String.eqb "" "") with true. cbn [negb].
  rewrite Ht, Hd. cbn [negb]. unfold BitLen. cbn [na_bytes].
  assert (Z.of_nat (length (ipnet_IP n)) * 8 = pbits n) as ->.
  { rewrite E at 1. cbn [mk_net ipnet_IP]. rewrite length_encode. by destruct Hb as [-> | ->]. }
  destruct (Z.ltb_spec (pones n) 0); [lia|]. destruct (Z.ltb_spec (pbits n) (pones n)); [lia | done].
Qed.

(** ** What [ParsePrefix] accepts, [ParseCIDR] accepts *)

(** No separator of the text forms above an address. *)
Definition addr_text (s : string) : bool := no_byte "/" s && no_byte "%" s.

Lemma addr_text_app a b : addr_text (a +:+ b) = addr_text a && addr_text b.
Proof. unfold addr_text. rewrite !no_byte_app. by destruct (no_byte "/" a), (no_byte "%" a), (no_byte "/" b). Qed.

Lemma addr_text_cons c s : addr_text (String c s) = negb (Ascii.eqb "/" c) && negb (Ascii.eqb "%" c) && addr_text s.
Proof. unfold addr_text. cbn [no_byte]. by destruct (Ascii.eqb "/" c), (Ascii.eqb "%" c), (no_byte "/" s). Qed.

Lemma dec_digit_text c d : dec_digit c = Some d -> negb (Ascii.eqb "/" c) && negb (Ascii.eqb "%" c) = true.
Proof. destruct (Ascii.eqb_spec "/" c) as [<-|]; [done|]. by destruct (Ascii.eqb_spec "%" c) as [<-|]. Qed.

Lemma hex_value_text c d : hex_value c = Some d -> negb (Ascii.eqb "/" c) && negb (Ascii.eqb "%" c) = true.
Proof. destruct (Ascii.eqb_spec "/" c) as [<-|]; [done|]. by destruct (Ascii.eqb_spec "%" c) as [<-|]. Qed.

Lemma parse4_text s : forall val digLen fields b, parse4_loop s val digLen fields = Some b -> addr_text s = true.
Proof.
  induction s as [|c s IH]; [done|]. intros val digLen fields b. cbn [parse4_loop]. rewrite addr_text_cons.
  destruct (dec_digit c) as [d|] eqn:Hd.
  - rewrite (dec_digit_text c d Hd). destruct (_ && _); [done|]. destruct (255 <? _); [done|]. apply IH.
  - destruct (Ascii.eqb_spec c ".") as [->|]; [|done]. destruct (digLen =? 0); [done|].
    destruct (length fields =? 3)%nat; [done|]. apply IH.
Qed.

Lemma hex_group_text s : forall off acc v k rest, hex_group s off acc = Some (v, k, rest) ->
  addr_text rest = true -> addr_text s = true.
Proof.
  induction s as [|c s IH]; [done|]. intros off acc v k rest. cbn [hex_group]. destruct (hex_value c) as [d|] eqn:Hd.
  - rewrite addr_text_cons, (hex_value_text c d Hd). destruct (_ || _); [done|]. apply IH.
  - by intros [= _ _ <-].
Qed.

Lemma hex_group_rest s : forall off acc v k rest, hex_group s off acc = Some (v, k, rest) ->
  addr_text s = true -> addr_text rest = true.
Proof.
  induction s as [|c s IH]; intros off acc v k rest; cbn [hex_group]; [by intros [= _ _ <-]|].
  destruct (hex_value c); [|by intros [= _ _ <-]]. destruct (_ || _); [done|]. rewrite addr_text_cons.
  intros Hg [_ Hs]%andb_true_iff. by eapply IH.
Qed.

Lemma parse6_plain_text fuel : forall s ip ell t ip' ell', parse6_loop fuel s ip ell = Some (t, ip', ell') ->
  addr_text t = true -> addr_text s = true.
Proof.
  induction fuel as [|fuel IH]; intros s ip ell t ip' ell'; cbn [parse6_loop]; [by intros [= <- _ _]|].
  destruct (hex_group s 0 0) as [[[acc off] rest]|] eqn:Hg; [|done]. destruct (off =? 0); [done|].
  intros H Ht. apply (hex_group_text _ _ _ _ _ _ Hg). destruct rest as [|c rest]; [done|].
  destruct (Ascii.eqb_spec c ".") as [->|Hdot].
  { destruct (match ell with None => _ | Some _ => _ end); [done|]. destruct (12 <? length ip)%nat; [done|].
    destruct (parseIPv4 s) eqn:H4; [|done]. apply parse4_text in H4.
    exact (hex_group_rest _ _ _ _ _ _ Hg H4). }
  destruct (Ascii.eqb_spec c ":") as [->|]; [cbn [negb] in H|done]. rewrite addr_text_cons. cbn [negb Ascii.eqb Bool.eqb andb].
  destruct rest as [|c2 rest2]; [done|]. destruct (Ascii.eqb_spec c2 ":") as [->|].
  - destruct ell; [done|]. rewrite addr_text_cons. cbn [negb Ascii.eqb Bool.eqb andb]. destruct rest2; [done|]. by eapply IH.
  - by eapply IH.
Qed.

Lemma expand6_text r b : expand6 r = Some b -> exists ip ell, r = Some ("", ip, ell).
Proof. destruct r as [[[[|c t] ip] ell]|]; [by eexists _, _ | done..]. Qed.

Lemma parseIPv6_text s b : parseIPv6 s = Some b -> addr_text s = true.
Proof.
  unfold parseIPv6. destruct (HasPrefix s "::") eqn:Hp.
  - assert (s = "::" +:+ drop_str 2 s) as E by (apply HasPrefix_iff in Hp as [r ->]; done).
    rewrite E at 2. rewrite addr_text_app. change (addr_text "::") with true. cbn [andb].
    destruct (drop_str 2 s) as [|c t]; [done|]. intros H. apply expand6_text in H as (ip & ell & H). by eapply parse6_plain_text.
  - intros H. apply expand6_text in H as (ip & ell & H). by eapply parse6_plain_text.
Qed.

(** Without a zone, [netip.ParseAddr] reads what [ParseAddr] reads. *)
Lemma netip_no_zone s b : netip_ParseAddr s = Some (mkNetip b "") -> ParseAddr s = Some b /\ no_byte "/" s = true.
Proof.
  unfold netip_ParseAddr, ParseAddr. intros H.
  assert (addr_text s = true /\ match netip_family s with Some "."%char => parseIPv4 s | _ => parseIPv6 s end = Some b
    /\ (netip_family s = Some "."%char \/ netip_family s = Some ":"%char)) as (Ht & Hp & Hf).
  { destruct (netip_family s) as [c|]; [|done].
    destruct (Ascii.eqb_spec c ".") as [->|]; [|destruct (Ascii.eqb_spec c ":") as [->|]].
    - destruct (parseIPv4 s) eqn:E; [|done]. injection H as ->. split; [by eapply parse4_text | auto].
    - unfold netip_parse6 in H. destruct (cut_byte s "%") as [[a z]|].
      + destruct (String.eqb_spec z ""); [done|]. destruct (parseIPv6 a); [|done]. by injection H.
      + destruct (parseIPv6 s) eqn:E; [|done]. injection H as ->. split; [by eapply parseIPv6_text | auto].
    - exfalso. destruct c as [[] [] [] [] [] [] [] []]; done. }
  unfold addr_text in Ht. apply andb_true_iff in Ht as [Hs Hz]. rewrite Hz. cbn [negb].
  rewrite <-(netip_family_plain s Hz). split; [|done]. by destruct Hf as [E | E]; rewrite E in *.
Qed.

Lemma LastIndexByte_Some s c i : LastIndexByte s c = Some i -> s = take_str i s +:+ String c (drop_str (S i) s).
Proof.
  revert i. induction s as [|d s IH]; [done|]. intros i. cbn [LastIndexByte]. destruct (LastIndexByte s c) as [j|].
  - intros [= <-]. cbn [take_str drop_str]. rewrite app_cons_str. f_equal. by apply IH.
  - destruct (Ascii.eqb_spec c d) as [->|]; [|done]. intros [= <-]. by destruct s.
Qed.

Lemma atoi_loop_ge s : forall m n, 0 <= m -> atoi_loop s m = Some n -> m <= n.
Proof.
  induction s as [|c s IH]; intros m n Hm; cbn [atoi_loop]; [intros [= ->]; lia|].
  destruct (dec_digit c) as [d|] eqn:Hd; [|done]. apply dec_digit_range in Hd. intros H. apply IH in H; lia.
Qed.

Lemma atoi_dtoi s n : atoi s = Some n -> n <= 128 -> dtoi s = Some n.
Proof.
  unfold atoi, dtoi. destruct s as [|c s]; [done|]. generalize (String c s) as t. intros t.
  enough (forall m, 0 <= m -> atoi_loop t m = Some n -> n <= 128 -> dtoi_loop t m = Some n) as H by by apply H.
  induction t as [|e t IH]; intros m Hm; cbn [atoi_loop dtoi_loop]; [done|].
  destruct (dec_digit e) as [d|] eqn:Hd; [|done]. apply dec_digit_range in Hd. intros H Hn.
  assert (m * 10 + d <= n) by (eapply atoi_loop_ge; [|exact H]; lia). cbv zeta. destruct (Z.leb_spec 16777215 (m * 10 + d)); [lia|]. by apply IH; [lia|..].
Qed.

Lemma length_As16_bits (b : list Z) bits : (length b = 4%nat \/ length b = 16%nat) -> 0 <= bits <= Z.of_nat (length b) * 8 -> bits <= 128.
Proof. intros [E|E]; rewrite E; lia. Qed.

(** A range the client accepts, the server parses, as the same block. *)
Lemma ParsePrefix_ParseCIDR s p : ParsePrefix s = Some p ->
  na_zone (np_addr p) = ""
  /\ exists n, ParseCIDR s = Some (As16 (na_bytes (np_addr p)), n) /\ is_block n
       /\ pones n = np_bits p /\ pbits n = BitLen (np_addr p).
Proof.
  unfold ParsePrefix. destruct (LastIndexByte s "/") as [i|] eqn:Hi; [|done]. apply LastIndexByte_Some in Hi.
  destruct (netip_ParseAddr (take_str i s)) as [[b z]|] eqn:Ha; [|done]. cbn [na_zone].
  destruct (String.eqb_spec z "") as [->|]; [cbn [negb]|done]. destruct (bits_text_ok _); [cbn [negb]|done].
  destruct (atoi _) as [bits|] eqn:Hb; [|done]. destruct (_ || _) eqn:Hr; [done|]. intros [= <-].
  cbn [np_addr na_zone np_bits na_bytes]. split; [done|]. apply netip_no_zone in Ha as [Ha Hs]. zbool. unfold BitLen in *. cbn [na_bytes] in *.
  destruct (ParseAddr_ok _ _ Ha) as [Hok Hl].
  pose proof (atoi_dtoi _ _ Hb (length_As16_bits b bits Hl ltac:(lia))) as Hd.
  assert (ParseCIDR s = Some (As16 b, mkIPNet (IP_Mask (As16 b) (CIDRMask bits (Z.of_nat (length b) * 8)))
            (CIDRMask bits (Z.of_nat (length b) * 8)))) as E.
  { unfold ParseCIDR. rewrite Hi at 1. destruct (IndexByte_split (take_str i s) (drop_str (S i) s) Hs) as (-> & _).
    assert (String.length (take_str i s) = i) as ->.
    { clear -Hi. revert i Hi. induction s as [|c s IH]; intros [|i] Hi; try done. cbn in *. f_equal. apply IH. by injection Hi. }
    rewrite Ha, Hd. destruct (Z.ltb_spec (Z.of_nat (length b) * 8) bits); [lia | done]. }
  eexists. split; [exact E|]. split; [by eapply ParseCIDR_block|].
  assert (family_bits (Z.of_nat (length b) * 8)) as Hfam by (destruct Hl as [-> | ->]; [by left | by right]).
  unfold pones, pbits. cbn [ipnet_Mask]. by rewrite Mask_Size_CIDRMask by (done || lia).
Qed.

(** ** Allocations as the server stores them *)

(** The text of a block, and no single-address form: no code of the server writes
    one. *)
Definition stored_as (al : IPAllocation) (n : IPNet) : Prop :=
  alst_Address (al_Status al) = "" /\ alst_AllocatedCIDR (al_Status al) = IPNet_String n /\ wf_net n.

(** An address of a family, and its text. *)
Definition is_host (w h : Z) : Prop := family_bits w /\ 0 <= h < 2 ^ w /\ (w = 128 -> ~ v4mapped h).
Definition host_text (w h : Z) : string := IP_String (encode (Z.to_nat (w / 8)) h).

Lemma host_text_reads w h : is_host w h ->
  netip_ParseAddr (host_text w h) = Some (mkNetip (encode (Z.to_nat (w / 8)) h) "")
  /\ no_byte "/" (host_text w h) = true /\ host_text w h <> "".
Proof.
  intros (Hw & Hh & Hm). destruct (ParseAddr_IP_String h w Hw Hh Hm) as [Hp Hs].
  split; [by apply netip_ParseAddr_plain|]. split; [exact Hs|]. unfold host_text. intros E. by rewrite E in Hp.
Qed.

Lemma same_bucket a h k : 0 <= k -> a mod 2 ^ k = 0 -> (h / 2 ^ k =? a / 2 ^ k) = (a <=? h) && (h <=? a + 2 ^ k - 1).
Proof.
  intros Hk Ha. pose proof (pow2_pos k Hk). pose proof (Z.div_mod a (2 ^ k) ltac:(lia)).
  pose proof (Z.div_mod h (2 ^ k) ltac:(lia)). pose proof (Z.mod_pos_bound h (2 ^ k) ltac:(lia)).
  apply Bool.eq_true_iff_eq. rewrite andb_true_iff, Z.eqb_eq, !Z.leb_le. split; nia.
Qed.

Lemma allocationCovers_stored al n w h : stored_as al n -> is_host w h ->
  allocationCovers al (host_text w h) = if covers n w h then Some (pones n) else None.
Proof.
  intros (_ & Hc & Hn) Hh. unfold allocationCovers. rewrite Hc, ParsePrefix_text by done.
  destruct (host_text_reads w h Hh) as [-> _]. destruct Hh as (Hw & Hh & _). cbn [np_bits].
  destruct (wf_net_eta n Hn) as [_ E].
  destruct (wf_net_facts n Hn) as (Hb & Ho & H128 & Hl & Hlh & Hh2 & Hhi & Ha & _).
  assert (ipnet_IP n = encode (Z.to_nat (pbits n / 8)) (lo n)) as -> by by rewrite E at 1.
  rewrite Prefix_Contains_spec by (done || lia). unfold covers. rewrite Hhi, same_bucket by (done || lia).
  by rewrite andb_assoc.
Qed.

Lemma no_exact al n w h : stored_as al n -> is_host w h -> exact_match (host_text w h) al = false.
Proof.
  intros (Ha & Hc & Hn) Hh. destruct (host_text_reads w h Hh) as (_ & Hs & Hne). unfold exact_match.
  rewrite Ha, Hc. apply orb_false_iff. split; apply String.eqb_neq; [congruence|]. intros E. rewrite <-E in Hs.
  destruct (wf_net_eta n Hn) as [V En]. rewrite En, IPNet_String_mk, no_byte_app in Hs by done.
  by rewrite andb_comm in Hs.
Qed.

(** ** The loop *)

Definition best_of (arg : string) (bits : Z) (al : IPAllocation) : bool :=
  negb (exact_match arg al) && bool_decide (allocationCovers al arg = Some bits).

(** The best length so far: held by some block, and not below any. *)
Definition best_len (arg : string) (items : list IPAllocation) (bits : Z) : Prop :=
  (bits = -1 \/ existsb (best_of arg bits) items = true)
  /\ forall al b, al ∈ items -> exact_match arg al = false -> allocationCovers al arg = Some b -> b <= bits.

Lemma allocationCovers_bits al arg b : allocationCovers al arg = Some b -> 0 <= b.
Proof.
  unfold allocationCovers. destruct (ParsePrefix (alst_AllocatedCIDR _)) as [[a bits]|] eqn:Hp; [|done].
  assert (0 <= bits) as Hb.
  { unfold ParsePrefix in Hp. repeat case_match; try done. injection Hp as _ <-. zbool. lia. }
  cbn [np_bits]. repeat case_match; try done; by intros [= <-].
Qed.

Lemma filter_snoc {A} (p : A -> bool) l x : List.filter p (l ++ [x]) = List.filter p l ++ if p x then [x] else [].
Proof. rewrite List.filter_app. cbn. by destruct (p x). Qed.

Lemma filter_none {A} (p : A -> bool) l : existsb p l = false -> List.filter p l = [].
Proof.
  induction l as [|x l IH]; [done|]. cbn. intros [H1 H2]%orb_false_iff. rewrite H1. auto.
Qed.

Lemma best_of_exact arg bits al : exact_match arg al = true -> best_of arg bits al = false.
Proof. unfold best_of. by intros ->. Qed.

Lemma best_of_covers arg bits al : exact_match arg al = false ->
  best_of arg bits al = match allocationCovers al arg with Some b => b =? bits | None => false end.
Proof.
  unfold best_of. intros ->. cbn [negb andb]. destruct (allocationCovers al arg) as [b|]; [|done].
  destruct (Z.eqb_spec b bits) as [->|]; [by rewrite bool_decide_true | rewrite bool_decide_false; congruence].
Qed.

(** A block no better than the best so far, or no block at all, changes nothing. *)
Lemma best_len_keep arg items al bits : best_len arg items bits ->
  (forall b, exact_match arg al = false -> allocationCovers al arg = Some b -> b <= bits) ->
  best_len arg (items ++ [al]) bits.
Proof.
  intros [Hs Hm] Hal. split.
  - destruct Hs as [Hs|Hs]; [by left | right]. by rewrite existsb_app, Hs.
  - intros x b Hx Hex Hc. apply elem_of_app in Hx as [Hx | ->%list_elem_of_singleton]; [by eapply Hm | by apply Hal].
Qed.

(** A better block starts afresh. *)
Lemma best_len_new arg items al bits b : best_len arg items bits -> bits < b ->
  exact_match arg al = false -> allocationCovers al arg = Some b ->
  best_len arg (items ++ [al]) b /\ List.filter (best_of arg b) items = [].
Proof.
  intros [_ Hm] Hlt He Hc. split; [split|].
  - right. rewrite existsb_app. cbn. rewrite best_of_covers, Hc, Z.eqb_refl by done. by rewrite orb_true_r.
  - intros x c Hx Hex Hxc. apply elem_of_app in Hx as [Hx | ->%list_elem_of_singleton]; [|simplify_eq; lia].
    specialize (Hm x c Hx Hex Hxc). lia.
  - apply filter_none, not_true_is_false. intros (x & Hx & [Hex Hxc%bool_decide_eq_true]%andb_true_iff)%existsb_exists.
    apply list_elem_of_In in Hx. specialize (Hm x b Hx ltac:(by apply negb_true_iff) Hxc). lia.
Qed.

Lemma lookup_loop arg items : exists bits,
  foldl (lookup_step arg) ([], [], -1) items
  = (List.filter (exact_match arg) items, List.filter (best_of arg bits) items, bits)
  /\ best_len arg items bits.
Proof.
  induction items as [|al items (bits & IH & Hb)] using rev_ind.
  { exists (-1). split; [done|]. split; [by left|]. intros ? ? H. by apply not_elem_of_nil in H. }
  rewrite foldl_app, IH. cbn [foldl lookup_step]. setoid_rewrite filter_snoc. destruct (exact_match arg al) eqn:He.
  { exists bits. rewrite best_of_exact, app_nil_r by done. split; [done|]. apply best_len_keep; congruence. }
  setoid_rewrite (best_of_covers arg _ al He). rewrite app_nil_r. destruct (allocationCovers al arg) as [b|] eqn:Hc.
  - destruct (Z.ltb_spec bits b) as [Hlt|Hge]; [|destruct (Z.eqb_spec b bits) as [->|Hne]].
    + exists b. destruct (best_len_new arg items al bits b Hb Hlt He Hc) as [Hl ->]. by rewrite Z.eqb_refl.
    + exists bits. rewrite Z.eqb_refl. split; [done|]. apply best_len_keep; [done|]. intros c _ Hx. simplify_eq. lia.
    + exists bits. rewrite (proj2 (Z.eqb_neq _ _)), app_nil_r by done. split; [done|].
      apply best_len_keep; [done|]. intros c _ Hx. simplify_eq. lia.
  - exists bits. rewrite app_nil_r. split; [done|]. apply best_len_keep; congruence.
Qed.

Lemma filter_nonempty {A} (p : A -> bool) l : existsb p l = true -> List.filter p l <> [].
Proof. intros (x & Hx & Hp)%existsb_exists E. apply (in_nil (a := x)). rewrite <-E. by apply List.filter_In. Qed.

(** What the lookup answers, whatever the statuses hold: the allocations that hold the
    argument literally, else those of the longest covering block. *)
Lemma lookup_spec `{ApiMachinery} items arg :
  (existsb (exact_match arg) items = true
   /\ lookupAllocationsByAddress (Ok items) arg = Ok (List.filter (exact_match arg) items))
  \/ (existsb (exact_match arg) items = false
      /\ ((exists bits, best_len arg items bits /\ existsb (best_of arg bits) items = true
           /\ lookupAllocationsByAddress (Ok items) arg = Ok (List.filter (best_of arg bits) items))
          \/ ((forall al, al ∈ items -> allocationCovers al arg = None)
              /\ lookupAllocationsByAddress (Ok items) arg = Err (newCLIError exitNotFound)))).
Proof.
  cbn [lookupAllocationsByAddress wrap_err mbind result_bind]. unfold lookup_holders. destruct (lookup_loop arg items) as (bits & -> & Hb).
  destruct (existsb (exact_match arg) items) eqn:He; [left | right]; (split; [done|]).
  { pose proof (filter_nonempty _ _ He). by destruct (List.filter (exact_match arg) items). }
  rewrite (filter_none _ _ He). destruct (existsb (best_of arg bits) items) eqn:Hx; [left | right].
  { exists bits. split; [done|]. split; [done|]. pose proof (filter_nonempty _ _ Hx).
    by destruct (List.filter (best_of arg bits) items). }
  rewrite (filter_none _ _ Hx). split; [|done]. destruct Hb as [[-> | Hb] Hm]; [|congruence].
  intros al Hal. destruct (allocationCovers al arg) as [b|] eqn:Hc; [|done].
  assert (exact_match arg al = false) as Hex.
  { apply not_true_is_false. intros E. apply not_true_iff_false in He. apply He. apply existsb_exists.
    exists al. split; [by apply list_elem_of_In | done]. }
  specialize (Hm al b Hal Hex Hc). pose proof (allocationCovers_bits _ _ _ Hc). lia.
Qed.

(** Each allocation beside the block its status holds the text of. *)
Definition as_stored (items : list (IPAllocation * IPNet)) : Prop := Forall (fun x => stored_as x.1 x.2) items.

Lemma best_of_stored x w h bits : stored_as x.1 x.2 -> is_host w h ->
  best_of (host_text w h) bits x.1 = covers x.2 w h && (pones x.2 =? bits).
Proof.
  intros Hx Hh. rewrite best_of_covers by by eapply no_exact. rewrite (allocationCovers_stored _ x.2) by done.
  by destruct (covers x.2 w h).
Qed.

Lemma filter_map_fst {A B} (p : A -> bool) (q : A * B -> bool) l :
  Forall (fun x => p x.1 = q x) l -> List.filter p l.*1 = (List.filter q l).*1.
Proof.
  induction 1 as [|x l Hx _ IH]; [done|]. cbn. rewrite Hx, IH. by destruct (q x).
Qed.

(** [C31] The reverse lookup names every holder.  Asked about a host address, over
    allocations as the server stores them, it answers the allocations whose block
    holds the address and is as small as any block that does: all of them, in the
    order listed, nothing else; and it reports the address as not allocated only
    when no allocation's block holds it. *)
Theorem address_lookup_exact `{ApiMachinery} items w h :
  as_stored items -> is_host w h ->
  match lookupAllocationsByAddress (Ok items.*1) (host_text w h) with
  | Ok holders => exists u,
      (exists x, x ∈ items /\ covers x.2 w h = true /\ pones x.2 = u)
      /\ (forall x, x ∈ items -> covers x.2 w h = true -> pones x.2 <= u)
      /\ holders = (List.filter (fun x => covers x.2 w h && (pones x.2 =? u)) items).*1
  | Err e => ce_code e = exitNotFound /\ forall x, x ∈ items -> covers x.2 w h = false
  end.
Proof.
  intros Hs Hh. assert (forall x, x ∈ items -> stored_as x.1 x.2) as Hs' by by apply Forall_forall.
  destruct (lookup_spec items.*1 (host_text w h)) as [[He _] | [_ [(bits & Hb & Hx & ->) | [Hn ->]]]].
  - exfalso. apply existsb_exists in He as (al & Hal & He). apply list_elem_of_In in Hal.
    apply list_elem_of_fmap in Hal as (x & -> & Hx). rewrite (no_exact _ x.2) in He; auto. done.
  - exists bits. split; [|split].
    + apply existsb_exists in Hx as (al & Hal & Hx). apply list_elem_of_In in Hal.
      apply list_elem_of_fmap in Hal as (x & -> & Hin). rewrite best_of_stored in Hx by auto.
      apply andb_true_iff in Hx as [Hc Hp%Z.eqb_eq]. by exists x.
    + intros x Hin Hc. apply (proj2 Hb x.1); [by apply list_elem_of_fmap_2 | by eapply no_exact; auto|].
      rewrite (allocationCovers_stored _ x.2) by auto. by rewrite Hc.
    + apply filter_map_fst, Forall_forall. intros x Hin. by apply best_of_stored; auto.
  - split; [done|]. intros x Hin. specialize (Hn x.1 ltac:(by apply list_elem_of_fmap_2)).
    rewrite (allocationCovers_stored _ x.2) in Hn by auto. by destruct (covers x.2 w h).
Qed.

(** ** Two holders of one address that are no defect *)

Definition ex_alloc (name digest cidr : string) : IPAllocation :=
  mkIPAllocation (mkMeta name ∅ ∅) "default"
    (mkAllocSpec IPv4 (mkLocalRef "edge") "net" PurposeClaim (Some (mkLocalRef name)) ∅ "" None)
    (mkAllocStatus AllocationReady cidr "" digest).

Definition ex_items : list (IPAllocation * IPNet) :=
  map (fun x => (ex_alloc x.1.1 x.1.2 (IPNet_String x.2), x.2))
    [(("wide", "a"), mk_net (10 * 2 ^ 24) 24 32); (("red", "a"), mk_net (10 * 2 ^ 24 + 8) 32 32);
     (("blue", "b"), mk_net (10 * 2 ^ 24 + 8) 32 32)].

Lemma address_lookup_exact_witness :
  exists u, @lookupAllocationsByAddress plain_machinery (Ok ex_items.*1) (host_text 32 (10 * 2 ^ 24 + 8)) = Ok (drop 1 ex_items).*1 /\ u = 32.
Proof.
  assert (as_stored ex_items) as Hs.
  { apply Forall_cons_2; [|apply Forall_cons_2; [|apply Forall_cons_2; [|apply Forall_nil_2]]];
      (split; [done|]; split; [reflexivity | apply wf_netb_spec; vm_compute; reflexivity]). }
  assert (is_host 32 (10 * 2 ^ 24 + 8)) as Hh by (split; [by left|]; split; [lia | done]).
  pose proof (@address_lookup_exact plain_machinery ex_items 32 (10 * 2 ^ 24 + 8) Hs Hh) as H.
  destruct (@lookupAllocationsByAddress plain_machinery (Ok ex_items.*1) (host_text 32 (10 * 2 ^ 24 + 8))) as [holders|e].
  - destruct H as (u & (x & Hx & Hc & Hu) & Hm & ->). exists u.
    assert (u = 32) as ->; [|split; [|done]; vm_compute; reflexivity].
    pose proof (Hm (ex_alloc "red" "a" (IPNet_String (mk_net (10 * 2 ^ 24 + 8) 32 32)), mk_net (10 * 2 ^ 24 + 8) 32 32)
      ltac:(right; left) ltac:(vm_compute; reflexivity)) as H32.
    change (pones (_, mk_net (10 * 2 ^ 24 + 8) 32 32).2) with 32 in H32.
    rewrite <- Hu in *. assert (pones x.2 <= 32); [|lia].
    clear - Hx. repeat (apply elem_of_cons in Hx as [-> | Hx]; [vm_compute; discriminate|]). by apply not_elem_of_nil in Hx.
  - destruct H as [_ H]. by specialize (H _ (list_elem_of_here _ _) ).
Defined.

(** The warning speaks of a defect in the data, and of root pools that overlap, whenever
    two blocks of one length hold the address; the address spaces of the holders,
    which is what keeps two such claims apart, are not looked at. *)
Theorem warning_ignores_spaces `{ApiMachinery} a b n w h holders :
  stored_as a n -> stored_as b n -> is_host w h -> covers n w h = true ->
  alst_ScopeDigest (al_Status a) <> alst_ScopeDigest (al_Status b) ->
  lookupAllocationsByAddress (Ok [a; b]) (host_text w h) = Ok holders ->
  holders = [a; b] /\ warnMultipleHolders holders = true.
Proof.
  intros Ha Hb Hh Hc _ Hl. pose proof (no_exact a n w h Ha Hh) as Ea. pose proof (no_exact b n w h Hb Hh) as Eb.
  pose proof (allocationCovers_stored a n w h Ha Hh) as Ca. pose proof (allocationCovers_stored b n w h Hb Hh) as Cb.
  rewrite Hc in Ca, Cb. unfold lookupAllocationsByAddress, lookup_holders in Hl. cbn [wrap_err mbind result_bind foldl lookup_step] in Hl.
  pose proof (allocationCovers_bits _ _ _ Ca). rewrite Ea, Ca in Hl. destruct (Z.ltb_spec (-1) (pones n)); [|lia].
  cbn [lookup_step] in Hl. rewrite Eb, Cb, Z.ltb_irrefl, Z.eqb_refl in Hl. by injection Hl as <-.
Qed.

Lemma warning_ignores_spaces_witness :
  warnMultipleHolders [ex_alloc "red" "a" "10.0.0.8/32"; ex_alloc "blue" "b" "10.0.0.8/32"] = true.
Proof.
  refine (proj2 (@warning_ignores_spaces plain_machinery (ex_alloc "red" "a" "10.0.0.8/32") (ex_alloc "blue" "b" "10.0.0.8/32")
    (mk_net (10 * 2 ^ 24 + 8) 32 32) 32 (10 * 2 ^ 24 + 8) _ _ _ _ _ _ _)).
  - split; [done|]. split; [reflexivity | apply wf_netb_spec; vm_compute; reflexivity].
  - split; [done|]. split; [reflexivity | apply wf_netb_spec; vm_compute; reflexivity].
  - split; [by left|]. split; [lia | done].
  - vm_compute. reflexivity.
  - discriminate.
  - vm_compute. reflexivity.
Defined.
