(* ===== verification/ClientClaim.v ===== *)
(** * ClientClaim: [cmd/milo-ipam/claim.go] and [confirm.go]

    What the command line does with a claim: builds it from its flags, asks the server
    for it at most once per name, shows it by name or by address, and releases it
    after telling the user what becomes of the address.

    The commands run over [ClaimServer], the calls they make on the server's clientset,
    and are proved against [ClaimServerLaws], what they rely on; [ClientServed] proves
    that the claim registry of [Claim] keeps those laws.  The rendering of results,
    the verbose log and the set-up of the client are left out; [IsNotFound] is the API
    machinery's, and the name the client makes up is an argument. *)

From Stdlib Require Import Ascii String.
From S2P Require Import Prelude Text Net Cidr Tenant Scope NetText Types Db Errors Class Validation.
From S2P Require Import ClientScope ClientAddr.
Open Scope string_scope.
Open Scope list_scope.
Open Scope Z_scope.

(** ** [confirm.go] *)

(** What a prompt can draw on: [--yes], whether anyone can answer, and the line typed. *)
Record session := mkSession { se_assumeYes : bool; se_nonInteractive : bool; se_line : string }.

(** [nonInteractive], of whether CI is set and the input is a terminal. *)
Definition nonInteractive (ci isFile isTerminal : bool) : bool := if ci then true else if negb isFile then true else negb isTerminal.

Definition confirmYesNo (se : session) : bool :=
  if se_assumeYes se then true
  else if se_nonInteractive se then true
  else let line := ToLower (TrimSpace (se_line se)) in String.eqb line "y" || String.eqb line "yes".

Definition confirmTyped (se : session) (name : string) : result cliError bool :=
  if se_assumeYes se then Ok true
  else if se_nonInteractive se then Err (newCLIError exitAborted)
  else if negb (String.eqb (TrimSpace (se_line se)) name) then Err (newCLIError exitAborted)
  else Ok true.

(** ** Building a claim *)

Record claimOptions := mkClaimOptions {
  co_class : string;
  co_family : string;
  co_scope : list string;
  co_address : string;
  co_prefixLength : Z;      (* int *)
  co_name : string;
  co_owner : string;
  co_reclaimPolicy : string;
  co_dryRun : bool
}.

(** A Go [int] converted to [int32]. *)
Definition to_int32 (z : Z) : Z := (z + 2 ^ 31) mod 2 ^ 32 - 2 ^ 31.

(** [gen] is the name [generateResourceName] makes up. *)
Definition buildClaim (gen : string) (o : claimOptions) (ns : string) : result cliError IPClaim :=
  if String.eqb (co_class o) "" && String.eqb (co_family o) "" then Err usageErrorf
  else
    family ← (if String.eqb (co_family o) "" then Ok "" else parseFamily (co_family o));
    scope ← buildScope (co_scope o);
    owner ← parseObjectRef (co_owner o);
    policy ← parseReclaimPolicy (co_reclaimPolicy o);
    if negb (String.eqb (co_address o) "") && negb (looksLikeAddress (co_address o)) then Err usageErrorf
    else
      let length := if 0 <? co_prefixLength o then Some (to_int32 (co_prefixLength o)) else None in
      let name := if String.eqb (co_name o) "" then gen else co_name o in
      Ok (mkIPClaim (mkMeta name ∅ ∅) ns 0
            (mkClaimSpec (co_class o) family "" (co_address o) length scope "" policy owner)
            (mkClaimStatus "" "" "" None None)).

(** ** A name that is taken *)

(** The fields a request disagrees on with the claim that has its name. *)
Inductive diff_field := DiffClass | DiffFamily | DiffAddress | DiffReclaimPolicy | DiffPrefixLength | DiffScope.

Definition stated (f : diff_field) (want got : string) : list diff_field :=
  if negb (String.eqb want "") && negb (String.eqb got "") && negb (String.eqb want got) then [f] else [].

Definition claimRequestDiff (requested existing : IPClaim) : list diff_field :=
  let r := ic_Spec requested in
  let e := ic_Spec existing in
  stated DiffClass (ics_ClassName r) (ics_ClassName e)
  ++ stated DiffFamily (ics_IPFamily r) (ics_IPFamily e)
  ++ stated DiffAddress (ics_Address r) (ics_Address e)
  ++ stated DiffReclaimPolicy (ics_ReclaimPolicy r) (ics_ReclaimPolicy e)
  ++ match ics_PrefixLength r, ics_PrefixLength e with
     | Some a, Some b => if negb (a =? b) then [DiffPrefixLength] else []
     | _, _ => []
     end
  ++ (if negb (size (ics_Scope r) =? 0)%nat && negb (bool_decide (ics_Scope r = ics_Scope e)) then [DiffScope] else []).

Definition claimNameReusedError : cliError := newCLIError exitConflict.

(** ** The server, as the client calls it *)

Class ClaimServer (S : Type) := {
  sv_get : string -> string -> S -> result GoErr IPClaim;                (* namespace, name *)
  sv_list : string -> S -> result GoErr (list IPClaim);
  sv_create : bool -> IPClaim -> S -> result GoErr IPClaim * S;          (* dry run or not *)
  sv_delete : string -> string -> S -> result GoErr unit * S;
  sv_class : string -> S -> result GoErr IPClass
}.

(** What the commands end with when they succeed. *)
Inductive create_outcome := Created (c : IPClaim) | Reused (c : IPClaim) | Previewed (c : IPClaim).
Inductive release_outcome := ReleaseShown (retained : bool) | Released (retained : bool).

Section Commands.
Context {api : ApiMachinery} {S : Type} {sv : ClaimServer S} (IsNotFound : GoErr -> bool).

(** The class listing that decorates a refusal is left out. *)
Definition classGetError (err : GoErr) : cliError :=
  if negb (IsNotFound err) then classifyError err else withCause (newCLIError exitNotFound) err.

(** The 404 branch answers for a NotFound of its own making, [notFound]. *)
Definition claimCreateError (notFound : GoErr) (err : GoErr) (o : claimOptions) : cliError :=
  let code := httpStatusCode err in
  if code =? 507 then exhaustionError err
  else if code =? 404 then if negb (String.eqb (co_class o) "") then classGetError notFound else classifyError err
  else if code =? 409 then withCause (newCLIError exitConflict) err
  else classifyError err.

(** [client] is the namespace, once the clientset is set up. *)
Definition runClaimCreate (notFound : GoErr) (client : result cliError string) (gen : string) (o : claimOptions) (s : S)
    : result cliError create_outcome * S :=
  match buildClaim gen o "" with
  | Err e => (Err e, s)
  | Ok claim =>
    match client with
    | Err e => (Err e, s)
    | Ok ns =>
      let claim := mkIPClaim (ic_Meta claim) ns (ic_ResourceVersion claim) (ic_Spec claim) (ic_Status claim) in
      let create :=
        if co_dryRun o then
          match sv_create true claim s with
          | (Err e, s) => (Err (claimCreateError notFound e o), s)
          | (Ok c, s) => (Ok (Previewed c), s)
          end
        else
          match sv_create false claim s with
          | (Err e, s) => (Err (claimCreateError notFound e o), s)
          | (Ok c, s) => (Ok (Created c), s)
          end in
      if negb (String.eqb (co_name o) "") then
        match sv_get ns (co_name o) s with
        | Ok existing => match claimRequestDiff claim existing with
                         | _ :: _ => (Err claimNameReusedError, s)
                         | [] => (Ok (Reused existing), s)
                         end
        | Err e => if negb (IsNotFound e) then (Err (classifyError e), s) else create
        end
      else create
    end
  end.

(** ** Reading claims *)

Definition claimAddress (c : IPClaim) : string :=
  if negb (String.eqb (icst_Address (ic_Status c)) "") then icst_Address (ic_Status c)
  else icst_AllocatedCIDR (ic_Status c).

Definition claimPoolName (c : IPClaim) : string :=
  match icst_PoolRef (ic_Status c) with Some r => lr_Name r | None => emDash end.

(** The filters of [claim list]. *)
Definition listClaims (class pool : string) (scopeArgs : list string) (client : result cliError string) (s : S)
    : result cliError (list IPClaim) :=
  ns ← client;
  wantScope ← buildScope scopeArgs;
  items ← wrap_err classifyError (sv_list ns s);
  mret (List.filter (fun c =>
    negb (negb (String.eqb class "") && negb (String.eqb (ics_ClassName (ic_Spec c)) class))
    && negb (negb (String.eqb pool "") && negb (String.eqb (claimPoolName c) pool))
    && scopeContains (ics_Scope (ic_Spec c)) wantScope) items).

Definition holds_address (arg : string) (c : IPClaim) : bool :=
  String.eqb (icst_Address (ic_Status c)) arg || String.eqb (icst_AllocatedCIDR (ic_Status c)) arg.

Definition resolveClaim (ns arg : string) (s : S) : result cliError IPClaim :=
  if looksLikeAddress arg then
    items ← wrap_err classifyError (sv_list ns s);
    match List.find (holds_address arg) items with
    | Some c => Ok c
    | None => Err (newCLIError exitNotFound)
    end
  else wrap_err (fun e => if IsNotFound e then withCause (newCLIError exitNotFound) e else classifyError e) (sv_get ns arg s).

(** ** Releasing *)

Definition effectiveReclaimPolicy (c : IPClaim) (s : S) : ReclaimPolicy :=
  if negb (String.eqb (ics_ReclaimPolicy (ic_Spec c)) "") then ics_ReclaimPolicy (ic_Spec c)
  else if String.eqb (ics_ClassName (ic_Spec c)) "" then ReclaimDelete
  else match sv_class (ics_ClassName (ic_Spec c)) s with
       | Err _ => ReclaimDelete
       | Ok class => if String.eqb (cs_ReclaimPolicy (cl_Spec class)) "" then ReclaimDelete
                     else cs_ReclaimPolicy (cl_Spec class)
       end.

Definition runClaimRelease (se : session) (dryRun : bool) (ns name : string) (s : S) : result cliError release_outcome * S :=
  match sv_get ns name s with
  | Err e => (Err (if IsNotFound e then withCause (newCLIError exitNotFound) e else classifyError e), s)
  | Ok claim =>
    let retained := String.eqb (effectiveReclaimPolicy claim s) ReclaimRetain in
    if dryRun then (Ok (ReleaseShown retained), s)
    else if negb (confirmYesNo se) then (Err (newCLIError exitAborted), s)
    else match sv_delete ns name s with
         | (Err e, s) => (Err (classifyError e), s)
         | (Ok _, s) => (Ok (Released retained), s)
         end
  end.
End Commands.

(** ** What the commands rely on *)

(** A claim the server granted: what it was asked for, where it was asked for, and the
    text of a block, with no single-address form. *)
Record answers (asked got : IPClaim) : Prop := {
  an_name : ic_Name got = ic_Name asked;
  an_namespace : ic_Namespace got = ic_Namespace asked;
  an_class : ics_ClassName (ic_Spec asked) <> "" -> ics_ClassName (ic_Spec got) = ics_ClassName (ic_Spec asked);
  an_family : ics_IPFamily (ic_Spec asked) <> "" -> ics_IPFamily (ic_Spec got) = ics_IPFamily (ic_Spec asked);
  an_address : ics_Address (ic_Spec got) = ics_Address (ic_Spec asked);
  an_length : ics_PrefixLength (ic_Spec got) = ics_PrefixLength (ic_Spec asked);
  an_scope : ics_Scope (ic_Spec got) = ics_Scope (ic_Spec asked);
  an_policy : ics_ReclaimPolicy (ic_Spec got) = ics_ReclaimPolicy (ic_Spec asked);
  an_status : icst_Address (ic_Status got) = ""
              /\ exists n, wf_net n /\ icst_AllocatedCIDR (ic_Status got) = IPNet_String n
}.

Class ClaimServerLaws (S : Type) {sv : ClaimServer S} := {
  sv_ok : S -> Prop;
  sv_created : forall c s got s', sv_ok s -> ic_Name c <> "" -> sv_create false c s = (Ok got, s') ->
    answers c got
    /\ exists rv, sv_get (ic_Namespace c) (ic_Name c) s' = Ok (ic_set_rv got rv)
}.

(** ** A claim's name is asked for once *)

Lemma stated_nil f want got : stated f want got = [] <-> (want = "" \/ got = "" \/ want = got).
Proof.
  unfold stated. destruct (String.eqb_spec want ""), (String.eqb_spec got ""), (String.eqb_spec want got); cbn; split;
    try tauto; try done; intros [|[|]]; done.
Qed.

(** The claim that has the name answers the request: each field both of them state is
    the same, and the scope is the one the request states, if it states one. *)
Record answers_request (asked got : IPClaimSpec) : Prop := {
  ar_class : ics_ClassName asked <> "" -> ics_ClassName got <> "" -> ics_ClassName asked = ics_ClassName got;
  ar_family : ics_IPFamily asked <> "" -> ics_IPFamily got <> "" -> ics_IPFamily asked = ics_IPFamily got;
  ar_address : ics_Address asked <> "" -> ics_Address got <> "" -> ics_Address asked = ics_Address got;
  ar_policy : ics_ReclaimPolicy asked <> "" -> ics_ReclaimPolicy got <> "" -> ics_ReclaimPolicy asked = ics_ReclaimPolicy got;
  ar_length : forall a b, ics_PrefixLength asked = Some a -> ics_PrefixLength got = Some b -> a = b;
  ar_scope : ics_Scope asked <> ∅ -> ics_Scope asked = ics_Scope got
}.

(** [claimRequestDiff] finds nothing exactly then. *)
Lemma claimRequestDiff_nil r e : claimRequestDiff r e = [] <-> answers_request (ic_Spec r) (ic_Spec e).
Proof.
  assert (forall f a b, stated f a b = [] <-> (a <> "" -> b <> "" -> a = b)) as Hst.
  { intros f a b. rewrite stated_nil. destruct (String.eqb_spec a ""), (String.eqb_spec b ""); naive_solver. }
  unfold claimRequestDiff. rewrite !app_nil, !Hst. split.
  - intros (H1 & H2 & H3 & H4 & H5 & H6). constructor; try done.
    + intros a b Ha Hb. rewrite Ha, Hb in H5. by destruct (Z.eqb_spec a b).
    + intros Hne. destruct (Nat.eqb_spec (size (ics_Scope (ic_Spec r))) 0) as [E|E]; [by apply map_size_empty_iff in E|].
      cbn [negb andb] in H6. by destruct (bool_decide_reflect (ics_Scope (ic_Spec r) = ics_Scope (ic_Spec e))).
  - intros [H1 H2 H3 H4 H5 H6]. split_and!; try done.
    + destruct (ics_PrefixLength (ic_Spec r)) as [a|], (ics_PrefixLength (ic_Spec e)) as [b|]; try done.
      rewrite (H5 a b) by done. by rewrite Z.eqb_refl.
    + destruct (Nat.eqb_spec (size (ics_Scope (ic_Spec r))) 0) as [E|E]; [done|]. cbn [negb andb].
      rewrite bool_decide_true; [done|]. apply H6. intros H. by rewrite H, map_size_empty in E.
Qed.

Lemma diff_spec c m n r st e : claimRequestDiff (mkIPClaim m n r (ic_Spec c) st) e = claimRequestDiff c e.
Proof. done. Qed.

Lemma answers_same asked got rv : answers asked got -> claimRequestDiff asked (ic_set_rv got rv) = [].
Proof.
  intros [_ _ Hc Hf Ha Hl Hs Hp _]. apply claimRequestDiff_nil. cbn [ic_set_rv ic_Spec].
  constructor; rewrite ?Ha, ?Hl, ?Hs, ?Hp; try done; [by intros H; rewrite Hc | by intros H; rewrite Hf | congruence].
Qed.

(** A named claim is the same whatever name is made up and wherever it is submitted. *)
Definition in_namespace (c : IPClaim) (ns : string) : IPClaim :=
  mkIPClaim (ic_Meta c) ns (ic_ResourceVersion c) (ic_Spec c) (ic_Status c).

Lemma buildClaim_ok gen o ns c : buildClaim gen o ns = Ok c ->
  exists family scope owner policy,
    (co_family o = "" /\ family = "" \/ parseFamily (co_family o) = Ok family)
    /\ buildScope (co_scope o) = Ok scope /\ parseReclaimPolicy (co_reclaimPolicy o) = Ok policy
    /\ negb (String.eqb (co_class o) "" && String.eqb (co_family o) "") = true
    /\ c = mkIPClaim (mkMeta (if String.eqb (co_name o) "" then gen else co_name o) ∅ ∅) ns 0
             (mkClaimSpec (co_class o) family "" (co_address o)
                (if 0 <? co_prefixLength o then Some (to_int32 (co_prefixLength o)) else None) scope "" policy owner)
             (mkClaimStatus "" "" "" None None).
Proof.
  unfold buildClaim. destruct (_ && _) eqn:Hcf; [done|].
  intros (family & Hf & H)%result_bind_ok. apply result_bind_ok in H as (scope & Hs & H).
  apply result_bind_ok in H as (owner & _ & H). apply result_bind_ok in H as (policy & Hp & H).
  destruct (negb _ && negb _); [done|]. injection H as <-. exists family, scope, owner, policy.
  split; [|done]. destruct (String.eqb_spec (co_family o) ""); [left | by right]. by injection Hf.
Qed.

Lemma buildClaim_named gen gen' o ns ns' c : co_name o <> "" -> buildClaim gen o ns = Ok c ->
  buildClaim gen' o ns' = Ok (in_namespace c ns') /\ ic_Name c = co_name o.
Proof.
  intros Hn. pose proof (proj2 (String.eqb_neq _ _) Hn) as E. unfold buildClaim. rewrite E.
  destruct (_ && _); [done|]. intros (family & -> & H)%result_bind_ok. apply result_bind_ok in H as (scope & -> & H).
  apply result_bind_ok in H as (owner & -> & H). apply result_bind_ok in H as (policy & -> & H).
  cbn [mbind result_bind]. destruct (negb _ && negb _); [done|]. by injection H as <-.
Qed.

Section Laws.
Context {api : ApiMachinery} {S : Type} {sv : ClaimServer S} {laws : ClaimServerLaws S} (IsNotFound : GoErr -> bool).

(** [C16] A stable name makes a retry safe.  Once the server has granted the claim a command
    line asks for under a name of its own ([--name]), whether or not its answer arrived, running the same
    command line again answers with that claim and its address, and asks the server
    for nothing: the state is left as it is and no second address is taken. *)
Theorem retry_reuses gen gen' notFound o ns s claim got s' :
  sv_ok s -> co_name o <> "" ->
  buildClaim gen o ns = Ok claim -> sv_create false claim s = (Ok got, s') ->
  exists found, runClaimCreate IsNotFound notFound (Ok ns) gen' o s' = (Ok (Reused found), s')
    /\ found = ic_set_rv got (ic_ResourceVersion found) /\ claimAddress found = claimAddress got.
Proof.
  intros Hok Hn Hb Hc. destruct (buildClaim_named gen gen' o ns "" claim Hn Hb) as [Hb' Hname].
  destruct (buildClaim_ok _ _ _ _ Hb) as (f & sc & ow & po & _ & _ & _ & _ & Hcl).
  destruct (sv_created claim s got s' Hok ltac:(congruence) Hc) as (Hans & rv & Hget).
  exists (ic_set_rv got rv). split; [|done]. unfold runClaimCreate. rewrite Hb'.
  assert (ic_Namespace claim = ns) as Hns by by rewrite Hcl.
  cbn [in_namespace ic_Meta ic_ResourceVersion ic_Spec ic_Status].
  rewrite (proj2 (String.eqb_neq _ _) Hn). cbn [negb]. rewrite <-Hname, <-Hns, Hget.
  rewrite diff_spec. by rewrite (answers_same claim got rv Hans).
Qed.

(** [C21] A name is not an answer to another question.  When a claim of the name exists, the
    command answers with it when it answers the request, each field both state being
    the same and the scope being the one the request states, if any; otherwise it
    refuses with the conflict code.  In neither case is the server asked for anything. *)
Theorem taken_name_decides notFound gen o ns s claim existing :
  co_name o <> "" -> buildClaim gen o ns = Ok claim -> sv_get ns (co_name o) s = Ok existing ->
  let out := runClaimCreate IsNotFound notFound (Ok ns) gen o s in
  (answers_request (ic_Spec claim) (ic_Spec existing) -> out = (Ok (Reused existing), s))
  /\ (~ answers_request (ic_Spec claim) (ic_Spec existing) -> out = (Err (newCLIError exitConflict), s)).
Proof.
  intros Hn Hb Hg out. subst out. destruct (buildClaim_named gen gen o ns "" claim Hn Hb) as [Hb' _].
  unfold runClaimCreate. rewrite Hb', (proj2 (String.eqb_neq _ _) Hn). cbn [negb]. rewrite Hg.
  cbn [in_namespace ic_Meta ic_ResourceVersion ic_Spec ic_Status]. rewrite diff_spec, <-claimRequestDiff_nil.
  by destruct (claimRequestDiff claim existing).
Qed.
End Laws.

(** ** What the client accepts and the server refuses *)

Lemma built_scope_named args scope role ref : buildScope args = Ok scope -> scope !! role = Some ref ->
  sr_Kind ref <> "" /\ sr_Name ref <> "".
Proof.
  unfold buildScope. intros (es & Hes & Hd & _ & ->)%build_scope_loop_spec. rewrite map_union_empty.
  intros Hin%elem_of_list_to_map_2. apply list_elem_of_lookup in Hin as (i & Hi).
  destruct (Forall2_lookup_r _ _ _ _ _ Hes Hi) as (arg & _ & Hp).
  apply parseScopeEntry_ok in Hp as (v & _ & _ & _ & Ht & Hv & Hp). by apply parseScopeValue_ok in Hp as (_ & _ & _ & ? & ?).
Qed.

Lemma concat_map_nil {A B} (f : A -> list B) l : concat (map f l) = [] <-> forall x, x ∈ l -> f x = [].
Proof.
  induction l as [|x l IH]; cbn; [by split; [intros _ x Hx; apply not_elem_of_nil in Hx|]|].
  rewrite app_nil, IH. split.
  - intros [Hx Hl] y [-> | Hy]%elem_of_cons; auto.
  - intros H. split; [apply H; left | intros y Hy; apply H; by right].
Qed.

Lemma when_empty b l : l <> [] -> when b l = [] <-> b = false.
Proof. destruct b; cbn; by split. Qed.

(** The client's own checks leave the server little to refuse: a claim built from a
    command line passes the registry's validation exactly when its scope does not
    name the reserved role [project] and its prefix length, once narrowed to 32 bits,
    is at most 128.  Everything else the registry checks of a claim, the client has
    checked in the same way. *)
Theorem built_claim_valid gen o ns c : buildClaim gen o ns = Ok c ->
  validateIPClaim c = [] <->
  ics_Scope (ic_Spec c) !! ReservedRoleProject = None
  /\ (0 < co_prefixLength o -> 0 < to_int32 (co_prefixLength o) <= 128).
Proof.
  intros (family & scope & owner & policy & Hf & Hs & Hp & Hcf & ->)%buildClaim_ok.
  unfold validateIPClaim, validate_claim_target, ValidateAddressScope. cbn [ic_Spec ics_ClassName ics_IPFamily ics_AddressScope ics_PrefixLength ics_Target ics_Scope].
  assert (family = "" /\ co_family o = "" \/ family = IPv4 \/ family = IPv6) as Hfam.
  { destruct Hf as [[-> ->] | Hf]; [by left | right]. unfold parseFamily in Hf. repeat case_match; naive_solver. }
  assert (when (is_empty (co_class o) && is_empty family) (Required "spec") = []) as ->.
  { apply when_empty; [done|]. unfold is_empty. destruct (String.eqb (co_class o) ""); [|done]. cbn [andb].
    destruct Hfam as [[-> E] | [-> | ->]]; [|done..]. by rewrite E in Hcf. }
  assert (when (negb (one_of family [""; IPv4; IPv6])) (NotSupported "spec.ipFamily") = []) as ->.
  { by destruct Hfam as [[-> _] | [-> | ->]]. }
  change (when (negb (one_of "" [""; AddressScopePublic; AddressScopePrivate])) (NotSupported "spec.addressScope")) with (@nil FieldErr).
  change (if one_of "" [""; TargetBlock] then _ else _) with (@nil FieldErr). cbn [app].
  etransitivity; [apply app_nil|]. etransitivity; [apply and_comm|]. apply ZifyClasses.and_morph.
  - etransitivity; [apply concat_map_nil|]. split.
    + intros H. destruct (scope !! ReservedRoleProject) as [ref|] eqn:E; [|done].
      specialize (H (ReservedRoleProject, ref) ltac:(by apply elem_of_map_to_list)). done.
    + intros E [role ref] Hin%elem_of_map_to_list. cbn. destruct (String.eqb_spec role ReservedRoleProject) as [->|]; [congruence|].
      destruct (built_scope_named _ _ _ _ Hs Hin) as [H1 H2]. apply when_empty; [done|]. unfold is_empty.
      by rewrite !(proj2 (String.eqb_neq _ _)).
  - etransitivity; [by apply when_empty|]. destruct (Z.ltb_spec 0 (co_prefixLength o)); [|split; [intros; lia | done]].
    rewrite orb_false_iff, Z.leb_gt, Z.ltb_ge. tauto.
Qed.

Definition ex_options (name class : string) (scope : list string) (length : Z) : claimOptions :=
  mkClaimOptions class "" scope "" length name "" "" false.

Lemma built_claim_valid_witness :
  exists c, buildClaim "" (ex_options "web" "public" ["network=default"; "project=alpha"] 0) "ns" = Ok c /\ validateIPClaim c <> [].
Proof.
  eexists. split; [reflexivity|]. intros H.
  apply (built_claim_valid "" (ex_options "web" "public" ["network=default"; "project=alpha"] 0) "ns" _ eq_refl) in H as [H _].
  by vm_compute in H.
Defined.

(** ** Showing a claim by its address *)

(** The form of every claim the server stores: no single-address form, and the text of
    its block once it is bound. *)
Definition server_form (c : IPClaim) : Prop :=
  icst_Address (ic_Status c) = ""
  /\ (icst_AllocatedCIDR (ic_Status c) = "" \/ exists n, wf_net n /\ icst_AllocatedCIDR (ic_Status c) = IPNet_String n).

Lemma answers_server_form asked got : answers asked got -> server_form got.
Proof. intros [_ _ _ _ _ _ _ _ [Ha Hn]]. split; [done | by right]. Qed.

(** [claim show <address>], as its help gives it, finds no claim the server made.  The
    server stores a claim's block and never its single-address form, and the command
    compares texts: asked about any host address, over any claims of the server's
    form, it answers that no claim holds it. *)
Theorem show_by_address_misses {T : Type} `{ClaimServer T, ApiMachinery} IsNotFound ns w h (s : T) items :
  sv_list ns s = Ok items -> (forall c, c ∈ items -> server_form c) -> is_host w h ->
  resolveClaim IsNotFound ns (host_text w h) s = Err (newCLIError exitNotFound).
Proof.
  intros Hl Hf Hh. destruct (host_text_reads w h Hh) as (Hp & Hs & Hne). unfold resolveClaim, looksLikeAddress.
  rewrite Hp. cbn [is_some orb]. rewrite Hl. cbn [wrap_err mbind result_bind].
  destruct (List.find (holds_address (host_text w h)) items) as [c|] eqn:Ef; [|done]. exfalso.
  apply find_some in Ef as [Hin%list_elem_of_In Hc]. destruct (Hf c Hin) as [Ha Hb]. unfold holds_address in Hc.
  rewrite Ha in Hc. apply orb_true_iff in Hc as [E%String.eqb_eq | E%String.eqb_eq]; [congruence|].
  destruct Hb as [Hb | (n & Hn & Hb)]; rewrite Hb in E; [congruence|]. rewrite <-E in Hs.
  destruct (wf_net_eta n Hn) as [V En]. rewrite En, IPNet_String_mk, no_byte_app in Hs by done. by rewrite andb_comm in Hs.
Qed.

(** A release that is shown, refused or declined leaves the server alone; the rest is one
    delete, after the prompt was answered. *)
Lemma runClaimRelease_cases {T : Type} `{ClaimServer T, ApiMachinery} IsNotFound se dry ns name (s : T) r s' :
  runClaimRelease IsNotFound se dry ns name s = (r, s') ->
  (s' = s /\ forall b, r <> Ok (Released b))
  \/ (dry = false /\ confirmYesNo se = true /\ exists claim x, sv_get ns name s = Ok claim /\ sv_delete ns name s = (x, s')
      /\ (r = Ok (Released (String.eqb (effectiveReclaimPolicy claim s) ReclaimRetain)) <-> x = Ok tt)).
Proof.
  unfold runClaimRelease. destruct (sv_get ns name s) as [claim|e] eqn:Hg; [|by intros [= <- <-]; left].
  destruct dry; [by intros [= <- <-]; left|]. destruct (confirmYesNo se); [|by intros [= <- <-]; left]. cbn [negb].
  destruct (sv_delete ns name s) as [[[]|e] s1] eqn:Hd; intros [= <- <-]; right; split; [done| |done|];
    (split; [done|]); by exists claim; eexists.
Qed.

(** A prefix length too large for 32 bits is not refused: it becomes another one. *)
Theorem prefix_length_wraps :
  exists c, buildClaim "gen" (ex_options "" "public" [] (2 ^ 32 + 24)) "ns" = Ok c /\ ics_PrefixLength (ic_Spec c) = Some 24
    /\ validateIPClaim c = [].
Proof. eexists. split; [reflexivity|]. split; reflexivity. Qed.
