(* ===== verification/ClientServed.v ===== *)
(** * ClientServed: the claim commands over the claim registry

    [db_server] is the server the claim commands of [ClientClaim] call, as the
    handlers of [Claim] make it; [db_laws] proves that it keeps what the commands rely
    on, so that every theorem of the client holds of the two together.

    With both sides in one model the promise a release makes can be checked:
    [release_prompt_honest] follows a claim of a class the project defines itself from
    its creation to its release, [release_prompt_lies] runs the case where it is false.

    The API machinery is an argument, as in [Claim]; [ClaimMeta] states what it does to
    a claim's metadata. *)

From Stdlib Require Import Ascii String.
From S2P Require Import Prelude Text Float Net Cidr Reservation Allocate Consumption Scan Tenant Sha256 Scope.
From S2P Require Import NetText Types Db PoolObject Class Discover BoundedSearch Prefix PoolInvariant.
From S2P Require Import PoolWrites Cascade Provision Range ObjectLaws Errors Validation Access Claim ClaimLaws ClaimDelete.
From S2P Require Import ClientScope ClientAddr ClientClaim.
Open Scope string_scope.
Open Scope list_scope.
Open Scope Z_scope.

(** The machinery's create hook fills metadata in and keeps the name it is given. *)
Class ClaimMeta {rest : RestCreate IPClaim} := {
  set_meta : forall c m,
    obj_set_meta c m = mkIPClaim m (ic_Namespace c) (ic_ResourceVersion c) (ic_Spec c) (ic_Status c);
  keeps_name : forall p v c c', BeforeCreate p v c = Ok c' -> ic_Name (p c) <> "" -> ic_Name c' = ic_Name (p c)
}.

Section Served.
Context {api : ApiMachinery} {rest : RestCreate IPClaim} {meta : ClaimMeta}.
Context (others : nat -> Db -> Db) (faults : nat -> option IpamErr) (cuts : nat -> option GoErr) (user : option Extras) (cv : option (IPClaim -> option GoErr))
  (ns : option (string -> string -> NamespaceState * option GoErr)) (notFound : GoErr).

(** ** The server

    [faults] are those of its creates, [cuts] those of its deletes. *)

(** A claim as the generic store reads it: the row's document and version. *)
Definition db_get (namespace name : string) (d : Db) : result GoErr IPClaim :=
  match db_objects d !! claimObjectKey (FromContext user) namespace name with
  | None => Err notFound
  | Some r => match as_claim (ob_data r) with
              | Some c => Ok (ic_set_rv c (ob_rv r))
              | None => Err (GText "decode")
              end
  end.

(** The claims under the namespace's keys. *)
Definition db_list (namespace : string) (d : Db) : result GoErr (list IPClaim) :=
  Ok (omap (fun kr => option_map (fun c => ic_set_rv c (ob_rv kr.2)) (as_claim (ob_data kr.2)))
        (List.filter (fun kr => HasPrefix kr.1 (claimObjectKey (FromContext user) namespace "")) (map_to_list (db_objects d)))).

Definition db_class (name : string) (d : Db) : result GoErr IPClass :=
  match db_objects d !! classStorageKey (id_Name (FromContext user)) name with
  | None => Err notFound
  | Some r => match as_class (ob_data r) with Some c => Ok c | None => Err (GText "decode") end
  end.

#[export] Instance db_server : ClaimServer Db := {|
  sv_get := db_get;
  sv_list := db_list;
  sv_create dry c d := Create others faults user cv ns (if dry then ["All"] else []) c d;
  sv_delete namespace name d :=
    match Delete (db_get namespace) others cuts user None [] name d with
    | (Ok _, d) => (Ok tt, d)
    | (Err e, d) => (Err e, d)
    end;
  sv_class := db_class
|}.

(** ** What admission keeps of a claim *)

Lemma resolveClassIn_local project name rc d d' : resolveClassIn project name d = Ok (rc, d') -> rc_LocalName rc = name.
Proof.
  unfold resolveClassIn, mbind, txn_bind. destruct (loadClassIn project name d) as [[c d1]|]; [|done].
  destruct (cs_Source (cl_Spec c)) as [src|]; [|by intros [= <- _]].
  destruct (loadClassIn _ _ d1) as [[c2 d2]|]; [|done]. destruct (cs_Source (cl_Spec c2)); [done|]. by intros [= <- _].
Qed.

Lemma ResolveClass_local className family rc d :
  className <> "" -> rolled_back (ResolveClass user className family) d = Ok rc -> rc_LocalName rc = className.
Proof.
  intros Hn. unfold rolled_back, ResolveClass, LoadClass, requireTenant, lift. rewrite (proj2 (String.eqb_neq _ _) Hn). cbn [negb].
  unfold mbind, txn_bind. destruct (RequireTenant user); [|done]. cbn [wrap_err].
  destruct (resolveClassIn _ _ d) as [[r d1]|] eqn:E; [|done]. intros [= <-]. by eapply resolveClassIn_local.
Qed.

(** The class a claim resolves to is the one its local name names, when that is a
    definition. *)
Lemma resolveClassIn_definition project name rc d d' r k :
  resolveClassIn project name d = Ok (rc, d') ->
  db_objects d !! classStorageKey project name = Some r -> as_class (ob_data r) = Some k -> cs_Source (cl_Spec k) = None ->
  rc_Class rc = k.
Proof.
  intros H Hr Hk Hs. unfold resolveClassIn, loadClassIn, select_object, read, mbind, txn_bind in H.
  rewrite Hr, Hk in H. cbn in H. rewrite Hs in H. by injection H as <- _.
Qed.

Lemma pick_family_in project family names rc d d' :
  pick_family project family names d = Ok (rc, d') ->
  exists name d1, resolveClassIn project name d = Ok (rc, d1).
Proof.
  revert d. induction names as [|name names IH]; intros d; [done|]. cbn [pick_family].
  unfold mbind at 1, txn_bind at 1. destruct (resolveClassIn project name d) as [[r d1]|] eqn:E; [|done].
  pose proof (resolveClassIn_ro _ _ _ _ _ E) as ->.
  destruct (String.eqb _ _); [intros [= <- _]; by exists name, d | apply IH].
Qed.

Lemma resolved_definition className family class d k :
  rolled_back (ResolveClass user className family) d = Ok class ->
  db_class (rc_LocalName class) d = Ok k -> cs_Source (cl_Spec k) = None -> rc_Class class = k.
Proof.
  intros H Hk Hs. assert (exists name d', resolveClassIn (id_Name (FromContext user)) name d = Ok (class, d')) as (name & d' & Hr).
  { unfold rolled_back, ResolveClass, LoadClass, LoadDefaultClass, requireTenant, lift, read, mbind, txn_bind in H.
    destruct (negb (String.eqb className "")).
    - destruct (RequireTenant user) as [id|] eqn:Et; [|done]. cbn in H.
      destruct (resolveClassIn _ _ d) as [[r d1]|] eqn:E; [|done]. injection H as <-.
      rewrite RequireTenant_spec in Et. destruct (String.eqb _ _) in Et; [done|]. injection Et as <-. by exists className, d1.
    - destruct (String.eqb family ""); [done|]. destruct (RequireTenant user) as [id|] eqn:Et; [|done]. cbn in H.
      destruct (pick_family _ _ _ d) as [[r d1]|] eqn:E; [|done]. injection H as <-.
      rewrite RequireTenant_spec in Et. destruct (String.eqb _ _) in Et; [done|]. injection Et as <-. by apply pick_family_in in E. }
  pose proof (resolveClassIn_local _ _ _ _ _ Hr) as Hl. unfold db_class in Hk.
  destruct (db_objects d !! _) as [r|] eqn:Hrow; [|done]. destruct (as_class (ob_data r)) as [k'|] eqn:Hc; [|done].
  injection Hk as ->. rewrite Hl in Hrow. by eapply resolveClassIn_definition.
Qed.

(** The claim admission hands on, beside the one it was given. *)
Lemma admit_answers c claim class d :
  ic_Name c <> "" -> admit_claim (faults O) user cv ns c d = Ok (claim, class) ->
  ic_Name claim = ic_Name c /\ ic_Namespace claim = ic_Namespace c
  /\ (ics_ClassName (ic_Spec c) <> "" -> ics_ClassName (ic_Spec claim) = ics_ClassName (ic_Spec c))
  /\ (ics_IPFamily (ic_Spec c) <> "" -> ics_IPFamily (ic_Spec claim) = ics_IPFamily (ic_Spec c))
  /\ ics_Address (ic_Spec claim) = ics_Address (ic_Spec c) /\ ics_PrefixLength (ic_Spec claim) = ics_PrefixLength (ic_Spec c)
  /\ ics_Scope (ic_Spec claim) = ics_Scope (ic_Spec c) /\ ics_ReclaimPolicy (ic_Spec claim) = ics_ReclaimPolicy (ic_Spec c)
  /\ icst_Address (ic_Status claim) = ""
  /\ ics_ClassName (ic_Spec claim) = rc_LocalName class
  /\ rolled_back (ResolveClass user (ics_ClassName (ic_Spec c)) (ics_IPFamily (ic_Spec c))) d = Ok class.
Proof.
  intros Hne. unfold admit_claim. intros (c1 & Hb & H)%result_bind_ok.
  pose proof (keeps_name _ _ _ _ Hb Hne) as Hname. apply BeforeCreate_ok in Hb as (m & -> & _). rewrite set_meta in *.
  destruct (_ && _); [done|]. apply result_bind_ok in H as (cl & Hcl & H). unfold reading in Hcl. destruct (faults O); [done|].
  destruct (rolled_back _ d) as [rc|] eqn:Hr; [|done]. injection Hcl as ->.
  destruct (negb (is_empty (ics_IPFamily _)) && _) eqn:Hf; [done|].
  destruct (negb (is_empty (ics_AddressScope _)) && _); [done|]. cbv zeta in H.
  destruct (match cv with Some v => v _ | None => None end); [done|]. destruct (checkNamespaceLiveness _ _ _); [done|].
  injection H as <- <-. cbn in *. split_and!; try done.
  - intros Hc. by eapply ResolveClass_local.
  - intros Hfam. unfold is_empty in Hf. rewrite (proj2 (String.eqb_neq _ _) Hfam) in Hf. cbn [negb andb] in Hf.
    apply negb_false_iff, String.eqb_eq in Hf. done.
Qed.

(** ** What a granted create stores *)

Definition healthy (d : Db) : Prop := inv d /\ classes_sound others d.

(** The row that holds a block for the claim. *)
Definition granted_row (ck ak policy : string) (n : IPNet) (row : AllocRow) : Prop :=
  ar_cidr row = n /\ ar_claim_key row = Some ck /\ ar_allocation_key row = ak
  /\ (ar_reclaim_policy row = policy \/ policy = "" /\ ar_reclaim_policy row = ReclaimDelete).

Lemma Create_stores c d got d' :
  (forall i d, inv d -> inv (others i d)) -> healthy d ->
  Create others faults user cv ns [] c d = (Ok got, d') ->
  exists claim class bound n, admit_claim (faults O) user cv ns c d = Ok (claim, class)
    /\ got = ic_set_rv bound (db_rv d') /\ wf_net n /\ icst_AllocatedCIDR (ic_Status bound) = IPNet_String n
    /\ ic_Spec bound = ic_Spec claim /\ ic_Meta bound = ic_Meta claim /\ ic_Namespace bound = ic_Namespace claim
    /\ icst_Address (ic_Status bound) = icst_Address (ic_Status claim)
    /\ let ck := claimObjectKey (FromContext user) (ic_Namespace claim) (ic_Name claim) in
       db_objects d' !! ck = Some (mkObj "IPClaim" (ic_Name claim) (DocClaim bound) (db_rv d'))
       /\ (is_range claim = false ->
            let name := allocationNameFor (ic_Namespace claim) (ic_Name claim) in
            icst_BoundAllocationRef (ic_Status bound) = Some (mkLocalRef name)
            /\ exists row, row ∈ db_allocs d'
                 /\ granted_row ck (allocationObjectKey (FromContext user) (ic_Namespace claim) name)
                      (EffectiveReclaimPolicy (rc_Class class) (ics_ReclaimPolicy (ic_Spec claim))) n row).
Proof.
  intros Ho [Hi Hc] H. destruct (Create_cases _ _ _ _ _ _ _ _ _ _ H)
    as [(e & [=] & _) | (claim & class & r1 & d1 & Hadm & Hres & [(e & [=] & _) | (poolKey & u & us & dg & what & _ & _ & Hdr)])].
  pose proof (Ho O _ (resolution_inv _ _ _ _ _ _ _ _ _ _ _ Ho Hi Hc Hadm Hres)) as Hi1.
  specialize (Hdr []). rewrite H, not_dry in Hdr. symmetry in Hdr. apply in_gtx_ok in Hdr as [Hdr _].
  exists claim, class. unfold allocating, recording in Hdr. destruct (is_range claim).
  - apply range_transaction_ok in Hdr as (_ & n & (r & Hr & _ & ->) & _ & _ & -> & Hck); [|done].
    destruct (inv_rows _ _ Hi1 r) as (p & _ & Hin & _); [apply elem_of_app; by left|].
    eexists _, (ar_cidr r). cbv zeta. do 9 (split; [done|]). done.
  - apply block_transaction_ok in Hdr as (_ & p & n & res & rv & _ & [Hwf _] & _ & Ha & _ & -> & _ & Hck & _); [|done].
    eexists _, n. cbv zeta. do 9 (split; [done|]). intros _. split; [done|]. eexists.
    split; [rewrite Ha, !elem_of_app; right; right; by apply list_elem_of_singleton|]. unfold granted_row, claim_row, block_request. cbn [ar_cidr ar_claim_key ar_allocation_key ar_reclaim_policy rq_ClaimKey rq_AllocationKey rq_ReclaimPolicy].
    assert (forall i ns x, String.eqb (allocationObjectKey i ns x) "" = false) as ->
      by (intros i ns0 x; unfold allocationObjectKey, ApplyPrefix, KeyPrefix; by destruct (String.eqb (id_Name i) "")).
    do 3 (split; [done|]). case_match eqn:E; [right | by left]. by apply String.eqb_eq in E.
Qed.

(** The claim registry keeps every promise the command line relies on: a claim it
    grants has the name, the class, the family, the size, the scope and the policy
    that were asked for, holds a block, and is what reading the name back gives. *)
Lemma served_answers c d got d' :
  (forall i d, inv d -> inv (others i d)) -> healthy d -> ic_Name c <> "" ->
  sv_create false c d = (Ok got, d') ->
  answers c got /\ exists rv, sv_get (ic_Namespace c) (ic_Name c) d' = Ok (ic_set_rv got rv).
Proof.
  intros Ho Hh Hn H. apply Create_stores in H as (claim & class & bound & n & Hadm & -> & Hwf & Hcidr & Hsp & Hm & Hns & Had & Hck & _);
    [|done..].
  apply admit_answers in Hadm as (E1 & E2 & E3 & E4 & E5 & E6 & E7 & E8 & E9 & _); [|done]. split.
  - constructor; cbn [ic_set_rv ic_Spec ic_Namespace ic_Status]; rewrite ?Hsp; try done.
    + unfold ic_Name in *. cbn [ic_set_rv ic_Meta]. by rewrite Hm.
    + by rewrite Hns.
    + split; [by rewrite Had | by exists n].
  - exists (db_rv d'). cbn [sv_get db_server]. unfold db_get. by rewrite <-E1, <-E2, Hck.
Qed.

#[export] Instance db_laws (Ho : forall i d, inv d -> inv (others i d)) : ClaimServerLaws Db := {|
  sv_ok := healthy;
  sv_created c d got d' Hh Hn H := served_answers c d got d' Ho Hh Hn H
|}.

(** ** What becomes of the address *)

(** What the command line works out, for a claim of a class that is a definition. *)
Lemma prompt_policy c d claim class stored k d2 :
  ic_Name c <> "" -> admit_claim (faults O) user cv ns c d = Ok (claim, class) -> ic_Spec stored = ic_Spec claim ->
  db_class (rc_LocalName class) d = Ok k -> cs_Source (cl_Spec k) = None -> rc_LocalName class <> "" ->
  db_class (rc_LocalName class) d2 = Ok k ->
  effectiveReclaimPolicy stored d2 = EffectiveReclaimPolicy (rc_Class class) (ics_ReclaimPolicy (ic_Spec claim)).
Proof.
  intros Hn Hadm Hsp Hk Hsrc Hne Hk2. apply admit_answers in Hadm as (_ & _ & _ & _ & _ & _ & _ & _ & _ & Hcl & Hr); [|done].
  unfold effectiveReclaimPolicy, EffectiveReclaimPolicy. rewrite Hsp, Hcl.
  destruct (String.eqb (ics_ReclaimPolicy (ic_Spec claim)) ""); [cbn [negb]|done].
  rewrite (proj2 (String.eqb_neq _ _) Hne). cbn [sv_class db_server]. rewrite Hk2.
  assert (rc_Class class = k) as ->; [|by destruct (String.eqb (cs_ReclaimPolicy (cl_Spec k)) "")].
  by eapply resolved_definition.
Qed.

(** A delete that went through took the claim out of a ledger on which it could be
    deleted, and in which a row others leave alone still was. *)
Lemma deleted_claim Get objName d claim name x d' r :
  let ck := claimObjectKey (FromContext user) (ic_Namespace claim) (ic_Name claim) in
  let ak := allocationObjectKey (FromContext user) (ic_Namespace claim) name in
  (forall i d, deletable ck ak d -> deletable ck ak (others i d)) -> deletable ck ak d -> deletes Get None objName d claim name ->
  stays others r -> r ∈ db_allocs d ->
  Delete Get others cuts user None [] objName d = (Ok x, d') ->
  exists d1, inv d1 /\ r ∈ db_allocs d1 /\ claim_gone ck ak d1 d'.
Proof.
  intros ck ak Ho Hd Hdel Hs Hr. rewrite (Delete_block Get _ _ _ _ _ _ _ _ Hdel). destruct Hdel as [_ _ _ Href Hname].
  destruct (cuts O) as [e|] eqn:Hc0; [unfold delete_block; by rewrite Hc0|].
  destruct (delete_block_published others cuts (FromContext user) claim name d (Ho O d Hd) Hc0) as (rv & d1 & Hd1 & Ha1 & _ & ->).
  set (P := fun x => deletable ck ak x /\ r ∈ db_allocs x).
  assert (Hoth : forall i d, P d -> P (others (S i) d)) by (intros i y [H1 H2]; split; [by apply Ho | by apply Hs]).
  assert (HP1 : P d1) by (split; [done | rewrite Ha1; by apply Hs]).
  assert ((exists j, (j < 3)%nat /\ cuts (S j) = None) \/ forall j, (j < 3)%nat -> is_Some (cuts (S j))) as [Hf|Hf].
  { destruct (cuts 1%nat) eqn:H1, (cuts 2%nat) eqn:H2, (cuts 3%nat) eqn:H3;
      [right | left; exists 2%nat | left; exists 1%nat | left; exists 1%nat | left; exists O..]; try (split; [lia | done]).
    intros [|[|[|j]]] Hj; [by eexists..|lia]. }
  - destruct (attempts_ok (fun i => others (S i)) (fun i => cuts (S i)) (FromContext user) claim name Href Hname deleteMaxAttempts O d1 P
                Hoth HP1 (fun _ H => proj1 H) Hf) as (b & d2 & d3 & Hat & [Hd2 Hr2] & Hg).
    rewrite Hat. intros [= _ <-]. exists d2. split; [apply Hd2 | done].
  - destruct (attempts_fail (fun i => others (S i)) (fun i => cuts (S i)) (FromContext user) claim deleteMaxAttempts O d1 P Hoth HP1)
      as (e & d2 & Hat & _); [unfold deleteMaxAttempts; lia | exact Hf | by rewrite Hat].
Qed.

End Served.

(** ** Witnesses *)

Definition plain_meta : @ClaimMeta plain_rest.
Proof.
  split; [reflexivity|]. intros p v c c'. cbn [BeforeCreate plain_rest]. destruct (v (p c)); [|done]. by intros [= <-].
Defined.

Definition alone (_ : nat) (d : Db) : Db := d.
Definition not_found : GoErr := GStatus (plain_status 404 "NotFound").
Definition is_not_found (e : GoErr) : bool := httpStatusCode e =? 404.

(** The registry, as a user of project [name] reaches it. *)
Definition cx_server (name : string) : ClaimServer Db :=
  @db_server plain_machinery plain_rest alone (fun _ => None) (fun _ => None) (cx_user name) None None not_found.

Definition cx_laws (name : string) : @ClaimServerLaws Db (cx_server name) :=
  @db_laws plain_machinery plain_rest plain_meta alone (fun _ => None) (fun _ => None) (cx_user name) None None not_found (fun _ _ H => H).

Definition web_options : claimOptions :=
  ex_options "c1" "addr" ["network=Network.net.example.com/n1"] 0.

Definition web_claim : IPClaim :=
  match buildClaim "" web_options "default" with Ok c => c | Err _ => ex_claim "addr" "" end.

Definition web_create : result GoErr IPClaim * Db := @sv_create Db (cx_server "alpha") false web_claim cx_db.
Definition web_got : IPClaim := match web_create.1 with Ok c => c | Err _ => web_claim end.

Lemma web_create_eq : @sv_create Db (cx_server "alpha") false web_claim cx_db = (Ok web_got, web_create.2).
Proof.
  assert (is_ok web_create.1 = true) as H by (vm_compute; reflexivity). unfold web_got. fold web_create.
  destruct web_create as [[c|e] d]; [done | discriminate].
Qed.

(** The answer to the first run was lost; the second gives the address. *)
Lemma retry_reuses_witness :
  exists found, @runClaimCreate plain_machinery Db (cx_server "alpha") is_not_found not_found (Ok "default") "other" web_options web_create.2
                = (Ok (Reused found), web_create.2)
    /\ found = ic_set_rv web_got (ic_ResourceVersion found) /\ claimAddress found = claimAddress web_got.
Proof.
  apply (@retry_reuses plain_machinery Db (cx_server "alpha") (cx_laws "alpha") is_not_found "" "other" not_found web_options "default"
           cx_db web_claim web_got web_create.2).
  - split; [exact cx_inv | split; exact cx_counted].
  - discriminate.
  - vm_compute. reflexivity.
  - exact web_create_eq.
Defined.

(** The name, asked for a class of another address space. *)
Lemma taken_name_decides_witness :
  exists o, @runClaimCreate plain_machinery Db (cx_server "alpha") is_not_found not_found (Ok "default") "" o web_create.2
            = (Err (newCLIError exitConflict), web_create.2).
Proof.
  set (o := ex_options "c1" "addr" ["network=Network.net.example.com/n2"] 0). exists o.
  pose (claim := match buildClaim "" o "default" with Ok c => c | Err _ => web_claim end).
  pose (stored := match @sv_get Db (cx_server "alpha") "default" "c1" web_create.2 with Ok c => c | Err _ => web_claim end).
  assert (buildClaim "" o "default" = Ok claim) as Hb by (vm_compute; reflexivity).
  assert (@sv_get Db (cx_server "alpha") "default" "c1" web_create.2 = Ok stored) as Hg.
  { assert (is_ok (@sv_get Db (cx_server "alpha") "default" "c1" web_create.2) = true) as H by (vm_compute; reflexivity).
    unfold stored. destruct (@sv_get Db (cx_server "alpha") "default" "c1" web_create.2); [done | discriminate]. }
  pose proof (@taken_name_decides plain_machinery Db (cx_server "alpha") is_not_found not_found "" o "default" web_create.2 claim stored
                ltac:(discriminate) Hb Hg) as H.
  apply H. intros E%claimRequestDiff_nil.
  assert (length (claimRequestDiff claim stored) = 1%nat) as E1 by (vm_compute; reflexivity). by rewrite E in E1.
Defined.

Definition server_formb (c : IPClaim) : bool :=
  String.eqb (icst_Address (ic_Status c)) ""
  && match ParseCIDR (icst_AllocatedCIDR (ic_Status c)) with
     | Some (_, n) => wf_netb n && String.eqb (IPNet_String n) (icst_AllocatedCIDR (ic_Status c))
     | None => false
     end.

Lemma server_formb_all items : forallb server_formb items = true -> forall c, c ∈ items -> server_form c.
Proof.
  rewrite forallb_forall. intros H c Hc%list_elem_of_In. apply H in Hc. unfold server_formb in Hc.
  apply andb_true_iff in Hc as [Ha%String.eqb_eq Hb]. split; [done|]. right.
  destruct (ParseCIDR _) as [[ip n]|]; [|done]. apply andb_true_iff in Hb as [Hw%wf_netb_spec E%String.eqb_eq]. by exists n.
Qed.

Definition web_items : list IPClaim :=
  match @sv_list Db (cx_server "alpha") "default" web_create.2 with Ok l => l | Err _ => [] end.

Lemma web_items_eq : @sv_list Db (cx_server "alpha") "default" web_create.2 = Ok web_items.
Proof. unfold web_items. cbn [sv_list cx_server db_server]. reflexivity. Qed.

Lemma show_by_address_misses_witness :
  @resolveClaim plain_machinery Db (cx_server "alpha") is_not_found "default" (host_text 32 (10 * 2 ^ 24)) web_create.2
  = Err (newCLIError exitNotFound).
Proof.
  apply (@show_by_address_misses Db (cx_server "alpha") plain_machinery is_not_found "default" 32 (10 * 2 ^ 24) web_create.2 web_items web_items_eq).
  - apply server_formb_all. vm_compute. reflexivity.
  - split; [by left|]. split; [lia | done].
Defined.

(** ** A prompt that is wrong *)

(** Project [beta] references the class [addr] of [alpha], whose policy is Retain. *)
Definition with_policy (c : IPClass) (p : ReclaimPolicy) : IPClass :=
  let sp := cl_Spec c in
  mkClass (cl_Meta c)
    (mkClassSpec (cs_Source sp) (cs_IPFamily sp) (cs_AddressScope sp) (cs_ParentClassName sp) (cs_PoolPer sp)
       (cs_UniqueWithin sp) (cs_AllowedPrefixLengths sp) (cs_DefaultPrefixLength sp) (cs_Reservations sp) (cs_Routing sp)
       (cs_Strategy sp) p (cs_RetentionLease sp) (cs_Provisioner sp) (cs_Parameters sp)) (cl_Phase c).

Definition reference (name project target : string) : IPClass :=
  mkClass (mkMeta name ∅ ∅)
    (mkClassSpec (Some (mkSource project target)) "" "" "" [] [] None 0 None (mkRouting "" "") "" "" None "" ∅) "Ready".

Definition ref_db : Db :=
  set_objects cx_db
    (<[classStorageKey "alpha" "addr" := mkObj "IPClass" "addr" (DocClass (with_policy (cx_class "addr" "net" 32) ReclaimRetain)) 1]>
     (<[classStorageKey "beta" "public" := mkObj "IPClass" "public" (DocClass (reference "public" "alpha" "addr")) 1]>
        (db_objects cx_db))).

Definition ref_claim : IPClaim := ex_claim "public" "".
Definition ref_made : result GoErr IPClaim * Db := @sv_create Db (cx_server "beta") false ref_claim ref_db.
Definition ref_released : result cliError release_outcome * Db :=
  @runClaimRelease plain_machinery Db (cx_server "beta") is_not_found (mkSession true false "") false "default" "c1" ref_made.2.

Lemma ok_not_err {E A} (r : result E A) : is_ok r = true -> forall e, r <> Err e.
Proof. by destruct r. Qed.

(** The prompt tells the user an address will be freed when it will not.  A claim of a
    class that references another project's is granted under that class's policy,
    here Retain; the command line reads the policy off the reference, which holds
    none, and reports the default.  The release says the address is freed; the
    registry keeps the block, held by nobody. *)
Theorem release_prompt_lies :
  (forall e, ref_made.1 <> Err e)
  /\ ref_released.1 = Ok (Released false)
  /\ map (fun r => (ar_claim_key r, ar_reclaim_policy r, IPNet_String (ar_cidr r)))
       (List.filter (fun r => bool_decide (ar_purpose r = PurposeClaim)) (db_allocs ref_released.2))
     = [(None, ReclaimRetain, match ref_made.1 with Ok c => icst_AllocatedCIDR (ic_Status c) | Err _ => "" end)].
Proof.
  split; [apply ok_not_err | split]; vm_compute; reflexivity.
Qed.

Definition web_released : result cliError release_outcome * Db :=
  @runClaimRelease plain_machinery Db (cx_server "alpha") is_not_found (mkSession true false "") false "default" "c1" web_create.2.

Lemma web_deletable :
  deletable (claimObjectKey (FromContext (cx_user "alpha")) "default" "c1")
    (allocationObjectKey (FromContext (cx_user "alpha")) "default" (allocationNameFor "default" "c1")) web_create.2.
Proof.
  assert (H : match ex_admit web_claim cx_db with
              | Ok (c, _) => String.eqb (ic_Namespace c) "default" && String.eqb (ic_Name c) "c1" && negb (is_range c)
              | Err _ => false end = true) by (vm_compute; reflexivity).
  destruct (ex_admit web_claim cx_db) as [[c class]|] eqn:Hadm; [|discriminate].
  apply andb_true_iff in H as [[Hns%String.eqb_eq Hn%String.eqb_eq]%andb_true_iff Hr%negb_true_iff].
  pose proof (@created_deletable plain_machinery plain_rest alone (fun _ => None) (cx_user "alpha") None None web_claim c class
    cx_db web_got web_create.2 (fun _ _ H => H) cx_inv (conj cx_counted cx_counted) Hadm Hr web_create_eq) as H.
  rewrite Hns, Hn in H. exact H.
Qed.

Lemma web_namespace : ic_Namespace web_claim = "default".
Proof. vm_compute. reflexivity. Qed.

Lemma web_name : ic_Name web_claim = "c1".
Proof. vm_compute. reflexivity. Qed.

Lemma web_released_eq :
  @runClaimRelease plain_machinery Db (cx_server "alpha") is_not_found (mkSession true false "") false "default" "c1" web_create.2
  = (Ok (Released false), web_released.2).
Proof.
  fold web_released. assert (H : match web_released.1 with Ok (Released b) => negb b | _ => false end = true) by (vm_compute; reflexivity).
  destruct web_released as [[[b|[]]|e] d]; try discriminate H. reflexivity.
Qed.

