(* ===== verification/ClientTree.v ===== *)
(** * ClientTree: [cmd/milo-ipam/tree.go]

    [pool tree]: the pools listed, hung under their parents and printed from the
    roots, with the claims each pool serves as leaves.

    The recursion of [printTreeNode] has no bound in the code; here it runs on fuel, and
    [None] is a run that has not ended.  [tree_prints_each_once] proves that over pools
    whose parents form no cycle as many turns as there are pools are enough, and that
    every pool is printed, once; [cycle_never_ends] that a root named on a parent
    cycle is printed for ever.  Utilization figures are in ClientView; column
    alignment is left out. *)

From Stdlib Require Import Ascii String.
From S2P Require Import Prelude Text Net Cidr Tenant Scope NetText Types Db Errors.
From S2P Require Import ClientScope.
Open Scope string_scope.
Open Scope list_scope.

(** ** Definitions *)

Definition name_le (a b : IPPool) : Prop := str_le (pl_Name a) (pl_Name b).
#[export] Instance name_le_dec a b : base.Decision (name_le a b).
Proof. unfold name_le. apply _. Defined.

(** [sort.Slice] by name; the names of one listing are distinct. *)
Definition sort_by_name (l : list IPPool) : list IPPool := merge_sort name_le l.

Definition parent_name (p : IPPool) : option string := option_map lr_Name (ps_ParentPoolRef (pl_Spec p)).

Definition argOrEmpty (args : list string) : string := match args with [a] => a | _ => "" end.

Definition known (pools : list IPPool) (name : string) : bool := existsb (fun p => String.eqb (pl_Name p) name) pools.

Definition is_root (pools : list IPPool) (p : IPPool) : bool :=
  match ps_ParentPoolRef (pl_Spec p) with
  | None => true
  | Some r => negb (known pools (lr_Name r))
  end.

Definition buildRoots (pools : list IPPool) (name : string) : list IPPool :=
  if negb (String.eqb name "") then
    match List.find (fun p => String.eqb (pl_Name p) name) pools with
    | Some p => [p]
    | None => []
    end
  else sort_by_name (List.filter (is_root pools) pools).

Definition indexByParent (pools : list IPPool) (name : string) : list IPPool :=
  sort_by_name (List.filter (fun p => bool_decide (parent_name p = Some name)) pools).

Definition poolFamily (p : IPPool) : IPFamily :=
  if negb (String.eqb (pst_IPFamily (pl_Status p)) "") then pst_IPFamily (pl_Status p) else ps_IPFamily (pl_Spec p).

Definition poolCIDR (p : IPPool) : string :=
  if String.eqb (pst_AllocatedCIDR (pl_Status p)) "" then ps_CIDR (pl_Spec p) else pst_AllocatedCIDR (pl_Status p).

(** A printed line: its indentation with its connector, and its columns. *)
Inductive tree_line :=
| PoolLine (indent name cidr family kind : string)
| LeafLine (indent name cidr family owner : string).

Definition printPrefixLeaf (claim : IPClaim) (indent : string) (isLast : bool) : tree_line :=
  let connector := if isLast then "└─ " else "├─ " in
  let owner := match ics_OwnerRef (ic_Spec claim) with
               | Some r => if negb (String.eqb (or_Name r) "") then or_Name r else emDash
               | None => emDash
               end in
  LeafLine (indent +:+ connector) (ic_Name claim) (orDash (icst_AllocatedCIDR (ic_Status claim)))
    (orDash (ics_IPFamily (ic_Spec claim))) owner.

Fixpoint printLeaves (claims : list IPClaim) (indent : string) : list tree_line :=
  match claims with
  | [] => []
  | c :: rest => printPrefixLeaf c indent (match rest with [] => true | _ => false end) :: printLeaves rest indent
  end.

Section Tree.
Context (byParent : string -> list IPPool) (leaves : string -> list IPClaim).

Definition printPool (pool : IPPool) (text : string) : tree_line :=
  PoolLine text (pl_Name pool) (orDash (poolCIDR pool)) (orDash (poolFamily pool))
    (match ps_ParentPoolRef (pl_Spec pool) with None => "root pool" | Some _ => "child pool" end).

Fixpoint printTreeNode (fuel : nat) (pool : IPPool) (indent : string) (isLast isRoot : bool) : option (list tree_line) :=
  match fuel with
  | O => None
  | S fuel =>
    let connector := if isRoot then "" else if isLast then "└─ " else "├─ " in
    let childIndent := if isRoot then indent else if isLast then indent +:+ "   " else indent +:+ "│  " in
    let claims := leaves (pl_Name pool) in
    let fix printChildren (children : list IPPool) : option (list tree_line) :=
      match children with
      | [] => Some []
      | c :: rest =>
        let last := match rest, claims with [], [] => true | _, _ => false end in
        a ← printTreeNode fuel c childIndent last false;
        b ← printChildren rest;
        Some (a ++ b)
      end in
    below ← printChildren (byParent (pl_Name pool));
    Some (printPool pool (indent +:+ connector) :: below ++ printLeaves claims childIndent)
  end.

Fixpoint printRoots (fuel : nat) (roots : list IPPool) : option (list tree_line) :=
  match roots with
  | [] => Some []
  | r :: rest => a ← printTreeNode fuel r "" true true; b ← printRoots fuel rest; Some (a ++ b)
  end.
End Tree.

(** The claims of each pool, in the order listed. *)
Definition leavesOf (claims : list IPClaim) (pool : string) : list IPClaim :=
  List.filter (fun c => bool_decide (option_map lr_Name (icst_PoolRef (ic_Status c)) = Some pool)) claims.

(** [pool tree] in its human form, over what the two listings answer; a failed listing of
    the claims leaves the leaves out.  The inner [None] is a run that has not ended. *)
Definition runPoolTree `{ApiMachinery} (fuel : nat) (listed : result GoErr (list IPPool)) (withPrefixes : bool)
    (claims : result GoErr (list IPClaim)) (args : list string) : result cliError (option (list tree_line)) :=
  pools ← wrap_err classifyError listed;
  let leaves := if withPrefixes then match claims with Ok items => items | Err _ => [] end else [] in
  let roots := buildRoots pools (argOrEmpty args) in
  match roots with
  | [] => if negb (String.eqb (argOrEmpty args) "") then Err (newCLIError exitNotFound) else Ok (Some [])
  | _ => Ok (printRoots (indexByParent pools) (leavesOf leaves) fuel roots)
  end.

(** ** What is printed *)

Definition pool_names (lines : list tree_line) : list string :=
  omap (fun l => match l with PoolLine _ n _ _ _ => Some n | LeafLine _ _ _ _ _ => None end) lines.

Lemma pool_names_app a b : pool_names (a ++ b) = pool_names a ++ pool_names b.
Proof. apply omap_app. Qed.

Lemma pool_names_leaves claims indent : pool_names (printLeaves claims indent) = [].
Proof. induction claims; [done|]. cbn. done. Qed.

(** The names below a pool, as deep as the fuel goes. *)
Fixpoint subtree (byParent : string -> list IPPool) (fuel : nat) (name : string) : list string :=
  match fuel with
  | O => []
  | S fuel => name :: concat (map (fun c => subtree byParent fuel (pl_Name c)) (byParent name))
  end.

(** How often a name occurs. *)
Definition occ (x : string) (l : list string) : nat := count_occ string_dec l x.
Arguments occ : simpl never.
Fixpoint sum_nat {A} (f : A -> nat) (l : list A) : nat :=
  match l with [] => O | a :: l => (f a + sum_nat f l)%nat end.

Lemma occ_app x a b : occ x (a ++ b) = (occ x a + occ x b)%nat.
Proof. apply count_occ_app. Qed.

Lemma occ_concat {A} x (f : A -> list string) l : occ x (concat (map f l)) = sum_nat (fun a => occ x (f a)) l.
Proof. induction l as [|a l IH]; [done|]. cbn. by rewrite occ_app, IH. Qed.

Lemma occ_cons x y l : occ x (y :: l) = ((if decide (y = x) then 1 else 0) + occ x l)%nat.
Proof. unfold occ. cbn. destruct (string_dec y x), (decide (y = x)); try congruence; lia. Qed.

Lemma sum_nat_add {A} (f g : A -> nat) l : sum_nat (fun a => f a + g a)%nat l = (sum_nat f l + sum_nat g l)%nat.
Proof. induction l as [|a l IH]; [done|]. cbn in *. lia. Qed.

Lemma sum_nat_ext {A} (f g : A -> nat) l : (forall a, a ∈ l -> f a = g a) -> sum_nat f l = sum_nat g l.
Proof.
  induction l as [|a l IH]; intros H; [done|]. cbn. rewrite (H a) by left. f_equal. apply IH. intros b Hb. apply H. by right.
Qed.

Lemma sum_nat_zero {A} (f : A -> nat) l : (forall a, a ∈ l -> f a = O) -> sum_nat f l = O.
Proof. intros H. rewrite (sum_nat_ext f (fun _ => O)) by done. clear H. by induction l. Qed.

Lemma sort_by_name_elem p l : p ∈ sort_by_name l <-> p ∈ l.
Proof. unfold sort_by_name. by rewrite merge_sort_Permutation. Qed.

Lemma sort_by_name_perm l : Permutation (sort_by_name l) l.
Proof. apply merge_sort_Permutation. Qed.

Lemma filter_elem {A} (f : A -> bool) x l : x ∈ List.filter f l <-> f x = true /\ x ∈ l.
Proof. rewrite !list_elem_of_In, filter_In. tauto. Qed.

(** One indicator in a list of distinct names. *)
Lemma sum_indicator (l : list IPPool) x :
  NoDup (map pl_Name l) -> sum_nat (fun c => if decide (pl_Name c = x) then 1 else 0)%nat l
  = if decide (x ∈ map pl_Name l) then 1%nat else 0%nat.
Proof.
  induction l as [|c l IH]; intros Hd; [by rewrite decide_False by apply not_elem_of_nil|]. cbn in Hd |- *.
  apply NoDup_cons in Hd as [Hn Hd]. rewrite IH by done.
  destruct (decide (pl_Name c = x)) as [E|Hne], (decide (x ∈ map pl_Name l)) as [Hin|Hin];
    destruct (decide (x ∈ pl_Name c :: map pl_Name l)) as [Hc|Hc]; try done; rewrite elem_of_cons in Hc.
  all: naive_solver.
Qed.

Lemma filter_distinct f (l : list IPPool) : NoDup (map pl_Name l) -> NoDup (map pl_Name (sort_by_name (List.filter f l))).
Proof.
  intros H. rewrite (Permutation_map pl_Name (sort_by_name_perm _)). induction l as [|q l IH]; [constructor|].
  cbn in *. apply NoDup_cons in H as [Hn Hd]. specialize (IH Hd). destruct (f q); [|exact IH]. cbn.
  apply NoDup_cons. split; [|exact IH]. intros (q' & E & Hq')%list_elem_of_fmap. apply filter_elem in Hq' as [_ Hq'].
  apply Hn. rewrite E. by apply list_elem_of_fmap_2.
Qed.

Lemma known_spec pools name : known pools name = true <-> name ∈ map pl_Name pools.
Proof.
  unfold known. rewrite existsb_exists, list_elem_of_fmap. split.
  - intros (p & Hp & E%String.eqb_eq). exists p. by rewrite list_elem_of_In.
  - intros (p & -> & Hp). exists p. rewrite String.eqb_refl. by rewrite <-list_elem_of_In.
Qed.

Section Complete.
Context (pools : list IPPool) (rank : string -> nat).
Context (distinct : NoDup (map pl_Name pools)).
(** No parent cycle: a pool's parent, when it is listed, ranks below it. *)
Context (acyclic : forall p q, p ∈ pools -> q ∈ pools -> parent_name q = Some (pl_Name p) ->
                   (rank (pl_Name p) < rank (pl_Name q))%nat).

Local Abbreviation children := (indexByParent pools).

Lemma children_spec c name : c ∈ children name <-> c ∈ pools /\ parent_name c = Some name.
Proof. unfold indexByParent. rewrite sort_by_name_elem, filter_elem, bool_decide_eq_true. tauto. Qed.

Lemma names_inj p q : p ∈ pools -> q ∈ pools -> pl_Name p = pl_Name q -> p = q.
Proof.
  intros Hp Hq E. apply list_elem_of_lookup in Hp as [i Hi], Hq as [j Hj].
  assert (i = j) as ->; [|congruence]. apply (NoDup_lookup (map pl_Name pools) i j (pl_Name p) distinct);
    rewrite list_lookup_fmap; [by rewrite Hi | by rewrite Hj, E].
Qed.

(** The pools that rank no lower: the fuel a node needs. *)
Definition height (name : string) : nat := length (List.filter (fun q => (rank name <=? rank (pl_Name q))%nat) pools).

Lemma filter_shorter {A} (f g : A -> bool) l x :
  (forall a, f a = true -> g a = true) -> x ∈ l -> f x = false -> g x = true ->
  (length (List.filter f l) < length (List.filter g l))%nat.
Proof.
  intros Hfg Hx Hf Hg. assert (forall l, length (List.filter f l) <= length (List.filter g l))%nat as Hle.
  { clear -Hfg. induction l as [|a l IH]; [done|]. cbn. specialize (Hfg a). destruct (f a), (g a); cbn; naive_solver lia. }
  induction l as [|a l IH]; [by apply not_elem_of_nil in Hx|]. cbn. apply elem_of_cons in Hx as [<-|Hx].
  - rewrite Hf, Hg. cbn. specialize (Hle l). lia.
  - specialize (IH Hx). specialize (Hfg a). destruct (f a), (g a); cbn; naive_solver lia.
Qed.

Lemma height_child p c : p ∈ pools -> c ∈ children (pl_Name p) -> (height (pl_Name c) < height (pl_Name p))%nat.
Proof.
  intros Hp [Hc Hpar]%children_spec. pose proof (acyclic p c Hp Hc Hpar) as Hr. unfold height.
  apply (filter_shorter _ _ _ p); [|done| |].
  - intros a Ha%Nat.leb_le. apply Nat.leb_le. lia.
  - apply Nat.leb_gt. lia.
  - by apply Nat.leb_le.
Qed.

Lemma height_le name : (height name <= length pools)%nat.
Proof. apply List.filter_length_le. Qed.

Lemma height_pos p : p ∈ pools -> (0 < height (pl_Name p))%nat.
Proof.
  intros Hp. unfold height. assert (p ∈ List.filter (fun q => (rank (pl_Name p) <=? rank (pl_Name q))%nat) pools) as H.
  { apply filter_elem. split; [by apply Nat.leb_le | done]. }
  destruct (List.filter _ pools); [by apply not_elem_of_nil in H | cbn; lia].
Qed.

(** With enough fuel a node ends, and prints the names below it. *)
Lemma printTreeNode_ends leaves fuel : forall p indent isLast isRoot,
  p ∈ pools -> (height (pl_Name p) <= fuel)%nat ->
  exists lines, printTreeNode children leaves fuel p indent isLast isRoot = Some lines
    /\ pool_names lines = subtree children fuel (pl_Name p).
Proof.
  induction fuel as [|fuel IH]; intros p indent isLast isRoot Hp Hh.
  { pose proof (height_pos p Hp). lia. }
  cbn [printTreeNode subtree].
  set (childIndent := if isRoot then indent else if isLast then indent +:+ "   " else indent +:+ "│  ").
  match goal with |- context [?g (children (pl_Name p))] => set (printChildren := g) end.
  assert (forall cs, (forall c, c ∈ cs -> c ∈ children (pl_Name p)) ->
    exists below, printChildren cs = Some below
      /\ pool_names below = concat (map (fun c => subtree children fuel (pl_Name c)) cs)) as Hcs.
  { induction cs as [|c cs IHc]; intros Hin; [by exists []|]. cbn.
    pose proof (Hin c ltac:(left)) as Hc. pose proof (height_child p c Hp Hc). apply children_spec in Hc as [Hc _].
    destruct (IH c childIndent (match cs, leaves (pl_Name p) with [], [] => true | _, _ => false end) false Hc ltac:(lia)) as (a & -> & Ha).
    destruct IHc as (b & -> & Hb); [intros c' Hc'; apply Hin; by right|]. exists (a ++ b).
    split; [done|]. by rewrite pool_names_app, Ha, Hb. }
  destruct (Hcs (children (pl_Name p)) (fun _ H => H)) as (below & -> & Hb). eexists. split; [reflexivity|].
  cbn. by rewrite pool_names_app, Hb, pool_names_leaves, app_nil_r.
Qed.

Lemma printRoots_ends leaves fuel roots :
  (forall r, r ∈ roots -> r ∈ pools) -> (length pools <= fuel)%nat ->
  exists lines, printRoots children leaves fuel roots = Some lines
    /\ pool_names lines = concat (map (fun r => subtree children fuel (pl_Name r)) roots).
Proof.
  intros Hin Hf. induction roots as [|r roots IH]; [by exists []|]. cbn [printRoots].
  destruct (printTreeNode_ends leaves fuel r "" true true (Hin r ltac:(left))) as (a & -> & Ha).
  { pose proof (height_le (pl_Name r)). lia. }
  destruct IH as (b & -> & Hb); [intros r' Hr'; apply Hin; by right|]. exists (a ++ b). split; [done|].
  by rewrite pool_names_app, Ha, Hb.
Qed.

Lemma children_distinct name : NoDup (map pl_Name (children name)).
Proof. by apply filter_distinct. Qed.

Lemma child_indicator p x : p ∈ pools -> x ∈ pools ->
  sum_nat (fun c => if decide (pl_Name c = pl_Name x) then 1 else 0)%nat (children (pl_Name p))
  = if decide (parent_name x = Some (pl_Name p)) then 1%nat else 0%nat.
Proof.
  intros Hp Hx. rewrite sum_indicator by apply children_distinct.
  destruct (decide (parent_name x = Some (pl_Name p))) as [E|E].
  - rewrite decide_True; [done|]. apply list_elem_of_fmap_2, children_spec. done.
  - rewrite decide_False; [done|]. intros (c & Hn & Hc)%list_elem_of_fmap. apply children_spec in Hc as [Hc Hpar].
    apply E. by rewrite (names_inj x c).
Qed.

(** A name is printed below a node as the node itself, or as a child of its parent. *)
Lemma subtree_parent fuel : forall p x, p ∈ pools -> x ∈ pools -> (height (pl_Name p) <= fuel)%nat ->
  occ (pl_Name x) (subtree children fuel (pl_Name p))
  = ((if decide (pl_Name p = pl_Name x) then 1 else 0)
     + match parent_name x with Some y => occ y (subtree children fuel (pl_Name p)) | None => 0 end)%nat.
Proof.
  induction fuel as [|fuel IH]; intros p x Hp Hx Hh; [pose proof (height_pos p Hp); lia|].
  cbn [subtree]. rewrite occ_cons, occ_concat. f_equal.
  rewrite (sum_nat_ext _ (fun c => (if decide (pl_Name c = pl_Name x) then 1 else 0)
    + match parent_name x with Some y => occ y (subtree children fuel (pl_Name c)) | None => 0 end)%nat).
  2: { intros c Hc. pose proof (height_child p c Hp Hc). apply children_spec in Hc as [Hc _]. apply IH; [done..|lia]. }
  rewrite sum_nat_add, child_indicator by done. destruct (parent_name x) as [y|] eqn:Ey.
  - rewrite occ_cons, occ_concat. f_equal. destruct (decide (Some y = Some (pl_Name p))), (decide (pl_Name p = y)); congruence.
  - rewrite decide_False by done. by apply sum_nat_zero.
Qed.

Lemma subtree_elem fuel : forall p n, p ∈ pools -> n ∈ subtree children fuel (pl_Name p) -> n ∈ map pl_Name pools.
Proof.
  induction fuel as [|fuel IH]; intros p n Hp; cbn [subtree]; [by intros ?%not_elem_of_nil|].
  intros [-> | Hn]%elem_of_cons; [by apply list_elem_of_fmap_2|].
  apply list_elem_of_In, in_concat in Hn as (l & Hl & Hn). apply in_map_iff in Hl as (c & <- & Hc).
  apply list_elem_of_In, children_spec in Hc as [Hc _]. by apply (IH c), list_elem_of_In.
Qed.

Definition printed (fuel : nat) (roots : list IPPool) : list string :=
  concat (map (fun r => subtree children fuel (pl_Name r)) roots).

Local Abbreviation roots := (sort_by_name (List.filter (is_root pools) pools)).

Lemma roots_spec r : r ∈ roots <-> r ∈ pools /\ is_root pools r = true.
Proof. rewrite sort_by_name_elem, filter_elem. tauto. Qed.

Lemma roots_distinct : NoDup (map pl_Name roots).
Proof. by apply filter_distinct. Qed.

Lemma is_root_parent x : x ∈ pools ->
  is_root pools x = true \/ exists y, y ∈ pools /\ parent_name x = Some (pl_Name y).
Proof.
  intros Hx. unfold is_root, parent_name. destruct (ps_ParentPoolRef (pl_Spec x)) as [r|]; [|by left]. cbn.
  destruct (known pools (lr_Name r)) eqn:E; [right | by left].
  apply known_spec, list_elem_of_fmap in E as (y & -> & Hy). by exists y.
Qed.

(** Every pool is printed below one root, once. *)
Lemma printed_once fuel x : (length pools <= fuel)%nat -> x ∈ pools -> occ (pl_Name x) (printed fuel roots) = 1%nat.
Proof.
  intros Hf. unfold printed.
  assert (forall n x, (rank (pl_Name x) < n)%nat -> x ∈ pools ->
    occ (pl_Name x) (concat (map (fun r => subtree children fuel (pl_Name r)) roots)) = 1%nat) as H.
  { clear x. induction n as [|n IH]; intros x Hn Hx; [lia|]. rewrite occ_concat.
    rewrite (sum_nat_ext _ (fun r => (if decide (pl_Name r = pl_Name x) then 1 else 0)
      + match parent_name x with Some y => occ y (subtree children fuel (pl_Name r)) | None => 0 end)%nat).
    2: { intros r [Hr _]%roots_spec. apply subtree_parent; [done..|]. pose proof (height_le (pl_Name r)). lia. }
    rewrite sum_nat_add, sum_indicator by apply roots_distinct.
    destruct (is_root_parent x Hx) as [Hroot | (y & Hy & Hpar)].
    - rewrite decide_True by (apply list_elem_of_fmap_2, roots_spec; done). rewrite sum_nat_zero; [done|].
      intros r [Hr _]%roots_spec. unfold is_root, parent_name in *. destruct (ps_ParentPoolRef (pl_Spec x)) as [q|]; [cbn|done].
      apply count_occ_not_In. intros Hin%list_elem_of_In%(subtree_elem _ r); [|done].
      apply known_spec in Hin. by rewrite Hin in Hroot.
    - rewrite Hpar, decide_False.
      2: { intros (r & E & Hr)%list_elem_of_fmap. apply roots_spec in Hr as [Hr Hroot].
           rewrite <-(names_inj x r Hx Hr E) in Hroot. unfold is_root, parent_name in *.
           destruct (ps_ParentPoolRef (pl_Spec x)) as [q|]; [|done]. injection Hpar as Eq.
           rewrite (proj2 (known_spec pools (lr_Name q))) in Hroot; [done|]. rewrite Eq. by apply list_elem_of_fmap_2. }
      pose proof (acyclic y x Hy Hx Hpar). specialize (IH y ltac:(lia) Hy). by rewrite occ_concat in IH. }
  intros Hx. apply (H (S (rank (pl_Name x))) x); [lia | done].
Qed.
End Complete.

(** [C39] The tree shows everything, once.  When the listed names are distinct and no pool
    is its own ancestor, [pool tree] ends: as many turns as there are pools are enough
    for the recursion; and what it prints names every pool listed exactly once,
    those under a parent that is not visible included. *)
Theorem tree_prints_each_once `{ApiMachinery} pools prefixes claims rank :
  NoDup (map pl_Name pools) -> pools <> [] ->
  (forall p q, p ∈ pools -> q ∈ pools -> parent_name q = Some (pl_Name p) -> (rank (pl_Name p) < rank (pl_Name q))%nat) ->
  forall fuel, (length pools <= fuel)%nat ->
  exists lines, runPoolTree fuel (Ok pools) prefixes claims [] = Ok (Some lines)
    /\ Permutation (pool_names lines) (map pl_Name pools).
Proof.
  intros Hd Hne Hr fuel Hf. unfold runPoolTree, buildRoots, argOrEmpty. cbn [String.eqb negb wrap_err mbind result_bind].
  set (leaves := if prefixes then _ else _).
  destruct (printRoots_ends pools rank Hr (leavesOf leaves) fuel (sort_by_name (List.filter (is_root pools) pools)))
    as (lines & Hl & Hn); [by intros r [? _]%roots_spec | done |].
  assert (Permutation (pool_names lines) (map pl_Name pools)) as Hp.
  { rewrite Hn. apply (Permutation_count_occ string_dec). intros x. fold (occ x (concat (map (fun r => subtree (indexByParent pools) fuel (pl_Name r)) (sort_by_name (List.filter (is_root pools) pools))))).
    destruct (decide (x ∈ map pl_Name pools)) as [Hin|Hin].
    - rewrite (proj1 (NoDup_count_occ' string_dec _) ltac:(by apply NoDup_ListNoDup) x) by by apply list_elem_of_In.
      apply list_elem_of_fmap in Hin as (p & -> & Hp). by apply (printed_once pools rank Hd Hr).
    - rewrite (proj1 (count_occ_not_In string_dec _ x)) by by rewrite <-list_elem_of_In.
      apply count_occ_not_In. rewrite in_concat. intros (l & Hl' & Hx). apply in_map_iff in Hl' as (r & <- & Hr').
      apply list_elem_of_In, roots_spec in Hr' as [Hr' _]. apply Hin.
      by eapply (subtree_elem pools fuel r), list_elem_of_In. }
  exists lines. split; [|exact Hp]. destruct (sort_by_name (List.filter (is_root pools) pools)) as [|r rs] eqn:Er.
  - cbn in Hl. injection Hl as <-. apply Permutation_nil_l in Hp. by destruct pools.
  - f_equal. exact Hl.
Qed.

(** A root named on a parent cycle is printed for ever: when the name is of a set of
    pools each of which has a child in the set, the recursion ends on no number of
    turns. *)
Theorem cycle_never_ends `{ApiMachinery} pools prefixes claims name (cycle : string -> Prop) fuel p :
  (forall n, cycle n -> exists q, q ∈ pools /\ parent_name q = Some n /\ cycle (pl_Name q)) ->
  name <> "" -> cycle name -> List.find (fun q => String.eqb (pl_Name q) name) pools = Some p ->
  runPoolTree fuel (Ok pools) prefixes claims [name] = Ok None.
Proof.
  intros Hc Hn Hin Hp. unfold runPoolTree, buildRoots, argOrEmpty. cbn [wrap_err mbind result_bind].
  set (leaves := if prefixes then _ else _). rewrite (proj2 (String.eqb_neq _ _) Hn). cbn [negb]. rewrite Hp. cbn [printRoots]. apply find_some in Hp as [_ E%String.eqb_eq].
  enough (forall p indent l r, cycle (pl_Name p) ->
    printTreeNode (indexByParent pools) (leavesOf leaves) fuel p indent l r = None) as ->; [done | by rewrite E |].
  clear p E. induction fuel as [|fuel IH]; [done|]. intros p indent l r Hcy. cbn [printTreeNode].
  match goal with |- context [?g (indexByParent pools (pl_Name p))] => set (printChildren := g) end.
  enough (printChildren (indexByParent pools (pl_Name p)) = None) as -> by done.
  destruct (Hc _ Hcy) as (q & Hq & Hpar & Hcq).
  assert (q ∈ indexByParent pools (pl_Name p)) as Hq' by (apply children_spec; done).
  induction (indexByParent pools (pl_Name p)) as [|c cs IHc]; [by apply not_elem_of_nil in Hq'|]. cbn.
  apply elem_of_cons in Hq' as [<-|Hq']; [by rewrite IH|].
  destruct (printTreeNode _ _ fuel c _ _ _); [|done]. cbn. by rewrite IHc.
Qed.

(** ** Witnesses *)

Definition ex_pool (name : string) (parent : option string) : IPPool :=
  mkPool (mkMeta name ∅ ∅)
    (mkPoolSpec "10.0.0.0/8" IPv4 (option_map mkLocalRef parent) 0 [] None ∅ None None (mkAllocationSpec 0 0 "") "")
    (mkPoolStatus PoolReady "" "" "" (mkCapacity "" "" "") Float.f_zero).

Definition ex_pools : list IPPool :=
  [ex_pool "us-west" (Some "backbone"); ex_pool "edge" (Some "us-west"); ex_pool "backbone" None;
   ex_pool "orphan" (Some "hidden"); ex_pool "us-east" (Some "backbone")].

Definition ex_rank (n : string) : nat :=
  if oneOfText n ["backbone"; "orphan"] then 0 else if oneOfText n ["us-west"; "us-east"] then 1 else 2.

Example tree_text : option_map (map (fun l => match l with PoolLine i n _ _ k => i +:+ n +:+ " " +:+ k | LeafLine i n _ _ _ => i +:+ n end))
    (match @runPoolTree plain_machinery 5 (Ok ex_pools) true (Ok []) [] with Ok o => o | Err _ => None end)
  = Some ["backbone root pool"; "├─ us-east child pool"; "└─ us-west child pool"; "   └─ edge child pool"; "orphan child pool"].
Proof. vm_compute. reflexivity. Qed.

Lemma tree_prints_each_once_witness :
  exists lines, @runPoolTree plain_machinery 5 (Ok ex_pools) true (Ok []) [] = Ok (Some lines) /\ Permutation (pool_names lines) (map pl_Name ex_pools).
Proof.
  apply (@tree_prints_each_once plain_machinery ex_pools true (Ok []) ex_rank).
  - apply (bool_decide_unpack _). vm_compute. reflexivity.
  - discriminate.
  - intros p q Hp Hq.
    assert (forallb (fun p => forallb (fun q => negb (bool_decide (parent_name q = Some (pl_Name p)))
      || (ex_rank (pl_Name p) <? ex_rank (pl_Name q))%nat) ex_pools) ex_pools = true) as H by (vm_compute; reflexivity).
    rewrite forallb_forall in H. specialize (H p ltac:(by apply list_elem_of_In)). rewrite forallb_forall in H.
    specialize (H q ltac:(by apply list_elem_of_In)). intros E. rewrite (bool_decide_true _ E) in H. by apply Nat.ltb_lt.
  - vm_compute. lia.
Defined.

Lemma cycle_never_ends_witness :
  @runPoolTree plain_machinery 1000 (Ok [ex_pool "a" (Some "b"); ex_pool "b" (Some "a")]) true (Ok []) ["a"] = Ok None.
Proof.
  apply (@cycle_never_ends plain_machinery _ _ _ "a" (fun n => n = "a" \/ n = "b") 1000 (ex_pool "a" (Some "b"))); [|done|by left|done].
  intros n [-> | ->].
  - exists (ex_pool "b" (Some "a")). split; [right; left|]. split; [done|]. by right.
  - exists (ex_pool "a" (Some "b")). split; [left|]. split; [done|]. by left.
Defined.
