(* ===== verification/ClientPools.v ===== *)
(** * ClientPools: [cmd/milo-ipam/pool.go], the pools of [class.go], and [entitlement.go]

    A pool built from its flags, the pools that stand behind a class, the release of a
    pool with everything the client finds under it, and the check that a project may
    use the service at all.

    [built_pool_valid] sets the client's checks beside the registry's;
    [pool_release_guarded] says what has to have happened before anything is
    released, and [cascade_stops_halfway] what [--cascade] does when it meets a pool
    it cannot release.  Rendering is left out.  The service catalogue is another
    module's: its phases are named, its calls are arguments. *)

From Stdlib Require Import Ascii String.
From S2P Require Import Prelude Text Float Net Cidr Allocate Tenant Scope NetText NetParse Types Db Errors Validation.
From S2P Require Import ClientScope ClientAddr ClientClaim ClientTree.
Open Scope string_scope.
Open Scope list_scope.
Open Scope Z_scope.

(** ** [pool create] *)

Record poolOptions := mkPoolOptions {
  po_cidr : string;
  po_family : string;
  po_parent : string;
  po_minLen : Z;         (* int *)
  po_maxLen : Z;
  po_prefixLen : Z;
  po_strategy : string;
  po_visibility : string;
  po_classNames : list string;
  po_scopeArgs : list string
}.

(** [validateCIDR]: the prefix and its family. *)
Definition validateCIDR (cidr : string) : result cliError (NetipPrefix * IPFamily) :=
  match ParsePrefix cidr with
  | None => Err usageErrorf
  | Some p => Ok (p, if BitLen (np_addr p) =? 128 then IPv6 else IPv4)
  end.

Definition positive (n : Z) : Z := if 0 <? n then n else 0.

Definition buildPool (name : string) (o : poolOptions) : result cliError IPPool :=
  scope ← buildScope (po_scopeArgs o);
  family ← (if negb (String.eqb (po_family o) "") then parseFamily (po_family o)
            else if negb (String.eqb (po_cidr o) "") then r ← validateCIDR (po_cidr o); mret r.2
            else Ok "");
  if String.eqb (po_cidr o) "" && String.eqb (po_parent o) "" then Err usageErrorf
  else
    strategy ← (if negb (String.eqb (po_strategy o) "") then parseStrategy (po_strategy o) else Ok "");
    Ok (mkPool (mkMeta name ∅ ∅)
          (mkPoolSpec (po_cidr o) family (refOrNil (po_parent o)) (positive (po_prefixLen o)) (po_classNames o) None scope
             None None (mkAllocationSpec (positive (po_minLen o)) (positive (po_maxLen o)) strategy) (po_visibility o))
          (mkPoolStatus "" "" "" "" (mkCapacity "" "" "") f_zero)).

(** ** Pools behind a class: [class.go] *)

(** The pools that offer a class and those it provisioned, by name; their lines
    are ClientView's [class_pool_lines]. *)
Definition poolsForClass (pools : result GoErr (list IPPool)) (className : string) : list string * list string :=
  match pools with
  | Err _ => ([], [])
  | Ok items =>
    (map pl_Name (List.filter (fun p => existsb (String.eqb className) (ps_ClassNames (pl_Spec p))) items),
     map pl_Name (List.filter (fun p => match ps_ClassRef (pl_Spec p) with
                                        | Some r => String.eqb (lr_Name r) className
                                        | None => false
                                        end) items))
  end.

Definition poolClassesCell (p : IPPool) : string :=
  match ps_ClassNames (pl_Spec p) with
  | _ :: _ => joinWith "," (ps_ClassNames (pl_Spec p))
  | [] => match ps_ClassRef (pl_Spec p) with
          | Some r => "(provisioned by " +:+ lr_Name r +:+ ")"
          | None => "— (none)"
          end
  end.

(** [childCounts]: how many pools and claims name a pool; no entry is zero. *)
Definition childCounts (pools : list IPPool) (claims : result GoErr (list IPClaim)) : (string -> Z) * (string -> Z) :=
  (fun name => Z.of_nat (length (List.filter (fun p => bool_decide (parent_name p = Some name)) pools)),
   fun name => match claims with
               | Ok items => Z.of_nat (length (leavesOf items name))
               | Err _ => 0
               end).

(** ** [pool release] *)

Class PoolServer (S : Type) := {
  pv_get : string -> S -> result GoErr IPPool;
  pv_pools : S -> result GoErr (list IPPool);
  pv_claims : string -> S -> result GoErr (list IPClaim);
  pv_delete_pool : string -> S -> result GoErr unit * S;
  pv_delete_claim : string -> string -> S -> result GoErr unit * S
}.

(** One delete after another, up to the first that fails. *)
Fixpoint delete_each {S} (delete : string -> S -> result GoErr unit * S) (names : list string) (s : S)
    : option GoErr * S :=
  match names with
  | [] => (None, s)
  | n :: rest => match delete n s with
                 | (Err e, s) => (Some e, s)
                 | (Ok _, s) => delete_each delete rest s
                 end
  end.

(** What a release ends with: the blast radius shown, or the pool released. *)
Inductive pool_outcome := PoolPlan (children prefixes : list string) | PoolReleased.

Section Release.
Context {api : ApiMachinery} {S : Type} {pv : PoolServer S} (IsNotFound : GoErr -> bool).

Definition poolGetError (e : GoErr) : cliError :=
  if IsNotFound e then withCause (newCLIError exitNotFound) e else classifyError e.

(** The child pools and claims found under a pool: none when their listing fails. *)
Definition childPools (name : string) (s : S) : list string :=
  match pv_pools s with
  | Err _ => []
  | Ok items => map pl_Name (List.filter (fun p => bool_decide (parent_name p = Some name)) items)
  end.

Definition heldPrefixes (ns name : string) (s : S) : list string :=
  match pv_claims ns s with
  | Err _ => []
  | Ok items => map ic_Name (leavesOf items name)
  end.

Definition runPoolRelease (se : session) (cascade dryRun : bool) (ns name : string) (s : S)
    : result cliError pool_outcome * S :=
  match pv_get name s with
  | Err e => (Err (poolGetError e), s)
  | Ok _ =>
    let children := childPools name s in
    let prefixes := heldPrefixes ns name s in
    let blast := (length children + length prefixes)%nat in
    if dryRun then (Ok (PoolPlan children prefixes), s)
    else if (0 <? blast)%nat && negb cascade then (Err (newCLIError exitConflict), s)
    else match confirmTyped se name with
         | Err e => (Err e, s)
         | Ok false => (Err (newCLIError exitAborted), s)
         | Ok true =>
           let finish (s : S) :=
             match pv_delete_pool name s with
             | (Err e, s) => (Err (classifyError e), s)
             | (Ok _, s) => (Ok PoolReleased, s)
             end in
           if negb cascade then finish s
           else match delete_each (pv_delete_claim ns) prefixes s with
                | (Some e, s) => (Err (classifyError e), s)
                | (None, s) =>
                  match delete_each pv_delete_pool children s with
                  | (Some e, s) => (Err (classifyError e), s)
                  | (None, s) => finish s
                  end
                end
         end
  end.
End Release.

(** ** [entitlement.go] *)

Definition ipamServiceName : string := "ipam-miloapis-com".

(** The catalogue's phases the client names, and any other. *)
Inductive entitlement_phase := EntitlementActive | EntitlementPendingApproval | EntitlementRejected | EntitlementOther.

Record entitlement := mkEntitlement { en_service : string; en_phase : entitlement_phase; en_ready : bool }.

(** One event of the watch: whether it is Added or Modified, and the entitlement it
    carries. *)
Record watch_event := mkWatchEvent { we_changes : bool; we_item : option entitlement }.

(** The catalogue's answers: the listing ([None] when the API is not served), the
    create, and the watch with the events it delivers before it closes or times out. *)
Record catalogue := mkCatalogue {
  ct_list : result GoErr (option (list entitlement));
  ct_create : option GoErr;
  ct_watch : result GoErr (list watch_event)
}.

Definition entitlementNotEnabledErr : cliError := newCLIError exitForbidden.
Definition pendingApprovalErr : cliError := newCLIError exitForbidden.

(** [for { select ... }]: the first event that decides. *)
Fixpoint watch_entitlement (events : list watch_event) : result cliError unit :=
  match events with
  | [] => Err pendingApprovalErr
  | ev :: rest =>
    if negb (we_changes ev) then watch_entitlement rest
    else match we_item ev with
         | None => watch_entitlement rest
         | Some item =>
           if negb (String.eqb (en_service item) ipamServiceName) then watch_entitlement rest
           else if negb (en_ready item) then watch_entitlement rest
           else match en_phase item with
                | EntitlementActive => Ok tt
                | EntitlementPendingApproval => Err pendingApprovalErr
                | EntitlementRejected => Err (newCLIError exitForbidden)
                | EntitlementOther => Err pendingApprovalErr
                end
         end
  end.

(** [line] is what the prompt reads, [None] at the end of the input. *)
Definition promptAndRequestEntitlement (ct : catalogue) (tty : bool) (line : option string) : result cliError unit :=
  if negb tty then Err (newCLIError exitForbidden)
  else match line with
       | None => Err entitlementNotEnabledErr
       | Some text =>
         let answer := TrimSpace (ToLower text) in
         if negb (String.eqb answer "y") && negb (String.eqb answer "yes") then Err entitlementNotEnabledErr
         else match ct_create ct with
              | Some e => Err (withCause (newCLIError exitUnavailable) e)
              | None => match ct_watch ct with
                        | Err _ => Err pendingApprovalErr
                        | Ok events => watch_entitlement events
                        end
              end
       end.

(** The loop over the listed entitlements: [None] when none of them decides. *)
Fixpoint listed_entitlement (items : list entitlement) : option (result cliError unit) :=
  match items with
  | [] => None
  | item :: rest =>
    if negb (String.eqb (en_service item) ipamServiceName) then listed_entitlement rest
    else match en_phase item with
         | EntitlementActive => Some (Ok tt)
         | EntitlementPendingApproval | EntitlementRejected => Some (Err (newCLIError exitForbidden))
         | EntitlementOther => listed_entitlement rest
         end
  end.

Definition EnsureIPAMEntitlement (project : string) (newClient : result cliError catalogue) (tty : bool) (line : option string)
    : result cliError unit :=
  if String.eqb project "" then Ok tt
  else
    ct ← newClient;
    match ct_list ct with
    | Err e => Err (withCause (newCLIError exitUnavailable) e)
    | Ok None => promptAndRequestEntitlement ct tty line
    | Ok (Some items) =>
      match listed_entitlement items with
      | Some r => r
      | None => promptAndRequestEntitlement ct tty line
      end
    end.

(** ** What the client accepts of a pool, and what the registry does *)

Lemma buildPool_ok name o p : buildPool name o = Ok p ->
  exists scope family strategy,
    (po_family o <> "" /\ parseFamily (po_family o) = Ok family
     \/ po_family o = "" /\ po_cidr o <> "" /\ (exists q, validateCIDR (po_cidr o) = Ok (q, family))
     \/ po_family o = "" /\ po_cidr o = "" /\ family = "")
    /\ (po_cidr o = "" -> po_parent o <> "")
    /\ p = mkPool (mkMeta name ∅ ∅)
          (mkPoolSpec (po_cidr o) family (refOrNil (po_parent o)) (positive (po_prefixLen o)) (po_classNames o) None scope
             None None (mkAllocationSpec (positive (po_minLen o)) (positive (po_maxLen o)) strategy) (po_visibility o))
          (mkPoolStatus "" "" "" "" (mkCapacity "" "" "") f_zero).
Proof.
  unfold buildPool. intros (scope & _ & H)%result_bind_ok. apply result_bind_ok in H as (family & Hf & H).
  destruct (_ && _) eqn:Hcp; [done|]. apply result_bind_ok in H as (strategy & _ & [= <-]).
  exists scope, family, strategy. split_and!; [| |done].
  - destruct (String.eqb_spec (po_family o) "") as [E|E]; cbn [negb] in Hf; [right | by left].
    destruct (String.eqb_spec (po_cidr o) "") as [E'|E']; cbn [negb] in Hf; [right | left].
    + by injection Hf.
    + apply result_bind_ok in Hf as ([q f] & Hv & [= <-]). split_and!; [done..|]. by exists q.
  - intros E E'. by rewrite E, E' in Hcp.
Qed.

Lemma validateCIDR_ok cidr q family : validateCIDR cidr = Ok (q, family) ->
  ParsePrefix cidr = Some q /\ family = (if BitLen (np_addr q) =? 128 then IPv6 else IPv4).
Proof. unfold validateCIDR. destruct (ParsePrefix cidr); [by intros [= <- <-] | done]. Qed.

(** The family the client infers is the family of the block the server will serve: a
    pool created from a [--cidr] alone states IPv4 exactly when the text, as the
    server parses it, is a block of 32-bit addresses, and its range is then an aligned
    block of the length written. *)
Theorem inferred_family_agrees name o p :
  buildPool name o = Ok p -> po_family o = "" -> po_cidr o <> "" ->
  exists ip n, ParseCIDR (ps_CIDR (pl_Spec p)) = Some (ip, n) /\ is_block n
    /\ ps_IPFamily (pl_Spec p) = (if pbits n =? 128 then IPv6 else IPv4).
Proof.
  intros (scope & family & strategy & Hf & _ & ->)%buildPool_ok Hfam Hc. cbn [pl_Spec ps_CIDR ps_IPFamily].
  destruct Hf as [[? _] | [(_ & _ & q & Hv) | (_ & ? & _)]]; [done | | done].
  apply validateCIDR_ok in Hv as [Hq ->]. apply ParsePrefix_ParseCIDR in Hq as (_ & n & Hp & Hb & _ & Hbits).
  eexists _, n. split; [exact Hp|]. split; [done|]. by rewrite Hbits.
Qed.

Definition ex_pool_options (cidr family parent : string) (len : Z) : poolOptions :=
  mkPoolOptions cidr family parent 0 0 len "" "" ["net"] [].

Lemma inferred_family_agrees_witness :
  exists p, buildPool "backbone" (ex_pool_options "2001:db8::/32" "" "" 0) = Ok p /\ ps_IPFamily (pl_Spec p) = IPv6.
Proof.
  eexists. split; [reflexivity|].
  destruct (inferred_family_agrees "backbone" (ex_pool_options "2001:db8::/32" "" "" 0) _ eq_refl eq_refl ltac:(discriminate))
    as (ip & n & Hp & _ & Hf). etransitivity; [exact Hf|].
  assert (match ParseCIDR "2001:db8::/32" with Some (_, n) => pbits n =? 128 | None => false end = true) as E by (vm_compute; reflexivity).
  change (ParseCIDR "2001:db8::/32" = Some (ip, n)) in Hp. rewrite Hp in E. by rewrite E.
Defined.

Definition known_visibility (v : string) : bool := one_of v [""; VisibilityPlatform; VisibilityConsumer; VisibilityShared].

Lemma positive_zero n : (positive n =? 0) = (n <=? 0).
Proof.
  unfold positive. destruct (Z.ltb_spec 0 n).
  - by rewrite (proj2 (Z.eqb_neq n 0)), (proj2 (Z.leb_gt n 0)) by lia.
  - symmetry. by apply Z.leb_le.
Qed.

Lemma positive_in n lo hi : 1 <= lo -> ((positive n <? lo) || (hi <? positive n) = false <-> lo <= n <= hi) \/ hi < 1.
Proof.
  intros H. destruct (Z.ltb_spec hi 1); [by right | left]. rewrite orb_false_iff, !Z.ltb_ge. unfold positive.
  destruct (Z.ltb_spec 0 n); lia.
Qed.

Lemma bounds_in_order min max :
  (0 <? positive min) && (0 <? positive max) && (positive max <? positive min) = false
  <-> ~ (0 < min /\ 0 < max /\ max < min).
Proof.
  unfold positive. destruct (Z.ltb_spec 0 min), (Z.ltb_spec 0 max); rewrite ?Z.ltb_irrefl; cbn [andb].
  - rewrite (proj2 (Z.ltb_lt 0 min)), (proj2 (Z.ltb_lt 0 max)) by lia. cbn [andb]. rewrite Z.ltb_ge. lia.
  - rewrite andb_false_r. split; [lia | done].
  - split; [lia | done].
  - split; [lia | done].
Qed.

(** The family a pool states is empty, or one the registry knows. *)
Lemma built_family name o p : buildPool name o = Ok p ->
  ps_IPFamily (pl_Spec p) = "" /\ po_family o = "" /\ po_cidr o = ""
  \/ one_of (ps_IPFamily (pl_Spec p)) [IPv4; IPv6] = true /\ is_empty (ps_IPFamily (pl_Spec p)) = false
     /\ (po_family o <> "" \/ po_cidr o <> "").
Proof.
  intros (scope & family & strategy & Hf & _ & ->)%buildPool_ok. cbn [pl_Spec ps_IPFamily].
  destruct Hf as [[? Hf] | [(_ & ? & q & Hv) | (? & ? & ?)]]; [right | right | by left].
  - unfold parseFamily in Hf. repeat case_match; naive_solver.
  - apply validateCIDR_ok in Hv as [_ ->]. destruct (_ =? 128); auto.
Qed.

Lemma built_cidr name o p : buildPool name o = Ok p -> po_cidr o <> "" -> po_family o = "" -> ParseCIDR (po_cidr o) <> None.
Proof.
  intros (scope & family & strategy & Hf & _ & ->)%buildPool_ok Hc Hfam.
  destruct Hf as [[? _] | [(_ & _ & q & Hv) | (_ & ? & _)]]; [done | | done].
  apply validateCIDR_ok in Hv as [Hq _]. apply ParsePrefix_ParseCIDR in Hq as (_ & n & -> & _). done.
Qed.

Lemma and_iff_both (A B C D : Prop) : (A <-> B) -> (C <-> D) -> (A /\ C <-> B /\ D).
Proof. tauto. Qed.

Lemma errors_app {A} (a b : list A) P Q : (a = [] <-> P) -> (b = [] <-> Q) -> (a ++ b = [] <-> P /\ Q).
Proof. intros Ha Hb. rewrite <-Ha, <-Hb. apply app_nil. Qed.

(** What a built pool still owes the registry.  A root pool the client builds passes
    the registry's validation exactly when it carries no prefix length, its range
    parses (which the client has checked unless the family was stated), its bounds
    are in order and its visibility is known; a child pool, when it states neither a
    range nor a family, its length is one of an address, and the same. *)
Theorem built_pool_valid name o p : buildPool name o = Ok p ->
  validateIPPool p = [] <->
  (if String.eqb (po_parent o) ""
   then po_prefixLen o <= 0 /\ (po_family o <> "" -> ParseCIDR (po_cidr o) <> None)
   else po_cidr o = "" /\ po_family o = "" /\ 1 <= po_prefixLen o <= 128)
  /\ ~ (0 < po_minLen o /\ 0 < po_maxLen o /\ po_maxLen o < po_minLen o)
  /\ known_visibility (po_visibility o) = true.
Proof.
  intros Hb. pose proof (built_family _ _ _ Hb) as Hfam. pose proof (built_cidr _ _ _ Hb) as Hcidr.
  apply buildPool_ok in Hb as (scope & family & strategy & _ & Hcp & ->). unfold validateIPPool, refOrNil in *.
  cbn [pl_Spec ps_ParentPoolRef ps_Allocation ps_Reservations ps_Visibility as_MinPrefixLength as_MaxPrefixLength Reservations ps_IPFamily] in *.
  rewrite app_nil_l. apply errors_app.
  2: { apply errors_app; (etransitivity; [by apply when_empty|]); [apply bounds_in_order | apply negb_false_iff]. }
  destruct (String.eqb_spec (po_parent o) "") as [Hp|Hp].
  - unfold validate_root_pool. cbn [ps_PrefixLength ps_CIDR ps_IPFamily].
    assert (po_cidr o <> "") as Hc by (intros E; by specialize (Hcp E)). destruct Hfam as [(_ & _ & ?) | (H1 & H2 & _)]; [done|].
    assert (is_empty (po_cidr o) = false) as -> by by apply String.eqb_neq. rewrite H1, H2. cbn [negb when].
    rewrite app_nil_r. apply errors_app; (etransitivity; [by apply when_empty|]).
    + rewrite negb_false_iff, positive_zero. apply Z.leb_le.
    + rewrite bool_decide_eq_false. split; [done|]. intros H. destruct (String.eqb_spec (po_family o) ""); auto.
  - unfold validate_child_pool. cbn [ps_PrefixLength ps_CIDR ps_IPFamily lr_Name].
    assert (is_empty (po_parent o) = false) as -> by by apply String.eqb_neq. cbn [when]. rewrite app_nil_l.
    assert (is_empty family = true <-> po_cidr o = "" /\ po_family o = "") as Hfe.
    { destruct Hfam as [(-> & ? & ?) | (_ & -> & ?)]; [done|]. split; [done | tauto]. }
    transitivity (po_cidr o = "" /\ (po_cidr o = "" /\ po_family o = "") /\ 1 <= po_prefixLen o <= 128); [|tauto].
    apply errors_app; [|apply errors_app].
    + rewrite when_empty, negb_false_iff by done. apply String.eqb_eq.
    + rewrite when_empty, negb_false_iff by done. exact Hfe.
    + rewrite positive_zero. destruct (Z.leb_spec (po_prefixLen o) 0); [split; [done | lia]|].
      rewrite when_empty by done. destruct (positive_in (po_prefixLen o) 1 128 ltac:(lia)); [done | lia].
Qed.

Lemma built_pool_valid_witness :
  exists p, buildPool "us-west" (ex_pool_options "10.0.0.0/16" "" "backbone" 16) = Ok p /\ validateIPPool p <> [].
Proof.
  eexists. split; [reflexivity|]. intros H.
  apply (built_pool_valid "us-west" (ex_pool_options "10.0.0.0/16" "" "backbone" 16) _ eq_refl) in H as [(H & _) _]. discriminate.
Defined.

(** ** Releasing *)

Section ReleaseLaws.
Context {api : ApiMachinery} {T : Type} {pv : PoolServer T} (IsNotFound : GoErr -> bool).

(** The user has said so: [--yes], or the pool's name typed at a prompt. *)
Definition confirmed (se : session) (name : string) : Prop :=
  se_assumeYes se = true \/ (se_nonInteractive se = false /\ TrimSpace (se_line se) = name).

Lemma confirmTyped_true se name : confirmTyped se name = Ok true <-> confirmed se name.
Proof.
  unfold confirmTyped, confirmed. destruct (se_assumeYes se); [split; auto|].
  destruct (se_nonInteractive se); [split; [done | naive_solver]|].
  destruct (String.eqb_spec (TrimSpace (se_line se)) name); cbn; split; auto; naive_solver.
Qed.

Lemma confirmTyped_false se name : confirmTyped se name <> Ok false.
Proof. unfold confirmTyped. by repeat case_match. Qed.

(** Nothing is released by accident.  Whenever [pool release] leaves the server in
    another state than it found it, the run was no dry run, the user had confirmed
    it, by [--yes] or by typing the pool's name where someone can type, and either
    asked for the cascade or nothing was found under the pool. *)
Theorem pool_release_guarded se cascade dryRun ns name (s : T) r s' :
  runPoolRelease IsNotFound se cascade dryRun ns name s = (r, s') -> s' <> s ->
  dryRun = false /\ confirmed se name /\ is_ok (pv_get name s) = true
  /\ (cascade = true \/ childPools name s = [] /\ heldPrefixes ns name s = []).
Proof.
  unfold runPoolRelease. destruct (pv_get name s) as [p|e]; [|by intros [= _ <-]]. destruct dryRun; [by intros [= _ <-]|].
  intros H Hne. split; [done|]. destruct ((0 <? _)%nat && negb cascade) eqn:Hb; [by injection H as _ <-|].
  destruct (confirmTyped se name) as [[]|e] eqn:Hc; [|by injection H as _ <-..]. apply confirmTyped_true in Hc.
  split; [done|]. split; [done|]. destruct cascade; [by left | right]. cbn [negb] in Hb. rewrite andb_true_r in Hb.
  apply Nat.ltb_ge in Hb. destruct (childPools name s), (heldPrefixes ns name s); cbn in Hb; try lia. done.
Qed.

(** A pool with anything under it is left alone without [--cascade], whatever else is
    said. *)
Lemma pool_release_protected se ns name (s : T) p :
  pv_get name s = Ok p -> childPools name s <> [] \/ heldPrefixes ns name s <> [] ->
  runPoolRelease IsNotFound se false false ns name s = (Err (newCLIError exitConflict), s).
Proof.
  intros Hg Hb. unfold runPoolRelease. rewrite Hg. cbn [negb].
  assert ((0 <? length (childPools name s) + length (heldPrefixes ns name s))%nat = true) as ->; [|done].
  apply Nat.ltb_lt. destruct (childPools name s), (heldPrefixes ns name s); cbn; lia || naive_solver.
Qed.

(** The protection rests on two listings whose errors are dropped: when both fail, a
    confirmed release goes to the server as if nothing were under the pool. *)
Theorem release_ignores_listing_failure se ns name (s : T) p e1 e2 :
  pv_get name s = Ok p -> pv_pools s = Err e1 -> pv_claims ns s = Err e2 -> confirmed se name ->
  runPoolRelease IsNotFound se false false ns name s
  = match pv_delete_pool name s with
    | (Err e, s) => (Err (classifyError e), s)
    | (Ok _, s) => (Ok PoolReleased, s)
    end.
Proof.
  intros Hg Hp Hc Hs. unfold runPoolRelease, childPools, heldPrefixes. rewrite Hg, Hp, Hc. cbn [length Nat.add Nat.ltb Nat.leb andb negb].
  by rewrite (proj2 (confirmTyped_true se name) Hs).
Qed.

Lemma delete_each_app delete (a b : list string) (s s1 : T) :
  delete_each delete a s = (None, s1) -> delete_each delete (a ++ b) s = delete_each delete b s1.
Proof.
  revert s. induction a as [|n a IH]; intros s; cbn [delete_each app]; [by intros [= ->]|].
  destruct (delete n s) as [[]]; [apply IH | done].
Qed.

(** A cascade is no transaction, and reaches one level down.  When a direct child
    cannot be released, as one that has children or claims of its own cannot, the
    command fails with the server's refusal; by then every claim it found in the pool
    and every child before that one has been released, and the pool has not. *)
Theorem cascade_stops_halfway se ns name (s s1 s2 s3 : T) p before child after e :
  pv_get name s = Ok p -> confirmed se name ->
  childPools name s = before ++ child :: after ->
  delete_each (pv_delete_claim ns) (heldPrefixes ns name s) s = (None, s1) ->
  delete_each pv_delete_pool before s1 = (None, s2) ->
  pv_delete_pool child s2 = (Err e, s3) ->
  runPoolRelease IsNotFound se true false ns name s = (Err (classifyError e), s3).
Proof.
  intros Hg Hs Hch H1 H2 H3. unfold runPoolRelease. rewrite Hg, andb_false_r, (proj2 (confirmTyped_true se name) Hs), H1, Hch.
  rewrite (delete_each_app _ _ _ _ _ H2). cbn [negb delete_each]. by rewrite H3.
Qed.
End ReleaseLaws.

(** A server of pools and claims that refuses to delete a pool others hang from. *)
Record ex_state := mkExState { xs_pools : list IPPool; xs_claims : list IPClaim }.

Definition ex_drop_claim (name : string) (s : ex_state) : ex_state :=
  mkExState (xs_pools s) (List.filter (fun c => negb (String.eqb (ic_Name c) name)) (xs_claims s)).

Definition ex_occupied (name : string) (s : ex_state) : bool :=
  existsb (fun p => bool_decide (parent_name p = Some name)) (xs_pools s)
  || existsb (fun c => bool_decide (option_map lr_Name (icst_PoolRef (ic_Status c)) = Some name)) (xs_claims s).

#[export] Instance ex_pool_server : PoolServer ex_state := {|
  pv_get name s := match List.find (fun p => String.eqb (pl_Name p) name) (xs_pools s) with
                   | Some p => Ok p
                   | None => Err (GText "not found")
                   end;
  pv_pools s := Ok (xs_pools s);
  pv_claims _ s := Ok (xs_claims s);
  pv_delete_pool name s :=
    if ex_occupied name s then (Err (GStatus (plain_status 409 "Conflict")), s)
    else (Ok tt, mkExState (List.filter (fun p => negb (String.eqb (pl_Name p) name)) (xs_pools s)) (xs_claims s));
  pv_delete_claim _ name s := (Ok tt, ex_drop_claim name s)
|}.

Definition ex_claim_in (name pool : string) : IPClaim :=
  mkIPClaim (mkMeta name ∅ ∅) "default" 0 (mkClaimSpec "net" "" "" "" None ∅ "" "" None)
    (mkClaimStatus ClaimBound "" "" (Some (mkLocalRef pool)) None).

Definition ex_servers : ex_state := mkExState ex_pools [ex_claim_in "web" "backbone"; ex_claim_in "db" "us-west"].
Definition ex_yes : session := mkSession true true "".

Lemma pool_release_guarded_witness :
  confirmed (mkSession false false " orphan ") "orphan"
  /\ (@runPoolRelease plain_machinery _ _ (fun _ => false) (mkSession false false " orphan ") false false "default" "orphan" ex_servers).2 <> ex_servers.
Proof.
  assert (Hne : (@runPoolRelease plain_machinery _ _ (fun _ => false) (mkSession false false " orphan ") false false "default" "orphan" ex_servers).2 <> ex_servers).
  { intros E. apply (f_equal (fun s => length (xs_pools s))) in E. vm_compute in E. discriminate. }
  split; [|exact Hne].
  exact (proj1 (proj2 (@pool_release_guarded plain_machinery _ _ (fun _ => false) (mkSession false false " orphan ") false false "default" "orphan"
    ex_servers _ _ (surjective_pairing _) Hne))).
Defined.

(** [backbone] is released with everything under it: its claim goes, and [us-west], which
    holds [edge], stops the command. *)
Lemma cascade_stops_halfway_witness :
  exists s', @runPoolRelease plain_machinery _ _ (fun _ => false) ex_yes true false "default" "backbone" ex_servers
             = (Err (@classifyError plain_machinery (GStatus (plain_status 409 "Conflict"))), s')
    /\ map ic_Name (xs_claims s') = ["db"] /\ map pl_Name (xs_pools s') = map pl_Name ex_pools.
Proof.
  exists (ex_drop_claim "web" ex_servers). split; [|split; vm_compute; reflexivity].
  refine (@cascade_stops_halfway plain_machinery _ _ (fun _ => false) ex_yes "default" "backbone" ex_servers (ex_drop_claim "web" ex_servers)
            (ex_drop_claim "web" ex_servers) (ex_drop_claim "web" ex_servers) (ex_pool "backbone" None) [] "us-west" ["us-east"] _ _ _ _ _ _ _);
    [reflexivity | left; reflexivity | vm_compute; reflexivity | vm_compute; reflexivity | reflexivity | vm_compute; reflexivity].
Defined.

Lemma release_ignores_listing_failure_witness :
  exists pv : PoolServer unit,
    @runPoolRelease plain_machinery unit pv (fun _ => false) ex_yes false false "default" "p" tt = (Ok PoolReleased, tt).
Proof.
  exists {| pv_get := fun _ _ => Ok (ex_pool "p" None); pv_pools := fun _ => Err (GText "timeout");
            pv_claims := fun _ _ => Err (GText "timeout"); pv_delete_pool := fun _ s => (Ok tt, s);
            pv_delete_claim := fun _ _ s => (Ok tt, s) |}.
  erewrite (@release_ignores_listing_failure plain_machinery unit _ (fun _ => false) ex_yes "default" "p" tt); try reflexivity.
  left. reflexivity.
Defined.

(** ** The entitlement *)

(** What the catalogue has to say for a run to go on. *)
Definition is_active (item : entitlement) : Prop := en_service item = ipamServiceName /\ en_phase item = EntitlementActive.

Lemma watch_entitlement_ok events : watch_entitlement events = Ok tt ->
  exists item, mkWatchEvent true (Some item) ∈ events /\ en_ready item = true /\ is_active item.
Proof.
  induction events as [|[ch it] events IH]; [done|]. cbn [watch_entitlement we_changes we_item].
  assert (watch_entitlement events = Ok tt ->
    exists item, mkWatchEvent true (Some item) ∈ mkWatchEvent ch it :: events /\ en_ready item = true /\ is_active item) as Hskip.
  { intros (item & Hin & ?)%IH. exists item. split; [by right | done]. }
  destruct ch; [cbn [negb] | exact Hskip]. destruct it as [item|]; [|exact Hskip].
  destruct (String.eqb_spec (en_service item) ipamServiceName); [cbn [negb] | exact Hskip].
  destruct (en_ready item) eqn:Hr; [cbn [negb] | exact Hskip]. destruct (en_phase item) eqn:Hph; try done.
  intros _. exists item. split; [left | done].
Qed.

Lemma listed_entitlement_ok items : listed_entitlement items = Some (Ok tt) -> exists item, item ∈ items /\ is_active item.
Proof.
  induction items as [|it items IH]; [done|]. cbn [listed_entitlement].
  assert (listed_entitlement items = Some (Ok tt) -> exists item, item ∈ it :: items /\ is_active item) as Hskip.
  { intros (item & ? & ?)%IH. exists item. split; [by right | done]. }
  destruct (String.eqb_spec (en_service it) ipamServiceName); [cbn [negb] | exact Hskip].
  destruct (en_phase it) eqn:Hp; try done. intros _. exists it. split; [left | done].
Qed.

Lemma prompt_ok ct tty line : promptAndRequestEntitlement ct tty line = Ok tt ->
  tty = true /\ ct_create ct = None
  /\ exists events item, ct_watch ct = Ok events /\ mkWatchEvent true (Some item) ∈ events /\ en_ready item = true /\ is_active item.
Proof.
  unfold promptAndRequestEntitlement. destruct tty; [cbn [negb]|done]. destruct line as [text|]; [|done]. cbv zeta.
  destruct (_ && _); [done|]. destruct (ct_create ct); [done|]. destruct (ct_watch ct) as [events|]; [|done].
  intros (item & ? & ? & ?)%watch_entitlement_ok. split; [done|]. split; [done|]. by exists events, item.
Qed.

(** Where the client has seen an entitlement: in the listing, or on the watch after it
    asked for one. *)
Definition seen (ct : catalogue) (tty : bool) (item : entitlement) : Prop :=
  (exists items, ct_list ct = Ok (Some items) /\ item ∈ items)
  \/ (tty = true /\ ct_create ct = None
      /\ exists events, ct_watch ct = Ok events /\ mkWatchEvent true (Some item) ∈ events /\ en_ready item = true).

(** No IPAM call is made for a project that may not use the service: the check lets a
    run go on only outside any project, or when the catalogue holds an entitlement of
    this service whose phase is Active, listed or seen on the watch after the user
    agreed to request one. *)
Theorem entitlement_gate project newClient tty line :
  EnsureIPAMEntitlement project newClient tty line = Ok tt ->
  project = "" \/ exists ct item, newClient = Ok ct /\ is_active item /\ seen ct tty item.
Proof.
  unfold EnsureIPAMEntitlement. destruct (String.eqb_spec project ""); [by left|]. intros H. right.
  destruct newClient as [ct|]; [|done]. cbn [mbind result_bind] in H. exists ct.
  assert (promptAndRequestEntitlement ct tty line = Ok tt -> exists item, is_active item /\ seen ct tty item) as Hp.
  { intros (? & ? & events & item & ? & ? & ? & ?)%prompt_ok. exists item. split; [done|]. right.
    split; [done|]. split; [done|]. by exists events. }
  assert (forall items, ct_list ct = Ok (Some items) -> listed_entitlement items = Some (Ok tt) ->
    exists item, is_active item /\ seen ct tty item) as Hi.
  { intros items Hl (item & ? & ?)%listed_entitlement_ok. exists item. split; [done|]. left. by exists items. }
  destruct (ct_list ct) as [[items|]|]; [| |done].
  - destruct (listed_entitlement items) as [r|] eqn:E.
    + subst r. destruct (Hi items eq_refl E) as (item & ? & ?). by exists item.
    + destruct (Hp H) as (item & ? & ?). by exists item.
  - destruct (Hp H) as (item & ? & ?). by exists item.
Qed.

Lemma entitlement_gate_witness :
  exists ct item, Ok (E := cliError) (mkCatalogue (Ok (Some [])) None (Ok [mkWatchEvent true (Some (mkEntitlement ipamServiceName EntitlementActive true))])) = Ok ct
    /\ is_active item.
Proof.
  destruct (entitlement_gate "alpha"
    (Ok (mkCatalogue (Ok (Some [])) None (Ok [mkWatchEvent true (Some (mkEntitlement ipamServiceName EntitlementActive true))])))
    true (Some " Yes ") eq_refl) as [E | (ct & item & H & Ha & Hs)]; [discriminate E | by exists ct, item].
Defined.

(** An entitlement whose phase the catalogue has not set is taken for none: with somebody
    to answer, the client asks to create it again. *)
Theorem unset_phase_asks_again ct items tty line :
  ct_list ct = Ok (Some items) -> Forall (fun item => en_phase item = EntitlementOther) items ->
  EnsureIPAMEntitlement "alpha" (Ok ct) tty line = promptAndRequestEntitlement ct tty line.
Proof.
  intros Hl Hf. unfold EnsureIPAMEntitlement. cbn [String.eqb Ascii.eqb Bool.eqb mbind result_bind]. rewrite Hl.
  assert (listed_entitlement items = None) as ->; [|done]. clear Hl.
  induction Hf as [|item items Hp _ IH]; [done|]. cbn [listed_entitlement]. rewrite Hp. by destruct (negb _).
Qed.

Lemma unset_phase_asks_again_witness :
  EnsureIPAMEntitlement "alpha"
    (Ok (mkCatalogue (Ok (Some [mkEntitlement ipamServiceName EntitlementOther false])) (Some (GText "already exists")) (Ok [])))
    true (Some "y") = Err (withCause (newCLIError exitUnavailable) (GText "already exists")).
Proof.
  etransitivity; [apply (unset_phase_asks_again
      (mkCatalogue (Ok (Some [mkEntitlement ipamServiceName EntitlementOther false])) (Some (GText "already exists")) (Ok []))
      [mkEntitlement ipamServiceName EntitlementOther false] true (Some "y") eq_refl)|reflexivity].
  constructor; [reflexivity | constructor].
Defined.
