(* ===== verification/ClientAlloc.v ===== *)
(** * ClientAlloc: [cmd/milo-ipam/allocation.go], listing, showing and releasing

    The commands over the records of addresses handed out; the reverse lookup itself is
    in [ClientAddr].  [AllocationServer] is the server they call, [db_alloc_server] the
    handlers of [Registry] behind it.

    [allocation_release_exact] says, branch by branch, what a release answers and what
    it leaves; [retained_shown_as_claimed] what an address kept after its claim is said
    to be.  Rendering is left out, except for who is named as the holder. *)

From Stdlib Require Import Ascii String.
From S2P Require Import Prelude Text Float Net Cidr Reservation Allocate Consumption Scan Tenant Sha256 Scope.
From S2P Require Import NetText Types Db PoolObject Class Discover BoundedSearch Prefix PoolInvariant.
From S2P Require Import PoolWrites Cascade Provision Range ObjectLaws Errors Validation Access Claim ClaimLaws ClaimDelete Registry.
From S2P Require Import ClientScope ClientAddr ClientClaim.
Open Scope string_scope.
Open Scope list_scope.
Open Scope Z_scope.

(** ** The server *)

Class AllocationServer (S : Type) := {
  av_get : string -> string -> S -> result GoErr IPAllocation;
  av_list : string -> S -> result GoErr (list IPAllocation);
  av_delete : string -> string -> S -> result GoErr unit * S
}.

(** ** [allocation list] *)

Record allocationFilter := mkAllocationFilter {
  af_class : string;
  af_pool : string;
  af_purpose : string;
  af_unclaimed : bool;
  af_scopeArgs : list string
}.

Definition keep_allocation (f : allocationFilter) (wantPurpose : option AllocationPurpose) (wantScope : scope_map) (al : IPAllocation) : bool :=
  let sp := al_Spec al in
  negb (negb (String.eqb (af_class f) "") && negb (String.eqb (als_ClassName sp) (af_class f)))
  && negb (negb (String.eqb (af_pool f) "") && negb (String.eqb (lr_Name (als_PoolRef sp)) (af_pool f)))
  && negb (match wantPurpose with Some p => negb (bool_decide (als_Purpose sp = p)) | None => false end)
  && negb (af_unclaimed f && is_some (als_ClaimRef sp))
  && scopeContains (als_Scope sp) wantScope.

(** ** What is said of a holder *)

Inductive holder :=
  | HeldByPool (pool : string)
  | HeldByChildPool (pool : string)
  | ClaimedByOwner (owner : ObjectRef) (via : option string)
  | ClaimedByClaim (claim : string)
  | ClaimedByNothing.

(** The lines of [renderAddressAnswer] that say who holds the address. *)
Definition answer_holder (al : IPAllocation) : holder :=
  let sp := al_Spec al in
  match als_Purpose sp with
  | PurposeReservation => HeldByPool (lr_Name (als_PoolRef sp))
  | PurposePoolCarve => HeldByChildPool (lr_Name (als_PoolRef sp))
  | PurposeClaim =>
    match als_OwnerRef sp, als_ClaimRef sp with
    | Some owner, claim => ClaimedByOwner owner (option_map lr_Name claim)
    | None, Some claim => ClaimedByClaim (lr_Name claim)
    | None, None => ClaimedByNothing
    end
  end.

(** ** The commands *)

Inductive alloc_outcome := AllocPlan (address pool : string) | AllocReleased (address pool : string).

Section AllocCommands.
Context {api : ApiMachinery} {S : Type} {av : AllocationServer S} (IsNotFound : GoErr -> bool).

Definition listAllocations (f : allocationFilter) (client : result cliError string) (s : S) : result cliError (list IPAllocation) :=
  ns ← client;
  wantScope ← buildScope (af_scopeArgs f);
  wantPurpose ← parsePurpose (af_purpose f);
  items ← wrap_err classifyError (av_list ns s);
  mret (List.filter (keep_allocation f wantPurpose wantScope) items).

Definition allocationGetError (e : GoErr) : cliError :=
  if IsNotFound e then withCause (newCLIError exitNotFound) e else classifyError e.

Definition resolveAllocation (ns arg : string) (s : S) : result cliError (list IPAllocation) :=
  if looksLikeAddress arg then lookupAllocationsByAddress (av_list ns s) arg
  else al ← wrap_err allocationGetError (av_get ns arg s); mret [al].

Definition runAllocationShow (arg : string) (client : result cliError string) (s : S) : result cliError (list IPAllocation) :=
  ns ← client; resolveAllocation ns arg s.

Definition runAddressShow (arg : string) (client : result cliError string) (s : S) : result cliError (list IPAllocation) :=
  if negb (looksLikeAddress arg) then Err usageErrorf
  else ns ← client; lookupAllocationsByAddress (av_list ns s) arg.

Definition runAllocationRelease (se : session) (dryRun : bool) (ns name : string) (s : S) : result cliError alloc_outcome * S :=
  match av_get ns name s with
  | Err e => (Err (allocationGetError e), s)
  | Ok al =>
    match als_ClaimRef (al_Spec al) with
    | Some _ => (Err (newCLIError exitConflict), s)
    | None =>
      let addr := orDash (allocationAddress al) in
      let pool := lr_Name (als_PoolRef (al_Spec al)) in
      if dryRun then (Ok (AllocPlan addr pool), s)
      else if negb (confirmYesNo se) then (Err (newCLIError exitAborted), s)
      else match av_delete ns name s with
           | (Err e, s) => (Err (classifyError e), s)
           | (Ok _, s) => (Ok (AllocReleased addr pool), s)
           end
    end
  end.
End AllocCommands.

(** ** The handlers behind the commands *)

Section Served.
Context {api : ApiMachinery} (others : nat -> Db -> Db) (user : option Extras) (notFound : GoErr) (IsNotFound : GoErr -> bool).

(** An allocation as the generic store reads it. *)
Definition db_alloc_get (namespace name : string) (d : Db) : result GoErr IPAllocation :=
  match db_objects d !! allocationObjectKey (FromContext user) namespace name with
  | None => Err notFound
  | Some r => match as_allocation (ob_data r) with Some a => Ok a | None => Err (GText "decode") end
  end.

(** The allocations under the namespace's keys. *)
Definition db_alloc_list (namespace : string) (d : Db) : result GoErr (list IPAllocation) :=
  Ok (omap (fun kr => as_allocation (ob_data kr.2))
        (List.filter (fun kr => HasPrefix kr.1 (allocationObjectKey (FromContext user) namespace "")) (map_to_list (db_objects d)))).

#[export] Instance db_alloc_server : AllocationServer Db := {|
  av_get := db_alloc_get;
  av_list := db_alloc_list;
  av_delete namespace name d :=
    match allocation_Delete (db_alloc_get namespace) others user None [] name d with
    | (Ok _, d) => (Ok tt, d)
    | (Err e, d) => (Err e, d)
    end
|}.

(** The row under a key is an allocation that carries the names its key is made of, as
    every write of the registry leaves it. *)
Definition stored_allocation (d : Db) (namespace name : string) (a : IPAllocation) : Prop :=
  exists row, db_objects d !! allocationObjectKey (FromContext user) namespace name = Some row
    /\ ob_data row = DocAllocation a /\ al_Namespace a = namespace /\ al_Name a = name.

Lemma stored_get d namespace name a : stored_allocation d namespace name a -> db_alloc_get namespace name d = Ok a.
Proof. intros (row & Hr & Hd & _). unfold db_alloc_get. by rewrite Hr, Hd. Qed.

(** [C29] What a release does, on every branch.  An allocation a claim is bound to is a
    conflict, whatever the flags; otherwise a dry run shows and leaves everything, a
    prompt answered with anything but yes aborts and leaves everything, and a release
    that goes on succeeds: the object is gone, so are exactly the rows of its key, and
    what the registry keeps true of its pools still holds. *)
Theorem allocation_release_exact se dry namespace name d a :
  let key := allocationObjectKey (FromContext user) namespace name in
  let addr := orDash (allocationAddress a) in
  let pool := lr_Name (als_PoolRef (al_Spec a)) in
  stored_allocation d namespace name a ->
  inv (others O d) -> identity_ok (others O d) = true -> not_pool (others O d) key ->
  exists r d', runAllocationRelease IsNotFound se dry namespace name d = (r, d') /\
    (if is_some (als_ClaimRef (al_Spec a)) then r = Err (newCLIError exitConflict) /\ d' = d
     else if dry then r = Ok (AllocPlan addr pool) /\ d' = d
     else if confirmYesNo se
          then r = Ok (AllocReleased addr pool) /\ inv d' /\ db_objects d' !! key = None
               /\ db_allocs d' = List.filter (fun row => negb (String.eqb (ar_allocation_key row) key)) (db_allocs (others O d))
          else r = Err (newCLIError exitAborted) /\ d' = d).
Proof.
  intros key addr pool Hst Hi Hok Hn. pose proof (stored_get _ _ _ _ Hst) as Hg. destruct Hst as (row & _ & _ & Hns & Hnm).
  unfold runAllocationRelease. cbn [av_get av_delete db_alloc_server]. rewrite Hg. fold addr pool.
  destruct (als_ClaimRef (al_Spec a)) eqn:Hc; cbn [is_some]; [by eexists _, _|]. destruct dry; [by eexists _, _|].
  destruct (confirmYesNo se); cbn [negb]; [|by eexists _, _].
  destruct (allocation_Delete_run (db_alloc_get namespace) others user None name d a Hg eq_refl) as (d' & -> & Hi' & Ho & Ha);
    [by unfold ValidateDelete; rewrite Hc | done | done | by rewrite Hns, Hnm |].
  rewrite Hns, Hnm in Ho, Ha. eexists _, d'. split; [done|]. split_and!; done.
Qed.

(** The owner of an admitted claim is the tenant. *)
Lemma admit_owner `{rest : RestCreate IPClaim} fault cv nsc claim0 d claim class :
  admit_claim fault user cv nsc claim0 d = Ok (claim, class) -> exists c, claim = own_claim c (FromContext user).
Proof.
  unfold admit_claim. intros (c & _ & H)%result_bind_ok. destruct (_ && _); [done|].
  apply result_bind_ok in H as (k & _ & H). repeat (destruct (_ && _); [done|]). cbv zeta in H.
  repeat (case_match; [done|]). injection H as <- _. by eexists.
Qed.

(** The answer for a retained address names an owner.  A block's claim was created and
    then deleted under policy Retain.  The registry writes the tenant into every
    claim's owner and nothing takes it out of the allocation, so the allocation that
    is left, though unbound, is always said to be claimed by that tenant: the branch
    written for this case, "nothing — retained after its claim was deleted", is never
    taken. *)
Theorem retained_shown_as_claimed `{rest : RestCreate IPClaim} faults cv nsc claim0 d0 claim class c d d' :
  let id := FromContext user in
  let ck := claimObjectKey id (ic_Namespace claim) (ic_Name claim) in
  let ak := allocationObjectKey id (ic_Namespace claim) (allocationNameFor (ic_Namespace claim) (ic_Name claim)) in
  (forall i d, inv d -> inv (others i d)) -> inv d0 -> classes_sound others d0 ->
  admit_claim (faults O) user cv nsc claim0 d0 = Ok (claim, class) -> is_range claim = false ->
  Create others faults user cv nsc [] claim0 d0 = (Ok c, d) ->
  claim_gone ck ak d d' -> ak ∈ retained_by ck d ->
  exists row a, db_objects d' !! ak = Some row /\ ob_data row = DocAllocation a
    /\ als_ClaimRef (al_Spec a) = None
    /\ answer_holder a = ClaimedByOwner (mkObjectRef (id_APIGroup id) (id_Kind id) "" (id_Name id)) None.
Proof.
  intros id ck ak Ho Hi Hc Hadm Hrange H Hg Hr. pose proof (cg_alloc _ _ _ _ Hg) as Hdis. unfold disposed in Hdis.
  rewrite bool_decide_true in Hdis by done. destruct (Create_cases _ _ _ _ _ _ _ _ _ _ H)
    as [(e & [=] & _) | (claim' & class' & r1 & d1 & Hadm' & Hres & [(e & [=] & _) | (poolKey & u & us & dg & what & _ & _ & Hdr)])].
  rewrite Hadm in Hadm'. injection Hadm' as <- <-.
  pose proof (Ho O _ (resolution_inv _ _ _ _ _ _ _ _ _ _ _ Ho Hi Hc Hadm Hres)) as Hi1.
  specialize (Hdr []). rewrite H, not_dry in Hdr. symmetry in Hdr. apply in_gtx_ok in Hdr as [Hdr _].
  unfold allocating, recording in Hdr. rewrite Hrange in Hdr.
  apply block_transaction_ok in Hdr as (_ & p & n & res & rv & _ & _ & _ & _ & _ & _ & _ & _ & Hak & _); [|done].
  cbn zeta in Hak. fold id ak in Hak. destruct (Hdis _ _ Hak eq_refl) as (row & Hrow & Hdoc).
  eexists row, _. split; [done|]. split; [exact Hdoc|]. split; [done|].
  by destruct (admit_owner _ _ _ _ _ _ _ Hadm) as [c0 ->].
Qed.

(** An address is resolved the same way by both commands. *)
Lemma show_agrees ns arg (d : Db) : looksLikeAddress arg = true ->
  runAllocationShow IsNotFound arg (Ok ns) d = runAddressShow arg (Ok ns) d.
Proof. intros H. unfold runAllocationShow, runAddressShow, resolveAllocation. by rewrite H. Qed.

End Served.

(** ** Witnesses *)

(** The example claim under policy Retain, after its deletion. *)
Lemma ex_kept_gone : exists d, claim_gone ex_key ex_alloc_key ex_kept.2 d.
Proof.
  assert (Href : match icst_BoundAllocationRef (ic_Status ex_kept.1) with
                 | Some r => String.eqb (lr_Name r) ClaimDelete.ex_alloc | None => false end
                 && String.eqb (ic_Namespace ex_kept.1) "default" && String.eqb (ic_Name ex_kept.1) "c1" = true) by (vm_compute; reflexivity).
  apply andb_true_iff in Href as [[Href Hns%String.eqb_eq]%andb_true_iff Hn%String.eqb_eq].
  destruct (icst_BoundAllocationRef (ic_Status ex_kept.1)) as [[rn]|] eqn:Eref; [|discriminate Href].
  cbn [lr_Name] in Href. apply String.eqb_eq in Href as ->.
  pose proof (@releaseAndDelete_ok ex_id ex_kept.1 ClaimDelete.ex_alloc ex_kept.2 Eref ltac:(discriminate)) as Hrel.
  rewrite Hns, Hn in Hrel. fold ex_key ex_alloc_key in Hrel.
  destruct (Hrel ex_kept_deletable) as (d & _ & Hi & Hok & Ha & Hc & Hdis & Hoth).
  exists d. exact (Build_claim_gone _ _ _ _ Hi Hok Ha Hc Hdis Hoth).
Qed.

Lemma ex_kept_retained : ex_alloc_key ∈ retained_by ex_key ex_kept.2.
Proof. apply (bool_decide_eq_true (ex_alloc_key ∈ retained_by ex_key ex_kept.2)). vm_compute. reflexivity. Qed.

(** Its allocation as the deletion leaves it. *)
Lemma ex_kept_allocation d : claim_gone ex_key ex_alloc_key ex_kept.2 d ->
  exists a, stored_allocation (cx_user "alpha") d "default" ClaimDelete.ex_alloc a /\ als_ClaimRef (al_Spec a) = None.
Proof.
  intros Hg. assert (H0 : match db_objects ex_kept.2 !! ex_alloc_key with
               | Some r => match as_allocation (ob_data r) with
                           | Some a => String.eqb (al_Namespace a) "default" && String.eqb (al_Name a) ClaimDelete.ex_alloc
                           | None => false end | None => false end = true) by (vm_compute; reflexivity).
  destruct (db_objects ex_kept.2 !! ex_alloc_key) as [row0|] eqn:Hrow0; [|discriminate H0].
  destruct (as_allocation (ob_data row0)) as [a0|] eqn:Ha0; [|discriminate H0].
  apply andb_true_iff in H0 as [Hns%String.eqb_eq Hnm%String.eqb_eq]. apply as_allocation_Some in Ha0.
  pose proof (cg_alloc _ _ _ _ Hg) as Hdis. unfold disposed in Hdis. rewrite bool_decide_true in Hdis by exact ex_kept_retained.
  destruct (Hdis row0 a0 Hrow0 Ha0) as (row & Hrow & Hdoc). exists (unbound_allocation a0). split; [|reflexivity].
  exists row. exact (conj Hrow (conj Hdoc (conj Hns Hnm))).
Qed.

Lemma allocation_release_exact_witness :
  exists d out d', @runAllocationRelease plain_machinery Db
      (@db_alloc_server plain_machinery (fun _ d => d) (cx_user "alpha") (GText "not found")) (fun e => httpStatusCode e =? 404)
      (mkSession false false " Yes ") false "default" ClaimDelete.ex_alloc d = (Ok out, d')
    /\ db_objects d' !! ex_alloc_key = None.
Proof.
  destruct ex_kept_gone as [d Hg]. destruct (ex_kept_allocation d Hg) as (a & Hst & Hc).
  assert (Hn : not_pool d ex_alloc_key).
  { destruct Hst as (row & Hrow & Hdoc & _). apply (not_pool_row d ex_alloc_key row); [exact Hrow|by rewrite Hdoc]. }
  destruct (@allocation_release_exact plain_machinery (fun _ d => d) (cx_user "alpha") (GText "not found") (fun e => httpStatusCode e =? 404)
    (mkSession false false " Yes ") false "default" ClaimDelete.ex_alloc d a Hst (cg_inv _ _ _ _ Hg) (cg_ids _ _ _ _ Hg) Hn) as (r & d' & H & Hr).
  rewrite Hc in Hr. cbn in Hr. destruct Hr as (-> & _ & Ho & _). exists d, (AllocReleased (orDash (allocationAddress a)) (lr_Name (als_PoolRef (al_Spec a)))), d'.
  split; [exact H | exact Ho].
Defined.

Lemma retained_shown_as_claimed_witness :
  exists d row a, db_objects d !! ex_alloc_key = Some row /\ ob_data row = DocAllocation a
    /\ als_ClaimRef (al_Spec a) = None
    /\ answer_holder a = ClaimedByOwner (mkObjectRef ParentAPIGroupProject "Project" "" "alpha") None.
Proof.
  destruct ex_kept_gone as [d Hg].
  assert (H : match ex_admit ex_retaining cx_db with
              | Ok (c, _) => String.eqb (ic_Namespace c) "default" && String.eqb (ic_Name c) "c1" && negb (is_range c)
              | Err _ => false end = true) by (vm_compute; reflexivity).
  destruct (ex_admit ex_retaining cx_db) as [[c class]|] eqn:Hadm; [|discriminate H].
  apply andb_true_iff in H as [[H1%String.eqb_eq H2%String.eqb_eq]%andb_true_iff H3%negb_true_iff].
  pose proof (@retained_shown_as_claimed plain_machinery (fun _ d => d) (cx_user "alpha") plain_rest (fun _ => None) None None ex_retaining cx_db c class
    ex_kept.1 ex_kept.2 d (fun _ _ H => H) cx_inv (conj cx_counted cx_counted) Hadm H3
    (ex_done_eq [] ex_retaining cx_db ltac:(vm_compute; reflexivity))) as Ht.
  rewrite H1, H2 in Ht. destruct (Ht Hg ex_kept_retained) as (row & a & ? & ? & ? & Hh).
  exists d, row, a. split; [assumption|]. split; [assumption|]. split; [assumption|]. exact Hh.
Defined.
