(* ===== verification/ClientApp.v ===== *)
(** * ClientApp: [cmd/milo-ipam/app.go], [transport.go], [root.go] and [main.go]

    How the client finds the control plane it talks to and what every command passes
    before it runs.  [control_plane_identifies]: the base address determines the
    project or organization.  [command_runs_entitled]: a command that reaches the
    server over the platform reaches it in the very project whose entitlement was
    seen active.  [client_built_once]: the memoized client.

    The plugin SDK, the kubeconfig loader and the clientset's constructor are
    arguments; verbose logging is left out. *)

From Stdlib Require Import Ascii String.
From S2P Require Import Prelude Text Net Cidr Tenant Scope NetText Types Db Errors ClientScope ClientAddr ClientTree ClientClaim ClientPools.
Open Scope string_scope.
Open Scope list_scope.
Open Scope Z_scope.

(** ** Transport *)

Inductive transportMode := modeDatum | modeKubeconfig.

(** What the host hands its plugin in [DATUM_*] variables. *)
Record datumEnv := mkEnv { de_org : string; de_project : string; de_apiHost : string; de_credHelper : string }.

Definition usable (d : datumEnv) : bool := negb (String.eqb (de_apiHost d) "") && negb (String.eqb (de_credHelper d) "").

Definition chooseMode (kubeconfigFlag : string) (env : datumEnv) : transportMode :=
  if negb (String.eqb kubeconfigFlag "") then modeKubeconfig
  else if usable env then modeDatum else modeKubeconfig.

Definition ensureScheme (host : string) : string :=
  if String.eqb host "" || Contains host "://" then host else "https://" +:+ host.

(** [strings.TrimRight(s, "/")] *)
Fixpoint TrimRightSlash (s : string) : string :=
  match s with
  | EmptyString => EmptyString
  | String c t => match TrimRightSlash t with
                  | EmptyString => if Ascii.eqb c "/" then EmptyString else String c EmptyString
                  | t => String c t
                  end
  end.

Definition controlPlaneHost (env : datumEnv) : string :=
  let base := TrimRightSlash (ensureScheme (de_apiHost env)) in
  if negb (String.eqb (de_project env) "") then
    base +:+ "/apis/resourcemanager.miloapis.com/v1alpha1/projects/" +:+ de_project env +:+ "/control-plane"
  else if negb (String.eqb (de_org env) "") then
    base +:+ "/apis/resourcemanager.miloapis.com/v1alpha1/organizations/" +:+ de_org env +:+ "/control-plane"
  else base.

Record restConfig := mkConfig { cfg_Host : string; cfg_BearerToken : string; cfg_UserAgent : string }.
Definition with_agent (c : restConfig) (agent : string) : restConfig := mkConfig (cfg_Host c) (cfg_BearerToken c) agent.

(** The flags the transport and the preflight read. *)
Record globalOptions := mkOptions {
  go_kubeconfig : string;
  go_namespace : string;
  go_output : string;
  go_color : string;
  go_org : string;
  go_project : string
}.

(** Flags win over the injected scope; the options are brought in line with it. *)
Definition resolveDatum (readDatumEnv : datumEnv) (opts : globalOptions) : (datumEnv * transportMode) * globalOptions :=
  let org := if String.eqb (go_org opts) "" then de_org readDatumEnv else go_org opts in
  let project := if String.eqb (go_project opts) "" then de_project readDatumEnv else go_project opts in
  let env := mkEnv org project (de_apiHost readDatumEnv) (de_credHelper readDatumEnv) in
  ((env, chooseMode (go_kubeconfig opts) env),
   mkOptions (go_kubeconfig opts) (go_namespace opts) (go_output opts) (go_color opts) org project).

Definition validOutputs : list string := ["table"; "wide"; "json"; "yaml"; "name"].
Definition isValidOutput (o : string) : bool := existsb (String.eqb o) validOutputs.

(** The command matched, and whether [--help] was given. *)
Definition skipEntitlementCheck (name : string) (help : bool) : bool :=
  existsb (String.eqb name) ["version"; "completion"; "help"; "__complete"; "__completeNoDesc"] || help.

Section App.
Context {api : ApiMachinery} {CS : Type}.
Context (readDatumEnv : datumEnv) (pluginVersion : string).
(** The kubeconfig loader with the namespace of its context, the in-cluster
    configuration, the clientset's constructor, the catalogue's scheme, and the service
    catalogue at an address.  What one call of [plugin.Token] answers is an argument of
    each definition that makes one, since two calls may answer differently. *)
Context (ClientConfig : string -> result GoErr (restConfig * result GoErr string)).
Context (InClusterConfig : result GoErr restConfig).
Context (NewForConfig : restConfig -> result GoErr CS).
Context (AddToScheme : result GoErr unit).
Context (NewWithWatch : restConfig -> result GoErr catalogue).

Definition userAgent : string := "milo-ipam/" +:+ pluginVersion.

Definition unavailable (e : GoErr) : cliError := withCause (newCLIError exitUnavailable) e.

Definition datumRestConfig (Token : result GoErr string) (env : datumEnv) : result cliError (restConfig * string) :=
  if negb (usable env) then Err (newCLIError exitUnavailable)
  else
    token ← wrap_err unavailable Token;
    Ok (mkConfig (controlPlaneHost env) token userAgent, "default").

Definition kubeconfigRestConfig (kubeconfigFlag : string) : result cliError (restConfig * string) :=
  match ClientConfig kubeconfigFlag with
  | Err e => match InClusterConfig with
             | Ok c => Ok (with_agent c userAgent, "default")
             | Err _ => Err (unavailable e)
             end
  | Ok (c, namespace) =>
    let ns := match namespace with Ok ns => if String.eqb ns "" then "default" else ns | Err _ => "default" end in
    Ok (with_agent c userAgent, ns)
  end.

Definition restConfigFor (Token : result GoErr string) (mode : transportMode) (kubeconfigFlag : string) (env : datumEnv)
    : result cliError (restConfig * string) :=
  match mode with modeDatum => datumRestConfig Token env | modeKubeconfig => kubeconfigRestConfig kubeconfigFlag end.

Definition newClientset (c : restConfig) : result cliError CS := wrap_err unavailable (NewForConfig c).

Definition newEntitlementClient (Token : result GoErr string) (env : datumEnv) : result cliError catalogue :=
  if negb (usable env) then Err (newCLIError exitUnavailable)
  else
    token ← wrap_err unavailable Token;
    _ ← wrap_err (withCause (newCLIError exitError)) AddToScheme;
    wrap_err unavailable (NewWithWatch (mkConfig (controlPlaneHost env) token userAgent)).

(** ** The app *)

(** The options, and the client once it was asked for. *)
Record app := mkApp { ap_opts : globalOptions; ap_cached : option (result cliError (CS * string)) }.

Definition defaultClientFactory (Token : result GoErr string) (opts : globalOptions) : result cliError (CS * string) * globalOptions :=
  let '((env, mode), opts) := resolveDatum readDatumEnv opts in
  (c ← restConfigFor Token mode (go_kubeconfig opts) env;
   let ns := if negb (String.eqb (go_namespace opts) "") then go_namespace opts else c.2 in
   cs ← newClientset c.1;
   Ok (cs, ns), opts).

Definition client (Token : result GoErr string) (a : app) : result cliError (CS * string) * app :=
  match ap_cached a with
  | Some r => (r, a)
  | None => let '(r, opts) := defaultClientFactory Token (ap_opts a) in (r, mkApp opts (Some r))
  end.

Definition ensureEntitlement (Token : result GoErr string) (a : app) (tty : bool) (line : option string) : result cliError unit * app :=
  let '((env, mode), opts) := resolveDatum readDatumEnv (ap_opts a) in
  let a := mkApp opts (ap_cached a) in
  match mode with
  | modeKubeconfig => (Ok tt, a)
  | modeDatum => (EnsureIPAMEntitlement (de_project env) (newEntitlementClient Token env) tty line, a)
  end.

(** The root's [PersistentPreRunE]. *)
Definition preRun (Token : result GoErr string) (a : app) (name : string) (help tty : bool) (line : option string) : result cliError unit * app :=
  if negb (isValidOutput (go_output (ap_opts a))) then (Err usageErrorf, a)
  else if negb (existsb (String.eqb (go_color (ap_opts a))) ["auto"; "always"; "never"]) then (Err usageErrorf, a)
  else if skipEntitlementCheck name help then (Ok tt, a)
  else ensureEntitlement Token a tty line.

(** ** How a run ends *)

(** An error of a command: the client's own, or one of the command library. *)
Inductive command_error := OfClient (e : cliError) | OfLibrary (e : GoErr).

Definition toCLIError (err : command_error) : cliError :=
  match err with
  | OfClient ce => ce
  | OfLibrary e =>
    let msg := error_text e in
    if HasPrefix msg "unknown command" || HasPrefix msg "unknown flag" || HasPrefix msg "unknown shorthand flag"
       || (Contains msg "requires" && Contains msg "arg") || HasPrefix msg "accepts"
    then newCLIError exitUsage
    else classifyError e
  end.

(** The exit code; what is written to the streams is left out. *)
Definition renderExit (err : option command_error) : Z :=
  match err with None => exitOK | Some e => ce_code (toCLIError e) end.


(** ** What the preflight checked is what the command reaches *)

(** The scope the flags and the environment leave: what [resolveDatum] answers. *)
Definition effective (opts : globalOptions) : datumEnv := (resolveDatum readDatumEnv opts).1.1.

Lemma flag_or_env flag env : let v := if String.eqb flag "" then env else flag in (if String.eqb v "" then env else v) = v.
Proof. cbv zeta. destruct (String.eqb flag "") eqn:E; [by destruct (String.eqb env "")|by rewrite E]. Qed.

(** Resolving again, over the options the first resolution left, changes nothing. *)
Lemma resolveDatum_idem opts :
  resolveDatum readDatumEnv (resolveDatum readDatumEnv opts).2 = resolveDatum readDatumEnv opts.
Proof. unfold resolveDatum. cbn [go_org go_project go_kubeconfig go_namespace go_output go_color snd]. by rewrite !flag_or_env. Qed.

Lemma preRun_ok Token a name help tty line a' :
  preRun Token a name help tty line = (Ok tt, a') -> skipEntitlementCheck name help = false ->
  ensureEntitlement Token a tty line = (Ok tt, a').
Proof. unfold preRun. destruct (negb (isValidOutput _)); [done|]. destruct (negb (existsb _ _)); [done|]. by intros H Hs; rewrite Hs in H. Qed.

Lemma ensureEntitlement_app Token a tty line r a' :
  ensureEntitlement Token a tty line = (r, a') -> a' = mkApp (resolveDatum readDatumEnv (ap_opts a)).2 (ap_cached a).
Proof. unfold ensureEntitlement. destruct (resolveDatum _ _) as [[env []] opts]; by intros [= _ <-]. Qed.

Lemma chooseMode_usable flag env : chooseMode flag env = modeDatum -> usable env = true.
Proof. unfold chooseMode. destruct (negb _); [done|]. by destruct (usable env). Qed.

Lemma newEntitlementClient_ok Token env ct : newEntitlementClient Token env = Ok ct ->
  exists token, Token = Ok token /\ NewWithWatch (mkConfig (controlPlaneHost env) token userAgent) = Ok ct.
Proof.
  unfold newEntitlementClient. destruct (negb _); [done|]. destruct Token as [token|]; [|done]. destruct AddToScheme; [|done].
  cbn [wrap_err mbind result_bind]. intros H. exists token. split; [done|].
  by destruct (NewWithWatch _); [injection H as ->|].
Qed.

Lemma client_ok Token a cs ns a' : ap_cached a = None -> client Token a = (Ok (cs, ns), a') ->
  (resolveDatum readDatumEnv (ap_opts a)).1.2 = modeDatum ->
  exists token, Token = Ok token
    /\ NewForConfig (mkConfig (controlPlaneHost (effective (ap_opts a))) token userAgent) = Ok cs.
Proof.
  unfold client, defaultClientFactory, effective. intros ->. destruct (resolveDatum _ _) as [[env mode] opts] eqn:Er.
  cbn [fst snd]. intros H ->. injection H as H _. unfold restConfigFor, datumRestConfig in H.
  destruct (negb (usable env)); [done|]. destruct Token as [token|]; [|done]. exists token. split; [done|].
  cbn [wrap_err mbind result_bind fst snd] in H. unfold newClientset in H.
  by destruct (NewForConfig _); [injection H as -> _|].
Qed.

(** [C32] A command that reaches the service over the platform reaches it where it was found
    entitled.  Take a run whose preflight passed and whose command then asked for its
    client, over the platform and for a project: the service catalogue of the effective
    project's own control plane showed an Active entitlement of this service (in its
    listing, or on the watch after the user agreed to request one), and the clientset
    was built at that same address, each with a token of its own. *)
Theorem command_runs_entitled T1 T2 a name help tty line a1 cs ns a2 :
  let env := effective (ap_opts a) in
  ap_cached a = None -> skipEntitlementCheck name help = false ->
  preRun T1 a name help tty line = (Ok tt, a1) -> client T2 a1 = (Ok (cs, ns), a2) ->
  (resolveDatum readDatumEnv (ap_opts a)).1.2 = modeDatum -> de_project env <> "" ->
  exists t1 t2 ct item,
    T1 = Ok t1 /\ T2 = Ok t2
    /\ NewWithWatch (mkConfig (controlPlaneHost env) t1 userAgent) = Ok ct
    /\ is_active item /\ seen ct tty item
    /\ NewForConfig (mkConfig (controlPlaneHost env) t2 userAgent) = Ok cs.
Proof.
  intros env Hc Hs Hp Hcl Hm Hpr. pose proof (preRun_ok _ _ _ _ _ _ _ Hp Hs) as He.
  pose proof (ensureEntitlement_app _ _ _ _ _ _ He) as ->.
  apply client_ok in Hcl as (t2 & HT2 & Hcs); cbn [ap_opts ap_cached] in *; [|done|by rewrite resolveDatum_idem].
  unfold effective in Hcs. rewrite resolveDatum_idem in Hcs. fold (effective (ap_opts a)) in Hcs.
  unfold ensureEntitlement in He. unfold effective in env.
  destruct (resolveDatum readDatumEnv (ap_opts a)) as [[env' mode] opts] eqn:Er. cbn [fst snd] in *. subst mode.
  injection He as He. destruct (entitlement_gate _ _ _ _ He) as [?|(ct & item & Hn & ? & ?)]; [done|].
  apply newEntitlementClient_ok in Hn as (t1 & HT1 & Hw). exists t1, t2, ct, item.
  split_and!; try done. unfold effective in Hcs. by rewrite Er in Hcs.
Qed.

(** Asking for the client again answers the same and makes no second one, whatever the
    credentials helper would say by then. *)
Theorem client_built_once T1 T2 a r a1 : client T1 a = (r, a1) -> client T2 a1 = (r, a1).
Proof.
  unfold client. destruct (ap_cached a) as [r'|] eqn:E; [intros [= -> <-]; by rewrite E|].
  destruct (defaultClientFactory T1 (ap_opts a)) as [r' opts]. by intros [= -> <-].
Qed.

End App.

(** ** The address names the scope *)

Inductive scope_of := OfProject (name : string) | OfOrganization (name : string) | OfPlatform.

Definition effective_scope (env : datumEnv) : scope_of :=
  if negb (String.eqb (de_project env) "") then OfProject (de_project env)
  else if negb (String.eqb (de_org env) "") then OfOrganization (de_org env) else OfPlatform.

Lemma append_length (a b : string) : String.length (a +:+ b) = (String.length a + String.length b)%nat.
Proof.
  induction a as [|x a IH]; [done|].
  change (S (String.length (a +:+ b)) = S (String.length a + String.length b)). by rewrite IH.
Qed.

Lemma append_inj_r a b c : a +:+ c = b +:+ c -> a = b.
Proof.
  intros H. pose proof (f_equal String.length H) as Hl. rewrite !append_length in Hl.
  apply (append_inj_len a b c c) in H as [? _]; [done|lia].
Qed.

(** Two environments of the same platform address different control planes whenever
    their scopes differ: the address a client is given determines the project, else the
    organization, else the platform root, that its requests act in. *)
Theorem control_plane_identifies e1 e2 :
  de_apiHost e1 = de_apiHost e2 -> controlPlaneHost e1 = controlPlaneHost e2 -> effective_scope e1 = effective_scope e2.
Proof.
  unfold controlPlaneHost, effective_scope. intros ->. generalize (TrimRightSlash (ensureScheme (de_apiHost e2))) as base. intros base.
  assert (forall x, base +:+ x = base -> x = "") as Hnil
    by (intros x H; apply (append_inj_l base); by rewrite append_nil_str).
  destruct (negb (String.eqb (de_project e1) "")), (negb (String.eqb (de_project e2) "")),
    (negb (String.eqb (de_org e1) "")), (negb (String.eqb (de_org e2) "")); intros H; try done;
    first [ apply Hnil in H; discriminate H | symmetry in H; apply Hnil in H; discriminate H
          | apply append_inj_l in H; try discriminate H; apply append_inj_l, append_inj_r in H; by rewrite H ].
Qed.

(** ** Witnesses *)

Definition host_env : datumEnv := mkEnv "acme" "alpha" "api.datum.net" "/usr/bin/datumctl".
Definition some_options : globalOptions := mkOptions "" "" "table" "auto" "" "".
Definition some_catalogue : catalogue :=
  mkCatalogue (Ok (Some [mkEntitlement ipamServiceName EntitlementActive true])) None (Ok []).

Lemma command_runs_entitled_witness :
  exists t1 t2 ct item,
    Ok (E := GoErr) "t1" = Ok t1 /\ Ok (E := GoErr) "t2" = Ok t2
    /\ Ok (E := GoErr) some_catalogue = Ok ct /\ is_active item /\ seen ct false item
    /\ Ok (E := GoErr) (controlPlaneHost host_env) = Ok "https://api.datum.net/apis/resourcemanager.miloapis.com/v1alpha1/projects/alpha/control-plane".
Proof.
  apply (command_runs_entitled host_env "v0" (fun _ => Err (GText "no kubeconfig")) (Err (GText "not in a pod"))
    (fun c => Ok (cfg_Host c)) (Ok tt) (fun _ => Ok some_catalogue) (Ok "t1") (Ok "t2") (mkApp some_options None)
    "list" false false None (mkApp (mkOptions "" "" "table" "auto" "acme" "alpha") None)
    "https://api.datum.net/apis/resourcemanager.miloapis.com/v1alpha1/projects/alpha/control-plane" "default"
    (mkApp (mkOptions "" "" "table" "auto" "acme" "alpha")
      (Some (Ok ("https://api.datum.net/apis/resourcemanager.miloapis.com/v1alpha1/projects/alpha/control-plane", "default")))));
    first [reflexivity | discriminate].
Defined.

Lemma control_plane_identifies_witness :
  effective_scope (mkEnv "" "alpha" "api.datum.net" "") = effective_scope (mkEnv "acme" "alpha" "api.datum.net" "").
Proof. apply control_plane_identifies; reflexivity. Defined.

Lemma client_built_once_witness :
  (client host_env "v0" (fun _ => Err (GText "no kubeconfig")) (Err (GText "not in a pod")) (fun c => Ok (cfg_Host c)) (Err (GText "expired"))
    (client host_env "v0" (fun _ => Err (GText "no kubeconfig")) (Err (GText "not in a pod")) (fun c => Ok (cfg_Host c)) (Ok "t1") (mkApp some_options None)).2).1
  = Ok (controlPlaneHost host_env, "default").
Proof.
  by rewrite (client_built_once host_env "v0" (fun _ => Err (GText "no kubeconfig")) (Err (GText "not in a pod")) (fun c => Ok (cfg_Host c))
    (Ok "t1") (Err (GText "expired")) (mkApp some_options None) _ _ (surjective_pairing _)).
Defined.
