(* ===== verification/Memory.v ===== *)
(** * Memory: what a Go value points to

    The conversions between API versions promise copies: a caller that changes the
    converted object must not change the one it came from.  To say that, a value
    whose Go type is a pointer, a slice or a map is modelled with the place it
    lives at, and a function that allocates takes the next free place ([Fresh]).
    [reflect] shows a value as a tree of named fields; [erase] forgets the places,
    [places] lists them.  [copied] is what a copy promises: a tree with the same
    content, every place of it new. *)

From Stdlib Require Import String.
From S2P Require Import Prelude Float.
Open Scope string_scope.
Open Scope list_scope.
Open Scope Z_scope.

Definition place := Z.

(** A pointer, slice or map that is not nil: where it lives and what it holds. *)
Record ref (A : Type) := mkRef { at_ : place; held : A }.
Arguments mkRef {A}.
Arguments at_ {A}.
Arguments held {A}.

Abbreviation pointer A := (option (ref A)) (only parsing).
Abbreviation slice A := (option (ref (list A))) (only parsing).
Abbreviation go_map A := (option (ref (gmap string A))) (only parsing).

(** ** Allocation *)

Definition Fresh (A : Type) := place -> A * place.

#[export] Instance fresh_ret : MRet Fresh := fun A a n => (a, n).
#[export] Instance fresh_bind : MBind Fresh := fun A B k m n => let (a, n) := m n in k a n.

Definition new : Fresh place := fun n => (n, n + 1).
Definition alloc {A} (a : A) : Fresh (ref A) := fun n => (mkRef n a, n + 1).

(** [if in == nil { return nil }], then a new value from the one held. *)
Definition new_if {A B} (f : A -> B) (r : pointer A) : Fresh (pointer B) :=
  match r with
  | None => mret None
  | Some r => r ← alloc (f (held r)); mret (Some r)
  end.

(** ** Trees *)

Inductive tree :=
| TStr (s : string)
| TInt (z : Z)
| TFloat (f : spec_float)
| TNil
| TAt (p : place) (t : tree)
| TNode (l : list (string * tree)).

Fixpoint erase (t : tree) : tree :=
  match t with
  | TAt _ t => TAt 0 (erase t)
  | TNode l => TNode (map (fun f => (f.1, erase f.2)) l)
  | _ => t
  end.

Fixpoint places (t : tree) : list place :=
  match t with
  | TAt p t => p :: places t
  | TNode l => concat (map (fun f => places f.2) l)
  | _ => []
  end.

Class Reflect (A : Type) := reflect : A -> tree.

#[export] Instance reflect_string : Reflect string := TStr.
#[export] Instance reflect_int : Reflect Z := TInt.
#[export] Instance reflect_float : Reflect spec_float := TFloat.
#[export] Instance reflect_pointer {A} `{Reflect A} : Reflect (pointer A) := fun r =>
  match r with None => TNil | Some r => TAt (at_ r) (reflect (held r)) end.
#[export] Instance reflect_list {A} `{Reflect A} : Reflect (list A) := fun l => TNode (map (fun a => ("", reflect a)) l).
#[export] Instance reflect_map {A} `{Reflect A} : Reflect (gmap string A) := fun m =>
  TNode (map (fun kv => (kv.1, reflect kv.2)) (map_to_list m)).

(** Nothing of a value is hidden from its tree. *)
Class Shown (A : Type) `{Reflect A} : Prop := shown_inj : forall a b : A, reflect a = reflect b -> a = b.

#[export] Instance shown_string : Shown string.
Proof. by intros a b [= ->]. Qed.
#[export] Instance shown_int : Shown Z.
Proof. by intros a b [= ->]. Qed.
#[export] Instance shown_float : Shown spec_float.
Proof. by intros a b [= ->]. Qed.
#[export] Instance shown_pointer {A} `{Shown A} : Shown (pointer A).
Proof. intros [[p a]|] [[q b]|]; [| done | done | done]. intros [= -> E]. by apply shown_inj in E as ->. Qed.

Lemma fields_inj {X} (f : X -> string * tree) (a b : list X) :
  (forall x y, f x = f y -> x = y) -> map f a = map f b -> a = b.
Proof.
  intros Hf. revert b. induction a as [|x a IH]; intros [|y b]; [done | done | done |].
  cbn [map]. intros E. injection E as E1 E2. f_equal; [by apply Hf | by apply IH].
Qed.

#[export] Instance shown_list {A} `{Shown A} : Shown (list A).
Proof. intros a b [= E]. revert E. apply fields_inj. intros x y [= E]. by apply shown_inj. Qed.
#[export] Instance shown_map {A} `{Shown A} : Shown (gmap string A).
Proof.
  intros a b [= E]. apply fields_inj in E; [by apply map_to_list_inj; rewrite E|].
  intros [k x] [l y] [= -> E']. by apply shown_inj in E' as ->.
Qed.

Lemma node_inj f t t' l l' : TNode ((f, t) :: l) = TNode ((f, t') :: l') -> t = t' /\ TNode l = TNode l'.
Proof. by intros [= -> ->]. Qed.

(** For records: each field is shown. *)
Ltac shown :=
  intros [] [] E;
  repeat (let F := fresh "F" in apply node_inj in E as [F E]; apply shown_inj in F; cbn in F);
  clear E; subst; reflexivity.

(** ** The metadata types of the API machinery

    Their fields are the library's; all that is used is how they show, that a deep
    copy of metadata is a copy, and that type metadata and conditions point to
    nothing. *)

Abbreviation Duration := Z (only parsing).

Class MetaV1 := {
  TypeMeta : Type;
  ObjectMeta : Type;
  ListMeta : Type;
  Condition : Type;
  #[export] reflect_TypeMeta :: Reflect TypeMeta;
  #[export] reflect_ObjectMeta :: Reflect ObjectMeta;
  #[export] reflect_ListMeta :: Reflect ListMeta;
  #[export] reflect_Condition :: Reflect Condition;
  DeepCopyInto : ObjectMeta -> Fresh ObjectMeta
}.

(** ** Copies *)

(** [t'] shows the content of [t], and lives in the places from [n] to [n']. *)
Record copied (t t' : tree) (n n' : place) : Prop := {
  cp_le : n <= n';
  cp_same : erase t' = erase t;
  cp_new : Forall (fun p => n <= p < n') (places t')
}.

(** A function that answers a copy of its argument, in whatever type. *)
Definition copies {A B} `{Reflect A, Reflect B} (f : A -> Fresh B) : Prop :=
  forall a n, copied (reflect a) (reflect (f a n).1) n (f a n).2.

(** A value that points nowhere is its own copy. *)
Lemma copied_flat t n : places t = [] -> copied t t n n.
Proof. intros E. constructor; [lia | done | rewrite E; constructor]. Qed.

Lemma copied_at p t t' n n' : copied t t' (n + 1) n' -> copied (TAt p t) (TAt n t') n n'.
Proof.
  intros [? E F]. constructor; [lia | cbn; by rewrite E |]. cbn. constructor; [lia|].
  eapply Forall_impl; [exact F|]. cbn. lia.
Qed.

Lemma copied_wider t t' m n n' m' : copied t t' n n' -> m <= n -> n' <= m' -> copied t t' m m'.
Proof. intros [? E F] ? ?. constructor; [lia | done | eapply Forall_impl; [exact F|]; cbn; lia]. Qed.

(** Nodes are copied field by field. *)
Lemma copied_nil n : copied (TNode []) (TNode []) n n.
Proof. constructor; [lia | done | constructor]. Qed.

Lemma copied_cons f t t' l l' n m n' :
  copied t t' n m -> copied (TNode l) (TNode l') m n' -> copied (TNode ((f, t) :: l)) (TNode ((f, t') :: l')) n n'.
Proof.
  intros [? E F] [? E' F']. constructor; [lia | cbn in *; congruence |]. cbn in *. apply Forall_app_2.
  - eapply Forall_impl; [exact F|]. cbn. lia.
  - eapply Forall_impl; [exact F'|]. cbn. lia.
Qed.

Lemma copied_fields {A} (f g : A -> string * tree) l n :
  (forall a, a ∈ l -> (f a).1 = (g a).1 /\ erase (g a).2 = erase (f a).2 /\ places (g a).2 = []) ->
  copied (TNode (map f l)) (TNode (map g l)) n n.
Proof.
  intros H. induction l as [|a l IH]; [apply copied_nil|]. cbn [map].
  destruct (H a ltac:(left)) as (E & Es & Ep). destruct (f a) as [k t], (g a) as [k' t']. cbn in *. subst k'.
  apply (copied_cons _ _ _ _ _ n n); [|by apply IH; intros; apply H; right].
  constructor; [lia | done | rewrite Ep; constructor].
Qed.

Class MetaLaws {meta : MetaV1} : Prop := {
  DeepCopyInto_copies : copies DeepCopyInto;
  TypeMeta_flat : forall m : TypeMeta, places (reflect m) = [];
  Condition_flat : forall c : Condition, places (reflect c) = [];
  TypeMeta_shown :: Shown TypeMeta;
  ObjectMeta_shown :: Shown ObjectMeta;
  ListMeta_shown :: Shown ListMeta;
  Condition_shown :: Shown Condition
}.

Create HintDb copies.

(** Every call in the goal is replaced by what it answers and what is known of it; the
    object is then a copy field by field. *)
Ltac run_copies :=
  repeat match goal with
  | |- context [let (_, _) := ?f ?a ?n in _] =>
    let Hc := fresh "Hc" in let H := fresh "H" in let b := fresh "b" in let m := fresh "m" in
    assert (copies f) as Hc by auto with copies;
    pose proof (Hc a n) as H; clear Hc; destruct (f a n) as [b m]; cbn [fst snd] in H |- *
  end.

Ltac copy_fields :=
  repeat first [ apply copied_nil | eapply copied_cons; [first
    [ eassumption
    | apply copied_flat; first [exact eq_refl | apply TypeMeta_flat]
    | copy_fields ] |] ].

(** A conversion of an object. *)
Ltac copy_object f :=
  intros in_ n; unfold f, mbind, fresh_bind, mret, fresh_ret; run_copies; copy_fields.

(** ** There and back *)

Definition apart (t t' : tree) : Prop := forall p, p ∈ places t -> p ∈ places t' -> False.

(** A value converted and converted back: both results show its content, and no two of
    the three share a place. *)
Definition roundtrips {A B} `{Reflect A, Reflect B} (f : A -> Fresh B) (g : B -> Fresh A) : Prop :=
  forall a n, Forall (fun p => p < n) (places (reflect a)) ->
  let (b, m) := f a n in
  let (a', _) := g b m in
  (erase (reflect b) = erase (reflect a) /\ erase (reflect a') = erase (reflect a))
  /\ apart (reflect a) (reflect b) /\ apart (reflect a) (reflect a') /\ apart (reflect b) (reflect a').

Lemma copies_roundtrip {A B} `{Reflect A, Reflect B} (f : A -> Fresh B) (g : B -> Fresh A) :
  copies f -> copies g -> roundtrips f g.
Proof.
  intros Hf Hg a n Ha. pose proof (Hf a n) as [Hl He Hp]. destruct (f a n) as [b m].
  pose proof (Hg b m) as [Hl' He' Hp']. destruct (g b m) as [a' m']. cbn in *.
  rewrite Forall_forall in Ha, Hp, Hp'. split; [split; congruence|].
  split; [|split]; intros p H1 H2; [apply Ha in H1; apply Hp in H2 | apply Ha in H1; apply Hp' in H2 | apply Hp in H1; apply Hp' in H2]; lia.
Qed.
