(* ===== verification/ApiV1.v ===== *)
(** * ApiV1: [pkg/apis/ipam/v1alpha1/types.go], every field

    The versioned objects as the conversions see them: all the fields of the Go
    structs, in their order, pointers, slices and maps with the place they live at
    (Memory).  The rest of the development reads these objects through the records
    of Types, which leave out places and the fields nothing else reads. *)

From Stdlib Require Import String.
From S2P Require Import Prelude Float Memory.
Open Scope string_scope.
Open Scope list_scope.

(** ** String types *)

Abbreviation IPFamily := string.
Abbreviation AddressScope := string.
Abbreviation PoolSelectionStrategy := string.
Abbreviation AllocationStrategy := string.
Abbreviation ReclaimPolicy := string.
Abbreviation ClaimPhase := string.
Abbreviation AllocationPhase := string.
Abbreviation PoolPhase := string.
Abbreviation ClassPhase := string.
Abbreviation InternalRouting := string.
Abbreviation ExternalRouting := string.
Abbreviation AllocationPurpose := string.
Abbreviation ClaimTarget := string.

Record LocalRef := mkLocalRef {
  LocalRef_Name : string
}.
#[export] Instance reflect_LocalRef : Reflect LocalRef := fun x => TNode [
  ("Name", reflect (LocalRef_Name x))].
#[export] Instance LocalRef_shown : Shown LocalRef.
Proof. shown. Qed.

Record ObjectRef := mkObjectRef {
  ObjectRef_APIGroup : string;
  ObjectRef_Kind : string;
  ObjectRef_Namespace : string;
  ObjectRef_Name : string
}.
#[export] Instance reflect_ObjectRef : Reflect ObjectRef := fun x => TNode [
  ("APIGroup", reflect (ObjectRef_APIGroup x));
  ("Kind", reflect (ObjectRef_Kind x));
  ("Namespace", reflect (ObjectRef_Namespace x));
  ("Name", reflect (ObjectRef_Name x))].
#[export] Instance ObjectRef_shown : Shown ObjectRef.
Proof. shown. Qed.

Record ScopeRef := mkScopeRef {
  ScopeRef_APIGroup : string;
  ScopeRef_Kind : string;
  ScopeRef_Name : string
}.
#[export] Instance reflect_ScopeRef : Reflect ScopeRef := fun x => TNode [
  ("APIGroup", reflect (ScopeRef_APIGroup x));
  ("Kind", reflect (ScopeRef_Kind x));
  ("Name", reflect (ScopeRef_Name x))].
#[export] Instance ScopeRef_shown : Shown ScopeRef.
Proof. shown. Qed.

Record ClassSourceRef := mkClassSourceRef {
  ClassSourceRef_Project : string;
  ClassSourceRef_Name : string
}.
#[export] Instance reflect_ClassSourceRef : Reflect ClassSourceRef := fun x => TNode [
  ("Project", reflect (ClassSourceRef_Project x));
  ("Name", reflect (ClassSourceRef_Name x))].
#[export] Instance ClassSourceRef_shown : Shown ClassSourceRef.
Proof. shown. Qed.

Record PrefixLengthRange := mkPrefixLengthRange {
  PrefixLengthRange_Min : Z;
  PrefixLengthRange_Max : Z
}.
#[export] Instance reflect_PrefixLengthRange : Reflect PrefixLengthRange := fun x => TNode [
  ("Min", reflect (PrefixLengthRange_Min x));
  ("Max", reflect (PrefixLengthRange_Max x))].
#[export] Instance PrefixLengthRange_shown : Shown PrefixLengthRange.
Proof. shown. Qed.

Record RoutingSpec := mkRoutingSpec {
  RoutingSpec_Internal : InternalRouting;
  RoutingSpec_External : ExternalRouting
}.
#[export] Instance reflect_RoutingSpec : Reflect RoutingSpec := fun x => TNode [
  ("Internal", reflect (RoutingSpec_Internal x));
  ("External", reflect (RoutingSpec_External x))].
#[export] Instance RoutingSpec_shown : Shown RoutingSpec.
Proof. shown. Qed.

Record ReservationSpec := mkReservationSpec {
  ReservationSpec_Leading : Z;
  ReservationSpec_Trailing : Z;
  ReservationSpec_UnitPrefixLength : Z
}.
#[export] Instance reflect_ReservationSpec : Reflect ReservationSpec := fun x => TNode [
  ("Leading", reflect (ReservationSpec_Leading x));
  ("Trailing", reflect (ReservationSpec_Trailing x));
  ("UnitPrefixLength", reflect (ReservationSpec_UnitPrefixLength x))].
#[export] Instance ReservationSpec_shown : Shown ReservationSpec.
Proof. shown. Qed.

Record AllocationSpec := mkAllocationSpec {
  AllocationSpec_MinPrefixLength : Z;
  AllocationSpec_MaxPrefixLength : Z;
  AllocationSpec_Strategy : AllocationStrategy
}.
#[export] Instance reflect_AllocationSpec : Reflect AllocationSpec := fun x => TNode [
  ("MinPrefixLength", reflect (AllocationSpec_MinPrefixLength x));
  ("MaxPrefixLength", reflect (AllocationSpec_MaxPrefixLength x));
  ("Strategy", reflect (AllocationSpec_Strategy x))].
#[export] Instance AllocationSpec_shown : Shown AllocationSpec.
Proof. shown. Qed.

Record PoolCapacity := mkPoolCapacity {
  PoolCapacity_Total : string;
  PoolCapacity_Allocated : string;
  PoolCapacity_Available : string
}.
#[export] Instance reflect_PoolCapacity : Reflect PoolCapacity := fun x => TNode [
  ("Total", reflect (PoolCapacity_Total x));
  ("Allocated", reflect (PoolCapacity_Allocated x));
  ("Available", reflect (PoolCapacity_Available x))].
#[export] Instance PoolCapacity_shown : Shown PoolCapacity.
Proof. shown. Qed.

Record IPClassSpec := mkIPClassSpec {
  IPClassSpec_Source : pointer ClassSourceRef;
  IPClassSpec_IPFamily : IPFamily;
  IPClassSpec_AddressScope : AddressScope;
  IPClassSpec_ParentClassName : string;
  IPClassSpec_PoolPer : slice string;
  IPClassSpec_UniqueWithin : slice string;
  IPClassSpec_AllowedPrefixLengths : pointer PrefixLengthRange;
  IPClassSpec_DefaultPrefixLength : Z;
  IPClassSpec_Reservations : pointer ReservationSpec;
  IPClassSpec_Routing : RoutingSpec;
  IPClassSpec_Strategy : PoolSelectionStrategy;
  IPClassSpec_ReclaimPolicy : ReclaimPolicy;
  IPClassSpec_RetentionLease : pointer Duration;
  IPClassSpec_Provisioner : string;
  IPClassSpec_Parameters : go_map string
}.
#[export] Instance reflect_IPClassSpec : Reflect IPClassSpec := fun x => TNode [
  ("Source", reflect (IPClassSpec_Source x));
  ("IPFamily", reflect (IPClassSpec_IPFamily x));
  ("AddressScope", reflect (IPClassSpec_AddressScope x));
  ("ParentClassName", reflect (IPClassSpec_ParentClassName x));
  ("PoolPer", reflect (IPClassSpec_PoolPer x));
  ("UniqueWithin", reflect (IPClassSpec_UniqueWithin x));
  ("AllowedPrefixLengths", reflect (IPClassSpec_AllowedPrefixLengths x));
  ("DefaultPrefixLength", reflect (IPClassSpec_DefaultPrefixLength x));
  ("Reservations", reflect (IPClassSpec_Reservations x));
  ("Routing", reflect (IPClassSpec_Routing x));
  ("Strategy", reflect (IPClassSpec_Strategy x));
  ("ReclaimPolicy", reflect (IPClassSpec_ReclaimPolicy x));
  ("RetentionLease", reflect (IPClassSpec_RetentionLease x));
  ("Provisioner", reflect (IPClassSpec_Provisioner x));
  ("Parameters", reflect (IPClassSpec_Parameters x))].
#[export] Instance IPClassSpec_shown : Shown IPClassSpec.
Proof. shown. Qed.

Section Objects.
Context {meta : MetaV1}.

Record IPClassStatus := mkIPClassStatus {
  IPClassStatus_Phase : ClassPhase;
  IPClassStatus_Conditions : slice Condition
}.
#[export] Instance reflect_IPClassStatus : Reflect IPClassStatus := fun x => TNode [
  ("Phase", reflect (IPClassStatus_Phase x));
  ("Conditions", reflect (IPClassStatus_Conditions x))].
#[export] Instance IPClassStatus_shown {laws : MetaLaws} : Shown IPClassStatus.
Proof. shown. Qed.

Record IPClass := mkIPClass {
  IPClass_TypeMeta : TypeMeta;
  IPClass_ObjectMeta : ObjectMeta;
  IPClass_Spec : IPClassSpec;
  IPClass_Status : IPClassStatus
}.
#[export] Instance reflect_IPClass : Reflect IPClass := fun x => TNode [
  ("TypeMeta", reflect (IPClass_TypeMeta x));
  ("ObjectMeta", reflect (IPClass_ObjectMeta x));
  ("Spec", reflect (IPClass_Spec x));
  ("Status", reflect (IPClass_Status x))].
#[export] Instance IPClass_shown {laws : MetaLaws} : Shown IPClass.
Proof. shown. Qed.

Record IPClassList := mkIPClassList {
  IPClassList_TypeMeta : TypeMeta;
  IPClassList_ListMeta : ListMeta;
  IPClassList_Items : slice IPClass
}.
#[export] Instance reflect_IPClassList : Reflect IPClassList := fun x => TNode [
  ("TypeMeta", reflect (IPClassList_TypeMeta x));
  ("ListMeta", reflect (IPClassList_ListMeta x));
  ("Items", reflect (IPClassList_Items x))].
#[export] Instance IPClassList_shown {laws : MetaLaws} : Shown IPClassList.
Proof. shown. Qed.

End Objects.

Record IPPoolSpec := mkIPPoolSpec {
  IPPoolSpec_CIDR : string;
  IPPoolSpec_IPFamily : IPFamily;
  IPPoolSpec_ParentPoolRef : pointer LocalRef;
  IPPoolSpec_PrefixLength : Z;
  IPPoolSpec_ClassNames : slice string;
  IPPoolSpec_ClassRef : pointer LocalRef;
  IPPoolSpec_Scope : go_map ScopeRef;
  IPPoolSpec_Reservations : pointer ReservationSpec;
  IPPoolSpec_MaxRetentionLease : pointer Duration;
  IPPoolSpec_Allocation : AllocationSpec;
  IPPoolSpec_Visibility : string
}.
#[export] Instance reflect_IPPoolSpec : Reflect IPPoolSpec := fun x => TNode [
  ("CIDR", reflect (IPPoolSpec_CIDR x));
  ("IPFamily", reflect (IPPoolSpec_IPFamily x));
  ("ParentPoolRef", reflect (IPPoolSpec_ParentPoolRef x));
  ("PrefixLength", reflect (IPPoolSpec_PrefixLength x));
  ("ClassNames", reflect (IPPoolSpec_ClassNames x));
  ("ClassRef", reflect (IPPoolSpec_ClassRef x));
  ("Scope", reflect (IPPoolSpec_Scope x));
  ("Reservations", reflect (IPPoolSpec_Reservations x));
  ("MaxRetentionLease", reflect (IPPoolSpec_MaxRetentionLease x));
  ("Allocation", reflect (IPPoolSpec_Allocation x));
  ("Visibility", reflect (IPPoolSpec_Visibility x))].
#[export] Instance IPPoolSpec_shown : Shown IPPoolSpec.
Proof. shown. Qed.

Section Objects.
Context {meta : MetaV1}.

Record IPPoolStatus := mkIPPoolStatus {
  IPPoolStatus_Phase : PoolPhase;
  IPPoolStatus_AllocatedCIDR : string;
  IPPoolStatus_IPFamily : IPFamily;
  IPPoolStatus_ScopeDigest : string;
  IPPoolStatus_Capacity : PoolCapacity;
  IPPoolStatus_UtilizationPercent : spec_float;
  IPPoolStatus_Conditions : slice Condition
}.
#[export] Instance reflect_IPPoolStatus : Reflect IPPoolStatus := fun x => TNode [
  ("Phase", reflect (IPPoolStatus_Phase x));
  ("AllocatedCIDR", reflect (IPPoolStatus_AllocatedCIDR x));
  ("IPFamily", reflect (IPPoolStatus_IPFamily x));
  ("ScopeDigest", reflect (IPPoolStatus_ScopeDigest x));
  ("Capacity", reflect (IPPoolStatus_Capacity x));
  ("UtilizationPercent", reflect (IPPoolStatus_UtilizationPercent x));
  ("Conditions", reflect (IPPoolStatus_Conditions x))].
#[export] Instance IPPoolStatus_shown {laws : MetaLaws} : Shown IPPoolStatus.
Proof. shown. Qed.

Record IPPool := mkIPPool {
  IPPool_TypeMeta : TypeMeta;
  IPPool_ObjectMeta : ObjectMeta;
  IPPool_Spec : IPPoolSpec;
  IPPool_Status : IPPoolStatus
}.
#[export] Instance reflect_IPPool : Reflect IPPool := fun x => TNode [
  ("TypeMeta", reflect (IPPool_TypeMeta x));
  ("ObjectMeta", reflect (IPPool_ObjectMeta x));
  ("Spec", reflect (IPPool_Spec x));
  ("Status", reflect (IPPool_Status x))].
#[export] Instance IPPool_shown {laws : MetaLaws} : Shown IPPool.
Proof. shown. Qed.

Record IPPoolList := mkIPPoolList {
  IPPoolList_TypeMeta : TypeMeta;
  IPPoolList_ListMeta : ListMeta;
  IPPoolList_Items : slice IPPool
}.
#[export] Instance reflect_IPPoolList : Reflect IPPoolList := fun x => TNode [
  ("TypeMeta", reflect (IPPoolList_TypeMeta x));
  ("ListMeta", reflect (IPPoolList_ListMeta x));
  ("Items", reflect (IPPoolList_Items x))].
#[export] Instance IPPoolList_shown {laws : MetaLaws} : Shown IPPoolList.
Proof. shown. Qed.

End Objects.

Record IPAllocationSpec := mkIPAllocationSpec {
  IPAllocationSpec_IPFamily : IPFamily;
  IPAllocationSpec_PoolRef : LocalRef;
  IPAllocationSpec_ClassName : string;
  IPAllocationSpec_Purpose : AllocationPurpose;
  IPAllocationSpec_ClaimRef : pointer LocalRef;
  IPAllocationSpec_Scope : go_map ScopeRef;
  IPAllocationSpec_ReclaimPolicy : ReclaimPolicy;
  IPAllocationSpec_OwnerRef : pointer ObjectRef
}.
#[export] Instance reflect_IPAllocationSpec : Reflect IPAllocationSpec := fun x => TNode [
  ("IPFamily", reflect (IPAllocationSpec_IPFamily x));
  ("PoolRef", reflect (IPAllocationSpec_PoolRef x));
  ("ClassName", reflect (IPAllocationSpec_ClassName x));
  ("Purpose", reflect (IPAllocationSpec_Purpose x));
  ("ClaimRef", reflect (IPAllocationSpec_ClaimRef x));
  ("Scope", reflect (IPAllocationSpec_Scope x));
  ("ReclaimPolicy", reflect (IPAllocationSpec_ReclaimPolicy x));
  ("OwnerRef", reflect (IPAllocationSpec_OwnerRef x))].
#[export] Instance IPAllocationSpec_shown : Shown IPAllocationSpec.
Proof. shown. Qed.

Section Objects.
Context {meta : MetaV1}.

Record IPAllocationStatus := mkIPAllocationStatus {
  IPAllocationStatus_Phase : AllocationPhase;
  IPAllocationStatus_AllocatedCIDR : string;
  IPAllocationStatus_Address : string;
  IPAllocationStatus_ScopeDigest : string;
  IPAllocationStatus_Conditions : slice Condition
}.
#[export] Instance reflect_IPAllocationStatus : Reflect IPAllocationStatus := fun x => TNode [
  ("Phase", reflect (IPAllocationStatus_Phase x));
  ("AllocatedCIDR", reflect (IPAllocationStatus_AllocatedCIDR x));
  ("Address", reflect (IPAllocationStatus_Address x));
  ("ScopeDigest", reflect (IPAllocationStatus_ScopeDigest x));
  ("Conditions", reflect (IPAllocationStatus_Conditions x))].
#[export] Instance IPAllocationStatus_shown {laws : MetaLaws} : Shown IPAllocationStatus.
Proof. shown. Qed.

Record IPAllocation := mkIPAllocation {
  IPAllocation_TypeMeta : TypeMeta;
  IPAllocation_ObjectMeta : ObjectMeta;
  IPAllocation_Spec : IPAllocationSpec;
  IPAllocation_Status : IPAllocationStatus
}.
#[export] Instance reflect_IPAllocation : Reflect IPAllocation := fun x => TNode [
  ("TypeMeta", reflect (IPAllocation_TypeMeta x));
  ("ObjectMeta", reflect (IPAllocation_ObjectMeta x));
  ("Spec", reflect (IPAllocation_Spec x));
  ("Status", reflect (IPAllocation_Status x))].
#[export] Instance IPAllocation_shown {laws : MetaLaws} : Shown IPAllocation.
Proof. shown. Qed.

Record IPAllocationList := mkIPAllocationList {
  IPAllocationList_TypeMeta : TypeMeta;
  IPAllocationList_ListMeta : ListMeta;
  IPAllocationList_Items : slice IPAllocation
}.
#[export] Instance reflect_IPAllocationList : Reflect IPAllocationList := fun x => TNode [
  ("TypeMeta", reflect (IPAllocationList_TypeMeta x));
  ("ListMeta", reflect (IPAllocationList_ListMeta x));
  ("Items", reflect (IPAllocationList_Items x))].
#[export] Instance IPAllocationList_shown {laws : MetaLaws} : Shown IPAllocationList.
Proof. shown. Qed.

End Objects.

Record IPClaimSpec := mkIPClaimSpec {
  IPClaimSpec_ClassName : string;
  IPClaimSpec_IPFamily : IPFamily;
  IPClaimSpec_AddressScope : AddressScope;
  IPClaimSpec_Address : string;
  IPClaimSpec_PrefixLength : pointer Z;
  IPClaimSpec_Scope : go_map ScopeRef;
  IPClaimSpec_Target : ClaimTarget;
  IPClaimSpec_ReclaimPolicy : ReclaimPolicy;
  IPClaimSpec_OwnerRef : pointer ObjectRef
}.
#[export] Instance reflect_IPClaimSpec : Reflect IPClaimSpec := fun x => TNode [
  ("ClassName", reflect (IPClaimSpec_ClassName x));
  ("IPFamily", reflect (IPClaimSpec_IPFamily x));
  ("AddressScope", reflect (IPClaimSpec_AddressScope x));
  ("Address", reflect (IPClaimSpec_Address x));
  ("PrefixLength", reflect (IPClaimSpec_PrefixLength x));
  ("Scope", reflect (IPClaimSpec_Scope x));
  ("Target", reflect (IPClaimSpec_Target x));
  ("ReclaimPolicy", reflect (IPClaimSpec_ReclaimPolicy x));
  ("OwnerRef", reflect (IPClaimSpec_OwnerRef x))].
#[export] Instance IPClaimSpec_shown : Shown IPClaimSpec.
Proof. shown. Qed.

Section Objects.
Context {meta : MetaV1}.

Record IPClaimStatus := mkIPClaimStatus {
  IPClaimStatus_Phase : ClaimPhase;
  IPClaimStatus_AllocatedCIDR : string;
  IPClaimStatus_Address : string;
  IPClaimStatus_PoolRef : pointer LocalRef;
  IPClaimStatus_BoundAllocationRef : pointer LocalRef;
  IPClaimStatus_Conditions : slice Condition
}.
#[export] Instance reflect_IPClaimStatus : Reflect IPClaimStatus := fun x => TNode [
  ("Phase", reflect (IPClaimStatus_Phase x));
  ("AllocatedCIDR", reflect (IPClaimStatus_AllocatedCIDR x));
  ("Address", reflect (IPClaimStatus_Address x));
  ("PoolRef", reflect (IPClaimStatus_PoolRef x));
  ("BoundAllocationRef", reflect (IPClaimStatus_BoundAllocationRef x));
  ("Conditions", reflect (IPClaimStatus_Conditions x))].
#[export] Instance IPClaimStatus_shown {laws : MetaLaws} : Shown IPClaimStatus.
Proof. shown. Qed.

Record IPClaim := mkIPClaim {
  IPClaim_TypeMeta : TypeMeta;
  IPClaim_ObjectMeta : ObjectMeta;
  IPClaim_Spec : IPClaimSpec;
  IPClaim_Status : IPClaimStatus
}.
#[export] Instance reflect_IPClaim : Reflect IPClaim := fun x => TNode [
  ("TypeMeta", reflect (IPClaim_TypeMeta x));
  ("ObjectMeta", reflect (IPClaim_ObjectMeta x));
  ("Spec", reflect (IPClaim_Spec x));
  ("Status", reflect (IPClaim_Status x))].
#[export] Instance IPClaim_shown {laws : MetaLaws} : Shown IPClaim.
Proof. shown. Qed.

Record IPClaimList := mkIPClaimList {
  IPClaimList_TypeMeta : TypeMeta;
  IPClaimList_ListMeta : ListMeta;
  IPClaimList_Items : slice IPClaim
}.
#[export] Instance reflect_IPClaimList : Reflect IPClaimList := fun x => TNode [
  ("TypeMeta", reflect (IPClaimList_TypeMeta x));
  ("ListMeta", reflect (IPClaimList_ListMeta x));
  ("Items", reflect (IPClaimList_Items x))].
#[export] Instance IPClaimList_shown {laws : MetaLaws} : Shown IPClaimList.
Proof. shown. Qed.

End Objects.
