(* ===== verification/Conversion.v ===== *)
(** * Conversion: [pkg/apis/ipam/v1alpha1/conversion_impl.go]

    Every request and every stored object passes through these copies between the
    versioned and the internal objects.  They must lose nothing and share nothing:
    a handler that edits the internal object must not reach the one it was decoded
    from.  [conversion_copies] shows both of all eight object conversions,
    [conversion_roundtrip] that an object comes back, and the list laws what a list
    adds: a nil list of items leaves what the target held, and list metadata is
    shared.

    No conversion returns an error, so the functions answer the object itself; a
    conversion that sets every field of [out] is a function of [in] alone. *)

From Stdlib Require Import String.
From S2P Require Import Prelude Float Memory ApiV1 ApiInternal.
Open Scope string_scope.
Open Scope list_scope.
Open Scope Z_scope.

Section Conversion.
Context {meta : MetaV1}.

(** ** Sub-type helpers *)

(** [for k, v := range in { out[k] = f(v) }] *)
Definition copy_map {A B} (f : A -> B) (m : gmap string A) : gmap string B :=
  map_fold (fun k v out => <[k := f v]> out) ∅ m.

Definition copyStrings : slice string -> Fresh (slice string) := new_if (fun in_ => in_).
Definition copyParameters : go_map string -> Fresh (go_map string) := new_if (copy_map (fun v => v)).
Definition copyDuration : pointer Duration -> Fresh (pointer Duration) := new_if (fun v => v).
Definition copyInt32Ptr : pointer Z -> Fresh (pointer Z) := new_if (fun v => v).
Definition toIpamConditions : slice Condition -> Fresh (slice Condition) := new_if (fun in_ => in_).

Definition toIpamLocalRef : pointer ApiV1.LocalRef -> Fresh (pointer ApiInternal.LocalRef) :=
  new_if (fun in_ => ApiInternal.mkLocalRef (ApiV1.LocalRef_Name in_)).

Definition toV1LocalRef : pointer ApiInternal.LocalRef -> Fresh (pointer ApiV1.LocalRef) :=
  new_if (fun in_ => ApiV1.mkLocalRef (ApiInternal.LocalRef_Name in_)).

Definition toIpamObjectRef : pointer ApiV1.ObjectRef -> Fresh (pointer ApiInternal.ObjectRef) :=
  new_if (fun in_ => ApiInternal.mkObjectRef (ApiV1.ObjectRef_APIGroup in_) (ApiV1.ObjectRef_Kind in_)
      (ApiV1.ObjectRef_Namespace in_) (ApiV1.ObjectRef_Name in_)).

Definition toV1ObjectRef : pointer ApiInternal.ObjectRef -> Fresh (pointer ApiV1.ObjectRef) :=
  new_if (fun in_ => ApiV1.mkObjectRef (ApiInternal.ObjectRef_APIGroup in_) (ApiInternal.ObjectRef_Kind in_)
      (ApiInternal.ObjectRef_Namespace in_) (ApiInternal.ObjectRef_Name in_)).

Definition toIpamScope (in_ : go_map ApiV1.ScopeRef) : Fresh (go_map ApiInternal.ScopeRef) :=
  new_if (copy_map (fun ref => ApiInternal.mkScopeRef (ApiV1.ScopeRef_APIGroup ref) (ApiV1.ScopeRef_Kind ref)
      (ApiV1.ScopeRef_Name ref))) in_.

Definition toV1Scope (in_ : go_map ApiInternal.ScopeRef) : Fresh (go_map ApiV1.ScopeRef) :=
  new_if (copy_map (fun ref => ApiV1.mkScopeRef (ApiInternal.ScopeRef_APIGroup ref)
      (ApiInternal.ScopeRef_Kind ref) (ApiInternal.ScopeRef_Name ref))) in_.

Definition toIpamPrefixLengthRange : pointer ApiV1.PrefixLengthRange -> Fresh
      (pointer ApiInternal.PrefixLengthRange) :=
  new_if (fun in_ => ApiInternal.mkPrefixLengthRange (ApiV1.PrefixLengthRange_Min in_)
      (ApiV1.PrefixLengthRange_Max in_)).

Definition toV1PrefixLengthRange : pointer ApiInternal.PrefixLengthRange -> Fresh (pointer ApiV1.PrefixLengthRange) :=
  new_if (fun in_ => ApiV1.mkPrefixLengthRange (ApiInternal.PrefixLengthRange_Min in_)
      (ApiInternal.PrefixLengthRange_Max in_)).

Definition toIpamReservations : pointer ApiV1.ReservationSpec -> Fresh (pointer ApiInternal.ReservationSpec) :=
  new_if (fun in_ => ApiInternal.mkReservationSpec (ApiV1.ReservationSpec_Leading in_)
      (ApiV1.ReservationSpec_Trailing in_) (ApiV1.ReservationSpec_UnitPrefixLength in_)).

Definition toV1Reservations : pointer ApiInternal.ReservationSpec -> Fresh (pointer ApiV1.ReservationSpec) :=
  new_if (fun in_ => ApiV1.mkReservationSpec (ApiInternal.ReservationSpec_Leading in_)
      (ApiInternal.ReservationSpec_Trailing in_) (ApiInternal.ReservationSpec_UnitPrefixLength in_)).

Definition toIpamRouting (in_ : ApiV1.RoutingSpec) : ApiInternal.RoutingSpec :=
  ApiInternal.mkRoutingSpec (ApiV1.RoutingSpec_Internal in_) (ApiV1.RoutingSpec_External in_).

Definition toV1Routing (in_ : ApiInternal.RoutingSpec) : ApiV1.RoutingSpec :=
  ApiV1.mkRoutingSpec (ApiInternal.RoutingSpec_Internal in_) (ApiInternal.RoutingSpec_External in_).

Definition toIpamAllocation (in_ : ApiV1.AllocationSpec) : ApiInternal.AllocationSpec :=
  ApiInternal.mkAllocationSpec (ApiV1.AllocationSpec_MinPrefixLength in_)
      (ApiV1.AllocationSpec_MaxPrefixLength in_) (ApiV1.AllocationSpec_Strategy in_).

Definition toV1Allocation (in_ : ApiInternal.AllocationSpec) : ApiV1.AllocationSpec :=
  ApiV1.mkAllocationSpec (ApiInternal.AllocationSpec_MinPrefixLength in_)
      (ApiInternal.AllocationSpec_MaxPrefixLength in_) (ApiInternal.AllocationSpec_Strategy in_).

Definition toIpamClassSource : pointer ApiV1.ClassSourceRef -> Fresh (pointer ApiInternal.ClassSourceRef) :=
  new_if (fun in_ => ApiInternal.mkClassSourceRef (ApiV1.ClassSourceRef_Project in_) (ApiV1.ClassSourceRef_Name in_)).

Definition toV1ClassSource : pointer ApiInternal.ClassSourceRef -> Fresh (pointer ApiV1.ClassSourceRef) :=
  new_if (fun in_ => ApiV1.mkClassSourceRef (ApiInternal.ClassSourceRef_Project in_)
      (ApiInternal.ClassSourceRef_Name in_)).

(** A struct conversion in Go: [ipam.PoolCapacity(in.Status.Capacity)]. *)
Definition convert_PoolCapacity_ApiInternal (in_ : ApiV1.PoolCapacity) : ApiInternal.PoolCapacity :=
  ApiInternal.mkPoolCapacity (ApiV1.PoolCapacity_Total in_) (ApiV1.PoolCapacity_Allocated in_)
      (ApiV1.PoolCapacity_Available in_).
Definition convert_PoolCapacity_ApiV1 (in_ : ApiInternal.PoolCapacity) : ApiV1.PoolCapacity :=
  ApiV1.mkPoolCapacity (ApiInternal.PoolCapacity_Total in_) (ApiInternal.PoolCapacity_Allocated in_)
      (ApiInternal.PoolCapacity_Available in_).

(** The items of a list: allocated when there are any to convert, and left as the
    target has them when the slice is nil. *)
Fixpoint convert_each {A B} (convert : A -> Fresh B) (l : list A) : Fresh (list B) :=
  match l with
  | [] => mret []
  | a :: l => b ← convert a; bs ← convert_each convert l; mret (b :: bs)
  end.

Definition convert_items {A B} (convert : A -> Fresh B) (in_ : slice A) (out : slice B) : Fresh (slice B) :=
  match in_ with
  | None => mret out
  | Some r => p ← new; items ← convert_each convert (held r); mret (Some (mkRef p items))
  end.

(** ** Objects and lists *)

Definition convert_v1alpha1_IPClass_To_ipam (in_ : ApiV1.IPClass) : Fresh ApiInternal.IPClass :=
  let spec := ApiV1.IPClass_Spec in_ in
  let status := ApiV1.IPClass_Status in_ in
  ObjectMeta ← DeepCopyInto (ApiV1.IPClass_ObjectMeta in_);
  Source ← toIpamClassSource (ApiV1.IPClassSpec_Source spec);
  PoolPer ← copyStrings (ApiV1.IPClassSpec_PoolPer spec);
  UniqueWithin ← copyStrings (ApiV1.IPClassSpec_UniqueWithin spec);
  AllowedPrefixLengths ← toIpamPrefixLengthRange (ApiV1.IPClassSpec_AllowedPrefixLengths spec);
  Reservations ← toIpamReservations (ApiV1.IPClassSpec_Reservations spec);
  RetentionLease ← copyDuration (ApiV1.IPClassSpec_RetentionLease spec);
  Parameters ← copyParameters (ApiV1.IPClassSpec_Parameters spec);
  StatusConditions ← toIpamConditions (ApiV1.IPClassStatus_Conditions status);
  mret {|
    ApiInternal.IPClass_TypeMeta := ApiV1.IPClass_TypeMeta in_;
    ApiInternal.IPClass_ObjectMeta := ObjectMeta;
    ApiInternal.IPClass_Spec := {|
      ApiInternal.IPClassSpec_Source := Source;
      ApiInternal.IPClassSpec_IPFamily := ApiV1.IPClassSpec_IPFamily spec;
      ApiInternal.IPClassSpec_AddressScope := ApiV1.IPClassSpec_AddressScope spec;
      ApiInternal.IPClassSpec_ParentClassName := ApiV1.IPClassSpec_ParentClassName spec;
      ApiInternal.IPClassSpec_PoolPer := PoolPer;
      ApiInternal.IPClassSpec_UniqueWithin := UniqueWithin;
      ApiInternal.IPClassSpec_AllowedPrefixLengths := AllowedPrefixLengths;
      ApiInternal.IPClassSpec_DefaultPrefixLength := ApiV1.IPClassSpec_DefaultPrefixLength spec;
      ApiInternal.IPClassSpec_Reservations := Reservations;
      ApiInternal.IPClassSpec_Routing := toIpamRouting (ApiV1.IPClassSpec_Routing spec);
      ApiInternal.IPClassSpec_Strategy := ApiV1.IPClassSpec_Strategy spec;
      ApiInternal.IPClassSpec_ReclaimPolicy := ApiV1.IPClassSpec_ReclaimPolicy spec;
      ApiInternal.IPClassSpec_RetentionLease := RetentionLease;
      ApiInternal.IPClassSpec_Provisioner := ApiV1.IPClassSpec_Provisioner spec;
      ApiInternal.IPClassSpec_Parameters := Parameters
    |};
    ApiInternal.IPClass_Status := {|
      ApiInternal.IPClassStatus_Phase := ApiV1.IPClassStatus_Phase status;
      ApiInternal.IPClassStatus_Conditions := StatusConditions
    |}
  |}.

Definition convert_ipam_IPClass_To_v1alpha1 (in_ : ApiInternal.IPClass) : Fresh ApiV1.IPClass :=
  let spec := ApiInternal.IPClass_Spec in_ in
  let status := ApiInternal.IPClass_Status in_ in
  ObjectMeta ← DeepCopyInto (ApiInternal.IPClass_ObjectMeta in_);
  Source ← toV1ClassSource (ApiInternal.IPClassSpec_Source spec);
  PoolPer ← copyStrings (ApiInternal.IPClassSpec_PoolPer spec);
  UniqueWithin ← copyStrings (ApiInternal.IPClassSpec_UniqueWithin spec);
  AllowedPrefixLengths ← toV1PrefixLengthRange (ApiInternal.IPClassSpec_AllowedPrefixLengths spec);
  Reservations ← toV1Reservations (ApiInternal.IPClassSpec_Reservations spec);
  RetentionLease ← copyDuration (ApiInternal.IPClassSpec_RetentionLease spec);
  Parameters ← copyParameters (ApiInternal.IPClassSpec_Parameters spec);
  StatusConditions ← toIpamConditions (ApiInternal.IPClassStatus_Conditions status);
  mret {|
    ApiV1.IPClass_TypeMeta := ApiInternal.IPClass_TypeMeta in_;
    ApiV1.IPClass_ObjectMeta := ObjectMeta;
    ApiV1.IPClass_Spec := {|
      ApiV1.IPClassSpec_Source := Source;
      ApiV1.IPClassSpec_IPFamily := ApiInternal.IPClassSpec_IPFamily spec;
      ApiV1.IPClassSpec_AddressScope := ApiInternal.IPClassSpec_AddressScope spec;
      ApiV1.IPClassSpec_ParentClassName := ApiInternal.IPClassSpec_ParentClassName spec;
      ApiV1.IPClassSpec_PoolPer := PoolPer;
      ApiV1.IPClassSpec_UniqueWithin := UniqueWithin;
      ApiV1.IPClassSpec_AllowedPrefixLengths := AllowedPrefixLengths;
      ApiV1.IPClassSpec_DefaultPrefixLength := ApiInternal.IPClassSpec_DefaultPrefixLength spec;
      ApiV1.IPClassSpec_Reservations := Reservations;
      ApiV1.IPClassSpec_Routing := toV1Routing (ApiInternal.IPClassSpec_Routing spec);
      ApiV1.IPClassSpec_Strategy := ApiInternal.IPClassSpec_Strategy spec;
      ApiV1.IPClassSpec_ReclaimPolicy := ApiInternal.IPClassSpec_ReclaimPolicy spec;
      ApiV1.IPClassSpec_RetentionLease := RetentionLease;
      ApiV1.IPClassSpec_Provisioner := ApiInternal.IPClassSpec_Provisioner spec;
      ApiV1.IPClassSpec_Parameters := Parameters
    |};
    ApiV1.IPClass_Status := {|
      ApiV1.IPClassStatus_Phase := ApiInternal.IPClassStatus_Phase status;
      ApiV1.IPClassStatus_Conditions := StatusConditions
    |}
  |}.

Definition convert_v1alpha1_IPClassList_To_ipam (in_ : ApiV1.IPClassList)
      (out : ApiInternal.IPClassList) : Fresh ApiInternal.IPClassList :=
  Items ← convert_items convert_v1alpha1_IPClass_To_ipam (ApiV1.IPClassList_Items in_)
      (ApiInternal.IPClassList_Items out);
  mret (ApiInternal.mkIPClassList (ApiV1.IPClassList_TypeMeta in_) (ApiV1.IPClassList_ListMeta in_) Items).

Definition convert_ipam_IPClassList_To_v1alpha1 (in_ : ApiInternal.IPClassList)
      (out : ApiV1.IPClassList) : Fresh ApiV1.IPClassList :=
  Items ← convert_items convert_ipam_IPClass_To_v1alpha1 (ApiInternal.IPClassList_Items in_)
      (ApiV1.IPClassList_Items out);
  mret (ApiV1.mkIPClassList (ApiInternal.IPClassList_TypeMeta in_) (ApiInternal.IPClassList_ListMeta in_) Items).

Definition convert_v1alpha1_IPPool_To_ipam (in_ : ApiV1.IPPool) : Fresh ApiInternal.IPPool :=
  let spec := ApiV1.IPPool_Spec in_ in
  let status := ApiV1.IPPool_Status in_ in
  ObjectMeta ← DeepCopyInto (ApiV1.IPPool_ObjectMeta in_);
  ParentPoolRef ← toIpamLocalRef (ApiV1.IPPoolSpec_ParentPoolRef spec);
  ClassNames ← copyStrings (ApiV1.IPPoolSpec_ClassNames spec);
  ClassRef ← toIpamLocalRef (ApiV1.IPPoolSpec_ClassRef spec);
  Scope ← toIpamScope (ApiV1.IPPoolSpec_Scope spec);
  Reservations ← toIpamReservations (ApiV1.IPPoolSpec_Reservations spec);
  MaxRetentionLease ← copyDuration (ApiV1.IPPoolSpec_MaxRetentionLease spec);
  StatusConditions ← toIpamConditions (ApiV1.IPPoolStatus_Conditions status);
  mret {|
    ApiInternal.IPPool_TypeMeta := ApiV1.IPPool_TypeMeta in_;
    ApiInternal.IPPool_ObjectMeta := ObjectMeta;
    ApiInternal.IPPool_Spec := {|
      ApiInternal.IPPoolSpec_CIDR := ApiV1.IPPoolSpec_CIDR spec;
      ApiInternal.IPPoolSpec_IPFamily := ApiV1.IPPoolSpec_IPFamily spec;
      ApiInternal.IPPoolSpec_ParentPoolRef := ParentPoolRef;
      ApiInternal.IPPoolSpec_PrefixLength := ApiV1.IPPoolSpec_PrefixLength spec;
      ApiInternal.IPPoolSpec_ClassNames := ClassNames;
      ApiInternal.IPPoolSpec_ClassRef := ClassRef;
      ApiInternal.IPPoolSpec_Scope := Scope;
      ApiInternal.IPPoolSpec_Reservations := Reservations;
      ApiInternal.IPPoolSpec_MaxRetentionLease := MaxRetentionLease;
      ApiInternal.IPPoolSpec_Allocation := toIpamAllocation (ApiV1.IPPoolSpec_Allocation spec);
      ApiInternal.IPPoolSpec_Visibility := ApiV1.IPPoolSpec_Visibility spec
    |};
    ApiInternal.IPPool_Status := {|
      ApiInternal.IPPoolStatus_Phase := ApiV1.IPPoolStatus_Phase status;
      ApiInternal.IPPoolStatus_AllocatedCIDR := ApiV1.IPPoolStatus_AllocatedCIDR status;
      ApiInternal.IPPoolStatus_IPFamily := ApiV1.IPPoolStatus_IPFamily status;
      ApiInternal.IPPoolStatus_ScopeDigest := ApiV1.IPPoolStatus_ScopeDigest status;
      ApiInternal.IPPoolStatus_Capacity := convert_PoolCapacity_ApiInternal (ApiV1.IPPoolStatus_Capacity status);
      ApiInternal.IPPoolStatus_UtilizationPercent := ApiV1.IPPoolStatus_UtilizationPercent status;
      ApiInternal.IPPoolStatus_Conditions := StatusConditions
    |}
  |}.

Definition convert_ipam_IPPool_To_v1alpha1 (in_ : ApiInternal.IPPool) : Fresh ApiV1.IPPool :=
  let spec := ApiInternal.IPPool_Spec in_ in
  let status := ApiInternal.IPPool_Status in_ in
  ObjectMeta ← DeepCopyInto (ApiInternal.IPPool_ObjectMeta in_);
  ParentPoolRef ← toV1LocalRef (ApiInternal.IPPoolSpec_ParentPoolRef spec);
  ClassNames ← copyStrings (ApiInternal.IPPoolSpec_ClassNames spec);
  ClassRef ← toV1LocalRef (ApiInternal.IPPoolSpec_ClassRef spec);
  Scope ← toV1Scope (ApiInternal.IPPoolSpec_Scope spec);
  Reservations ← toV1Reservations (ApiInternal.IPPoolSpec_Reservations spec);
  MaxRetentionLease ← copyDuration (ApiInternal.IPPoolSpec_MaxRetentionLease spec);
  StatusConditions ← toIpamConditions (ApiInternal.IPPoolStatus_Conditions status);
  mret {|
    ApiV1.IPPool_TypeMeta := ApiInternal.IPPool_TypeMeta in_;
    ApiV1.IPPool_ObjectMeta := ObjectMeta;
    ApiV1.IPPool_Spec := {|
      ApiV1.IPPoolSpec_CIDR := ApiInternal.IPPoolSpec_CIDR spec;
      ApiV1.IPPoolSpec_IPFamily := ApiInternal.IPPoolSpec_IPFamily spec;
      ApiV1.IPPoolSpec_ParentPoolRef := ParentPoolRef;
      ApiV1.IPPoolSpec_PrefixLength := ApiInternal.IPPoolSpec_PrefixLength spec;
      ApiV1.IPPoolSpec_ClassNames := ClassNames;
      ApiV1.IPPoolSpec_ClassRef := ClassRef;
      ApiV1.IPPoolSpec_Scope := Scope;
      ApiV1.IPPoolSpec_Reservations := Reservations;
      ApiV1.IPPoolSpec_MaxRetentionLease := MaxRetentionLease;
      ApiV1.IPPoolSpec_Allocation := toV1Allocation (ApiInternal.IPPoolSpec_Allocation spec);
      ApiV1.IPPoolSpec_Visibility := ApiInternal.IPPoolSpec_Visibility spec
    |};
    ApiV1.IPPool_Status := {|
      ApiV1.IPPoolStatus_Phase := ApiInternal.IPPoolStatus_Phase status;
      ApiV1.IPPoolStatus_AllocatedCIDR := ApiInternal.IPPoolStatus_AllocatedCIDR status;
      ApiV1.IPPoolStatus_IPFamily := ApiInternal.IPPoolStatus_IPFamily status;
      ApiV1.IPPoolStatus_ScopeDigest := ApiInternal.IPPoolStatus_ScopeDigest status;
      ApiV1.IPPoolStatus_Capacity := convert_PoolCapacity_ApiV1 (ApiInternal.IPPoolStatus_Capacity status);
      ApiV1.IPPoolStatus_UtilizationPercent := ApiInternal.IPPoolStatus_UtilizationPercent status;
      ApiV1.IPPoolStatus_Conditions := StatusConditions
    |}
  |}.

Definition convert_v1alpha1_IPPoolList_To_ipam (in_ : ApiV1.IPPoolList)
      (out : ApiInternal.IPPoolList) : Fresh ApiInternal.IPPoolList :=
  Items ← convert_items convert_v1alpha1_IPPool_To_ipam (ApiV1.IPPoolList_Items in_)
      (ApiInternal.IPPoolList_Items out);
  mret (ApiInternal.mkIPPoolList (ApiV1.IPPoolList_TypeMeta in_) (ApiV1.IPPoolList_ListMeta in_) Items).

Definition convert_ipam_IPPoolList_To_v1alpha1 (in_ : ApiInternal.IPPoolList)
      (out : ApiV1.IPPoolList) : Fresh ApiV1.IPPoolList :=
  Items ← convert_items convert_ipam_IPPool_To_v1alpha1 (ApiInternal.IPPoolList_Items in_)
      (ApiV1.IPPoolList_Items out);
  mret (ApiV1.mkIPPoolList (ApiInternal.IPPoolList_TypeMeta in_) (ApiInternal.IPPoolList_ListMeta in_) Items).

Definition convert_v1alpha1_IPAllocation_To_ipam (in_ : ApiV1.IPAllocation) : Fresh ApiInternal.IPAllocation :=
  let spec := ApiV1.IPAllocation_Spec in_ in
  let status := ApiV1.IPAllocation_Status in_ in
  ObjectMeta ← DeepCopyInto (ApiV1.IPAllocation_ObjectMeta in_);
  ClaimRef ← toIpamLocalRef (ApiV1.IPAllocationSpec_ClaimRef spec);
  Scope ← toIpamScope (ApiV1.IPAllocationSpec_Scope spec);
  OwnerRef ← toIpamObjectRef (ApiV1.IPAllocationSpec_OwnerRef spec);
  StatusConditions ← toIpamConditions (ApiV1.IPAllocationStatus_Conditions status);
  mret {|
    ApiInternal.IPAllocation_TypeMeta := ApiV1.IPAllocation_TypeMeta in_;
    ApiInternal.IPAllocation_ObjectMeta := ObjectMeta;
    ApiInternal.IPAllocation_Spec := {|
      ApiInternal.IPAllocationSpec_IPFamily := ApiV1.IPAllocationSpec_IPFamily spec;
      ApiInternal.IPAllocationSpec_PoolRef := ApiInternal.mkLocalRef (ApiV1.LocalRef_Name
      (ApiV1.IPAllocationSpec_PoolRef spec));
      ApiInternal.IPAllocationSpec_ClassName := ApiV1.IPAllocationSpec_ClassName spec;
      ApiInternal.IPAllocationSpec_Purpose := ApiV1.IPAllocationSpec_Purpose spec;
      ApiInternal.IPAllocationSpec_ClaimRef := ClaimRef;
      ApiInternal.IPAllocationSpec_Scope := Scope;
      ApiInternal.IPAllocationSpec_ReclaimPolicy := ApiV1.IPAllocationSpec_ReclaimPolicy spec;
      ApiInternal.IPAllocationSpec_OwnerRef := OwnerRef
    |};
    ApiInternal.IPAllocation_Status := {|
      ApiInternal.IPAllocationStatus_Phase := ApiV1.IPAllocationStatus_Phase status;
      ApiInternal.IPAllocationStatus_AllocatedCIDR := ApiV1.IPAllocationStatus_AllocatedCIDR status;
      ApiInternal.IPAllocationStatus_Address := ApiV1.IPAllocationStatus_Address status;
      ApiInternal.IPAllocationStatus_ScopeDigest := ApiV1.IPAllocationStatus_ScopeDigest status;
      ApiInternal.IPAllocationStatus_Conditions := StatusConditions
    |}
  |}.

Definition convert_ipam_IPAllocation_To_v1alpha1 (in_ : ApiInternal.IPAllocation) : Fresh ApiV1.IPAllocation :=
  let spec := ApiInternal.IPAllocation_Spec in_ in
  let status := ApiInternal.IPAllocation_Status in_ in
  ObjectMeta ← DeepCopyInto (ApiInternal.IPAllocation_ObjectMeta in_);
  ClaimRef ← toV1LocalRef (ApiInternal.IPAllocationSpec_ClaimRef spec);
  Scope ← toV1Scope (ApiInternal.IPAllocationSpec_Scope spec);
  OwnerRef ← toV1ObjectRef (ApiInternal.IPAllocationSpec_OwnerRef spec);
  StatusConditions ← toIpamConditions (ApiInternal.IPAllocationStatus_Conditions status);
  mret {|
    ApiV1.IPAllocation_TypeMeta := ApiInternal.IPAllocation_TypeMeta in_;
    ApiV1.IPAllocation_ObjectMeta := ObjectMeta;
    ApiV1.IPAllocation_Spec := {|
      ApiV1.IPAllocationSpec_IPFamily := ApiInternal.IPAllocationSpec_IPFamily spec;
      ApiV1.IPAllocationSpec_PoolRef := ApiV1.mkLocalRef (ApiInternal.LocalRef_Name
      (ApiInternal.IPAllocationSpec_PoolRef spec));
      ApiV1.IPAllocationSpec_ClassName := ApiInternal.IPAllocationSpec_ClassName spec;
      ApiV1.IPAllocationSpec_Purpose := ApiInternal.IPAllocationSpec_Purpose spec;
      ApiV1.IPAllocationSpec_ClaimRef := ClaimRef;
      ApiV1.IPAllocationSpec_Scope := Scope;
      ApiV1.IPAllocationSpec_ReclaimPolicy := ApiInternal.IPAllocationSpec_ReclaimPolicy spec;
      ApiV1.IPAllocationSpec_OwnerRef := OwnerRef
    |};
    ApiV1.IPAllocation_Status := {|
      ApiV1.IPAllocationStatus_Phase := ApiInternal.IPAllocationStatus_Phase status;
      ApiV1.IPAllocationStatus_AllocatedCIDR := ApiInternal.IPAllocationStatus_AllocatedCIDR status;
      ApiV1.IPAllocationStatus_Address := ApiInternal.IPAllocationStatus_Address status;
      ApiV1.IPAllocationStatus_ScopeDigest := ApiInternal.IPAllocationStatus_ScopeDigest status;
      ApiV1.IPAllocationStatus_Conditions := StatusConditions
    |}
  |}.

Definition convert_v1alpha1_IPAllocationList_To_ipam (in_ : ApiV1.IPAllocationList)
      (out : ApiInternal.IPAllocationList) : Fresh ApiInternal.IPAllocationList :=
  Items ← convert_items convert_v1alpha1_IPAllocation_To_ipam (ApiV1.IPAllocationList_Items in_)
      (ApiInternal.IPAllocationList_Items out);
  mret (ApiInternal.mkIPAllocationList (ApiV1.IPAllocationList_TypeMeta in_)
      (ApiV1.IPAllocationList_ListMeta in_) Items).

Definition convert_ipam_IPAllocationList_To_v1alpha1 (in_ : ApiInternal.IPAllocationList)
      (out : ApiV1.IPAllocationList) : Fresh ApiV1.IPAllocationList :=
  Items ← convert_items convert_ipam_IPAllocation_To_v1alpha1 (ApiInternal.IPAllocationList_Items in_)
      (ApiV1.IPAllocationList_Items out);
  mret (ApiV1.mkIPAllocationList (ApiInternal.IPAllocationList_TypeMeta in_)
      (ApiInternal.IPAllocationList_ListMeta in_) Items).

Definition convert_v1alpha1_IPClaim_To_ipam (in_ : ApiV1.IPClaim) : Fresh ApiInternal.IPClaim :=
  let spec := ApiV1.IPClaim_Spec in_ in
  let status := ApiV1.IPClaim_Status in_ in
  ObjectMeta ← DeepCopyInto (ApiV1.IPClaim_ObjectMeta in_);
  PrefixLength ← copyInt32Ptr (ApiV1.IPClaimSpec_PrefixLength spec);
  Scope ← toIpamScope (ApiV1.IPClaimSpec_Scope spec);
  OwnerRef ← toIpamObjectRef (ApiV1.IPClaimSpec_OwnerRef spec);
  StatusPoolRef ← toIpamLocalRef (ApiV1.IPClaimStatus_PoolRef status);
  StatusBoundAllocationRef ← toIpamLocalRef (ApiV1.IPClaimStatus_BoundAllocationRef status);
  StatusConditions ← toIpamConditions (ApiV1.IPClaimStatus_Conditions status);
  mret {|
    ApiInternal.IPClaim_TypeMeta := ApiV1.IPClaim_TypeMeta in_;
    ApiInternal.IPClaim_ObjectMeta := ObjectMeta;
    ApiInternal.IPClaim_Spec := {|
      ApiInternal.IPClaimSpec_ClassName := ApiV1.IPClaimSpec_ClassName spec;
      ApiInternal.IPClaimSpec_IPFamily := ApiV1.IPClaimSpec_IPFamily spec;
      ApiInternal.IPClaimSpec_AddressScope := ApiV1.IPClaimSpec_AddressScope spec;
      ApiInternal.IPClaimSpec_Address := ApiV1.IPClaimSpec_Address spec;
      ApiInternal.IPClaimSpec_PrefixLength := PrefixLength;
      ApiInternal.IPClaimSpec_Scope := Scope;
      ApiInternal.IPClaimSpec_Target := ApiV1.IPClaimSpec_Target spec;
      ApiInternal.IPClaimSpec_ReclaimPolicy := ApiV1.IPClaimSpec_ReclaimPolicy spec;
      ApiInternal.IPClaimSpec_OwnerRef := OwnerRef
    |};
    ApiInternal.IPClaim_Status := {|
      ApiInternal.IPClaimStatus_Phase := ApiV1.IPClaimStatus_Phase status;
      ApiInternal.IPClaimStatus_AllocatedCIDR := ApiV1.IPClaimStatus_AllocatedCIDR status;
      ApiInternal.IPClaimStatus_Address := ApiV1.IPClaimStatus_Address status;
      ApiInternal.IPClaimStatus_PoolRef := StatusPoolRef;
      ApiInternal.IPClaimStatus_BoundAllocationRef := StatusBoundAllocationRef;
      ApiInternal.IPClaimStatus_Conditions := StatusConditions
    |}
  |}.

Definition convert_ipam_IPClaim_To_v1alpha1 (in_ : ApiInternal.IPClaim) : Fresh ApiV1.IPClaim :=
  let spec := ApiInternal.IPClaim_Spec in_ in
  let status := ApiInternal.IPClaim_Status in_ in
  ObjectMeta ← DeepCopyInto (ApiInternal.IPClaim_ObjectMeta in_);
  PrefixLength ← copyInt32Ptr (ApiInternal.IPClaimSpec_PrefixLength spec);
  Scope ← toV1Scope (ApiInternal.IPClaimSpec_Scope spec);
  OwnerRef ← toV1ObjectRef (ApiInternal.IPClaimSpec_OwnerRef spec);
  StatusPoolRef ← toV1LocalRef (ApiInternal.IPClaimStatus_PoolRef status);
  StatusBoundAllocationRef ← toV1LocalRef (ApiInternal.IPClaimStatus_BoundAllocationRef status);
  StatusConditions ← toIpamConditions (ApiInternal.IPClaimStatus_Conditions status);
  mret {|
    ApiV1.IPClaim_TypeMeta := ApiInternal.IPClaim_TypeMeta in_;
    ApiV1.IPClaim_ObjectMeta := ObjectMeta;
    ApiV1.IPClaim_Spec := {|
      ApiV1.IPClaimSpec_ClassName := ApiInternal.IPClaimSpec_ClassName spec;
      ApiV1.IPClaimSpec_IPFamily := ApiInternal.IPClaimSpec_IPFamily spec;
      ApiV1.IPClaimSpec_AddressScope := ApiInternal.IPClaimSpec_AddressScope spec;
      ApiV1.IPClaimSpec_Address := ApiInternal.IPClaimSpec_Address spec;
      ApiV1.IPClaimSpec_PrefixLength := PrefixLength;
      ApiV1.IPClaimSpec_Scope := Scope;
      ApiV1.IPClaimSpec_Target := ApiInternal.IPClaimSpec_Target spec;
      ApiV1.IPClaimSpec_ReclaimPolicy := ApiInternal.IPClaimSpec_ReclaimPolicy spec;
      ApiV1.IPClaimSpec_OwnerRef := OwnerRef
    |};
    ApiV1.IPClaim_Status := {|
      ApiV1.IPClaimStatus_Phase := ApiInternal.IPClaimStatus_Phase status;
      ApiV1.IPClaimStatus_AllocatedCIDR := ApiInternal.IPClaimStatus_AllocatedCIDR status;
      ApiV1.IPClaimStatus_Address := ApiInternal.IPClaimStatus_Address status;
      ApiV1.IPClaimStatus_PoolRef := StatusPoolRef;
      ApiV1.IPClaimStatus_BoundAllocationRef := StatusBoundAllocationRef;
      ApiV1.IPClaimStatus_Conditions := StatusConditions
    |}
  |}.

Definition convert_v1alpha1_IPClaimList_To_ipam (in_ : ApiV1.IPClaimList)
      (out : ApiInternal.IPClaimList) : Fresh ApiInternal.IPClaimList :=
  Items ← convert_items convert_v1alpha1_IPClaim_To_ipam (ApiV1.IPClaimList_Items in_)
      (ApiInternal.IPClaimList_Items out);
  mret (ApiInternal.mkIPClaimList (ApiV1.IPClaimList_TypeMeta in_) (ApiV1.IPClaimList_ListMeta in_) Items).

Definition convert_ipam_IPClaimList_To_v1alpha1 (in_ : ApiInternal.IPClaimList)
      (out : ApiV1.IPClaimList) : Fresh ApiV1.IPClaimList :=
  Items ← convert_items convert_ipam_IPClaim_To_v1alpha1 (ApiInternal.IPClaimList_Items in_)
      (ApiV1.IPClaimList_Items out);
  mret (ApiV1.mkIPClaimList (ApiInternal.IPClaimList_TypeMeta in_) (ApiInternal.IPClaimList_ListMeta in_) Items).

(** ** Copies *)

Context {laws : MetaLaws}.

Lemma copy_map_fmap {A B} (f : A -> B) m : copy_map f m = f <$> m.
Proof.
  unfold copy_map. revert m. apply (map_fold_weak_ind (fun out m => out = f <$> m)); [by rewrite fmap_empty|].
  intros k v m out _ ->. by rewrite fmap_insert.
Qed.

(** A pointer is copied when what it leads to converts to the same content and no
    pointer of its own. *)
Lemma new_if_copies {A B} `{Reflect A, Reflect B} (f : A -> B) :
  (forall a n, copied (reflect a) (reflect (f a)) n n) -> copies (new_if f).
Proof.
  intros Hf [[p a]|] n; [|by apply copied_flat]. apply copied_at, Hf.
Qed.

Lemma strings_flat (l : list string) : places (reflect l) = [].
Proof. induction l as [|s l IH]; [done|]. exact IH. Qed.

Lemma conditions_flat (l : list Condition) : places (reflect l) = [].
Proof.
  induction l as [|c l IH]; [done|]. unfold reflect, reflect_list in *. cbn [map places concat snd] in *.
  by rewrite Condition_flat.
Qed.

Lemma copy_map_copied {A B} `{Reflect A, Reflect B} (f : A -> B) m n :
  (forall a, erase (reflect (f a)) = erase (reflect a) /\ places (reflect (f a)) = []) ->
  copied (reflect m) (reflect (copy_map f m)) n n.
Proof.
  intros Hf. rewrite copy_map_fmap. unfold reflect, reflect_map. rewrite map_to_list_fmap.
  change (map ?g (prod_map id f <$> map_to_list m)) with (map g (map (prod_map id f) (map_to_list m))).
  rewrite map_map. apply copied_fields. intros [k a] _. split; [done | apply Hf].
Qed.

Lemma copyStrings_copies : copies copyStrings.
Proof. apply new_if_copies. intros l n. apply copied_flat, strings_flat. Qed.

Lemma toIpamConditions_copies : copies toIpamConditions.
Proof. apply new_if_copies. intros l n. apply copied_flat, conditions_flat. Qed.

Lemma copyInt32Ptr_copies : copies copyInt32Ptr.
Proof. apply new_if_copies. intros v n. by apply copied_flat. Qed.

Lemma copyDuration_copies : copies copyDuration.
Proof. apply new_if_copies. intros v n. by apply copied_flat. Qed.

Lemma copyParameters_copies : copies copyParameters.
Proof. apply new_if_copies. intros m n. by apply copy_map_copied. Qed.

Lemma toIpamScope_copies : copies toIpamScope.
Proof. apply new_if_copies. intros m n. by apply copy_map_copied. Qed.

Lemma toV1Scope_copies : copies toV1Scope.
Proof. apply new_if_copies. intros m n. by apply copy_map_copied. Qed.

Lemma toIpamLocalRef_copies : copies toIpamLocalRef.
Proof. apply new_if_copies. intros r n. by apply copied_flat. Qed.

Lemma toV1LocalRef_copies : copies toV1LocalRef.
Proof. apply new_if_copies. intros r n. by apply copied_flat. Qed.

Lemma toIpamObjectRef_copies : copies toIpamObjectRef.
Proof. apply new_if_copies. intros r n. by apply copied_flat. Qed.

Lemma toV1ObjectRef_copies : copies toV1ObjectRef.
Proof. apply new_if_copies. intros r n. by apply copied_flat. Qed.

Lemma toIpamPrefixLengthRange_copies : copies toIpamPrefixLengthRange.
Proof. apply new_if_copies. intros r n. by apply copied_flat. Qed.

Lemma toV1PrefixLengthRange_copies : copies toV1PrefixLengthRange.
Proof. apply new_if_copies. intros r n. by apply copied_flat. Qed.

Lemma toIpamReservations_copies : copies toIpamReservations.
Proof. apply new_if_copies. intros r n. by apply copied_flat. Qed.

Lemma toV1Reservations_copies : copies toV1Reservations.
Proof. apply new_if_copies. intros r n. by apply copied_flat. Qed.

Lemma toIpamClassSource_copies : copies toIpamClassSource.
Proof. apply new_if_copies. intros r n. by apply copied_flat. Qed.

Lemma toV1ClassSource_copies : copies toV1ClassSource.
Proof. apply new_if_copies. intros r n. by apply copied_flat. Qed.

#[local] Hint Resolve copyStrings_copies toIpamConditions_copies copyInt32Ptr_copies copyDuration_copies copyParameters_copies
  toIpamScope_copies toV1Scope_copies toIpamLocalRef_copies toV1LocalRef_copies toIpamObjectRef_copies toV1ObjectRef_copies
  toIpamPrefixLengthRange_copies toV1PrefixLengthRange_copies toIpamReservations_copies toV1Reservations_copies
  toIpamClassSource_copies toV1ClassSource_copies DeepCopyInto_copies : copies.

Lemma convert_v1alpha1_IPClass_To_ipam_copies : copies convert_v1alpha1_IPClass_To_ipam.
Proof. copy_object convert_v1alpha1_IPClass_To_ipam. Qed.

Lemma convert_ipam_IPClass_To_v1alpha1_copies : copies convert_ipam_IPClass_To_v1alpha1.
Proof. copy_object convert_ipam_IPClass_To_v1alpha1. Qed.

Lemma convert_v1alpha1_IPPool_To_ipam_copies : copies convert_v1alpha1_IPPool_To_ipam.
Proof. copy_object convert_v1alpha1_IPPool_To_ipam. Qed.

Lemma convert_ipam_IPPool_To_v1alpha1_copies : copies convert_ipam_IPPool_To_v1alpha1.
Proof. copy_object convert_ipam_IPPool_To_v1alpha1. Qed.

Lemma convert_v1alpha1_IPAllocation_To_ipam_copies : copies convert_v1alpha1_IPAllocation_To_ipam.
Proof. copy_object convert_v1alpha1_IPAllocation_To_ipam. Qed.

Lemma convert_ipam_IPAllocation_To_v1alpha1_copies : copies convert_ipam_IPAllocation_To_v1alpha1.
Proof. copy_object convert_ipam_IPAllocation_To_v1alpha1. Qed.

Lemma convert_v1alpha1_IPClaim_To_ipam_copies : copies convert_v1alpha1_IPClaim_To_ipam.
Proof. copy_object convert_v1alpha1_IPClaim_To_ipam. Qed.

Lemma convert_ipam_IPClaim_To_v1alpha1_copies : copies convert_ipam_IPClaim_To_v1alpha1.
Proof. copy_object convert_ipam_IPClaim_To_v1alpha1. Qed.

#[local] Hint Resolve convert_v1alpha1_IPClass_To_ipam_copies convert_ipam_IPClass_To_v1alpha1_copies
  convert_v1alpha1_IPPool_To_ipam_copies convert_ipam_IPPool_To_v1alpha1_copies
  convert_v1alpha1_IPAllocation_To_ipam_copies convert_ipam_IPAllocation_To_v1alpha1_copies
  convert_v1alpha1_IPClaim_To_ipam_copies convert_ipam_IPClaim_To_v1alpha1_copies : copies.

Lemma convert_each_copies {A B} `{Reflect A, Reflect B} (f : A -> Fresh B) : copies f -> copies (convert_each f).
Proof.
  intros Hf l. induction l as [|a l IH]; intros n; [apply copied_nil|].
  cbn [convert_each]. unfold mbind, fresh_bind, mret, fresh_ret.
  pose proof (Hf a n) as Ha. destruct (f a n) as [b m]. specialize (IH m).
  destruct (convert_each f l m) as [bs m']. by eapply copied_cons.
Qed.

(** A list of items is copied with its backing array when there is one, and when there
    is none the target's items stay. *)
Lemma convert_items_spec {A B} `{Reflect A, Reflect B} (f : A -> Fresh B) (in_ : slice A) (out : slice B) n : copies f ->
  match in_ with
  | None => convert_items f in_ out n = (out, n)
  | Some _ => copied (reflect in_) (reflect (convert_items f in_ out n).1) n (convert_items f in_ out n).2
  end.
Proof.
  intros Hf. destruct in_ as [r|]; [|done]. cbn [convert_items]. unfold mbind, fresh_bind, new, mret, fresh_ret.
  pose proof (convert_each_copies f Hf (held r) (n + 1)) as H1.
  destruct (convert_each f (held r) (n + 1)) as [items m]. by apply copied_at.
Qed.

(** ** What the conversions promise *)

(** [C18] Objects survive the trip between the versions and share nothing on the way.
    For each kind and each direction: the converted object has the fields, names,
    values and nil-ness of the one it came from, converting it back gives that
    content again, and no pointer, slice or map is common to any two of the three
    objects, so no holder of one can change another through it. *)
Theorem conversion_roundtrip :
  (roundtrips convert_v1alpha1_IPClass_To_ipam convert_ipam_IPClass_To_v1alpha1
      /\ roundtrips convert_ipam_IPClass_To_v1alpha1 convert_v1alpha1_IPClass_To_ipam)
  /\ (roundtrips convert_v1alpha1_IPPool_To_ipam convert_ipam_IPPool_To_v1alpha1
      /\ roundtrips convert_ipam_IPPool_To_v1alpha1 convert_v1alpha1_IPPool_To_ipam)
  /\ (roundtrips convert_v1alpha1_IPAllocation_To_ipam convert_ipam_IPAllocation_To_v1alpha1
      /\ roundtrips convert_ipam_IPAllocation_To_v1alpha1 convert_v1alpha1_IPAllocation_To_ipam)
  /\ (roundtrips convert_v1alpha1_IPClaim_To_ipam convert_ipam_IPClaim_To_v1alpha1
      /\ roundtrips convert_ipam_IPClaim_To_v1alpha1 convert_v1alpha1_IPClaim_To_ipam).
Proof. repeat split_and; apply copies_roundtrip; auto with copies. Qed.

(** A list converts item by item: into a target without items, its items show the content
    of the source's and live in new places; the list's own metadata is assigned, so
    whatever it points to is shared. *)
Theorem list_conversion (in_ : ApiV1.IPClaimList) (out : ApiInternal.IPClaimList) n :
  let (made, m) := convert_v1alpha1_IPClaimList_To_ipam in_ out n in
  ApiInternal.IPClaimList_ListMeta made = ApiV1.IPClaimList_ListMeta in_
  /\ ApiInternal.IPClaimList_TypeMeta made = ApiV1.IPClaimList_TypeMeta in_
  /\ match ApiV1.IPClaimList_Items in_ with
     | Some _ => copied (reflect (ApiV1.IPClaimList_Items in_)) (reflect (ApiInternal.IPClaimList_Items made)) n m
     | None => ApiInternal.IPClaimList_Items made = ApiInternal.IPClaimList_Items out
     end.
Proof.
  unfold convert_v1alpha1_IPClaimList_To_ipam, mbind, fresh_bind, mret, fresh_ret.
  pose proof (convert_items_spec convert_v1alpha1_IPClaim_To_ipam (ApiV1.IPClaimList_Items in_) (ApiInternal.IPClaimList_Items out) n
    ltac:(auto with copies)) as H.
  destruct (ApiV1.IPClaimList_Items in_) as [r|]; [|by rewrite H].
  destruct (convert_items _ (Some r) _ n) as [items m]. done.
Qed.
End Conversion.

(** ** A concrete object *)

(** Metadata with a label map, list metadata with a count behind a pointer. *)
#[local] Instance ex_meta : MetaV1 := {|
  TypeMeta := string;
  ObjectMeta := string * go_map string;
  ListMeta := pointer Z;
  Condition := string;
  reflect_ObjectMeta m := TNode [("Name", reflect m.1); ("Labels", reflect m.2)];
  DeepCopyInto m := (labels ← copyParameters m.2; mret (m.1, labels))
|}.

#[local] Instance ex_laws : MetaLaws.
Proof.
  constructor; try (intros; reflexivity); try exact _.
  - intros [name labels] n. cbn [DeepCopyInto ex_meta fst snd]. unfold mbind, fresh_bind, mret, fresh_ret.
    assert (copies copyParameters) as Hc by (apply new_if_copies; intros m k; by apply copy_map_copied).
    pose proof (Hc labels n) as H. destruct (copyParameters labels n) as [b m]. copy_fields.
  - intros [] [] E. apply node_inj in E as [E1 E]. apply node_inj in E as [E2 _].
    apply shown_inj in E1. apply shown_inj in E2. cbn in *. by subst.
Qed.

Definition ex_claim_v1 : ApiV1.IPClaim :=
  ApiV1.mkIPClaim "IPClaim" ("web", Some (mkRef 0 {["app" := "web"]}))
    (ApiV1.mkIPClaimSpec "net" "IPv4" "" "" (Some (mkRef 1 24))
      (Some (mkRef 2 {["network" := ApiV1.mkScopeRef "networking" "Network" "default"]})) "" "" None)
    (ApiV1.mkIPClaimStatus "" "" "" None None None).

Lemma conversion_roundtrip_witness :
  let (b, m) := convert_v1alpha1_IPClaim_To_ipam ex_claim_v1 3 in
  erase (reflect b) = erase (reflect ex_claim_v1) /\ apart (reflect ex_claim_v1) (reflect b).
Proof.
  destruct (conversion_roundtrip (meta := ex_meta)) as (_ & _ & _ & H & _).
  specialize (H ex_claim_v1 3). destruct (convert_v1alpha1_IPClaim_To_ipam ex_claim_v1 3) as [b m].
  destruct (convert_ipam_IPClaim_To_v1alpha1 b m) as [a m'].
  destruct H as ([He _] & Ha & _); [|by split].
  repeat (apply Forall_cons_2; [vm_compute; reflexivity|]). apply Forall_nil_2.
Defined.
