(* ===== verification/DeepCopy.v ===== *)
(** * DeepCopy: what the generated deep copies are made of

    [deepcopy-gen] writes the same few statements for every field of every type: a
    pointer field gets a new place for the value it points to, a slice a new backing
    array, a map a new map, a struct its own deep copy; the rest is what
    [*out = *in] left.  DeepCopyV1 and DeepCopyInternal spell the functions of the
    two packages with these. *)

From Stdlib Require Import String.
From S2P Require Import Prelude Float Memory Conversion.
Open Scope string_scope.
Open Scope list_scope.
Open Scope Z_scope.

(** ** The statements *)

(** [if in.F != nil { *out = new(T); **out = **in }] *)
Definition copy_pointed {A} : pointer A -> Fresh (pointer A) := new_if (fun v => v).

(** [if in.F != nil { *out = make([]T, len( *in)); copy( *out, *in) }] *)
Definition copy_slice {A} : slice A -> Fresh (slice A) := new_if (fun l => l).

(** [if in.F != nil { *out = make(map[string]T, len( *in)); for key, val := range *in { ( *out)[key] = val } }] *)
Definition copy_entries {A} : go_map A -> Fresh (go_map A) := new_if (copy_map (fun val => val)).

(** [if in.F != nil { *out = make([]T, len( *in)); for i := range *in { ( *in)[i].DeepCopyInto(&( *out)[i]) } }] *)
Definition copy_items {A} (DeepCopyInto : A -> Fresh A) (in_ : slice A) : Fresh (slice A) :=
  match in_ with
  | None => mret None
  | Some r => p ← new; items ← convert_each DeepCopyInto (held r); mret (Some (mkRef p items))
  end.

(** The metadata types the API machinery copies. *)
Class MetaCopies {meta : MetaV1} := {
  ListMeta_DeepCopyInto : ListMeta -> Fresh ListMeta;
  Condition_DeepCopyInto : Condition -> Fresh Condition
}.

Class MetaCopiesLaws {meta : MetaV1} {meta_copies : MetaCopies} : Prop := {
  ListMeta_copies : copies ListMeta_DeepCopyInto;
  Condition_copies : copies Condition_DeepCopyInto
}.

(** ** They copy *)

(** A type no value of which points anywhere. *)
Class Flat (A : Type) `{Reflect A} : Prop := flat : forall a : A, places (reflect a) = [].

#[export] Instance flat_string : Flat string.
Proof. done. Qed.
#[export] Instance flat_int : Flat Z.
Proof. done. Qed.
#[export] Instance flat_list {A} `{Flat A} : Flat (list A).
Proof. intros l. induction l as [|a l IH]; [done|]. change (places (reflect a) ++ places (reflect l) = []). by rewrite flat, IH. Qed.

Lemma copy_pointed_copies {A} `{Flat A} : copies (copy_pointed (A := A)).
Proof. apply new_if_copies. intros a n. apply copied_flat, flat. Qed.

Lemma copy_slice_copies {A} `{Flat A} : copies (copy_slice (A := A)).
Proof. apply new_if_copies. intros l n. apply copied_flat, flat. Qed.

Lemma copy_entries_copies {A} `{Flat A} : copies (copy_entries (A := A)).
Proof. apply new_if_copies. intros m n. apply copy_map_copied. intros a. split; [done | apply flat]. Qed.

Lemma copy_items_copies {A} `{Reflect A} (f : A -> Fresh A) : copies f -> copies (copy_items f).
Proof.
  intros Hf in_ n. destruct in_ as [r|]; [|by apply copied_flat]. cbn [copy_items]. unfold mbind, fresh_bind, new, mret, fresh_ret.
  pose proof (convert_each_copies f Hf (held r) (n + 1)) as Hc.
  destruct (convert_each f (held r) (n + 1)) as [items m]. by apply copied_at.
Qed.

Lemma same_copies {A} `{Flat A} : copies (fun a : A => mret a).
Proof. intros a n. apply copied_flat, flat. Qed.

(** [DeepCopy]: nil for nil, otherwise a new place for what [DeepCopyInto] writes. *)
Lemma deep_copies {A} `{Reflect A} (into : A -> Fresh A) : copies into ->
  copies (fun in_ : pointer A =>
    match in_ with
    | None => mret None
    | Some in_ => p ← new; out ← into (held in_); mret (Some (mkRef p out))
    end).
Proof.
  intros Hf [r|] n; [|by apply copied_flat]. unfold mbind, fresh_bind, new, mret, fresh_ret.
  pose proof (Hf (held r) (n + 1)) as Hc. destruct (into (held r) (n + 1)) as [out m]. by apply copied_at.
Qed.

#[export] Hint Resolve copy_pointed_copies copy_slice_copies copy_entries_copies copy_items_copies same_copies
  ListMeta_copies Condition_copies : copies.
#[export] Hint Extern 1 (Flat _) => apply _ : copies.

(** ** Writing through a pointer *)

(** What a value shows once [v] is written at the place [p]. *)
Fixpoint written (p : place) (v t : tree) : tree :=
  match t with
  | TAt q t' => TAt q (if q =? p then v else written p v t')
  | TNode l => TNode (map (fun f => (f.1, written p v f.2)) l)
  | _ => t
  end.

Lemma written_elsewhere p v : forall t, p ∉ places t -> written p v t = t.
Proof.
  fix IH 1. intros [s|z|f| |q t|l] Hp; [done | done | done | done | |].
  - cbn in *. apply not_elem_of_cons in Hp as [Hq Hp]. rewrite (proj2 (Z.eqb_neq q p)) by congruence. by rewrite (IH t Hp).
  - cbn. f_equal. cbn in Hp. induction l as [|[k t] l IHl]; [done|]. cbn in *. apply not_elem_of_app in Hp as [Ht Hl].
    rewrite (IH t Ht). by rewrite (IHl Hl).
Qed.

(** A copy shows what the original shows, and what is written at any place of either
    leaves the other as it was. *)
Definition independent (t t' : tree) : Prop :=
  erase t' = erase t
  /\ (forall p v, p ∈ places t' -> written p v t = t)
  /\ (forall p v, p ∈ places t -> written p v t' = t').

Lemma copied_independent t t' n m : Forall (fun p => p < n) (places t) -> copied t t' n m -> independent t t'.
Proof.
  intros Ht [_ He Hn]. rewrite Forall_forall in Ht, Hn. split; [done|]. split; intros p v Hp; apply written_elsewhere; intros Hp'.
  - apply Hn in Hp. apply Ht in Hp'. lia.
  - apply Ht in Hp. apply Hn in Hp'. lia.
Qed.

(** [DeepCopyObject] of a kind, called through the interface. *)
Lemma object_copies {A O} `{Reflect A, Reflect O} (into : A -> Fresh A) (as_kind : ref A -> O) kind r n :
  copies into -> (forall r, reflect (as_kind r) = TNode [(kind, reflect (Some r))]) ->
  exists o' m,
    (c ← (p ← new; out ← into (held r); mret (Some (mkRef p out)));
     match c with Some c => mret (Some (as_kind c)) | None => mret None end) n = (Some o', m)
    /\ copied (reflect (as_kind r)) (reflect o') n m.
Proof.
  intros Hi Hk. pose proof (deep_copies into Hi (Some r) n) as H1. revert H1.
  unfold mbind, fresh_bind, new, mret, fresh_ret. destruct (into (held r) (n + 1)) as [out m]. intros H1.
  exists (as_kind (mkRef n out)), m. split; [done|]. rewrite !Hk. eapply copied_cons; [exact H1 | apply copied_nil].
Qed.
