(* ===== verification/DeepCopyV1.v ===== *)
(** * DeepCopyV1: [pkg/apis/ipam/v1alpha1/zz_generated.deepcopy.go]

    The deep copies of the versioned objects, function by function, over the places of
    Memory; what holds of them is stated for the internal objects in DeepCopyInternal,
    whose functions these are over the other package's types. *)

From Stdlib Require Import String.
From S2P Require Import Prelude Float Memory ApiV1 DeepCopy.
Open Scope string_scope.
Open Scope list_scope.

Section Copies.
Context {meta : MetaV1} {meta_copies : MetaCopies}.

Definition LocalRef_DeepCopyInto (in_ : LocalRef) : Fresh LocalRef :=
  mret in_.

Definition LocalRef_DeepCopy (in_ : pointer LocalRef) : Fresh (pointer LocalRef) :=
  match in_ with
  | None => mret None
  | Some in_ => p ← new; out ← LocalRef_DeepCopyInto (held in_); mret (Some (mkRef p out))
  end.

Definition ObjectRef_DeepCopyInto (in_ : ObjectRef) : Fresh ObjectRef :=
  mret in_.

Definition ObjectRef_DeepCopy (in_ : pointer ObjectRef) : Fresh (pointer ObjectRef) :=
  match in_ with
  | None => mret None
  | Some in_ => p ← new; out ← ObjectRef_DeepCopyInto (held in_); mret (Some (mkRef p out))
  end.

Definition ScopeRef_DeepCopyInto (in_ : ScopeRef) : Fresh ScopeRef :=
  mret in_.

Definition ScopeRef_DeepCopy (in_ : pointer ScopeRef) : Fresh (pointer ScopeRef) :=
  match in_ with
  | None => mret None
  | Some in_ => p ← new; out ← ScopeRef_DeepCopyInto (held in_); mret (Some (mkRef p out))
  end.

Definition ClassSourceRef_DeepCopyInto (in_ : ClassSourceRef) : Fresh ClassSourceRef :=
  mret in_.

Definition ClassSourceRef_DeepCopy (in_ : pointer ClassSourceRef) : Fresh (pointer ClassSourceRef) :=
  match in_ with
  | None => mret None
  | Some in_ => p ← new; out ← ClassSourceRef_DeepCopyInto (held in_); mret (Some (mkRef p out))
  end.

Definition PrefixLengthRange_DeepCopyInto (in_ : PrefixLengthRange) : Fresh PrefixLengthRange :=
  mret in_.

Definition PrefixLengthRange_DeepCopy (in_ : pointer PrefixLengthRange) : Fresh (pointer PrefixLengthRange) :=
  match in_ with
  | None => mret None
  | Some in_ => p ← new; out ← PrefixLengthRange_DeepCopyInto (held in_); mret (Some (mkRef p out))
  end.

Definition RoutingSpec_DeepCopyInto (in_ : RoutingSpec) : Fresh RoutingSpec :=
  mret in_.

Definition RoutingSpec_DeepCopy (in_ : pointer RoutingSpec) : Fresh (pointer RoutingSpec) :=
  match in_ with
  | None => mret None
  | Some in_ => p ← new; out ← RoutingSpec_DeepCopyInto (held in_); mret (Some (mkRef p out))
  end.

Definition ReservationSpec_DeepCopyInto (in_ : ReservationSpec) : Fresh ReservationSpec :=
  mret in_.

Definition ReservationSpec_DeepCopy (in_ : pointer ReservationSpec) : Fresh (pointer ReservationSpec) :=
  match in_ with
  | None => mret None
  | Some in_ => p ← new; out ← ReservationSpec_DeepCopyInto (held in_); mret (Some (mkRef p out))
  end.

Definition AllocationSpec_DeepCopyInto (in_ : AllocationSpec) : Fresh AllocationSpec :=
  mret in_.

Definition AllocationSpec_DeepCopy (in_ : pointer AllocationSpec) : Fresh (pointer AllocationSpec) :=
  match in_ with
  | None => mret None
  | Some in_ => p ← new; out ← AllocationSpec_DeepCopyInto (held in_); mret (Some (mkRef p out))
  end.

Definition PoolCapacity_DeepCopyInto (in_ : PoolCapacity) : Fresh PoolCapacity :=
  mret in_.

Definition PoolCapacity_DeepCopy (in_ : pointer PoolCapacity) : Fresh (pointer PoolCapacity) :=
  match in_ with
  | None => mret None
  | Some in_ => p ← new; out ← PoolCapacity_DeepCopyInto (held in_); mret (Some (mkRef p out))
  end.

Definition IPClassSpec_DeepCopyInto (in_ : IPClassSpec) : Fresh IPClassSpec :=
  Source ← copy_pointed (IPClassSpec_Source in_);
  PoolPer ← copy_slice (IPClassSpec_PoolPer in_);
  UniqueWithin ← copy_slice (IPClassSpec_UniqueWithin in_);
  AllowedPrefixLengths ← copy_pointed (IPClassSpec_AllowedPrefixLengths in_);
  Reservations ← copy_pointed (IPClassSpec_Reservations in_);
  RetentionLease ← copy_pointed (IPClassSpec_RetentionLease in_);
  Parameters ← copy_entries (IPClassSpec_Parameters in_);
  mret (mkIPClassSpec Source (IPClassSpec_IPFamily in_) (IPClassSpec_AddressScope in_)
      (IPClassSpec_ParentClassName in_) PoolPer UniqueWithin AllowedPrefixLengths
      (IPClassSpec_DefaultPrefixLength in_) Reservations (IPClassSpec_Routing in_) (IPClassSpec_Strategy in_)
      (IPClassSpec_ReclaimPolicy in_) RetentionLease (IPClassSpec_Provisioner in_) Parameters).

Definition IPClassSpec_DeepCopy (in_ : pointer IPClassSpec) : Fresh (pointer IPClassSpec) :=
  match in_ with
  | None => mret None
  | Some in_ => p ← new; out ← IPClassSpec_DeepCopyInto (held in_); mret (Some (mkRef p out))
  end.

Definition IPClassStatus_DeepCopyInto (in_ : IPClassStatus) : Fresh IPClassStatus :=
  Conditions ← copy_items Condition_DeepCopyInto (IPClassStatus_Conditions in_);
  mret (mkIPClassStatus (IPClassStatus_Phase in_) Conditions).

Definition IPClassStatus_DeepCopy (in_ : pointer IPClassStatus) : Fresh (pointer IPClassStatus) :=
  match in_ with
  | None => mret None
  | Some in_ => p ← new; out ← IPClassStatus_DeepCopyInto (held in_); mret (Some (mkRef p out))
  end.

Definition IPClass_DeepCopyInto (in_ : IPClass) : Fresh IPClass :=
  ObjectMeta ← DeepCopyInto (IPClass_ObjectMeta in_);
  Spec ← IPClassSpec_DeepCopyInto (IPClass_Spec in_);
  Status ← IPClassStatus_DeepCopyInto (IPClass_Status in_);
  mret (mkIPClass (IPClass_TypeMeta in_) ObjectMeta Spec Status).

Definition IPClass_DeepCopy (in_ : pointer IPClass) : Fresh (pointer IPClass) :=
  match in_ with
  | None => mret None
  | Some in_ => p ← new; out ← IPClass_DeepCopyInto (held in_); mret (Some (mkRef p out))
  end.

Definition IPClassList_DeepCopyInto (in_ : IPClassList) : Fresh IPClassList :=
  ListMeta ← ListMeta_DeepCopyInto (IPClassList_ListMeta in_);
  Items ← copy_items IPClass_DeepCopyInto (IPClassList_Items in_);
  mret (mkIPClassList (IPClassList_TypeMeta in_) ListMeta Items).

Definition IPClassList_DeepCopy (in_ : pointer IPClassList) : Fresh (pointer IPClassList) :=
  match in_ with
  | None => mret None
  | Some in_ => p ← new; out ← IPClassList_DeepCopyInto (held in_); mret (Some (mkRef p out))
  end.

Definition IPPoolSpec_DeepCopyInto (in_ : IPPoolSpec) : Fresh IPPoolSpec :=
  ParentPoolRef ← copy_pointed (IPPoolSpec_ParentPoolRef in_);
  ClassNames ← copy_slice (IPPoolSpec_ClassNames in_);
  ClassRef ← copy_pointed (IPPoolSpec_ClassRef in_);
  Scope ← copy_entries (IPPoolSpec_Scope in_);
  Reservations ← copy_pointed (IPPoolSpec_Reservations in_);
  MaxRetentionLease ← copy_pointed (IPPoolSpec_MaxRetentionLease in_);
  mret (mkIPPoolSpec (IPPoolSpec_CIDR in_) (IPPoolSpec_IPFamily in_) ParentPoolRef (IPPoolSpec_PrefixLength in_)
      ClassNames ClassRef Scope Reservations MaxRetentionLease (IPPoolSpec_Allocation in_)
      (IPPoolSpec_Visibility in_)).

Definition IPPoolSpec_DeepCopy (in_ : pointer IPPoolSpec) : Fresh (pointer IPPoolSpec) :=
  match in_ with
  | None => mret None
  | Some in_ => p ← new; out ← IPPoolSpec_DeepCopyInto (held in_); mret (Some (mkRef p out))
  end.

Definition IPPoolStatus_DeepCopyInto (in_ : IPPoolStatus) : Fresh IPPoolStatus :=
  Conditions ← copy_items Condition_DeepCopyInto (IPPoolStatus_Conditions in_);
  mret (mkIPPoolStatus (IPPoolStatus_Phase in_) (IPPoolStatus_AllocatedCIDR in_) (IPPoolStatus_IPFamily in_)
      (IPPoolStatus_ScopeDigest in_) (IPPoolStatus_Capacity in_) (IPPoolStatus_UtilizationPercent in_)
      Conditions).

Definition IPPoolStatus_DeepCopy (in_ : pointer IPPoolStatus) : Fresh (pointer IPPoolStatus) :=
  match in_ with
  | None => mret None
  | Some in_ => p ← new; out ← IPPoolStatus_DeepCopyInto (held in_); mret (Some (mkRef p out))
  end.

Definition IPPool_DeepCopyInto (in_ : IPPool) : Fresh IPPool :=
  ObjectMeta ← DeepCopyInto (IPPool_ObjectMeta in_);
  Spec ← IPPoolSpec_DeepCopyInto (IPPool_Spec in_);
  Status ← IPPoolStatus_DeepCopyInto (IPPool_Status in_);
  mret (mkIPPool (IPPool_TypeMeta in_) ObjectMeta Spec Status).

Definition IPPool_DeepCopy (in_ : pointer IPPool) : Fresh (pointer IPPool) :=
  match in_ with
  | None => mret None
  | Some in_ => p ← new; out ← IPPool_DeepCopyInto (held in_); mret (Some (mkRef p out))
  end.

Definition IPPoolList_DeepCopyInto (in_ : IPPoolList) : Fresh IPPoolList :=
  ListMeta ← ListMeta_DeepCopyInto (IPPoolList_ListMeta in_);
  Items ← copy_items IPPool_DeepCopyInto (IPPoolList_Items in_);
  mret (mkIPPoolList (IPPoolList_TypeMeta in_) ListMeta Items).

Definition IPPoolList_DeepCopy (in_ : pointer IPPoolList) : Fresh (pointer IPPoolList) :=
  match in_ with
  | None => mret None
  | Some in_ => p ← new; out ← IPPoolList_DeepCopyInto (held in_); mret (Some (mkRef p out))
  end.

Definition IPAllocationSpec_DeepCopyInto (in_ : IPAllocationSpec) : Fresh IPAllocationSpec :=
  ClaimRef ← copy_pointed (IPAllocationSpec_ClaimRef in_);
  Scope ← copy_entries (IPAllocationSpec_Scope in_);
  OwnerRef ← copy_pointed (IPAllocationSpec_OwnerRef in_);
  mret (mkIPAllocationSpec (IPAllocationSpec_IPFamily in_) (IPAllocationSpec_PoolRef in_)
      (IPAllocationSpec_ClassName in_) (IPAllocationSpec_Purpose in_) ClaimRef Scope
      (IPAllocationSpec_ReclaimPolicy in_) OwnerRef).

Definition IPAllocationSpec_DeepCopy (in_ : pointer IPAllocationSpec) : Fresh (pointer IPAllocationSpec) :=
  match in_ with
  | None => mret None
  | Some in_ => p ← new; out ← IPAllocationSpec_DeepCopyInto (held in_); mret (Some (mkRef p out))
  end.

Definition IPAllocationStatus_DeepCopyInto (in_ : IPAllocationStatus) : Fresh IPAllocationStatus :=
  Conditions ← copy_items Condition_DeepCopyInto (IPAllocationStatus_Conditions in_);
  mret (mkIPAllocationStatus (IPAllocationStatus_Phase in_) (IPAllocationStatus_AllocatedCIDR in_)
      (IPAllocationStatus_Address in_) (IPAllocationStatus_ScopeDigest in_) Conditions).

Definition IPAllocationStatus_DeepCopy (in_ : pointer IPAllocationStatus) : Fresh (pointer IPAllocationStatus) :=
  match in_ with
  | None => mret None
  | Some in_ => p ← new; out ← IPAllocationStatus_DeepCopyInto (held in_); mret (Some (mkRef p out))
  end.

Definition IPAllocation_DeepCopyInto (in_ : IPAllocation) : Fresh IPAllocation :=
  ObjectMeta ← DeepCopyInto (IPAllocation_ObjectMeta in_);
  Spec ← IPAllocationSpec_DeepCopyInto (IPAllocation_Spec in_);
  Status ← IPAllocationStatus_DeepCopyInto (IPAllocation_Status in_);
  mret (mkIPAllocation (IPAllocation_TypeMeta in_) ObjectMeta Spec Status).

Definition IPAllocation_DeepCopy (in_ : pointer IPAllocation) : Fresh (pointer IPAllocation) :=
  match in_ with
  | None => mret None
  | Some in_ => p ← new; out ← IPAllocation_DeepCopyInto (held in_); mret (Some (mkRef p out))
  end.

Definition IPAllocationList_DeepCopyInto (in_ : IPAllocationList) : Fresh IPAllocationList :=
  ListMeta ← ListMeta_DeepCopyInto (IPAllocationList_ListMeta in_);
  Items ← copy_items IPAllocation_DeepCopyInto (IPAllocationList_Items in_);
  mret (mkIPAllocationList (IPAllocationList_TypeMeta in_) ListMeta Items).

Definition IPAllocationList_DeepCopy (in_ : pointer IPAllocationList) : Fresh (pointer IPAllocationList) :=
  match in_ with
  | None => mret None
  | Some in_ => p ← new; out ← IPAllocationList_DeepCopyInto (held in_); mret (Some (mkRef p out))
  end.

Definition IPClaimSpec_DeepCopyInto (in_ : IPClaimSpec) : Fresh IPClaimSpec :=
  PrefixLength ← copy_pointed (IPClaimSpec_PrefixLength in_);
  Scope ← copy_entries (IPClaimSpec_Scope in_);
  OwnerRef ← copy_pointed (IPClaimSpec_OwnerRef in_);
  mret (mkIPClaimSpec (IPClaimSpec_ClassName in_) (IPClaimSpec_IPFamily in_) (IPClaimSpec_AddressScope in_)
      (IPClaimSpec_Address in_) PrefixLength Scope (IPClaimSpec_Target in_) (IPClaimSpec_ReclaimPolicy in_)
      OwnerRef).

Definition IPClaimSpec_DeepCopy (in_ : pointer IPClaimSpec) : Fresh (pointer IPClaimSpec) :=
  match in_ with
  | None => mret None
  | Some in_ => p ← new; out ← IPClaimSpec_DeepCopyInto (held in_); mret (Some (mkRef p out))
  end.

Definition IPClaimStatus_DeepCopyInto (in_ : IPClaimStatus) : Fresh IPClaimStatus :=
  PoolRef ← copy_pointed (IPClaimStatus_PoolRef in_);
  BoundAllocationRef ← copy_pointed (IPClaimStatus_BoundAllocationRef in_);
  Conditions ← copy_items Condition_DeepCopyInto (IPClaimStatus_Conditions in_);
  mret (mkIPClaimStatus (IPClaimStatus_Phase in_) (IPClaimStatus_AllocatedCIDR in_) (IPClaimStatus_Address in_)
      PoolRef BoundAllocationRef Conditions).

Definition IPClaimStatus_DeepCopy (in_ : pointer IPClaimStatus) : Fresh (pointer IPClaimStatus) :=
  match in_ with
  | None => mret None
  | Some in_ => p ← new; out ← IPClaimStatus_DeepCopyInto (held in_); mret (Some (mkRef p out))
  end.

Definition IPClaim_DeepCopyInto (in_ : IPClaim) : Fresh IPClaim :=
  ObjectMeta ← DeepCopyInto (IPClaim_ObjectMeta in_);
  Spec ← IPClaimSpec_DeepCopyInto (IPClaim_Spec in_);
  Status ← IPClaimStatus_DeepCopyInto (IPClaim_Status in_);
  mret (mkIPClaim (IPClaim_TypeMeta in_) ObjectMeta Spec Status).

Definition IPClaim_DeepCopy (in_ : pointer IPClaim) : Fresh (pointer IPClaim) :=
  match in_ with
  | None => mret None
  | Some in_ => p ← new; out ← IPClaim_DeepCopyInto (held in_); mret (Some (mkRef p out))
  end.

Definition IPClaimList_DeepCopyInto (in_ : IPClaimList) : Fresh IPClaimList :=
  ListMeta ← ListMeta_DeepCopyInto (IPClaimList_ListMeta in_);
  Items ← copy_items IPClaim_DeepCopyInto (IPClaimList_Items in_);
  mret (mkIPClaimList (IPClaimList_TypeMeta in_) ListMeta Items).

Definition IPClaimList_DeepCopy (in_ : pointer IPClaimList) : Fresh (pointer IPClaimList) :=
  match in_ with
  | None => mret None
  | Some in_ => p ← new; out ← IPClaimList_DeepCopyInto (held in_); mret (Some (mkRef p out))
  end.

(** What an interface value of type [runtime.Object] can hold: a pointer that is not nil
    to an object or a list. *)
Inductive RuntimeObject :=
| As_IPAllocation (in_ : ref IPAllocation)
| As_IPAllocationList (in_ : ref IPAllocationList)
| As_IPClaim (in_ : ref IPClaim)
| As_IPClaimList (in_ : ref IPClaimList)
| As_IPClass (in_ : ref IPClass)
| As_IPClassList (in_ : ref IPClassList)
| As_IPPool (in_ : ref IPPool)
| As_IPPoolList (in_ : ref IPPoolList).

Definition IPAllocation_DeepCopyObject (in_ : pointer IPAllocation) : Fresh (option RuntimeObject) :=
  c ← IPAllocation_DeepCopy in_;
  match c with Some c => mret (Some (As_IPAllocation c)) | None => mret None end.

Definition IPAllocationList_DeepCopyObject (in_ : pointer IPAllocationList) : Fresh (option RuntimeObject) :=
  c ← IPAllocationList_DeepCopy in_;
  match c with Some c => mret (Some (As_IPAllocationList c)) | None => mret None end.

Definition IPClaim_DeepCopyObject (in_ : pointer IPClaim) : Fresh (option RuntimeObject) :=
  c ← IPClaim_DeepCopy in_;
  match c with Some c => mret (Some (As_IPClaim c)) | None => mret None end.

Definition IPClaimList_DeepCopyObject (in_ : pointer IPClaimList) : Fresh (option RuntimeObject) :=
  c ← IPClaimList_DeepCopy in_;
  match c with Some c => mret (Some (As_IPClaimList c)) | None => mret None end.

Definition IPClass_DeepCopyObject (in_ : pointer IPClass) : Fresh (option RuntimeObject) :=
  c ← IPClass_DeepCopy in_;
  match c with Some c => mret (Some (As_IPClass c)) | None => mret None end.

Definition IPClassList_DeepCopyObject (in_ : pointer IPClassList) : Fresh (option RuntimeObject) :=
  c ← IPClassList_DeepCopy in_;
  match c with Some c => mret (Some (As_IPClassList c)) | None => mret None end.

Definition IPPool_DeepCopyObject (in_ : pointer IPPool) : Fresh (option RuntimeObject) :=
  c ← IPPool_DeepCopy in_;
  match c with Some c => mret (Some (As_IPPool c)) | None => mret None end.

Definition IPPoolList_DeepCopyObject (in_ : pointer IPPoolList) : Fresh (option RuntimeObject) :=
  c ← IPPoolList_DeepCopy in_;
  match c with Some c => mret (Some (As_IPPoolList c)) | None => mret None end.

(** The call through the interface. *)
Definition DeepCopyObject (o : RuntimeObject) : Fresh (option RuntimeObject) :=
  match o with
  | As_IPAllocation r => IPAllocation_DeepCopyObject (Some r)
  | As_IPAllocationList r => IPAllocationList_DeepCopyObject (Some r)
  | As_IPClaim r => IPClaim_DeepCopyObject (Some r)
  | As_IPClaimList r => IPClaimList_DeepCopyObject (Some r)
  | As_IPClass r => IPClass_DeepCopyObject (Some r)
  | As_IPClassList r => IPClassList_DeepCopyObject (Some r)
  | As_IPPool r => IPPool_DeepCopyObject (Some r)
  | As_IPPoolList r => IPPoolList_DeepCopyObject (Some r)
  end.

#[export] Instance reflect_RuntimeObject : Reflect RuntimeObject := fun o =>
  match o with
  | As_IPAllocation r => TNode [("IPAllocation", reflect (Some r))]
  | As_IPAllocationList r => TNode [("IPAllocationList", reflect (Some r))]
  | As_IPClaim r => TNode [("IPClaim", reflect (Some r))]
  | As_IPClaimList r => TNode [("IPClaimList", reflect (Some r))]
  | As_IPClass r => TNode [("IPClass", reflect (Some r))]
  | As_IPClassList r => TNode [("IPClassList", reflect (Some r))]
  | As_IPPool r => TNode [("IPPool", reflect (Some r))]
  | As_IPPoolList r => TNode [("IPPoolList", reflect (Some r))]
  end.

(** ** Every function copies *)

Context {laws : MetaLaws} {copies_laws : MetaCopiesLaws}.

#[local] Instance LocalRef_flat : Flat LocalRef.
Proof. done. Qed.

#[local] Instance ObjectRef_flat : Flat ObjectRef.
Proof. done. Qed.

#[local] Instance ScopeRef_flat : Flat ScopeRef.
Proof. done. Qed.

#[local] Instance ClassSourceRef_flat : Flat ClassSourceRef.
Proof. done. Qed.

#[local] Instance PrefixLengthRange_flat : Flat PrefixLengthRange.
Proof. done. Qed.

#[local] Instance RoutingSpec_flat : Flat RoutingSpec.
Proof. done. Qed.

#[local] Instance ReservationSpec_flat : Flat ReservationSpec.
Proof. done. Qed.

#[local] Instance AllocationSpec_flat : Flat AllocationSpec.
Proof. done. Qed.

#[local] Instance PoolCapacity_flat : Flat PoolCapacity.
Proof. done. Qed.

#[local] Hint Resolve DeepCopyInto_copies : copies.

Lemma LocalRef_v1_copies : copies LocalRef_DeepCopyInto.
Proof. copy_object LocalRef_DeepCopyInto. Qed.
#[local] Hint Resolve LocalRef_v1_copies : copies.

Lemma ObjectRef_v1_copies : copies ObjectRef_DeepCopyInto.
Proof. copy_object ObjectRef_DeepCopyInto. Qed.
#[local] Hint Resolve ObjectRef_v1_copies : copies.

Lemma ScopeRef_v1_copies : copies ScopeRef_DeepCopyInto.
Proof. copy_object ScopeRef_DeepCopyInto. Qed.
#[local] Hint Resolve ScopeRef_v1_copies : copies.

Lemma ClassSourceRef_v1_copies : copies ClassSourceRef_DeepCopyInto.
Proof. copy_object ClassSourceRef_DeepCopyInto. Qed.
#[local] Hint Resolve ClassSourceRef_v1_copies : copies.

Lemma PrefixLengthRange_v1_copies : copies PrefixLengthRange_DeepCopyInto.
Proof. copy_object PrefixLengthRange_DeepCopyInto. Qed.
#[local] Hint Resolve PrefixLengthRange_v1_copies : copies.

Lemma RoutingSpec_v1_copies : copies RoutingSpec_DeepCopyInto.
Proof. copy_object RoutingSpec_DeepCopyInto. Qed.
#[local] Hint Resolve RoutingSpec_v1_copies : copies.

Lemma ReservationSpec_v1_copies : copies ReservationSpec_DeepCopyInto.
Proof. copy_object ReservationSpec_DeepCopyInto. Qed.
#[local] Hint Resolve ReservationSpec_v1_copies : copies.

Lemma AllocationSpec_v1_copies : copies AllocationSpec_DeepCopyInto.
Proof. copy_object AllocationSpec_DeepCopyInto. Qed.
#[local] Hint Resolve AllocationSpec_v1_copies : copies.

Lemma PoolCapacity_v1_copies : copies PoolCapacity_DeepCopyInto.
Proof. copy_object PoolCapacity_DeepCopyInto. Qed.
#[local] Hint Resolve PoolCapacity_v1_copies : copies.

Lemma IPClassSpec_v1_copies : copies IPClassSpec_DeepCopyInto.
Proof. copy_object IPClassSpec_DeepCopyInto. Qed.
#[local] Hint Resolve IPClassSpec_v1_copies : copies.

Lemma IPClassStatus_v1_copies : copies IPClassStatus_DeepCopyInto.
Proof. copy_object IPClassStatus_DeepCopyInto. Qed.
#[local] Hint Resolve IPClassStatus_v1_copies : copies.

Lemma IPClass_v1_copies : copies IPClass_DeepCopyInto.
Proof. copy_object IPClass_DeepCopyInto. Qed.
#[local] Hint Resolve IPClass_v1_copies : copies.

Lemma IPClassList_v1_copies : copies IPClassList_DeepCopyInto.
Proof. copy_object IPClassList_DeepCopyInto. Qed.
#[local] Hint Resolve IPClassList_v1_copies : copies.

Lemma IPPoolSpec_v1_copies : copies IPPoolSpec_DeepCopyInto.
Proof. copy_object IPPoolSpec_DeepCopyInto. Qed.
#[local] Hint Resolve IPPoolSpec_v1_copies : copies.

Lemma IPPoolStatus_v1_copies : copies IPPoolStatus_DeepCopyInto.
Proof. copy_object IPPoolStatus_DeepCopyInto. Qed.
#[local] Hint Resolve IPPoolStatus_v1_copies : copies.

Lemma IPPool_v1_copies : copies IPPool_DeepCopyInto.
Proof. copy_object IPPool_DeepCopyInto. Qed.
#[local] Hint Resolve IPPool_v1_copies : copies.

Lemma IPPoolList_v1_copies : copies IPPoolList_DeepCopyInto.
Proof. copy_object IPPoolList_DeepCopyInto. Qed.
#[local] Hint Resolve IPPoolList_v1_copies : copies.

Lemma IPAllocationSpec_v1_copies : copies IPAllocationSpec_DeepCopyInto.
Proof. copy_object IPAllocationSpec_DeepCopyInto. Qed.
#[local] Hint Resolve IPAllocationSpec_v1_copies : copies.

Lemma IPAllocationStatus_v1_copies : copies IPAllocationStatus_DeepCopyInto.
Proof. copy_object IPAllocationStatus_DeepCopyInto. Qed.
#[local] Hint Resolve IPAllocationStatus_v1_copies : copies.

Lemma IPAllocation_v1_copies : copies IPAllocation_DeepCopyInto.
Proof. copy_object IPAllocation_DeepCopyInto. Qed.
#[local] Hint Resolve IPAllocation_v1_copies : copies.

Lemma IPAllocationList_v1_copies : copies IPAllocationList_DeepCopyInto.
Proof. copy_object IPAllocationList_DeepCopyInto. Qed.
#[local] Hint Resolve IPAllocationList_v1_copies : copies.

Lemma IPClaimSpec_v1_copies : copies IPClaimSpec_DeepCopyInto.
Proof. copy_object IPClaimSpec_DeepCopyInto. Qed.
#[local] Hint Resolve IPClaimSpec_v1_copies : copies.

Lemma IPClaimStatus_v1_copies : copies IPClaimStatus_DeepCopyInto.
Proof. copy_object IPClaimStatus_DeepCopyInto. Qed.
#[local] Hint Resolve IPClaimStatus_v1_copies : copies.

Lemma IPClaim_v1_copies : copies IPClaim_DeepCopyInto.
Proof. copy_object IPClaim_DeepCopyInto. Qed.
#[local] Hint Resolve IPClaim_v1_copies : copies.

Lemma IPClaimList_v1_copies : copies IPClaimList_DeepCopyInto.
Proof. copy_object IPClaimList_DeepCopyInto. Qed.
#[local] Hint Resolve IPClaimList_v1_copies : copies.

(** The call through the interface answers an object of the same kind, copied. *)
Lemma DeepCopyObject_v1_copies o n :
  exists o' m, DeepCopyObject o n = (Some o', m) /\ copied (reflect o) (reflect o') n m.
Proof.
  destruct o as [r|r|r|r|r|r|r|r].
  - exact (object_copies IPAllocation_DeepCopyInto As_IPAllocation _ r n IPAllocation_v1_copies (fun _ => eq_refl)).
  - exact (object_copies IPAllocationList_DeepCopyInto As_IPAllocationList _ r n IPAllocationList_v1_copies (fun _ => eq_refl)).
  - exact (object_copies IPClaim_DeepCopyInto As_IPClaim _ r n IPClaim_v1_copies (fun _ => eq_refl)).
  - exact (object_copies IPClaimList_DeepCopyInto As_IPClaimList _ r n IPClaimList_v1_copies (fun _ => eq_refl)).
  - exact (object_copies IPClass_DeepCopyInto As_IPClass _ r n IPClass_v1_copies (fun _ => eq_refl)).
  - exact (object_copies IPClassList_DeepCopyInto As_IPClassList _ r n IPClassList_v1_copies (fun _ => eq_refl)).
  - exact (object_copies IPPool_DeepCopyInto As_IPPool _ r n IPPool_v1_copies (fun _ => eq_refl)).
  - exact (object_copies IPPoolList_DeepCopyInto As_IPPoolList _ r n IPPoolList_v1_copies (fun _ => eq_refl)).
Qed.

(** A deep copy of a versioned object shows what the original shows, and what is written
    through either leaves the other as it was. *)
Theorem deep_copy_versioned (o : RuntimeObject) n : Forall (fun p => (p < n)%Z) (places (reflect o)) ->
  exists o', (DeepCopyObject o n).1 = Some o' /\ independent (reflect o) (reflect o').
Proof.
  intros Ho. destruct (DeepCopyObject_v1_copies o n) as (o' & m & -> & H). exists o'. split; [done|]. by eapply copied_independent.
Qed.

End Copies.

(** ** A concrete object *)

#[local] Existing Instance Conversion.ex_meta.
#[local] Existing Instance Conversion.ex_laws.
#[local] Instance ex_copies : MetaCopies := {| ListMeta_DeepCopyInto := copy_pointed; Condition_DeepCopyInto c := mret c |}.
#[local] Instance ex_copies_laws : MetaCopiesLaws.
Proof. constructor; [apply (copy_pointed_copies (A := Z)) | apply (same_copies (A := string))]. Qed.

Definition ex_claim : RuntimeObject :=
  As_IPClaim (mkRef 0%Z (mkIPClaim "IPClaim" ("web", Some (mkRef 1%Z {["app" := "web"]}))
    (mkIPClaimSpec "net" "IPv4" "" "" (Some (mkRef 2%Z 24%Z))
      (Some (mkRef 3%Z {["network" := mkScopeRef "networking" "Network" "default"]})) "" "" None)
    (mkIPClaimStatus "Bound" "" "" (Some (mkRef 4%Z (mkLocalRef "p"))) None (Some (mkRef 5%Z ["Ready"]))))).

Lemma deep_copy_versioned_witness : exists o', (DeepCopyObject ex_claim 6%Z).1 = Some o' /\ independent (reflect ex_claim) (reflect o').
Proof. apply (deep_copy_versioned ex_claim 6%Z). repeat (apply Forall_cons_2; [vm_compute; reflexivity|]). apply Forall_nil_2. Defined.
