(* ===== verification/Selectors.v ===== *)
(** * Selectors: field selectors on a LIST

    [pkg/apis/ipam/v1alpha1/fieldlabels.go] says which fields a request may name, the
    [SelectableFields] of each strategy which it is matched against, and the store
    filters the rows it read with the result.  [selectors_exact]: the fields both
    sides know select exactly the objects that hold the value.
    [scope_digest_selects_nothing]: [status.scopeDigest] is accepted and no strategy
    offers it, so a list by digest is empty whatever is stored. *)

From Stdlib Require Import Ascii String.
From S2P Require Import Prelude Text Net Cidr Tenant Scope NetText Types Db Errors Class Changelog Store.
Open Scope string_scope.
Open Scope list_scope.
Open Scope Z_scope.

(** ** Which labels a request may name *)

Definition permitted (namespaced : bool) (allowed : list string) : list string :=
  "metadata.name" :: (if namespaced then ["metadata.namespace"] else []) ++ allowed.

Definition fieldLabelConversion (namespaced : bool) (allowed : list string) (label value : string)
    : result string (string * string) :=
  if existsb (String.eqb label) (permitted namespaced allowed) then Ok (label, value)
  else Err ("field label not supported: " +:+ label).

(** The kinds with a conversion: whether they are namespaced, and their labels. *)
Definition field_labels (kind : string) : option (bool * list string) :=
  if String.eqb kind "IPPool" then Some (false, ["spec.ipFamily"; "spec.parentPoolRef.name"; "status.scopeDigest"])
  else if String.eqb kind "IPClass" then Some (false, ["spec.ipFamily"; "spec.parentClassName"; "spec.source.project"])
  else if String.eqb kind "IPAllocation" then Some (true, ["spec.ipFamily"; "spec.poolRef.name"; "status.scopeDigest"])
  else if String.eqb kind "IPClaim" then Some (true, ["spec.className"; "status.poolRef.name"])
  else None.

Definition addFieldLabelConversions (kind : string) : option (string -> string -> result string (string * string)) :=
  option_map (fun k => fieldLabelConversion k.1 k.2) (field_labels kind).

(** ** The generic registry's field sets

    [ObjectMetaFieldsSet] has the name, and the namespace of a namespaced object;
    [MergeFieldsSets] adds a fragment, which wins; a set has the empty value for a
    field it lacks; [=] and [!=] compare with that value. *)
Class FieldSets := {
  ObjectMetaFieldsSet : string -> string -> bool -> gmap string string;
  MergeFieldsSets : gmap string string -> gmap string string -> gmap string string;
  SelectorMatches : list (string * bool * string) -> gmap string string -> bool   (* field, [=] or [!=], value *)
}.

Class FieldSetLaws {fs : FieldSets} : Prop := {
  ObjectMetaFieldsSet_spec : forall name ns namespaced,
    ObjectMetaFieldsSet name ns namespaced
    = (if namespaced : bool then <["metadata.namespace" := ns]> else id) {["metadata.name" := name]};
  MergeFieldsSets_spec : forall source fragment, MergeFieldsSets source fragment = fragment ∪ source;
  SelectorMatches_spec : forall terms set,
    SelectorMatches terms set
    = forallb (fun t => Bool.eqb t.1.2 (String.eqb (default "" (set !! t.1.1)) t.2)) terms
}.

Section Selectors.
Context {fs : FieldSets}.

(** ** What each strategy offers *)

Definition pool_SelectableFields (p : IPPool) : gmap string string :=
  let parentName := match ps_ParentPoolRef (pl_Spec p) with Some r => lr_Name r | None => "" end in
  MergeFieldsSets (ObjectMetaFieldsSet (pl_Name p) "" false)
    {["spec.ipFamily" := ps_IPFamily (pl_Spec p); "spec.parentPoolRef.name" := parentName]}.

Definition class_SelectableFields (c : IPClass) : gmap string string :=
  let sourceProject := match cs_Source (cl_Spec c) with Some s => csr_Project s | None => "" end in
  MergeFieldsSets (ObjectMetaFieldsSet (cl_Name c) "" false)
    {["spec.ipFamily" := cs_IPFamily (cl_Spec c); "spec.parentClassName" := cs_ParentClassName (cl_Spec c);
      "spec.source.project" := sourceProject]}.

Definition allocation_SelectableFields (a : IPAllocation) : gmap string string :=
  MergeFieldsSets (ObjectMetaFieldsSet (al_Name a) (al_Namespace a) true)
    {["spec.ipFamily" := als_IPFamily (al_Spec a); "spec.poolRef.name" := lr_Name (als_PoolRef (al_Spec a))]}.

Definition claim_SelectableFields (c : IPClaim) : gmap string string :=
  let poolRefName := match icst_PoolRef (ic_Status c) with Some r => lr_Name r | None => "" end in
  MergeFieldsSets (ObjectMetaFieldsSet (ic_Name c) (ic_Namespace c) true)
    {["spec.className" := ics_ClassName (ic_Spec c); "status.poolRef.name" := poolRefName]}.

(** The field half of [GetAttrs]: [None] is its error for an object of another kind. *)
Definition GetAttrs (kind : string) (obj : Document) : option (gmap string string) :=
  if String.eqb kind "IPPool" then option_map pool_SelectableFields (as_pool obj)
  else if String.eqb kind "IPClass" then option_map class_SelectableFields (as_class obj)
  else if String.eqb kind "IPAllocation" then option_map allocation_SelectableFields (as_allocation obj)
  else if String.eqb kind "IPClaim" then option_map claim_SelectableFields (as_claim obj)
  else None.

(** [Match], with labels that select everything: the predicate the store is handed. *)
Definition Match (kind : string) (terms : list (string * bool * string)) (obj : Document) : option bool :=
  option_map (SelectorMatches terms) (GetAttrs kind obj).

(** ** A list request *)

(** The terms as the request states them, converted one by one. *)
Fixpoint convert_terms (conv : string -> string -> result string (string * string)) (terms : list (string * bool * string))
    : result string (list (string * bool * string)) :=
  match terms with
  | [] => Ok []
  | (label, eq, value) :: rest =>
    lv ← conv label value;
    rest ← convert_terms conv rest;
    Ok ((lv.1, eq, lv.2) :: rest)
  end.

(** A LIST of a kind under a key: the outer error refuses the selector. *)
Definition list_selected {E} (cd : Codec Document) (kind : string) (id : Identity) (key : string)
    (terms : list (string * bool * string)) (t1 : Tables) (xmin2 : Z) (t2 : Tables)
    : result string (result (StorageErr E) (list Document * Z)) :=
  match addFieldLabelConversions kind with
  | None => Err "no conversion"
  | Some conv =>
    terms ← convert_terms conv terms;
    Ok (GetList cd id key true (Some (Match kind terms)) t1 xmin2 t2)
  end.

(** ** What a selector means *)

(** The field an object has under a label: the path into its document. *)
Definition field_of (obj : Document) (label : string) : string :=
  match obj with
  | DocPool p =>
    if String.eqb label "metadata.name" then pl_Name p
    else if String.eqb label "spec.ipFamily" then ps_IPFamily (pl_Spec p)
    else if String.eqb label "spec.parentPoolRef.name" then from_option lr_Name "" (ps_ParentPoolRef (pl_Spec p))
    else if String.eqb label "status.scopeDigest" then pst_ScopeDigest (pl_Status p) else ""
  | DocClass c =>
    if String.eqb label "metadata.name" then cl_Name c
    else if String.eqb label "spec.ipFamily" then cs_IPFamily (cl_Spec c)
    else if String.eqb label "spec.parentClassName" then cs_ParentClassName (cl_Spec c)
    else if String.eqb label "spec.source.project" then from_option csr_Project "" (cs_Source (cl_Spec c)) else ""
  | DocAllocation a =>
    if String.eqb label "metadata.name" then al_Name a
    else if String.eqb label "metadata.namespace" then al_Namespace a
    else if String.eqb label "spec.ipFamily" then als_IPFamily (al_Spec a)
    else if String.eqb label "spec.poolRef.name" then lr_Name (als_PoolRef (al_Spec a))
    else if String.eqb label "status.scopeDigest" then alst_ScopeDigest (al_Status a) else ""
  | DocClaim c =>
    if String.eqb label "metadata.name" then ic_Name c
    else if String.eqb label "metadata.namespace" then ic_Namespace c
    else if String.eqb label "spec.className" then ics_ClassName (ic_Spec c)
    else if String.eqb label "status.poolRef.name" then from_option lr_Name "" (icst_PoolRef (ic_Status c)) else ""
  | DocOther _ _ _ => ""
  end.

Context {laws : FieldSetLaws}.

Lemma fieldLabelConversion_ok namespaced allowed label value lv :
  fieldLabelConversion namespaced allowed label value = Ok lv -> lv = (label, value) /\ label ∈ permitted namespaced allowed.
Proof.
  unfold fieldLabelConversion. destruct (existsb _ _) eqn:He; [|done]. intros [= <-]. split; [done|].
  apply existsb_exists in He as (l & Hl & ->%String.eqb_eq). by apply list_elem_of_In.
Qed.

(** The value the attributes of an object have under a permitted label. *)
Lemma GetAttrs_value kind k label obj set :
  field_labels kind = Some k -> label ∈ permitted k.1 k.2 -> GetAttrs kind obj = Some set ->
  default "" (set !! label) = if String.eqb label "status.scopeDigest" then "" else field_of obj label.
Proof.
  unfold field_labels, GetAttrs.
  destruct (String.eqb kind "IPPool"); [|destruct (String.eqb kind "IPClass");
    [|destruct (String.eqb kind "IPAllocation"); [|destruct (String.eqb kind "IPClaim"); [|done]]]].
  all: intros [= <-] Hl; destruct obj; try done; intros [= <-].
  all: unfold pool_SelectableFields, class_SelectableFields, allocation_SelectableFields, claim_SelectableFields;
    rewrite MergeFieldsSets_spec, ObjectMetaFieldsSet_spec.
  all: cbn [permitted app fst snd] in Hl;
    repeat (apply elem_of_cons in Hl as [-> | Hl]; [vm_compute; reflexivity |]); by apply not_elem_of_nil in Hl.
Qed.

Lemma convert_terms_ok namespaced allowed terms terms' :
  convert_terms (fieldLabelConversion namespaced allowed) terms = Ok terms' ->
  terms' = terms /\ Forall (fun t => t.1.1 ∈ permitted namespaced allowed) terms.
Proof.
  revert terms'. induction terms as [|[[label eq] value] terms IH]; intros terms'; cbn [convert_terms].
  { intros [= <-]. by split. }
  intros (lv & H & (rest & Hr & [= <-])%result_bind_ok)%result_bind_ok.
  apply fieldLabelConversion_ok in H as [-> Hl]. apply IH in Hr as [-> Hf]. split; [done | by constructor].
Qed.

(** What the terms ask of an object. *)
Definition holds_terms (terms : list (string * bool * string)) (obj : Document) : bool :=
  forallb (fun t => Bool.eqb t.1.2 (String.eqb (field_of obj t.1.1) t.2)) terms.

Lemma Match_exact kind k terms obj keep :
  field_labels kind = Some k -> Forall (fun t => t.1.1 ∈ permitted k.1 k.2) terms ->
  Forall (fun t => t.1.1 <> "status.scopeDigest") terms -> Match kind terms obj = Some keep ->
  keep = holds_terms terms obj.
Proof.
  intros Hk Hp Hd. unfold Match. destruct (GetAttrs kind obj) as [set|] eqn:Hg; [|done]. intros [= <-].
  rewrite SelectorMatches_spec. unfold holds_terms. induction Hd as [|t terms Ht _ IH]; [done|].
  apply Forall_cons in Hp as [Ht' Hp]. cbn [forallb]. rewrite (IH Hp). f_equal. f_equal.
  rewrite (GetAttrs_value kind k t.1.1 obj set) by done. by rewrite (proj2 (String.eqb_neq _ _) Ht).
Qed.

Lemma list_items_filter {E} (cd : Codec Document) (p : Document -> option bool) (q : Document -> bool) rows items :
  (forall obj keep, p obj = Some keep -> keep = q obj) ->
  list_items (E := E) cd (Some p) rows = Ok items ->
  exists all, list_items (E := E) cd None rows = Ok all /\ items = List.filter q all.
Proof.
  intros Hq. revert items. induction rows as [|[key row] rows IH]; intros items; cbn [list_items]; [intros [= <-]; by exists []|].
  destruct (decode cd (so_data row) (so_rv row)) as [obj|]; [|done]. cbn [matchesPredicate].
  destruct (p obj) as [keep|] eqn:Hp; [|done]. apply Hq in Hp as ->.
  destruct (list_items cd (Some p) rows) as [its|]; [|done]. intros [= <-].
  destruct (IH its eq_refl) as (all & -> & ->). exists (obj :: all). split; [done|]. cbn. by destruct (q obj).
Qed.

(** [C27] A field selector answers what it asks.  When a LIST with selectors is served, no
    selector naming [status.scopeDigest], its items are exactly the objects of the
    LIST without selectors whose fields hold the values asked for, or do not where
    the selector is negated. *)
Theorem selectors_exact {E} (cd : Codec Document) kind id key terms t1 xmin2 t2 items rv :
  list_selected (E := E) cd kind id key terms t1 xmin2 t2 = Ok (Ok (items, rv)) ->
  Forall (fun t => t.1.1 <> "status.scopeDigest") terms ->
  exists all, GetList (E := E) cd id key true None t1 xmin2 t2 = Ok (all, rv)
    /\ items = List.filter (holds_terms terms) all.
Proof.
  unfold list_selected, addFieldLabelConversions. destruct (field_labels kind) as [k|] eqn:Hk; [|done]. cbn [option_map].
  intros (terms' & Hc & [= H])%result_bind_ok Hd. apply convert_terms_ok in Hc as [-> Hp]. revert H. unfold GetList.
  destruct (list_items cd (Some (Match kind terms)) _) as [its|] eqn:Hl; [|done]. intros [= <- <-].
  destruct (list_items_filter cd _ (holds_terms terms) _ _ (fun obj keep => Match_exact kind k terms obj keep Hk Hp Hd) Hl)
    as (all & -> & ->). by exists all.
Qed.

(** A pool or an allocation is never found by its scope digest.  The selector is
    accepted, and the list it answers is empty whatever is stored: no strategy offers
    the field, so every object is matched as if its digest were empty. *)
Theorem scope_digest_selects_nothing {E} (cd : Codec Document) kind id key digest t1 xmin2 t2 :
  kind = "IPPool" \/ kind = "IPAllocation" -> digest <> "" ->
  exists answer, list_selected (E := E) cd kind id key [("status.scopeDigest", true, digest)] t1 xmin2 t2 = Ok answer
    /\ forall items rv, answer = Ok (items, rv) -> items = [].
Proof.
  intros Hk Hd. eexists. split; [destruct Hk as [-> | ->]; reflexivity|]. intros items rv. unfold GetList.
  destruct (list_items cd _ _) as [its|] eqn:Hl; [|done]. intros [= <- _].
  apply (list_items_filter cd _ (fun _ => false)) in Hl as (all & _ & ->); [by induction all|].
  intros obj keep. unfold Match. destruct (GetAttrs kind obj) as [set|] eqn:Hg; [|done]. intros [= <-].
  rewrite SelectorMatches_spec. cbn [forallb fst snd]. rewrite andb_true_r.
  assert (exists k, field_labels kind = Some k /\ "status.scopeDigest" ∈ permitted k.1 k.2) as (k & Hk' & Hp).
  { destruct Hk as [-> | ->]; eexists; (split; [reflexivity|]); apply list_elem_of_In; vm_compute; tauto. }
  rewrite (GetAttrs_value kind k "status.scopeDigest" obj set) by done.
  rewrite String.eqb_refl. by destruct (String.eqb_spec "" digest) as [<-|].
Qed.
End Selectors.

(** ** Concrete requests *)

#[export] Instance plain_fields : FieldSets := {|
  ObjectMetaFieldsSet name ns namespaced :=
    (if namespaced : bool then <["metadata.namespace" := ns]> else id) {["metadata.name" := name]};
  MergeFieldsSets source fragment := fragment ∪ source;
  SelectorMatches terms set := forallb (fun t => Bool.eqb t.1.2 (String.eqb (default "" (set !! t.1.1)) t.2)) terms
|}.

#[export] Instance plain_field_laws : FieldSetLaws.
Proof. by constructor. Qed.

Definition sel_pool (name family digest : string) : IPPool :=
  mkPool (mkMeta name ∅ ∅)
    (mkPoolSpec "" family None 0 [] None ∅ None None (mkAllocationSpec 0 0 "") "")
    (mkPoolStatus PoolReady "" family digest (mkCapacity "" "" "") Float.f_zero).

(** A codec whose documents are the names of two pools. *)
Definition sel_codec : Codec Document :=
  mkCodec (fun _ => None)
    (fun data => if String.eqb data "red" then Some (DocPool (sel_pool "red" IPv4 "d1"))
                 else if String.eqb data "blue" then Some (DocPool (sel_pool "blue" IPv6 "d2")) else None)
    (fun d _ => Some d) (fun _ => None) (fun _ => None) (fun _ => None) doc_kind (DocOther "" ∅ "").

Definition sel_key : string := "/ipam.miloapis.com/ippools".
Definition sel_row (name : string) : string * StoredRow :=
  ("project/alpha" +:+ sel_key +:+ "/" +:+ name, mkStored 1 "IPPool" "" name name "{}").
Definition sel_tables : Tables := mkTables (list_to_map [sel_row "red"; sel_row "blue"]) [].

Lemma selectors_exact_witness :
  exists all, GetList (E := unit) sel_codec (named "alpha") sel_key true None sel_tables 5 sel_tables = Ok (all, 1)
    /\ [DocPool (sel_pool "red" IPv4 "d1")] = List.filter (holds_terms [("spec.ipFamily", true, "IPv4")]) all.
Proof.
  apply (selectors_exact sel_codec "IPPool" (named "alpha") sel_key [("spec.ipFamily", true, "IPv4")] sel_tables 5 sel_tables).
  - vm_compute. reflexivity.
  - constructor; [discriminate | constructor].
Defined.

Lemma scope_digest_selects_nothing_witness :
  exists answer, list_selected (E := unit) sel_codec "IPPool" (named "alpha") sel_key [("status.scopeDigest", true, "d1")]
      sel_tables 5 sel_tables = Ok answer
    /\ forall items rv, answer = Ok (items, rv) -> items = [].
Proof. apply scope_digest_selects_nothing; [by left | discriminate]. Defined.

(** The pool with that digest is among the rows read. *)
Example digest_stored : match GetList (E := unit) sel_codec (named "alpha") sel_key true None sel_tables 5 sel_tables with
  | Ok (items, _) => map (fun obj => field_of obj "status.scopeDigest") items
  | Err _ => []
  end = ["d2"; "d1"].
Proof. vm_compute. reflexivity. Qed.
