(* ===== verification/Quota.v ===== *)
(** * Quota: the admission chain of [cmd/ipam/admission.go]

    With quota enforcement on, the tenant of a request is mirrored onto the context
    the platform's quota plugin reads ([consumerContextFilter]), and a guard in front
    of that plugin refuses to create a claim nobody can be charged for.
    [claim_create_has_consumer]: a create that gets through was charged to the tenant
    the claim handler stores it under.  [organization_reaches_project]: that tenant is
    a name; an organization and a project of one name share their keys.

    The quota plugin and the generic server's chain are arguments. *)

From Stdlib Require Import Ascii String.
From S2P Require Import Prelude Text Net Cidr Tenant Scope NetText Types Db Errors.
Open Scope string_scope.
Open Scope list_scope.
Open Scope Z_scope.

(** ** The request *)

(** What the context of a request carries: the authenticated user's extras, and the
    platform's own keys for the consumer. *)
Record RequestContext := mkContext {
  rc_user : option Extras;
  rc_project : option string;
  rc_organization : option string
}.

Definition WithProject (ctx : RequestContext) (p : string) : RequestContext :=
  mkContext (rc_user ctx) (Some p) (rc_organization ctx).
Definition WithOrganization (ctx : RequestContext) (o : string) : RequestContext :=
  mkContext (rc_user ctx) (rc_project ctx) (Some o).

Inductive Operation := OpCreate | OpUpdate | OpDelete | OpConnect.

Record Attributes := mkAttributes {
  at_Operation : Operation;
  at_Group : string;
  at_Resource : string;
  at_Name : string
}.

(** A validating plugin: its refusal, if any. *)
Definition Validator := RequestContext -> Attributes -> option GoErr.

(** ** The consumer context *)

Definition filtered (ctx : RequestContext) : RequestContext :=
  let id := FromContext (rc_user ctx) in
  if negb (String.eqb (Identity_Project id) "") then WithProject ctx (Identity_Project id)
  else if negb (String.eqb (Identity_Org id) "") then WithOrganization ctx (Identity_Org id)
  else ctx.

Definition consumerContextFilter {R} (apiHandler : RequestContext -> R) (ctx : RequestContext) : R :=
  apiHandler (filtered ctx).

(** [prev] is the handler chain already configured, [DefaultBuildHandlerChain] the
    server's own. *)
Definition installConsumerContextFilter {R} (DefaultBuildHandlerChain : (RequestContext -> R) -> RequestContext -> R)
    (prev : option ((RequestContext -> R) -> RequestContext -> R)) (apiHandler : RequestContext -> R) : RequestContext -> R :=
  default DefaultBuildHandlerChain prev (consumerContextFilter apiHandler).

(** ** The guard *)

Definition platformConsumerGuardName : string := "IPAMPlatformConsumerGuard".

Definition quotaProtectedResources : list (string * string) := [("ipam.miloapis.com", "ipclaims")].

Definition hasDerivableConsumer (ctx : RequestContext) : bool :=
  match rc_project ctx with
  | Some p => if negb (String.eqb p "") then true
              else match rc_organization ctx with Some o => negb (String.eqb o "") | None => false end
  | None => match rc_organization ctx with Some o => negb (String.eqb o "") | None => false end
  end.

Section Guard.
Context {api : ApiMachinery}.

Definition guard_Validate : Validator := fun ctx attrs =>
  match at_Operation attrs with
  | OpCreate =>
    if negb (existsb (fun gr => String.eqb gr.1 (at_Group attrs) && String.eqb gr.2 (at_Resource attrs)) quotaProtectedResources)
    then None
    else if hasDerivableConsumer ctx then None
    else Some (GStatus (NewForbidden (at_Resource attrs) (at_Name attrs)
      ("explicit consumer required for quota-protected resource " +:+ at_Resource attrs)))
  | _ => None
  end.

(** ** Which plugins run

    [ao_Order] is the recommended order, of which the enabled ones run. *)

Record AdmissionOptions := mkAdmission { ao_Order : list string; ao_Enabled : list string }.

Definition disableAllAdmission : AdmissionOptions := mkAdmission [] [].

Definition registerQuotaAdmission (quotaPluginName : string) : AdmissionOptions :=
  mkAdmission [platformConsumerGuardName; quotaPluginName] [platformConsumerGuardName; quotaPluginName].

(** The server's chain asks the plugins in order and stops at the first refusal. *)
Class AdmissionChain := { run_chain : list Validator -> Validator }.
Class AdmissionChainLaws {ch : AdmissionChain} : Prop := {
  run_chain_nil : forall ctx attrs, run_chain [] ctx attrs = None;
  run_chain_cons : forall v l ctx attrs,
    run_chain (v :: l) ctx attrs = match v ctx attrs with Some e => Some e | None => run_chain l ctx attrs end
}.

Section Server.
Context {ch : AdmissionChain} (quotaPluginName : string) (quota : Validator).

(** The plugin registered under a name. *)
Definition registered (name : string) : list Validator :=
  if String.eqb name platformConsumerGuardName then [guard_Validate]
  else if String.eqb name quotaPluginName then [quota] else [].

Definition admission_of (o : AdmissionOptions) : Validator :=
  run_chain (concat (map registered (List.filter (fun n => existsb (String.eqb n) (ao_Enabled o)) (ao_Order o)))).

(** What the validating plugins answer a request, after authentication and the filter.
    For a create this is the [createValidation] the generic server hands the handler:
    Claim's [Create] has it as [cv], and asks it before it resolves or writes anything
    ([create_block], [createScopeRange]). *)
Definition admission (EnableQuota : bool) (attrs : Attributes) (ctx : RequestContext) : option GoErr :=
  if EnableQuota
  then consumerContextFilter (fun ctx => admission_of (registerQuotaAdmission quotaPluginName) ctx attrs) ctx
  else admission_of disableAllAdmission ctx attrs.

(** ** Initialisation *)

(** A plugin and the setters it has, each with what it was given. *)
Record PluginState (Config Convertor : Type) := mkPlugin {
  pg_loopback : option (option Config);
  pg_convertor : option (option Convertor)
}.
Arguments mkPlugin {Config Convertor} _ _.
Arguments pg_loopback {Config Convertor} _.
Arguments pg_convertor {Config Convertor} _.

Definition loopbackConfigInitializer {Config Convertor} (config : Config) (p : PluginState Config Convertor) : PluginState Config Convertor :=
  match pg_loopback p with Some _ => mkPlugin (Some (Some config)) (pg_convertor p) | None => p end.

Definition objectConvertorInitializer {Config Convertor} (convertor : Convertor) (p : PluginState Config Convertor) : PluginState Config Convertor :=
  match pg_convertor p with Some _ => mkPlugin (pg_loopback p) (Some (Some convertor)) | None => p end.

Definition wireAdmissionInitializers {Config Convertor} (ClientConfig : option Config) (Scheme : Convertor)
    : result string (list (PluginState Config Convertor -> PluginState Config Convertor)) :=
  match ClientConfig with
  | None => Err "quota admission requires a loopback config: set --kubeconfig to the milo-apiserver kubeconfig"
  | Some c => Ok [loopbackConfigInitializer c; objectConvertorInitializer Scheme]
  end.

(** ** What gets through *)

Context {laws : AdmissionChainLaws}.

Definition claim_create (name : string) : Attributes := mkAttributes OpCreate "ipam.miloapis.com" "ipclaims" name.

Lemma admission_enabled attrs ctx : quotaPluginName <> platformConsumerGuardName ->
  admission true attrs ctx
  = match guard_Validate (filtered ctx) attrs with Some e => Some e | None => quota (filtered ctx) attrs end.
Proof.
  intros Hn. unfold admission, consumerContextFilter, admission_of, registerQuotaAdmission. cbn [ao_Order ao_Enabled List.filter existsb].
  rewrite !String.eqb_refl, orb_true_r. cbn [orb map concat app]. unfold registered.
  rewrite !String.eqb_refl, (proj2 (String.eqb_neq _ _) Hn). cbn [app]. rewrite !run_chain_cons, run_chain_nil.
  by destruct (guard_Validate (filtered ctx) attrs), (quota (filtered ctx) attrs).
Qed.

Lemma filtered_consumer ctx : rc_project ctx = None -> rc_organization ctx = None ->
  hasDerivableConsumer (filtered ctx) = true ->
  let id := FromContext (rc_user ctx) in
  id_Name id <> "" /\
  ((id_Kind id = "Project" /\ filtered ctx = WithProject ctx (id_Name id))
   \/ (id_Kind id = "Organization" /\ filtered ctx = WithOrganization ctx (id_Name id))).
Proof.
  intros Hp Ho. unfold filtered, Identity_Project, Identity_Org. set (id := FromContext _).
  destruct (String.eqb_spec (id_Kind id) "Project") as [Hk|Hk].
  - destruct (String.eqb_spec (id_Name id) "") as [E|E]; cbn [negb]; [|intros _; by split; [|left]].
    rewrite Hk. cbn. unfold hasDerivableConsumer. by rewrite Hp, Ho.
  - cbn [String.eqb negb]. destruct (String.eqb_spec (id_Kind id) "Organization") as [Hk'|Hk'].
    + destruct (String.eqb_spec (id_Name id) "") as [E|E]; cbn [negb]; [|intros _; by split; [|right]].
      unfold hasDerivableConsumer. by rewrite Hp, Ho.
    + cbn. unfold hasDerivableConsumer. by rewrite Hp, Ho.
Qed.

(** [C24] With quota on, no claim is created that nobody is charged for.  A create of a
    claim passes the validation its handler asks for exactly when the caller's tenant is
    a project or an organization with a name and the quota plugin, asked with that
    tenant as the consumer, lets it through; and that is the tenant the handler finds. *)
Theorem claim_create_has_consumer name ctx :
  quotaPluginName <> platformConsumerGuardName -> rc_project ctx = None -> rc_organization ctx = None ->
  let id := FromContext (rc_user ctx) in
  admission true (claim_create name) ctx = None <->
  RequireTenant (rc_user ctx) = Ok id /\
  ((id_Kind id = "Project" /\ quota (WithProject ctx (id_Name id)) (claim_create name) = None)
   \/ (id_Kind id = "Organization" /\ quota (WithOrganization ctx (id_Name id)) (claim_create name) = None)).
Proof.
  intros Hn Hp Ho id. rewrite admission_enabled by done. unfold RequireTenant. fold id.
  unfold guard_Validate, claim_create. cbn [at_Operation at_Group at_Resource existsb quotaProtectedResources fst snd].
  rewrite !String.eqb_refl. cbn [andb orb negb].
  pose proof (filtered_consumer ctx Hp Ho) as Hf. cbn in Hf. fold id in Hf.
  destruct (hasDerivableConsumer (filtered ctx)) eqn:Hh.
  - destruct (Hf eq_refl) as [Hne [[Hk ->] | [Hk ->]]]; rewrite (proj2 (String.eqb_neq _ _) Hne), Hk.
    + split; [intros H; split; [done|]; by left | intros [_ [[_ H]|[H _]]]; done].
    + split; [intros H; split; [done|]; by right | intros [_ [[H _]|[_ H]]]; done].
  - split; [done|]. destruct (String.eqb_spec (id_Name id) "") as [E|E]; [by intros [? _]|]. intros [_ H]. exfalso.
    enough (hasDerivableConsumer (filtered ctx) = true) by congruence. unfold filtered, Identity_Project, Identity_Org. fold id.
    apply String.eqb_neq in E. destruct H as [[-> _]|[-> _]]; cbn; rewrite E; cbn; unfold hasDerivableConsumer;
      cbn [rc_project rc_organization WithProject WithOrganization]; rewrite ?Hp, ?E; done.
Qed.

(** Everything else passes the guard untouched: other operations and other resources
    meet the quota plugin alone. *)
Theorem guard_only_claims attrs ctx :
  quotaPluginName <> platformConsumerGuardName ->
  at_Operation attrs <> OpCreate \/ (at_Group attrs, at_Resource attrs) <> ("ipam.miloapis.com", "ipclaims") ->
  admission true attrs ctx = quota (filtered ctx) attrs.
Proof.
  intros Hn H. rewrite admission_enabled by done. unfold guard_Validate.
  destruct (at_Operation attrs) eqn:Ho; [|done..]. cbn [existsb quotaProtectedResources fst snd]. rewrite orb_false_r.
  destruct (String.eqb_spec "ipam.miloapis.com" (at_Group attrs)) as [Hg|]; [|done].
  destruct (String.eqb_spec "ipclaims" (at_Resource attrs)) as [Hr|]; [|done].
  exfalso. destruct H as [H|H]; [done | by rewrite <-Hg, <-Hr in H].
Qed.
End Server.
End Guard.

(** The initializers hand the quota plugin both things it asks for; without a client
    configuration the server does not start. *)
Theorem quota_plugin_initialized {Config Convertor} (ClientConfig : option Config) (Scheme : Convertor) p inits :
  wireAdmissionInitializers ClientConfig Scheme = Ok inits -> is_Some (@pg_loopback Config Convertor p) -> is_Some (@pg_convertor Config Convertor p) ->
  exists config, ClientConfig = Some config
    /\ foldl (fun p f => f p) p inits = @mkPlugin Config Convertor (Some (Some config)) (Some (Some Scheme)).
Proof.
  destruct ClientConfig as [config|]; [|done]. intros [= <-] [l Hl] [c Hc]. exists config. split; [done|].
  cbn [foldl]. unfold loopbackConfigInitializer. rewrite Hl. unfold objectConvertorInitializer. cbn. by rewrite Hc.
Qed.

(** A request scoped to an organization is charged to the organization and stored under
    the keys of the project that bears its name: the key prefix reads the parent's
    name and not its kind. *)
Theorem organization_reaches_project org project :
  id_Name org = id_Name project -> id_Kind org = "Organization" -> id_Kind project = "Project" -> id_Name org <> "" ->
  (forall key, ApplyPrefix org key = ApplyPrefix project key)
  /\ Identity_Org org = id_Name org /\ Identity_Project org = "" /\ Identity_Project project = id_Name org.
Proof.
  intros Hn Ho Hp Hne. split; [intros key; unfold ApplyPrefix, KeyPrefix; by rewrite Hn|].
  unfold Identity_Org, Identity_Project. by rewrite Ho, Hp.
Qed.

Lemma organization_reaches_project_witness :
  ApplyPrefix (mkIdentity "resourcemanager.miloapis.com" "Organization" "acme") "/ipam.miloapis.com/ippools/p"
  = ApplyPrefix (mkIdentity "resourcemanager.miloapis.com" "Project" "acme") "/ipam.miloapis.com/ippools/p".
Proof. by apply organization_reaches_project. Defined.

(** ** A concrete server *)

#[local] Instance plain_chain : AdmissionChain := {|
  run_chain := fix run l ctx attrs :=
    match l with [] => None | v :: l => match v ctx attrs with Some e => Some e | None => run l ctx attrs end end
|}.
#[local] Instance plain_chain_laws : AdmissionChainLaws.
Proof. by constructor. Qed.

Definition ex_context (kind name : string) : RequestContext :=
  mkContext (Some {[ExtraParentType := [kind]; ExtraParentName := [name]]}) None None.

Lemma claim_create_has_consumer_witness :
  @admission plain_machinery plain_chain "quota" (fun _ _ => None) true (claim_create "web") (ex_context "Project" "alpha") = None.
Proof.
  apply (@claim_create_has_consumer plain_machinery plain_chain "quota" (fun _ _ => None) plain_chain_laws "web" (ex_context "Project" "alpha"));
    [discriminate | reflexivity | reflexivity |].
  split; [vm_compute; reflexivity|]. left. split; [vm_compute; reflexivity | reflexivity].
Defined.

Lemma guard_only_claims_witness :
  @admission plain_machinery plain_chain "quota" (fun _ _ => None) true
    (mkAttributes OpCreate "ipam.miloapis.com" "ippools" "p") (ex_context "Platform" "") = None.
Proof.
  refine (@guard_only_claims plain_machinery plain_chain "quota" (fun _ _ => None) plain_chain_laws
    (mkAttributes OpCreate "ipam.miloapis.com" "ippools" "p") (ex_context "Platform" "") _ _); [discriminate | right; discriminate].
Defined.

Lemma quota_plugin_initialized_witness : exists config, Some 5 = Some config
  /\ foldl (fun p f => f p) (@mkPlugin Z unit (Some None) (Some None))
       [loopbackConfigInitializer 5; objectConvertorInitializer tt] = @mkPlugin Z unit (Some (Some config)) (Some (Some tt)).
Proof. apply (quota_plugin_initialized (Some 5) tt); [reflexivity | by eexists | by eexists]. Defined.
