(* ===== verification/Table.v ===== *)
(** * Table: [internal/registry/ipam/tableconvertor]

    What a LIST or GET prints: a row of cells per object under the columns of its
    kind.  [utilization_honest]: a pool in use never reads as empty, though its stored
    percentage may round to zero, and one not in use reads [0%].  [rows_fit_columns]:
    each row has a cell per column, for any object.  [scope_cell_agrees]: a scope
    reads the same here and in the command-line client.

    The library's [MetaToTableRow], which walks a list and formats names and ages, is
    an argument. *)

From Stdlib Require Import Ascii String DecimalString.
From S2P Require Import Prelude Text Float Net Cidr Tenant Scope NetText Types Db PoolObject Errors ClientScope.
Open Scope string_scope.
Open Scope list_scope.
Open Scope Z_scope.

(** ** Cells *)

Definition orEmpty (s : string) : string := if String.eqb s "" then "<none>" else s.

Definition allocated (cidr address : string) : string := if negb (String.eqb cidr "") then cidr else address.

Definition localRefName (ref : option LocalRef) : string :=
  match ref with None => "<none>" | Some r => orEmpty (lr_Name r) end.

(** [formatScope] of the server. *)
Definition table_formatScope (scope : scope_map) : string :=
  if (size scope =? 0)%nat then "<none>"
  else joinWith " " (map (fun role => role +:+ "=" +:+ sr_Name (ref_of scope role)) (Roles scope)).

Definition poolClass (p : IPPool) : string :=
  match ps_ClassNames (pl_Spec p) with
  | _ :: _ => joinWith "," (ps_ClassNames (pl_Spec p))
  | [] => localRefName (ps_ClassRef (pl_Spec p))
  end.

(** [new(big.Int).SetString(s, 10)]: an optional sign and at least one digit. *)
Definition SetString10 (s : string) : option Z :=
  let digits (t : string) := if String.eqb t "" then None else option_map Z.of_uint (NilEmpty.uint_of_string t) in
  match s with
  | String "-" t => option_map Z.opp (digits t)
  | String "+" t => digits t
  | _ => digits s
  end.

Definition allocatedAny (s : string) : bool :=
  match SetString10 s with Some n => 0 <? n | None => false end.

(** [%.1f]: the exact value in tenths, rounded to the nearest, halves to even. *)
Definition round_even (num den : Z) : Z :=
  let q := num / den in
  let r := 2 * (num mod den) in
  if r <? den then q else if den <? r then q + 1 else if Z.even q then q else q + 1.

Definition tenths (m : positive) (e : Z) : Z :=
  if 0 <=? e then Z.pos m * 2 ^ e * 10 else round_even (Z.pos m * 10) (2 ^ (- e)).

Definition tenths_text (n : Z) : string := dec (n / 10) +:+ "." +:+ dec (n mod 10).

Definition format1 (x : spec_float) : string :=
  match x with
  | S754_nan => "NaN"
  | S754_infinity s => if s then "-Inf" else "+Inf"
  | S754_zero s => (if s then "-" else "") +:+ tenths_text 0
  | S754_finite s m e => (if s then "-" else "") +:+ tenths_text (tenths m e)
  end.

(** The float64 constant [0.05]. *)
Definition f_twentieth : spec_float := f_of_ratio 5 100.

Definition poolUtilization (p : IPPool) : string :=
  let st := pl_Status p in
  if negb (allocatedAny (pc_Allocated (pst_Capacity st))) then "0%"
  else if f_lt (pst_UtilizationPercent st) f_twentieth then "<0.1%"
  else format1 (pst_UtilizationPercent st) +:+ "%".

(** ** Columns *)

(** A column: its name, and whether it is shown only in the wide form. *)
Record column := mkColumn { col_name : string; col_wide : bool }.
Definition shown_column (n : string) : column := mkColumn n false.
Definition wide_column (n : string) : column := mkColumn n true.

Definition purpose_text (p : AllocationPurpose) : string :=
  match p with PurposeClaim => "Claim" | PurposeReservation => "Reservation" | PurposePoolCarve => "PoolCarve" end.

(** A convertor: its columns and its cells. *)
Record convertor := mkConvertor {
  cv_columns : list column;
  cv_cells : Document -> string -> string -> list string     (* object, name, age *)
}.

Definition IPPools : convertor := {|
  cv_columns := [shown_column "Name"; shown_column "CIDR"; shown_column "Family"; shown_column "Class"; shown_column "Utilization"; shown_column "Age";
                 wide_column "Parent"; wide_column "Scope"; wide_column "Phase"];
  cv_cells obj name age :=
    match as_pool obj with
    | None => [name; ""; ""; ""; ""; age; ""; ""; ""]
    | Some p =>
      let cidr := if String.eqb (pst_AllocatedCIDR (pl_Status p)) "" then ps_CIDR (pl_Spec p) else pst_AllocatedCIDR (pl_Status p) in
      let family := if String.eqb (pst_IPFamily (pl_Status p)) "" then ps_IPFamily (pl_Spec p) else pst_IPFamily (pl_Status p) in
      [name; orEmpty cidr; orEmpty family; poolClass p; poolUtilization p; age;
       localRefName (ps_ParentPoolRef (pl_Spec p)); table_formatScope (ps_Scope (pl_Spec p)); orEmpty (pst_Phase (pl_Status p))]
    end
|}.

Definition IPClaims : convertor := {|
  cv_columns := [shown_column "Name"; shown_column "Class"; shown_column "Family"; shown_column "Allocated"; shown_column "Pool"; shown_column "Phase";
                 shown_column "Age"; wide_column "Scope"; wide_column "Allocation"];
  cv_cells obj name age :=
    match as_claim obj with
    | None => [name; ""; ""; ""; ""; ""; age; ""; ""]
    | Some c =>
      let sp := ic_Spec c in let st := ic_Status c in
      [name; orEmpty (ics_ClassName sp); orEmpty (ics_IPFamily sp);
       orEmpty (allocated (icst_AllocatedCIDR st) (icst_Address st)); localRefName (icst_PoolRef st); orEmpty (icst_Phase st);
       age; table_formatScope (ics_Scope sp); localRefName (icst_BoundAllocationRef st)]
    end
|}.

Definition IPAllocations : convertor := {|
  cv_columns := [shown_column "Name"; shown_column "Allocated"; shown_column "Pool"; shown_column "Class"; shown_column "Purpose"; shown_column "Phase";
                 shown_column "Age"; wide_column "Claim"; wide_column "Reclaim"; wide_column "Scope"];
  cv_cells obj name age :=
    match as_allocation obj with
    | None => [name; ""; ""; ""; ""; ""; age; ""; ""; ""]
    | Some a =>
      let sp := al_Spec a in let st := al_Status a in
      [name; orEmpty (allocated (alst_AllocatedCIDR st) (alst_Address st)); orEmpty (lr_Name (als_PoolRef sp));
       orEmpty (als_ClassName sp); orEmpty (purpose_text (als_Purpose sp)); orEmpty (alst_Phase st); age;
       localRefName (als_ClaimRef sp); orEmpty (als_ReclaimPolicy sp); table_formatScope (als_Scope sp)]
    end
|}.

Definition IPClasses : convertor := {|
  cv_columns := [shown_column "Name"; shown_column "Family"; shown_column "Parent"; shown_column "Prefix"; shown_column "Pool Per"; shown_column "Phase";
                 shown_column "Age"; wide_column "Source"; wide_column "Strategy"; wide_column "Unique Within"];
  cv_cells obj name age :=
    match as_class obj with
    | None => [name; ""; ""; ""; ""; ""; age; ""; ""; ""]
    | Some c =>
      let sp := cl_Spec c in
      let prefix := if negb (cs_DefaultPrefixLength sp =? 0) then "/" +:+ BigString (cs_DefaultPrefixLength sp) else "" in
      let source := match cs_Source sp with Some s => csr_Name s | None => "" end in
      [name; orEmpty (cs_IPFamily sp); orEmpty (cs_ParentClassName sp); orEmpty prefix;
       orEmpty (joinWith "," (cs_PoolPer sp)); orEmpty (cl_Phase c); age;
       orEmpty source; orEmpty (cs_Strategy sp); orEmpty (joinWith "," (cs_UniqueWithin sp))]
    end
|}.

(** ** [ConvertToTable] *)

Record Table := mkTable {
  tb_rows : list (list string);
  tb_list : option (string * string * option Z);      (* version, continue, remaining *)
  tb_columns : list column
}.

(** [406 Not Acceptable]: what cannot be shown as a table. *)
Definition errNotAcceptable (resource : string) : Status :=
  mkStatus 406 "NotAcceptable" ("the resource " +:+ resource +:+ " does not support being converted to a Table") None.

(** [MetaToTableRow] answers the rows of an object or of a list's items, given the
    cells of one, or fails on something without metadata; [accessor] is what
    [ListAccessor] and [CommonAccessor] find; resources are a group and a name. *)
Definition ConvertToTable {Obj} (MetaToTableRow : (Document -> string -> string -> list string) -> Obj -> option (list (list string)))
    (accessor : Obj -> option (string * string * option Z)) (GroupResource_String : string * string -> string)
    (c : convertor) (resource : string * string) (requested : option (string * string)) (obj : Obj) (NoHeaders : bool)
    : Table + Status :=
  match MetaToTableRow (cv_cells c) obj with
  | None =>
    let resource := match requested with
                    | Some info => if negb (String.eqb info.2 "") then info else resource
                    | None => resource
                    end in
    inr (errNotAcceptable (GroupResource_String resource))
  | Some rows => inl (mkTable rows (accessor obj) (if NoHeaders then [] else cv_columns c))
  end.

(** ** Every row has its cells *)

Definition convertors : list convertor := [IPPools; IPClaims; IPAllocations; IPClasses].

(** Each row of a table a convertor makes has one cell per column, whatever objects it is
    given, when the rows are the cells of the objects walked. *)
Theorem rows_fit_columns {Obj} MetaToTableRow accessor text c resource requested (obj : Obj) tb
    (walk : Obj -> list (Document * string * string)) :
  (forall cells o, MetaToTableRow cells o = Some (map (fun x => cells x.1.1 x.1.2 x.2) (walk o))) ->
  c ∈ convertors ->
  ConvertToTable MetaToTableRow accessor text c resource requested obj false = inl tb ->
  Forall (fun row => length row = length (tb_columns tb)) (tb_rows tb).
Proof.
  intros Hw Hc. unfold ConvertToTable. rewrite Hw. intros [= <-]. cbn [tb_rows tb_columns].
  apply Forall_forall. intros row Hr. apply list_elem_of_fmap in Hr as ([[o name] age] & -> & _). cbn [fst snd].
  unfold convertors in Hc. repeat (apply elem_of_cons in Hc as [-> | Hc]; [by destruct o|]). by apply not_elem_of_nil in Hc.
Qed.

(** ** Utilization *)

Lemma string_of_uint_cons d : d <> Decimal.Nil -> exists c t, NilEmpty.string_of_uint d = String c t
  /\ c <> "-"%char /\ c <> "+"%char.
Proof. destruct d; [done|..]; intros _; eexists _, _; (split; [reflexivity|]); by split. Qed.

Lemma to_uint_not_nil n : N.to_uint n <> Decimal.Nil.
Proof. destruct n as [|p]; [done|]. apply DecimalPos.Unsigned.to_uint_nonnil. Qed.

Lemma SetString10_BigString z : 0 <= z -> SetString10 (BigString z) = Some z.
Proof.
  intros Hz. unfold BigString. zcase; [lia|]. set (d := N.to_uint (Z.to_N (Z.abs z))).
  change (SetString10 (NilEmpty.string_of_uint d) = Some z).
  destruct (string_of_uint_cons d (to_uint_not_nil _)) as (c & t & E & Hm & Hp).
  assert (SetString10 (NilEmpty.string_of_uint d) = option_map Z.of_uint (NilEmpty.uint_of_string (NilEmpty.string_of_uint d))) as ->.
  { rewrite E. unfold SetString10. destruct c as [[] [] [] [] [] [] [] []]; done. }
  rewrite NilEmpty.usu. cbn [option_map]. f_equal. change (Z.of_uint d) with (Z.of_N (N.of_uint d)). unfold d.
  rewrite DecimalN.Unsigned.of_to. lia.
Qed.

(** A float64 that is not negative, infinite or NaN. *)
Definition share (x : spec_float) : Prop :=
  valid_binary prec emax x = true
  /\ match x with S754_zero _ | S754_finite false _ _ => True | _ => False end.

Lemma digits_lower m : 2 ^ (Z.pos (digits2_pos m) - 1) <= Z.pos m.
Proof.
  assert (H : forall p, 2 ^ (Z.pos (digits2_pos p) - 1) <= Z.pos p /\ 1 <= Z.pos (digits2_pos p)); [|apply H].
  clear m. induction p as [p [IH IH']|p [IH IH']|]; cbn [digits2_pos]; [split; [|lia] .. | by cbn].
  all: rewrite Pos2Z.inj_succ; replace (Z.succ (Z.pos (digits2_pos p)) - 1) with (Z.succ (Z.pos (digits2_pos p) - 1)) by lia;
    rewrite Z.pow_succ_r by lia; lia.
Qed.

Lemma round_even_one num den : 0 < den -> den < 2 * num -> 1 <= round_even num den.
Proof.
  intros Hd Hn. unfold round_even. pose proof (Z.div_mod num den ltac:(lia)). pose proof (Z.mod_pos_bound num den Hd).
  assert (0 <= num / den) by (apply Z.div_pos; lia). cbv zeta.
  destruct (Z.eq_dec (num / den) 0) as [E|E].
  - rewrite (proj2 (Z.ltb_ge _ _)) by nia. rewrite (proj2 (Z.ltb_lt den _)) by nia. lia.
  - destruct (2 * (num mod den) <? den), (den <? 2 * (num mod den)), (Z.even (num / den)); lia.
Qed.

Lemma same_exponent m k : match Pos.compare_cont Eq m k with Lt => true | _ => false end = false -> Z.pos k <= Z.pos m.
Proof. change (Pos.compare_cont Eq m k) with (Pos.compare m k). destruct (Pos.compare_spec m k); [lia | done | lia]. Qed.

Lemma twentieth_or_more m e : valid_binary prec emax (S754_finite false m e) = true ->
  f_lt (S754_finite false m e) f_twentieth = false -> 1 <= tenths m e.
Proof.
  assert (f_twentieth = S754_finite false 7205759403792794 (-57)) as -> by (vm_compute; reflexivity).
  unfold valid_binary, bounded, canonical_mantissa. intros [Hc _]%andb_true_iff Hlt.
  apply Z.eqb_eq in Hc. unfold fexp, SpecFloat.emin, prec, emax in Hc.
  pose proof (digits_lower m) as Hm. unfold f_lt, SFltb, SFcompare in Hlt. unfold tenths.
  destruct (Z.compare_spec e (-57)) as [->|He|He]; [|done|].
  - apply same_exponent in Hlt.
    destruct (Z.leb_spec 0 (-57)); [lia|].
    apply round_even_one; change (2 ^ (- (-57))) with 144115188075855872; lia.
  - assert (Z.pos (digits2_pos m) = 53) as Hd by lia. rewrite Hd in Hm. change (2 ^ (53 - 1)) with 4503599627370496 in Hm.
    destruct (Z.leb_spec 0 e); [assert (0 < 2 ^ e) by (apply Z.pow_pos_nonneg; lia); nia|].
    apply round_even_one; [apply Z.pow_pos_nonneg; lia|].
    assert (2 ^ (- e) <= 2 ^ 56) by (apply Z.pow_le_mono_r; lia). change (2 ^ 56) with 72057594037927936 in *. lia.
Qed.

(** [C38] Utilization is honest at both ends.  For a pool whose status the server wrote,
    the table reads [0%] exactly when nothing is held in it: however large the pool,
    one address held reads [<0.1%], or a percentage of at least [0.1], and the
    percentage printed is the stored one to the nearest tenth. *)
Theorem utilization_honest pool parents consumed :
  let p := setPoolCapacityStatus pool parents consumed in
  let x := utilizationPercent (totalAddresses parents) consumed in
  0 <= consumed -> share x ->
  (poolUtilization p = "0%" <-> consumed = 0)
  /\ (0 < consumed ->
      if f_lt x f_twentieth then poolUtilization p = "<0.1%"
      else exists m e, x = S754_finite false m e /\ 1 <= tenths m e /\ poolUtilization p = tenths_text (tenths m e) +:+ "%").
Proof.
  intros p x Hc [Hv Hx]. unfold poolUtilization. cbn [p setPoolCapacityStatus pl_set_status pl_Status pst_Capacity pc_Allocated pst_UtilizationPercent].
  fold x. unfold allocatedAny. rewrite SetString10_BigString by done.
  destruct (Z.ltb_spec 0 consumed) as [H|H]; cbn [negb]; [|split; [split; [lia | done] | lia]].
  destruct (f_lt x f_twentieth) eqn:Hlt; [by split; [split; [done | lia]|]|].
  clearbody x. destruct x as [s|s| |[] m e]; [| done | done | done |].
  { destruct s; vm_compute in Hlt; done. }
  split; [|intros _; exists m, e; split; [done|]; split; [by apply twentieth_or_more | done]].
  split; [|lia]. cbn [format1]. unfold tenths_text. intros E. exfalso. revert E.
  generalize (dec (tenths m e / 10)) (dec (tenths m e mod 10)). clear. intros a b E.
  apply (f_equal (no_byte ".")) in E. rewrite !no_byte_app in E. cbn in E. by rewrite ?andb_false_r in E.
Qed.

Definition table_pool : IPPool :=
  mkPool (mkMeta "p" ∅ ∅)
    (mkPoolSpec "" IPv6 None 0 [] None ∅ None None (mkAllocationSpec 0 0 "") "")
    (mkPoolStatus PoolReady "" "" "" (mkCapacity "" "" "") f_zero).

(** One /48 of an IPv6 /16 of the pool, four places of the percentage being zero. *)
Lemma utilization_honest_witness :
  poolUtilization (setPoolCapacityStatus table_pool [mk_net 0 16 128] (2 ^ 80)) = "<0.1%".
Proof.
  assert (share (utilizationPercent (totalAddresses [mk_net 0 16 128]) (2 ^ 80))) as Hs by (vm_compute; done).
  destruct (utilization_honest table_pool [mk_net 0 16 128] (2 ^ 80) ltac:(lia) Hs) as [_ H].
  exact (H ltac:(lia)).
Defined.

(** ** The scope column *)

(** The comment's promise: a scope that names anything prints as the command-line client
    prints it. *)
Theorem scope_cell_agrees scope : scope <> ∅ -> table_formatScope scope = ClientScope.formatScope scope.
Proof.
  intros H. unfold table_formatScope, ClientScope.formatScope. destruct (Nat.eqb_spec (size scope) 0) as [E|]; [|done].
  by apply map_size_empty_iff in E.
Qed.

Lemma scope_cell_agrees_witness :
  table_formatScope {["network" := mkScopeRef "networking" "Network" "default"]} = "network=default".
Proof. etransitivity; [apply scope_cell_agrees; intros E; apply (f_equal (fun m => size m)) in E; vm_compute in E; discriminate | vm_compute; reflexivity]. Defined.

Definition ex_rows (cells : Document -> string -> string -> list string) (o : unit) : option (list (list string)) :=
  Some (map (fun x => cells x.1.1 x.1.2 x.2) [((DocPool table_pool, "p"), "3d")]).

Lemma rows_fit_columns_witness :
  length ["p"; "<none>"; "IPv6"; "<none>"; "0%"; "3d"; "<none>"; "<none>"; "Ready"] = length (cv_columns IPPools).
Proof.
  pose proof (rows_fit_columns ex_rows (fun _ => None) (fun r => r.2) IPPools ("ipam.miloapis.com", "ippools") None tt
    (mkTable [["p"; "<none>"; "IPv6"; "<none>"; "0%"; "3d"; "<none>"; "<none>"; "Ready"]] None (cv_columns IPPools))
    (fun _ => [((DocPool table_pool, "p"), "3d")]) ltac:(reflexivity) ltac:(left) ltac:(vm_compute; reflexivity)) as H.
  by apply Forall_cons in H as [H _].
Defined.
