(* ===== verification/ClientView.v ===== *)
(** * ClientView: what the client prints ([util.go], [output.go] and the tables)

    [cmd/milo-ipam/util.go], [output.go], the cells of [helpers.go], and the tables and
    detail views of [pool.go], [class.go], [claim.go] and [allocation.go]: every table is
    its header and its rows, every row a list of cells.  [tabwriter]'s alignment, JSON
    and YAML are the libraries'; the age of an object, whose creation time the objects
    of Types leave out, and its conditions are arguments.

    [bar_keeps_width]: a bar has the width asked for, whatever the percentage.
    [rows_fit_headers]: every row of every table has a cell under each header.
    [client_hides_use]: the client prints 0% where the server's own table promises that
    a pool in use is never shown as empty. *)

From Stdlib Require Import Ascii String DecimalString.
From S2P Require Import Prelude Text Float Net Cidr Tenant Scope NetText Types Db Errors.
From S2P Require Import PoolObject ClientScope ClientAddr ClientClaim ClientTree ClientPools Table.
Open Scope string_scope.
Open Scope list_scope.
Open Scope Z_scope.

(** ** Numbers *)

Definition f_add : spec_float -> spec_float -> spec_float := SFadd prec emax.
Definition f_half : spec_float := f_of_ratio 1 2.
Definition f_ge (a b : spec_float) : bool := SFleb b a.

(** [int(x)]: towards zero.  What is not in an [int64], NaN and the infinities included,
    Go leaves to the machine, and amd64 answers the least [int64]. *)
Definition min_int64 : Z := - 2 ^ 63.
Definition f_int (x : spec_float) : Z :=
  match x with
  | S754_zero _ => 0
  | S754_finite s m e =>
    let n := if 0 <=? e then (if e <=? 64 then Z.pos m * 2 ^ e else 2 ^ 64) else Z.pos m / 2 ^ (- e) in
    let n := if s then - n else n in
    if (min_int64 <=? n) && (n <? 2 ^ 63) then n else min_int64
  | _ => min_int64
  end.

(** [%.0f]: the exact value to the nearest integer, halves to even. *)
Definition units (m : BinNums.positive) (e : Z) : Z :=
  if 0 <=? e then Z.pos m * 2 ^ e else round_even (Z.pos m) (2 ^ (- e)).

Definition decimal (z : Z) : string :=
  if z <? 0 then "-" +:+ NilEmpty.string_of_uint (N.to_uint (Z.to_N (- z))) else NilEmpty.string_of_uint (N.to_uint (Z.to_N z)).

Definition format0 (x : spec_float) : string :=
  match x with
  | S754_nan => "NaN"
  | S754_infinity s => if s then "-Inf" else "+Inf"
  | S754_zero s => (if s then "-" else "") +:+ "0"
  | S754_finite s m e => (if s then "-" else "") +:+ decimal (units m e)
  end.

(** [%3.0f]: padded on the left to three bytes. *)
Fixpoint spaces (n : nat) : string := match n with O => "" | S n => " " +:+ spaces n end.
Definition pad_left (n : nat) (s : string) : string := spaces (n - String.length s) +:+ s.

(** ** Utilization *)

Definition familyBits (family : IPFamily) : Z := if String.eqb family IPv6 then 128 else 32.

(** [utilizationPercent] of the client: [big.Rat], then the nearest float. *)
Definition capacityPercent (c : PoolCapacity) : spec_float :=
  match SetString10 (pc_Total c) with
  | Some total =>
    if total <=? 0 then f_zero
    else match SetString10 (pc_Allocated c) with
         | None => f_zero
         | Some allocated => f_of_ratio (allocated * 100) total
         end
  | None => f_zero
  end.

Definition utilizationLabel (pct : spec_float) : string :=
  if f_ge pct (f_of_Z 90) then "HIGH" else if f_ge pct (f_of_Z 75) then "MED" else "".

Definition colorReset : string := String "027" "[0m".
Definition colorRed : string := String "027" "[31m".
Definition colorGreen : string := String "027" "[32m".
Definition colorYellow : string := String "027" "[33m".

Definition colorize (s code : string) : string := code +:+ s +:+ colorReset.

Fixpoint repeated (n : nat) (s : string) : string := match n with O => "" | S n => s +:+ repeated n s end.

Definition bar_filled (pct : spec_float) (width : Z) : Z :=
  let filled := f_int (f_add (f_mul (f_div pct (f_of_Z 100)) (f_of_Z width)) f_half) in
  let filled := if width <? filled then width else filled in
  if filled <? 0 then 0 else filled.

Definition utilizationBar (pct : spec_float) (width : Z) (useColor : bool) : string :=
  let width := if width <=? 0 then 10 else width in
  let filled := bar_filled pct width in
  let bar := repeated (Z.to_nat filled) "█" +:+ repeated (Z.to_nat (width - filled)) "░" in
  if negb useColor then bar
  else if f_ge pct (f_of_Z 90) then colorize bar colorRed
  else if f_ge pct (f_of_Z 75) then colorize bar colorYellow
  else colorize bar colorGreen.

Definition utilizationCell (pct : spec_float) (width : Z) (useColor : bool) : string :=
  let bar := utilizationBar pct width useColor in
  let label := utilizationLabel pct in
  if negb (String.eqb label "") then bar +:+ " " +:+ pad_left 3 (format0 pct) +:+ "% (" +:+ label +:+ ")"
  else bar +:+ " " +:+ pad_left 3 (format0 pct) +:+ "%".

Definition poolHasServerStatus (p : IPPool) : bool := negb (String.eqb (pst_IPFamily (pl_Status p)) "").

(** [poolUtilization] of the client. *)
Definition shownUtilization (p : IPPool) : spec_float :=
  if poolHasServerStatus p then pst_UtilizationPercent (pl_Status p) else capacityPercent (pst_Capacity (pl_Status p)).

(** [projectedUtilization]: before and after a claim of [claimLen] bits. *)
Definition projectedUtilization (c : PoolCapacity) (family : IPFamily) (claimLen : Z) : spec_float * spec_float :=
  let before := capacityPercent c in
  match SetString10 (pc_Total c) with
  | None => (before, before)
  | Some total =>
    if total <=? 0 then (before, before)
    else match SetString10 (pc_Allocated c) with
    | None => (before, before)
    | Some allocated =>
      let hostBits := familyBits family - claimLen in
      if hostBits <? 0 then (before, f_of_Z 100)
      else
        let allocated := allocated + 2 ^ hostBits in
        let allocated := if total <? allocated then total else allocated in
        (before, f_of_ratio (allocated * 100) total)
    end
  end.

(** ** Ages *)

Definition second : Z := 1000000000.
Definition minute : Z := 60 * second.
Definition hour : Z := 60 * minute.

(** [Duration.Seconds], [Minutes] and [Hours]: the whole units and the rest, each a
    float, added. *)
Definition dur_float (unit d : Z) : spec_float :=
  f_add (f_of_Z (Z.quot d unit)) (f_div (f_of_Z (Z.rem d unit)) (f_of_Z unit)).
Definition dur_int (unit d : Z) : Z := f_int (dur_float unit d).

(** [humanDuration], of the time since; [None] is the zero time. *)
Definition humanDuration (since : option Z) : string :=
  match since with
  | None => "<unknown>"
  | Some d =>
    let d := if d <? 0 then 0 else d in
    if d <? minute then decimal (dur_int second d) +:+ "s"
    else if d <? hour then decimal (dur_int minute d) +:+ "m"
    else if d <? 24 * hour then
      let h := dur_int hour d in
      let m := Z.rem (dur_int minute d) 60 in
      if m =? 0 then decimal h +:+ "h" else decimal h +:+ "h" +:+ decimal m +:+ "m"
    else
      let days := Z.quot (dur_int hour d) 24 in
      if days <? 8 then
        let h := Z.rem (dur_int hour d) 24 in
        if h =? 0 then decimal days +:+ "d" else decimal days +:+ "d" +:+ decimal h +:+ "h"
      else decimal days +:+ "d"
  end.

(** [itoa] of [main.go]: the digits are written from the end of twelve bytes; a write
    before the first is a panic. *)
Fixpoint itoa_loop (fuel : nat) (n i : Z) (buf : string) : option (Z * string) :=
  match fuel with
  | O => None
  | S fuel =>
    if 0 <? n then
      let i := i - 1 in
      if i <? 0 then None
      else itoa_loop fuel (n / 10) i (String (ascii_of_N (Z.to_N (48 + n mod 10))) buf)
    else Some (i, buf)
  end.

Definition itoa (n : Z) : option string :=
  if n =? 0 then Some "0"
  else
    let neg := n <? 0 in
    let n := if neg then (if n =? min_int64 then n else - n) else n in
    match itoa_loop 14 n 12 "" with
    | None => None
    | Some (i, buf) => if neg then (if i - 1 <? 0 then None else Some (String "-" buf)) else Some buf
    end.

(** ** Durations and small cells *)

(** The digits of [v] below [10 ^ prec] after a point, without trailing zeros, before
    [tail]; nothing when they are all zero ([fmtFrac]). *)
Fixpoint fraction (prec : nat) (v : Z) (printing : bool) (tail : string) : string :=
  match prec with
  | O => if printing then "." +:+ tail else tail
  | S prec =>
    let digit := v mod 10 in
    let printing := printing || negb (digit =? 0) in
    fraction prec (v / 10) printing (if printing then decimal digit +:+ tail else tail)
  end.

(** [Duration.String] *)
Definition Duration_String (d : Z) : string :=
  let u := Z.abs d in
  let sign := if d <? 0 then "-" else "" in
  if u =? 0 then "0s"
  else if u <? 1000 then sign +:+ decimal u +:+ "ns"
  else if u <? 1000000 then sign +:+ decimal (u / 1000) +:+ fraction 3 u false "µs"
  else if u <? second then sign +:+ decimal (u / 1000000) +:+ fraction 6 u false "ms"
  else
    let s := u / second in
    let seconds := decimal (s mod 60) +:+ fraction 9 u false "s" in
    let m := s / 60 in
    if m =? 0 then sign +:+ seconds
    else
      let minutes := decimal (m mod 60) +:+ "m" +:+ seconds in
      let h := m / 60 in
      if h =? 0 then sign +:+ minutes else sign +:+ decimal h +:+ "h" +:+ minutes.

Definition upper (c : ascii) : ascii :=
  let n := N_of_ascii c in
  if (97 <=? n)%N && (n <=? 122)%N then ascii_of_N (n - 32)%N else c.
Fixpoint ToUpper (s : string) : string := match s with "" => "" | String c t => String (upper c) (ToUpper t) end.

Definition phaseText (p : string) : string := if String.eqb p "" then emDash else ToUpper p.
Definition orZero (s : string) : string := if String.eqb s "" then "0" else s.
Definition orDashList (items : list string) : string := match items with [] => emDash | _ => joinWith "," items end.
Definition scopeRolesCell (roles : list string) (whenEmpty : string) : string :=
  match roles with [] => whenEmpty | _ => joinWith ", " roles end.

Definition sortedKeys {A} (m : gmap string A) : list string := merge_sort str_le (map fst (map_to_list m)).

(** ** Colour *)

Definition outputTable : string := "table".
Definition outputWide : string := "wide".
Definition outputJSON : string := "json".
Definition outputYAML : string := "yaml".
Definition outputName : string := "name".

(** [resolveColor]: [tty] is whether the writer is a terminal, [noColor] whether NO_COLOR
    is set. *)
Definition resolveColor (mode : string) (tty noColor : bool) (output : string) : bool :=
  if String.eqb output outputJSON || String.eqb output outputYAML || String.eqb output outputName then false
  else if String.eqb mode "always" then true
  else if String.eqb mode "never" then false
  else if noColor then false
  else tty.

Definition successPrefix (color : bool) : string := if color then colorize "✓" colorGreen else "✓".

(** [renderMachine]: which of the machine formats answers, if any. *)
Inductive machine := AsJSON | AsYAML | AsName (line : string).
Definition renderMachine (output : string) (name : string) : option machine :=
  if String.eqb output outputJSON then Some AsJSON
  else if String.eqb output outputYAML then Some AsYAML
  else if String.eqb output outputName then Some (AsName name)
  else None.

(** ** Tables *)

Record view := mkView { vw_headers : list string; vw_rows : list (list string) }.

Definition sort_named {A} (name : A -> string) (l : list A) : list A := merge_sort (fun a b => str_le (name a) (name b)) l.

Section Tables.
(** The time since an object was created; [None] when it has no creation time. *)
Context (poolAge : IPPool -> option Z) (classAge : IPClass -> option Z).
Context (claimAge : IPClaim -> option Z) (allocationAge : IPAllocation -> option Z).

Definition isDefaultClass (c : IPClass) : bool :=
  String.eqb (default "" (om_Annotations (cl_Meta c) !! IsDefaultClassAnnotation)) "true".

Definition classSourceCell (c : IPClass) : string :=
  match cs_Source (cl_Spec c) with None => emDash | Some s => csr_Project s +:+ "/" +:+ csr_Name s end.

Definition classUnitCell (c : IPClass) : string :=
  let len := cs_DefaultPrefixLength (cl_Spec c) in
  match cs_AllowedPrefixLengths (cl_Spec c) with
  | None => if len =? 0 then emDash else "/" +:+ decimal len
  | Some r =>
    let unit := if len =? 0 then emDash else "/" +:+ decimal len in
    if plr_Min r =? plr_Max r then unit
    else unit +:+ " (/" +:+ decimal (plr_Min r) +:+ "–/" +:+ decimal (plr_Max r) +:+ ")"
  end.

Definition classRow (wide : bool) (c : IPClass) : list string :=
  let name := if isDefaultClass c then cl_Name c +:+ " (default)" else cl_Name c in
  if wide then
    [name; orDash (cs_IPFamily (cl_Spec c)); orDash (cs_ParentClassName (cl_Spec c)); classUnitCell c;
     orDashList (cs_UniqueWithin (cl_Spec c)); classSourceCell c; phaseText (cl_Phase c); humanDuration (classAge c)]
  else
    [name; orDash (cs_IPFamily (cl_Spec c)); orDash (cs_ParentClassName (cl_Spec c)); classUnitCell c;
     phaseText (cl_Phase c); humanDuration (classAge c)].

(** [None] is a table not printed: there is nothing to list. *)
Definition renderClassTable (wide : bool) (classes : list IPClass) : option view :=
  match classes with
  | [] => None
  | _ => Some (mkView
      (if wide then ["NAME"; "FAMILY"; "PARENT"; "UNIT"; "UNIQUE WITHIN"; "SOURCE"; "PHASE"; "AGE"]
       else ["NAME"; "FAMILY"; "PARENT"; "UNIT"; "PHASE"; "AGE"])
      (map (classRow wide) (sort_named cl_Name classes)))
  end.

Definition claimRow (wide : bool) (c : IPClaim) : list string :=
  if wide then
    [ic_Name c; orDash (ics_ClassName (ic_Spec c)); orDash (claimAddress c); claimPoolName c; formatScope (ics_Scope (ic_Spec c));
     phaseText (icst_Phase (ic_Status c)); match icst_BoundAllocationRef (ic_Status c) with Some r => lr_Name r | None => emDash end;
     formatObjectRef (ics_OwnerRef (ic_Spec c)); orDash (ics_ReclaimPolicy (ic_Spec c)); humanDuration (claimAge c)]
  else
    [ic_Name c; orDash (ics_ClassName (ic_Spec c)); orDash (claimAddress c); claimPoolName c; formatScope (ics_Scope (ic_Spec c));
     phaseText (icst_Phase (ic_Status c)); humanDuration (claimAge c)].

Definition renderClaimTable (wide : bool) (claims : list IPClaim) : option view :=
  match claims with
  | [] => None
  | _ => Some (mkView
      (if wide then ["NAME"; "CLASS"; "ADDRESS"; "POOL"; "SCOPE"; "PHASE"; "ALLOCATION"; "OWNER"; "RECLAIM"; "AGE"]
       else ["NAME"; "CLASS"; "ADDRESS"; "POOL"; "SCOPE"; "PHASE"; "AGE"])
      (map (claimRow wide) (sort_named ic_Name claims)))
  end.

Definition allocationRow (wide : bool) (al : IPAllocation) : list string :=
  let sp := al_Spec al in
  if wide then
    [al_Name al; orDash (allocationAddress al); orDash (als_ClassName sp); lr_Name (als_PoolRef sp); allocationClaimName al;
     orDash (purpose_text (als_Purpose sp)); formatScope (als_Scope sp); formatObjectRef (als_OwnerRef sp);
     orDash (als_ReclaimPolicy sp); phaseText (alst_Phase (al_Status al)); humanDuration (allocationAge al)]
  else
    [al_Name al; orDash (allocationAddress al); orDash (als_ClassName sp); lr_Name (als_PoolRef sp); allocationClaimName al;
     phaseText (alst_Phase (al_Status al)); humanDuration (allocationAge al)].

Definition renderAllocationTable (wide : bool) (allocs : list IPAllocation) : option view :=
  match allocs with
  | [] => None
  | _ => Some (mkView
      (if wide then ["NAME"; "ADDRESS"; "CLASS"; "POOL"; "CLAIM"; "PURPOSE"; "SCOPE"; "OWNER"; "RECLAIM"; "PHASE"; "AGE"]
       else ["NAME"; "ADDRESS"; "CLASS"; "POOL"; "CLAIM"; "PHASE"; "AGE"])
      (map (allocationRow wide) (sort_named al_Name allocs)))
  end.

(** [counts]: children and claims of a pool, as [childCounts] tallies them.  [None] is
    the panic of [itoa]. *)
Definition poolRow (wide color : bool) (counts : (string -> Z) * (string -> Z)) (p : IPPool) : option (list string) :=
  let util := utilizationCell (shownUtilization p) 10 color in
  let family := orDash (poolFamily p) in
  if wide then
    children ← itoa (counts.1 (pl_Name p));
    prefixes ← itoa (counts.2 (pl_Name p));
    Some [pl_Name p; orDash (poolCIDR p); family; poolClassesCell p; formatScope (ps_Scope (pl_Spec p)); util;
          children; prefixes; orDash (pst_Phase (pl_Status p)); humanDuration (poolAge p)]
  else Some [pl_Name p; orDash (poolCIDR p); family; poolClassesCell p; util; humanDuration (poolAge p)].

Definition renderPoolTable (wide color : bool) (counts : (string -> Z) * (string -> Z)) (pools : list IPPool) : option (option view) :=
  match pools with
  | [] => Some None
  | _ =>
    rows ← mapM (poolRow wide color counts) (sort_by_name pools);
    Some (Some (mkView
      (if wide then ["NAME"; "CIDR"; "FAMILY"; "CLASSES"; "SCOPE"; "UTILIZATION"; "CHILDREN"; "CLAIMS"; "PHASE"; "AGE"]
       else ["NAME"; "CIDR"; "FAMILY"; "CLASSES"; "UTILIZATION"; "AGE"]) rows))
  end.

(** ** Detail views *)

Definition row (field value : string) : list (list string) := [[field; value]].
Definition row_if (shown : bool) (field value : string) : list (list string) := if shown then [[field; value]] else [].
Definition given (s : string) : bool := negb (String.eqb s "").
Definition detail (rows : list (list string)) : view := mkView ["FIELD"; "VALUE"] rows.

Definition scope_rows (scope : scope_map) : list (list string) :=
  map (fun role => ["Scope " +:+ role; formatScopeRef (ref_of scope role)]) (sortedScopeRoles scope).

Definition renderPoolDetail (p : IPPool) : view :=
  let pct := shownUtilization p in
  let sp := pl_Spec p in
  let c := pst_Capacity (pl_Status p) in
  let alloc := ps_Allocation sp in
  detail (row "Name" (pl_Name p)
    ++ row "CIDR" (orDash (poolCIDR p))
    ++ row "Family" (orDash (poolFamily p))
    ++ row "Phase" (orDash (pst_Phase (pl_Status p)))
    ++ match ps_ParentPoolRef sp with Some r => row "Parent" (lr_Name r) | None => [] end
    ++ row "Offered to classes" (poolClassesCell p)
    ++ match ps_ClassRef sp with Some r => row "Provisioned by" (lr_Name r) | None => [] end
    ++ scope_rows (ps_Scope sp)
    ++ row_if (given (pst_ScopeDigest (pl_Status p))) "Scope digest" (pst_ScopeDigest (pl_Status p))
    ++ row_if (given (ps_Visibility sp)) "Visibility" (ps_Visibility sp)
    ++ row "Utilization" (format0 pct +:+ "%"
         +:+ if given (utilizationLabel pct) then " (" +:+ utilizationLabel pct +:+ ")" else "")
    ++ row_if (given (pc_Total c)) "Capacity"
         ("total=" +:+ pc_Total c +:+ " allocated=" +:+ orZero (pc_Allocated c) +:+ " available=" +:+ orZero (pc_Available c))
    ++ row_if (negb (as_MinPrefixLength alloc =? 0) || negb (as_MaxPrefixLength alloc =? 0) || given (as_Strategy alloc)) "Allocation"
         ("min=/" +:+ decimal (as_MinPrefixLength alloc) +:+ " max=/" +:+ decimal (as_MaxPrefixLength alloc)
          +:+ " strategy=" +:+ orDash (as_Strategy alloc))
    ++ row "Age" (humanDuration (poolAge p))).

Definition renderClassDetail (c : IPClass) : view :=
  let sp := cl_Spec c in
  detail (row "Name" (if isDefaultClass c then cl_Name c +:+ "  (default for " +:+ cs_IPFamily sp +:+ ")" else cl_Name c)
    ++ match cs_Source sp with Some s => row "References" ("class " +:+ csr_Name s +:+ " in project " +:+ csr_Project s) | None => [] end
    ++ row "Family" (orDash (cs_IPFamily sp))
    ++ row "Phase" (phaseText (cl_Phase c))
    ++ (if given (cs_ParentClassName sp) then row "Carved from" (cs_ParentClassName sp)
        else match cs_Source sp with
             | None => row "Carved from" "— (drawn directly from pools that offer this class)"
             | Some _ => []
             end)
    ++ row "Default size" (classUnitCell c)
    ++ match cs_AllowedPrefixLengths sp with
       | Some r => row "Allowed sizes" ("/" +:+ decimal (plr_Min r) +:+ "–/" +:+ decimal (plr_Max r))
       | None => []
       end
    ++ row "Unique within" (scopeRolesCell (cs_UniqueWithin sp) "— (one address space platform-wide)")
    ++ match cs_PoolPer sp with [] => [] | roles => row "Provisions a pool per" (joinWith ", " roles) end
    ++ row_if (given (cs_Strategy sp)) "Strategy" (cs_Strategy sp)
    ++ row_if (given (cs_ReclaimPolicy sp)) "Reclaim policy" (cs_ReclaimPolicy sp)
    ++ match cs_RetentionLease sp with Some d => row "Retention lease" (Duration_String d) | None => [] end
    ++ (let r := cs_Routing sp in row_if (given (rt_Internal r) || given (rt_External r)) "Routing"
          ("internal=" +:+ orDash (rt_Internal r) +:+ " external=" +:+ orDash (rt_External r)))
    ++ row_if (given (cs_Provisioner sp)) "Provisioner" (cs_Provisioner sp)
    ++ map (fun k => ["Parameter " +:+ k; default "" (cs_Parameters sp !! k)]) (sortedKeys (cs_Parameters sp))
    ++ row "Age" (humanDuration (classAge c))).

(** The row of a block that is not the single address shown. *)
Definition block_row (address cidr : string) : list (list string) :=
  row_if (given address && given cidr && negb (String.eqb address cidr)) "Block" cidr.

Definition renderClaimDetail (c : IPClaim) : view :=
  let sp := ic_Spec c in let st := ic_Status c in
  detail (row "Name" (ic_Name c)
    ++ row "Class" (orDash (ics_ClassName sp))
    ++ row "Address" (orDash (claimAddress c))
    ++ block_row (icst_Address st) (icst_AllocatedCIDR st)
    ++ row "Phase" (phaseText (icst_Phase st))
    ++ row "Pool" (claimPoolName c)
    ++ row_if (given (ics_IPFamily sp)) "Family" (ics_IPFamily sp)
    ++ match ics_PrefixLength sp with Some n => row "Requested size" ("/" +:+ decimal n) | None => [] end
    ++ scope_rows (ics_Scope sp)
    ++ match icst_BoundAllocationRef st with Some r => row "Allocation" (lr_Name r) | None => [] end
    ++ row_if (given (ics_ReclaimPolicy sp)) "Reclaim policy" (ics_ReclaimPolicy sp)
    ++ match ics_OwnerRef sp with Some r => row "Held for" (formatObjectRef (Some r)) | None => [] end
    ++ row "Age" (humanDuration (claimAge c))).

Definition renderAllocationDetail (al : IPAllocation) : view :=
  let sp := al_Spec al in let st := al_Status al in
  detail (row "Name" (al_Name al)
    ++ row "Address" (orDash (allocationAddress al))
    ++ block_row (alst_Address st) (alst_AllocatedCIDR st)
    ++ row "Class" (orDash (als_ClassName sp))
    ++ row "Family" (orDash (als_IPFamily sp))
    ++ row "Pool" (lr_Name (als_PoolRef sp))
    ++ row "Purpose" (orDash (purpose_text (als_Purpose sp)))
    ++ row "Claim" (allocationClaimName al)
    ++ row "Phase" (phaseText (alst_Phase st))
    ++ scope_rows (als_Scope sp)
    ++ row_if (given (alst_ScopeDigest st)) "Scope digest" (alst_ScopeDigest st)
    ++ row_if (given (als_ReclaimPolicy sp)) "Reclaim policy" (als_ReclaimPolicy sp)
    ++ match als_OwnerRef sp with Some r => row "Held for" (formatObjectRef (Some r)) | None => [] end
    ++ row "Age" (humanDuration (allocationAge al))).

End Tables.

(** A condition, and those that are not True. *)
Record condition := mkCondition { cd_Type : string; cd_Status : string; cd_Reason : string; cd_Message : string }.

Definition renderConditions (conditions : list condition) : option view :=
  match List.filter (fun c => negb (String.eqb (cd_Status c) "True")) conditions with
  | [] => None
  | notable => Some (mkView ["CONDITION"; "STATUS"; "REASON"; "MESSAGE"]
      (map (fun c => [cd_Type c; cd_Status c; orDash (cd_Reason c); orDash (cd_Message c)]) notable))
  end.

(** The filter of [class list]. *)
Definition listClasses `{ApiMachinery} (family : string) (listed : result GoErr (list IPClass)) :
    result cliError (list IPClass) :=
  match listed with
  | Err e => Err (classifyError e)
  | Ok items =>
    if String.eqb family "" then Ok items
    else fam ← parseFamily family; Ok (List.filter (fun c => String.eqb (cs_IPFamily (cl_Spec c)) fam) items)
  end.

(** The classes a mistyped name is answered with, in order. *)
Definition visibleClassNames (listed : result GoErr (list IPClass)) : list string :=
  match listed with Ok items => merge_sort str_le (map cl_Name items) | Err _ => [] end.

(** [poolSummaryLine], and the two sections of pools under a class: the lines of
    [poolsForClass], in order. *)
Definition poolSummaryLine (p : IPPool) : string :=
  let line := pl_Name p +:+ "  " +:+ orDash (poolCIDR p) +:+ "  " +:+ format0 (shownUtilization p) +:+ "% used" in
  if (0 <? size (ps_Scope (pl_Spec p)))%nat then line +:+ "  [" +:+ formatScope (ps_Scope (pl_Spec p)) +:+ "]" else line.

Definition class_pool_lines (pools : result GoErr (list IPPool)) (className : string) : list string * list string :=
  match pools with
  | Err _ => ([], [])
  | Ok items =>
    (merge_sort str_le (map poolSummaryLine (List.filter (fun p => existsb (String.eqb className) (ps_ClassNames (pl_Spec p))) items)),
     merge_sort str_le (map poolSummaryLine (List.filter (fun p => match ps_ClassRef (pl_Spec p) with
                                                                  | Some r => String.eqb (lr_Name r) className
                                                                  | None => false
                                                                  end) items)))
  end.

(** ** What a claim prints *)

(** [scopeLine] of [app.go]. *)
Definition scopeLine (org project namespace : string) : string :=
  if given org && given project then org +:+ " / " +:+ project else if given project then project else namespace.

(** The pool of a result, looked up for its line; the name alone when it cannot be read. *)
Definition pool_line (getPool : string -> result GoErr IPPool) (text : IPPool -> string) (ref : LocalRef) : string :=
  match getPool (lr_Name ref) with Ok p => text p | Err _ => lr_Name ref end.

(** [renderClaimResult], machine formats aside. *)
Definition renderClaimResult (quiet color : bool) (org project : string) (getPool : string -> result GoErr IPPool)
    (claim : IPClaim) (idempotent : bool) : list string :=
  let addr := claimAddress claim in
  if quiet then [addr]
  else
    [successPrefix color +:+ " " +:+ (if idempotent then "Reused existing claim for" else "Claimed") +:+ " " +:+ orDash addr;
     "  claim:       " +:+ ic_Name claim;
     "  class:       " +:+ orDash (ics_ClassName (ic_Spec claim))]
    ++ (if (0 <? size (ics_Scope (ic_Spec claim)))%nat then ["  scope:       " +:+ formatScope (ics_Scope (ic_Spec claim))] else [])
    ++ match icst_BoundAllocationRef (ic_Status claim) with Some r => ["  allocation:  " +:+ lr_Name r] | None => [] end
    ++ match icst_PoolRef (ic_Status claim) with
       | Some r => ["  from pool:   " +:+ pool_line getPool
           (fun p => pl_Name p +:+ " (" +:+ orDash (poolCIDR p) +:+ ", " +:+ format0 (shownUtilization p) +:+ "% used)") r]
       | None => []
       end
    ++ ["  org/project: " +:+ scopeLine org project (ic_Namespace claim)].

(** [renderClaimDryRun], on the error stream. *)
Definition renderClaimDryRun (getPool : string -> result GoErr IPPool) (dryClaim : IPClaim) : list string :=
  let addr := claimAddress dryClaim in
  ["Dry run — no allocation was made.";
   if given addr then "Would claim:   " +:+ addr +:+ " of class " +:+ orDash (ics_ClassName (ic_Spec dryClaim))
   else "Would claim:   an address of class " +:+ orDash (ics_ClassName (ic_Spec dryClaim))]
  ++ (if (0 <? size (ics_Scope (ic_Spec dryClaim)))%nat then ["Scope:         " +:+ formatScope (ics_Scope (ic_Spec dryClaim))] else [])
  ++ match icst_PoolRef (ic_Status dryClaim) with
     | Some r => ["Resolved pool: " +:+ pool_line getPool
         (fun p => pl_Name p +:+ " (" +:+ format0 (shownUtilization p) +:+ "% used)") r]
     | None => []
     end.

(** ** Concrete values *)

Example ages : map humanDuration [None; Some (30 * second); Some (5 * minute); Some (312 * 24 * hour); Some (3 * hour + 2 * minute + 59 * second);
                                  Some (24 * hour); Some (25 * hour); Some (-1)]
  = ["<unknown>"; "30s"; "5m"; "312d"; "3h2m"; "1d"; "1d1h"; "0s"].
Proof. vm_compute. reflexivity. Qed.

Example durations : map Duration_String [0; 1; 1500; 2000000; second + second / 2; 72 * hour; - (minute + second)]
  = ["0s"; "1ns"; "1.5µs"; "2ms"; "1.5s"; "72h0m0s"; "-1m1s"].
Proof. vm_compute. reflexivity. Qed.

Example percentages : map capacityPercent [mkCapacity "" "" ""; mkCapacity "100" "50" ""; mkCapacity "256" "256" ""; mkCapacity "100" "73" ""]
  = [f_zero; f_of_Z 50; f_of_Z 100; f_of_Z 73].
Proof. vm_compute. reflexivity. Qed.

Example projected : projectedUtilization (mkCapacity "1024" "256" "768") IPv4 24 = (f_of_Z 25, f_of_Z 50).
Proof. vm_compute. reflexivity. Qed.

Example bars : map (fun z => utilizationBar (f_of_Z z) 10 false) [0; 4; 5; 98] = ["░░░░░░░░░░"; "░░░░░░░░░░"; "█░░░░░░░░░"; "██████████"].
Proof. vm_compute. reflexivity. Qed.

(** ** What the views promise *)

(** A bar has the width asked for, ten where none is, whatever the percentage: some of it
    filled, then the rest. *)
Theorem bar_keeps_width pct width : let w := if width <=? 0 then 10 else width in
  exists filled, 0 <= filled <= w
    /\ utilizationBar pct width false = repeated (Z.to_nat filled) "█" +:+ repeated (Z.to_nat (w - filled)) "░".
Proof.
  intros w. exists (bar_filled pct w). split; [|done].
  assert (0 < w) by (subst w; destruct (Z.leb_spec width 0); lia).
  unfold bar_filled. set (f := f_int _). cbv zeta. destruct (Z.ltb_spec w f).
  - destruct (Z.ltb_spec w 0); lia.
  - destruct (Z.ltb_spec f 0); lia.
Qed.

Fixpoint every (n : nat) (p : Z -> bool) : bool := match n with O => true | S n => p (Z.of_nat n) && every n p end.
Lemma every_spec n p : every n p = true -> forall z, 0 <= z < Z.of_nat n -> p z = true.
Proof.
  induction n as [|n IH]; intros H z Hz; [lia|]. cbn [every] in H. apply andb_true_iff in H as [Hn Hr].
  destruct (Z.eq_dec z (Z.of_nat n)) as [->|]; [done|]. apply IH; [done | lia].
Qed.

(** A whole percentage fills its tenths, rounded, halves up: 5% shows and 95% is a full
    bar. *)
Theorem bar_rounds pct : 0 <= pct <= 100 -> bar_filled (f_of_Z pct) 10 = (pct + 5) / 10.
Proof.
  intros H. apply Z.eqb_eq. apply (every_spec 101 (fun p => bar_filled (f_of_Z p) 10 =? (p + 5) / 10)); [|lia].
  vm_compute. reflexivity.
Qed.

Lemma bar_rounds_witness : bar_filled (f_of_Z 73) 10 = 7.
Proof. etransitivity; [apply (bar_rounds 73); lia | reflexivity]. Defined.

Lemma itoa_loop_panics fuel : forall n i buf, 0 <= i < Z.of_nat fuel ->
  match itoa_loop fuel n i buf with None => 10 ^ i <= n | Some _ => n < 10 ^ i end.
Proof.
  induction fuel as [|fuel IH]; intros n i buf Hi; [lia|]. cbn [itoa_loop].
  destruct (Z.ltb_spec 0 n) as [Hn|Hn].
  - destruct (Z.ltb_spec (i - 1) 0); [replace i with 0 by lia; change (10 ^ 0) with 1; lia|].
    specialize (IH (n / 10) (i - 1) (String (ascii_of_N (Z.to_N (48 + n mod 10))) buf) ltac:(lia)).
    assert (10 ^ i = 10 * 10 ^ (i - 1)) as E by (rewrite <- Z.pow_succ_r by lia; f_equal; lia).
    pose proof (Z.div_mod n 10 ltac:(lia)). pose proof (Z.mod_pos_bound n 10 ltac:(lia)).
    destruct (itoa_loop fuel _ _ _) as [p|]; lia.
  - pose proof (Z.pow_pos_nonneg 10 i). lia.
Qed.

(** The twelve bytes of [itoa] hold counts of twelve digits; a larger one is a panic, and
    nothing else is. *)
Theorem itoa_panics n : 0 <= n -> itoa n = None <-> 10 ^ 12 <= n.
Proof.
  intros Hn. unfold itoa. destruct (Z.eqb_spec n 0) as [->|]; [split; [done | lia]|].
  rewrite (proj2 (Z.ltb_ge n 0)) by lia. cbv zeta. pose proof (itoa_loop_panics 14 n 12 "" ltac:(lia)) as Hp.
  destruct (itoa_loop 14 n 12 "") as [[i buf]|]; split; first [done | lia].
Qed.

Lemma itoa_panics_witness : itoa 999999999999 = Some "999999999999" /\ itoa (10 ^ 12) = None.
Proof. split; [vm_compute; reflexivity|]. apply (itoa_panics (10 ^ 12)); lia. Defined.

Definition fits (v : view) : Prop := Forall (fun r => length r = length (vw_headers v)) (vw_rows v).

Lemma map_fits {A} (f : A -> list string) headers l :
  (forall a, length (f a) = length headers) -> fits (mkView headers (map f l)).
Proof. intros H. unfold fits. cbn. apply Forall_map, Forall_true, H. Qed.

Lemma poolRow_fits age wide color counts p r : poolRow age wide color counts p = Some r ->
  length r = if wide then 10%nat else 6%nat.
Proof.
  unfold poolRow. destruct wide; [|by intros [= <-]]. cbn. destruct (itoa (counts.1 _)); [|done]. cbn.
  destruct (itoa (counts.2 _)); [|done]. by intros [= <-].
Qed.

(** Every row of every table, narrow or wide, has one cell under each header. *)
Theorem rows_fit_headers poolAge classAge claimAge allocationAge wide color counts pools classes claims allocs v :
  renderPoolTable poolAge wide color counts pools = Some (Some v) \/ renderClassTable classAge wide classes = Some v
  \/ renderClaimTable claimAge wide claims = Some v \/ renderAllocationTable allocationAge wide allocs = Some v -> fits v.
Proof.
  intros [H|[H|[H|H]]].
  - unfold renderPoolTable in H. destruct pools as [|p pools]; [done|].
    destruct (mapM _ _) as [rows|] eqn:E; [|done]. cbn in H. injection H as <-. apply mapM_Some in E. unfold fits. cbn.
    induction E as [|q r ps rs Hq _ IH]; constructor; [|exact IH]. apply poolRow_fits in Hq. by destruct wide.
  - destruct classes; [done|]. injection H as <-. apply map_fits. intros a. unfold classRow. by destruct wide.
  - destruct claims; [done|]. injection H as <-. apply map_fits. intros a. unfold claimRow. by destruct wide.
  - destruct allocs; [done|]. injection H as <-. apply map_fits. intros a. unfold allocationRow. by destruct wide.
Qed.

Lemma rows_fit_headers_witness :
  fits (mkView ["NAME"; "CIDR"; "FAMILY"; "CLASSES"; "UTILIZATION"; "AGE"]
    [["p"; "—"; "IPv6"; "— (none)"; "░░░░░░░░░░   0%"; "5m"]]).
Proof.
  apply (rows_fit_headers (fun _ => Some (5 * minute)) (fun _ => None) (fun _ => None) (fun _ => None)
    false false (fun _ => 0, fun _ => 0) [table_pool] [] [] []).
  left. vm_compute. reflexivity.
Defined.

(** JSON, YAML and names are never coloured, whatever [--color] says; NO_COLOR turns
    colour off unless it is asked for. *)
Theorem machine_output_plain mode tty noColor output :
  (renderMachine output "" <> None -> resolveColor mode tty noColor output = false)
  /\ (resolveColor mode tty true output = true -> mode = "always").
Proof.
  unfold renderMachine, resolveColor. split.
  - destruct (String.eqb output outputJSON); [done|]. destruct (String.eqb output outputYAML); [done|].
    by destruct (String.eqb output outputName).
  - destruct (_ || _ || _); [done|]. destruct (String.eqb_spec mode "always"); [done|]. by destruct (String.eqb mode "never").
Qed.

(** A pool in use prints as empty.  The server's table says "<0.1%" for one /48 out of a
    /16, by design never "0%" while anything is held; the client's line of the same pool
    says "0% used". *)
Theorem client_hides_use :
  let p := setPoolCapacityStatus table_pool [mk_net 0 16 128] (2 ^ 80) in
  Table.poolUtilization p = "<0.1%" /\ poolSummaryLine p = "p  —  0% used"
  /\ utilizationCell (shownUtilization p) 10 false = "░░░░░░░░░░   0%".
Proof. split_and!; vm_compute; reflexivity. Qed.
